(* ===== verification/_CoqProject ===== *)
-Q . S2P
Prelude.v
Mem.v
Avl.v
Vmm.v
Bitmap.v
Cmm.v
Pma.v
PmaSpec.v
PmaZone.v
PmaSys.v
Paging.v
PagingSpec.v
PageSource.v
Stdio.v
StdioSpec.v
Heap.v
HeapSpec.v
HeapInv.v
HeapOps.v
HeapApi.v
HeapRun.v
Sched.v
SchedSpec.v
Cuterm.v
CutermSpec.v
Crc32.v
Bytes.v
Disk.v
DiskSpec.v
DiskParse.v
DiskInstall.v
DiskApi.v
Ata.v
Dma.v
Symtable.v
Cmdline.v
Logbuf.v
Smbios.v
Elf.v
ElfSpec.v
ElfLoad.v
ElfAlloc.v
ElfRun.v
Registry.v
Irq.v
IrqSpec.v
IrqApi.v
Ports.v
Clock.v
ClockSpec.v
Rand.v
Acpi.v
AcpiSpec.v
Smp.v
SmpSpec.v
Pci.v
PciSpec.v
Ramfs.v
Serial.v
