(* ===== verification/Prelude.v ===== *)
(** CuoreOS: a verification library for the kernel in src/.

    CuoreOS is a small x86-64 kernel started by the Limine boot loader.  This
    library models the parts of it that compute - allocators, page tables, the
    heap, the scheduler, the terminal, the formatter and the parsers of disk,
    firmware, symbol and command line data - and proves what they promise their
    callers.  The file is the root: it documents the library and holds what all
    files share (machine integers, the result monad, loops, tactics, lemmas).

    * How the code is modelled

    - A w-bit integer is a [Z]; [u8] to [u64] wrap a result where the C type
      does, [i32] and [i64] read two's complement.  Where C leaves the overflow
      of a signed integer undefined the model faults.
    - An operation returns a [result]: [Ok], [Panic] with the module and the
      text given to panic(), [Fault] for an access to memory that the state does
      not hold (NULL, freed, outside of an object) and other undefined
      behaviour, and [Fuel] when a bounded loop ran out.  A theorem that says
      "= Ok" therefore says that the code does not panic, touches only memory it
      may touch, and ends.
    - State is passed explicitly; each component has a record with the fields of
      its static variables.  Objects that point to each other (heap blocks, free
      lists, tasks, partition nodes) live in a [gmap] by address, so aliasing
      and stale pointers are what they are in C.  AVL trees, which own their
      nodes, are inductive trees.
    - Loops are structural, or [for_range], or take fuel.  Every theorem about a
      loop with fuel either gives an amount that is enough as a function of the
      input (the number of blocks of the heap, of symbols, of characters, of
      bytes of a table), or the definition itself starts it with such an amount.
    - Calls into components that a file does not fix go through a class of
      operations with laws (below); the laws are what the callee's own theorems
      prove, or the documented behaviour of hardware, and each class has an
      instance on which the witnesses run.
    - Outside of Smp locks and interrupt masking are left out: each operation
      runs under its lock from start to end, on one core.  Smp has all cores at
      once: its steps are single accesses to shared memory, in any order.

    * The parts and their files

    Foundations.
    - Prelude: integers, [result], loops, bit lemmas, tactics.
    - Mem: mem/mem.h.  Byte memory, memcpy, memmove, memset, the string
      routines and the pointer checks in front of them.
    - Bytes: packed structures in byte buffers (field access at the offset the
      packed attribute gives).
    - Bitmap: datatype/bitmap.[ch].
    - Avl: datatype/avl.[ch].  [avl_insert], [avl_delete], [avl_find],
      rotations, with the update callback of augmented trees.

    Memory management.
    - Cmm: mem/cmm.[ch], the typed map of physical memory, filled from the
      boot loader's entries and edited by [cmm_insert_region].
    - Pma, PmaSpec, PmaZone, PmaSys: mem/pma.[ch], the physical page allocator:
      a two level segregated fit per zone.  Pma has every function; PmaSpec the
      size classes and free lists against a map from block start to size;
      PmaZone one zone with its page bitmap; PmaSys both zones, boot, and
      sequences of calls.  It reads the regions of Cmm.
    - Vmm: mem/vmm.[ch], virtual ranges in an augmented tree of Avl.
    - Paging, PagingSpec, PageSource: mem/paging.[ch].  The walk that allocates
      tables and splits huge pages, map, unmap and translate.  New tables come
      from the class [PageSource], which PageSource implements by the model of
      the physical allocator.
    - Heap, HeapSpec, HeapInv, HeapOps, HeapApi, HeapRun: mem/heap.[ch].  Heap has
      every function; pages come from the class [PageBackend] (pma, vmm and paging
      behind one interface), whose laws are [BackendLaws].  HeapSpec describes the
      doubly linked list, HeapInv the invariant, HeapOps release and reallocation,
      HeapApi what malloc, free and realloc promise, HeapRun sequences of calls.
    - Dma: mem/dmalloc.[ch], buffers for devices on the model of pma.c.

    Processes and console.
    - Sched, SchedSpec: scheduler.[ch], the ring of tasks of a core, its tick,
      creation and removal of tasks; heap and pages behind [TaskMemory].
    - Stdio, StdioSpec: stdio.c, the formatter, number parsing, line input.
      StdioSpec states what a format asks for by the grammar of its directives,
      apart from the code that reads them.
    - Cuterm, CutermSpec: graphics/ui/cuterm.[ch], the framebuffer terminal
      with its escape sequences, down to the bytes of the framebuffer.
    - Logbuf: logbuf.[ch], the ring of the kernel log, on top of Stdio.
    - Registry: devices/registry.[ch], char.c, the table of devices.
    - Serial: drivers/UART16550.c and E9.c, the serial port with the ring its
      interrupt fills, on Ports, Registry and the frames of Irq.
    - Irq, IrqSpec, IrqApi: cpu/IDT.c, IRQ.h, IRQHL.h.  The stubs are lists of
      instructions of a machine with registers and a stack; Irq has them, the
      descriptor table, the chains of handlers and the report of exceptions;
      IrqSpec what pushes and pops do and the chains; IrqApi whole interrupts
      and exceptions.

    Time and chance.
    - Ports: port input and output as a class.
    - Clock, ClockSpec: time.c, drivers/RTC.c, CMOS.c and the counter of
      firmware/acpi/hpet.c; ClockSpec has a calendar that goes day by day and
      the law of the clock chip [RtcLaws].
    - Rand: rand/swrand.c.

    Cores, firmware and buses.
    - Smp, SmpSpec: cpu/smp/init.c, mailbox.c and the start of the cores in
      kmain.c.  A state has the shared memory, the cores that were started with
      their place in the code, and the code that sends; [step] is one access or
      interrupt, [reachable] every order of them.
    - Acpi, AcpiSpec: firmware/acpi/, the walk over the root table and the
      readers of the MADT, MCFG, CEDT, FADT, BGRT and WAET.
    - Pci, PciSpec: pci/pci.c and the table of dtable.c.  The configuration space
      is reached through the ports and mapped registers of [PciBus], by the
      address that Acpi finds; [PciLaws] is what the PCI specification says.

    Tables and parsers.
    - Crc32: math/crc32.S with its table.
    - Disk, DiskSpec, DiskParse, DiskInstall, DiskApi: disk/mbr.c, gpt.c,
      partition.c, diskinit.c.  Sectors, DMA buffers, list nodes and the log are
      behind [DiskEnv] with the laws [DiskEnvLaws]; [ram] in DiskApi is a disk
      in memory.  Ata: disk/ata.c.
    - Ramfs: fs/ramfs.[ch] and the program that writes its image, mkramfs.c.
    - Symtable: symtable.[ch].  Cmdline: cmdline.[ch] and math/fnv1a.[ch].
      Smbios: firmware/smbios/smbios.[ch].
    - Elf: binfmt/elf64.c, the loader of programs, on Paging, a source of frames
      ([FrameSource]) and the bytes of Mem.  ElfSpec: its invariant and the
      mapping of a segment; ElfLoad: contents and whole files; ElfAlloc:
      elf64_alloc, on Sched; ElfRun: PmaSys as [FrameSource] and runs.

    * What the theorems show

    - Trees (Avl): insertion and deletion keep order, balance, exact heights and
      augmentation, and do to the sorted list of keys what their names say; the
      height is logarithmic.
    - Virtual ranges (Vmm): allocation is first fit and agrees with a linear
      scan; live ranges stay apart in every reachable state; panics happen under
      exactly the documented conditions.
    - Physical memory (Cmm, PmaSys): what type each address gets; boot frees
      exactly the usable pages; allocation and release of any ranges keep the
      free blocks maximal and apart, and in every sequence of calls live
      allocations are aligned and disjoint and together with the free pages are
      exactly the usable pages, each in one of the two.
    - Page tables (PagingSpec): the tables stay a tree apart from free memory;
      mapping and unmapping change the translation of exactly the page they
      name, at all three sizes, huge page splits included.
    - Programs (ElfLoad, ElfAlloc): a well-formed file is loaded byte for byte
      into an address space that shares the upper half, without touching the
      file, a page table or a page that was mapped before; [refused] tells
      whether the allocator ran out meanwhile.
    - Heap (HeapApi, HeapRun): for every backend that keeps its laws, malloc, free
      and realloc do to the live payloads and their contents what C promises, but
      for the growth of a block by 16 or 32 bytes; in every sequence of such calls
      live payloads keep apart from each other and from the headers.
    - Scheduler (SchedSpec): a tick rotates the ring, the ring refines a queue of
      tasks, and a task waits at most as many ticks as its place in the queue.
    - Interrupts (IrqApi): the stub saves the interrupted state as the frame the C
      code declares, the handlers of the vector run in order, and the machine
      goes on in the state of the frame they return, with the special registers as
      the handlers left them; exceptions print their frame field by field.
      Devices (Registry, Serial): handles find their device; the bytes received
      are a queue of at most 1023 bytes.
    - Time (ClockSpec): the registers of the clock become the seconds of the
      calendar, the counter adds whole seconds within a bound, sleeps end.
      Chance (Rand): a number of a range is that of the first draw that is kept,
      it comes after finitely many draws, each number has equally many of the
      draws, and the generator goes through all its states.
    - Cores (SmpSpec): the cores come up with blocks and indices of their own in
      every order of steps; while one sequential sender sends, each message is
      called once, in order and within a bound; a message to all reaches all when
      nothing else is sent.
    - Firmware (AcpiSpec): the tables of the root table are visited in order and
      those with a right checksum are read; interrupts are routed and
      configuration spaces found as the tables say.
    - PCI (PciSpec): on buses without bridges the search finds the functions that
      are there and measures their address registers without a lasting change (the
      size of a register of 16 bits of I/O addresses comes out wrong, as stated);
      drivers get devices they are for, one per device and one per group.
    - Text (StdioSpec, CutermSpec, Logbuf): the formatter writes the text the
      format stands for, cut to the buffer, numbers survive printing and parsing,
      line input stays in its limit; the terminal refines a screen of cells pixel
      by pixel, on screens of every height.
    - Disk (DiskApi, Crc32): the checksum is the polynomial division; the boot
      path lists exactly the partitions of the disk; what the installers write
      is what it lists.
    - Files (Ramfs): the first file of an image of the builder is found with its
      bytes.
    - Lookups and parsers (Symtable, Cmdline, Smbios, Ata): binary search in
      logarithmically many steps, printed arguments parse back, the structures
      of every well-formed firmware table are found.

    * Where the code does not do what it means to

    Such behaviour is modelled as it is, the theorems state the condition under
    which the code is right, and a closed example shows the failure; among them
    [HeapApi.realloc_loses_blocks], [PmaSys.pma_double_allocation],
    [DiskApi.partition_refresh_cycles], [Cmm.cmm_insert_overlap],
    [CutermSpec.scroll_shows_strip], [PciSpec.short_io_bar],
    [SmpSpec.null_call_faults], [Serial.getc_sleeps_on_byte],
    [Logbuf.overflow_missed], [StdioSpec.vsnprintf_overruns],
    [PageSource.get_phys_keeps_nx], [ElfRun.elf_text_becomes_writable],
    [IrqApi.irq_transparent_but_operand], [SmpSpec.two_senders_lose_message],
    [SmpSpec.boot_one_too_many], [AcpiSpec.mcfg_ignores_start],
    [PciSpec.claimed_without_driver], [Ramfs.second_file_lost].

    * Bounds

    Physical memory is below 2^47 (the size of the direct map of x86-64), a zone
    has less than 2^35 pages, the heap less than 2^47 bytes, a disk less than
    2^32 sectors where the installers store 32-bit sector numbers; the bounds
    are hypotheses of the theorems that need them.  Symbol tables have fewer
    than 2^32 entries of 12 bytes, strings fit into [fuel] bytes.
    A segment of n bytes needs n / 4096 + 520 rounds of each loop of the loader.

    * Not modelled

    The register protocols of devices (PCI drivers, APICs, the keyboard and the
    speaker), whose behaviour is that of hardware; the mapping of the HPET;
    single instruction wrappers; boot glue and the built-in tests; tables of
    constants (font, key maps).  The cores of Smp see each other's accesses in one
    order, as accesses with acquire and release order of x86-64 do here; a core
    that gets no memory for its block is a step of its own.  *)

From stdpp Require Export base numbers list option strings gmap.
From Stdlib Require Export ZArith Lia Sorted.

#[global] Open Scope Z_scope.

(** * Machine integers

    A [w]-bit unsigned integer is a [Z] in [0, 2^w); every operation of the C
    code that can leave that range goes through one of the wrapping functions
    below, exactly where C converts or wraps. *)

Definition u8 (z : Z) : Z := z mod 2 ^ 8.
Definition u16 (z : Z) : Z := z mod 2 ^ 16.
Definition u32 (z : Z) : Z := z mod 2 ^ 32.
Definition u64 (z : Z) : Z := z mod 2 ^ 64.

(** Two's complement reading of an unsigned value of [w] bits. *)
Definition sint (w z : Z) : Z := let m := z mod 2 ^ w in if m <? 2 ^ (w - 1) then m else m - 2 ^ w.
Definition i32 (z : Z) : Z := sint 32 z.
Definition i64 (z : Z) : Z := sint 64 z.

(** Bitwise complement at width 64, C's [~x] on a [uint64_t]. *)
Definition not64 (z : Z) : Z := 2 ^ 64 - 1 - z.

(** * Outcomes of kernel code

    [Panic] carries the two strings the code passes to [panic]; [Fault] is a
    dereference of NULL or of memory the model does not hold; [Fuel] is a loop
    that did not finish within the fuel it was given. *)

Inductive result (A : Type) : Type :=
| Ok (a : A)
| Panic (tag msg : string)
| Fault
| Fuel.
Arguments Ok {_} _.
Arguments Panic {_} _ _.
Arguments Fault {_}.
Arguments Fuel {_}.

#[global] Instance result_ret : MRet result := λ A a, Ok a.
#[global] Instance result_bind : MBind result := λ A B f m,
  match m with
  | Ok a => f a
  | Panic t s => Panic t s
  | Fault => Fault
  | Fuel => Fuel
  end.

(** Turn a lookup that the C code performs unchecked into an outcome. *)
Definition of_option {A} (o : option A) : result A :=
  match o with Some a => Ok a | None => Fault end.

Definition is_ok {A} (m : result A) : bool :=
  match m with Ok _ => true | _ => false end.

Lemma bind_ok {A B} (m : result A) (f : A → result B) b :
  (m ≫= f) = Ok b → ∃ a, m = Ok a ∧ f a = Ok b.
Proof. destruct m; simpl; intros H; try discriminate; eauto. Qed.

(** [for (i = 0; i < n; i++)] *)
Definition for_range {A} (n : Z) (f : Z → A → result A) (s : A) : result A :=
  foldl (λ r i, s ← r; f i s) (Ok s) (seqZ 0 n).

(** * Tactics *)

(** Split the next [if] or [match] of the goal or of a hypothesis. *)
Ltac split_match :=
  match goal with
  | |- context [ match ?e with _ => _ end ] => destruct e eqn:?
  end.
Ltac split_match_in H :=
  match type of H with
  | context [ match ?e with _ => _ end ] => destruct e eqn:?
  end.

(** Turn boolean comparisons on [Z] in the context into propositions. *)
Ltac zify_bools :=
  repeat match goal with
  | H : (_ <? _) = true |- _ => apply Z.ltb_lt in H
  | H : (_ <? _) = false |- _ => apply Z.ltb_ge in H
  | H : (_ <=? _) = true |- _ => apply Z.leb_le in H
  | H : (_ <=? _) = false |- _ => apply Z.leb_gt in H
  | H : (_ >? _) = true |- _ => rewrite Z.gtb_ltb in H; apply Z.ltb_lt in H
  | H : (_ >? _) = false |- _ => rewrite Z.gtb_ltb in H; apply Z.ltb_ge in H
  | H : (_ >=? _) = true |- _ => rewrite Z.geb_leb in H; apply Z.leb_le in H
  | H : (_ >=? _) = false |- _ => rewrite Z.geb_leb in H; apply Z.leb_gt in H
  | H : (_ =? _) = true |- _ => apply Z.eqb_eq in H
  | H : (_ =? _) = false |- _ => apply Z.eqb_neq in H
  | H : (_ && _)%bool = true |- _ => apply andb_true_iff in H as [? ?]
  | H : (_ || _)%bool = false |- _ => apply orb_false_iff in H as [? ?]
  | H : negb _ = true |- _ => apply negb_true_iff in H
  | H : negb _ = false |- _ => apply negb_false_iff in H
  end.

(** Decide every [Z] comparison of the goal. *)
Ltac case_z :=
  match goal with
  | |- context [ ?a <? ?b ] => destruct (Z.ltb_spec a b)
  | |- context [ ?a <=? ?b ] => destruct (Z.leb_spec a b)
  | |- context [ ?a =? ?b ] => destruct (Z.eqb_spec a b)
  end.

(** Evaluate the [Z] comparisons of the goal that [lia] decides. *)
Ltac settle_z :=
  repeat match goal with
  | |- context [ ?a <? ?b ] => first [ rewrite (proj2 (Z.ltb_lt a b)) by lia | rewrite (proj2 (Z.ltb_ge a b)) by lia ]
  | |- context [ ?a <=? ?b ] => first [ rewrite (proj2 (Z.leb_le a b)) by lia | rewrite (proj2 (Z.leb_gt a b)) by lia ]
  | |- context [ ?a =? ?b ] => first [ rewrite (proj2 (Z.eqb_eq a b)) by lia | rewrite (proj2 (Z.eqb_neq a b)) by lia ]
  end.

(** * Generic lemmas *)

Create HintDb cuore discriminated.

Lemma u64_id z : 0 <= z < 2 ^ 64 → u64 z = z.
Proof. intros; unfold u64; apply Z.mod_small; lia. Qed.

Lemma u64_range z : 0 <= u64 z < 2 ^ 64.
Proof. unfold u64; apply Z.mod_pos_bound; lia. Qed.

Lemma u32_id z : 0 <= z < 2 ^ 32 → u32 z = z.
Proof. intros; unfold u32; apply Z.mod_small; lia. Qed.

Lemma u32_range z : 0 <= u32 z < 2 ^ 32.
Proof. unfold u32; apply Z.mod_pos_bound; lia. Qed.

Lemma u8_range z : 0 <= u8 z < 2 ^ 8.
Proof. unfold u8; apply Z.mod_pos_bound; lia. Qed.

Lemma u8_id z : 0 <= z < 2 ^ 8 → u8 z = z.
Proof. intros; unfold u8; apply Z.mod_small; lia. Qed.

Lemma u16_range z : 0 <= u16 z < 2 ^ 16.
Proof. unfold u16; apply Z.mod_pos_bound; lia. Qed.

Lemma u16_id z : 0 <= z < 2 ^ 16 → u16 z = z.
Proof. intros; unfold u16; apply Z.mod_small; lia. Qed.

#[export] Hint Resolve u64_range u32_range u8_range u16_range : cuore.

(** Masking with [~(2^k - 1)] rounds down to a multiple of [2^k]. *)
Lemma land_mask x k :
  0 <= k <= 64 → 0 <= x < 2 ^ 64 → Z.land x (not64 (2 ^ k - 1)) = 2 ^ k * (x / 2 ^ k).
Proof.
  intros Hk Hx.
  assert (not64 (2 ^ k - 1) = Z.shiftl (Z.ones (64 - k)) k) as ->.
  { unfold not64. rewrite Z.shiftl_mul_pow2, Z.ones_equiv by lia.
    rewrite <- Z.sub_1_r, Z.mul_sub_distr_r, <- Z.pow_add_r by lia.
    replace (64 - k + k) with 64 by lia. lia. }
  rewrite Z.mul_comm, <- Z.shiftl_mul_pow2 by lia.
  rewrite <- Z.shiftr_div_pow2 by lia.
  apply Z.bits_inj'. intros i Hi. rewrite Z.land_spec, !Z.shiftl_spec by lia.
  destruct (decide (i < k)).
  { rewrite !(Z.testbit_neg_r _ (i - k)) by lia. by rewrite andb_false_r. }
  rewrite Z.shiftr_spec by lia. replace (i - k + k) with i by lia.
  destruct (decide (i < 64)).
  - rewrite Z.ones_spec_low by lia. by rewrite andb_true_r.
  - rewrite Z.ones_spec_high by lia. rewrite andb_false_r.
    symmetry. destruct (decide (x = 0)) as [->|]; [apply Z.bits_0|].
    apply Z.bits_above_log2; [lia|]. apply Z.log2_lt_pow2; [lia|].
    apply Z.lt_le_trans with (2 ^ 64); [lia|]. apply Z.pow_le_mono_r; lia.
Qed.

(** A loop keeps an invariant indexed by its counter. *)
Lemma for_range_ok {A} (P : Z → A → Prop) n (f : Z → A → result A) s :
  0 <= n → P 0 s → (∀ i s, 0 <= i < n → P i s → ∃ s', f i s = Ok s' ∧ P (i + 1) s') →
  ∃ s', for_range n f s = Ok s' ∧ P n s'.
Proof.
  intros Hn H0 Hf. unfold for_range.
  assert (∀ k a s, 0 <= a → a + Z.of_nat k <= n → P a s →
    ∃ s', foldl (λ r i, s ← r; f i s) (Ok s) (seqZ a (Z.of_nat k)) = Ok s' ∧ P (a + Z.of_nat k) s') as Haux.
  { induction k as [|k IH]; intros a s1 Ha Hk HP; [rewrite Z.add_0_r; by exists s1|].
    rewrite (seqZ_cons a) by lia. cbn [foldl mbind result_bind].
    destruct (Hf a s1) as (s2&->&H2); [lia|done|]. replace (Z.pred (Z.of_nat (S k))) with (Z.of_nat k) by lia.
    destruct (IH (Z.succ a) s2) as (s'&E&H'); [lia|lia|done|]. exists s'. split; [done|].
    by replace (a + Z.of_nat (S k)) with (Z.succ a + Z.of_nat k) by lia. }
  destruct (Haux (Z.to_nat n) 0 s) as (s'&E&H'); [lia|lia|done|]. rewrite Z2Nat.id in * by lia. by exists s'.
Qed.

(** * Lists *)

Lemma filter_none {A} (P : A → Prop) `{∀ x, Decision (P x)} (l : list A) : (∀ x, x ∈ l → ¬ P x) → filter P l = [].
Proof. induction l as [|x l IH]; intros Hn; [done|]. rewrite filter_cons, decide_False by (apply Hn, list_elem_of_here). apply IH. intros y Hy. apply Hn. by apply list_elem_of_further. Qed.

Lemma filter_congr {A} (P Q : A → Prop) `{∀ x, Decision (P x), ∀ x, Decision (Q x)} (l : list A) : (∀ x, x ∈ l → P x ↔ Q x) → filter P l = filter Q l.
Proof.
  induction l as [|x l IH]; intros E; [done|]. rewrite !filter_cons, IH by (intros y Hy; apply E; by apply list_elem_of_further).
  pose proof (E x (list_elem_of_here _ _)). repeat case_decide; tauto.
Qed.

(** * Bits *)

Lemma testbit_high n x i : 0 <= x < 2 ^ n → n <= i → Z.testbit x i = false.
Proof.
  intros [? Hx] ?. destruct (decide (x = 0)) as [->|]; [apply Z.bits_0|].
  destruct (decide (0 <= n)); [|rewrite Z.pow_neg_r in Hx by lia; lia].
  apply Z.bits_above_log2; [lia|]. apply Z.log2_lt_pow2; [lia|].
  eapply Z.lt_le_trans; [exact Hx|]. apply Z.pow_le_mono_r; lia.
Qed.

Lemma bits_lt n x : 0 <= n → 0 <= x → (∀ i, n <= i → Z.testbit x i = false) → x < 2 ^ n.
Proof.
  intros Hn Hx H. destruct (decide (x = 0)) as [->|]; [apply Z.pow_pos_nonneg; lia|].
  apply Z.log2_lt_pow2; [lia|]. destruct (decide (Z.log2 x < n)); [done|].
  pose proof (Z.bit_log2 x ltac:(lia)). rewrite H in *; [done|lia].
Qed.

Lemma bits_zero n x : 0 <= x < 2 ^ n → (∀ i, 0 <= i < n → Z.testbit x i = false) → x = 0.
Proof.
  intros Hx H. apply Z.bits_inj'. intros i Hi. rewrite Z.bits_0.
  destruct (decide (i < n)); [apply H; lia|apply (testbit_high n); lia].
Qed.

Lemma lor_range n a b : 0 <= n → 0 <= a < 2 ^ n → 0 <= b < 2 ^ n → 0 <= Z.lor a b < 2 ^ n.
Proof.
  intros. pose proof (proj2 (Z.lor_nonneg a b) ltac:(lia)). split; [done|]. apply bits_lt; [done..|].
  intros i Hi. by rewrite Z.lor_spec, !(testbit_high n).
Qed.

Lemma land_range n a b : 0 <= n → 0 <= a < 2 ^ n → 0 <= b → 0 <= Z.land a b < 2 ^ n.
Proof.
  intros. pose proof (proj2 (Z.land_nonneg a b) ltac:(lia)). split; [done|]. apply bits_lt; [done..|].
  intros i Hi. by rewrite Z.land_spec, (testbit_high n a).
Qed.

Lemma not64_range x : 0 <= x < 2 ^ 64 → 0 <= not64 x < 2 ^ 64.
Proof. unfold not64. lia. Qed.

Lemma not64_testbit x i : 0 <= x < 2 ^ 64 → 0 <= i < 64 → Z.testbit (not64 x) i = negb (Z.testbit x i).
Proof.
  intros. assert (not64 x = Z.lnot x mod 2 ^ 64) as ->.
  { unfold not64, Z.lnot. rewrite <- Z.sub_1_r. apply (Z.mod_unique _ _ (-1)); lia. }
  rewrite Z.mod_pow2_bits_low by lia. apply Z.lnot_spec; lia.
Qed.

Lemma pow2_range k n : 0 <= k < n → 0 <= 2 ^ k < 2 ^ n.
Proof. intros. split; [apply Z.pow_nonneg; lia|apply Z.pow_lt_mono_r; lia]. Qed.

(** Setting and clearing one bit. *)
Lemma set_bit_testbit m k i : 0 <= k → 0 <= i →
  Z.testbit (Z.lor m (2 ^ k)) i = if i =? k then true else Z.testbit m i.
Proof.
  intros. rewrite Z.lor_spec, Z.pow2_bits_eqb, (Z.eqb_sym k) by lia.
  destruct (i =? k); [apply orb_true_r|apply orb_false_r].
Qed.

Lemma clear_bit_testbit m k i : 0 <= k < 64 → 0 <= i < 64 →
  Z.testbit (Z.land m (not64 (2 ^ k))) i = if i =? k then false else Z.testbit m i.
Proof.
  intros. rewrite Z.land_spec, not64_testbit, Z.pow2_bits_eqb, (Z.eqb_sym k) by (lia || by apply pow2_range).
  destruct (i =? k); [apply andb_false_r|apply andb_true_r].
Qed.

(** Rounding up to a multiple of [2^k], the way the code writes it. *)
Definition round_up (x a : Z) : Z := a * ((x + a - 1) / a).

Lemma round_up_spec x a : 0 < a →
  x <= round_up x a < x + a ∧ (a | round_up x a).
Proof.
  intros Ha. unfold round_up. pose proof (Z.div_mod (x + a - 1) a ltac:(lia)).
  pose proof (Z.mod_pos_bound (x + a - 1) a Ha). split; [nia|]. by apply Z.divide_factor_l.
Qed.

Lemma round_up_least x a y : 0 < a → x <= y → (a | y) → round_up x a <= y.
Proof.
  intros Ha Hxy [q ->]. pose proof (round_up_spec x a Ha) as [[_ Hu] [p Hp]].
  rewrite Hp in *. assert (p < q + 1) by nia. nia.
Qed.
