(* ===== verification/Mem.v ===== *)
(** Raw memory and strings (src/mem/mem.h).

    Memory is a finite map from byte addresses to bytes; an access to an
    address the map does not hold is a [Fault].  The file models every inline
    function of mem.h on it and proves what the copies leave in memory,
    overlapping ranges included, and what the comparisons decide. *)

From S2P Require Import Prelude.

Abbreviation memory := (gmap Z Z).

Definition NULL : Z := 0.

Definition load8 (m : memory) (a : Z) : result Z := of_option (m !! a).

(** A store needs the byte to be mapped. *)
Definition store8 (m : memory) (a v : Z) : result memory :=
  match m !! a with Some _ => Ok (<[a := v]> m) | None => Fault end.

(** The arithmetic shift right of the shifted address as a signed number. *)
Definition ptr_is_canonical (addr : Z) : bool :=
  let shifted := u64 (Z.shiftl addr 7) in
  let extended := u64 (Z.shiftr (i64 shifted) 7) in
  addr =? extended.

Definition range_is_safe (p n : Z) : bool :=
  if n =? 0 then true
  else
    let start := p in
    let fin := u64 (start + n - 1) in
    if fin <? start then false
    else if negb (ptr_is_canonical p) || negb (ptr_is_canonical fin) then false
    else true.


Definition nonnull (tag msg : string) (p : Z) : result unit :=
  if p =? NULL then Panic tag msg else Ok ().
Definition safe (tag msg : string) (p n : Z) : result unit :=
  if negb (range_is_safe p n) then Panic tag msg else Ok ().

(** The loops run [n] times from index [i]. *)
Fixpoint memset_loop (n : nat) (i p c : Z) (m : memory) : result memory :=
  match n with
  | O => Ok m
  | S n => m ← store8 m (p + i) (u8 c); memset_loop n (i + 1) p c m
  end.

Definition memset (m : memory) (s c n : Z) : result (Z * memory) :=
  _ ← nonnull "MEMORY" "memset s is null" s;
  _ ← safe "MEMORY" "memset s is out of range" s n;
  m ← memset_loop (Z.to_nat n) 0 s c m;
  mret (s, m).

Fixpoint copy_loop (n : nat) (i d s : Z) (m : memory) : result memory :=
  match n with
  | O => Ok m
  | S n => b ← load8 m (s + i); m ← store8 m (d + i) b; copy_loop n (i + 1) d s m
  end.

(** The backward loop: indices [i - 1] down to 0, [i = n]. *)
Fixpoint copy_back_loop (n : nat) (d s : Z) (m : memory) : result memory :=
  match n with
  | O => Ok m
  | S n' =>
      b ← load8 m (s + Z.of_nat n'); m ← store8 m (d + Z.of_nat n') b; copy_back_loop n' d s m
  end.

Definition memcpy (m : memory) (dest src n : Z) : result (Z * memory) :=
  _ ← nonnull "MEMORY" "memcpy dest is null" dest;
  _ ← nonnull "MEMORY" "memcpy src is null" src;
  _ ← safe "MEMORY" "memcpy dest is out of range" dest n;
  _ ← safe "MEMORY" "memcpy src is out of range" src n;
  m ← copy_loop (Z.to_nat n) 0 dest src m;
  mret (dest, m).

Definition memmove (m : memory) (dest src n : Z) : result (Z * memory) :=
  _ ← nonnull "MEMORY" "memmove dest is null" dest;
  _ ← nonnull "MEMORY" "memmove src is null" src;
  _ ← safe "MEMORY" "memmove dest is out of range" dest n;
  _ ← safe "MEMORY" "memmove src is out of range" src n;
  if dest =? src then mret (dest, m)
  else if dest <? src then
    m ← copy_loop (Z.to_nat n) 0 dest src m; mret (dest, m)
  else
    m ← copy_back_loop (Z.to_nat n) dest src m; mret (dest, m).

Fixpoint cmp_loop (n : nat) (i p1 p2 : Z) (m : memory) : result Z :=
  match n with
  | O => Ok 0
  | S n =>
      a ← load8 m (p1 + i); b ← load8 m (p2 + i);
      if negb (a =? b) then mret (a - b) else cmp_loop n (i + 1) p1 p2 m
  end.

Definition memcmp (m : memory) (s1 s2 n : Z) : result Z :=
  _ ← nonnull "MEMORY" "memcmp s1 is null" s1;
  _ ← nonnull "MEMORY" "memcmp s2 is null" s2;
  _ ← safe "MEMORY" "memcmp s1 is out of range" s1 n;
  _ ← safe "MEMORY" "memcmp s2 is out of range" s2 n;
  cmp_loop (Z.to_nat n) 0 s1 s2 m.

(** The endless loops of [strlen] and [strcmp] take fuel. *)
Fixpoint strlen_loop (fuel : nat) (len s : Z) (m : memory) : result Z :=
  match fuel with
  | O => Fuel
  | S fuel =>
      if negb (ptr_is_canonical (u64 (s + len)))
      then Panic "STRING" "strlen ran into non canonical memory"
      else
        c ← load8 m (u64 (s + len));
        if c =? 0 then mret len else strlen_loop fuel (len + 1) s m
  end.

Definition strlen (fuel : nat) (m : memory) (s : Z) : result Z :=
  _ ← nonnull "STRING" "strlen s is null" s;
  strlen_loop fuel 0 s m.

Fixpoint strcmp_loop (fuel : nat) (i s1 s2 : Z) (m : memory) : result Z :=
  match fuel with
  | O => Fuel
  | S fuel =>
      if negb (ptr_is_canonical (u64 (s1 + i))) || negb (ptr_is_canonical (u64 (s2 + i)))
      then Panic "STRING" "strcmp ran into non canonical memory"
      else
        c1 ← load8 m (u64 (s1 + i)); c2 ← load8 m (u64 (s2 + i));
        if negb (c1 =? c2) then mret (c1 - c2)
        else if c1 =? 0 then mret 0
        else strcmp_loop fuel (i + 1) s1 s2 m
  end.

Definition strcmp (fuel : nat) (m : memory) (s1 s2 : Z) : result Z :=
  _ ← nonnull "STRING" "strcmp s1 is null" s1;
  _ ← nonnull "STRING" "strcmp s2 is null" s2;
  strcmp_loop fuel 0 s1 s2 m.

Fixpoint strncmp_loop (n : nat) (i s1 s2 : Z) (m : memory) : result Z :=
  match n with
  | O => Ok 0
  | S n =>
      c1 ← load8 m (s1 + i); c2 ← load8 m (s2 + i);
      if negb (c1 =? c2) then mret (c1 - c2)
      else if c1 =? 0 then mret 0
      else strncmp_loop n (i + 1) s1 s2 m
  end.

Definition strncmp (m : memory) (s1 s2 n : Z) : result Z :=
  _ ← nonnull "STRING" "strncmp s1 is null" s1;
  _ ← nonnull "STRING" "strncmp s2 is null" s2;
  _ ← safe "STRING" "strncmp s1 is out of range" s1 n;
  _ ← safe "STRING" "strncmp s2 is out of range" s2 n;
  strncmp_loop (Z.to_nat n) 0 s1 s2 m.

(** The two loops of [strncpy]: copy up to a NUL, then fill with NULs. *)
Fixpoint strncpy_loop (n : nat) (i d s : Z) (m : memory) : result memory :=
  match n with
  | O => Ok m
  | S n' =>
      c ← load8 m (s + i);
      if c =? 0 then memset_loop n i d 0 m
      else m ← store8 m (d + i) c; strncpy_loop n' (i + 1) d s m
  end.

Definition strncpy (m : memory) (dest src n : Z) : result (Z * memory) :=
  _ ← nonnull "STRING" "strncpy dest is null" dest;
  _ ← nonnull "STRING" "strncpy src is null" src;
  _ ← safe "STRING" "strncpy dest is out of range" dest n;
  _ ← safe "STRING" "strncpy src is out of range" src n;
  m ← strncpy_loop (Z.to_nat n) 0 dest src m;
  mret (dest, m).

(** * Ranges of memory *)

(** Every byte of [a, a + n) is held. *)
Definition mapped (m : memory) (a n : Z) : Prop := ∀ k, 0 <= k < n → is_Some (m !! (a + k)).

Lemma store8_ok m a v : is_Some (m !! a) → store8 m a v = Ok (<[a := v]> m).
Proof. intros [b E]. unfold store8. by rewrite E. Qed.

Lemma mapped_insert m a n b v : mapped m a n → mapped (<[b := v]> m) a n.
Proof.
  intros H k Hk. destruct (decide (a + k = b)) as [->|]; [by rewrite lookup_insert_eq|].
  rewrite lookup_insert_ne by done. by apply H.
Qed.

(** What a copy of [n] bytes from [s] to [d] leaves at address [a]. *)
Definition copied (m : memory) (d s n a : Z) : option Z :=
  if (d <=? a) && (a <? d + n) then m !! (s + (a - d)) else m !! a.

Lemma copy_loop_ok n i d s m :
  0 <= i → mapped m s (i + Z.of_nat n) → mapped m d (i + Z.of_nat n) →
  d <= s ∨ s + i + Z.of_nat n <= d + i →
  ∃ m', copy_loop n i d s m = Ok m' ∧ ∀ a, m' !! a = copied m (d + i) (s + i) (Z.of_nat n) a.
Proof.
  revert i m. induction n as [|n IH]; intros i m Hi Hs Hd Hov; cbn [copy_loop].
  { exists m. split; [done|]. intros a. unfold copied. repeat case_z; simpl; done || lia. }
  destruct (Hs i ltac:(lia)) as [b Eb]. unfold load8. rewrite Eb. cbn [of_option mbind result_bind].
  rewrite store8_ok by (apply Hd; lia). cbn [mbind result_bind].
  destruct (IH (i + 1) (<[d + i := b]> m)) as (m'&E&Hm'); [lia| | |lia|].
  1,2: apply mapped_insert; by replace (i + 1 + Z.of_nat n) with (i + Z.of_nat (S n)) by lia.
  exists m'. split; [done|]. intros a. rewrite Hm'. unfold copied.
  destruct (decide (a = d + i)) as [->|].
  - repeat case_z; simpl; try lia. rewrite lookup_insert_eq, <- Eb. f_equal. lia.
  - rewrite (lookup_insert_ne _ _ a) by done.
    repeat case_z; simpl; try lia; try done. rewrite lookup_insert_ne by lia. f_equal. lia.
Qed.

Lemma copy_back_ok n d s m :
  mapped m s (Z.of_nat n) → mapped m d (Z.of_nat n) → s <= d ∨ d + Z.of_nat n <= s →
  ∃ m', copy_back_loop n d s m = Ok m' ∧ ∀ a, m' !! a = copied m d s (Z.of_nat n) a.
Proof.
  revert m. induction n as [|n IH]; intros m Hs Hd Hov; cbn [copy_back_loop].
  { exists m. split; [done|]. intros a. unfold copied. repeat case_z; simpl; done || lia. }
  destruct (Hs (Z.of_nat n) ltac:(lia)) as [b Eb]. unfold load8. rewrite Eb. cbn [of_option mbind result_bind].
  rewrite store8_ok by (apply Hd; lia). cbn [mbind result_bind].
  destruct (IH (<[d + Z.of_nat n := b]> m)) as (m'&E&Hm'); [| |lia|].
  1,2: apply mapped_insert; intros k ?; (apply Hs || apply Hd); lia.
  exists m'. split; [done|]. intros a. rewrite Hm'. unfold copied.
  destruct (decide (a = d + Z.of_nat n)) as [->|].
  - repeat case_z; simpl; try lia. rewrite lookup_insert_eq, <- Eb. f_equal. lia.
  - rewrite (lookup_insert_ne _ _ a) by done.
    repeat case_z; simpl; try lia; try done. by rewrite lookup_insert_ne by lia.
Qed.

Lemma memset_loop_ok n i p c m :
  0 <= i → mapped m p (i + Z.of_nat n) →
  ∃ m', memset_loop n i p c m = Ok m' ∧
    ∀ a, m' !! a = if (p + i <=? a) && (a <? p + i + Z.of_nat n) then Some (u8 c) else m !! a.
Proof.
  revert i m. induction n as [|n IH]; intros i m Hi Hm; cbn [memset_loop].
  { exists m. split; [done|]. intros a. repeat case_z; simpl; done || lia. }
  rewrite store8_ok by (apply Hm; lia). cbn [mbind result_bind].
  destruct (IH (i + 1) (<[p + i := u8 c]> m)) as (m'&E&Hm'); [lia| |].
  { apply mapped_insert. by replace (i + 1 + Z.of_nat n) with (i + Z.of_nat (S n)) by lia. }
  exists m'. split; [done|]. intros a. rewrite Hm'.
  destruct (decide (a = p + i)) as [->|]; [rewrite lookup_insert_eq|rewrite lookup_insert_ne by done];
    repeat case_z; simpl; done || lia.
Qed.

(** [n] bytes at [a], in one half of the canonical address space. *)
Definition placed (a n : Z) : Prop := 0 < a ∧ (a + n <= 2 ^ 56 ∨ 2 ^ 64 - 2 ^ 56 <= a ∧ a + n <= 2 ^ 64).

Lemma canonical_half a : 0 <= a < 2 ^ 56 ∨ 2 ^ 64 - 2 ^ 56 <= a < 2 ^ 64 → ptr_is_canonical a = true.
Proof.
  intros Ha. unfold ptr_is_canonical. apply Z.eqb_eq.
  assert (∃ k, u64 (Z.shiftl a 7) = 2 ^ 7 * a - k * 2 ^ 64 ∧ (k = 0 ∧ a < 2 ^ 56 ∨ k = 127 ∧ 2 ^ 64 - 2 ^ 56 <= a)) as (k&->&Hk).
  { rewrite Z.shiftl_mul_pow2 by lia. unfold u64. destruct Ha.
    - exists 0. split; [|lia]. rewrite Z.mod_small; lia.
    - exists 127. split; [|lia]. symmetry. apply (Z.mod_unique _ _ 127); lia. }
  assert (i64 (2 ^ 7 * a - k * 2 ^ 64) = 2 ^ 7 * (a - (if k =? 0 then 0 else 2 ^ 64))) as ->.
  { unfold i64, sint. change (2 ^ (64 - 1)) with (2 ^ 63). rewrite Z.mod_small by lia. case_z; case_z; lia. }
  rewrite Z.shiftr_div_pow2, Z.mul_comm, Z.div_mul by lia. unfold u64.
  destruct Hk as [[-> ?]|[-> ?]]; cbn [Z.eqb].
  - rewrite Z.sub_0_r, Z.mod_small; lia.
  - apply (Z.mod_unique _ _ (-1)); lia.
Qed.

Lemma placed_safe a n p k : placed a n → 0 <= p → 0 <= k → p + k <= n → range_is_safe (u64 (a + p)) k = true.
Proof.
  intros [H0 Ha] Hp Hk Hle. unfold range_is_safe. destruct (Z.eqb_spec k 0); [done|].
  rewrite (u64_id (a + p)) by lia. rewrite u64_id by lia. case_z; [lia|]. by rewrite !canonical_half by lia.
Qed.

(** [memmove] of two mapped safe ranges, overlapping or not, leaves in the
    destination the bytes the source held before the call and changes nothing
    else; [memcpy] does the same when the destination starts at or below the
    source or behind its end. *)
Theorem memmove_memcpy_correct m d s n :
  d ≠ NULL → s ≠ NULL → 0 <= n → range_is_safe d n = true → range_is_safe s n = true →
  mapped m d n → mapped m s n →
  (∃ m', memmove m d s n = Ok (d, m') ∧ ∀ a, m' !! a = copied m d s n a) ∧
  (d <= s ∨ s + n <= d → ∃ m', memcpy m d s n = Ok (d, m') ∧ ∀ a, m' !! a = copied m d s n a).
Proof.
  intros Hd Hs Hn Sd Ss Md Ms. unfold memmove, memcpy, nonnull, safe.
  rewrite Sd, Ss, !(proj2 (Z.eqb_neq _ NULL)) by done. cbn [negb mbind result_bind].
  destruct (Z_of_nat_complete n Hn) as [k ->]. rewrite Nat2Z.id.
  assert (d <= s ∨ s + Z.of_nat k <= d →
    ∃ m', copy_loop k 0 d s m = Ok m' ∧ ∀ a, m' !! a = copied m d s (Z.of_nat k) a) as Hfwd.
  { intros Hov. destruct (copy_loop_ok k 0 d s m) as (m'&->&Hc); [lia|done|done|lia|].
    exists m'. split; [done|]. intros a. by rewrite Hc, !Z.add_0_r. }
  split.
  - destruct (Z.eqb_spec d s) as [->|].
    { exists m. split; [done|]. intros a. unfold copied. repeat case_z; simpl; try done. f_equal. lia. }
    destruct (Z.ltb_spec d s).
    + destruct Hfwd as (m'&->&Hc); [left; lia|]. by exists m'.
    + destruct (copy_back_ok k d s m) as (m'&->&Hc); [done|done|left; lia|]. by exists m'.
  - intros Hov. destruct (Hfwd Hov) as (m'&->&Hc). by exists m'.
Qed.

(** * Strings *)

(** [l] followed by a NUL is stored at [a], in canonical addresses. *)
Definition cstring (m : memory) (a : Z) (l : list Z) : Prop :=
  0 < a ∧ Forall (λ c, 1 <= c < 256) l ∧ range_is_safe a (Z.of_nat (S (length l))) = true ∧
  (∀ i, (i <= length l)%nat → u64 (a + Z.of_nat i) = a + Z.of_nat i ∧ ptr_is_canonical (a + Z.of_nat i) = true) ∧
  ∀ i, (i <= length l)%nat → m !! (a + Z.of_nat i) = Some (default 0 (l !! i)).

(** The comparison [strcmp] promises: the first difference of the NUL
    terminated strings. *)
Fixpoint str_diff (l1 l2 : list Z) : Z :=
  match l1, l2 with
  | [], [] => 0
  | [], c :: _ => 0 - c
  | c :: _, [] => c
  | c1 :: l1, c2 :: l2 => if c1 =? c2 then str_diff l1 l2 else c1 - c2
  end.

Lemma str_diff_zero l1 l2 :
  Forall (λ c, 1 <= c < 256) l1 → Forall (λ c, 1 <= c < 256) l2 → str_diff l1 l2 = 0 ↔ l1 = l2.
Proof.
  revert l2. induction l1 as [|a l1 IH]; intros [|b l2] H1 H2; simpl; [done|..].
  - apply Forall_cons in H2 as [? _]. split; [lia|done].
  - apply Forall_cons in H1 as [? _]. split; [lia|done].
  - apply Forall_cons in H1 as [? H1]. apply Forall_cons in H2 as [? H2].
    case_z; [subst; rewrite IH by done; split; congruence|]. split; [lia|congruence].
Qed.

Lemma strlen_loop_ok fuel m a l i :
  cstring m a l → (i <= length l)%nat → (length l - i < fuel)%nat →
  strlen_loop fuel (Z.of_nat i) a m = Ok (Z.of_nat (length l)).
Proof.
  intros (Ha&Hc&Hr&Hcan&Hm). revert i. induction fuel as [|fuel IH]; intros i Hi Hf; [lia|]. simpl.
  destruct (Hcan i Hi) as [-> ->]. unfold load8. rewrite Hm by done. cbn [negb of_option mbind result_bind].
  destruct (l !! i) as [c|] eqn:E; simpl.
  - pose proof (Forall_lookup_1 _ _ _ _ Hc E) as Hcr. simpl in Hcr. rewrite (proj2 (Z.eqb_neq c 0)) by lia.
    apply lookup_lt_Some in E. replace (Z.of_nat i + 1) with (Z.of_nat (S i)) by lia. apply IH; lia.
  - apply lookup_ge_None in E. replace i with (length l) by lia. done.
Qed.

Lemma str_diff_drop l1 l2 i :
  str_diff (drop i l1) (drop i l2) =
    match l1 !! i, l2 !! i with
    | None, None => 0
    | None, Some c => 0 - c
    | Some c, None => c
    | Some c1, Some c2 => if c1 =? c2 then str_diff (drop (S i) l1) (drop (S i) l2) else c1 - c2
    end.
Proof.
  destruct (l1 !! i) eqn:E1, (l2 !! i) eqn:E2; rewrite ?(drop_S _ _ _ E1), ?(drop_S _ _ _ E2); try done.
  - by rewrite (drop_ge l2) by (by apply lookup_ge_None).
  - by rewrite (drop_ge l1) by (by apply lookup_ge_None).
  - by rewrite (drop_ge l1), (drop_ge l2) by (by apply lookup_ge_None).
Qed.

Lemma strcmp_loop_ok fuel m a1 a2 l1 l2 i :
  cstring m a1 l1 → cstring m a2 l2 → (i <= length l1)%nat → (i <= length l2)%nat →
  (length l1 - i < fuel)%nat →
  strcmp_loop fuel (Z.of_nat i) a1 a2 m = Ok (str_diff (drop i l1) (drop i l2)).
Proof.
  intros (Ha1&Hc1&_&Hcan1&Hm1) (Ha2&Hc2&_&Hcan2&Hm2). revert i. induction fuel as [|fuel IH]; intros i Hi1 Hi2 Hf; [lia|].
  cbn [strcmp_loop]. destruct (Hcan1 i Hi1) as [-> ->], (Hcan2 i Hi2) as [-> ->]. unfold load8. rewrite Hm1, Hm2 by done.
  cbn [negb orb of_option mbind result_bind]. rewrite str_diff_drop.
  destruct (l1 !! i) as [c1|] eqn:E1, (l2 !! i) as [c2|] eqn:E2; simpl;
    try pose proof (Forall_lookup_1 _ _ _ _ Hc1 E1) as Hr1; try pose proof (Forall_lookup_1 _ _ _ _ Hc2 E2) as Hr2; simpl in *.
  - case_z; simpl; [|done]. rewrite (proj2 (Z.eqb_neq c1 0)) by lia.
    apply lookup_lt_Some in E1, E2. replace (Z.of_nat i + 1) with (Z.of_nat (S i)) by lia. apply IH; lia.
  - rewrite (proj2 (Z.eqb_neq c1 0)) by lia. simpl. by rewrite Z.sub_0_r.
  - destruct c2; done || lia.
  - done.
Qed.

(** On NUL terminated strings [strlen] returns the length and [strcmp] the
    difference of the first bytes that differ, which is 0 exactly for equal
    strings; both loops end within the string's length plus one step. *)
Theorem strlen_strcmp_correct m a1 l1 a2 l2 :
  cstring m a1 l1 → cstring m a2 l2 →
  strlen (S (length l1)) m a1 = Ok (Z.of_nat (length l1)) ∧
  strcmp (S (length l1)) m a1 a2 = Ok (str_diff l1 l2) ∧
  (str_diff l1 l2 = 0 ↔ l1 = l2).
Proof.
  intros H1 H2. pose proof H1 as (?&Hc1&_). pose proof H2 as (?&Hc2&_).
  unfold strlen, strcmp, nonnull. rewrite !(proj2 (Z.eqb_neq _ NULL)) by (unfold NULL; lia). cbn [mbind result_bind].
  split; [|split; [|by apply str_diff_zero]].
  - apply (strlen_loop_ok _ _ _ _ 0); [done|lia|lia].
  - apply (strcmp_loop_ok _ m a1 a2 l1 l2 0); [done|done|lia|lia|lia].
Qed.

(** * Concrete runs *)

Definition demo_mem : memory := list_to_map (zip (seqZ 0x1000 8) [104; 101; 108; 108; 111; 0; 7; 7]).

Lemma memmove_memcpy_correct_witness :
  ∃ m', memmove demo_mem 0x1002 0x1000 5 = Ok (0x1002, m') ∧
    (m' !! 0x1002, m' !! 0x1006) = (Some 104, Some 111).
Proof.
  destruct (memmove_memcpy_correct demo_mem 0x1002 0x1000 5) as [(m'&E&H) _].
  - done.
  - done.
  - lia.
  - vm_compute. reflexivity.
  - vm_compute. reflexivity.
  - intros k Hk. assert (k ∈ [0;1;2;3;4]) as Hin by (rewrite !elem_of_cons; lia).
    repeat (apply elem_of_cons in Hin as [->|Hin]; [by eexists|]). by apply elem_of_nil in Hin.
  - intros k Hk. assert (k ∈ [0;1;2;3;4]) as Hin by (rewrite !elem_of_cons; lia).
    repeat (apply elem_of_cons in Hin as [->|Hin]; [by eexists|]). by apply elem_of_nil in Hin.
  - exists m'. split; [exact E|]. rewrite !H. reflexivity.
Defined.

Lemma demo_string : cstring demo_mem 0x1000 [104; 101; 108; 108; 111].
Proof.
  split; [lia|]. split; [repeat constructor; lia|]. split; [by vm_compute|]. split.
  - intros i Hi. simpl in Hi. do 6 (destruct i as [|i]; [by vm_compute|]). lia.
  - intros i Hi. simpl in Hi. do 6 (destruct i as [|i]; [by vm_compute|]). lia.
Qed.

Lemma strlen_strcmp_correct_witness : strlen 6 demo_mem 0x1000 = Ok 5.
Proof. apply (strlen_strcmp_correct demo_mem 0x1000 _ 0x1000 _ demo_string demo_string). Defined.
