(* ===== verification/Avl.v ===== *)
(** Intrusive AVL trees (src/datatype/avl.c, src/datatype/avl.h).

    A tree of [avl_node_t]s is owned by exactly one root pointer, so it is an
    inductive tree; NULL is [Leaf].  A node carries the payload of the object
    that embeds it (C reaches it with GET_CONTAINER) and the cached [height].
    The callback table is a record of functions: [compare] on payloads and an
    optional [update] that recomputes a node's augmented fields from its two
    children. *)

From S2P Require Import Prelude.

Section Avl.
Context {A : Type}.

Inductive tree : Type :=
| Leaf
| Node (l : tree) (n : A) (h : Z) (r : tree).

Record avl_callbacks := {
  compare : A → A → Z;
  update : option (tree → A → tree → A)
}.

(** AVL_GET_HEIGHT *)
Definition avl_height (t : tree) : Z :=
  match t with Leaf => 0 | Node _ _ h _ => h end.

(** AVL_GET_BALANCE *)
Definition avl_balance (t : tree) : Z :=
  match t with Leaf => 0 | Node l _ _ r => avl_height l - avl_height r end.

Definition run_update (cb : avl_callbacks) (l : tree) (n : A) (r : tree) : A :=
  match update cb with Some f => f l n r | None => n end.

Definition update_node (cb : avl_callbacks) (t : tree) : tree :=
  match t with
  | Leaf => Leaf
  | Node l n _ r =>
      let lh := avl_height l in
      let rh := avl_height r in
      Node l (run_update cb l n r) (1 + (if lh >? rh then lh else rh)) r
  end.

Definition rotate_right (cb : avl_callbacks) (y : tree) : result tree :=
  match y with
  | Node (Node xl x xh t) n h yr =>
      let y' := update_node cb (Node t n h yr) in
      Ok (update_node cb (Node xl x xh y'))
  | _ => Fault
  end.

Definition rotate_left (cb : avl_callbacks) (x : tree) : result tree :=
  match x with
  | Node xl n h (Node t y yh yr) =>
      let x' := update_node cb (Node xl n h t) in
      Ok (update_node cb (Node x' y yh yr))
  | _ => Fault
  end.

Definition set_left (t l : tree) : tree :=
  match t with Leaf => Leaf | Node _ n h r => Node l n h r end.
Definition set_right (t r : tree) : tree :=
  match t with Leaf => Leaf | Node l n h _ => Node l n h r end.
Definition left_of (t : tree) : tree := match t with Leaf => Leaf | Node l _ _ _ => l end.
Definition right_of (t : tree) : tree := match t with Leaf => Leaf | Node _ _ _ r => r end.

Definition rebalance (cb : avl_callbacks) (n : tree) : result tree :=
  let n := update_node cb n in
  let bal := avl_balance n in
  if bal >? 1 then
    n ← (if avl_balance (left_of n) <? 0
         then l ← rotate_left cb (left_of n); mret (set_left n l)
         else mret n);
    rotate_right cb n
  else if bal <? -1 then
    n ← (if avl_balance (right_of n) >? 0
         then r ← rotate_right cb (right_of n); mret (set_right n r)
         else mret n);
    rotate_left cb n
  else mret n.

(** Returns the unlinked leftmost payload ([*out]) and the remaining tree. *)
Fixpoint unlink_leftmost (cb : avl_callbacks) (t : tree) : result (A * tree) :=
  match t with
  | Leaf => Fault
  | Node Leaf n _ r => Ok (n, r)
  | Node l n h r =>
      '(out, l') ← unlink_leftmost cb l;
      t' ← rebalance cb (Node l' n h r);
      mret (out, t')
  end.

Fixpoint avl_insert (cb : avl_callbacks) (root n : tree) : result tree :=
  match root with
  | Leaf => Ok (update_node cb n)
  | Node l a h r =>
      match n with
      | Leaf => Fault
      | Node _ b _ _ =>
          let cmp := compare cb b a in
          if cmp <? 0 then l' ← avl_insert cb l n; rebalance cb (Node l' a h r)
          else if cmp >? 0 then r' ← avl_insert cb r n; rebalance cb (Node l a h r')
          else Ok root
      end
  end.

(** Returns the new root and [*out] ([None]: left as the caller set it). *)
Fixpoint avl_delete (cb : avl_callbacks) (root : tree) (key : A) : result (tree * option A) :=
  match root with
  | Leaf => Ok (Leaf, None)
  | Node l a h r =>
      let cmp := compare cb key a in
      if cmp <? 0 then
        '(l', out) ← avl_delete cb l key;
        t ← rebalance cb (Node l' a h r); mret (t, out)
      else if cmp >? 0 then
        '(r', out) ← avl_delete cb r key;
        t ← rebalance cb (Node l a h r'); mret (t, out)
      else
        match l, r with
        | Leaf, _ => Ok (r, Some a)
        | _, Leaf => Ok (l, Some a)
        | _, _ =>
            '(succ, new_right) ← unlink_leftmost cb r;
            t ← rebalance cb (Node l succ h new_right); mret (t, Some a)
        end
  end.

Fixpoint avl_find (cb : avl_callbacks) (root : tree) (key : A) : option A :=
  match root with
  | Leaf => None
  | Node l a _ r =>
      let cmp := compare cb key a in
      if cmp <? 0 then avl_find cb l key
      else if cmp >? 0 then avl_find cb r key
      else Some a
  end.

Fixpoint avl_get_min (root : tree) : option A :=
  match root with
  | Leaf => None
  | Node Leaf a _ _ => Some a
  | Node l _ _ _ => avl_get_min l
  end.

Fixpoint avl_get_max (root : tree) : option A :=
  match root with
  | Leaf => None
  | Node _ a _ Leaf => Some a
  | Node _ _ _ r => avl_get_max r
  end.

Fixpoint elements (t : tree) : list A :=
  match t with Leaf => [] | Node l a _ r => elements l ++ a :: elements r end.

End Avl.
Arguments tree : clear implicits.
Arguments avl_callbacks : clear implicits.

(** * What the tree needs of its callbacks

    [base] projects a payload to the part [update] does not touch, [key] is
    the number [compare] orders by. *)

Class AvlClient {A B : Type} (cb : avl_callbacks A) (base : A → B) (key : B → Z) : Prop := {
  client_lt : ∀ a b, compare cb a b < 0 ↔ key (base a) < key (base b);
  client_gt : ∀ a b, compare cb a b > 0 ↔ key (base a) > key (base b);
  client_base : ∀ l a r, base (run_update cb l a r) = base a;
  client_idem : ∀ l a r, run_update cb l (run_update cb l a r) r = run_update cb l a r
}.

Section Correctness.
Context {A B : Type} (cb : avl_callbacks A) (base : A → B) (key : B → Z).
Context `{!AvlClient cb base key}.

#[local] Abbreviation tree := (tree A).

Definition contents (t : tree) : list B := base <$> elements t.

(** Cached heights are exact, the tree is balanced, augmented fields are up
    to date. *)
Fixpoint shape (t : tree) : Prop :=
  match t with
  | Leaf => True
  | Node l a h r =>
      h = 1 + Z.max (avl_height l) (avl_height r) ∧
      -1 <= avl_height l - avl_height r <= 1 ∧
      run_update cb l a r = a ∧ shape l ∧ shape r
  end.

(** The whole invariant: shape plus strictly increasing keys in order. *)
Definition avl_inv (t : tree) : Prop :=
  shape t ∧ StronglySorted (λ x y, key x < key y) (contents t).

Lemma contents_node l a h r :
  contents (Node l a h r) = contents l ++ base a :: contents r.
Proof. unfold contents; simpl. by rewrite fmap_app. Qed.

Lemma height_nonneg t : shape t → 0 <= avl_height t.
Proof. induction t as [|l IHl a h r IHr]; simpl; [lia|]. intros (?&?&?&?&?). intuition lia. Qed.

Lemma height_pos t : shape t → 0 < avl_height t → ∃ l a h r, t = Node l a h r.
Proof. destruct t; simpl; intros; [lia|eauto]. Qed.

Lemma max_if a b : (if a >? b then a else b) = Z.max a b.
Proof. rewrite Z.gtb_ltb. destruct (Z.ltb_spec b a); lia. Qed.

Lemma update_node_shape l a h r :
  shape l → shape r → -1 <= avl_height l - avl_height r <= 1 →
  shape (update_node cb (Node l a h r)).
Proof. intros; simpl. rewrite max_if, client_idem. auto. Qed.

Lemma update_node_contents t : contents (update_node cb t) = contents t.
Proof. destruct t; [done|]. simpl. by rewrite !contents_node, client_base. Qed.

Lemma update_node_height l a h r :
  avl_height (update_node cb (Node l a h r)) = 1 + Z.max (avl_height l) (avl_height r).
Proof. simpl. by rewrite max_if. Qed.

(** A successful rotation keeps the in-order contents. *)
Lemma rotate_right_contents t t' : rotate_right cb t = Ok t' → contents t' = contents t.
Proof.
  destruct t as [|[|xl x xh t] n h yr]; simpl; intros [=<-].
  rewrite !contents_node, !client_base. by rewrite <- app_assoc.
Qed.

Lemma rotate_left_contents t t' : rotate_left cb t = Ok t' → contents t' = contents t.
Proof.
  destruct t as [|xl n h [|t y yh yr]]; simpl; intros [=<-].
  rewrite !contents_node, !client_base. by rewrite <- app_assoc.
Qed.

(** Shape of the three rebuilt nodes of a rotation: used by both sides. *)
Definition rebalanced (l : tree) (a : A) (r t : tree) : Prop :=
  shape t ∧ contents t = contents l ++ base a :: contents r ∧
  (-1 <= avl_height l - avl_height r <= 1 → avl_height t = 1 + Z.max (avl_height l) (avl_height r)) ∧
  Z.max (avl_height l) (avl_height r) <= avl_height t <= 1 + Z.max (avl_height l) (avl_height r).

Lemma rebalance_none l a h r :
  shape l → shape r → -1 <= avl_height l - avl_height r <= 1 →
  ∃ t, rebalance cb (Node l a h r) = Ok t ∧ rebalanced l a r t.
Proof.
  intros Hl Hr Hb. unfold rebalance.
  replace (avl_balance (update_node cb (Node l a h r))) with (avl_height l - avl_height r) by done.
  replace (avl_height l - avl_height r >? 1) with false by (symmetry; rewrite Z.gtb_ltb; apply Z.ltb_ge; lia).
  replace (avl_height l - avl_height r <? -1) with false by (symmetry; apply Z.ltb_ge; lia).
  eexists; split; [done|]. unfold rebalanced.
  rewrite update_node_contents, contents_node, update_node_height.
  split; [by apply update_node_shape|]. split; [done|]. lia.
Qed.

Ltac destruct_shape :=
  repeat match goal with
  | H : shape (Node _ _ _ _) |- _ => destruct H as (?&?&?&?&?)
  | H : shape Leaf |- _ => clear H
  | H : _ ∧ _ |- _ => destruct H
  end.

Ltac solve_rotated :=
  eexists; split; [reflexivity|]; unfold rebalanced; simpl; rewrite ?max_if, ?client_idem;
  repeat match goal with |- _ ∧ _ => split end;
  rewrite ?contents_node, ?client_base; repeat (rewrite <- app_assoc; simpl); auto; try lia.

Lemma rebalance_left l a h r :
  shape l → shape r → avl_height l - avl_height r = 2 →
  ∃ t, rebalance cb (Node l a h r) = Ok t ∧ rebalanced l a r t.
Proof.
  intros Hl Hr Hb. pose proof (height_nonneg _ Hr).
  destruct (height_pos l Hl) as (ll & la & lh & lr & ->); [lia|].
  simpl in Hb. unfold rebalance; simpl.
  replace (lh - avl_height r) with 2 by lia. simpl.
  destruct_shape.
  pose proof (height_nonneg ll ltac:(done)). pose proof (height_nonneg lr ltac:(done)).
  destruct (Z.ltb_spec (avl_height ll - avl_height lr) 0).
  - destruct (height_pos lr ltac:(done)) as (lrl & lra & lrh & lrr & ->); [lia|].
    simpl in *. destruct_shape. solve_rotated.
  - simpl. solve_rotated.
Qed.

Lemma rebalance_right l a h r :
  shape l → shape r → avl_height l - avl_height r = -2 →
  ∃ t, rebalance cb (Node l a h r) = Ok t ∧ rebalanced l a r t.
Proof.
  intros Hl Hr Hb. pose proof (height_nonneg _ Hl).
  destruct (height_pos r Hr) as (rl & ra & rh & rr & ->); [lia|].
  simpl in Hb. unfold rebalance; simpl.
  replace (avl_height l - rh) with (-2) by lia. simpl.
  destruct_shape.
  pose proof (height_nonneg rl ltac:(done)). pose proof (height_nonneg rr ltac:(done)).
  rewrite Z.gtb_ltb. destruct (Z.ltb_spec 0 (avl_height rl - avl_height rr)).
  - destruct (height_pos rl ltac:(done)) as (rll & rla & rlh & rlr & ->); [lia|].
    simpl in *. destruct_shape. solve_rotated.
  - simpl. solve_rotated.
Qed.

Lemma rebalance_ok l a h r :
  shape l → shape r → -2 <= avl_height l - avl_height r <= 2 →
  ∃ t, rebalance cb (Node l a h r) = Ok t ∧ rebalanced l a r t.
Proof.
  intros. destruct (Z.eq_dec (avl_height l - avl_height r) 2); [by apply rebalance_left|].
  destruct (Z.eq_dec (avl_height l - avl_height r) (-2)); [by apply rebalance_right|].
  apply rebalance_none; auto; lia.
Qed.

(** Reference operations on the in-order list. *)
Fixpoint sorted_insert (b : B) (xs : list B) : list B :=
  match xs with
  | [] => [b]
  | x :: xs' =>
      if key b <? key x then b :: xs
      else if key b >? key x then x :: sorted_insert b xs'
      else xs
  end.

Definition sorted_remove (k : Z) (xs : list B) : list B := filter (λ x, key x ≠ k) xs.

#[local] Abbreviation sorted := (StronglySorted (λ x y, key x < key y)).

Lemma sorted_app l x r :
  sorted (l ++ x :: r) ↔
  sorted l ∧ sorted r ∧ Forall (λ y, key y < key x) l ∧ Forall (λ y, key x < key y) r.
Proof.
  induction l as [|y l IH]; simpl.
  - split; [intros H; inversion H; subst; repeat split; auto; constructor|].
    intros (?&?&?&?); by constructor.
  - split.
    + intros H; inversion H as [|?? Hs Hf]; subst. apply IH in Hs as (?&?&?&?).
      rewrite Forall_app, Forall_cons in Hf. destruct Hf as (?&?&?).
      repeat split; auto; by constructor.
    + intros (H1&H2&H3&H4). inversion H1; subst. inversion H3; subst. constructor.
      * apply IH; auto.
      * rewrite Forall_app, Forall_cons. repeat split; auto.
        eapply Forall_impl; [exact H4|]. simpl; lia.
Qed.

Lemma sorted_insert_lt b l x r :
  key b < key x → sorted_insert b (l ++ x :: r) = sorted_insert b l ++ x :: r.
Proof.
  intros Hlt. induction l as [|y l IH]; simpl.
  - destruct (Z.ltb_spec (key b) (key x)); [done|lia].
  - destruct (key b <? key y); [done|]. destruct (key b >? key y); simpl; by rewrite ?IH.
Qed.

Lemma sorted_insert_gt b l x r :
  Forall (λ y, key y < key x) l → key b > key x →
  sorted_insert b (l ++ x :: r) = l ++ x :: sorted_insert b r.
Proof.
  intros Hf Hgt. induction Hf as [|y l Hy Hf IH]; simpl.
  - destruct (Z.ltb_spec (key b) (key x)); [lia|].
    rewrite Z.gtb_ltb. destruct (Z.ltb_spec (key x) (key b)); [done|lia].
  - destruct (Z.ltb_spec (key b) (key y)); [lia|].
    rewrite Z.gtb_ltb. destruct (Z.ltb_spec (key y) (key b)); [by rewrite IH|lia].
Qed.

Lemma sorted_insert_eq b l x r :
  Forall (λ y, key y < key x) l → key b = key x →
  sorted_insert b (l ++ x :: r) = l ++ x :: r.
Proof.
  intros Hf Heq. induction Hf as [|y l Hy Hf IH]; simpl.
  - rewrite Z.gtb_ltb, Heq, Z.ltb_irrefl. done.
  - destruct (Z.ltb_spec (key b) (key y)); [lia|].
    rewrite Z.gtb_ltb. destruct (Z.ltb_spec (key y) (key b)); [by rewrite IH|done].
Qed.

Lemma sorted_insert_Forall (P : B → Prop) b xs :
  P b → Forall P xs → Forall P (sorted_insert b xs).
Proof.
  intros Hb Hf. induction Hf as [|x xs Hx Hf IH]; simpl; [auto|].
  destruct (key b <? key x); [auto|]. destruct (key b >? key x); auto.
Qed.

Lemma sorted_insert_sorted b xs : sorted xs → sorted (sorted_insert b xs).
Proof.
  induction 1 as [|x xs Hs IH Hf]; simpl; [repeat constructor|].
  destruct (Z.ltb_spec (key b) (key x)).
  - constructor; [by constructor|]. constructor; [done|].
    eapply Forall_impl; [exact Hf|]. simpl; lia.
  - rewrite Z.gtb_ltb. destruct (Z.ltb_spec (key x) (key b)); constructor; auto.
    by apply sorted_insert_Forall.
Qed.

Lemma elem_of_sorted_insert b xs x :
  x ∈ sorted_insert b xs → x = b ∨ x ∈ xs.
Proof.
  induction xs as [|y xs IH]; simpl; [rewrite list_elem_of_singleton; auto|].
  destruct (key b <? key y); [rewrite elem_of_cons; auto|].
  destruct (key b >? key y); rewrite !elem_of_cons; tauto.
Qed.

Lemma sorted_remove_all k xs : Forall (λ y, key y ≠ k) xs → sorted_remove k xs = xs.
Proof.
  unfold sorted_remove. induction 1; [done|]. rewrite filter_cons_True by done. by f_equal.
Qed.

Lemma sorted_remove_app k l x r :
  sorted_remove k (l ++ x :: r) =
  sorted_remove k l ++ (if decide (key x ≠ k) then [x] else []) ++ sorted_remove k r.
Proof.
  unfold sorted_remove. rewrite filter_app, filter_cons. by case_decide.
Qed.

Lemma unlink_leftmost_ok t :
  shape t → t ≠ Leaf →
  ∃ m t', unlink_leftmost cb t = Ok (m, t') ∧ contents t = base m :: contents t' ∧
    shape t' ∧ avl_height t - 1 <= avl_height t' <= avl_height t.
Proof.
  induction t as [|l IHl a h r IHr]; [done|]. intros Hs _.
  destruct l as [|ll la lh lr].
  - simpl in *. destruct_shape. exists a, r. pose proof (height_nonneg r ltac:(done)).
    split; [done|]. rewrite contents_node. repeat split; auto; lia.
  - destruct Hs as (Hh&Hb&_&Hl&Hr).
    destruct (IHl Hl ltac:(done)) as (m&l'&Hu&Hc&Hs'&Hh').
    assert (-2 <= avl_height l' - avl_height r <= 2) as Hb' by lia.
    destruct (rebalance_ok l' a h r Hs' Hr Hb') as (t&Ht&Hts&Htc&Hte&Hth).
    exists m, t. split.
    { change (('(out, l'') ← unlink_leftmost cb (Node ll la lh lr);
               t' ← rebalance cb (Node l'' a h r); mret (out, t')) = Ok (m, t)).
      rewrite Hu. simpl. by rewrite Ht. }
    rewrite contents_node, Hc, Htc. simpl. split; [done|]. split; [done|].
    change (avl_height (Node (Node ll la lh lr) a h r)) with h.
    destruct (decide (avl_height (Node ll la lh lr) - avl_height r = -1)); lia.
Qed.

(** A node as [pool_alloc_node] hands it out: zeroed, so both children NULL. *)
Definition fresh_node (a : A) : tree := Node Leaf a 0 Leaf.

Lemma avl_insert_shape t a :
  shape t →
  ∃ t', avl_insert cb t (fresh_node a) = Ok t' ∧ shape t' ∧
    avl_height t <= avl_height t' <= avl_height t + 1 ∧
    (sorted (contents t) → contents t' = sorted_insert (base a) (contents t)).
Proof.
  induction t as [|l IHl b h r IHr].
  - intros _. exists (update_node cb (fresh_node a)).
    split; [done|]. split; [by apply update_node_shape|].
    split; [simpl; lia|]. intros _. by rewrite update_node_contents.
  - intros Hs. destruct (Hs) as (Hh&Hb&Hupd&Hl&Hr). rewrite contents_node.
    change (avl_height (Node l b h r)) with h. simpl avl_insert.
    destruct (Z.ltb_spec (compare cb a b) 0) as [Hc|Hc].
    + apply client_lt in Hc. destruct (IHl Hl) as (l'&Hi&Hs'&Hh'&Hc'). rewrite Hi. simpl.
      destruct (rebalance_ok l' b h r) as (t&Ht&Hts&Htc&Hte&Hth); [done|done|lia|].
      exists t. split; [done|]. split; [done|]. split.
      { destruct (decide (avl_height l' - avl_height r = 2)); lia. }
      intros Hsrt. rewrite Htc. apply sorted_app in Hsrt as (?&?&?&?).
      rewrite sorted_insert_lt by done. by rewrite Hc'.
    + destruct (compare cb a b >? 0) eqn:Hg; zify_bools.
      * assert (compare cb a b > 0) as Hg' by lia. apply client_gt in Hg'.
        destruct (IHr Hr) as (r'&Hi&Hs'&Hh'&Hc'). rewrite Hi. simpl.
        destruct (rebalance_ok l b h r') as (t&Ht&Hts&Htc&Hte&Hth); [done|done|lia|].
        exists t. split; [done|]. split; [done|]. split.
        { destruct (decide (avl_height l - avl_height r' = -2)); lia. }
        intros Hsrt. rewrite Htc. apply sorted_app in Hsrt as (?&?&?&?).
        rewrite sorted_insert_gt by done. by rewrite Hc'.
      * exists (Node l b h r). split; [done|]. split; [done|]. split; [simpl; lia|].
        intros Hsrt. rewrite contents_node. apply sorted_app in Hsrt as (?&?&?&?).
        symmetry. apply sorted_insert_eq; [done|].
        pose proof (client_lt a b). pose proof (client_gt a b). lia.
Qed.

Lemma sorted_remove_node_lt k l b h r :
  sorted (contents (Node l b h r)) → k < key (base b) →
  sorted_remove k (contents (Node l b h r)) = sorted_remove k (contents l) ++ base b :: contents r.
Proof.
  rewrite contents_node, sorted_app. intros (?&?&?&Hr) Hk. rewrite sorted_remove_app.
  rewrite decide_True by lia. rewrite (sorted_remove_all k (contents r)); [done|].
  eapply Forall_impl; [exact Hr|]. simpl; lia.
Qed.

Lemma sorted_remove_node_gt k l b h r :
  sorted (contents (Node l b h r)) → key (base b) < k →
  sorted_remove k (contents (Node l b h r)) = contents l ++ base b :: sorted_remove k (contents r).
Proof.
  rewrite contents_node, sorted_app. intros (?&?&Hl&?) Hk. rewrite sorted_remove_app.
  rewrite decide_True by lia. rewrite (sorted_remove_all k (contents l)); [done|].
  eapply Forall_impl; [exact Hl|]. simpl; lia.
Qed.

Lemma sorted_remove_node_eq k l b h r :
  sorted (contents (Node l b h r)) → key (base b) = k →
  sorted_remove k (contents (Node l b h r)) = contents l ++ contents r.
Proof.
  rewrite contents_node, sorted_app. intros (?&?&Hl&Hr) Hk. rewrite sorted_remove_app.
  rewrite decide_False by lia. rewrite !sorted_remove_all; [done| |].
  - eapply Forall_impl; [exact Hr|]. simpl; lia.
  - eapply Forall_impl; [exact Hl|]. simpl; lia.
Qed.

(** Deletion at the found node: the successor moves up. *)
Lemma delete_node_ok l a h r :
  shape (Node l a h r) →
  ∃ t', match l, r with
        | Leaf, _ => Ok (r, Some a)
        | _, Leaf => Ok (l, Some a)
        | _, _ => '(succ, new_right) ← unlink_leftmost cb r;
                  t ← rebalance cb (Node l succ h new_right); mret (t, Some a)
        end = Ok (t', Some a) ∧
    shape t' ∧ contents t' = contents l ++ contents r ∧ h - 1 <= avl_height t' <= h.
Proof.
  intros (Hh&Hb&_&Hl&Hr). pose proof (height_nonneg _ Hl). pose proof (height_nonneg _ Hr).
  destruct l as [|ll la lh lr]; [exists r; simpl in *; repeat split; auto; lia|].
  destruct r as [|rl ra rh rr].
  { exists (Node ll la lh lr). rewrite app_nil_r. simpl in *. repeat split; auto; lia || tauto. }
  destruct (unlink_leftmost_ok (Node rl ra rh rr)) as (m&r'&Hu&Hc&Hs'&Hh'); [done|done|].
  destruct (rebalance_ok (Node ll la lh lr) m h r') as (t&Ht&Hts&Htc&Hte&Hth); [done|done|lia|].
  exists t. rewrite Hu. simpl mbind. rewrite Ht. split; [done|]. split; [done|].
  split; [by rewrite Htc, Hc|].
  destruct (decide (avl_height (Node ll la lh lr) - avl_height r' = 2)); lia.
Qed.

Lemma avl_delete_shape t k :
  shape t → sorted (contents t) →
  ∃ t', avl_delete cb t k = Ok (t', avl_find cb t k) ∧ shape t' ∧
    avl_height t - 1 <= avl_height t' <= avl_height t ∧
    contents t' = sorted_remove (key (base k)) (contents t).
Proof.
  induction t as [|l IHl b h r IHr].
  { intros _ _. exists Leaf. simpl. repeat split; lia || done. }
  intros Hs Hsrt. destruct (Hs) as (Hh&Hb&Hupd&Hl&Hr).
  pose proof Hsrt as Hsplit. rewrite contents_node, sorted_app in Hsplit.
  destruct Hsplit as (Hsl&Hsr&_&_).
  change (avl_height (Node l b h r)) with h. simpl avl_delete. simpl avl_find.
  destruct (Z.ltb_spec (compare cb k b) 0) as [Hc|Hc].
  - apply client_lt in Hc. destruct (IHl Hl Hsl) as (l'&Hd&Hs'&Hh'&Hc'). rewrite Hd. simpl mbind.
    destruct (rebalance_ok l' b h r) as (t&Ht&Hts&Htc&Hte&Hth); [done|done|lia|].
    rewrite Ht. exists t. split; [done|]. split; [done|].
    rewrite sorted_remove_node_lt by done. rewrite Htc, Hc'. split; [|done].
    destruct (decide (avl_height l' - avl_height r = -2)); lia.
  - destruct (compare cb k b >? 0) eqn:Hg; zify_bools.
    + assert (compare cb k b > 0) as Hg' by lia. apply client_gt in Hg'.
      destruct (IHr Hr Hsr) as (r'&Hd&Hs'&Hh'&Hc'). rewrite Hd. simpl mbind.
      destruct (rebalance_ok l b h r') as (t&Ht&Hts&Htc&Hte&Hth); [done|done|lia|].
      rewrite Ht. exists t. split; [done|]. split; [done|].
      rewrite sorted_remove_node_gt by (done || lia). rewrite Htc, Hc'. split; [|done].
      destruct (decide (avl_height l - avl_height r' = 2)); lia.
    + destruct (delete_node_ok l b h r Hs) as (t'&Hd&Hs'&Hc'&Hh'). exists t'.
      split; [exact Hd|]. split; [done|]. split; [done|].
      pose proof (client_lt k b). pose proof (client_gt k b).
      rewrite sorted_remove_node_eq by (done || lia). done.
Qed.

Lemma sorted_remove_sorted k xs : sorted xs → sorted (sorted_remove k xs).
Proof.
  unfold sorted_remove. induction 1 as [|x xs Hs IH Hf]; [constructor|].
  rewrite filter_cons. case_decide; [|done]. constructor; [done|].
  apply Forall_forall. intros y Hy. apply list_elem_of_filter in Hy as [_ Hy].
  rewrite Forall_forall in Hf. auto.
Qed.

Lemma avl_insert_ok t a :
  avl_inv t →
  ∃ t', avl_insert cb t (fresh_node a) = Ok t' ∧ avl_inv t' ∧
    contents t' = sorted_insert (base a) (contents t).
Proof.
  intros [Hs Hsrt]. destruct (avl_insert_shape t a Hs) as (t'&Hi&Hs'&_&Hc).
  specialize (Hc Hsrt). exists t'. repeat split; auto.
  rewrite Hc. by apply sorted_insert_sorted.
Qed.

Lemma avl_delete_ok t k :
  avl_inv t →
  ∃ t', avl_delete cb t k = Ok (t', avl_find cb t k) ∧ avl_inv t' ∧
    contents t' = sorted_remove (key (base k)) (contents t).
Proof.
  intros [Hs Hsrt]. destruct (avl_delete_shape t k Hs Hsrt) as (t'&Hd&Hs'&_&Hc).
  exists t'. repeat split; auto. rewrite Hc. by apply sorted_remove_sorted.
Qed.

Lemma elem_of_contents_node (x : A) l a h r :
  x ∈ elements (Node l a h r) ↔ x ∈ elements l ∨ x = a ∨ x ∈ elements r.
Proof. simpl. rewrite elem_of_app, elem_of_cons. tauto. Qed.

Lemma elem_of_contents (t : tree) x : x ∈ elements t → base x ∈ contents t.
Proof. intros. unfold contents. by apply list_elem_of_fmap_2. Qed.

Lemma avl_find_Some (t : tree) k a :
  avl_find cb t k = Some a → a ∈ elements t ∧ key (base a) = key (base k).
Proof.
  induction t as [|l IHl b h r IHr]; simpl avl_find; [done|]. rewrite elem_of_contents_node.
  pose proof (client_lt k b). pose proof (client_gt k b).
  destruct (Z.ltb_spec (compare cb k b) 0); [intros Hf; apply IHl in Hf; tauto|].
  rewrite Z.gtb_ltb. destruct (Z.ltb_spec 0 (compare cb k b)); [intros Hf; apply IHr in Hf; tauto|].
  intros [= ->]. split; [auto|lia].
Qed.

Lemma avl_find_complete t k a :
  sorted (contents t) → a ∈ elements t → key (base a) = key (base k) → avl_find cb t k = Some a.
Proof.
  induction t as [|l IHl b h r IHr]; [set_solver|].
  rewrite contents_node, sorted_app, elem_of_contents_node. intros (?&?&Hl&Hr) Ha Hk.
  rewrite Forall_forall in Hl, Hr.
  pose proof (client_lt k b). pose proof (client_gt k b). simpl avl_find.
  assert (∀ x, x ∈ elements l → key (base x) < key (base b)) by (intros; apply Hl; by apply elem_of_contents).
  assert (∀ x, x ∈ elements r → key (base b) < key (base x)) by (intros; apply Hr; by apply elem_of_contents).
  destruct Ha as [Ha|[->|Ha]].
  - pose proof (H3 _ Ha). replace (compare cb k b <? 0) with true by (symmetry; apply Z.ltb_lt; lia). auto.
  - replace (compare cb k b <? 0) with false by (symmetry; apply Z.ltb_ge; lia).
    rewrite Z.gtb_ltb. replace (0 <? compare cb k b) with false by (symmetry; apply Z.ltb_ge; lia). done.
  - pose proof (H4 _ Ha). replace (compare cb k b <? 0) with false by (symmetry; apply Z.ltb_ge; lia).
    rewrite Z.gtb_ltb. replace (0 <? compare cb k b) with true by (symmetry; apply Z.ltb_lt; lia). auto.
Qed.

Lemma avl_get_min_head (t : tree) : avl_get_min t = head (elements t).
Proof.
  induction t as [|l IHl a h r _]; [done|]. destruct l as [|ll la lh lr]; [done|].
  change (avl_get_min (Node (Node ll la lh lr) a h r)) with (avl_get_min (Node ll la lh lr)).
  rewrite IHl. cbn [elements]. by destruct (elements ll).
Qed.

Lemma avl_get_max_last (t : tree) : avl_get_max t = last (elements t).
Proof.
  induction t as [|l _ a h r IHr]; [done|]. destruct r as [|rl ra rh rr].
  { simpl. by rewrite last_snoc. }
  change (avl_get_max (Node l a h (Node rl ra rh rr))) with (avl_get_max (Node rl ra rh rr)).
  rewrite IHr. cbn [elements].
  rewrite !last_app, !last_cons, !last_app, !last_cons. by destruct (last (elements rr)).
Qed.

Lemma shape_size t :
  shape t → 2 ^ (avl_height t / 2) <= Z.of_nat (length (elements t)) + 1.
Proof.
  induction t as [|l IHl a h r IHr]; [intros _; vm_compute; discriminate|].
  intros (Hh&Hb&_&Hl&Hr). specialize (IHl Hl). specialize (IHr Hr).
  pose proof (height_nonneg l Hl). pose proof (height_nonneg r Hr).
  change (avl_height (Node l a h r)) with h. cbn [elements].
  rewrite length_app, length_cons.
  destruct (decide (h < 2)) as [Hlt|Hge].
  { rewrite Z.div_small by lia. change (2 ^ 0) with 1. lia. }
  assert (∀ m, h - 2 <= m → 2 ^ (h / 2) <= 2 * 2 ^ (m / 2)) as Hpow.
  { intros m Hm. rewrite <- Z.pow_succ_r by (apply Z.div_pos; lia).
    apply Z.pow_le_mono_r; [lia|]. replace h with ((h - 2) + 1 * 2) by lia.
    rewrite Z.div_add by lia. pose proof (Z.div_le_mono (h - 2) m 2). lia. }
  pose proof (Hpow (avl_height l) ltac:(lia)). pose proof (Hpow (avl_height r) ltac:(lia)). lia.
Qed.
End Correctness.

(** * Properties *)

(** C1: [avl_insert] of a fresh node never dereferences NULL, keeps the AVL
    invariant (balance, exact cached heights, up-to-date augmented fields,
    strictly increasing keys), and inserts the payload at its place in key
    order, leaving a tree that already holds the key unchanged. *)
Theorem avl_insert_correct {A B} (cb : avl_callbacks A) (base : A → B) (key : B → Z)
    `{!AvlClient cb base key} t a :
  avl_inv cb base key t →
  ∃ t', avl_insert cb t (fresh_node a) = Ok t' ∧ avl_inv cb base key t' ∧
    contents base t' = sorted_insert key (base a) (contents base t).
Proof. apply avl_insert_ok; apply _. Qed.

(** C2: [avl_delete] never dereferences NULL, keeps the AVL invariant, removes
    exactly the entry with the given key (nothing when there is none), and
    stores in [*out] exactly what [avl_find] would have returned. *)
Theorem avl_delete_correct {A B} (cb : avl_callbacks A) (base : A → B) (key : B → Z)
    `{!AvlClient cb base key} t k :
  avl_inv cb base key t →
  ∃ t', avl_delete cb t k = Ok (t', avl_find cb t k) ∧ avl_inv cb base key t' ∧
    contents base t' = sorted_remove key (key (base k)) (contents base t).
Proof. apply avl_delete_ok; apply _. Qed.

(** the cached height of a tree that satisfies the invariant is at most
    twice the binary logarithm of its size plus one, so every walk of the
    tree is logarithmic and the [int] height cannot overflow. *)
Theorem avl_height_bound {A B} (cb : avl_callbacks A) (base : A → B) (key : B → Z)
    `{!AvlClient cb base key} t :
  avl_inv cb base key t →
  2 ^ (avl_height t / 2) <= Z.of_nat (length (elements t)) + 1.
Proof. intros [? ?]. by apply (shape_size cb). Qed.

(** Under the invariant, [avl_find] returns exactly the entry whose key is
    the requested one, and [avl_get_min] and [avl_get_max] return the first
    and the last entry in key order. *)
Theorem avl_lookup_correct {A B} (cb : avl_callbacks A) (base : A → B) (key : B → Z)
    `{!AvlClient cb base key} t k :
  avl_inv cb base key t →
  (∀ a, avl_find cb t k = Some a ↔ a ∈ elements t ∧ key (base a) = key (base k)) ∧
  avl_get_min t = head (elements t) ∧ avl_get_max t = last (elements t).
Proof.
  intros [_ Hs]. split; [|split; [apply avl_get_min_head|apply avl_get_max_last]].
  intros a. split; [apply (avl_find_Some cb base key)|].
  intros [? ?]. by apply (avl_find_complete cb base key).
Qed.

(** A concrete client: integers ordered by value, no augmentation. *)
Definition int_callbacks : avl_callbacks Z := {| compare := λ a b, a - b; update := None |}.

#[export] Instance int_client : AvlClient int_callbacks id id.
Proof. split; unfold id; simpl; intros; lia || done. Qed.

Definition int_tree : tree Z :=
  Node (Node Leaf 10 1 Leaf) 20 2 (Node Leaf 30 1 Leaf).

Lemma int_tree_inv : avl_inv int_callbacks id id int_tree.
Proof.
  split; [simpl; repeat split; lia|].
  unfold contents; simpl; unfold id. repeat constructor.
Defined.

Lemma avl_insert_correct_witness :
  ∃ t', avl_insert int_callbacks int_tree (fresh_node 25) = Ok t' ∧
    contents id t' = [10; 20; 25; 30].
Proof.
  destruct (avl_insert_correct int_callbacks id id int_tree 25 int_tree_inv) as (t'&H1&_&H2).
  exists t'. split; [exact H1|]. rewrite H2. reflexivity.
Defined.

Lemma avl_delete_correct_witness :
  ∃ t', avl_delete int_callbacks int_tree 20 = Ok (t', Some 20) ∧ contents id t' = [10; 30].
Proof.
  destruct (avl_delete_correct int_callbacks id id int_tree 20 int_tree_inv) as (t'&H1&_&H2).
  exists t'. split; [exact H1|]. rewrite H2. reflexivity.
Defined.

Lemma avl_height_bound_witness : 2 ^ (avl_height int_tree / 2) <= 3 + 1.
Proof. exact (avl_height_bound int_callbacks id id int_tree int_tree_inv). Defined.

Lemma avl_lookup_correct_witness : avl_find int_callbacks int_tree 30 = Some 30.
Proof.
  apply (proj1 (avl_lookup_correct int_callbacks id id int_tree 30 int_tree_inv)).
  split; [|reflexivity]. simpl. set_solver.
Defined.
