(* ===== verification/Vmm.v ===== *)
(** The kernel virtual address allocator (src/mem/vmm.c, src/mem/vmm.h).

    One AVL tree of allocated ranges keyed by start address, augmented with
    the extent of each subtree and the largest free gap inside it.  The file
    holds the augmentation callbacks, the gap search, the allocation and
    release operations on an explicit state, and the proofs that allocation is
    first fit, that live ranges stay disjoint and inside the pool, and that a
    release removes exactly the named range. *)

From S2P Require Import Prelude Avl.

Definition PAGE_SIZE : Z := 4096.
Definition PAGE_SIZE_2MB : Z := 2 ^ 21.

Record VMMNode := mkVMMNode {
  start : Z;
  page_count : Z;
  max_gap : Z;
  subtree_start : Z;
  subtree_end : Z;
  heap_allocated : bool
}.

#[local] Abbreviation vtree := (tree VMMNode).

Definition align_up (addr align : Z) : Z :=
  let aligned := Z.land (u64 (addr + align - 1)) (not64 (u64 (align - 1))) in
  if aligned <? addr then addr else aligned.

(** VMM_MAX_GAP *)
Definition vmm_max_gap (t : vtree) : Z :=
  match t with Leaf => 0 | Node _ n _ _ => max_gap n end.

Definition vmm_subtree_end (t : vtree) : Z :=
  match t with Leaf => 0 | Node _ n _ _ => subtree_end n end.

Definition vmm_subtree_start (t : vtree) : Z :=
  match t with Leaf => u64 (-1) | Node _ n _ _ => subtree_start n end.

Definition vmm_node_cmp (a b : VMMNode) : Z :=
  if start a <? start b then -1 else if start a >? start b then 1 else 0.

Definition vmm_node_update (l : vtree) (node : VMMNode) (r : vtree) : VMMNode :=
  let nend := u64 (start node + u64 (page_count node * PAGE_SIZE)) in
  let sstart := match l with Node _ lv _ _ => subtree_start lv | Leaf => start node end in
  let send := match r with
              | Node _ rv _ _ => if subtree_end rv >? nend then subtree_end rv else nend
              | Leaf => nend
              end in
  let gap_il := match l with
                | Node _ lv _ _ =>
                    if start node >=? subtree_end lv
                    then (start node - subtree_end lv) / PAGE_SIZE else 0
                | Leaf => 0
                end in
  let gap_ir := match r with
                | Node _ rv _ _ =>
                    if subtree_start rv >=? nend
                    then (subtree_start rv - nend) / PAGE_SIZE else 0
                | Leaf => 0
                end in
  mkVMMNode (start node) (page_count node)
    (Z.max (Z.max (vmm_max_gap l) (vmm_max_gap r)) (Z.max gap_il gap_ir))
    sstart send (heap_allocated node).

Definition vmm_avl_cb : avl_callbacks VMMNode :=
  {| compare := vmm_node_cmp; update := Some vmm_node_update |}.

(** The static variables of vmm.c. *)
Record vmm_state := mkVmm {
  vmm_pool_base : Z;
  vmm_pool_end : Z;
  vmm_root : vtree;
  early_pool_count : Z;
  vmm_heap_available : bool
}.

Definition VMM_EARLY_POOL : Z := 64.

Definition zero_node : VMMNode := mkVMMNode 0 0 0 0 0 false.

Definition set_heap_allocated (n : VMMNode) (b : bool) : VMMNode :=
  mkVMMNode (start n) (page_count n) (max_gap n) (subtree_start n) (subtree_end n) b.

(** [malloc_ok] says whether [malloc(sizeof(VMMNode))] returned memory.  The
    node's flag is set first and the whole node is zeroed after it. *)
Definition pool_alloc_node (malloc_ok : bool) (s : vmm_state) : result (VMMNode * vmm_state) :=
  '(n, s) ←
    (if vmm_heap_available s then
       if negb malloc_ok then Panic "VMM" "malloc failed"
       else Ok (set_heap_allocated zero_node true, s)
     else if early_pool_count s >=? VMM_EARLY_POOL then Panic "VMM" "early pool exhausted"
     else Ok (set_heap_allocated zero_node false,
              mkVmm (vmm_pool_base s) (vmm_pool_end s) (vmm_root s)
                (early_pool_count s + 1) (vmm_heap_available s)));
  let n := zero_node in
  mret (n, s).

(** Whether [pool_free_node] hands the node back to [free]. *)
Definition pool_free_node (node : VMMNode) : bool := heap_allocated node.

Definition vmm_switch_to_heap (s : vmm_state) : vmm_state :=
  mkVmm (vmm_pool_base s) (vmm_pool_end s) (vmm_root s) (early_pool_count s) true.

Fixpoint vmm_find_gap (pool_end : Z) (t : vtree) (base pages align : Z) : Z :=
  match t with
  | Leaf => 0
  | Node l n _ r =>
      let span := u64 (pages * PAGE_SIZE) in
      let sub_start := vmm_subtree_start t in
      let aligned_base := align_up base align in
      if sub_start >=? u64 (aligned_base + span) then
        (if u64 (aligned_base + span) <=? pool_end then aligned_base else 0)
      else if max_gap n <? pages then 0
      else
        let addr := match l with Leaf => 0 | _ => vmm_find_gap pool_end l base pages align end in
        if negb (addr =? 0) then addr
        else
          let base := match l with
                      | Leaf => base
                      | _ => let lend := vmm_subtree_end l in if lend >? base then lend else base
                      end in
          let aligned_base := align_up base align in
          if start n >=? u64 (aligned_base + span) then
            (if u64 (aligned_base + span) <=? pool_end then aligned_base else 0)
          else
            let nend := u64 (start n + u64 (page_count n * PAGE_SIZE)) in
            let base := if nend >? base then nend else base in
            match r with
            | Leaf => 0
            | _ =>
                let addr := vmm_find_gap pool_end r base pages align in
                if negb (addr =? 0) then addr else 0
            end
  end.

Definition vmm_init (hhdm_offset max_ram paging_level : Z) : vmm_state :=
  mkVmm (u64 (hhdm_offset + max_ram))
        (if paging_level =? 5 then 0xFFFFFFFFFFE00000 else 0xFFFFF00000000000)
        Leaf 0 false.

Definition vmm_alloc_aligned (malloc_ok : bool) (s : vmm_state) (count align : Z)
    : result (Z * vmm_state) :=
  if count =? 0 then Ok (0, s)
  else
    let addr := vmm_find_gap (vmm_pool_end s) (vmm_root s) (vmm_pool_base s) count align in
    let addr :=
      if addr =? 0 then
        let tail := match vmm_root s with
                    | Leaf => vmm_pool_base s
                    | root => vmm_subtree_end root
                    end in
        let tail := align_up tail align in
        if tail <? vmm_pool_base s then vmm_pool_base s else tail
      else addr in
    if u64 (addr + u64 (count * PAGE_SIZE)) >? vmm_pool_end s
    then Panic "VMM" "out of virtual address space"
    else
      '(n, s) ← pool_alloc_node malloc_ok s;
      let n := mkVMMNode addr count (max_gap n) (subtree_start n) (subtree_end n)
                 (heap_allocated n) in
      root ← avl_insert vmm_avl_cb (vmm_root s) (fresh_node n);
      mret (addr, mkVmm (vmm_pool_base s) (vmm_pool_end s) root
                    (early_pool_count s) (vmm_heap_available s)).

Definition vmm_alloc_pages (malloc_ok : bool) (s : vmm_state) (count : Z) :=
  vmm_alloc_aligned malloc_ok s count PAGE_SIZE.

Definition vmm_alloc_pages_2mb (malloc_ok : bool) (s : vmm_state) (count : Z) :=
  vmm_alloc_aligned malloc_ok s count PAGE_SIZE_2MB.

(** Returns the freed address (0 on failure), whether [free] was called on the
    node, and the new state. *)
Definition vmm_free_pages (s : vmm_state) (virt count : Z) : result (Z * bool * vmm_state) :=
  if virt =? 0 then Ok (0, false, s)
  else match vmm_root s with
  | Leaf => Ok (0, false, s)
  | root =>
      let key := mkVMMNode virt 0 0 0 0 false in
      '(new_root, out) ← avl_delete vmm_avl_cb root key;
      let s := mkVmm (vmm_pool_base s) (vmm_pool_end s) new_root
                 (early_pool_count s) (vmm_heap_available s) in
      match out with
      | None => mret (0, false, s)
      | Some node =>
          if negb (page_count node =? count) then mret (0, pool_free_node node, s)
          else mret (start node, pool_free_node node, s)
      end
  end.

(** * Ranges in address order *)

(** The part of a node that [vmm_node_update] does not recompute. *)
Definition vrange : Type := Z * Z * bool.
Definition node_range (n : VMMNode) : vrange := (start n, page_count n, heap_allocated n).
Definition rstart (x : vrange) : Z := x.1.1.
Definition rpages (x : vrange) : Z := x.1.2.
Definition rend (x : vrange) : Z := rstart x + rpages x * PAGE_SIZE.

#[export] Instance vmm_client : AvlClient vmm_avl_cb node_range rstart.
Proof.
  split; unfold rstart, node_range; simpl.
  - intros a b. unfold vmm_node_cmp. rewrite Z.gtb_ltb. repeat case_z; lia.
  - intros a b. unfold vmm_node_cmp. rewrite Z.gtb_ltb. repeat case_z; lia.
  - done.
  - done.
Qed.

(** Non-empty page-aligned ranges, in order, without overlap, in [lo, hi]. *)
Fixpoint chain (lo : Z) (xs : list vrange) (hi : Z) : Prop :=
  match xs with
  | [] => lo <= hi
  | x :: xs' => lo <= rstart x ∧ 0 < rpages x ∧ (PAGE_SIZE | rstart x) ∧ chain (rend x) xs' hi
  end.

#[export] Instance page_aligned_dec (b : Z) : Decision (PAGE_SIZE | b).
Proof.
  refine (cast_if (decide (b mod PAGE_SIZE = 0))); by rewrite <- Z.mod_divide.
Defined.

#[export] Instance chain_dec lo xs hi : Decision (chain lo xs hi).
Proof. revert lo. induction xs as [|x xs IH]; intros lo; simpl; apply _. Defined.

Definition last_end (d : Z) (xs : list vrange) : Z :=
  match last xs with Some x => rend x | None => d end.

Lemma chain_app lo l x r hi :
  chain lo (l ++ x :: r) hi ↔
  chain lo l (rstart x) ∧ 0 < rpages x ∧ (PAGE_SIZE | rstart x) ∧ chain (rend x) r hi.
Proof. revert lo. induction l as [|y l IH]; intros lo; simpl; [tauto|]. rewrite IH. tauto. Qed.

Lemma chain_le lo xs hi : chain lo xs hi → lo <= hi.
Proof.
  revert lo. induction xs as [|x xs IH]; intros lo; simpl; [done|].
  intros (?&?&?&H%IH). unfold rend, PAGE_SIZE in *. lia.
Qed.

Lemma chain_elem lo xs hi x :
  chain lo xs hi → x ∈ xs → lo <= rstart x ∧ 0 < rpages x ∧ rend x <= hi ∧ (PAGE_SIZE | rstart x).
Proof.
  revert lo. induction xs as [|y xs IH]; intros lo; simpl; [set_solver|].
  intros (?&?&?&Hc) [->|Hx]%elem_of_cons.
  - pose proof (chain_le _ _ _ Hc). auto.
  - pose proof (IH _ Hc Hx). unfold rend, PAGE_SIZE in *. repeat split; try tauto. lia.
Qed.

Lemma chain_mono lo lo' xs hi hi' : chain lo xs hi → lo' <= lo → hi <= hi' → chain lo' xs hi'.
Proof.
  revert lo lo'. induction xs as [|x xs IH]; intros lo lo'; simpl; [lia|].
  intros (?&?&?&Hc) ??. repeat split; try done; [lia|]. by eapply IH.
Qed.

Lemma chain_sorted lo xs hi :
  chain lo xs hi → StronglySorted (λ x y, rstart x < rstart y) xs.
Proof.
  revert lo. induction xs as [|x xs IH]; intros lo; simpl; [constructor|].
  intros (?&?&?&Hc). constructor; [by eapply IH|]. apply Forall_forall. intros y Hy.
  pose proof (chain_elem _ _ _ _ Hc Hy). unfold rend, PAGE_SIZE in *. lia.
Qed.

(** No two neighbours are [p] pages or more apart. *)
Fixpoint gaps_lt (p : Z) (xs : list vrange) : Prop :=
  match xs with
  | x :: ((y :: _) as xs') => rstart y < rend x + p * PAGE_SIZE ∧ gaps_lt p xs'
  | _ => True
  end.

Definition gap_lt (p : Z) (o1 o2 : option vrange) : Prop :=
  match o1, o2 with Some x, Some y => rstart y < rend x + p * PAGE_SIZE | _, _ => True end.

Lemma gaps_lt_cons p x xs : gaps_lt p (x :: xs) ↔ gap_lt p (Some x) (head xs) ∧ gaps_lt p xs.
Proof. destruct xs; simpl; tauto. Qed.

Lemma gaps_lt_app p l x r :
  gaps_lt p l → gaps_lt p r → gap_lt p (last l) (Some x) → gap_lt p (Some x) (head r) →
  gaps_lt p (l ++ x :: r).
Proof.
  intros Hl Hr H1 H2. induction l as [|y l IH].
  - simpl app. by apply gaps_lt_cons.
  - simpl app. apply gaps_lt_cons in Hl as [Hy Hl]. apply gaps_lt_cons. destruct l as [|z l].
    + simpl in *. split; [done|]. by apply IH.
    + split; [done|]. apply IH; [done|]. by rewrite last_cons_cons in H1.
Qed.

(** * The augmented fields *)

#[local] Abbreviation vcontents := (contents node_range).
#[local] Abbreviation vshape := (shape vmm_avl_cb).

Lemma nend_exact s c hi :
  0 <= s → 0 <= c → s + c * PAGE_SIZE <= hi → hi < 2 ^ 64 →
  u64 (s + u64 (c * PAGE_SIZE)) = s + c * PAGE_SIZE.
Proof. intros. unfold PAGE_SIZE in *. rewrite (u64_id (c * 4096)) by lia. rewrite u64_id; lia. Qed.

(** What the augmented fields of a root say about the ranges below it. *)
Definition extent_ok (t : vtree) : Prop :=
  ∀ n l h r, t = Node l n h r →
    Some (subtree_start n) = rstart <$> head (vcontents t) ∧
    Some (subtree_end n) = rend <$> last (vcontents t).

Definition gaps_ok (t : vtree) : Prop :=
  ∀ n l h r, t = Node l n h r → ∀ p, max_gap n < p → gaps_lt p (vcontents t).

Lemma vcontents_node l n h r :
  vcontents (Node l n h r) = vcontents l ++ node_range n :: vcontents r.
Proof. apply contents_node. Qed.

(** The three augmented fields, read back from the update equation. *)
Lemma node_fields l n h r :
  vshape (Node l n h r) →
  let nend := u64 (start n + u64 (page_count n * PAGE_SIZE)) in
  subtree_start n = match l with Node _ lv _ _ => subtree_start lv | Leaf => start n end ∧
  subtree_end n = match r with
                  | Node _ rv _ _ => if subtree_end rv >? nend then subtree_end rv else nend
                  | Leaf => nend
                  end ∧
  vmm_max_gap l <= max_gap n ∧ vmm_max_gap r <= max_gap n ∧
  match l with
  | Node _ lv _ _ => start n >= subtree_end lv → (start n - subtree_end lv) / PAGE_SIZE <= max_gap n
  | Leaf => True
  end ∧
  match r with
  | Node _ rv _ _ => subtree_start rv >= nend → (subtree_start rv - nend) / PAGE_SIZE <= max_gap n
  | Leaf => True
  end.
Proof.
  intros (_&_&Hu&_) nend. simpl in Hu.
  pose proof (f_equal subtree_start Hu) as H1. pose proof (f_equal subtree_end Hu) as H2.
  pose proof (f_equal max_gap Hu) as H3. simpl in H1, H2, H3.
  split; [done|]. split; [done|]. rewrite <- H3. split; [lia|]. split; [lia|]. split.
  - destruct l as [|? lv ? ?]; [done|]. intros Hge. apply Z.ge_le, Z.geb_le in Hge. rewrite Hge. lia.
  - destruct r as [|? rv ? ?]; [done|]. intros Hge. apply Z.ge_le, Z.geb_le in Hge.
    fold nend. rewrite Hge. lia.
Qed.

Lemma vshape_children l n h r : vshape (Node l n h r) → vshape l ∧ vshape r.
Proof. intros (_&_&_&?&?). done. Qed.

(** A gap of whole pages is below [p] pages when its page count is. *)
Lemma gap_below a b p :
  (PAGE_SIZE | a) → (PAGE_SIZE | b) → a <= b → (b - a) / PAGE_SIZE < p → b < a + p * PAGE_SIZE.
Proof.
  unfold PAGE_SIZE. intros [x ->] [y ->] ? Hlt.
  replace (y * 4096 - x * 4096) with ((y - x) * 4096) in Hlt by lia.
  rewrite Z.div_mul in Hlt by lia. lia.
Qed.

Lemma rend_aligned x : (PAGE_SIZE | rstart x) → (PAGE_SIZE | rend x).
Proof. intros. unfold rend. apply Z.divide_add_r; [done|]. by apply Z.divide_factor_r. Qed.

Lemma head_app_cons {T} (l r : list T) x : head (l ++ x :: r) = Some (default x (head l)).
Proof. by destruct l. Qed.

Lemma last_app_cons {T} (l r : list T) x : last (l ++ x :: r) = Some (default x (last r)).
Proof. rewrite last_app, last_cons. by destruct (last r). Qed.

Lemma vcontents_nonempty l n h r : ∃ x y, head (vcontents (Node l n h r)) = Some x ∧
  last (vcontents (Node l n h r)) = Some y ∧
  x ∈ vcontents (Node l n h r) ∧ y ∈ vcontents (Node l n h r).
Proof.
  rewrite vcontents_node, head_app_cons, last_app_cons. eexists _, _. split; [done|]. split; [done|].
  split.
  - destruct (vcontents l); set_solver.
  - destruct (last (vcontents r)) as [y|] eqn:E; [|set_solver].
    apply last_Some in E as [r' ->]. set_solver.
Qed.

(** A node inside a well-formed chain: both subtrees are chains of their own
    and the node's end does not wrap. *)
Lemma chain_node lo l n h r hi :
  vshape (Node l n h r) → chain lo (vcontents (Node l n h r)) hi → 0 <= lo → hi < 2 ^ 64 →
  vshape l ∧ vshape r ∧
  chain lo (vcontents l) (start n) ∧ start n < 2 ^ 64 ∧
  chain (rend (node_range n)) (vcontents r) hi ∧ 0 <= rend (node_range n) ∧
  start n < rend (node_range n) <= hi ∧ (PAGE_SIZE | start n) ∧ lo <= start n ∧
  u64 (start n + u64 (page_count n * PAGE_SIZE)) = rend (node_range n).
Proof.
  intros Hs Hc Hlo Hhi. destruct (vshape_children _ _ _ _ Hs) as [Hsl Hsr].
  rewrite vcontents_node in Hc. apply chain_app in Hc as (Hcl&Hp&Ha&Hcr).
  pose proof (chain_le _ _ _ Hcl) as Hlo'. pose proof (chain_le _ _ _ Hcr) as Hhi'.
  pose proof (nend_exact (start n) (page_count n) hi) as Hne.
  unfold rend, rstart, rpages, node_range in *; simpl in *.
  assert (start n < start n + page_count n * PAGE_SIZE) by (unfold PAGE_SIZE; lia).
  rewrite Hne by lia. repeat split; auto; lia.
Qed.

Lemma vshape_extent lo t hi :
  vshape t → chain lo (vcontents t) hi → 0 <= lo → hi < 2 ^ 64 → extent_ok t.
Proof.
  revert lo hi. induction t as [|l IHl n h r IHr]; intros lo hi Hs Hc Hlo Hhi; [by intros ????[=]|].
  intros ? ? ? ? [= <- <- <- <-].
  destruct (chain_node _ _ _ _ _ _ Hs Hc Hlo Hhi) as (Hsl&Hsr&Hcl&?&Hcr&?&?&_&_&Hne).
  apply node_fields in Hs as (Hss&Hse&_). rewrite Hne in Hse.
  specialize (IHl lo (start n) Hsl Hcl Hlo ltac:(lia)).
  specialize (IHr _ hi Hsr Hcr ltac:(lia) Hhi).
  rewrite vcontents_node, head_app_cons, last_app_cons. split.
  - rewrite Hss. destruct l as [|ll lv lh lr]; [done|].
    destruct (IHl _ _ _ _ eq_refl) as (Hsl'&_).
    destruct (head (vcontents (Node ll lv lh lr))); [done|discriminate].
  - rewrite Hse. destruct r as [|rl rv rh rr]; [done|].
    destruct (IHr _ _ _ _ eq_refl) as (_&Hse').
    destruct (vcontents_nonempty rl rv rh rr) as (_&y&_&Hy&_&Hin). rewrite Hy in *.
    simpl in Hse'. injection Hse' as Hse'. simpl. f_equal.
    pose proof (chain_elem _ _ _ _ Hcr Hin). rewrite Hse'.
    rewrite Z.gtb_ltb. case_z; [done|].
    unfold rend, rstart, rpages, node_range, PAGE_SIZE in *. simpl in *. lia.
Qed.

Lemma vshape_gaps lo t hi :
  vshape t → chain lo (vcontents t) hi → 0 <= lo → hi < 2 ^ 64 → gaps_ok t.
Proof.
  revert lo hi. induction t as [|l IHl n h r IHr]; intros lo hi Hs Hc Hlo Hhi; [by intros ????[=]|].
  intros ? ? ? ? [= <- <- <- <-] p Hpg.
  destruct (chain_node _ _ _ _ _ _ Hs Hc Hlo Hhi) as (Hsl&Hsr&Hcl&?&Hcr&?&?&Ha&_&Hne).
  apply node_fields in Hs as (_&_&Hgl&Hgr&Hil&Hir). rewrite Hne in Hir.
  specialize (IHl lo (start n) Hsl Hcl Hlo ltac:(lia)).
  specialize (IHr _ hi Hsr Hcr ltac:(lia) Hhi).
  pose proof (vshape_extent lo l (start n) Hsl Hcl Hlo ltac:(lia)) as Hel.
  pose proof (vshape_extent _ r hi Hsr Hcr ltac:(lia) Hhi) as Her.
  rewrite vcontents_node. apply gaps_lt_app.
  - destruct l; [done|]. apply (IHl _ _ _ _ eq_refl). simpl in Hgl. lia.
  - destruct r; [done|]. apply (IHr _ _ _ _ eq_refl). simpl in Hgr. lia.
  - destruct l as [|ll lv lh lr]; [done|]. destruct (Hel _ _ _ _ eq_refl) as (_&Hse').
    destruct (vcontents_nonempty ll lv lh lr) as (_&y&_&Hy&_&Hin). rewrite Hy in *.
    injection Hse' as Hse'. simpl.
    pose proof (chain_elem _ _ _ _ Hcl Hin) as (_&_&Hle&Hal). apply rend_aligned in Hal.
    rewrite <- Hse' in *. change (rstart (node_range n)) with (start n). specialize (Hil ltac:(lia)). apply gap_below; auto; lia.
  - destruct r as [|rl rv rh rr]; [done|]. destruct (Her _ _ _ _ eq_refl) as (Hss'&_).
    destruct (vcontents_nonempty rl rv rh rr) as (y&_&Hy&_&Hin&_). rewrite Hy in *.
    injection Hss' as Hss'. simpl.
    pose proof (chain_elem _ _ _ _ Hcr Hin) as (Hle&_&_&Hal).
    rewrite <- Hss' in *. specialize (Hir ltac:(lia)). apply gap_below; auto; [by apply rend_aligned|lia].
Qed.

(** * First fit *)

Lemma align_up_exact addr k :
  0 <= k <= 63 → 0 <= addr → addr + 2 ^ k <= 2 ^ 64 → align_up addr (2 ^ k) = round_up addr (2 ^ k).
Proof.
  intros Hk Ha Hb. unfold align_up. assert (0 < 2 ^ k) by (apply Z.pow_pos_nonneg; lia).
  rewrite (u64_id (addr + 2 ^ k - 1)), (u64_id (2 ^ k - 1)) by lia.
  rewrite land_mask by lia. fold (round_up addr (2 ^ k)).
  pose proof (round_up_spec addr (2 ^ k)). case_z; [lia|done].
Qed.

(** The reference search: walk the ranges in order and take the first aligned
    address, at or above the end of everything passed, that leaves [span]
    bytes before the next range. *)
Fixpoint first_gap (base span align : Z) (xs : list vrange) : option Z :=
  match xs with
  | [] => None
  | x :: xs' =>
      if rstart x >=? round_up base align + span then Some (round_up base align)
      else first_gap (rend x) span align xs'
  end.

Lemma first_gap_app base span align l r :
  first_gap base span align (l ++ r) =
  match first_gap base span align l with
  | Some a => Some a
  | None => first_gap (last_end base l) span align r
  end.
Proof.
  revert base. induction l as [|x l IH]; intros base; simpl; [done|].
  destruct (_ >=? _); [done|]. rewrite IH. destruct (first_gap _ _ _ l); [done|].
  f_equal. unfold last_end. destruct l as [|y l]; [done|]. rewrite last_cons_cons.
  destruct (last (y :: l)) eqn:E; [done|]. by apply last_None in E.
Qed.

Lemma first_gap_none_dense p xs x base align :
  0 < align → gaps_lt p (x :: xs) → first_gap base (p * PAGE_SIZE) align [x] = None →
  first_gap base (p * PAGE_SIZE) align (x :: xs) = None.
Proof.
  intros Hal. revert x base. induction xs as [|y xs IH]; intros x base Hg Hx; [done|].
  rewrite gaps_lt_cons in Hg. destruct Hg as [Hg Hgs]. simpl in Hx, Hg. simpl first_gap at 1.
  destruct (rstart x >=? round_up base align + p * PAGE_SIZE); [done|].
  apply IH; [done|]. simpl. pose proof (round_up_spec (rend x) align Hal).
  rewrite Z.geb_leb. case_z; [lia|done].
Qed.

Section Search.
Context (pool_end count k : Z).
Context (Hcount : 0 < count) (Hk : 0 <= k <= 63).
Context (Hroom : pool_end + 2 ^ k + count * PAGE_SIZE < 2 ^ 64).

#[local] Abbreviation span := (count * PAGE_SIZE).
#[local] Abbreviation align := (2 ^ k).

Lemma align_pos : 0 < align.
Proof. apply Z.pow_pos_nonneg; lia. Qed.

Lemma span_exact : 0 <= pool_end → u64 span = span.
Proof. pose proof align_pos. intros. unfold PAGE_SIZE in *. rewrite u64_id; lia. Qed.

(** At a base inside the pool nothing in the candidate computation wraps. *)
Lemma candidate_exact base :
  0 <= base <= pool_end →
  align_up base align = round_up base align ∧
  u64 (round_up base align + span) = round_up base align + span.
Proof.
  intros. pose proof align_pos as Hal. pose proof (round_up_spec base align Hal).
  unfold PAGE_SIZE in *. rewrite align_up_exact by lia. split; [done|]. rewrite u64_id; lia.
Qed.

(** Soundness of the reference search. *)
Lemma first_gap_sound xs base hi a :
  chain base xs hi → first_gap base span align xs = Some a →
  base <= a ∧ (align | a) ∧ a + span <= hi.
Proof.
  pose proof align_pos as Hal.
  revert base. induction xs as [|x xs IH]; intros base; simpl; [done|].
  intros (?&?&?&Hc). destruct (_ >=? _) eqn:E; zify_bools.
  - intros [= <-]. pose proof (round_up_spec base align Hal) as [? ?].
    pose proof (chain_le _ _ _ Hc). unfold rend, PAGE_SIZE in *. repeat split; auto; lia.
  - intros Hf. destruct (IH _ Hc Hf) as (?&?&?). unfold rend, PAGE_SIZE in *. repeat split; auto; lia.
Qed.

(** The end of the left subtree, as the search computes it. *)
Lemma base_after_left l lo mid :
  vshape l → chain lo (vcontents l) mid → 0 <= lo → mid < 2 ^ 64 →
  match l with
  | Leaf => lo
  | _ => if vmm_subtree_end l >? lo then vmm_subtree_end l else lo
  end = last_end lo (vcontents l) ∧ lo <= last_end lo (vcontents l) <= mid.
Proof.
  intros Hs Hc ? ?. destruct l as [|ll lv lh lr]; [simpl; pose proof (chain_le _ _ _ Hc); unfold last_end; simpl; lia|].
  destruct (vshape_extent _ _ _ Hs Hc ltac:(lia) ltac:(lia) _ _ _ _ eq_refl) as (_&Hse).
  destruct (vcontents_nonempty ll lv lh lr) as (_&y&_&Hy&_&Hin).
  pose proof (chain_elem _ _ _ _ Hc Hin) as (?&?&?&_).
  unfold last_end. rewrite Hy in *. injection Hse as Hse. simpl vmm_subtree_end. rewrite Hse.
  unfold rend in *. unfold PAGE_SIZE in *. rewrite Z.gtb_ltb. case_z; lia.
Qed.

(** One node of the search, its subtrees already searched. *)
Lemma find_gap_at_node base n r hi :
  0 < base → base <= start n → chain (rend (node_range n)) (vcontents r) hi →
  start n < rend (node_range n) → hi <= pool_end → rend (node_range n) <= hi →
  u64 (start n + u64 (page_count n * PAGE_SIZE)) = rend (node_range n) →
  (∀ lo, 0 < lo → chain lo (vcontents r) hi →
     vmm_find_gap pool_end r lo count align = default 0 (first_gap lo span align (vcontents r))) →
  (let aligned_base := align_up base align in
   if start n >=? u64 (aligned_base + u64 span) then
     (if u64 (aligned_base + u64 span) <=? pool_end then aligned_base else 0)
   else
     let nend := u64 (start n + u64 (page_count n * PAGE_SIZE)) in
     let base := if nend >? base then nend else base in
     match r with
     | Leaf => 0
     | _ => let addr := vmm_find_gap pool_end r base count align in
            if negb (addr =? 0) then addr else 0
     end) = default 0 (first_gap base span align (node_range n :: vcontents r)).
Proof.
  intros ? ? Hcr ? ? ? Hne IHr. cbv zeta. rewrite span_exact by lia.
  destruct (candidate_exact base) as [-> Hw]; [lia|]. rewrite Hw. simpl first_gap.
  change (rstart (node_range n)) with (start n).
  destruct (start n >=? _) eqn:E; zify_bools.
  - replace (_ <=? pool_end) with true by (symmetry; apply Z.leb_le; lia). done.
  - rewrite Hne. replace (_ >? base) with true by (symmetry; rewrite Z.gtb_ltb; apply Z.ltb_lt; lia).
    destruct r; [done|]. cbv zeta. rewrite IHr by (done || lia).
    destruct (first_gap _ _ _ _) as [a|] eqn:Hf; simpl; [|done].
    by destruct (a =? 0) eqn:E0; zify_bools.
Qed.

Lemma vmm_find_gap_first_gap t base hi :
  vshape t → chain base (vcontents t) hi → 0 < base → hi <= pool_end →
  vmm_find_gap pool_end t base count align =
  default 0 (first_gap base span align (vcontents t)).
Proof.
  pose proof align_pos as Hal.
  revert base hi. induction t as [|l IHl n h r IHr]; intros base hi Hs Hc Hb Hhi; [done|].
  pose proof (chain_le _ _ _ Hc) as Hbhi.
  assert (hi < 2 ^ 64) as Hhi64 by (unfold PAGE_SIZE in *; lia).
  destruct (chain_node _ _ _ _ _ _ Hs Hc ltac:(lia) Hhi64) as (Hsl&Hsr&Hcl&?&Hcr&?&?&Ha&?&Hne).
  destruct (vshape_extent _ _ _ Hs Hc ltac:(lia) Hhi64 _ _ _ _ eq_refl) as (Hss&_).
  pose proof (vshape_gaps _ _ _ Hs Hc ltac:(lia) Hhi64 _ _ _ _ eq_refl count) as Hgaps.
  destruct (vcontents (Node l n h r)) as [|x xs] eqn:Exs; [discriminate|].
  pose proof (chain_elem _ _ _ x Hc ltac:(apply elem_of_cons; auto)) as (?&?&?&_).
  injection Hss as Hss. simpl vmm_find_gap. unfold vmm_subtree_start. rewrite Hss.
  pose proof (span_exact ltac:(lia)) as Hspan.
  destruct (candidate_exact base) as [Hau Hw]; [lia|].
  destruct (rstart x >=? u64 (align_up base align + u64 span)) eqn:E1.
  { rewrite Hau, Hspan, Hw in *. simpl first_gap. rewrite E1. zify_bools.
    replace (_ <=? pool_end) with true; [done|]. symmetry; apply Z.leb_le.
    unfold rend, PAGE_SIZE in *. lia. }
  destruct (max_gap n <? count) eqn:E2; zify_bools.
  { rewrite first_gap_none_dense; auto. simpl. rewrite Hau, Hspan, Hw in E1.
    rewrite Z.geb_leb. case_z; [lia|done]. }
  rewrite <- Exs, vcontents_node, first_gap_app.
  replace (match l with Leaf => 0 | _ => vmm_find_gap pool_end l base count align end)
    with (default 0 (first_gap base span align (vcontents l))).
  2: { destruct l; [done|]. symmetry. by apply (IHl base (start n)); [..|lia]. }
  destruct (first_gap base span align (vcontents l)) as [a|] eqn:Hfl; simpl.
  { destruct (first_gap_sound _ _ _ _ Hcl Hfl) as (?&_&_).
    replace (a =? 0) with false; [done|]. symmetry; apply Z.eqb_neq. lia. }
  destruct (base_after_left l base (start n) Hsl Hcl ltac:(lia) ltac:(lia)) as [-> ?].
  apply (find_gap_at_node (last_end base (vcontents l)) n r hi); try done; try lia.
  intros lo ? ?. by apply (IHr lo hi).
Qed.

Lemma first_gap_disjoint xs base hi a x :
  chain base xs hi → first_gap base span align xs = Some a → x ∈ xs →
  a + span <= rstart x ∨ rend x <= a.
Proof.
  pose proof align_pos as Hal.
  revert base. induction xs as [|y xs IH]; intros base; [set_solver|].
  simpl. intros (?&?&?&Hc) Hf Hx. destruct (_ >=? _) eqn:E; zify_bools.
  - injection Hf as <-. left. apply elem_of_cons in Hx as [->|Hx]; [done|].
    pose proof (chain_elem _ _ _ _ Hc Hx). unfold rend, PAGE_SIZE in *. lia.
  - apply elem_of_cons in Hx as [->|Hx]; [|by eapply IH].
    destruct (first_gap_sound _ _ _ _ Hc Hf). by right.
Qed.

Lemma first_gap_least xs base hi b :
  chain base xs hi → (align | b) → base <= b →
  (∀ x, x ∈ xs → b + span <= rstart x ∨ rend x <= b) →
  match first_gap base span align xs with
  | Some a => a <= b
  | None => last_end base xs <= b
  end.
Proof.
  pose proof align_pos as Hal.
  revert base. induction xs as [|y xs IH]; intros base; simpl; [done|].
  intros (?&?&?&Hc) Hdv Hb Hd. pose proof (round_up_least base align b Hal Hb Hdv).
  destruct (_ >=? _) eqn:E; zify_bools; [done|].
  destruct (Hd y) as [?|Hy]; [by left|lia|].
  assert (∀ x, x ∈ xs → b + span <= rstart x ∨ rend x <= b) as Hd' by (intros; apply Hd; by right).
  specialize (IH _ Hc Hdv Hy Hd'). destruct (first_gap _ _ _ xs); [done|].
  unfold last_end in *. rewrite last_cons. by destruct (last xs).
Qed.
End Search.

Lemma last_end_le base xs hi : chain base xs hi → base <= last_end base xs <= hi.
Proof.
  intros Hc. unfold last_end. destruct (last xs) as [x|] eqn:E.
  - apply last_Some in E as [l ->]. apply chain_app in Hc as (Hl&?&?&Hr).
    apply chain_le in Hl. simpl in Hr. unfold rend, PAGE_SIZE in *. lia.
  - pose proof (chain_le _ _ _ Hc). lia.
Qed.

Lemma last_end_ge base xs hi x : chain base xs hi → x ∈ xs → rend x <= last_end base xs.
Proof.
  revert base. induction xs as [|y xs IH]; intros base; [set_solver|]. simpl.
  intros (?&?&?&Hc) Hx. pose proof (last_end_le _ _ _ Hc).
  assert (last_end base (y :: xs) = last_end (rend y) xs) as ->.
  { unfold last_end. rewrite last_cons. by destruct (last xs). }
  apply elem_of_cons in Hx as [->|Hx]; [lia|]. by eapply IH.
Qed.

Lemma chain_insert lo xs hi a c f :
  chain lo xs hi → lo <= a → 0 < c → a + c * PAGE_SIZE <= hi → (PAGE_SIZE | a) →
  (∀ x, x ∈ xs → a + c * PAGE_SIZE <= rstart x ∨ rend x <= a) →
  chain lo (sorted_insert rstart (a, c, f) xs) hi.
Proof.
  revert lo. induction xs as [|x xs IH]; intros lo; simpl.
  - intros. unfold rend, rstart, rpages, PAGE_SIZE in *; simpl. repeat split; auto; lia.
  - intros (?&?&?&Hc) ??? Hal Hd. change (rstart (a, c, f)) with a.
    destruct (Hd x) as [Hx|Hx]; [set_solver| |].
    + replace (a <? rstart x) with true by (symmetry; apply Z.ltb_lt; unfold PAGE_SIZE in *; lia).
      simpl. by repeat split.
    + assert (rstart x < rend x) by (unfold rend, PAGE_SIZE in *; lia).
      replace (a <? rstart x) with false by (symmetry; apply Z.ltb_ge; lia).
      rewrite Z.gtb_ltb. replace (rstart x <? a) with true by (symmetry; apply Z.ltb_lt; lia).
      simpl. repeat split; auto. apply IH; auto. intros; apply Hd; set_solver.
Qed.

Lemma chain_remove lo xs hi v : chain lo xs hi → chain lo (sorted_remove rstart v xs) hi.
Proof.
  unfold sorted_remove. revert lo. induction xs as [|x xs IH]; intros lo; [done|].
  simpl chain. intros (?&?&?&Hc). rewrite filter_cons. case_decide.
  - simpl. repeat split; auto.
  - apply IH. eapply chain_mono; [exact Hc| |lia]. unfold rend, PAGE_SIZE in *. lia.
Qed.

(** * The allocator invariant and its operations *)

Definition live (s : vmm_state) : list vrange := vcontents (vmm_root s).

Record vmm_inv (s : vmm_state) : Prop := {
  inv_tree : avl_inv vmm_avl_cb node_range rstart (vmm_root s);
  inv_chain : chain (vmm_pool_base s) (live s) (vmm_pool_end s);
  inv_base : 0 < vmm_pool_base s;
  inv_end : vmm_pool_end s < 2 ^ 64
}.

(** [count] pages at [a] are aligned, inside the pool and free. *)
Definition fits (s : vmm_state) (count align a : Z) : Prop :=
  (align | a) ∧ vmm_pool_base s <= a ∧ a + count * PAGE_SIZE <= vmm_pool_end s ∧
  ∀ x, x ∈ live s → a + count * PAGE_SIZE <= rstart x ∨ rend x <= a.

(** The address the allocator settles on before it checks the pool end. *)
Definition chosen (s : vmm_state) (count align : Z) : Z :=
  let addr := vmm_find_gap (vmm_pool_end s) (vmm_root s) (vmm_pool_base s) count align in
  if addr =? 0 then
    let tail := match vmm_root s with
                | Leaf => vmm_pool_base s
                | root => vmm_subtree_end root
                end in
    let tail := align_up tail align in
    if tail <? vmm_pool_base s then vmm_pool_base s else tail
  else addr.

Lemma tail_last_end s :
  vmm_inv s →
  match vmm_root s with Leaf => vmm_pool_base s | root => vmm_subtree_end root end =
  last_end (vmm_pool_base s) (live s).
Proof.
  intros [[Hs _] Hc ? ?]. unfold live in *. destruct (vmm_root s) as [|l n h r]; [done|].
  destruct (vshape_extent _ _ _ Hs Hc ltac:(lia) ltac:(lia) _ _ _ _ eq_refl) as (_&Hse).
  simpl vmm_subtree_end. unfold last_end. destruct (last _); [by injection Hse|discriminate].
Qed.

(** What the choice means: it is the first aligned address that can fit, and
    it fits exactly when it ends inside the pool. *)
Lemma chosen_spec s count k :
  vmm_inv s → 0 < count → 12 <= k <= 63 →
  vmm_pool_end s + 2 ^ k + count * PAGE_SIZE < 2 ^ 64 →
  let a := chosen s count (2 ^ k) in
  (a + count * PAGE_SIZE <= vmm_pool_end s → fits s count (2 ^ k) a) ∧
  (∀ b, fits s count (2 ^ k) b → a <= b) ∧
  vmm_pool_base s <= a <= vmm_pool_end s + 2 ^ k.
Proof.
  intros Hinv Hcnt Hk Hroom a. assert (0 < 2 ^ k) as Hal by (apply Z.pow_pos_nonneg; lia).
  pose proof (tail_last_end s Hinv) as Htail. destruct Hinv as [[Hs _] Hc Hb He].
  pose proof (chain_le _ _ _ Hc). unfold live in *.
  assert (0 <= k <= 63) as Hk' by lia.
  assert (vmm_find_gap (vmm_pool_end s) (vmm_root s) (vmm_pool_base s) count (2 ^ k) =
    default 0 (first_gap (vmm_pool_base s) (count * PAGE_SIZE) (2 ^ k) (vcontents (vmm_root s)))) as Hg
    by (eapply vmm_find_gap_first_gap; eauto; lia).
  unfold a, chosen. rewrite Hg. cbv zeta. rewrite Htail. unfold live.
  pose proof (λ b, first_gap_least count k Hk' (vcontents (vmm_root s)) _ _ b Hc) as Hleast.
  destruct (first_gap _ _ _ _) as [c|] eqn:Hf; simpl.
  - destruct (first_gap_sound count k Hk' _ _ _ _ Hc Hf) as (?&?&?).
    replace (c =? 0) with false by (symmetry; apply Z.eqb_neq; lia).
    split; [|split; [|unfold PAGE_SIZE in *; lia]].
    + intros _. repeat split; auto. intros x Hx. by eapply first_gap_disjoint.
    + intros b (?&?&?&?). by apply Hleast.
  - pose proof (last_end_le _ _ _ Hc) as Hle. set (e := last_end _ _) in *.
    rewrite align_up_exact by (unfold PAGE_SIZE in *; lia).
    pose proof (round_up_spec e (2 ^ k) Hal) as [[??] ?].
    replace (_ <? _) with false by (symmetry; apply Z.ltb_ge; lia).
    split; [|split; [|lia]].
    + intros Hfit. repeat split; auto; [lia|]. intros x Hx. right.
      pose proof (last_end_ge _ _ _ _ Hc Hx). unfold e in *. lia.
    + intros b (?&?&?&?). apply round_up_least; auto.
Qed.

Lemma vmm_alloc_aligned_chosen ok s count align :
  count ≠ 0 →
  vmm_alloc_aligned ok s count align =
  (let addr := chosen s count align in
   if u64 (addr + u64 (count * PAGE_SIZE)) >? vmm_pool_end s
   then Panic "VMM" "out of virtual address space"
   else
     '(n, s) ← pool_alloc_node ok s;
     root ← avl_insert vmm_avl_cb (vmm_root s)
              (fresh_node (mkVMMNode addr count (max_gap n) (subtree_start n) (subtree_end n)
                             (heap_allocated n)));
     mret (addr, mkVmm (vmm_pool_base s) (vmm_pool_end s) root
                   (early_pool_count s) (vmm_heap_available s))).
Proof. intros Hc. unfold vmm_alloc_aligned. apply Z.eqb_neq in Hc. by rewrite Hc. Qed.

(** The node supply: it only ever moves the early-pool counter. *)
Lemma pool_alloc_node_cases ok s :
  (∃ s', pool_alloc_node ok s = Ok (zero_node, s') ∧ vmm_root s' = vmm_root s ∧
     vmm_pool_base s' = vmm_pool_base s ∧ vmm_pool_end s' = vmm_pool_end s) ∨
  (pool_alloc_node ok s = Panic "VMM" "malloc failed" ∧ vmm_heap_available s = true ∧ ok = false) ∨
  (pool_alloc_node ok s = Panic "VMM" "early pool exhausted" ∧ vmm_heap_available s = false ∧
     VMM_EARLY_POOL <= early_pool_count s).
Proof.
  unfold pool_alloc_node. destruct (vmm_heap_available s).
  - destruct ok; simpl; [left; eauto|right; left; done].
  - destruct (_ >=? _) eqn:E; zify_bools; simpl; [right; right; done|left; eexists; eauto].
Qed.

Definition alloc_post (ok : bool) (s : vmm_state) (count align : Z) (m : result (Z * vmm_state)) : Prop :=
  match m with
  | Ok (a, s') =>
      fits s count align a ∧ (∀ b, fits s count align b → a <= b) ∧
      vmm_inv s' ∧ live s' = sorted_insert rstart (a, count, false) (live s)
  | Panic _ msg =>
      (msg = "out of virtual address space" ∧ ∀ b, ¬ fits s count align b) ∨
      (msg = "malloc failed" ∧ vmm_heap_available s = true ∧ ok = false) ∨
      (msg = "early pool exhausted" ∧ vmm_heap_available s = false ∧ VMM_EARLY_POOL <= early_pool_count s)
  | _ => False
  end%string.

Lemma page_align_divide k a : 12 <= k → (2 ^ k | a) → (PAGE_SIZE | a).
Proof.
  intros Hk Hd. apply Z.divide_trans with (2 ^ k); [|done]. exists (2 ^ (k - 12)).
  unfold PAGE_SIZE. change 4096 with (2 ^ 12). rewrite <- Z.pow_add_r by lia. f_equal. lia.
Qed.

Lemma vmm_alloc_ok ok s count k :
  vmm_inv s → 0 < count → 12 <= k <= 63 →
  vmm_pool_end s + 2 ^ k + count * PAGE_SIZE < 2 ^ 64 →
  alloc_post ok s count (2 ^ k) (vmm_alloc_aligned ok s count (2 ^ k)).
Proof.
  intros Hinv Hcnt Hk Hroom.
  destruct (chosen_spec s count k Hinv Hcnt Hk Hroom) as (Hfit&Hleast&Hrange).
  rewrite vmm_alloc_aligned_chosen by lia. cbv zeta. set (a := chosen s count (2 ^ k)) in *.
  assert (0 < 2 ^ k) by (apply Z.pow_pos_nonneg; lia). pose proof (inv_base s Hinv).
  unfold PAGE_SIZE in *. rewrite !u64_id by (rewrite ?u64_id; lia).
  destruct (_ >? _) eqn:E; zify_bools.
  { left. split; [done|]. intros b Hb. pose proof (Hleast b Hb).
    destruct Hb as (_&_&Hb&_). unfold PAGE_SIZE in *. lia. }
  specialize (Hfit ltac:(lia)).
  destruct (pool_alloc_node_cases ok s) as [(s'&->&Hr&Hb&He)|[(->&?&?)|(->&?&?)]];
    [|by right; left|by right; right]. simpl mbind. rewrite Hr.
  set (n := mkVMMNode _ _ _ _ _ _).
  destruct (avl_insert_ok vmm_avl_cb node_range rstart (vmm_root s) n (inv_tree s Hinv)) as (t&->&Ht&Hc).
  simpl. split; [done|]. split; [done|]. split; [|exact Hc].
  destruct Hfit as (Hal&Hlo&Hhi&Hd). constructor; simpl; rewrite ?Hb, ?He; try apply Hinv; [done|].
  unfold live. simpl. rewrite Hc. apply chain_insert; try done; [apply Hinv|].
  by apply page_align_divide in Hal; [|lia].
Qed.

(** Releasing [virt]: what the tree holds under that start address decides. *)
Lemma vmm_free_ok s virt count :
  vmm_inv s → virt ≠ 0 →
  ∃ r called s', vmm_free_pages s virt count = Ok (r, called, s') ∧ vmm_inv s' ∧
    live s' = sorted_remove rstart virt (live s) ∧
    ((∃ p h, (virt, p, h) ∈ live s ∧ called = h ∧ r = if p =? count then virt else 0) ∨
     (r = 0 ∧ called = false ∧ live s' = live s)).
Proof.
  intros Hinv Hv. unfold vmm_free_pages. apply Z.eqb_neq in Hv. rewrite Hv.
  set (key := mkVMMNode virt 0 0 0 0 false).
  destruct (avl_delete_ok vmm_avl_cb node_range rstart (vmm_root s) key (inv_tree s Hinv)) as (t&Hd&Ht&Hc).
  assert (vmm_inv (mkVmm (vmm_pool_base s) (vmm_pool_end s) t (early_pool_count s) (vmm_heap_available s))) as Hinv'.
  { constructor; simpl; try apply Hinv; [done|]. unfold live. simpl. rewrite Hc.
    apply chain_remove. apply Hinv. }
  destruct (vmm_root s) as [|l n h r] eqn:Hr.
  { exists 0, false, s. split; [done|]. split; [done|]. unfold live. rewrite Hr.
    split; [done|]. by right. }
  rewrite Hd. cbn [mbind result_bind]. set (s' := mkVmm _ _ _ _ _) in *.
  assert (live s' = sorted_remove rstart virt (live s)) as Hl by (unfold live; rewrite Hr; exact Hc).
  destruct (avl_find vmm_avl_cb (Node l n h r) key) as [out|] eqn:Hf.
  - apply (avl_find_Some vmm_avl_cb node_range rstart) in Hf as [Hin Hk].
    apply (elem_of_contents node_range) in Hin. unfold rstart in Hk; simpl in Hk.
    assert ((virt, page_count out, heap_allocated out) ∈ live s) as Hlive.
    { unfold live. rewrite Hr, <- Hk. exact Hin. }
    exists (if page_count out =? count then virt else 0), (heap_allocated out), s'.
    split; [|split; [done|]; split; [done|]; left; by exists (page_count out), (heap_allocated out)].
    rewrite <- Hk. unfold pool_free_node, node_range. simpl. by destruct (page_count out =? count).
  - eexists _, _, _. split; [done|]. split; [done|]. split; [done|]. right. split; [done|]. split; [done|].
    rewrite Hl. apply sorted_remove_all. apply Forall_forall. intros x Hx Hxk.
    unfold live in Hx. rewrite Hr in Hx. unfold contents in Hx. apply list_elem_of_fmap in Hx as (m&->&Hm).
    rewrite (avl_find_complete vmm_avl_cb node_range rstart (Node l n h r) key m) in Hf; try done.
    pose proof (inv_tree s Hinv) as [_ Hs]. by rewrite Hr in Hs.
Qed.

(** * Executions *)

Inductive vmm_reach : vmm_state → Prop :=
| reach_init hhdm max_ram level :
    0 <= hhdm → 0 <= max_ram → 0 < hhdm + max_ram <= 0xFFFFF00000000000 →
    vmm_reach (vmm_init hhdm max_ram level)
| reach_alloc ok s count k a s' :
    vmm_reach s → 0 < count → 12 <= k <= 63 →
    vmm_pool_end s + 2 ^ k + count * PAGE_SIZE < 2 ^ 64 →
    vmm_alloc_aligned ok s count (2 ^ k) = Ok (a, s') → vmm_reach s'
| reach_free s virt count r called s' :
    vmm_reach s → vmm_free_pages s virt count = Ok (r, called, s') → vmm_reach s'
| reach_switch s : vmm_reach s → vmm_reach (vmm_switch_to_heap s).

Lemma vmm_init_inv hhdm max_ram level :
  0 < hhdm + max_ram <= 0xFFFFF00000000000 → vmm_inv (vmm_init hhdm max_ram level).
Proof.
  intros H. assert (u64 (hhdm + max_ram) = hhdm + max_ram) as Hb by (apply u64_id; lia).
  unfold vmm_init. constructor; simpl.
  - split; [done|constructor].
  - rewrite Hb. destruct (level =? 5); lia.
  - rewrite Hb. lia.
  - destruct (level =? 5); lia.
Qed.

Lemma vmm_reach_inv s : vmm_reach s → vmm_inv s.
Proof.
  induction 1 as [hhdm mr level ? ? ?|ok s count k a s' _ IH ? ? ? Ha|s virt count r c s' _ IH Hf|s _ IH].
  - by apply vmm_init_inv.
  - pose proof (vmm_alloc_ok ok s count k IH) as Hp. rewrite Ha in Hp. by apply Hp.
  - destruct (Z.eq_dec virt 0) as [->|Hv]; [by injection Hf as <- <- <-|].
    destruct (vmm_free_ok s virt count IH Hv) as (?&?&?&Hf'&?&_). rewrite Hf in Hf'. congruence.
  - destruct IH. by constructor.
Qed.

Lemma chain_ordered lo xs hi i j x y :
  chain lo xs hi → (i < j)%nat → xs !! i = Some x → xs !! j = Some y → rend x <= rstart y.
Proof.
  revert lo i j. induction xs as [|z xs IH]; intros lo i j Hc Hij Hi Hj; [done|].
  destruct Hc as (?&?&?&Hc). destruct j as [|j]; [lia|]. simpl in Hj. destruct i as [|i]; simpl in Hi.
  - injection Hi as ->. apply list_elem_of_lookup_2 in Hj. by apply (chain_elem _ _ _ _ Hc) in Hj as [? _].
  - apply (IH _ i j Hc); [lia|done|done].
Qed.

(** * Properties *)

(** C3: allocation is first fit and safe.  On success the returned range is
    aligned, inside the pool, disjoint from every live range and the lowest
    such address; the live set gains exactly that range and the invariant is
    kept.  The only other outcomes are the three panics, each under its
    documented condition: no address fits, malloc failed, or the early pool
    of 64 nodes is used up. *)
Theorem vmm_alloc_correct ok s count k :
  vmm_inv s → 0 < count → 12 <= k <= 63 →
  vmm_pool_end s + 2 ^ k + count * PAGE_SIZE < 2 ^ 64 →
  alloc_post ok s count (2 ^ k) (vmm_alloc_aligned ok s count (2 ^ k)).
Proof. apply vmm_alloc_ok. Qed.

(** releasing an address never faults, keeps the invariant and removes
    exactly the range that starts there.  The address is returned only when
    the page count matches; with a wrong count the range is dropped all the
    same and 0 is returned.  An address that starts no range changes nothing. *)
Theorem vmm_free_correct s virt count :
  vmm_inv s → virt ≠ 0 →
  ∃ r called s', vmm_free_pages s virt count = Ok (r, called, s') ∧ vmm_inv s' ∧
    live s' = sorted_remove rstart virt (live s) ∧
    ((∃ p h, (virt, p, h) ∈ live s ∧ called = h ∧ r = if p =? count then virt else 0) ∨
     (r = 0 ∧ called = false ∧ live s' = live s)).
Proof. apply vmm_free_ok. Qed.

(** C4: in every state reachable from [vmm_init] by any sequence of
    allocations, releases and the switch to the heap, the live ranges are
    pairwise disjoint, in address order and inside the pool. *)
Theorem vmm_live_disjoint s :
  vmm_reach s →
  (∀ x, x ∈ live s → vmm_pool_base s <= rstart x ∧ rend x <= vmm_pool_end s) ∧
  ∀ i j x y, (i < j)%nat → live s !! i = Some x → live s !! j = Some y → rend x <= rstart y.
Proof.
  intros Hr%vmm_reach_inv. split.
  - intros x Hx. by destruct (chain_elem _ _ _ _ (inv_chain s Hr) Hx) as (?&_&?&_).
  - intros i j x y. apply (chain_ordered _ _ _ _ _ _ _ (inv_chain s Hr)).
Qed.

(** the augmented tree search, which prunes every subtree whose
    [max_gap] is too small, returns the same address as a linear first-fit
    scan of the ranges in address order. *)
Theorem vmm_find_gap_equiv s count k :
  vmm_inv s → 0 < count → 12 <= k <= 63 →
  vmm_pool_end s + 2 ^ k + count * PAGE_SIZE < 2 ^ 64 →
  vmm_find_gap (vmm_pool_end s) (vmm_root s) (vmm_pool_base s) count (2 ^ k) =
  default 0 (first_gap (vmm_pool_base s) (count * PAGE_SIZE) (2 ^ k) (live s)).
Proof.
  intros [[Hs _] Hc ? ?] ? ? ?. eapply vmm_find_gap_first_gap; eauto; lia.
Qed.

(** The node supply zeroes the node after setting its flag, so no range ever
    remembers that its node came from the heap. *)
Theorem pool_alloc_node_flag_lost ok s n s' :
  pool_alloc_node ok s = Ok (n, s') → heap_allocated n = false ∧ pool_free_node n = false.
Proof.
  destruct (pool_alloc_node_cases ok s) as [(?&->&_)|[(->&_)|(->&_)]]; intros H; [|done|done].
  by injection H as <- <-.
Qed.

(** A concrete pool: 4-level paging, 2 GiB of RAM, after three allocations. *)
Definition demo_init : vmm_state := vmm_init 0xFFFF800000000000 0x80000000 4.

Definition run_allocs (s : vmm_state) (counts : list Z) : result vmm_state :=
  foldl (λ m c, s ← m; '(_, s) ← vmm_alloc_pages true s c; mret s) (Ok s) counts.

(** Allocating and releasing one page 64 times uses up the early pool: the
    65th allocation panics with the pool empty of live ranges. *)
Definition alloc_free_round (m : result vmm_state) : result vmm_state :=
  s ← m; '(a, s) ← vmm_alloc_pages true s 1; '(_, _, s) ← vmm_free_pages s a 1; mret s.

Theorem vmm_early_pool_leaks :
  (∃ s, Nat.iter 64 alloc_free_round (Ok demo_init) = Ok s ∧ live s = []) ∧
  Nat.iter 65 alloc_free_round (Ok demo_init) = Panic "VMM" "early pool exhausted".
Proof. split; [eexists; split; vm_compute; reflexivity|vm_compute; reflexivity]. Qed.

Definition demo_state : vmm_state :=
  Eval vm_compute in
    match run_allocs demo_init [4; 1; 2] with Ok s => s | _ => demo_init end.

Lemma demo_state_inv : vmm_inv demo_state.
Proof.
  constructor.
  - split; [vm_compute; repeat split; try discriminate|].
    vm_compute. repeat constructor.
  - refine (bool_decide_eq_true_1 _ _). vm_compute. reflexivity.
  - reflexivity.
  - reflexivity.
Defined.

Lemma vmm_alloc_correct_witness :
  ∃ a s', vmm_alloc_aligned true demo_state 3 (2 ^ 12) = Ok (a, s') ∧
    fits demo_state 3 (2 ^ 12) a ∧ live s' = sorted_insert rstart (a, 3, false) (live demo_state).
Proof.
  pose proof (vmm_alloc_correct true demo_state 3 12 demo_state_inv ltac:(lia) ltac:(lia)
                ltac:(vm_compute; reflexivity)) as H.
  destruct (vmm_alloc_aligned true demo_state 3 (2 ^ 12)) as [[a s']| | |] eqn:E; try (vm_compute in E; discriminate).
  destruct H as (H1&_&_&H2). exists a, s'. split; [reflexivity|]. split; [exact H1|exact H2].
Defined.

Lemma vmm_free_correct_witness :
  ∃ s', vmm_free_pages demo_state 0xFFFF800080004000 1 = Ok (0xFFFF800080004000, false, s') ∧
    live s' = sorted_remove rstart 0xFFFF800080004000 (live demo_state).
Proof.
  destruct (vmm_free_correct demo_state 0xFFFF800080004000 1 demo_state_inv ltac:(lia))
    as (r&c&s'&E&_&Hl&_).
  exists s'. split; [|exact Hl]. rewrite E. vm_compute in E. by injection E as <- <- _.
Defined.

Definition demo_one : vmm_state :=
  Eval vm_compute in match run_allocs demo_init [4] with Ok s => s | _ => demo_init end.

Lemma vmm_live_disjoint_witness :
  Forall (λ x, vmm_pool_base demo_one <= rstart x ∧ rend x <= vmm_pool_end demo_one) (live demo_one).
Proof.
  apply Forall_forall. apply (vmm_live_disjoint demo_one).
  apply (reach_alloc true demo_init 4 12 0xFFFF800080000000);
    [apply reach_init; lia|lia|lia|vm_compute; reflexivity|vm_compute; reflexivity].
Defined.

Lemma vmm_find_gap_equiv_witness :
  vmm_find_gap (vmm_pool_end demo_state) (vmm_root demo_state) (vmm_pool_base demo_state) 1 (2 ^ 12) =
  default 0 (first_gap (vmm_pool_base demo_state) (1 * PAGE_SIZE) (2 ^ 12) (live demo_state)).
Proof.
  apply (vmm_find_gap_equiv demo_state 1 12 demo_state_inv); [lia|lia|vm_compute; reflexivity].
Defined.
