(* ===== verification/Bitmap.v ===== *)
(** Byte bitmaps (src/datatype/bitmap.h, src/datatype/bitmap.c).

    The three macros on a byte array, an access outside the array being a
    [Fault], and the linear search for a clear bit, with the bit level view
    ([bit]) the physical allocator's proofs use. *)

From S2P Require Import Prelude.

Definition BITMAP_SET (map : list Z) (b : Z) : result (list Z) :=
  w ← of_option (map !! Z.to_nat (b / 8));
  mret (<[Z.to_nat (b / 8) := u8 (Z.lor w (u32 (Z.shiftl 1 (b mod 8))))]> map).

Definition BITMAP_CLEAR (map : list Z) (b : Z) : result (list Z) :=
  w ← of_option (map !! Z.to_nat (b / 8));
  mret (<[Z.to_nat (b / 8) := u8 (Z.land w (2 ^ 32 - 1 - u32 (Z.shiftl 1 (b mod 8))))]> map).

Definition BITMAP_TEST (map : list Z) (b : Z) : result Z :=
  w ← of_option (map !! Z.to_nat (b / 8));
  mret (Z.land (Z.shiftr w (b mod 8)) 1).

(** The loop of [bitmap_find_next_free] with [n] iterations left. *)
Fixpoint find_next_free_loop (n : nat) (map : list Z) (i : Z) : result Z :=
  match n with
  | O => Ok (u64 (-1))
  | S n =>
      t ← BITMAP_TEST map i;
      if t =? 0 then Ok i else find_next_free_loop n map (i + 1)
  end.

Definition bitmap_find_next_free (map : list Z) (bit_offset total_bits : Z) : result Z :=
  find_next_free_loop (Z.to_nat (total_bits - bit_offset)) map bit_offset.

(** * Bit level view *)

Definition bit (m : list Z) (i : Z) : bool :=
  Z.testbit (default 0 (m !! Z.to_nat (i / 8))) (i mod 8).

Definition bytes (m : list Z) : Prop := Forall (λ b, 0 <= b < 2 ^ 8) m.

(** Bit [b] can be addressed. *)
Definition bit_in (m : list Z) (b : Z) : Prop := 0 <= b < 8 * Z.of_nat (length m).

Lemma bit_in_lookup m b : bit_in m b → ∃ w, m !! Z.to_nat (b / 8) = Some w.
Proof.
  intros [? ?]. apply lookup_lt_is_Some_2.
  pose proof (Z.div_lt_upper_bound b 8 (Z.of_nat (length m)) ltac:(lia) ltac:(lia)).
  pose proof (Z.div_pos b 8 ltac:(lia) ltac:(lia)). lia.
Qed.

Lemma bytes_lookup m i w : bytes m → m !! i = Some w → 0 <= w < 2 ^ 8.
Proof. intros H E. by apply (Forall_lookup_1 _ _ _ _ H E). Qed.

Lemma u8_testbit z i : 0 <= i < 8 → Z.testbit (u8 z) i = Z.testbit z i.
Proof. intros. unfold u8. by rewrite Z.mod_pow2_bits_low by lia. Qed.

Lemma u32_pow2 k : 0 <= k < 8 → u32 (Z.shiftl 1 k) = 2 ^ k.
Proof.
  intros. rewrite Z.shiftl_1_l. apply u32_id. split; [lia|].
  apply Z.pow_lt_mono_r; lia.
Qed.

Lemma low_mask_testbit k i : 0 <= k < 8 → 0 <= i < 8 →
  Z.testbit (2 ^ 32 - 1 - 2 ^ k) i = negb (i =? k).
Proof.
  intros. assert (k ∈ [0;1;2;3;4;5;6;7]) as Hk by (set_unfold; lia).
  assert (i ∈ [0;1;2;3;4;5;6;7]) as Hi by (set_unfold; lia).
  repeat (apply elem_of_cons in Hk as [->|Hk]; [|]); try (by apply elem_of_nil in Hk);
    repeat (apply elem_of_cons in Hi as [->|Hi]; [reflexivity|]); by apply elem_of_nil in Hi.
Qed.

Lemma BITMAP_TEST_ok m b : bit_in m b → BITMAP_TEST m b = Ok (Z.b2z (bit m b)).
Proof.
  intros [w E]%bit_in_lookup. unfold BITMAP_TEST, bit. rewrite E. cbn [mbind result_bind of_option default].
  unfold mret, result_ret. f_equal.
  pose proof (Z.land_ones (Z.shiftr w (b mod 8)) 1 ltac:(lia)) as H. change (Z.ones 1) with 1 in H.
  rewrite H. change (2 ^ 1) with 2. by rewrite <- Z.bit0_mod, Z.shiftr_spec, Z.add_0_l by lia.
Qed.

(** Two bits of the same byte agree exactly when their offsets do. *)
Lemma same_bit i b : 0 <= i → 0 <= b → Z.to_nat (i / 8) = Z.to_nat (b / 8) →
  (i mod 8 =? b mod 8) = (i =? b).
Proof.
  intros. assert (i / 8 = b / 8).
  { pose proof (Z.div_pos i 8 ltac:(lia) ltac:(lia)). pose proof (Z.div_pos b 8 ltac:(lia) ltac:(lia)). lia. }
  pose proof (Z.div_mod i 8 ltac:(lia)). pose proof (Z.div_mod b 8 ltac:(lia)).
  destruct (Z.eqb_spec (i mod 8) (b mod 8)), (Z.eqb_spec i b); try done; lia.
Qed.

(** The write of one bit: [f] rewrites the byte so that only bit [b mod 8]
    changes, to [v]. *)
Lemma bit_write m b w w' (v : bool) :
  bit_in m b → bytes m → m !! Z.to_nat (b / 8) = Some w →
  (∀ i, 0 <= i < 8 → Z.testbit (u8 w') i = if i =? b mod 8 then v else Z.testbit w i) →
  let m' := <[Z.to_nat (b / 8) := u8 w']> m in
  length m' = length m ∧ bytes m' ∧ ∀ i, 0 <= i → bit m' i = if i =? b then v else bit m i.
Proof.
  intros Hb Hm E Hw. cbn zeta. split_and!.
  - by rewrite length_insert.
  - apply Forall_insert; [done|apply u8_range].
  - intros i Hi. destruct Hb as [Hb _]. unfold bit.
    destruct (decide (Z.to_nat (i / 8) = Z.to_nat (b / 8))) as [Ei|Ei].
    + rewrite Ei, E, list_lookup_insert_eq by (by eapply lookup_lt_Some). simpl.
      rewrite Hw by (apply Z.mod_pos_bound; lia). by rewrite same_bit.
    + rewrite list_lookup_insert_ne by done.
      destruct (Z.eqb_spec i b) as [->|]; done.
Qed.

Lemma BITMAP_SET_ok m b : bit_in m b → bytes m →
  ∃ m', BITMAP_SET m b = Ok m' ∧ length m' = length m ∧ bytes m' ∧
    ∀ i, 0 <= i → bit m' i = if i =? b then true else bit m i.
Proof.
  intros Hb Hm. pose proof (bit_in_lookup _ _ Hb) as [w E].
  pose proof (Z.mod_pos_bound b 8 ltac:(lia)).
  eexists. split; [unfold BITMAP_SET; rewrite E; reflexivity|]. apply (bit_write m b w); try done.
  intros i Hi. rewrite u8_testbit, Z.lor_spec, u32_pow2, Z.pow2_bits_eqb by lia.
  rewrite (Z.eqb_sym (b mod 8)). destruct (i =? b mod 8); [apply orb_true_r|apply orb_false_r].
Qed.

Lemma BITMAP_CLEAR_ok m b : bit_in m b → bytes m →
  ∃ m', BITMAP_CLEAR m b = Ok m' ∧ length m' = length m ∧ bytes m' ∧
    ∀ i, 0 <= i → bit m' i = if i =? b then false else bit m i.
Proof.
  intros Hb Hm. pose proof (bit_in_lookup _ _ Hb) as [w E].
  pose proof (Z.mod_pos_bound b 8 ltac:(lia)).
  eexists. split; [unfold BITMAP_CLEAR; rewrite E; reflexivity|]. apply (bit_write m b w); try done.
  intros i Hi. rewrite u8_testbit, Z.land_spec, u32_pow2, low_mask_testbit by lia.
  destruct (i =? b mod 8); [apply andb_false_r|apply andb_true_r].
Qed.

Lemma find_next_free_loop_ok n m i :
  bytes m → 0 <= i → i + Z.of_nat n <= 8 * Z.of_nat (length m) →
  ∃ r, find_next_free_loop n m i = Ok r ∧
    ((i <= r < i + Z.of_nat n ∧ bit m r = false ∧ ∀ j, i <= j < r → bit m j = true) ∨
     (r = 2 ^ 64 - 1 ∧ ∀ j, i <= j < i + Z.of_nat n → bit m j = true)).
Proof.
  intros Hm. revert i. induction n as [|n IH]; intros i Hi Hn.
  { exists (u64 (-1)). split; [done|]. right. split; [reflexivity|lia]. }
  simpl. rewrite BITMAP_TEST_ok by (unfold bit_in; lia). cbn [mbind result_bind].
  destruct (bit m i) eqn:Eb; simpl.
  - destruct (IH (i + 1) ltac:(lia) ltac:(lia)) as (r&E&[(?&?&Hj)|(->&Hj)]); exists r || exists (2 ^ 64 - 1);
      (split; [done|]); [left|right]; (split; [lia|]); [split; [done|]|];
      intros j ?; destruct (decide (j = i)) as [->|]; try done; apply Hj; lia.
  - exists i. split; [done|]. left. split; [lia|]. split; [done|lia].
Qed.

(** [bitmap_find_next_free] returns the first clear bit at or after the
    offset and below the total, or [SIZE_MAX] when every such bit is set. *)
Theorem find_next_free_correct m off total :
  bytes m → 0 <= off → total <= 8 * Z.of_nat (length m) →
  ∃ r, bitmap_find_next_free m off total = Ok r ∧
    ((off <= r < total ∧ bit m r = false ∧ ∀ j, off <= j < r → bit m j = true) ∨
     (r = 2 ^ 64 - 1 ∧ ∀ j, off <= j < total → bit m j = true)).
Proof.
  intros Hm Hoff Ht. unfold bitmap_find_next_free. destruct (decide (off <= total)).
  - destruct (find_next_free_loop_ok (Z.to_nat (total - off)) m off) as (r&E&H); [done|lia|lia|].
    exists r. split; [done|]. replace (off + Z.of_nat (Z.to_nat (total - off))) with total in H by lia. done.
  - replace (Z.to_nat (total - off)) with O by lia. exists (2 ^ 64 - 1).
    split; [done|]. right. split; [done|lia].
Qed.

Lemma find_next_free_correct_witness :
  ∃ r, bitmap_find_next_free [255; 7] 2 16 = Ok r ∧ r = 11.
Proof.
  destruct (find_next_free_correct [255; 7] 2 16) as (r&E&_);
    [repeat constructor; lia|lia|simpl; lia|].
  exists r. split; [exact E|]. vm_compute in E. by injection E.
Defined.
