(* ===== verification/Cmm.v ===== *)
(** The kernel's physical memory map (src/mem/cmm.c, src/mem/cmm.h).

    A growable array of typed regions, filled from the boot loader's map and
    edited by [cmm_insert_region].  The file holds both operations, the reads
    of the map, and the proofs about what address gets what type. *)

From S2P Require Import Prelude Vmm.

Inductive cmm_type_t :=
| CMM_USABLE
| CMM_RESERVED
| CMM_ACPI_RECLAIMABLE
| CMM_ACPI_NVS
| CMM_BOOTLOADER_RECLAIMABLE
| CMM_KERNEL_EARLY
| CMM_KERNEL_AND_MODULES
| CMM_FRAMEBUFFER
| CMM_RESERVED_MAPPED
| CMM_UNKNOWN
| CMM_BAD.

#[export] Instance cmm_type_eq_dec : EqDecision cmm_type_t.
Proof. solve_decision. Defined.

Record cmm_region := mkRegion { id : Z; base : Z; length : Z; type : cmm_type_t }.

#[export] Instance cmm_region_eq_dec : EqDecision cmm_region.
Proof. solve_decision. Defined.

(** The static variables of cmm.c; the array holds [internal_count] regions,
    so the count is the length of the list.  [map_phys] is the physical address
    the array was carved from, [None] while [internal_map] is NULL. *)
Record cmm_state := mkCmm {
  internal_map : list cmm_region;
  map_phys : option Z;
  internal_capacity : Z;
  next_id : Z;
  is_heap_backed : bool;
  max_phys_addr : Z;
  max_ram_addr : Z
}.

Definition cmm_start : cmm_state := mkCmm [] None 0 1 false 0 0.

Definition internal_count (s : cmm_state) : Z := Z.of_nat (List.length (internal_map s)).

Definition region_bytes : Z := 32.

(** An entry of the boot loader's memory map. *)
Record memmap_entry := mkEntry { e_base : Z; e_length : Z; e_type : Z }.

Definition LIMINE_MEMMAP_USABLE : Z := 0.

(** The table indexed by the boot loader's type numbers 0 to 8. *)
Definition type_lookup : list cmm_type_t :=
  [CMM_USABLE; CMM_RESERVED; CMM_ACPI_RECLAIMABLE; CMM_ACPI_NVS; CMM_BAD;
   CMM_BOOTLOADER_RECLAIMABLE; CMM_KERNEL_AND_MODULES; CMM_FRAMEBUFFER; CMM_RESERVED_MAPPED].

Definition cmm_translate_limine_type (limine_type : Z) : cmm_type_t :=
  if limine_type >=? Z.of_nat (List.length type_lookup) then CMM_UNKNOWN
  else default CMM_UNKNOWN (type_lookup !! Z.to_nat limine_type).

(** Whether the array moved, and its capacity.  A failed [realloc] leaves a
    NULL array that the caller writes to. *)
Definition cmm_ensure_capacity (realloc_ok : bool) (needed_count capacity : Z) : result Z :=
  if needed_count <=? capacity then Ok capacity
  else if realloc_ok then Ok (capacity * 2) else Fault.

(** The regions that replace [r] and the next identifier. *)
Definition split_region (nid target_base target_end : Z) (new_type : cmm_type_t) (r : cmm_region)
    : list cmm_region * Z :=
  let r_end := u64 (base r + length r) in
  let '(low, nid) :=
    if target_base >? base r
    then ([mkRegion nid (base r) (target_base - base r) (type r)], u64 (nid + 1))
    else ([], nid) in
  let chunk_end := if target_end <? r_end then target_end else r_end in
  let mid := [mkRegion nid target_base (u64 (chunk_end - target_base)) new_type] in
  let nid := u64 (nid + 1) in
  let '(high, nid) :=
    if target_end <? r_end
    then ([mkRegion nid target_end (r_end - target_end) (type r)], u64 (nid + 1))
    else ([], nid) in
  (low ++ mid ++ high, nid).

Definition set_type (r : cmm_region) (t : cmm_type_t) : cmm_region :=
  mkRegion (id r) (base r) (length r) t.

Definition with_map (s : cmm_state) (m : list cmm_region) (cap nid : Z) : cmm_state :=
  mkCmm m (map_phys s) cap nid (is_heap_backed s) (max_phys_addr s) (max_ram_addr s).

(** The loop of [cmm_insert_region], [fuel] bounding its iterations; growing
    the array past its capacity is a write outside it. *)
Fixpoint insert_loop (fuel : nat) (realloc_ok : bool) (i : nat) (target_base target_end : Z)
    (new_type : cmm_type_t) (s : cmm_state) : result cmm_state :=
  match internal_map s !! i with
  | None => Ok s
  | Some r =>
      if negb (target_base <? target_end) then Ok s
      else match fuel with
      | O => Fuel
      | S fuel =>
          let r_end := u64 (base r + length r) in
          if (target_base <? r_end) && (target_end >? base r) then
            if (target_base <=? base r) && (target_end >=? r_end) then
              insert_loop fuel realloc_ok (S i) target_base target_end new_type
                (with_map s (<[i := set_type r new_type]> (internal_map s))
                   (internal_capacity s) (next_id s))
            else
              let '(pieces, nid) := split_region (next_id s) target_base target_end new_type r in
              let chunk_end := if target_end <? r_end then target_end else r_end in
              cap ← cmm_ensure_capacity realloc_ok (internal_count s + 2) (internal_capacity s);
              let m := take i (internal_map s) ++ pieces ++ drop (S i) (internal_map s) in
              if Z.of_nat (List.length m) >? cap then Fault
              else insert_loop fuel realloc_ok (i + List.length pieces) chunk_end target_end new_type
                     (with_map s m cap nid)
          else insert_loop fuel realloc_ok (S i) target_base target_end new_type s
      end
  end.

Definition cmm_insert_region (realloc_ok : bool) (s : cmm_state) (base length : Z)
    (new_type : cmm_type_t) : result cmm_state :=
  if negb (is_heap_backed s) then Panic "CMM" "tried to write to memmap before heap migration"
  else insert_loop (List.length (internal_map s)) realloc_ok 0 base (u64 (base + length)) new_type s.

(** * Boot *)

(** The first usable entry that can hold the array. *)
Fixpoint carve (bytes_needed : Z) (es : list memmap_entry) : option Z :=
  match es with
  | [] => None
  | e :: es =>
      if (e_type e =? LIMINE_MEMMAP_USABLE) && (e_length e >=? bytes_needed)
      then Some (e_base e) else carve bytes_needed es
  end.

(** Append a region with the next identifier. *)
Definition push_region (s : cmm_state) (base length : Z) (t : cmm_type_t) : result cmm_state :=
  if internal_count s >=? internal_capacity s then Fault
  else Ok (with_map s (internal_map s ++ [mkRegion (next_id s) base length t])
             (internal_capacity s) (u64 (next_id s + 1))).

(** One iteration of the loop that fills the map. *)
Definition add_entry (bytes_needed : Z) (s : cmm_state) (e : memmap_entry) : result cmm_state :=
  s ← (if decide (map_phys s = Some (e_base e)) then
         s ← push_region s (e_base e) bytes_needed CMM_KERNEL_EARLY;
         push_region s (u64 (e_base e + bytes_needed)) (u64 (e_length e - bytes_needed)) CMM_USABLE
       else push_region s (e_base e) (e_length e) (cmm_translate_limine_type (e_type e)));
  r ← of_option (last (internal_map s));
  let fin := u64 (base r + length r) in
  let top := if fin >? max_phys_addr s then fin else max_phys_addr s in
  let ram := if decide (type r = CMM_USABLE) then
               (if fin >? max_ram_addr s then fin else max_ram_addr s)
             else max_ram_addr s in
  mret (mkCmm (internal_map s) (map_phys s) (internal_capacity s) (next_id s)
          (is_heap_backed s) top ram).

Fixpoint add_entries (bytes_needed : Z) (s : cmm_state) (es : list memmap_entry) : result cmm_state :=
  match es with
  | [] => Ok s
  | e :: es => s ← add_entry bytes_needed s e; add_entries bytes_needed s es
  end.

Definition cmm_init (s : cmm_state) (resp : list memmap_entry) : result cmm_state :=
  let required_slots := u64 (Z.of_nat (List.length resp) * 2) in
  let bytes_needed := Z.land (u64 (required_slots * region_bytes + 4095)) (not64 4095) in
  match carve bytes_needed resp with
  | None => match map_phys s with
            | None => Panic "CMM" "failed to carve memory for memmap
"
            | Some _ => add_entries bytes_needed s resp
            end
  | Some b =>
      add_entries bytes_needed
        (mkCmm (internal_map s) (Some b) required_slots (next_id s) (is_heap_backed s)
           (max_phys_addr s) (max_ram_addr s)) resp
  end.

(** The copy to the heap; a failed [malloc] makes [memcpy] panic. *)
Definition cmm_migrate_to_heap (malloc_ok : bool) (s : cmm_state) : result cmm_state :=
  if is_heap_backed s then Ok s
  else if negb malloc_ok then Panic "MEMORY" "memcpy dest is null"
  else Ok (mkCmm
             (map (λ r, if decide (type r = CMM_KERNEL_EARLY) then set_type r CMM_USABLE else r)
                  (internal_map s))
             (map_phys s) (internal_capacity s * 2) (next_id s) true
             (max_phys_addr s) (max_ram_addr s)).

Definition cmm_get_region_count (s : cmm_state) : Z := internal_count s.
Definition cmm_get_phys_top (s : cmm_state) : Z := max_phys_addr s.
Definition cmm_get_ram_top (s : cmm_state) : Z := max_ram_addr s.
Definition cmm_get_ram_top_2mb_aligned (s : cmm_state) : Z :=
  Z.land (u64 (max_ram_addr s + PAGE_SIZE_2MB - 1)) (not64 (PAGE_SIZE_2MB - 1)).

Definition cmm_get_region (s : cmm_state) (i : Z) : option cmm_region :=
  snd <$> list_find (λ r, id r = i) (internal_map s).

Definition cmm_get_region_by_index (s : cmm_state) (index : Z) : option cmm_region :=
  if index >=? internal_count s then None else internal_map s !! Z.to_nat index.

(** * What the map says of an address *)

Definition rend (r : cmm_region) : Z := base r + length r.

(** Regions in address order from [lo] on, without overlap or wrap-around. *)
Fixpoint regions (lo : Z) (m : list cmm_region) : Prop :=
  match m with
  | [] => True
  | r :: m => lo <= base r ∧ 0 <= length r ∧ rend r < 2 ^ 64 ∧ regions (rend r) m
  end.

#[export] Instance regions_dec lo m : Decision (regions lo m).
Proof. revert lo. induction m as [|r m IH]; intros lo; simpl; apply _. Defined.

(** The type of the first region that holds address [x]. *)
Fixpoint region_at (m : list cmm_region) (x : Z) : option cmm_type_t :=
  match m with
  | [] => None
  | r :: m => if (base r <=? x) && (x <? rend r) then Some (type r) else region_at m x
  end.

Lemma regions_mono lo lo' m : regions lo m → lo' <= lo → regions lo' m.
Proof. destruct m; simpl; [done|]. intros (?&?) ?. split; [lia|done]. Qed.

Lemma region_at_below lo m x : regions lo m → x < lo → region_at m x = None.
Proof.
  revert lo. induction m as [|r m IH]; intros lo; simpl; [done|].
  intros (?&?&?&Hm) ?. unfold rend in *. repeat case_z; simpl; try lia; apply (IH _ Hm); lia.
Qed.

Lemma regions_app lo m1 m2 :
  regions lo (m1 ++ m2) ↔
  regions lo m1 ∧ regions (from_option rend lo (last m1)) m2.
Proof.
  revert lo. induction m1 as [|r m1 IH]; intros lo; [simpl; tauto|].
  change ((r :: m1) ++ m2) with (r :: (m1 ++ m2)). cbn [regions]. rewrite IH.
  rewrite last_cons. destruct (last m1); simpl; tauto.
Qed.

(** The region cut by the end of the range, if any, is the one that holds its
    start or comes right after it. *)
Definition clean (b e : Z) (m : list cmm_region) : Prop :=
  ∀ pre r suf, m = pre ++ r :: suf → base r < e < rend r →
    base r <= b ∨ ∃ p, last pre = Some p ∧ base p < b < rend p ∧ rend p = base r.

(** The loop of [cmm_insert_region] on the regions it has not reached yet. *)
Fixpoint insert_list (b e : Z) (t : cmm_type_t) (nid : Z) (m : list cmm_region)
    : list cmm_region * Z :=
  match m with
  | [] => ([], nid)
  | r :: m' =>
      if negb (b <? e) then (m, nid)
      else if (b <? rend r) && (e >? base r) then
        if (b <=? base r) && (e >=? rend r) then
          let '(m', nid) := insert_list b e t nid m' in (set_type r t :: m', nid)
        else
          let '(pieces, nid) := split_region nid b e t r in
          let '(m', nid) := insert_list (if e <? rend r then e else rend r) e t nid m' in
          (pieces ++ m', nid)
      else let '(m', nid) := insert_list b e t nid m' in (r :: m', nid)
  end.

(** * The loop rewrites the list *)

Lemma regions_wrap lo m r : 0 <= lo → regions lo m → r ∈ m → u64 (base r + length r) = rend r.
Proof.
  revert lo. induction m as [|q m IH]; intros lo Hlo; simpl; [by intros ? ?%elem_of_nil|].
  unfold rend in *. intros (?&?&?&Hm) [->|Hr]%elem_of_cons; [apply u64_id; lia|].
  apply (IH (base q + length q)); [lia|done|done].
Qed.

Lemma split_region_length nid b e t r :
  (1 <= List.length (split_region nid b e t r).1 <= 3)%nat.
Proof. unfold split_region. repeat case_match; simplify_eq; simpl; lia. Qed.

Lemma insert_loop_ok fuel i b e t s pre suf :
  internal_map s = pre ++ suf → i = List.length pre →
  (List.length suf <= fuel)%nat →
  Forall (λ r, u64 (base r + length r) = rend r) suf →
  2 <= internal_capacity s → internal_count s <= internal_capacity s →
  ∃ cap, 2 <= cap ∧
    let '(m, nid) := insert_list b e t (next_id s) suf in
    insert_loop fuel true i b e t s = Ok (with_map s (pre ++ m) cap nid) ∧
    Z.of_nat (List.length (pre ++ m)) <= cap.
Proof.
  revert i b s pre suf. induction fuel as [|fuel IH]; intros i b s pre suf Em -> Hf Hw Hc2 Hc.
  - destruct suf as [|? ?]; [|simpl in Hf; lia]. exists (internal_capacity s). simpl.
    rewrite Em, app_nil_r, lookup_ge_None_2 by lia. destruct s; simpl in *. subst.
    unfold internal_count in Hc; simpl in Hc. by rewrite app_nil_r in *.
  - destruct suf as [|r suf].
    { exists (internal_capacity s). simpl. rewrite Em, app_nil_r, lookup_ge_None_2 by lia.
      destruct s; simpl in *. subst. unfold internal_count in Hc; simpl in Hc.
      by rewrite app_nil_r in *. }
    apply Forall_cons in Hw as [Hwr Hw]. simpl in Hf.
    cbn [insert_loop insert_list]. rewrite Em, list_lookup_middle by done.
    destruct (b <? e) eqn:Hbe; cbn [negb].
    2: { exists (internal_capacity s). destruct s; simpl in *. subst. done. }
    rewrite Hwr. destruct ((b <? rend r) && (e >? base r)).
    2: { destruct (IH (S (List.length pre)) b s (pre ++ [r]) suf) as (cap&?&H).
         - by rewrite Em, <- app_assoc.
         - rewrite length_app. simpl. lia.
         - lia. - done. - done. - done.
         - exists cap. split; [done|]. destruct (insert_list b e t (next_id s) suf) as [m nid].
           by rewrite <- app_assoc in H. }
    destruct ((b <=? base r) && (e >=? rend r)).
    + set (s' := with_map s (<[List.length pre := set_type r t]> (pre ++ r :: suf)) (internal_capacity s) (next_id s)).
      assert (internal_map s' = (pre ++ [set_type r t]) ++ suf) as E'.
      { subst s'. simpl. rewrite insert_app_r_alt by lia.
        by rewrite Nat.sub_diag, <- app_assoc. }
      destruct (IH (S (List.length pre)) b s' (pre ++ [set_type r t]) suf) as (cap&?&H); [done| |lia|done|done| |].
      * rewrite length_app. simpl. lia.
      * unfold internal_count in *. rewrite E', Em, !length_app in *. simpl in *. lia.
      * exists cap. split; [done|]. subst s'. simpl in *.
        destruct (insert_list b e t (next_id s) suf) as [m nid]. by rewrite <- app_assoc in H.
    + pose proof (split_region_length (next_id s) b e t r) as Hl.
      destruct (split_region (next_id s) b e t r) as [ps nid]. simpl in Hl.
      assert (∃ cap, cmm_ensure_capacity true (internal_count s + 2) (internal_capacity s) = Ok cap ∧
                2 <= cap ∧ internal_count s + 2 <= cap) as (cap&Ecap&?&?).
      { unfold cmm_ensure_capacity. case_z; eexists; (split; [done|]); lia. }
      rewrite Ecap. cbn [mbind result_bind].
      rewrite take_app_length, drop_app_ge, Nat.sub_succ_l, Nat.sub_diag by lia.
      change (drop 1 (r :: suf)) with suf.
      assert (Z.of_nat (List.length (pre ++ ps ++ suf)) <= cap) as Hcap.
      { unfold internal_count in *. rewrite Em, !length_app in *. simpl in *. lia. }
      rewrite (proj2 (Z.ltb_ge cap (Z.of_nat (List.length (pre ++ ps ++ suf))))) || rewrite Z.gtb_ltb, (proj2 (Z.ltb_ge _ _) Hcap).
      set (s' := with_map s (pre ++ ps ++ suf) cap nid).
      destruct (IH (List.length pre + List.length ps)%nat (if e <? rend r then e else rend r) s' (pre ++ ps) suf)
        as (cap'&?&H'); [by rewrite <- app_assoc|by rewrite length_app|lia|done|done|done|].
      exists cap'. split; [done|]. subst s'. simpl in H'.
      destruct (insert_list _ e t nid suf) as [m nid']. by rewrite <- app_assoc in H'.
Qed.

(** * What the loop does to the map *)

Lemma clean_tail b e r m : clean b e (r :: m) → ¬ (base r < b < rend r) → clean b e m.
Proof.
  intros H Hr pre q suf -> Hq. destruct (H (r :: pre) q suf eq_refl Hq) as [?|(p&Ep&?&?)]; [by left|].
  rewrite last_cons in Ep. destruct (last pre) eqn:E; simplify_eq; [right; eauto|tauto].
Qed.

Lemma clean_head b e r m : clean b e (r :: m) → base r < e < rend r → base r <= b.
Proof. intros H Hr. by destruct (H [] r m eq_refl Hr) as [?|(?&?&?)]. Qed.

(** After the region cut by the start, the rest is clean from its end on. *)
Lemma clean_cut b e lo r m :
  clean b e (r :: m) → regions lo (r :: m) → base r < b < rend r → clean (rend r) e m.
Proof.
  intros H Hs Hr pre q suf -> Hq.
  assert (∀ p, p ∈ pre ++ q :: suf → rend r <= base p) as Hb.
  { simpl in Hs. destruct Hs as (_&_&_&Hs). revert Hs. clear. generalize (rend r) as lo.
    induction (pre ++ q :: suf) as [|a l IH]; intros lo; simpl; [by intros ? ? ?%elem_of_nil|].
    intros (?&?&?&Hl) p [->|Hp]%elem_of_cons; [done|].
    pose proof (IH _ Hl p Hp). unfold rend in *. lia. }
  assert (rend r <= base q) by (apply Hb; rewrite elem_of_app, elem_of_cons; auto).
  destruct (H (r :: pre) q suf eq_refl Hq) as [?|(p&Ep&?&?)]; [lia|].
  rewrite last_cons in Ep. destruct (last pre) eqn:E; simplify_eq; [|lia].
  apply last_Some in E as [pre' ->].
  assert (rend r <= base p) by (apply Hb; rewrite !elem_of_app, elem_of_cons; auto). lia.
Qed.

(** The type of address [x] after the range [b, e) has been given type [t]. *)
Definition retype (b e : Z) (t : cmm_type_t) (x : Z) (o : option cmm_type_t) : option cmm_type_t :=
  if (b <=? x) && (x <? e) then (λ _, t) <$> o else o.

Lemma retype_outside b e t x o : ¬ (b <= x < e) → retype b e t x o = o.
Proof. intros. unfold retype. repeat case_z; simpl; lia || done. Qed.

Lemma retype_inside b e t x o : b <= x < e → retype b e t x o = (λ _, t) <$> o.
Proof. intros. unfold retype. repeat case_z; simpl; lia || done. Qed.

Lemma region_at_cons r m x :
  region_at (r :: m) x = if decide (base r <= x < rend r) then Some (type r) else region_at m x.
Proof. simpl. repeat case_z; case_decide; simpl; done || lia. Qed.

(** A range that cuts into [r] from the left end of the range or up to it:
    the pieces of [r]. *)
Lemma split_region_ok nid b e t r :
  0 <= base r → 0 <= length r → rend r < 2 ^ 64 →
  base r <= b < rend r → b < e → 
  let ps := (split_region nid b e t r).1 in
  ∀ m x, regions (rend r) m →
    regions (base r) (ps ++ m) ∧
    region_at (ps ++ m) x =
      if decide (base r <= x < rend r) then retype b (Z.min e (rend r)) t x (Some (type r))
      else region_at m x.
Proof.
  intros ??? [??] ? ps m x Hm. subst ps. unfold split_region.
  assert (u64 (base r + length r) = rend r) as -> by (apply u64_id; unfold rend in *; lia).
  rewrite !Z.gtb_ltb. repeat case_z; simpl; rewrite ?u64_id by lia.
  all: unfold rend in *; simpl; unfold retype;
    (split; [repeat split; try lia; eapply regions_mono; [exact Hm|lia]|]);
    repeat case_z; repeat case_decide; simpl; done || lia.
Qed.

Lemma insert_list_done b t nid m : insert_list b b t nid m = (m, nid).
Proof. destruct m; simpl; by rewrite ?Z.ltb_irrefl. Qed.

(** The case where [r] is split, given what happens to the regions after it. *)
Lemma insert_list_split b e t nid r m :
  0 <= base r → regions (base r) (r :: m) → base r <= b < rend r → b < e →
  base r < b ∨ e < rend r →
  (∀ nid, rend r <= e → regions (rend r) (insert_list (rend r) e t nid m).1 ∧
     ∀ x, region_at (insert_list (rend r) e t nid m).1 x = retype (rend r) e t x (region_at m x)) →
  regions (base r) (insert_list b e t nid (r :: m)).1 ∧
  ∀ x, region_at (insert_list b e t nid (r :: m)).1 x = retype b e t x (region_at (r :: m) x).
Proof.
  intros ? (_&?&?&Hm) ? ? Hor IH. cbn [insert_list].
  pose proof (split_region_ok nid b e t r ltac:(lia) ltac:(lia) ltac:(lia) ltac:(lia) ltac:(lia)) as Hsp.
  rewrite Z.gtb_ltb, Z.geb_leb. repeat (case_z; simpl; try lia).
  all: destruct (split_region nid b e t r) as [ps nid']; simpl in Hsp.
  1,2: rewrite insert_list_done; simpl; split; [apply (Hsp m 0 Hm)|]; intros x;
    rewrite (proj2 (Hsp m x Hm)), Z.min_l by lia; repeat case_z; repeat case_decide; simpl; try lia; try done;
    by rewrite retype_outside by lia.
  destruct (IH nid' ltac:(lia)) as [Hs Hr].
  destruct (insert_list (rend r) e t nid' m) as [m' nid'']. simpl in Hs, Hr |- *.
  split; [apply (Hsp m' 0 Hs)|]. intros x.
  rewrite (proj2 (Hsp m' x Hs)), Hr, Z.min_r by lia.
  destruct (decide (x < base r)) as [Hx|Hx].
  - rewrite (region_at_below (rend r) m x Hm) by lia.
    unfold retype; repeat case_z; repeat case_decide; simpl; done || lia.
  - unfold retype; repeat case_z; repeat case_decide; simpl; done || lia.
Qed.

Lemma insert_list_ok lo b e t nid m :
  0 <= lo → regions lo m → clean b e m →
  regions lo (insert_list b e t nid m).1 ∧
  ∀ x, region_at (insert_list b e t nid m).1 x = retype b e t x (region_at m x).
Proof.
  revert lo b nid. induction m as [|r m IH]; intros lo b nid Hlo Hm Hc.
  { split; [done|]. intros x. simpl. unfold retype. by case_match. }
  pose proof Hm as (?&?&?&Hm'). assert (0 <= rend r) by (unfold rend; lia).
  destruct (decide (b < e)) as [Hbe|].
  2: { cbn [insert_list]. case_z; [lia|]. split; [done|]. intros x. by rewrite retype_outside by lia. }
  destruct (decide (base r < b < rend r)) as [Hcut|Hcut].
  { edestruct (insert_list_split b e t nid r m) as [Hs Hr]; [lia|simpl; by repeat split|lia|lia|lia| |].
    - intros nid' ?. apply IH; [lia|done|]. by eapply clean_cut.
    - split; [|done]. by eapply regions_mono. }
  pose proof (clean_tail _ _ _ _ Hc Hcut) as Hc'. pose proof (clean_head _ _ _ _ Hc) as Hh.
  destruct (decide (b = base r ∧ e < rend r)) as [[-> ?]|].
  { edestruct (insert_list_split (base r) e t nid r m) as [Hs Hr]; [lia|simpl; by repeat split|lia|lia|lia|lia|].
    split; [|done]. by eapply regions_mono. }
  destruct (IH (rend r) b nid ltac:(lia) Hm' Hc') as [Hs Hr].
  cbn [insert_list]. destruct (insert_list b e t nid m) as [m' nid']. simpl in Hs, Hr.
  rewrite Z.gtb_ltb, Z.geb_leb. repeat (case_z; simpl; try lia).
  all: split; [by repeat split|]; intros x; cbn [set_type base length rend type]; rewrite Hr; unfold rend, retype in *; simpl;
    repeat case_z; simpl; done || lia.
Qed.

(** on a well formed heap-backed map, [cmm_insert_region] gives the new
    type to exactly the mapped addresses of the range and keeps every other
    address's type, the map staying in order and free of overlap, provided
    the end of the range does not cut a region that lies wholly behind others
    the range passed over. *)
Theorem cmm_insert_region_correct s b len t :
  is_heap_backed s = true → regions 0 (internal_map s) →
  2 <= internal_capacity s → internal_count s <= internal_capacity s →
  0 <= b → 0 <= len → b + len < 2 ^ 64 → clean b (b + len) (internal_map s) →
  ∃ s', cmm_insert_region true s b len t = Ok s' ∧
    regions 0 (internal_map s') ∧ internal_count s' <= internal_capacity s' ∧
    ∀ x, region_at (internal_map s') x = retype b (b + len) t x (region_at (internal_map s) x).
Proof.
  intros Hh Hm Hc2 Hc ??? Hcl. unfold cmm_insert_region. rewrite Hh, u64_id by lia. cbn [negb].
  destruct (insert_loop_ok (List.length (internal_map s)) 0 b (b + len) t s [] (internal_map s))
    as (cap&?&H'); try done.
  { apply Forall_forall. intros r. by apply (regions_wrap 0). }
  destruct (insert_list_ok 0 b (b + len) t (next_id s) (internal_map s)) as [Hs Hr]; [done..|].
  destruct (insert_list b (b + len) t (next_id s) (internal_map s)) as [m nid].
  destruct H' as [E ?]. by exists (with_map s m cap nid).
Qed.

(** * The map built at boot *)

Definition of_entry (e : memmap_entry) : cmm_region :=
  mkRegion 0 (e_base e) (e_length e) (cmm_translate_limine_type (e_type e)).

(** The regions an entry adds. *)
Definition entry_regions (n : Z) (c : option Z) (nid : Z) (e : memmap_entry) : list cmm_region :=
  if decide (c = Some (e_base e)) then
    [mkRegion nid (e_base e) n CMM_KERNEL_EARLY;
     mkRegion (nid + 1) (e_base e + n) (e_length e - n) CMM_USABLE]
  else [mkRegion nid (e_base e) (e_length e) (cmm_translate_limine_type (e_type e))].

(** The carved array fits the entry it was carved from. *)
Definition carve_fits (n : Z) (c : option Z) (e : memmap_entry) : Prop :=
  c = Some (e_base e) → n <= e_length e ∧ e_type e = LIMINE_MEMMAP_USABLE.

(** [top] is the end of the highest region whose type satisfies [P], 0 if
    there is none. *)
Definition top_of (P : cmm_type_t → Prop) (m : list cmm_region) (top : Z) : Prop :=
  Forall (λ r, P (type r) → rend r <= top) m ∧
  (top = 0 ∨ Exists (λ r, P (type r) ∧ rend r = top) m).

Lemma top_of_snoc (P : cmm_type_t → Prop) m top r :
  top_of P m top → P (type r) → top_of P (m ++ [r]) (Z.max (rend r) top).
Proof.
  intros [Hb Ha] Hr. split.
  - apply Forall_app. split; [|repeat constructor; lia].
    eapply Forall_impl; [exact Hb|]. simpl. intros q Hq ?. specialize (Hq ltac:(done)). lia.
  - destruct (Z.max_spec (rend r) top) as [[_ ->]|[_ ->]].
    + destruct Ha; [by left|right]. apply Exists_app. by left.
    + right. apply Exists_app. right. by repeat constructor.
Qed.

Lemma top_of_skip (P : cmm_type_t → Prop) m top r :
  top_of P m top → (P (type r) → rend r <= top) → top_of P (m ++ [r]) top.
Proof.
  intros [Hb Ha] Hr. split; [apply Forall_app; by repeat constructor|].
  destruct Ha; [by left|right]. apply Exists_app. by left.
Qed.

Lemma top_of_two (P : cmm_type_t → Prop) m r1 r2 top :
  top_of P m top → P (type r2) → rend r1 <= rend r2 →
  top_of P (m ++ [r1; r2]) (Z.max (rend r2) top).
Proof.
  intros H Hr ?. assert (top_of P ((m ++ [r2]) ++ [r1]) (Z.max (rend r2) top)) as H'.
  { apply top_of_skip; [by apply top_of_snoc|lia]. }
  revert H'. rewrite <- app_assoc. simpl. unfold top_of.
  rewrite !Forall_app, !Forall_cons, !Exists_app, !Exists_cons. tauto.
Qed.

Lemma gtb_max a b : (if a >? b then a else b) = Z.max a b.
Proof. rewrite Z.gtb_ltb. case_z; lia. Qed.

Definition tops_ok (s : cmm_state) : Prop :=
  top_of (λ _, True) (internal_map s) (max_phys_addr s) ∧
  top_of (λ t, t = CMM_USABLE) (internal_map s) (max_ram_addr s).

Lemma push_region_ok s b l t :
  internal_count s < internal_capacity s → 0 <= next_id s → next_id s + 1 < 2 ^ 64 →
  push_region s b l t =
    Ok (with_map s (internal_map s ++ [mkRegion (next_id s) b l t]) (internal_capacity s) (next_id s + 1)).
Proof.
  intros ???. unfold push_region. rewrite Z.geb_leb. case_z; [lia|]. by rewrite u64_id by lia.
Qed.

Lemma add_entry_ok n s e :
  0 <= n → 0 <= e_base e → 0 <= e_length e → e_base e + e_length e < 2 ^ 64 →
  carve_fits n (map_phys s) e → internal_count s + 2 <= internal_capacity s →
  0 <= next_id s → next_id s + 2 < 2 ^ 64 → tops_ok s →
  let new := entry_regions n (map_phys s) (next_id s) e in
  ∃ s', add_entry n s e = Ok s' ∧ internal_map s' = internal_map s ++ new ∧
    next_id s' = next_id s + Z.of_nat (List.length new) ∧
    map_phys s' = map_phys s ∧ internal_capacity s' = internal_capacity s ∧ tops_ok s'.
Proof.
  intros Hn Hb Hl Hw Hf Hc Hi Hi2 [T1 T2]. unfold add_entry, entry_regions.
  destruct (decide (map_phys s = Some (e_base e))) as [Ec|Ec].
  - destruct (Hf Ec). rewrite push_region_ok by lia. cbn [mbind result_bind].
    rewrite push_region_ok by (unfold internal_count in *; simpl; rewrite ?length_app; simpl; lia).
    cbn [mbind result_bind internal_map with_map next_id]. rewrite last_snoc, <- app_assoc.
    cbn [of_option mbind result_bind base length type app].
    rewrite !u64_id by (rewrite ?u64_id by lia; lia). rewrite !gtb_max, decide_True by done.
    eexists. split; [reflexivity|]. cbn [internal_map next_id map_phys internal_capacity with_map].
    split_and!; [done|simpl; lia|done|done|].
    split; (eapply (top_of_two _ _ _ (mkRegion _ _ _ _)); [done|done|unfold rend; simpl; lia]).
  - rewrite push_region_ok by lia. cbn [mbind result_bind internal_map with_map next_id]. rewrite last_snoc.
    cbn [of_option mbind result_bind base length type app].
    rewrite !u64_id by lia. rewrite !gtb_max.
    eexists. split; [reflexivity|]. cbn [internal_map next_id map_phys internal_capacity with_map].
    split_and!; [done|simpl; lia|done|done|]. split; cbn [internal_map max_phys_addr max_ram_addr].
    + by apply (top_of_snoc _ _ _ (mkRegion _ _ _ _)).
    + case_decide; [by apply (top_of_snoc _ _ _ (mkRegion _ _ _ _))|].
      by apply top_of_skip.
Qed.

Fixpoint all_regions (n : Z) (c : option Z) (nid : Z) (es : list memmap_entry) : list cmm_region :=
  match es with
  | [] => []
  | e :: es =>
      let new := entry_regions n c nid e in
      new ++ all_regions n c (nid + Z.of_nat (List.length new)) es
  end.

Lemma entry_regions_length n c nid e : (1 <= List.length (entry_regions n c nid e) <= 2)%nat.
Proof. unfold entry_regions. case_decide; simpl; lia. Qed.

Lemma all_regions_length n c nid es : (List.length (all_regions n c nid es) <= 2 * List.length es)%nat.
Proof.
  revert nid. induction es as [|e es IH]; intros nid; simpl; [lia|].
  rewrite length_app. pose proof (entry_regions_length n c nid e).
  specialize (IH (nid + Z.of_nat (List.length (entry_regions n c nid e)))). lia.
Qed.

Lemma all_regions_ids n c nid es :
  id <$> all_regions n c nid es = seqZ nid (Z.of_nat (List.length (all_regions n c nid es))).
Proof.
  revert nid. induction es as [|e es IH]; intros nid; [done|].
  cbn [all_regions]. rewrite fmap_app, IH, length_app, Nat2Z.inj_add, seqZ_app by lia. f_equal.
  unfold entry_regions. case_decide; unfold seqZ; simpl; [by rewrite (Z.add_comm nid)|done].
Qed.

Lemma add_entries_ok n s es :
  0 <= n → regions 0 (map of_entry es) → Forall (carve_fits n (map_phys s)) es →
  internal_count s + 2 * Z.of_nat (List.length es) <= internal_capacity s →
  0 <= next_id s → next_id s + 2 * Z.of_nat (List.length es) < 2 ^ 64 → tops_ok s →
  ∃ s', add_entries n s es = Ok s' ∧
    internal_map s' = internal_map s ++ all_regions n (map_phys s) (next_id s) es ∧
    internal_capacity s' = internal_capacity s ∧ tops_ok s'.
Proof.
  intros Hn Hr. generalize (Z.le_refl 0). revert Hr. generalize 0 at 1 3 as lo. intros lo.
  revert s lo. induction es as [|e es IH]; intros s lo Hr Hlo Hf Hc Hi Hi2 Ht.
  { exists s. simpl. by rewrite app_nil_r. }
  apply Forall_cons in Hf as [Hf1 Hf]. simpl in Hr, Hc, Hi2. destruct Hr as (?&?&?&Hr).
  unfold rend in *; simpl in *.
  destruct (add_entry_ok n s e) as (s'&E&Em&En&Ep&Ec&Ht'); [done|lia|lia|lia|done|lia|lia|lia|done|].
  rewrite E. cbn [mbind result_bind].
  pose proof (entry_regions_length n (map_phys s) (next_id s) e).
  destruct (IH s' (e_base e + e_length e)) as (s''&E'&Em'&Ec'&Ht''); [done|lia|by rewrite Ep| |lia|lia|done|].
  { unfold internal_count in *. rewrite Em, length_app. lia. }
  exists s''. rewrite E', Em', Em, Ep, En, Ec', Ec, <- app_assoc. done.
Qed.

Lemma entries_above lo es e : regions lo (map of_entry es) → e ∈ es → lo <= e_base e.
Proof.
  revert lo. induction es as [|a es IH]; intros lo; simpl; [by intros ? ?%elem_of_nil|].
  unfold rend; simpl. intros (?&?&?&Hr) [->|He]%elem_of_cons; [done|].
  pose proof (IH _ Hr He). lia.
Qed.

Lemma all_regions_plain n c nid lo es :
  regions lo (map of_entry es) → (∀ e, e ∈ es → c ≠ Some (e_base e)) →
  regions lo (all_regions n c nid es) ∧
  ∀ x, region_at (all_regions n c nid es) x = region_at (map of_entry es) x.
Proof.
  revert lo nid. induction es as [|e es IH]; intros lo nid Hr Hc; [done|].
  cbn [all_regions]. unfold entry_regions.
  rewrite decide_False by (apply Hc, list_elem_of_here).
  destruct Hr as (?&?&?&Hr).
  destruct (IH (rend (of_entry e)) (nid + 1) Hr) as [IH1 IH2].
  { intros e' He. apply Hc. by apply list_elem_of_further. }
  split; [by repeat split|]. intros x. simpl. by rewrite IH2.
Qed.
Lemma region_early_split n e nid x :
  0 <= n <= e_length e → e_type e = LIMINE_MEMMAP_USABLE →
  ∀ m, region_at (entry_regions n (Some (e_base e)) nid e ++ m) x =
    if decide (e_base e <= x < e_base e + n) then Some CMM_KERNEL_EARLY
    else region_at (of_entry e :: m) x.
Proof.
  intros ? Et m. unfold entry_regions. rewrite decide_True by done. simpl app.
  rewrite !region_at_cons. unfold rend, of_entry; simpl. rewrite Et.
  repeat case_decide; done || lia.
Qed.

Lemma all_regions_carved n b nid lo es :
  0 <= n → regions lo (map of_entry es) → Forall (λ e, 0 < e_length e) es →
  Forall (carve_fits n (Some b)) es → (∃ e, e ∈ es ∧ e_base e = b) →
  regions lo (all_regions n (Some b) nid es) ∧
  ∀ x, region_at (all_regions n (Some b) nid es) x =
    if decide (b <= x < b + n) then Some CMM_KERNEL_EARLY else region_at (map of_entry es) x.
Proof.
  intros Hn. revert lo nid. induction es as [|e es IH]; intros lo nid Hr Hl Hf (e'&He'&Eb).
  { by apply elem_of_nil in He'. }
  apply Forall_cons in Hl as [Hl1 Hl]. apply Forall_cons in Hf as [Hf1 Hf].
  destruct Hr as (?&?&?&Hr). unfold rend in *; cbn [of_entry base length] in *.
  cbn [all_regions map]. destruct (decide (e_base e = b)) as [Ee|Ee].
  - rewrite <- Ee in *. clear Ee Eb He' IH. destruct (Hf1 ltac:(done)) as [? Et].
    destruct (all_regions_plain n (Some (e_base e)) (nid + Z.of_nat (List.length (entry_regions n (Some (e_base e)) nid e)))
                (e_base e + e_length e) es Hr) as [IH1 IH2].
    { intros a Ha. pose proof (entries_above _ _ _ Hr Ha). intros [= ?]. lia. }
    split.
    + unfold entry_regions at 1. rewrite decide_True by done. simpl. unfold rend; simpl.
      split_and!; try lia. eapply regions_mono; [exact IH1|lia].
    + intros x. rewrite region_early_split by done. case_decide; [done|].
      rewrite !region_at_cons. case_decide; [done|]. apply IH2.
  - apply elem_of_cons in He' as [->|He']; [done|].
    pose proof (entries_above _ _ _ Hr He').
    destruct (IH _ (nid + Z.of_nat (List.length (entry_regions n (Some b) nid e))) Hr Hl Hf) as [IH1 IH2]; [eauto|].
    unfold entry_regions in *. rewrite !(decide_False (P := Some b = Some (e_base e))) in * by congruence.
    split; [by repeat split|]. intros x. simpl app. rewrite !region_at_cons, IH2.
    unfold rend; simpl. repeat case_decide; done || lia.
Qed.

Lemma carve_spec n es b :
  carve n es = Some b → ∃ e, e ∈ es ∧ e_base e = b ∧ n <= e_length e ∧ e_type e = LIMINE_MEMMAP_USABLE.
Proof.
  induction es as [|e es IH]; simpl; [done|].
  destruct (e_type e =? _) eqn:E1; simpl; [rewrite Z.geb_leb; case_z|]; intros H'.
  1: { exists e. simplify_eq. zify_bools. split; [apply list_elem_of_here|done]. }
  all: destruct (IH H') as (e'&?&?); exists e'; by split; [apply list_elem_of_further|].
Qed.

(** Bases of entries of positive length differ. *)
Lemma carve_fits_all n lo es e :
  regions lo (map of_entry es) → Forall (λ e, 0 < e_length e) es → e ∈ es →
  n <= e_length e → e_type e = LIMINE_MEMMAP_USABLE → Forall (carve_fits n (Some (e_base e))) es.
Proof.
  intros Hr Hl He ? ?. revert lo Hr. induction es as [|a es IH]; intros lo Hr; [done|].
  apply Forall_cons in Hl as [? Hl]. destruct Hr as (?&?&?&Hr). unfold rend in *; simpl in *.
  apply elem_of_cons in He as [->|He].
  - constructor; [by intros _|]. apply Forall_forall. intros q Hq.
    pose proof (entries_above _ _ _ Hr Hq). intros [= ?]. lia.
  - constructor; [|by eapply IH]. pose proof (entries_above _ _ _ Hr He). intros [= ?]. lia.
Qed.

(** The bytes reserved for the region array. *)
Definition map_bytes (es : list memmap_entry) : Z :=
  round_up (64 * Z.of_nat (List.length es)) 4096.

(** on an ordered boot map without overlap, [cmm_init] either panics,
    when no usable entry can hold the region array, or builds a map in order
    and without overlap that fits its array, in which the array's own bytes
    are KERNEL_EARLY and every other address keeps its entry's type, with
    identifiers 1, 2, ... and the tops of memory being the highest ends. *)
Theorem cmm_init_correct es :
  regions 0 (map of_entry es) → Forall (λ e, 0 < e_length e) es →
  Z.of_nat (List.length es) < 2 ^ 32 →
  match carve (map_bytes es) es with
  | None => cmm_init cmm_start es = Panic "CMM" "failed to carve memory for memmap
"
  | Some b => ∃ s', cmm_init cmm_start es = Ok s' ∧
      regions 0 (internal_map s') ∧ internal_count s' <= internal_capacity s' ∧
      (∀ x, region_at (internal_map s') x =
         if decide (b <= x < b + map_bytes es) then Some CMM_KERNEL_EARLY
         else region_at (map of_entry es) x) ∧
      id <$> internal_map s' = seqZ 1 (internal_count s') ∧ tops_ok s'
  end.
Proof.
  intros Hr Hl Hn. unfold cmm_init. rewrite (u64_id (_ * 2)) by lia.
  assert (Z.land (u64 (Z.of_nat (List.length es) * 2 * region_bytes + 4095)) (not64 4095) = map_bytes es) as ->.
  { unfold region_bytes. rewrite u64_id by lia. change 4095 with (2 ^ 12 - 1) at 2.
    rewrite land_mask by lia. unfold map_bytes, round_up. change (2 ^ 12) with 4096. do 2 f_equal. lia. }
  pose proof (round_up_spec (64 * Z.of_nat (List.length es)) 4096 ltac:(lia)) as [? _].
  fold (map_bytes es) in *.
  destruct (carve (map_bytes es) es) as [b|] eqn:Ec; [|done].
  apply carve_spec in Ec as (e&He&<-&?&?).
  pose proof (carve_fits_all _ _ _ _ Hr Hl He ltac:(done) ltac:(done)) as Hf.
  set (s0 := mkCmm _ (Some (e_base e)) _ _ _ _ _).
  destruct (add_entries_ok (map_bytes es) s0 es) as (s'&E&Em&Ecap&Ht); [lia|done|done|unfold internal_count; simpl; lia|simpl; lia|simpl; lia| |].
  { split; (split; [by constructor|by left]). }
  destruct (all_regions_carved (map_bytes es) (e_base e) 1 0 es) as [Hs Hv]; [lia|done|done|done|by exists e|].
  subst s0. cbn in Em, Ecap. exists s'. unfold internal_count. rewrite Em, Ecap. split_and!; try done.
  - pose proof (all_regions_length (map_bytes es) (Some (e_base e)) 1 es). lia.
  - apply all_regions_ids.
Qed.

(** A range that passes over a whole region and ends inside the next one
    leaves two overlapping regions: [target_base] is not advanced past a
    region that is retyped as a whole. *)
Theorem cmm_insert_overlap :
  ∃ s', cmm_insert_region true
      (mkCmm [mkRegion 1 0 4096 CMM_USABLE; mkRegion 2 4096 8192 CMM_RESERVED] (Some 0) 4 3 true 12288 4096)
      0 8192 CMM_FRAMEBUFFER = Ok s' ∧
    internal_map s' = [mkRegion 1 0 4096 CMM_FRAMEBUFFER; mkRegion 3 0 8192 CMM_FRAMEBUFFER;
                       mkRegion 4 8192 4096 CMM_RESERVED] ∧
    ¬ regions 0 (internal_map s').
Proof.
  eexists. split; [vm_compute; reflexivity|]. split; [reflexivity|].
  intros (_&_&_&H&_). cbv in H. by apply H.
Qed.

Lemma cmm_insert_region_correct_witness :
  ∃ s', cmm_insert_region true
      (mkCmm [mkRegion 1 0 4096 CMM_USABLE; mkRegion 2 4096 8192 CMM_RESERVED] (Some 0) 4 3 true 12288 4096)
      2048 4096 CMM_FRAMEBUFFER = Ok s' ∧
    region_at (internal_map s') 6000 = Some CMM_FRAMEBUFFER ∧
    region_at (internal_map s') 6144 = Some CMM_RESERVED.
Proof.
  destruct (cmm_insert_region_correct
    (mkCmm [mkRegion 1 0 4096 CMM_USABLE; mkRegion 2 4096 8192 CMM_RESERVED] (Some 0) 4 3 true 12288 4096)
    2048 4096 CMM_FRAMEBUFFER) as (s'&E&_&_&H); try done; try lia.
  - intros pre r suf Ep Hr. simpl in Ep. destruct pre as [|p [|q [|? ?]]]; simplify_eq/=; unfold rend in *; simpl in *; [lia|].
    right. eexists. split; [done|]. simpl. lia.
  - exists s'. split; [exact E|]. rewrite !H. split; reflexivity.
Defined.

Definition demo_entries : list memmap_entry :=
  [mkEntry 0 0x9F000 0; mkEntry 0x9F000 0x1000 1; mkEntry 0x100000 0x3FF00000 0].

Lemma cmm_init_correct_witness :
  ∃ s', cmm_init cmm_start demo_entries = Ok s' ∧
    max_ram_addr s' = 0x40000000 ∧ region_at (internal_map s') 0x1000 = Some CMM_USABLE ∧
    region_at (internal_map s') 0xFFF = Some CMM_KERNEL_EARLY.
Proof.
  pose proof (cmm_init_correct demo_entries) as H.
  destruct H as (s'&E&_&_&Hv&_).
  - refine (bool_decide_eq_true_1 _ _). vm_compute. reflexivity.
  - by repeat constructor.
  - vm_compute. reflexivity.
  - exists s'. split; [exact E|]. split; [vm_compute in E; by injection E as <-|].
    rewrite !Hv. split; reflexivity.
Defined.
