(* ===== verification/Pma.v ===== *)
(** The physical page allocator (src/mem/pma.c, src/mem/pma.h).

    A two level segregated fit allocator for each of two zones.  The free
    block headers live inside the free memory and are reached by pointers; the
    model keeps them in one store that both zones share, as they share the
    page bitmap.  The file holds every operation of pma.c on that state.  The
    invariants and theorems are in PmaSpec.v. *)

From S2P Require Import Prelude Bitmap Vmm Cmm.

(** * Data *)

(** The two zones, [pma_normal] and [pma_low]. *)
Inductive zone_id := ZNormal | ZLow.

#[export] Instance zone_id_eq_dec : EqDecision zone_id.
Proof. solve_decision. Defined.

(** A [pma_free_block_t *]: NULL, the address of a zone's [block_null]
    sentinel, or the direct map address of a physical address. *)
Inductive bptr := Null | Sentinel (z : zone_id) | Blk (phys : Z).

#[export] Instance bptr_eq_dec : EqDecision bptr.
Proof. solve_decision. Defined.

#[export] Instance bptr_countable : Countable bptr.
Proof.
  refine (inj_countable'
    (λ p, match p with Null => inl 0 | Sentinel ZNormal => inl 1 | Sentinel ZLow => inl 2
          | Blk z => inr z end : Z + Z)
    (λ c, match c with inl 0 => Null | inl 1 => Sentinel ZNormal | inl _ => Sentinel ZLow
          | inr z => Blk z end) _).
  by intros [|[]|].
Defined.

Record pma_free_block := mkBlock { prev : bptr; next : bptr; size : Z }.

Abbreviation blocks_mem := (gmap bptr pma_free_block).

Record pma_zone := mkZone {
  zid : zone_id;
  base : Z;
  total_pages : Z;
  fl_bitmap : Z;
  sl_bitmap : list Z;
  blocks : list (list bptr)
}.

Definition PMA_FL_INDEX_COUNT : Z := 32.
Definition PMA_SL_INDEX_COUNT : Z := 32.
Definition PMA_ALIGN_SIZE_LOG2 : Z := 12.
Definition PMA_SL_INDEX_COUNT_LOG2 : Z := 5.
Definition PMA_FL_INDEX_SHIFT : Z := PMA_SL_INDEX_COUNT_LOG2 + PMA_ALIGN_SIZE_LOG2.
Definition PMA_SMALL_BLOCK_SIZE : Z := 2 ^ PMA_FL_INDEX_SHIFT.
Definition PMA_BLOCK_HEADER_SIZE : Z := 24.
Definition PMA_ZONE_32BIT : Z := 2 ^ 32 / PAGE_SIZE.

(** * Header accesses *)

(** [p->prev], [p->next], [p->size]: NULL and memory that holds no header fault. *)
Definition load (hs : blocks_mem) (p : bptr) : result pma_free_block := of_option (hs !! p).

(** The header that a store of one field starts from. *)
Definition header_at (hs : blocks_mem) (p : bptr) : pma_free_block :=
  default (mkBlock Null Null 0) (hs !! p).

(** A store needs a header: the sentinels are static, zero at the start, and a
    block's is there once [new_header] put it. *)
Definition writable (hs : blocks_mem) (p : bptr) : bool :=
  match p with Null => false | Sentinel _ => true | Blk _ => bool_decide (is_Some (hs !! p)) end.

Definition store (p : bptr) (f : pma_free_block → pma_free_block) (hs : blocks_mem) : result blocks_mem :=
  if writable hs p then Ok (<[p := f (header_at hs p)]> hs) else Fault.

Definition set_prev (p v : bptr) (hs : blocks_mem) : result blocks_mem :=
  store p (λ h, mkBlock v (next h) (size h)) hs.
Definition set_next (p v : bptr) (hs : blocks_mem) : result blocks_mem :=
  store p (λ h, mkBlock (prev h) v (size h)) hs.
Definition set_size (p : bptr) (v : Z) (hs : blocks_mem) : result blocks_mem :=
  store p (λ h, mkBlock (prev h) (next h) v) hs.

(** [p->size = v] where no header has to be: any memory below the end of the
    zone will do.  The other fields are what the bytes there happen to be, and
    are not read before they are written. *)
Definition new_header (z : pma_zone) (p : bptr) (v : Z) (hs : blocks_mem) : result blocks_mem :=
  match p with
  | Blk a =>
      if (0 <=? a) && (a + PMA_BLOCK_HEADER_SIZE <=? total_pages z * PAGE_SIZE)
      then Ok (<[p := mkBlock (prev (header_at hs p)) (next (header_at hs p)) v]> hs) else Fault
  | _ => Fault
  end.

(** [block_phys] on a pointer that is not a direct map address would give an
    address outside physical memory. *)
Definition block_phys (p : bptr) : result Z := match p with Blk a => Ok a | _ => Fault end.
Definition block_from_phys (phys : Z) : bptr := Blk phys.

Definition block_size (b : pma_free_block) : Z := Z.land (size b) (not64 1).

Definition block_set_size (p : bptr) (sz : Z) (hs : blocks_mem) : result blocks_mem :=
  b ← load hs p; set_size p (Z.lor sz (Z.land (size b) 1)) hs.

Definition block_mark_used (p : bptr) (hs : blocks_mem) : result blocks_mem :=
  b ← load hs p; set_size p (Z.land (size b) (not64 1)) hs.

(** * Bit scans *)

(** [__builtin_ffsll(word) - 1]: the least set bit, -1 for 0. *)
Fixpoint ffs_from (n : nat) (i word : Z) : Z :=
  match n with
  | O => -1
  | S n => if Z.testbit word i then i else ffs_from n (i + 1) word
  end.
Definition pma_ffs (word : Z) : Z := ffs_from 64 0 word.

(** [63 - __builtin_clzll(word)]: the greatest set bit. *)
Definition pma_fls (word : Z) : Z := if word =? 0 then -1 else Z.log2 word.

(** * Size classes *)

Definition tlsf_mapping_insert (size : Z) : Z * Z :=
  if size <? PMA_SMALL_BLOCK_SIZE then (0, Z.shiftr size PMA_ALIGN_SIZE_LOG2)
  else
    let fl := pma_fls size in
    let sl := Z.lxor (Z.shiftr size (fl - PMA_SL_INDEX_COUNT_LOG2)) (2 ^ PMA_SL_INDEX_COUNT_LOG2) in
    (fl - (PMA_FL_INDEX_SHIFT - 1), sl).

(** * Free lists *)

Definition get_sl (z : pma_zone) (fl : Z) : result Z := of_option (sl_bitmap z !! Z.to_nat fl).

Definition get_head (z : pma_zone) (fl sl : Z) : result bptr :=
  row ← of_option (blocks z !! Z.to_nat fl); of_option (row !! Z.to_nat sl).

Definition with_fl (z : pma_zone) (v : Z) : pma_zone :=
  mkZone (zid z) (base z) (total_pages z) v (sl_bitmap z) (blocks z).
Definition with_sl (z : pma_zone) (fl v : Z) : pma_zone :=
  mkZone (zid z) (base z) (total_pages z) (fl_bitmap z)
    (<[Z.to_nat fl := v]> (sl_bitmap z)) (blocks z).
Definition with_head (z : pma_zone) (fl sl : Z) (p : bptr) : pma_zone :=
  mkZone (zid z) (base z) (total_pages z) (fl_bitmap z) (sl_bitmap z)
    (alter (λ row, <[Z.to_nat sl := p]> row) (Z.to_nat fl) (blocks z)).

Definition tlsf_remove_free_block (z : pma_zone) (b : bptr) (fl sl : Z) (hs : blocks_mem)
    : result (pma_zone * blocks_mem) :=
  h ← load hs b;
  let prev := prev h in
  let next := next h in
  hs ← set_prev next prev hs;
  hs ← set_next prev next hs;
  head ← get_head z fl sl;
  if decide (head = b) then
    let z := with_head z fl sl next in
    if decide (next = Sentinel (zid z)) then
      m ← get_sl z fl;
      let m := Z.land m (not64 (2 ^ sl)) in
      let z := with_sl z fl m in
      if m =? 0 then mret (with_fl z (Z.land (fl_bitmap z) (not64 (2 ^ fl))), hs)
      else mret (z, hs)
    else mret (z, hs)
  else mret (z, hs).

Definition tlsf_insert_free_block (z : pma_zone) (b : bptr) (fl sl : Z) (hs : blocks_mem)
    : result (pma_zone * blocks_mem) :=
  current ← get_head z fl sl;
  hs ← set_next b current hs;
  hs ← set_prev b (Sentinel (zid z)) hs;
  hs ← set_prev current b hs;
  let z := with_head z fl sl b in
  let z := with_fl z (Z.lor (fl_bitmap z) (2 ^ fl)) in
  m ← get_sl z fl;
  mret (with_sl z fl (Z.lor m (2 ^ sl)), hs).

Definition tlsf_block_remove (z : pma_zone) (b : bptr) (hs : blocks_mem) :=
  h ← load hs b;
  let '(fl, sl) := tlsf_mapping_insert (block_size h) in
  tlsf_remove_free_block z b fl sl hs.

Definition tlsf_block_insert (z : pma_zone) (b : bptr) (hs : blocks_mem) :=
  h ← load hs b;
  let '(fl, sl) := tlsf_mapping_insert (block_size h) in
  tlsf_insert_free_block z b fl sl hs.

(** [~0ULL << k] *)
Definition mask_from (k : Z) : Z := u64 (Z.shiftl (u64 (-1)) k).

(** The block found and the class it was found in. *)
Definition tlsf_search_suitable (z : pma_zone) (fl sl : Z) : result (option (bptr * Z * Z)) :=
  m ← get_sl z fl;
  let sl_map := Z.land m (mask_from sl) in
  if sl_map =? 0 then
    let fl_map := Z.land (fl_bitmap z) (mask_from (fl + 1)) in
    if fl_map =? 0 then mret None
    else
      let fl := pma_ffs fl_map in
      sl_map ← get_sl z fl;
      let sl := pma_ffs sl_map in
      b ← get_head z fl sl;
      mret (Some (b, fl, sl))
  else
    let sl := pma_ffs sl_map in
    b ← get_head z fl sl;
    mret (Some (b, fl, sl)).

Definition tlsf_locate_free (z : pma_zone) (size : Z) (hs : blocks_mem)
    : result (option bptr * pma_zone * blocks_mem) :=
  found ← (if size =? 0 then mret None
           else
             let '(fl, sl) := tlsf_mapping_insert size in
             if fl <? PMA_FL_INDEX_COUNT then tlsf_search_suitable z fl sl else mret None);
  match found with
  | Some (block, fl, sl) =>
      '(z, hs) ← tlsf_remove_free_block z block fl sl hs;
      mret (Some block, z, hs)
  | None => mret (None, z, hs)
  end.

Definition block_split (z : pma_zone) (block : bptr) (size : Z) (hs : blocks_mem) : result (bptr * blocks_mem) :=
  b_phys ← block_phys block;
  let r_phys := u64 (b_phys + size) in
  let remaining := block_from_phys r_phys in
  h ← load hs block;
  let remain_size := u64 (block_size h - size) in
  hs ← new_header z remaining (Z.lor remain_size 1) hs;
  hs ← block_set_size block size hs;
  mret (remaining, hs).

(** * Page bitmap *)

Definition pma_page_is_free (z : pma_zone) (map : list Z) (pfn : Z) : result bool :=
  if pfn >=? total_pages z then Ok false
  else t ← BITMAP_TEST map pfn; mret (t =? 0).

Definition pma_page_set_free (z : pma_zone) (map : list Z) (pfn : Z) : result (list Z) :=
  if pfn >=? total_pages z then Ok map else BITMAP_CLEAR map pfn.

Definition pma_page_set_used (z : pma_zone) (map : list Z) (pfn : Z) : result (list Z) :=
  if pfn >=? total_pages z then Ok map else BITMAP_SET map pfn.

(** The counted loops [for (i = 0; i < n; i++) set(start + i)]. *)
Fixpoint set_pages (f : list Z → Z → result (list Z)) (n : nat) (pfn : Z) (map : list Z)
    : result (list Z) :=
  match n with
  | O => Ok map
  | S n => map ← f map pfn; set_pages f n (pfn + 1) map
  end.

(** At most [pfn] steps; the loop is run with [n = pfn]. *)
Fixpoint free_start_loop (n : nat) (z : pma_zone) (map : list Z) (pfn : Z) : result Z :=
  match n with
  | O => Ok pfn
  | S n =>
      if pfn >? 0 then
        f ← pma_page_is_free z map (pfn - 1);
        if f : bool then free_start_loop n z map (pfn - 1) else mret pfn
      else mret pfn
  end.
Definition pma_find_free_start (z : pma_zone) (map : list Z) (pfn : Z) : result Z :=
  free_start_loop (Z.to_nat pfn) z map pfn.

Fixpoint free_end_loop (n : nat) (z : pma_zone) (map : list Z) (pfn : Z) : result Z :=
  match n with
  | O => Ok pfn
  | S n =>
      if pfn <? total_pages z then
        f ← pma_page_is_free z map pfn;
        if f : bool then free_end_loop n z map (pfn + 1) else mret pfn
      else mret pfn
  end.
Definition pma_find_free_end (z : pma_zone) (map : list Z) (pfn : Z) : result Z :=
  free_end_loop (Z.to_nat (total_pages z - pfn)) z map pfn.

(** * Zones *)

Definition pma_zone_init (id : zone_id) (base total_pages : Z) (hs : blocks_mem)
    : pma_zone * blocks_mem :=
  (mkZone id base total_pages 0 (replicate 32 0) (replicate 32 (replicate 32 (Sentinel id))),
   <[Sentinel id := mkBlock (Sentinel id) (Sentinel id) 0]> hs).

(** The state of one zone operation: the zone, the headers, the page bitmap. *)
Abbreviation zstate := (pma_zone * blocks_mem * list Z)%type.

(** Write a fresh header and put the block on its list. *)
Definition add_block (z : pma_zone) (block : bptr) (bytes : Z) (hs : blocks_mem)
    : result (pma_zone * blocks_mem) :=
  hs ← new_header z block (Z.lor bytes 1) hs;
  hs ← set_prev block Null hs;
  hs ← set_next block Null hs;
  tlsf_block_insert z block hs.

Definition pma_zone_add_region (st : zstate) (phys_base length : Z) : result zstate :=
  let '(z, hs, map) := st in
  if length <? PMA_BLOCK_HEADER_SIZE then Ok st
  else
    let start := Z.land (u64 (phys_base + PAGE_SIZE - 1)) (not64 (PAGE_SIZE - 1)) in
    let fin := Z.land (u64 (phys_base + length)) (not64 (PAGE_SIZE - 1)) in
    if fin <=? start then Ok st
    else
      let start' := if start =? 0 then start + PAGE_SIZE else start in
      if (start =? 0) && (fin <=? start') then Ok st
      else
        let start := start' in
        let region_bytes := fin - start in
        let start_pfn := start / PAGE_SIZE in
        let npages := region_bytes / PAGE_SIZE in
        map ← set_pages (λ m pfn, if pfn <? total_pages z then pma_page_set_free z m pfn else mret m)
                (Z.to_nat npages) start_pfn map;
        '(z, hs) ← add_block z (block_from_phys start) region_bytes hs;
        mret (z, hs, map).

(** Free the gap before the aligned address: the block to allocate from,
    [None] when the gap is too small to be a block. *)
Definition alloc_head (z : pma_zone) (block : bptr) (head_gap : Z) (hs : blocks_mem)
    : result (option bptr * pma_zone * blocks_mem) :=
  if head_gap >=? PMA_BLOCK_HEADER_SIZE then
    '(rest, hs) ← block_split z block head_gap hs;
    '(z, hs) ← tlsf_block_insert z block hs;
    mret (Some rest, z, hs)
  else if head_gap >? 0 then
    '(z, hs) ← tlsf_block_insert z block hs;
    mret (None, z, hs)
  else mret (Some block, z, hs).

(** Free what is left behind the allocation; [false] when the block is too
    small and was put back. *)
Definition alloc_tail (z : pma_zone) (block : bptr) (size : Z) (hs : blocks_mem)
    : result (bool * pma_zone * blocks_mem) :=
  h ← load hs block;
  let b_size := block_size h in
  if b_size >? u64 (size + PMA_BLOCK_HEADER_SIZE) then
    '(rest, hs) ← block_split z block size hs;
    '(z, hs) ← tlsf_block_insert z rest hs;
    mret (true, z, hs)
  else if b_size <? size then
    '(z, hs) ← tlsf_block_insert z block hs;
    mret (false, z, hs)
  else mret (true, z, hs).

Definition pma_alloc_from_zone (st : zstate) (size align : Z) : result (Z * zstate) :=
  let '(z, hs, map) := st in
  let size := Z.land (u64 (size + (PAGE_SIZE - 1))) (not64 (PAGE_SIZE - 1)) in
  let size := if size <? PMA_BLOCK_HEADER_SIZE then PMA_BLOCK_HEADER_SIZE else size in
  let search_size := if align >? PAGE_SIZE then u64 (size + (align - PAGE_SIZE)) else size in
  '(block, z, hs) ← tlsf_locate_free z search_size hs;
  match block with
  | None => mret (0, (z, hs, map))
  | Some block =>
      b_phys ← block_phys block;
      let alloc_phys := Z.land (u64 (b_phys + align - 1)) (not64 (align - 1)) in
      let head_gap := u64 (alloc_phys - b_phys) in
      '(block, z, hs) ← alloc_head z block head_gap hs;
      match block with
      | None => mret (0, (z, hs, map))
      | Some block =>
          '(fits, z, hs) ← alloc_tail z block size hs;
          if negb fits then mret (0, (z, hs, map))
          else
            hs ← block_mark_used block hs;
            map ← set_pages (pma_page_set_used z) (Z.to_nat (size / PAGE_SIZE))
                    (alloc_phys / PAGE_SIZE) map;
            mret (alloc_phys, (z, hs, map))
      end
  end.

(** Coalesce backward: take the free block that ends at [start_pfn] off its
    list; the first page of the merged block. *)
Definition merge_back (z : pma_zone) (map : list Z) (start_pfn : Z) (hs : blocks_mem)
    : result (Z * pma_zone * blocks_mem) :=
  back ← (if start_pfn >? 0 then pma_page_is_free z map (start_pfn - 1) else mret false);
  if back : bool then
    prev_start ← pma_find_free_start z map (start_pfn - 1);
    '(z, hs) ← tlsf_block_remove z (block_from_phys (u64 (prev_start * PAGE_SIZE))) hs;
    mret (prev_start, z, hs)
  else mret (start_pfn, z, hs).

(** Coalesce forward with the free block that starts at [merge_end]. *)
Definition merge_forward (z : pma_zone) (map : list Z) (merge_end : Z) (hs : blocks_mem)
    : result (Z * pma_zone * blocks_mem) :=
  forw ← (if merge_end <? total_pages z then pma_page_is_free z map merge_end else mret false);
  if forw : bool then
    next_end ← pma_find_free_end z map merge_end;
    '(z, hs) ← tlsf_block_remove z (block_from_phys (u64 (merge_end * PAGE_SIZE))) hs;
    mret (next_end, z, hs)
  else mret (merge_end, z, hs).

Definition pma_zone_free_range (st : zstate) (phys count : Z) : result zstate :=
  let '(z, hs, map) := st in
  if count =? 0 then Ok st
  else if u64 (phys + u64 (count * PAGE_SIZE)) >? u64 (total_pages z * PAGE_SIZE) then Ok st
  else
    let start_pfn := phys / PAGE_SIZE in
    map ← set_pages (pma_page_set_free z) (Z.to_nat count) start_pfn map;
    '(merge_start, z, hs) ← merge_back z map start_pfn hs;
    '(merge_end, z, hs) ← merge_forward z map (u64 (start_pfn + count)) hs;
    let merged_size := u64 ((merge_end - merge_start) * PAGE_SIZE) in
    if merged_size >=? PMA_BLOCK_HEADER_SIZE then
      '(z, hs) ← add_block z (block_from_phys (u64 (merge_start * PAGE_SIZE))) merged_size hs;
      mret (z, hs, map)
    else mret (z, hs, map).

(** * The allocator: two zones, one store of headers, one bitmap *)

Record pma_state := mkPma {
  pma_normal : pma_zone;
  pma_low : pma_zone;
  heads : blocks_mem;
  bitmap : list Z
}.

(** Run a zone operation on one of the zones. *)
Definition on_low (f : zstate → result zstate) (s : pma_state) : result pma_state :=
  '(z, hs, map) ← f (pma_low s, heads s, bitmap s);
  mret (mkPma (pma_normal s) z hs map).
Definition on_normal (f : zstate → result zstate) (s : pma_state) : result pma_state :=
  '(z, hs, map) ← f (pma_normal s, heads s, bitmap s);
  mret (mkPma z (pma_low s) hs map).

(** The first byte of [pma_normal]'s range. *)
Definition low_limit : Z := PMA_ZONE_32BIT * PAGE_SIZE.

(** Add [start, fin) to the two zones, split at [low_limit]. *)
Definition add_range (start fin : Z) (s : pma_state) : result pma_state :=
  let low_end := Z.min fin low_limit in
  s ← (if low_end >? start
       then on_low (λ st, pma_zone_add_region st start (low_end - start)) s else mret s);
  let normal_start := Z.max start low_limit in
  if fin >? normal_start
  then on_normal (λ st, pma_zone_add_region st normal_start (fin - normal_start)) s else mret s.

(** One iteration of the second loop of [pma_init]. *)
Definition init_region (total_pages bitmap_phys bitmap_reserved : Z) (s : pma_state) (r : cmm_region)
    : result pma_state :=
  if negb (bool_decide (type r = CMM_USABLE)) then Ok s
  else
    let start := Cmm.base r in
    let fin := u64 (start + length r) in
    if (start <=? bitmap_phys) && (fin >? bitmap_phys) then
      s ← (if bitmap_phys >? start then add_range start bitmap_phys s else mret s);
      let p := bitmap_phys / PAGE_SIZE in
      let p_end := u64 (bitmap_phys + bitmap_reserved) / PAGE_SIZE in
      map ← set_pages (λ m p, if p <? total_pages then BITMAP_SET m p else mret m)
              (Z.to_nat (p_end - p)) p (bitmap s);
      let s := mkPma (pma_normal s) (pma_low s) (heads s) map in
      let after := u64 (bitmap_phys + bitmap_reserved) in
      if after <? fin then add_range after fin s else mret s
    else add_range start fin s.

Fixpoint init_regions (total_pages bitmap_phys bitmap_reserved : Z) (s : pma_state)
    (rs : list cmm_region) : result pma_state :=
  match rs with
  | [] => Ok s
  | r :: rs =>
      s ← init_region total_pages bitmap_phys bitmap_reserved s r;
      init_regions total_pages bitmap_phys bitmap_reserved s rs
  end.

(** The bitmap goes to the start of the first usable region that can hold it. *)
Fixpoint find_bitmap (bitmap_reserved : Z) (rs : list cmm_region) : option Z :=
  match rs with
  | [] => None
  | r :: rs =>
      if bool_decide (type r = CMM_USABLE) && (length r >=? bitmap_reserved)
      then Some (Cmm.base r) else find_bitmap bitmap_reserved rs
  end.

Definition pma_init (c : cmm_state) : result pma_state :=
  let ram_top := cmm_get_ram_top c in
  let total_pages := ram_top / PAGE_SIZE in
  let bitmap_bytes := (total_pages + 7) / 8 in
  let bitmap_reserved := ((bitmap_bytes + PAGE_SIZE - 1) / PAGE_SIZE) * PAGE_SIZE in
  match find_bitmap bitmap_reserved (internal_map c) with
  | None => Panic "PMA" "failed to allocate zone bitmap"
  | Some bitmap_phys =>
      let map := replicate (Z.to_nat bitmap_bytes) 255 in
      let '(zn, hs) := pma_zone_init ZNormal 0 total_pages ∅ in
      let '(zl, hs) := pma_zone_init ZLow 0 (Z.min total_pages PMA_ZONE_32BIT) hs in
      init_regions total_pages bitmap_phys bitmap_reserved (mkPma zn zl hs map) (internal_map c)
  end.

Definition alloc_low (s : pma_state) (size align : Z) : result (Z * pma_state) :=
  '(r, (z, hs, map)) ← pma_alloc_from_zone (pma_low s, heads s, bitmap s) size align;
  mret (r, mkPma (pma_normal s) z hs map).
Definition alloc_normal (s : pma_state) (size align : Z) : result (Z * pma_state) :=
  '(r, (z, hs, map)) ← pma_alloc_from_zone (pma_normal s, heads s, bitmap s) size align;
  mret (r, mkPma z (pma_low s) hs map).

Definition pma_alloc_pages (s : pma_state) (count : Z) : result (Z * pma_state) :=
  '(ret, s) ← alloc_normal s (u64 (count * PAGE_SIZE)) PAGE_SIZE;
  if ret =? 0 then alloc_low s (u64 (count * PAGE_SIZE)) PAGE_SIZE else mret (ret, s).

Definition pma_alloc_pages_2mb (s : pma_state) (count : Z) : result (Z * pma_state) :=
  '(ret, s) ← alloc_normal s (u64 (count * PAGE_SIZE_2MB)) PAGE_SIZE_2MB;
  if ret =? 0 then alloc_low s (u64 (count * PAGE_SIZE_2MB)) PAGE_SIZE_2MB else mret (ret, s).

Definition pma_alloc_pages_low (s : pma_state) (count : Z) : result (Z * pma_state) :=
  alloc_low s (u64 (count * PAGE_SIZE)) PAGE_SIZE.

Definition pma_free_pages (s : pma_state) (phys count : Z) : result pma_state :=
  if phys =? 0 then Ok s
  else
    let fin := u64 (phys + u64 (count * PAGE_SIZE)) in
    let low_end := Z.min fin low_limit in
    s ← (if low_end >? phys
         then on_low (λ st, pma_zone_free_range st phys ((low_end - phys) / PAGE_SIZE)) s
         else mret s);
    let normal_start := Z.max phys low_limit in
    if fin >? normal_start
    then on_normal (λ st, pma_zone_free_range st normal_start ((fin - normal_start) / PAGE_SIZE)) s
    else mret s.

Definition pma_free_page (s : pma_state) (phys : Z) : result pma_state := pma_free_pages s phys 1.
