(* ===== verification/PmaSpec.v ===== *)
(** Invariants and correctness of the physical page allocator (src/mem/pma.c).

    The size classes, the doubly linked free lists with their bitmaps, the
    relation of a zone to its abstract set of free blocks (a finite map from
    block start to block size), and what allocation, release and their
    sequences do to it. *)

From S2P Require Import Prelude Bitmap Vmm Cmm Pma.

(** * Size classes *)

(** The position of a size in the order the search visits the lists. *)
Definition size_class (s : Z) : Z :=
  let '(fl, sl) := tlsf_mapping_insert s in fl * PMA_SL_INDEX_COUNT + sl.

Lemma mapping_small s : s < 2 ^ 17 → tlsf_mapping_insert s = (0, s / 2 ^ 12).
Proof.
  intros. unfold tlsf_mapping_insert.
  change PMA_SMALL_BLOCK_SIZE with (2 ^ 17). case_z; [|lia].
  by rewrite Z.shiftr_div_pow2.
Qed.

Lemma lxor_32 x : 32 <= x < 64 → Z.lxor x 32 = x - 32.
Proof.
  intros H. assert (x ∈ seqZ 32 32) as Hx by (apply elem_of_seqZ; lia).
  revert x H Hx. assert (Forall (λ x, Z.lxor x 32 = x - 32) (seqZ 32 32)) as HF.
  { refine (bool_decide_eq_true_1 _ _). vm_compute. reflexivity. }
  rewrite Forall_forall in HF. auto.
Qed.

Lemma top_bits s : 2 ^ 5 <= s → 32 <= s / 2 ^ (Z.log2 s - 5) < 64.
Proof.
  intros. pose proof (Z.log2_spec s ltac:(lia)) as [Hl Hh].
  assert (5 <= Z.log2 s) by (apply Z.log2_le_pow2; lia).
  assert (2 ^ Z.log2 s = 32 * 2 ^ (Z.log2 s - 5)) as E.
  { change 32 with (2 ^ 5). rewrite <- Z.pow_add_r by lia. f_equal. lia. }
  rewrite Z.pow_succ_r in Hh by lia.
  pose proof (Z.pow_pos_nonneg 2 (Z.log2 s - 5) ltac:(lia) ltac:(lia)).
  split; [apply Z.div_le_lower_bound; lia|apply Z.div_lt_upper_bound; lia].
Qed.

Lemma mapping_large s : 2 ^ 17 <= s →
  tlsf_mapping_insert s = (Z.log2 s - 16, s / 2 ^ (Z.log2 s - 5) - 32).
Proof.
  intros. unfold tlsf_mapping_insert, pma_fls.
  change PMA_SMALL_BLOCK_SIZE with (2 ^ 17). case_z; [lia|]. case_z; [lia|].
  change (PMA_FL_INDEX_SHIFT - 1) with 16. change PMA_SL_INDEX_COUNT_LOG2 with 5.
  assert (17 <= Z.log2 s) by (apply Z.log2_le_pow2; lia).
  rewrite Z.shiftr_div_pow2 by lia. change (2 ^ 5) with 32. rewrite lxor_32; [done|].
  apply top_bits. lia.
Qed.

Lemma mapping_range s fl sl :
  0 <= s < 2 ^ 48 → tlsf_mapping_insert s = (fl, sl) → 0 <= fl < 32 ∧ 0 <= sl < 32.
Proof.
  intros Hs. destruct (decide (s < 2 ^ 17)).
  - rewrite mapping_small by done. intros [= <- <-].
    pose proof (Z.div_pos s (2 ^ 12) ltac:(lia) ltac:(lia)).
    pose proof (Z.div_lt_upper_bound s (2 ^ 12) 32 ltac:(lia) ltac:(lia)). lia.
  - rewrite mapping_large by lia. intros [= <- <-].
    assert (17 <= Z.log2 s) by (apply Z.log2_le_pow2; lia).
    assert (Z.log2 s < 48) by (apply Z.log2_lt_pow2; lia).
    pose proof (top_bits s ltac:(lia)). lia.
Qed.

Lemma size_class_mono s s' : 0 <= s <= s' → size_class s <= size_class s'.
Proof.
  intros Hs. unfold size_class, PMA_SL_INDEX_COUNT.
  destruct (decide (s' < 2 ^ 17)).
  { rewrite !mapping_small by lia. pose proof (Z.div_le_mono s s' (2 ^ 12) ltac:(lia) ltac:(lia)). lia. }
  rewrite (mapping_large s') by lia.
  assert (17 <= Z.log2 s') by (apply Z.log2_le_pow2; lia).
  pose proof (top_bits s' ltac:(lia)).
  destruct (decide (s < 2 ^ 17)).
  { rewrite mapping_small by lia.
    pose proof (Z.div_lt_upper_bound s (2 ^ 12) 32 ltac:(lia) ltac:(lia)). lia. }
  rewrite (mapping_large s) by lia.
  assert (17 <= Z.log2 s) by (apply Z.log2_le_pow2; lia).
  pose proof (top_bits s ltac:(lia)).
  pose proof (Z.log2_le_mono s s' ltac:(lia)).
  destruct (decide (Z.log2 s = Z.log2 s')) as [->|]; [|nia].
  pose proof (Z.div_le_mono s s' (2 ^ (Z.log2 s' - 5)) ltac:(apply Z.pow_pos_nonneg; lia) ltac:(lia)). lia.
Qed.

(** A block of a higher class than a request holds the request. *)
Lemma size_class_lt s s' : 0 <= s → 0 <= s' → size_class s < size_class s' → s < s'.
Proof.
  intros ?? Hc. destruct (decide (s < s')); [done|].
  pose proof (size_class_mono s' s ltac:(lia)). lia.
Qed.

(** Every size below 2^48 maps to a list that exists, and a size whose
    list comes later in the search order is larger. *)
Theorem tlsf_mapping_correct s s' fl sl fl' sl' :
  0 <= s < 2 ^ 48 → 0 <= s' < 2 ^ 48 →
  tlsf_mapping_insert s = (fl, sl) → tlsf_mapping_insert s' = (fl', sl') →
  0 <= fl < PMA_FL_INDEX_COUNT ∧ 0 <= sl < PMA_SL_INDEX_COUNT ∧
  (fl < fl' ∨ fl = fl' ∧ sl < sl' → s < s').
Proof.
  intros Hs Hs' E E'. pose proof (mapping_range s fl sl Hs E). pose proof (mapping_range s' fl' sl' Hs' E').
  split_and!; [unfold PMA_FL_INDEX_COUNT; lia..|unfold PMA_SL_INDEX_COUNT; lia| |];
    [unfold PMA_SL_INDEX_COUNT; lia|].
  intros Hlt. apply size_class_lt; [lia|lia|]. unfold size_class, PMA_SL_INDEX_COUNT. rewrite E, E'. lia.
Qed.

(** * Free lists *)

(** The pointer to the first block of a list that continues with [d]. *)
Definition first_ptr (l : list (Z * Z)) (d : bptr) : bptr :=
  match l with [] => d | x :: _ => Blk x.1 end.
Definition last_ptr (d : bptr) (l : list (Z * Z)) : bptr :=
  match last l with Some x => Blk x.1 | None => d end.

(** The blocks [l] (start, size), linked from [p] to [n]. *)
Fixpoint dseg (hs : blocks_mem) (p : bptr) (l : list (Z * Z)) (n : bptr) : Prop :=
  match l with
  | [] => True
  | x :: l =>
      hs !! Blk x.1 = Some (mkBlock p (first_ptr l n) (Z.lor x.2 1)) ∧ dseg hs (Blk x.1) l n
  end.

Lemma last_ptr_cons d x l : last_ptr d (x :: l) = last_ptr (Blk x.1) l.
Proof. unfold last_ptr. rewrite last_cons. by destruct (last l). Qed.

Lemma first_ptr_app l1 l2 d : first_ptr (l1 ++ l2) d = first_ptr l1 (first_ptr l2 d).
Proof. by destruct l1. Qed.

Lemma dseg_app hs p l1 l2 n :
  dseg hs p (l1 ++ l2) n ↔ dseg hs p l1 (first_ptr l2 n) ∧ dseg hs (last_ptr p l1) l2 n.
Proof.
  revert p. induction l1 as [|x l1 IH]; intros p; [simpl; tauto|].
  rewrite last_ptr_cons. simpl. rewrite IH, first_ptr_app. tauto.
Qed.

Lemma dseg_frame hs hs' p l n :
  (∀ x, x ∈ l → hs' !! Blk x.1 = hs !! Blk x.1) → dseg hs p l n → dseg hs' p l n.
Proof.
  revert p. induction l as [|x l IH]; intros p Hf; simpl; [done|]. intros [E H]. split.
  - rewrite Hf; [done|apply list_elem_of_here].
  - apply IH; [|done]. intros y Hy. apply Hf. by apply list_elem_of_further.
Qed.

Lemma header_at_lookup hs p h : hs !! p = Some h → header_at hs p = h.
Proof. intros E. unfold header_at. by rewrite E. Qed.

Lemma store_ok p f hs h : p ≠ Null → hs !! p = Some h → store p f hs = Ok (<[p := f h]> hs).
Proof.
  intros Hp E. unfold store. rewrite (header_at_lookup _ _ _ E). destruct p; [done|done|]. cbn [writable]. by rewrite bool_decide_eq_true_2.
Qed.

(** Redirect the [next] of the last block of a segment, or of what precedes it. *)
Lemma dseg_set_next hs p l n n' :
  dseg hs p l n → NoDup l.*1 → p ≠ Null → (∀ a, p ≠ Blk a) →
  ∃ hs', set_next (last_ptr p l) n' hs = Ok hs' ∧ dseg hs' p l n' ∧
    ∀ q, q ≠ last_ptr p l → hs' !! q = hs !! q.
Proof.
  intros Hd Hnd Hn Hp.
  assert (writable hs (last_ptr p l) = true) as Hw.
  { unfold last_ptr. destruct (last l) as [x|] eqn:El; [|destruct p; [done|done|by destruct (Hp phys)]].
    apply last_Some in El as [l' ->]. apply dseg_app in Hd as [_ [Hd _]]. simpl. rewrite Hd. by apply bool_decide_eq_true. }
  assert (set_next (last_ptr p l) n' hs =
    Ok (<[last_ptr p l := mkBlock (prev (header_at hs (last_ptr p l))) n' (size (header_at hs (last_ptr p l)))]> hs)) as E
    by (unfold set_next, store; by rewrite Hw).
  eexists. split; [exact E|]. split; [|intros q Hq; by rewrite lookup_insert_ne].
  destruct (last l) as [x|] eqn:El; [|apply last_None in El as ->; done].
  apply last_Some in El as [l' ->]. unfold last_ptr. rewrite last_snoc.
  rewrite fmap_app in Hnd. apply NoDup_app in Hnd as (_&Hnd&_).
  apply dseg_app in Hd as [Hd1 [Hd2 _]]. apply dseg_app. split.
  - eapply dseg_frame; [|exact Hd1]. intros y Hy. apply lookup_insert_ne.
    intros [= E']. apply (Hnd y.1); [by apply list_elem_of_fmap_2|]. rewrite <- E'. apply list_elem_of_here.
  - simpl. split; [|done]. rewrite lookup_insert_eq. simpl in Hd2. by rewrite (header_at_lookup _ _ _ Hd2).
Qed.

(** Redirect the [prev] of the first block of a segment, or of what follows it. *)
Lemma dseg_set_prev hs p p' l n :
  dseg hs p l n → NoDup l.*1 → n ≠ Null → (∀ a, n ≠ Blk a) →
  ∃ hs', set_prev (first_ptr l n) p' hs = Ok hs' ∧ dseg hs' p' l n ∧
    ∀ q, q ≠ first_ptr l n → hs' !! q = hs !! q.
Proof.
  intros Hd Hnd Hn Hnb.
  assert (writable hs (first_ptr l n) = true) as Hw.
  { destruct l as [|x l]; [destruct n; [done|done|by destruct (Hnb phys)]|]. destruct Hd as [Hd _]. simpl. rewrite Hd. by apply bool_decide_eq_true. }
  assert (set_prev (first_ptr l n) p' hs =
    Ok (<[first_ptr l n := mkBlock p' (next (header_at hs (first_ptr l n))) (size (header_at hs (first_ptr l n)))]> hs)) as E
    by (unfold set_prev, store; by rewrite Hw).
  eexists. split; [exact E|]. split; [|intros q Hq; by rewrite lookup_insert_ne].
  destruct l as [|x l]; [done|]. simpl in *. destruct Hd as [Hd1 Hd2]. split.
  - rewrite lookup_insert_eq. by rewrite (header_at_lookup _ _ _ Hd1).
  - eapply dseg_frame; [|exact Hd2]. intros y Hy. apply lookup_insert_ne.
    intros [= E']. apply NoDup_cons in Hnd as [Hnd _]. apply Hnd. rewrite E'. by apply list_elem_of_fmap_2.
Qed.

(** * A zone and its abstract set of free blocks *)

Definition valid_size (s : Z) : Prop := 0 < s < 2 ^ 48 ∧ (PAGE_SIZE | s).

Lemma valid_size_lor s : valid_size s → Z.land (Z.lor s 1) (not64 1) = s.
Proof.
  intros [? [q ->]]. unfold PAGE_SIZE in *. apply Z.bits_inj'. intros i Hi.
  rewrite Z.land_spec, Z.lor_spec. destruct (decide (i < 64)).
  - rewrite not64_testbit by lia. change 1 with (2 ^ 0). rewrite Z.pow2_bits_eqb by lia.
    case_z; simpl; [subst i|by rewrite orb_false_r, andb_true_r].
    rewrite orb_true_r. simpl. symmetry. rewrite ?Z.bit0_odd, Z.odd_mul. by rewrite andb_false_r.
  - rewrite (testbit_high 64 (not64 1) i), andb_false_r by (unfold not64; lia).
    symmetry. apply (testbit_high 64); lia.
Qed.

Record lists_ok (z : pma_zone) (hs : blocks_mem) (L : Z → Z → list (Z * Z)) (F : gmap Z Z) : Prop := {
  lists_head fl sl : 0 <= fl < 32 → 0 <= sl < 32 →
    get_head z fl sl = Ok (first_ptr (L fl sl) (Sentinel (zid z)));
  lists_seg fl sl : 0 <= fl < 32 → 0 <= sl < 32 →
    dseg hs (Sentinel (zid z)) (L fl sl) (Sentinel (zid z));
  lists_sl fl : 0 <= fl < 32 → ∃ m, get_sl z fl = Ok m ∧ 0 <= m < 2 ^ 32 ∧
    Z.testbit (fl_bitmap z) fl = negb (m =? 0) ∧
    ∀ sl, 0 <= sl < 32 → Z.testbit m sl = bool_decide (L fl sl ≠ []);
  lists_fl : 0 <= fl_bitmap z < 2 ^ 32;
  lists_nodup fl sl : 0 <= fl < 32 → 0 <= sl < 32 → NoDup (L fl sl).*1;
  lists_elem fl sl p s : 0 <= fl < 32 → 0 <= sl < 32 →
    (p, s) ∈ L fl sl ↔ F !! p = Some s ∧ tlsf_mapping_insert s = (fl, sl);
  lists_valid p s : F !! p = Some s → valid_size s
}.

(** The zone's lists hold exactly the blocks of [F]. *)
Definition tlsf (z : pma_zone) (hs : blocks_mem) (F : gmap Z Z) : Prop := ∃ L, lists_ok z hs L F.

Definition same_zone (z z' : pma_zone) : Prop :=
  zid z' = zid z ∧ Pma.base z' = Pma.base z ∧ total_pages z' = total_pages z.

(** The headers a zone operation may write. *)
Definition owned (z : pma_zone) (F : gmap Z Z) (q : bptr) : Prop :=
  q = Sentinel (zid z) ∨ ∃ p, q = Blk p ∧ is_Some (F !! p).

(** [hs'] differs from [hs] only at headers that satisfy [P]. *)
Definition frame (P : bptr → Prop) (hs hs' : blocks_mem) : Prop :=
  ∀ q, ¬ P q → hs' !! q = hs !! q.

Lemma frame_refl P hs : frame P hs hs.
Proof. done. Qed.

Lemma frame_trans P hs1 hs2 hs3 : frame P hs1 hs2 → frame P hs2 hs3 → frame P hs1 hs3.
Proof. intros H1 H2 q Hq. by rewrite (H2 q Hq), (H1 q Hq). Qed.

Lemma frame_weaken (P Q : bptr → Prop) hs hs' : frame P hs hs' → (∀ q, P q → Q q) → frame Q hs hs'.
Proof. intros H HPQ q Hq. apply H. auto. Qed.

Lemma lists_owned z hs L F fl sl p s :
  lists_ok z hs L F → 0 <= fl < 32 → 0 <= sl < 32 → (p, s) ∈ L fl sl → F !! p = Some s.
Proof. intros H ???. by apply (lists_elem _ _ _ _ H fl sl). Qed.

Lemma tlsf_frame z hs hs' F :
  tlsf z hs F → (∀ p, is_Some (F !! p) → hs' !! Blk p = hs !! Blk p) → tlsf z hs' F.
Proof.
  intros [L H] Hf. exists L. split; try apply H. intros fl sl ??.
  eapply dseg_frame; [|by apply (lists_seg _ _ _ _ H)].
  intros [p s] Hp. apply Hf. exists s. by apply (lists_owned _ _ _ _ fl sl p s H).
Qed.

Lemma tlsf_header z hs F p s :
  tlsf z hs F → F !! p = Some s → ∃ h, hs !! Blk p = Some h ∧ size h = Z.lor s 1.
Proof.
  intros [L H] E. pose proof (lists_valid _ _ _ _ H p s E) as [? _].
  destruct (tlsf_mapping_insert s) as [fl sl] eqn:Em.
  pose proof (mapping_range s fl sl ltac:(lia) Em) as [? ?].
  assert ((p, s) ∈ L fl sl) as Hp by (apply (lists_elem _ _ _ _ H); done).
  apply list_elem_of_split in Hp as (l1&l2&El).
  pose proof (lists_seg _ _ _ _ H fl sl ltac:(done) ltac:(done)) as Hd. rewrite El in Hd.
  apply dseg_app in Hd as [_ [Hd _]]. simpl in Hd. eauto.
Qed.

(** * Reads after writes of a zone's tables *)

Lemma get_head_with_head z fl sl q0 q fl' sl' :
  get_head z fl sl = Ok q0 → 0 <= fl → 0 <= sl → 0 <= fl' → 0 <= sl' →
  get_head (with_head z fl sl q) fl' sl' =
    if decide (fl' = fl ∧ sl' = sl) then Ok q else get_head z fl' sl'.
Proof.
  intros E ????. unfold get_head in *. simpl.
  destruct (blocks z !! Z.to_nat fl) as [row|] eqn:Er; [|done]. cbn [of_option mbind result_bind] in E.
  destruct (row !! Z.to_nat sl) as [h|] eqn:Eh; [|done].
  destruct (decide (fl' = fl)) as [->|].
  - rewrite list_lookup_alter_eq, Er. cbn [of_option mbind result_bind fmap option_fmap option_map].
    destruct (decide (sl' = sl)) as [->|].
    + rewrite decide_True by done. by rewrite list_lookup_insert_eq by (by eapply lookup_lt_Some).
    + rewrite decide_False by tauto. by rewrite list_lookup_insert_ne by lia.
  - rewrite decide_False by tauto. by rewrite list_lookup_alter_ne by lia.
Qed.

Lemma get_sl_with_sl z fl m0 m fl' :
  get_sl z fl = Ok m0 → 0 <= fl → 0 <= fl' →
  get_sl (with_sl z fl m) fl' = if decide (fl' = fl) then Ok m else get_sl z fl'.
Proof.
  intros E ??. unfold get_sl in *. simpl.
  destruct (sl_bitmap z !! Z.to_nat fl) as [h|] eqn:Eh; [|done].
  destruct (decide (fl' = fl)) as [->|].
  - by rewrite list_lookup_insert_eq by (by eapply lookup_lt_Some).
  - by rewrite list_lookup_insert_ne by lia.
Qed.

(** Replace one list of a table of lists. *)
Definition upd (L : Z → Z → list (Z * Z)) (fl sl : Z) (l : list (Z * Z)) : Z → Z → list (Z * Z) :=
  λ fl' sl', if decide (fl' = fl ∧ sl' = sl) then l else L fl' sl'.

Lemma upd_eq L fl sl l : upd L fl sl l fl sl = l.
Proof. unfold upd. by rewrite decide_True. Qed.

Lemma lists_disjoint z hs L F fl sl fl' sl' p s s' :
  lists_ok z hs L F → 0 <= fl < 32 → 0 <= sl < 32 → 0 <= fl' < 32 → 0 <= sl' < 32 →
  (p, s) ∈ L fl sl → (p, s') ∈ L fl' sl' → fl = fl' ∧ sl = sl'.
Proof.
  intros H ???? H1 H2. apply (lists_elem _ _ _ _ H) in H1 as [E1 E2]; [|done..].
  apply (lists_elem _ _ _ _ H) in H2 as [E3 E4]; [|done..].
  rewrite E1 in E3. injection E3 as <-. rewrite E2 in E4. by injection E4 as <- <-.
Qed.

Lemma lists_fst z hs L F fl sl x :
  lists_ok z hs L F → 0 <= fl < 32 → 0 <= sl < 32 → x ∈ L fl sl → is_Some (F !! x.1).
Proof. intros H ?? Hx. exists x.2. apply (lists_owned _ _ _ _ fl sl x.1 x.2 H); [done..|]. by destruct x. Qed.

(** Relinking inside one list leaves the segments of the other lists alone. *)
Lemma other_seg z hs hs' L F fl sl fl' sl' (P : bptr → Prop) :
  lists_ok z hs L F → 0 <= fl < 32 → 0 <= sl < 32 → 0 <= fl' < 32 → 0 <= sl' < 32 →
  ¬ (fl' = fl ∧ sl' = sl) → frame P hs hs' →
  (∀ p, P (Blk p) → F !! p = None ∨ ∃ s, (p, s) ∈ L fl sl) →
  dseg hs' (Sentinel (zid z)) (L fl' sl') (Sentinel (zid z)).
Proof.
  intros H ???? Hne Hf HP. eapply dseg_frame; [|by apply (lists_seg _ _ _ _ H)].
  intros [p s] Hp. apply Hf. intros Hq. apply HP in Hq as [Hq|[s' Hq]]; simpl in *.
  - pose proof (lists_fst _ _ _ _ fl' sl' _ H ltac:(done) ltac:(done) Hp) as [? E]. simpl in E. by rewrite Hq in E.
  - apply Hne, (lists_disjoint z hs L F fl' sl' fl sl p s s' H); done.
Qed.

Lemma first_ptr_in l d p : first_ptr l d = Blk p → d ≠ Blk p → ∃ s, (p, s) ∈ l.
Proof. destruct l as [|[q s] l]; simpl; [done|]. intros [= ->] _. exists s. apply list_elem_of_here. Qed.

Lemma last_ptr_in l d p : last_ptr d l = Blk p → d ≠ Blk p → ∃ s, (p, s) ∈ l.
Proof.
  unfold last_ptr. destruct (last l) as [[q s]|] eqn:E; [|done]. intros [= ->] _. exists s.
  apply last_Some in E as [l' ->]. apply elem_of_app. right. apply list_elem_of_here.
Qed.

(** [z'] is [z] with list (fl, sl) now [l'], its bit and its row's bit. *)
Record tables_upd (z z' : pma_zone) (fl sl : Z) (l' : list (Z * Z)) : Prop := {
  tu_zone : same_zone z z';
  tu_head fl' sl' : 0 <= fl' < 32 → 0 <= sl' < 32 → get_head z' fl' sl' =
    if decide (fl' = fl ∧ sl' = sl) then Ok (first_ptr l' (Sentinel (zid z))) else get_head z fl' sl';
  tu_sl m : get_sl z fl = Ok m → 0 <= m < 2 ^ 32 → ∃ m', get_sl z' fl = Ok m' ∧ 0 <= m' < 2 ^ 32 ∧
    Z.testbit (fl_bitmap z') fl = negb (m' =? 0) ∧
    ∀ sl', 0 <= sl' < 32 → Z.testbit m' sl' = if sl' =? sl then bool_decide (l' ≠ []) else Z.testbit m sl';
  tu_sl_other fl' : 0 <= fl' < 32 → fl' ≠ fl → get_sl z' fl' = get_sl z fl' ∧
    Z.testbit (fl_bitmap z') fl' = Z.testbit (fl_bitmap z) fl';
  tu_fl : 0 <= fl_bitmap z' < 2 ^ 32
}.

Lemma lists_ok_replace z z' hs hs' L F F' fl sl l' (P : bptr → Prop) :
  lists_ok z hs L F → 0 <= fl < 32 → 0 <= sl < 32 → tables_upd z z' fl sl l' →
  dseg hs' (Sentinel (zid z)) l' (Sentinel (zid z)) → NoDup l'.*1 → frame P hs hs' →
  (∀ p, P (Blk p) → F !! p = None ∨ ∃ s, (p, s) ∈ L fl sl) →
  (∀ p s, (p, s) ∈ l' ↔ F' !! p = Some s ∧ tlsf_mapping_insert s = (fl, sl)) →
  (∀ p s, tlsf_mapping_insert s ≠ (fl, sl) → F' !! p = Some s ↔ F !! p = Some s) →
  (∀ p s, F' !! p = Some s → valid_size s) →
  lists_ok z' hs' (upd L fl sl l') F'.
Proof.
  intros H Hfl Hsl Hu Hd Hnd Hf HP He Ho Hv. pose proof (tu_zone _ _ _ _ _ Hu) as (Ez&_&_).
  split; rewrite ?Ez.
  - intros fl' sl' ??. rewrite (tu_head _ _ _ _ _ Hu) by done. unfold upd.
    case_decide; [done|]. by apply (lists_head _ _ _ _ H).
  - intros fl' sl' ??. unfold upd. case_decide as Hc; [done|].
    by eapply (other_seg z hs hs' L F fl sl).
  - intros fl' ?. destruct (decide (fl' = fl)) as [->|Hne].
    + destruct (lists_sl _ _ _ _ H fl Hfl) as (m&Em&Hm&_&Hb).
      destruct (tu_sl _ _ _ _ _ Hu m Em Hm) as (m'&Em'&Hm'&Hf'&Hb'). exists m'. split_and!; try done; try lia.
      intros sl' ?. rewrite Hb' by done. unfold upd.
      case_z; [rewrite decide_True by done; done|]. rewrite decide_False by tauto. by apply Hb.
    + destruct (lists_sl _ _ _ _ H fl' ltac:(done)) as (m&Em&Hm&Hfb&Hb).
      destruct (tu_sl_other _ _ _ _ _ Hu fl' ltac:(done) Hne) as [-> ->]. exists m.
      split_and!; try done; try lia. intros sl' ?. unfold upd. rewrite decide_False by tauto. by apply Hb.
  - by apply (tu_fl _ _ _ _ _ Hu).
  - intros fl' sl' ??. unfold upd. case_decide; [done|]. by apply (lists_nodup _ _ _ _ H).
  - intros fl' sl' p s ??. unfold upd. case_decide as Hc; [destruct Hc as [-> ->]; apply He|].
    rewrite (lists_elem _ _ _ _ H) by done. split; intros [E1 E2]; (split; [|done]);
      apply (Ho p s); try done; rewrite E2; intros [= ? ?]; tauto.
  - exact Hv.
Qed.

(** Write the three links of an insertion at the front. *)
Lemma insert_link hs S p l s h :
  S ≠ Null → (∀ q, S ≠ Blk q) → dseg hs S l S → NoDup l.*1 → p ∉ l.*1 →
  hs !! Blk p = Some h → size h = Z.lor s 1 →
  ∃ hs', (hs ← set_next (Blk p) (first_ptr l S) hs; hs ← set_prev (Blk p) S hs;
          set_prev (first_ptr l S) (Blk p) hs) = Ok hs' ∧
    dseg hs' S ((p, s) :: l) S ∧ frame (λ q, q = Blk p ∨ q = first_ptr l S) hs hs'.
Proof.
  intros HS HSb Hd Hnd Hp Eh Es. unfold set_next. rewrite (store_ok (Blk p) _ _ h ltac:(done) Eh). cbn [mbind result_bind].
  unfold set_prev at 2. erewrite (store_ok (Blk p)) by (done || apply lookup_insert_eq). cbn [mbind result_bind prev next size]. rewrite insert_insert_eq, Es.
  set (hs1 := <[Blk p := _]> hs). assert (hs1 !! Blk p = Some (mkBlock S (first_ptr l S) (Z.lor s 1))) as E1 by apply lookup_insert_eq.
  assert (frame (λ q, q = Blk p) hs hs1) as F1.
  { intros q Hq. by apply lookup_insert_ne. }
  assert (first_ptr l S ≠ Blk p) as Hne.
  { intros E. apply first_ptr_in in E as [s' Hs']; [|done]. apply Hp.
    by apply (list_elem_of_fmap_2 fst) in Hs'. }
  destruct (dseg_set_prev hs1 S (Blk p) l S) as (hs'&E'&Hd'&F').
  - eapply dseg_frame; [|exact Hd]. intros x Hx. apply F1. intros [= <-]. apply Hp. by apply list_elem_of_fmap_2.
  - done.
  - done.
  - done.
  - exists hs'. split; [exact E'|]. split.
    + simpl. split; [|done]. by rewrite F' by done.
    + intros q Hq. rewrite F' by tauto. apply F1. tauto.
Qed.

Lemma insert_tables z fl sl q0 m p s l :
  0 <= fl < 32 → 0 <= sl < 32 → get_head z fl sl = Ok q0 → get_sl z fl = Ok m → 0 <= m < 2 ^ 32 →
  0 <= fl_bitmap z < 2 ^ 32 →
  tables_upd z (with_sl (with_fl (with_head z fl sl (Blk p)) (Z.lor (fl_bitmap z) (2 ^ fl)))
                  fl (Z.lor m (2 ^ sl))) fl sl ((p, s) :: l).
Proof.
  intros Hfl Hsl Eh Em Hm Hf. pose proof (pow2_range fl 32 Hfl). pose proof (pow2_range sl 32 Hsl).
  split.
  - done.
  - intros fl' sl' ??. by rewrite <- (get_head_with_head z fl sl q0 (Blk p)) by (done || lia).
  - intros m0 Em0 _. rewrite Em in Em0. injection Em0 as <-. exists (Z.lor m (2 ^ sl)).
    split; [by rewrite (get_sl_with_sl (with_fl (with_head _ _ _ _) _) fl m), decide_True by (done || lia)|].
    split; [by apply lor_range|]. split.
    + simpl. rewrite set_bit_testbit, Z.eqb_refl by lia. symmetry. apply negb_true_iff, Z.eqb_neq.
      intros E0. pose proof (set_bit_testbit m sl sl ltac:(lia) ltac:(lia)) as Hb.
      by rewrite E0, Z.bits_0, Z.eqb_refl in Hb.
    + intros sl' ?. rewrite set_bit_testbit by lia. by case_z.
  - intros fl' ? Hne. rewrite (get_sl_with_sl (with_fl (with_head _ _ _ _) _) fl m), decide_False by (done || lia).
    split; [done|]. simpl. rewrite set_bit_testbit by lia. case_z; [done|done].
  - simpl. by apply lor_range.
Qed.

Lemma tlsf_insert_ok z hs F p s h :
  tlsf z hs F → F !! p = None → valid_size s →
  hs !! Blk p = Some h → size h = Z.lor s 1 →
  ∃ z' hs', tlsf_block_insert z (Blk p) hs = Ok (z', hs') ∧ tlsf z' hs' (<[p := s]> F) ∧
    same_zone z z' ∧ frame (owned z (<[p := s]> F)) hs hs'.
Proof.
  intros [L H] EF Hs Eh Esz. pose proof Hs as [Hs1 _].
  unfold tlsf_block_insert, load, block_size. rewrite Eh. cbn [of_option mbind result_bind].
  rewrite Esz, valid_size_lor by done.
  destruct (tlsf_mapping_insert s) as [fl sl] eqn:Em.
  pose proof (mapping_range s fl sl ltac:(lia) Em) as [Hfl Hsl].
  pose proof (lists_head _ _ _ _ H fl sl Hfl Hsl) as Ehead.
  destruct (lists_sl _ _ _ _ H fl Hfl) as (m&Esl&Hm&_).
  unfold tlsf_insert_free_block. rewrite Ehead. cbn [mbind result_bind].
  assert (Hpl : p ∉ (L fl sl).*1).
  { intros Hx. apply list_elem_of_fmap in Hx as (x&->&Hx).
    destruct (lists_fst _ _ _ _ _ _ x H Hfl Hsl Hx) as [? E']. by rewrite EF in E'. }
  pose proof (lists_nodup _ _ _ _ H fl sl Hfl Hsl) as Hnd.
  destruct (insert_link hs (Sentinel (zid z)) p (L fl sl) s h) as (hs'&E&Hd&Hf); try done.
  { by apply (lists_seg _ _ _ _ H). }
  destruct (set_next _ _ hs) as [ha| | |]; [|done..]. cbn [mbind result_bind] in E |- *.
  destruct (set_prev (Blk p) _ ha) as [hb| | |]; [|done..]. cbn [mbind result_bind] in E |- *. rewrite E. cbn [mbind result_bind].
  change (get_sl (with_fl _ _) fl) with (get_sl z fl). rewrite Esl. cbn [mbind result_bind].
  pose proof (insert_tables z fl sl _ m p s (L fl sl) Hfl Hsl Ehead Esl Hm (lists_fl _ _ _ _ H)) as Hu.
  eexists _, hs'. split; [reflexivity|]. split_and!.
  - exists (upd L fl sl ((p, s) :: L fl sl)).
    eapply (lists_ok_replace z _ hs hs' L F (<[p := s]> F) fl sl _ _ H Hfl Hsl Hu Hd); [|exact Hf|..].
    + simpl. by constructor.
    + intros q [[= ->]|Hq]; [by left|right]. by eapply first_ptr_in.
    + intros q t. rewrite elem_of_cons, lookup_insert_Some, (lists_elem _ _ _ _ H) by done.
      destruct (decide (q = p)) as [->|]; [|naive_solver]. split; [|naive_solver].
      intros [[= ->]|[E' _]]; [tauto|]. by rewrite EF in E'.
    + intros q t Ht. rewrite lookup_insert_Some. destruct (decide (q = p)) as [->|]; [|naive_solver].
      split; [intros [[_ <-]|?]; [done|tauto]|]. intros E'. by rewrite EF in E'.
    + intros q t [[<- <-]|[_ E']]%lookup_insert_Some; [done|]. by eapply lists_valid.
  - apply Hu.
  - eapply frame_weaken; [exact Hf|]. intros q [->| ->].
    + right. exists p. split; [done|]. by rewrite lookup_insert_eq.
    + destruct (first_ptr (L fl sl) (Sentinel (zid z))) as [|zz|q] eqn:Eq.
      * by destruct (L fl sl).
      * left. by destruct (L fl sl).
      * right. exists q. split; [done|]. apply first_ptr_in in Eq as [t Ht]; [|done].
        rewrite lookup_insert_is_Some'. right. by apply (lists_fst _ _ _ _ fl sl _ H) in Ht.
Qed.

(** Write the two links of a removal. *)
Lemma remove_link hs S p s l1 l2 :
  S ≠ Null → (∀ q, S ≠ Blk q) → dseg hs S (l1 ++ (p, s) :: l2) S → NoDup (l1 ++ (p, s) :: l2).*1 →
  ∃ hs', (hs ← set_prev (first_ptr l2 S) (last_ptr S l1) hs;
          set_next (last_ptr S l1) (first_ptr l2 S) hs) = Ok hs' ∧
    dseg hs' S (l1 ++ l2) S ∧ hs' !! Blk p = hs !! Blk p ∧
    frame (λ q, q = first_ptr l2 S ∨ q = last_ptr S l1) hs hs'.
Proof.
  intros HS HSb Hd Hnd. apply dseg_app in Hd as [Hd1 [_ Hd2]]. simpl in Hd1, Hd2.
  rewrite fmap_app, fmap_cons in Hnd. apply NoDup_app in Hnd as (Hn1&Hn12&Hn2).
  apply NoDup_cons in Hn2 as [Hpn2 Hn2]. simpl in Hpn2.
  assert (Hlin : ∀ q, last_ptr S l1 = Blk q → q ∈ l1.*1).
  { intros q E. apply last_ptr_in in E as [t Ht]; [|done]. by apply (list_elem_of_fmap_2 fst) in Ht. }
  assert (Hfin : ∀ q, first_ptr l2 S = Blk q → q ∈ l2.*1).
  { intros q E. apply first_ptr_in in E as [t Ht]; [|done]. by apply (list_elem_of_fmap_2 fst) in Ht. }
  destruct (dseg_set_prev hs (Blk p) (last_ptr S l1) l2 S) as (hs1&E1&Hd2'&F1); [done..|].
  assert (dseg hs1 S l1 (Blk p)) as Hd1'.
  { eapply dseg_frame; [|exact Hd1]. intros x Hx. apply F1. intros E. symmetry in E. apply Hfin in E.
    apply (Hn12 x.1); [by apply list_elem_of_fmap_2|]. apply elem_of_cons. by right. }
  destruct (dseg_set_next hs1 S l1 (Blk p) (first_ptr l2 S)) as (hs2&E2&Hd1''&F2); [done..|].
  exists hs2. rewrite E1. cbn [mbind result_bind]. split; [exact E2|]. split; [|split].
  - apply dseg_app. split; [done|]. eapply dseg_frame; [|exact Hd2']. intros x Hx. apply F2.
    intros E. symmetry in E. apply Hlin in E. apply (Hn12 _ E). apply elem_of_cons. right. by apply list_elem_of_fmap_2.
  - rewrite F2, F1; [done|..]; intros E; symmetry in E.
    + by apply Hfin in E.
    + apply Hlin in E. apply (Hn12 _ E), list_elem_of_here.
  - intros q Hq. rewrite F2, F1; [done|tauto..].
Qed.

(** The table updates of [tlsf_remove_free_block]. *)
Definition unlink_head (z : pma_zone) (b next : bptr) (fl sl : Z) : result pma_zone :=
  head ← get_head z fl sl;
  if decide (head = b) then
    let z := with_head z fl sl next in
    if decide (next = Sentinel (zid z)) then
      m ← get_sl z fl;
      let m := Z.land m (not64 (2 ^ sl)) in
      let z := with_sl z fl m in
      if m =? 0 then mret (with_fl z (Z.land (fl_bitmap z) (not64 (2 ^ fl)))) else mret z
    else mret z
  else mret z.

Lemma remove_unlink z b fl sl hs :
  tlsf_remove_free_block z b fl sl hs =
  h ← load hs b;
  hs ← (hs ← set_prev (next h) (prev h) hs; set_next (prev h) (next h) hs);
  z ← unlink_head z b (next h) fl sl; mret (z, hs).
Proof.
  unfold tlsf_remove_free_block, unlink_head. destruct (load hs b) as [h| | |]; [|done..].
  cbn [mbind result_bind]. destruct (set_prev (next h) (prev h) hs) as [hs1| | |]; [|done..].
  cbn [mbind result_bind]. destruct (set_next (prev h) (next h) hs1) as [hs2| | |]; [|done..].
  cbn [mbind result_bind]. destruct (get_head z fl sl); [|done..]. cbn [mbind result_bind].
  repeat case_decide; try done. change (get_sl (with_head z fl sl (next h)) fl) with (get_sl z fl).
  destruct (get_sl z fl); [|done..]. cbn [mbind result_bind]. by case_z.
Qed.

(** A block of a duplicate-free list is not among the others. *)
Lemma nodup_middle (l1 l2 : list (Z * Z)) p s : NoDup (l1 ++ (p, s) :: l2).*1 → p ∉ (l1 ++ l2).*1.
Proof.
  rewrite !fmap_app, fmap_cons. intros (_&H12&H2)%NoDup_app. apply NoDup_cons in H2 as [H2 _].
  rewrite elem_of_app. intros [Hp|Hp]; [|done]. apply (H12 _ Hp), list_elem_of_here.
Qed.

(** What a removal relinks: the sentinel or another block of the list. *)
Lemma relinked (S : bptr) l1 l2 q :
  q = first_ptr l2 S ∨ q = last_ptr S l1 → q = S ∨ ∃ a t, q = Blk a ∧ (a, t) ∈ l1 ++ l2.
Proof.
  intros [-> | ->].
  - destruct l2 as [|[a t] l2]; [by left|right]. exists a, t. split; [done|].
    apply elem_of_app. right. apply list_elem_of_here.
  - unfold last_ptr. destruct (last l1) as [[a t]|] eqn:Ela; [right|by left]. exists a, t. split; [done|].
    apply last_Some in Ela as [l' ->]. rewrite !elem_of_app, list_elem_of_singleton. auto.
Qed.

Lemma unlink_tables z hs L F fl sl p s l1 l2 :
  lists_ok z hs L F → 0 <= fl < 32 → 0 <= sl < 32 → L fl sl = l1 ++ (p, s) :: l2 →
  ∃ z', unlink_head z (Blk p) (first_ptr l2 (Sentinel (zid z))) fl sl = Ok z' ∧
    tables_upd z z' fl sl (l1 ++ l2).
Proof.
  intros H Hfl Hsl El. unfold unlink_head.
  pose proof (lists_head _ _ _ _ H fl sl Hfl Hsl) as Eh.
  pose proof (lists_nodup _ _ _ _ H fl sl Hfl Hsl) as Hnd.
  destruct (lists_sl _ _ _ _ H fl Hfl) as (m&Em&Hm&Hf&Hb). pose proof (lists_fl _ _ _ _ H) as Hflr.
  rewrite Eh. cbn [mbind result_bind]. rewrite El in *.
  pose proof (pow2_range sl 64 ltac:(lia)). pose proof (pow2_range fl 64 ltac:(lia)).
  destruct l1 as [|[q t] l1].
  2: { (* the head stays *)
    simpl. rewrite decide_False.
    2: { intros [= ->]. apply (nodup_middle _ _ _ _ Hnd). apply list_elem_of_here. }
    exists z. split; [done|]. split; try done.
    - intros fl' sl' ??. case_decide as Hc; [|done]. destruct Hc as [-> ->]. exact Eh.
    - intros m0 Em0 _. rewrite Em in Em0. injection Em0 as <-. exists m. split_and!; try done; try lia.
      intros sl' ?. case_z; [subst|done]. rewrite Hb by done. by rewrite El. }
  simpl. rewrite decide_True by done. destruct l2 as [|[q t] l2]; simpl.
  - rewrite decide_True by done. change (get_sl (with_head _ _ _ _) fl) with (get_sl z fl). rewrite Em.
    cbn [mbind result_bind]. set (m' := Z.land m (not64 (2 ^ sl))).
    assert (0 <= m' < 2 ^ 32) as Hm' by (apply land_range; [lia|lia|apply not64_range; lia]).
    assert (∀ i, 0 <= i < 32 → Z.testbit m' i = if i =? sl then false else Z.testbit m i) as Hb'
      by (intros; apply clear_bit_testbit; lia).
    assert (get_sl (with_sl (with_head z fl sl (Sentinel (zid z))) fl m') fl = Ok m') as Em'
      by (rewrite (get_sl_with_sl (with_head _ _ _ _) fl m), decide_True by (done || lia); done).
    set (zs := with_sl (with_head z fl sl (Sentinel (zid z))) fl m') in *.
    exists (if m' =? 0 then with_fl zs (Z.land (fl_bitmap z) (not64 (2 ^ fl))) else zs).
    split; [by destruct (m' =? 0)|].
    split.
    + by destruct (m' =? 0).
    + intros fl' sl' ??. rewrite <- (get_head_with_head z fl sl _ (Sentinel (zid z)) _ _ Eh) by lia.
      by destruct (m' =? 0).
    + intros m0 Em0 _. rewrite Em in Em0. injection Em0 as <-. exists m'.
      split; [by destruct (m' =? 0)|]. split; [done|]. split; [|done].
      case_z; simpl; [rewrite clear_bit_testbit, Z.eqb_refl by lia; done|].
      rewrite Hf. apply negb_true_iff, Z.eqb_neq. intros ->. by unfold m' in *; rewrite Z.land_0_l in *.
    + intros fl' ? Hne. split.
      * transitivity (get_sl zs fl'); [by destruct (m' =? 0)|]. subst zs.
        by rewrite (get_sl_with_sl (with_head _ _ _ _) fl m), decide_False by (done || lia).
      * case_z; simpl; [rewrite clear_bit_testbit by lia; by case_z|done].
    + case_z; simpl; [|done]. apply land_range; [lia|lia|apply not64_range; lia].
  - eexists. split; [done|]. split; try done.
    + intros fl' sl' ??. by rewrite <- (get_head_with_head z fl sl _ (Blk q) _ _ Eh) by lia.
    + intros m0 Em0 _. rewrite Em in Em0. injection Em0 as <-. exists m. split_and!; try done; try lia.
      intros sl' ?. case_z; [subst|done]. rewrite Hb by done. by rewrite El.
Qed.

Lemma tlsf_remove_ok z hs F p s fl sl :
  tlsf z hs F → F !! p = Some s → tlsf_mapping_insert s = (fl, sl) →
  ∃ z' hs' h, tlsf_remove_free_block z (Blk p) fl sl hs = Ok (z', hs') ∧ tlsf z' hs' (delete p F) ∧
    same_zone z z' ∧ frame (owned z (delete p F)) hs hs' ∧
    hs' !! Blk p = Some h ∧ size h = Z.lor s 1.
Proof.
  intros [L H] EF Em. pose proof (lists_valid _ _ _ _ H p s EF) as [Hs1 _].
  pose proof (mapping_range s fl sl ltac:(lia) Em) as [Hfl Hsl].
  assert ((p, s) ∈ L fl sl) as Hp by (apply (lists_elem _ _ _ _ H); done).
  apply list_elem_of_split in Hp as (l1&l2&El).
  pose proof (lists_seg _ _ _ _ H fl sl Hfl Hsl) as Hd. pose proof (lists_nodup _ _ _ _ H fl sl Hfl Hsl) as Hnd.
  rewrite remove_unlink. rewrite El in Hd, Hnd.
  pose proof Hd as Eh. apply dseg_app in Eh as [_ [Eh _]]. simpl in Eh.
  unfold load. rewrite Eh. cbn [of_option mbind result_bind next prev].
  destruct (remove_link hs (Sentinel (zid z)) p s l1 l2) as (hs'&E&Hd'&Hph&Hf); try done.
  rewrite E. cbn [mbind result_bind].
  destruct (unlink_tables z hs L F fl sl p s l1 l2 H Hfl Hsl El) as (z'&Ez&Hu). rewrite Ez. cbn [mbind result_bind].
  pose proof (nodup_middle _ _ _ _ Hnd) as Hpn.
  assert (∀ a t, (a, t) ∈ l1 ++ l2 ↔ (a, t) ∈ L fl sl ∧ a ≠ p) as Hin.
  { intros a t. rewrite El, !elem_of_app, elem_of_cons. split; [|naive_solver]. intros Ha. split; [tauto|].
    intros ->. apply Hpn. change p with ((p, t).1). apply list_elem_of_fmap_2. by apply elem_of_app. }
  eexists z', hs', _. split; [done|]. split_and!; [|by apply Hu| |by rewrite Hph|done].
  - exists (upd L fl sl (l1 ++ l2)).
    eapply (lists_ok_replace z z' hs hs' L F (delete p F) fl sl _ _ H Hfl Hsl Hu Hd'); [|exact Hf|..].
    + rewrite fmap_app, fmap_cons in Hnd. rewrite fmap_app. apply NoDup_app in Hnd as (?&Hn12&?).
      apply NoDup_app. split_and!; [done| |by eapply NoDup_cons_1_2].
      intros x Hx Hx2. apply (Hn12 x Hx). apply elem_of_cons. by right.
    + intros q Hq. right. apply relinked in Hq as [?|(a&t&[= <-]&Ha)]; [done|]. exists t. by apply Hin.
    + intros a t. rewrite Hin, lookup_delete_Some, (lists_elem _ _ _ _ H) by done. naive_solver.
    + intros a t Ht. rewrite lookup_delete_Some. split; [tauto|]. intros E'. split; [|done].
      intros <-. by rewrite EF in E'; injection E' as <-.
    + intros a t [_ E']%lookup_delete_Some. by eapply lists_valid.
  - eapply frame_weaken; [exact Hf|]. intros q Hq. apply relinked in Hq as [->|(a&t&->&Ha)]; [by left|right].
    apply Hin in Ha as [Ha ?]. exists a. split; [done|]. exists t. rewrite lookup_delete_ne by done.
    by apply (lists_owned _ _ _ _ fl sl a t H Hfl Hsl).
Qed.

(** Removal of a block named by its address. *)
Lemma tlsf_block_remove_ok z hs F p s :
  tlsf z hs F → F !! p = Some s →
  ∃ z' hs' h, tlsf_block_remove z (Blk p) hs = Ok (z', hs') ∧ tlsf z' hs' (delete p F) ∧
    same_zone z z' ∧ frame (owned z (delete p F)) hs hs' ∧
    hs' !! Blk p = Some h ∧ size h = Z.lor s 1.
Proof.
  intros Ht EF. destruct (tlsf_header _ _ _ _ _ Ht EF) as (h&Eh&Es).
  assert (valid_size s) as Hs by (destruct Ht as [L H]; by eapply lists_valid).
  unfold tlsf_block_remove, load, block_size. rewrite Eh. cbn [of_option mbind result_bind].
  rewrite Es, valid_size_lor by done.
  destruct (tlsf_mapping_insert s) as [fl sl] eqn:Em. by apply (tlsf_remove_ok z hs F p s fl sl).
Qed.

(** * The search for a free block *)

Lemma ffs_from_spec n i w : (∃ j, i <= j < i + Z.of_nat n ∧ Z.testbit w j = true) →
  i <= ffs_from n i w < i + Z.of_nat n ∧ Z.testbit w (ffs_from n i w) = true ∧
  ∀ j, i <= j < ffs_from n i w → Z.testbit w j = false.
Proof.
  revert i. induction n as [|n IH]; intros i (j&Hj&Hb); [lia|]. simpl.
  destruct (Z.testbit w i) eqn:E; [split_and!; [lia|lia|done|lia]|].
  destruct (IH (i + 1)) as (?&?&Hmin).
  { exists j. split; [|done]. destruct (decide (j = i)) as [->|]; [by rewrite E in Hb|lia]. }
  split_and!; try lia; [done|]. intros k Hk. destruct (decide (k = i)) as [->|]; [done|]. apply Hmin. lia.
Qed.

Lemma pma_ffs_spec n w : 0 <= n <= 64 → 0 <= w < 2 ^ n → w ≠ 0 →
  0 <= pma_ffs w < n ∧ Z.testbit w (pma_ffs w) = true ∧ ∀ j, 0 <= j < pma_ffs w → Z.testbit w j = false.
Proof.
  intros Hn Hw H0.
  assert (∃ j, 0 <= j < n ∧ Z.testbit w j = true) as (j&Hj&Hb).
  { pose proof (Z.log2_nonneg w). exists (Z.log2 w). split; [|apply Z.bit_log2; lia].
    split; [done|]. apply Z.log2_lt_pow2; lia. }
  destruct (ffs_from_spec 64 0 w) as (?&Hb'&Hmin); [exists j; split; [lia|done]|].
  fold (pma_ffs w) in *. split_and!; try lia; [|done|done].
  destruct (decide (pma_ffs w < n)); [done|]. by rewrite (testbit_high n) in Hb' by lia.
Qed.

Lemma mask_from_testbit k i : 0 <= k → 0 <= i < 64 → Z.testbit (mask_from k) i = (k <=? i).
Proof.
  intros. unfold mask_from. unfold u64 at 1. rewrite Z.mod_pow2_bits_low, Z.shiftl_spec by lia.
  change (u64 (-1)) with (Z.ones 64). case_z; [by rewrite Z.ones_spec_low by lia|].
  by rewrite Z.testbit_neg_r by lia.
Qed.

Lemma mask_from_range k : 0 <= mask_from k < 2 ^ 64.
Proof. apply u64_range. Qed.

(** A masked row is empty, or its first set bit is the first bit from [k] on. *)
Lemma masked_first m k : 0 <= k → 0 <= m < 2 ^ 32 →
  let w := Z.land m (mask_from k) in
  (w = 0 ∧ ∀ i, k <= i < 32 → Z.testbit m i = false) ∨
  (w ≠ 0 ∧ k <= pma_ffs w < 32 ∧ Z.testbit m (pma_ffs w) = true ∧
   ∀ i, k <= i < pma_ffs w → Z.testbit m i = false).
Proof.
  intros Hk Hm w. pose proof (mask_from_range k).
  assert (0 <= w < 2 ^ 32) as Hw by (by apply land_range; lia).
  assert (∀ i, 0 <= i < 64 → Z.testbit w i = Z.testbit m i && (k <=? i)) as Hb.
  { intros i ?. unfold w. by rewrite Z.land_spec, mask_from_testbit by lia. }
  destruct (decide (w = 0)) as [E|E]; [left|right].
  - split; [done|]. intros i ?. specialize (Hb i ltac:(lia)). rewrite E, Z.bits_0 in Hb.
    destruct (Z.leb_spec k i); [|lia]. by rewrite andb_true_r in Hb.
  - destruct (pma_ffs_spec 32 w) as (?&Hf&Hmin); [lia..|done|].
    rewrite Hb in Hf by lia. apply andb_true_iff in Hf as [? ?]. zify_bools.
    split_and!; try done; try lia. intros i ?. specialize (Hmin i ltac:(lia)). rewrite Hb in Hmin by lia.
    destruct (Z.leb_spec k i); [|lia]. by rewrite andb_true_r in Hmin.
Qed.

Lemma row_empty z hs L F fl m :
  lists_ok z hs L F → 0 <= fl < 32 → get_sl z fl = Ok m →
  Z.testbit (fl_bitmap z) fl = false → ∀ sl, 0 <= sl < 32 → L fl sl = [].
Proof.
  intros H Hfl Em Hf sl Hsl. destruct (lists_sl _ _ _ _ H fl Hfl) as (m'&Em'&?&Hf'&Hb).
  rewrite Em in Em'. injection Em' as <-. rewrite Hf' in Hf. apply negb_false_iff, Z.eqb_eq in Hf as ->.
  specialize (Hb sl Hsl). rewrite Z.bits_0 in Hb. symmetry in Hb. apply bool_decide_eq_false in Hb.
  destruct (L fl sl); [done|]. by destruct Hb.
Qed.

Lemma tlsf_search_ok z hs L F fl sl :
  lists_ok z hs L F → 0 <= fl < 32 → 0 <= sl < 32 →
  (tlsf_search_suitable z fl sl = Ok None ∧
   ∀ fl' sl', 0 <= fl' < 32 → 0 <= sl' < 32 → fl < fl' ∨ fl = fl' ∧ sl <= sl' → L fl' sl' = []) ∨
  (∃ fl1 sl1, tlsf_search_suitable z fl sl = Ok (Some (first_ptr (L fl1 sl1) (Sentinel (zid z)), fl1, sl1)) ∧
     0 <= fl1 < 32 ∧ 0 <= sl1 < 32 ∧ L fl1 sl1 ≠ [] ∧ (fl < fl1 ∨ fl = fl1 ∧ sl <= sl1) ∧
     ∀ fl' sl', 0 <= fl' < 32 → 0 <= sl' < 32 → fl < fl' ∨ fl = fl' ∧ sl <= sl' → L fl' sl' ≠ [] →
       fl1 < fl' ∨ fl1 = fl' ∧ sl1 <= sl').
Proof.
  intros H Hfl Hsl. unfold tlsf_search_suitable.
  assert (∀ fl m, 0 <= fl < 32 → get_sl z fl = Ok m → ∀ sl, 0 <= sl < 32 → Z.testbit m sl = false → L fl sl = []) as Hnil.
  { intros fl' m' ? E' sl' ? Hb'. destruct (lists_sl _ _ _ _ H fl' ltac:(done)) as (?&E2&_&_&Hb2).
    rewrite E' in E2. injection E2 as <-. rewrite Hb2 in Hb' by done. apply bool_decide_eq_false in Hb'.
    destruct (L fl' sl'); [done|]. by destruct Hb'. }
  assert (∀ fl m, 0 <= fl < 32 → get_sl z fl = Ok m → ∀ sl, 0 <= sl < 32 → Z.testbit m sl = true → L fl sl ≠ []) as Hcons.
  { intros fl' m' ? E' sl' ? Hb'. destruct (lists_sl _ _ _ _ H fl' ltac:(done)) as (?&E2&_&_&Hb2).
    rewrite E' in E2. injection E2 as <-. rewrite Hb2 in Hb' by done. by apply bool_decide_eq_true in Hb'. }
  destruct (lists_sl _ _ _ _ H fl Hfl) as (m&Em&Hm&_&_). rewrite Em. cbn [mbind result_bind].
  destruct (masked_first m sl ltac:(lia) Hm) as [[-> Hz]|(Hnz&?&Hset&Hmin)].
  - rewrite Z.eqb_refl. pose proof (lists_fl _ _ _ _ H) as Hflr.
    destruct (masked_first (fl_bitmap z) (fl + 1) ltac:(lia) Hflr) as [[-> Hfz]|(Hfnz&Hfr&Hfset&Hfmin)].
    + rewrite Z.eqb_refl. left. split; [done|]. intros fl' sl' ?? [?|[<- ?]].
      * destruct (lists_sl _ _ _ _ H fl' ltac:(done)) as (m'&E'&_).
        by eapply row_empty; [| |exact E'|apply Hfz; lia|].
      * eapply Hnil; [done|exact Em|done|apply Hz; lia].
    + rewrite (proj2 (Z.eqb_neq _ _) Hfnz). right.
      set (fl1 := pma_ffs (Z.land (fl_bitmap z) (mask_from (fl + 1)))) in *.
      destruct (lists_sl _ _ _ _ H fl1 ltac:(lia)) as (m1&E1&Hm1&Hf1&Hb1). rewrite E1. cbn [mbind result_bind].
      rewrite Hfset in Hf1. symmetry in Hf1. apply negb_true_iff, Z.eqb_neq in Hf1.
      destruct (pma_ffs_spec 32 m1) as (Hr1&Hs1&Hmin1); [lia|lia|done|].
      rewrite (lists_head _ _ _ _ H) by lia. cbn [mbind result_bind].
      exists fl1, (pma_ffs m1). split; [done|]. split_and!; try lia; [eapply Hcons; [|exact E1| |]; done || lia|].
      intros fl' sl' ?? Hge Hne. destruct (decide (fl1 < fl')); [by left|right].
      destruct (decide (fl' = fl1)) as [->|].
      * split; [done|]. destruct (decide (pma_ffs m1 <= sl')); [done|]. exfalso. apply Hne.
        eapply Hnil; [|exact E1| |apply Hmin1]; lia.
      * exfalso. apply Hne. destruct Hge as [?|[<- ?]].
        -- destruct (lists_sl _ _ _ _ H fl' ltac:(done)) as (m'&E'&_).
           by eapply row_empty; [| |exact E'|apply Hfmin; lia|].
        -- eapply Hnil; [done|exact Em|done|apply Hz; lia].
  - rewrite (proj2 (Z.eqb_neq _ _) Hnz). right. rewrite (lists_head _ _ _ _ H) by lia. cbn [mbind result_bind].
    eexists fl, _. split; [done|]. split_and!; try lia; [eapply Hcons; [|exact Em| |]; done || lia|].
    intros fl' sl' ?? [?|[<- ?]] Hne; [by left|right]. split; [done|].
    destruct (decide (pma_ffs (Z.land m (mask_from sl)) <= sl')); [done|]. exfalso. apply Hne.
    eapply Hnil; [done|exact Em|done|apply Hmin; lia].
Qed.

(** What [tlsf_locate_free] does: remove a block of the least class that is
    at least the request's, if there is one. *)
Lemma tlsf_locate_ok z hs F rq :
  tlsf z hs F → 0 < rq < 2 ^ 64 →
  (tlsf_locate_free z rq hs = Ok (None, z, hs) ∧
   ∀ p s, F !! p = Some s → size_class s < size_class rq) ∨
  (∃ p s z' hs' h, tlsf_locate_free z rq hs = Ok (Some (Blk p), z', hs') ∧
     F !! p = Some s ∧ size_class rq <= size_class s ∧
     (∀ p' s', F !! p' = Some s' → size_class rq <= size_class s' → size_class s <= size_class s') ∧
     tlsf z' hs' (delete p F) ∧ same_zone z z' ∧ frame (owned z (delete p F)) hs hs' ∧
     hs' !! Blk p = Some h ∧ size h = Z.lor s 1).
Proof.
  intros Ht Hrq. pose proof Ht as [L H]. unfold tlsf_locate_free. case_z; [lia|].
  assert (∀ p s, F !! p = Some s → ∃ fl sl, tlsf_mapping_insert s = (fl, sl) ∧
            0 <= fl < 32 ∧ 0 <= sl < 32 ∧ (p, s) ∈ L fl sl) as Hin.
  { intros p s E. destruct (lists_valid _ _ _ _ H p s E) as [? _].
    destruct (tlsf_mapping_insert s) as [fl sl] eqn:Em.
    pose proof (mapping_range s fl sl ltac:(lia) Em) as [? ?]. exists fl, sl. split_and!; try done; try lia.
    by apply (lists_elem _ _ _ _ H). }
  destruct (tlsf_mapping_insert rq) as [fl sl] eqn:Em.
  assert (∀ fl' sl', size_class rq <= fl' * 32 + sl' → 0 <= sl' < 32 → 0 <= sl < 32 → fl < fl' ∨ fl = fl' ∧ sl <= sl') as Hlex.
  { intros fl' sl'. unfold size_class, PMA_SL_INDEX_COUNT. rewrite Em. lia. }
  unfold PMA_FL_INDEX_COUNT. case_z.
  2: { (* the request's class is beyond the table *)
    left. split; [done|]. intros p s E. destruct (Hin p s E) as (fl'&sl'&E'&?&?&_).
    destruct (lists_valid _ _ _ _ H p s E) as [? _].
    destruct (decide (rq < 2 ^ 48)); [pose proof (mapping_range rq fl sl ltac:(lia) Em); lia|].
    pose proof (size_class_mono s rq ltac:(lia)) as Hm. unfold size_class, PMA_SL_INDEX_COUNT in *.
    rewrite E', Em in *. rewrite mapping_large in Em by lia. injection Em as <- <-.
    pose proof (top_bits rq ltac:(lia)). lia. }
  assert (rq < 2 ^ 48) as Hrq48.
  { destruct (decide (rq < 2 ^ 48)); [done|]. rewrite mapping_large in Em by lia. injection Em as <- <-.
    assert (48 <= Z.log2 rq) by (apply Z.log2_le_pow2; lia). lia. }
  pose proof (mapping_range rq fl sl ltac:(lia) Em) as [Hfl Hsl].
  destruct (tlsf_search_ok z hs L F fl sl H Hfl Hsl) as [[-> Hnone]|(fl1&sl1&->&?&?&Hne&Hge&Hmin)];
    cbn [mbind result_bind].
  - left. split; [done|]. intros p s E. destruct (Hin p s E) as (fl'&sl'&E'&?&?&Hp).
    destruct (decide (size_class s < size_class rq)); [done|]. rewrite (Hnone fl' sl') in Hp; [|done|done|].
    + by apply elem_of_nil in Hp.
    + apply Hlex; [|done..]. unfold size_class, PMA_SL_INDEX_COUNT in *. rewrite E' in *. lia.
  - right. destruct (L fl1 sl1) as [|[p s] l] eqn:El; [done|]. simpl.
    assert ((p, s) ∈ L fl1 sl1) as Hp by (rewrite El; apply list_elem_of_here).
    apply (lists_elem _ _ _ _ H) in Hp as [EF Es]; [|done..].
    destruct (tlsf_remove_ok z hs F p s fl1 sl1 Ht EF Es) as (z'&hs'&h&E&?&?&?&?&?).
    rewrite E. cbn [mbind result_bind]. exists p, s, z', hs', h. split_and!; try done.
    + unfold size_class, PMA_SL_INDEX_COUNT. rewrite Em, Es. lia.
    + intros p' s' EF' Hc. destruct (Hin p' s' EF') as (fl'&sl'&E'&?&?&Hp').
      unfold size_class, PMA_SL_INDEX_COUNT in Hc |- *. rewrite Em, E' in *. rewrite Es.
      destruct (Hmin fl' sl') as [?|[-> ?]]; try done; try lia.
      intros E0. rewrite E0 in Hp'. by apply elem_of_nil in Hp'.
Qed.

Lemma tlsf_mapping_correct_witness :
  0 <= 2 < PMA_FL_INDEX_COUNT ∧ 0 <= 8 < PMA_SL_INDEX_COUNT ∧ (2 < 3 ∨ 2 = 3 ∧ 8 < 0 → 0x50000 < 0x80000).
Proof. apply (tlsf_mapping_correct 0x50000 0x80000 2 8 3 0); [lia|lia|vm_compute; reflexivity|vm_compute; reflexivity]. Defined.
