(* ===== verification/PmaZone.v ===== *)
(** Zone operations of the physical page allocator on abstract free blocks.

    The zone invariant ties the free lists (PmaSpec.v) and the page bitmap to
    one map from block start to block size; allocation carves a range out of a
    block, release merges a range with its free neighbours. *)

From S2P Require Import Prelude Bitmap Vmm Cmm Pma PmaSpec.

(** * Free blocks and the pages they cover *)

Definition covered (F : gmap Z Z) (pfn : Z) : Prop :=
  ∃ p s, F !! p = Some s ∧ p <= pfn * PAGE_SIZE < p + s.

(** Page aligned blocks inside [lo, total) pages, at least [gap] bytes apart:
    [gap = 0] says disjoint, [gap = 1] also never adjacent. *)
Record blocks_ok (lo total gap : Z) (F : gmap Z Z) : Prop := {
  blk_range p s : F !! p = Some s → 0 < p ∧ lo * PAGE_SIZE <= p ∧ p + s <= total * PAGE_SIZE;
  blk_align p s : F !! p = Some s → (PAGE_SIZE | p) ∧ valid_size s;
  blk_apart p s p' s' : F !! p = Some s → F !! p' = Some s' → p < p' → p + s + gap <= p'
}.

Lemma blocks_weaken lo total gap F : 0 <= gap → blocks_ok lo total gap F → blocks_ok lo total 0 F.
Proof.
  intros ? H. split; try apply H. intros p s p' s' E E' Hlt.
  pose proof (blk_apart _ _ _ _ H p s p' s' E E' Hlt). lia.
Qed.

Lemma blocks_delete lo total gap F p : blocks_ok lo total gap F → blocks_ok lo total gap (delete p F).
Proof.
  intros H. split.
  - intros q t [_ E]%lookup_delete_Some. by apply (blk_range _ _ _ _ H).
  - intros q t [_ E]%lookup_delete_Some. by apply (blk_align _ _ _ _ H).
  - intros q t q' t' [_ E]%lookup_delete_Some [_ E']%lookup_delete_Some. by apply (blk_apart _ _ _ _ H q t q' t').
Qed.

(** [q, q + t) keeps its distance from every block of [F]. *)
Definition apart (gap : Z) (F : gmap Z Z) (q t : Z) : Prop :=
  ∀ p s, F !! p = Some s → p + s + gap <= q ∨ q + t + gap <= p.

Lemma blocks_insert lo total gap F q t :
  blocks_ok lo total gap F → 0 <= gap → 0 < q → lo * PAGE_SIZE <= q → q + t <= total * PAGE_SIZE →
  (PAGE_SIZE | q) → valid_size t → apart gap F q t → blocks_ok lo total gap (<[q := t]> F).
Proof.
  intros H Hg Hq Hlo Hhi Ha Hv Hap. pose proof Hv as [Hv1 _]. split.
  - intros p s [[<- <-]|[_ E]]%lookup_insert_Some; [lia|]. by apply (blk_range _ _ _ _ H).
  - intros p s [[<- <-]|[_ E]]%lookup_insert_Some; [done|]. by apply (blk_align _ _ _ _ H).
  - intros p s p' s' [[<- <-]|[_ E]]%lookup_insert_Some [[<- <-]|[_ E']]%lookup_insert_Some Hlt.
    + lia.
    + destruct (Hap _ _ E') as [|]; [|done]. destruct (blk_align _ _ _ _ H _ _ E') as [_ [? _]]. lia.
    + destruct (Hap _ _ E) as [|]; [done|lia].
    + by apply (blk_apart _ _ _ _ H p s p' s').
Qed.

(** Ranges inside a deleted block stay apart from the others. *)
Lemma apart_sub lo total gap F p s q t :
  blocks_ok lo total gap F → F !! p = Some s → p <= q → q + t <= p + s → apart gap (delete p F) q t.
Proof.
  intros H E ?? p' s' [Hne E']%lookup_delete_Some.
  destruct (decide (p < p')).
  - pose proof (blk_apart _ _ _ _ H p s p' s' E E'). lia.
  - pose proof (blk_apart _ _ _ _ H p' s' p s E' E). lia.
Qed.

Lemma apart_insert gap F q t q' t' :
  apart gap F q t → q' + t' + gap <= q ∨ q + t + gap <= q' → apart gap (<[q' := t']> F) q t.
Proof. intros H ? p s [[<- <-]|[_ E]]%lookup_insert_Some; [lia|]. by apply H. Qed.

Lemma covered_insert F q t x :
  F !! q = None → covered (<[q := t]> F) x ↔ q <= x * PAGE_SIZE < q + t ∨ covered F x.
Proof.
  intros En. split.
  - intros (p&s&[[<- <-]|[_ E]]%lookup_insert_Some&?); [by left|right]. by exists p, s.
  - intros [?|(p&s&E&?)]; [exists q, t; by rewrite lookup_insert_eq|]. exists p, s.
    rewrite lookup_insert_ne; [done|]. intros <-. by rewrite E in En.
Qed.

Lemma covered_delete lo total gap F p s x :
  blocks_ok lo total gap F → 0 <= gap → F !! p = Some s →
  covered (delete p F) x ↔ covered F x ∧ ¬ (p <= x * PAGE_SIZE < p + s).
Proof.
  intros H Hg E. split.
  - intros (q&t&[Hne E']%lookup_delete_Some&?). split; [by exists q, t|].
    destruct (decide (p < q)).
    + pose proof (blk_apart _ _ _ _ H p s q t E E'). lia.
    + pose proof (blk_apart _ _ _ _ H q t p s E' E). lia.
  - intros [(q&t&E'&?) Hn]. exists q, t. rewrite lookup_delete_ne; [done|]. intros <-.
    rewrite E in E'. injection E' as <-. lia.
Qed.

Lemma blocks_none lo total gap F p q t :
  blocks_ok lo total gap F → apart gap F q t → 0 <= gap → 0 < t → p = q → F !! p = None.
Proof.
  intros H Ha Hg Ht ->. destruct (F !! q) as [s|] eqn:E; [|done].
  destruct (blk_align _ _ _ _ H q s E) as [_ [? _]]. destruct (Ha q s E); lia.
Qed.

Lemma valid_size_sub s g : valid_size s → (PAGE_SIZE | g) → 0 < s - g → 0 <= g → valid_size (s - g).
Proof. intros [? ?] ?. split; [lia|]. by apply Z.divide_sub_r. Qed.

(** Two page multiples that differ do so by a page. *)
Lemma page_gap a b : (PAGE_SIZE | a) → (PAGE_SIZE | b) → a < b → a + PAGE_SIZE <= b.
Proof. unfold PAGE_SIZE. intros [x ->] [y ->] ?. lia. Qed.

(** * The page bitmap *)

Lemma set_pages_ok (f : list Z → Z → result (list Z)) (v : bool) total n pfn map (len : nat) :
  (∀ m i, bytes m → List.length m = len → 0 <= i →
     ∃ m', f m i = Ok m' ∧ List.length m' = List.length m ∧ bytes m' ∧
       ∀ j, 0 <= j → bit m' j = if (j =? i) && (j <? total) then v else bit m j) →
  bytes map → List.length map = len → 0 <= pfn →
  ∃ map', set_pages f n pfn map = Ok map' ∧ List.length map' = List.length map ∧ bytes map' ∧
    ∀ j, 0 <= j → bit map' j =
      if (pfn <=? j) && (j <? pfn + Z.of_nat n) && (j <? total) then v else bit map j.
Proof.
  intros Hf. revert pfn map. induction n as [|n IH]; intros pfn m0 Hm Hlen Hp.
  { exists m0. split_and!; try done. intros j ?. repeat case_z; simpl; done || lia. }
  cbn [set_pages]. destruct (Hf m0 pfn Hm Hlen Hp) as (m1&->&Hl1&Hm1&Hb1). cbn [mbind result_bind].
  destruct (IH (pfn + 1) m1) as (m2&->&Hl2&Hm2&Hb2); [done|congruence|lia|].
  exists m2. split_and!; [done|congruence|done|]. intros j ?. rewrite Hb2, Hb1 by done.
  repeat case_z; simpl; done || lia.
Qed.

Lemma page_set_free_ok z m i :
  bytes m → 0 <= i → total_pages z <= 8 * Z.of_nat (List.length m) →
  ∃ m', pma_page_set_free z m i = Ok m' ∧ List.length m' = List.length m ∧ bytes m' ∧
    ∀ j, 0 <= j → bit m' j = if (j =? i) && (j <? total_pages z) then false else bit m j.
Proof.
  intros Hm Hi Ht. unfold pma_page_set_free. rewrite Z.geb_leb. case_z.
  - exists m. split_and!; try done. intros j ?. repeat case_z; simpl; done || lia.
  - destruct (BITMAP_CLEAR_ok m i) as (m'&->&?&?&Hb); [unfold bit_in; lia|done|].
    exists m'. split_and!; try done. intros j ?. rewrite Hb by done. repeat case_z; simpl; done || lia.
Qed.

Lemma page_set_used_ok z m i :
  bytes m → 0 <= i → total_pages z <= 8 * Z.of_nat (List.length m) →
  ∃ m', pma_page_set_used z m i = Ok m' ∧ List.length m' = List.length m ∧ bytes m' ∧
    ∀ j, 0 <= j → bit m' j = if (j =? i) && (j <? total_pages z) then true else bit m j.
Proof.
  intros Hm Hi Ht. unfold pma_page_set_used. rewrite Z.geb_leb. case_z.
  - exists m. split_and!; try done. intros j ?. repeat case_z; simpl; done || lia.
  - destruct (BITMAP_SET_ok m i) as (m'&->&?&?&Hb); [unfold bit_in; lia|done|].
    exists m'. split_and!; try done. intros j ?. rewrite Hb by done. repeat case_z; simpl; done || lia.
Qed.

Lemma page_is_free_ok z m i :
  0 <= i → total_pages z <= 8 * Z.of_nat (List.length m) →
  pma_page_is_free z m i = Ok ((i <? total_pages z) && negb (bit m i)).
Proof.
  intros Hi Ht. unfold pma_page_is_free. rewrite Z.geb_leb.
  case_z; case_z; try lia; cbn [andb]; [|done].
  rewrite BITMAP_TEST_ok by (unfold bit_in; lia). by destruct (bit m i).
Qed.

(** * The zone invariant *)

Record zone_inv (lo gap : Z) (z : pma_zone) (hs : blocks_mem) (map : list Z) (F : gmap Z Z) : Prop := {
  zi_tlsf : tlsf z hs F;
  zi_blocks : blocks_ok lo (total_pages z) gap F;
  zi_total : 0 <= lo ∧ 0 <= total_pages z < 2 ^ 36;
  zi_bytes : bytes map;
  zi_len : total_pages z <= 8 * Z.of_nat (List.length map);
  zi_bits x : lo <= x < total_pages z → bit map x = false ↔ covered F x
}.

(** The headers of a zone: its sentinel and those inside its pages. *)
Definition zone_key (z : pma_zone) (lo : Z) (q : bptr) : Prop :=
  q = Sentinel (zid z) ∨ ∃ x, q = Blk x ∧ lo * PAGE_SIZE <= x < total_pages z * PAGE_SIZE.

Lemma owned_key z z' lo gap F q :
  same_zone z z' → blocks_ok lo (total_pages z) gap F → owned z' F q → zone_key z lo q.
Proof.
  intros (E&_&_) H [->|(p&->&s&EF)]; [left; by rewrite E|right].
  pose proof (blk_range _ _ _ _ H p s EF). destruct (blk_align _ _ _ _ H p s EF) as [_ [? _]].
  exists p. split; [done|]. lia.
Qed.

Lemma zone_key_same z z' lo q : same_zone z z' → zone_key z' lo q → zone_key z lo q.
Proof. intros (E1&_&E2). unfold zone_key. by rewrite E1, E2. Qed.

Lemma same_zone_refl z : same_zone z z.
Proof. done. Qed.

Lemma same_zone_trans z1 z2 z3 : same_zone z1 z2 → same_zone z2 z3 → same_zone z1 z3.
Proof. intros (?&?&?) (?&?&?). repeat split; congruence. Qed.

Lemma new_header_ok z hs b v : 0 <= b → b + PAGE_SIZE <= total_pages z * PAGE_SIZE →
  new_header z (Blk b) v hs = Ok (<[Blk b := mkBlock (prev (header_at hs (Blk b))) (next (header_at hs (Blk b))) v]> hs).
Proof. intros. unfold new_header, PMA_BLOCK_HEADER_SIZE. unfold PAGE_SIZE in *. by rewrite !(proj2 (Z.leb_le _ _)) by lia. Qed.

Lemma block_split_ok z hs b s g h :
  hs !! Blk b = Some h → size h = Z.lor s 1 → valid_size s → valid_size g → valid_size (s - g) →
  0 < b → b + s < 2 ^ 64 → b + s <= total_pages z * PAGE_SIZE →
  ∃ hs' h1 h2, block_split z (Blk b) g hs = Ok (Blk (b + g), hs') ∧
    hs' !! Blk b = Some h1 ∧ size h1 = Z.lor g 1 ∧
    hs' !! Blk (b + g) = Some h2 ∧ size h2 = Z.lor (s - g) 1 ∧
    frame (λ q, q = Blk b ∨ q = Blk (b + g)) hs hs'.
Proof.
  intros Eh Es Hs Hg Hr ???. pose proof Hs as [? _]. pose proof Hg as [? _]. pose proof Hr as [? Hdr].
  unfold block_split, block_phys, block_from_phys, load, block_size.
  cbn [mbind result_bind]. rewrite Eh. cbn [of_option mbind result_bind]. rewrite Es, valid_size_lor by done.
  rewrite !u64_id by lia. rewrite new_header_ok by (apply Z.divide_pos_le in Hdr; lia). cbn [mbind result_bind]. unfold block_set_size, load.
  rewrite lookup_insert_ne by (intros [= ?]; lia). rewrite Eh. cbn [of_option mbind result_bind].
  unfold set_size. rewrite (store_ok (Blk b) _ _ h) by (done || by rewrite lookup_insert_ne by (intros [= ?]; lia)). rewrite Es. cbn [mbind result_bind].
  assert (Z.land (Z.lor s 1) 1 = 1) as ->.
  { apply Z.bits_inj'. intros i ?. rewrite Z.land_spec, Z.lor_spec.
    destruct (Z.testbit 1 i); [by rewrite orb_true_r|by rewrite andb_false_r]. }
  eexists _, _, _. split; [reflexivity|]. rewrite lookup_insert_eq. split; [reflexivity|]. split; [done|].
  rewrite lookup_insert_ne by (intros [= ?]; lia). rewrite lookup_insert_eq. split; [reflexivity|]. split; [done|].
  intros q Hq. rewrite !lookup_insert_ne by (intros <-; tauto). done.
Qed.

(** The aligned address inside a block. *)
Lemma align_phys p k : 0 <= p < 2 ^ 48 → 0 <= k <= 48 →
  Z.land (u64 (p + 2 ^ k - 1)) (not64 (2 ^ k - 1)) = round_up p (2 ^ k) ∧
  u64 (round_up p (2 ^ k) - p) = round_up p (2 ^ k) - p.
Proof.
  intros Hp Hk. pose proof (Z.pow_le_mono_r 2 k 48 ltac:(lia) ltac:(lia)).
  assert (0 < 2 ^ k) by (apply Z.pow_pos_nonneg; lia).
  pose proof (round_up_spec p (2 ^ k) ltac:(lia)) as [? _].
  rewrite (u64_id (p + 2 ^ k - 1)), land_mask, u64_id by lia. done.
Qed.

(** Blocks with a put-aside block [p, p + s) still in their place. *)
Lemma alloc_head_ok z hs F p s r h :
  tlsf z hs F → hs !! Blk p = Some h → size h = Z.lor s 1 → valid_size s →
  0 < p → p + s < 2 ^ 64 → p + s <= total_pages z * PAGE_SIZE → (PAGE_SIZE | p) → (PAGE_SIZE | r) → p <= r < p + s → F !! p = None →
  (∀ q t, F !! q = Some t → q ≠ r) →
  ∃ z' hs' h', alloc_head z (Blk p) (r - p) hs = Ok (Some (Blk r), z', hs') ∧
    tlsf z' hs' (if decide (p < r) then <[p := r - p]> F else F) ∧ same_zone z z' ∧
    hs' !! Blk r = Some h' ∧ size h' = Z.lor (p + s - r) 1 ∧
    frame (λ q, q = Blk p ∨ q = Blk r ∨ owned z F q) hs hs'.
Proof.
  intros Ht Eh Es Hs Hp Hps Htot Hap Har Hr En Hnr. unfold alloc_head, PMA_BLOCK_HEADER_SIZE. rewrite Z.geb_leb, Z.gtb_ltb.
  destruct (decide (p < r)) as [Hlt|Hge].
  - assert (p + PAGE_SIZE <= r) by (by apply page_gap). unfold PAGE_SIZE in *.
    rewrite (proj2 (Z.leb_le 24 (r - p))) by lia.
    assert (valid_size (r - p)) as Hg.
    { destruct Hs as [? Hd]. split; [lia|]. unfold PAGE_SIZE in *. by apply Z.divide_sub_r. }
    assert (valid_size (s - (r - p))) as Hrest by (apply valid_size_sub; [done|apply Hg|lia|lia]).
    destruct (block_split_ok z hs p s (r - p) h) as (hs1&h1&h2&->&E1&Es1&E2&Es2&F1); try done.
    replace (p + (r - p)) with r in * by lia. cbn [mbind result_bind].
    assert (tlsf z hs1 F) as Ht1.
    { eapply tlsf_frame; [exact Ht|]. intros q [t Eq]. apply F1. intros [[= ->]|[= ->]].
      - by rewrite En in Eq.
      - by apply (Hnr r t Eq). }
    destruct (tlsf_insert_ok z hs1 F p (r - p) h1 Ht1 En Hg E1 Es1) as (z2&hs2&->&Ht2&Hz&F2).
    cbn [mbind result_bind].
    assert (hs2 !! Blk r = hs1 !! Blk r) as E3.
    { apply F2. intros [|(q&[= <-]&t&Eq)]; [done|]. apply lookup_insert_Some in Eq as [[]|[_ Eq]]; [lia|].
      by apply (Hnr r t Eq). }
    eexists z2, hs2, h2. rewrite E3. split_and!; try done; [by replace (p + s - r) with (s - (r - p)) by lia|].
    intros q Hq. rewrite F2, F1; [done|tauto|]. intros [->|(a&->&t&Eq)]; [apply Hq; right; right; by left|].
    apply lookup_insert_Some in Eq as [[-> _]|[_ Eq]]; [tauto|]. apply Hq. right. right. right. eauto.
  - assert (r = p) as -> by lia. rewrite Z.sub_diag. simpl. exists z, hs, h.
    split_and!; try done. by replace (p + s - p) with s by lia.
Qed.

Lemma alloc_tail_ok z hs F r t sz h :
  tlsf z hs F → hs !! Blk r = Some h → size h = Z.lor t 1 → valid_size t →
  0 < r → r + t < 2 ^ 63 → r + t <= total_pages z * PAGE_SIZE → valid_size sz → F !! r = None → (sz < t → F !! (r + sz) = None) →
  ∃ z' hs', alloc_tail z (Blk r) sz hs = Ok (bool_decide (sz <= t), z', hs') ∧
    tlsf z' hs' (if decide (t < sz) then <[r := t]> F
                 else if decide (sz < t) then <[r + sz := t - sz]> F else F) ∧
    same_zone z z' ∧ (∃ h', hs' !! Blk r = Some h') ∧
    frame (λ q, q = Blk r ∨ (sz < t ∧ q = Blk (r + sz)) ∨ owned z F q) hs hs'.
Proof.
  intros Ht Eh Es Hv Hr Hrt Htot Hsz En En2. unfold alloc_tail, load, block_size, PMA_BLOCK_HEADER_SIZE.
  rewrite Eh. cbn [of_option mbind result_bind]. rewrite Es, valid_size_lor, Z.gtb_ltb by done.
  pose proof Hsz as [? Hd]. pose proof Hv as [? Hdt]. rewrite u64_id by lia.
  destruct (decide (sz < t)) as [Hlt|Hge].
  - specialize (En2 Hlt). pose proof (page_gap sz t Hd Hdt Hlt) as Hpg. unfold PAGE_SIZE in Hpg.
    rewrite (proj2 (Z.ltb_lt (sz + 24) t)), bool_decide_true, decide_False by lia.
    assert (valid_size (t - sz)) as Hrest by (apply valid_size_sub; [done|done|lia|lia]).
    destruct (block_split_ok z hs r t sz h) as (hs1&h1&h2&->&E1&Es1&E2&Es2&F1); try done; [lia|].
    cbn [mbind result_bind].
    assert (tlsf z hs1 F) as Ht1.
    { eapply tlsf_frame; [exact Ht|]. intros q [u Eq]. apply F1. intros [[= ->]|[= ->]]; by rewrite Eq in *. }
    destruct (tlsf_insert_ok z hs1 F (r + sz) (t - sz) h2 Ht1 En2 Hrest E2 Es2) as (z2&hs2&->&Ht2&Hz&F2).
    cbn [mbind result_bind].
    assert (hs2 !! Blk r = hs1 !! Blk r) as E3.
    { apply F2. intros [|(q&[= <-]&u&Eq)]; [done|]. apply lookup_insert_Some in Eq as [[]|[_ Eq]]; [lia|].
      by rewrite Eq in En. }
    exists z2, hs2. split_and!; try done; [by exists h1; rewrite E3|].
    intros q Hq. rewrite F2, F1; [done|tauto|]. intros [->|(a&->&u&Eq)]; [apply Hq; right; right; by left|].
    apply lookup_insert_Some in Eq as [[<- _]|[_ Eq]]; [tauto|]. apply Hq. right. right. right. eauto.
  - rewrite (proj2 (Z.ltb_ge (sz + 24) t)) by lia. destruct (decide (t < sz)) as [Hlt|Hge2].
    + rewrite (proj2 (Z.ltb_lt t sz)), bool_decide_false by lia.
      destruct (tlsf_insert_ok z hs F r t h Ht En Hv Eh Es) as (z2&hs2&->&Ht2&Hz&F2).
      cbn [mbind result_bind]. exists z2, hs2. split_and!; try done.
      * destruct (tlsf_header z2 hs2 _ r t Ht2) as (h'&?&_); [by rewrite lookup_insert_eq|eauto].
      * eapply frame_weaken; [exact F2|]. intros q [->|(a&->&u&Eq)]; [right; right; by left|].
        apply lookup_insert_Some in Eq as [[-> _]|[_ Eq]]; [by left|right; right; right; eauto].
    + rewrite (proj2 (Z.ltb_ge t sz)), bool_decide_true by lia. exists z, hs. split_and!; try done. eauto.
Qed.

(** A block whose class is at least a request's is at most 1/32 or a page
    smaller than the request. *)
Lemma size_class_slack a b :
  0 < a → 0 < b → size_class a <= size_class b → 31 * a <= 32 * b + 32 * PAGE_SIZE - 32 ∧
  (2 ^ 17 <= a → 31 * a <= 32 * b).
Proof.
  intros Ha Hb Hc. destruct (decide (a < 2 ^ 17)) as [Hs|Hl].
  - split; [|lia]. destruct (decide (b < 2 ^ 17)); [|unfold PAGE_SIZE; lia].
    unfold size_class, PMA_SL_INDEX_COUNT in Hc. rewrite !mapping_small in Hc by done.
    pose proof (Z.div_mod a (2 ^ 12) ltac:(lia)). pose proof (Z.mod_pos_bound a (2 ^ 12) ltac:(lia)).
    pose proof (Z.div_mod b (2 ^ 12) ltac:(lia)). pose proof (Z.mod_pos_bound b (2 ^ 12) ltac:(lia)).
    unfold PAGE_SIZE. lia.
  - cut (31 * a <= 32 * b); [unfold PAGE_SIZE; lia|].
    unfold size_class, PMA_SL_INDEX_COUNT in Hc. rewrite (mapping_large a) in Hc by lia.
    pose proof (top_bits a ltac:(lia)). assert (17 <= Z.log2 a) by (apply Z.log2_le_pow2; lia).
    destruct (decide (b < 2 ^ 17)).
    { rewrite mapping_small in Hc by done.
      pose proof (Z.div_lt_upper_bound b (2 ^ 12) 32 ltac:(lia) ltac:(lia)). lia. }
    rewrite mapping_large in Hc by lia. pose proof (top_bits b ltac:(lia)).
    set (q := 2 ^ (Z.log2 a - 5)) in *. assert (0 < q) by (apply Z.pow_pos_nonneg; lia).
    pose proof (Z.div_mod a q ltac:(lia)). pose proof (Z.mod_pos_bound a q ltac:(lia)).
    assert (q * (a / q) <= b); [|nia].
    destruct (decide (Z.log2 a = Z.log2 b)) as [E|Hne].
    + rewrite <- E in Hc. fold q in Hc. pose proof (Z.mul_div_le b q ltac:(lia)). nia.
    + assert (Z.log2 a < Z.log2 b) by nia.
      destruct (decide (a <= b)); [lia|]. pose proof (Z.log2_le_mono b a ltac:(lia)). lia.
Qed.

(** The free blocks after [r, r + sz) is cut out of the block [p, p + s). *)
Definition carve (F : gmap Z Z) (p s r sz : Z) : gmap Z Z :=
  let F := delete p F in
  let F := if decide (p < r) then <[p := r - p]> F else F in
  if decide (sz < p + s - r) then <[r + sz := p + s - r - sz]> F else F.

(** The free blocks after the block [p, p + s) is cut in two at [r]. *)
Definition cut (F : gmap Z Z) (p s r : Z) : gmap Z Z :=
  let F := delete p F in
  let F := if decide (p < r) then <[p := r - p]> F else F in
  <[r := p + s - r]> F.

Lemma cut_same F p s : F !! p = Some s → cut F p s p = F.
Proof.
  intros E. unfold cut. rewrite decide_False by lia. replace (p + s - p) with s by lia.
  by rewrite insert_delete_eq, insert_id.
Qed.

Lemma inside_none lo total gap F p s q :
  blocks_ok lo total gap F → F !! p = Some s → 0 <= gap → p <= q < p + s → delete p F !! q = None.
Proof.
  intros H E Hg Hq. destruct (delete p F !! q) as [t|] eqn:E'; [|done].
  apply lookup_delete_Some in E' as [Hne E'].
  destruct (blk_align _ _ _ _ H q t E') as [_ [? _]].
  pose proof (blk_apart _ _ _ _ H p s q t E E' ltac:(lia)). lia.
Qed.

Lemma head_piece lo total gap F p s r :
  blocks_ok lo total gap F → F !! p = Some s → 0 <= gap → (PAGE_SIZE | r) → p <= r < p + s →
  let F1 := if decide (p < r) then <[p := r - p]> (delete p F) else delete p F in
  blocks_ok lo total gap F1 ∧
  (∀ x, covered F1 x ↔ covered F x ∧ ¬ (r <= x * PAGE_SIZE < p + s)) ∧
  (∀ q, r <= q < p + s → F1 !! q = None) ∧
  (∀ q t, r + gap <= q → q + t <= p + s → apart gap F1 q t).
Proof.
  intros H E Hg Har Hr F1. pose proof (blk_range _ _ _ _ H p s E). destruct (blk_align _ _ _ _ H p s E) as [Hap Hs].
  pose proof (covered_delete lo total gap F p s) as Hcd. subst F1. case_decide as Hlt.
  - assert (valid_size (r - p)) by (destruct Hs as [? ?]; split; [lia|by apply Z.divide_sub_r]).
    split; [|split; [|split]].
    + apply blocks_insert; try done; try lia; [by apply blocks_delete|]. eapply apart_sub; [done|done|lia|lia].
    + intros x. rewrite covered_insert by (by apply lookup_delete_eq). rewrite Hcd by done. split.
      * intros [?|[? ?]]; [|split; [done|lia]]. split; [exists p, s; split; [done|lia]|lia].
      * intros [? ?]. destruct (decide (p <= x * PAGE_SIZE < r)); [left; lia|right]. split; [done|lia].
    + intros q ?. rewrite lookup_insert_ne by lia. eapply inside_none; [done|done|lia|lia].
    + intros q t ??. apply apart_insert; [|lia]. eapply apart_sub; [done|done|lia|lia].
  - assert (r = p) as -> by lia. split; [by apply blocks_delete|]. split; [by intros; apply Hcd|].
    split; [|intros q t ??; eapply apart_sub; [done|done|lia|lia]].
    intros q ?. eapply inside_none; [done|done|lia|lia].
Qed.

Lemma carve_ok lo total gap F p s r sz :
  blocks_ok lo total gap F → F !! p = Some s → 0 <= gap <= 1 → (PAGE_SIZE | r) → p <= r → valid_size sz →
  r + sz <= p + s →
  blocks_ok lo total gap (carve F p s r sz) ∧
  ∀ x, covered (carve F p s r sz) x ↔ covered F x ∧ ¬ (r <= x * PAGE_SIZE < r + sz).
Proof.
  intros H E Hg Har Hpr Hsz Hr. pose proof Hsz as [? ?].
  pose proof (blk_range _ _ _ _ H p s E). destruct (blk_align _ _ _ _ H p s E) as [Hap Hs].
  destruct (head_piece lo total gap F p s r H E ltac:(lia) Har ltac:(lia)) as (Hb&Hc&Hn&Hap1).
  unfold carve. cbn zeta. set (F1 := if decide (p < r) then _ else _) in *. case_decide.
  - assert (valid_size (p + s - r - sz)) as Hv.
    { replace (p + s - r - sz) with (s - (r - p + sz)) by lia. apply valid_size_sub; [done| |lia|lia].
      apply Z.divide_add_r; [by apply Z.divide_sub_r|done]. }
    split.
    + apply blocks_insert; try done; try lia; [by apply Z.divide_add_r|]. apply Hap1; lia.
    + intros x. rewrite covered_insert by (apply Hn; lia). rewrite Hc. split.
      * intros [?|[? ?]]; [|split; [done|lia]]. split; [exists p, s; split; [done|lia]|lia].
      * intros [? ?]. destruct (decide (r + sz <= x * PAGE_SIZE < p + s)); [left; lia|right]. split; [done|lia].
  - split; [done|]. intros x. rewrite Hc. by replace (r + sz) with (p + s) by lia.
Qed.

Lemma cut_ok lo total gap F p s r :
  blocks_ok lo total gap F → F !! p = Some s → 0 <= gap → (PAGE_SIZE | r) → p <= r < p + s →
  blocks_ok lo total 0 (cut F p s r) ∧ ∀ x, covered (cut F p s r) x ↔ covered F x.
Proof.
  intros H E Hg Har Hr. apply blocks_weaken in H; [|done].
  pose proof (blk_range _ _ _ _ H p s E). destruct (blk_align _ _ _ _ H p s E) as [Hap Hs].
  destruct (head_piece lo total 0 F p s r H E ltac:(lia) Har ltac:(lia)) as (Hb&Hc&Hn&Hap1).
  unfold cut. cbn zeta. set (F1 := if decide (p < r) then _ else _) in *.
  assert (valid_size (p + s - r)).
  { replace (p + s - r) with (s - (r - p)) by lia. apply valid_size_sub; [done|by apply Z.divide_sub_r|lia|lia]. }
  split.
  - apply blocks_insert; try done; try lia. apply Hap1; lia.
  - intros x. rewrite covered_insert by (apply Hn; lia). rewrite Hc. split.
    + intros [?|[? ?]]; [|done]. exists p, s. split; [done|lia].
    + intros ?. destruct (decide (r <= x * PAGE_SIZE < p + s)); [left; lia|by right].
Qed.

(** * Allocation from a zone *)

(** The size the allocator searches for. *)
Definition search_size (size align : Z) : Z :=
  if align >? PAGE_SIZE then size + (align - PAGE_SIZE) else size.

(** The outcome of an allocation of [sz] bytes at alignment [2^k]. *)
Inductive alloc_outcome (lo gap : Z) (F : gmap Z Z) (map : list Z) (sz k : Z)
    : Z → pma_zone → blocks_mem → list Z → Prop :=
| alloc_success p s r z' hs' map' :
    F !! p = Some s → p <= r → r + sz <= p + s → (2 ^ k | r) → 0 < r →
    zone_inv lo gap z' hs' map' (carve F p s r sz) →
    (∀ x, 0 <= x → bit map' x =
       if (r <=? x * PAGE_SIZE) && (x * PAGE_SIZE <? r + sz) then true else bit map x) →
    alloc_outcome lo gap F map sz k r z' hs' map'
| alloc_none z' hs' :
    zone_inv lo gap z' hs' map F →
    (∀ p s, F !! p = Some s → size_class s < size_class (search_size sz (2 ^ k))) →
    alloc_outcome lo gap F map sz k 0 z' hs' map
| alloc_too_small p s z' hs' :
    F !! p = Some s → size_class s = size_class (search_size sz (2 ^ k)) →
    round_up p (2 ^ k) < p + s < round_up p (2 ^ k) + sz →
    zone_inv lo (if k =? 12 then gap else 0) z' hs' map (cut F p s (round_up p (2 ^ k))) →
    alloc_outcome lo gap F map sz k 0 z' hs' map.

(** The bits after a carve still mirror the free blocks. *)
Lemma carve_bits lo total gap F map map' p s r sz :
  blocks_ok lo total gap F → F !! p = Some s → 0 <= gap <= 1 → (PAGE_SIZE | r) → p <= r → valid_size sz →
  r + sz <= p + s → 0 <= lo →
  (∀ x, lo <= x < total → bit map x = false ↔ covered F x) →
  (∀ x, 0 <= x → bit map' x =
     if (r <=? x * PAGE_SIZE) && (x * PAGE_SIZE <? r + sz) then true else bit map x) →
  ∀ x, lo <= x < total → bit map' x = false ↔ covered (carve F p s r sz) x.
Proof.
  intros H E Hg Har Hpr Hsz Hr Hlo Hb Hb' x Hx.
  destruct (carve_ok lo total gap F p s r sz H E Hg Har Hpr Hsz Hr) as [_ ->].
  rewrite Hb' by lia. repeat case_z; simpl; rewrite ?Hb by done; intuition (done || lia).
Qed.

Lemma set_used_range z map r sz :
  bytes map → total_pages z <= 8 * Z.of_nat (List.length map) → 0 <= r → (PAGE_SIZE | r) → (PAGE_SIZE | sz) →
  0 <= sz → r + sz <= total_pages z * PAGE_SIZE →
  ∃ map', set_pages (pma_page_set_used z) (Z.to_nat (sz / PAGE_SIZE)) (r / PAGE_SIZE) map = Ok map' ∧
    List.length map' = List.length map ∧ bytes map' ∧
    ∀ x, 0 <= x → bit map' x =
      if (r <=? x * PAGE_SIZE) && (x * PAGE_SIZE <? r + sz) then true else bit map x.
Proof.
  intros Hm Ht Hr [a ->] [b ->] Hsz Hhi. unfold PAGE_SIZE in *. rewrite !Z.div_mul by lia.
  destruct (set_pages_ok (pma_page_set_used z) true (total_pages z) (Z.to_nat b) a map (List.length map))
    as (map'&?&?&?&Hb); [|done|done|lia|].
  { intros m i ? E ?. apply page_set_used_ok; [done|done|by rewrite E]. }
  exists map'. split_and!; try done. intros x ?. rewrite Hb by done.
  repeat case_z; simpl; done || lia.
Qed.

Lemma size_rounding size :
  0 < size <= 2 ^ 47 →
  Z.land (u64 (size + (PAGE_SIZE - 1))) (not64 (PAGE_SIZE - 1)) = round_up size PAGE_SIZE ∧
  valid_size (round_up size PAGE_SIZE) ∧ size <= round_up size PAGE_SIZE < size + PAGE_SIZE.
Proof.
  intros. unfold PAGE_SIZE. pose proof (round_up_spec size 4096 ltac:(lia)) as [? ?].
  change (4096 - 1) with (2 ^ 12 - 1). rewrite u64_id, land_mask by lia.
  split; [|split; [split; [lia|done]|done]]. change (2 ^ 12) with 4096. unfold round_up. do 2 f_equal. lia.
Qed.

Lemma search_fits p s sz k :
  0 <= p → (PAGE_SIZE | p) → 0 < s → 12 <= k <= 40 → (k = 12 ∨ 2 ^ k <= sz) → 0 < sz →
  size_class (search_size sz (2 ^ k)) <= size_class s →
  p <= round_up p (2 ^ k) < p + s ∧ round_up p (2 ^ k) - p <= 2 ^ k - PAGE_SIZE ∧ (2 ^ k | round_up p (2 ^ k)) ∧
  (PAGE_SIZE | round_up p (2 ^ k)).
Proof.
  intros Hp Hap Hs Hk Hor Hsz Hc.
  assert (0 < 2 ^ k) by (apply Z.pow_pos_nonneg; lia).
  pose proof (round_up_spec p (2 ^ k) ltac:(lia)) as [Hr Hd].
  assert (PAGE_SIZE | 2 ^ k) as Hpk.
  { exists (2 ^ (k - 12)). unfold PAGE_SIZE. change 4096 with (2 ^ 12). rewrite <- Z.pow_add_r by lia. f_equal. lia. }
  assert (PAGE_SIZE | round_up p (2 ^ k)) as Hdp by (by etrans).
  assert (round_up p (2 ^ k) - p <= 2 ^ k - PAGE_SIZE) as Hgap.
  { pose proof (page_gap (round_up p (2 ^ k)) (p + 2 ^ k) Hdp ltac:(by apply Z.divide_add_r) ltac:(lia)). lia. }
  split; [|done]. split; [lia|]. unfold search_size, PAGE_SIZE in *. rewrite Z.gtb_ltb in Hc.
  destruct Hor as [->|Hor]; [change (2 ^ 12) with 4096 in *; lia|].
  destruct (decide (k = 12)) as [->|]; [change (2 ^ 12) with 4096 in *; lia|].
  assert (2 ^ 13 <= 2 ^ k) by (apply Z.pow_le_mono_r; lia).
  rewrite (proj2 (Z.ltb_lt 4096 (2 ^ k))) in Hc by lia.
  pose proof (size_class_slack (sz + (2 ^ k - 4096)) s ltac:(lia) ltac:(lia) Hc) as [? ?].
  unfold PAGE_SIZE in *. lia.
Qed.

(** Head and tail of the allocation from a block that was taken off its list. *)
Lemma alloc_pieces lo gap z hs F p s r sz h :
  tlsf z hs (delete p F) → blocks_ok lo (total_pages z) gap F → F !! p = Some s → 0 <= gap <= 1 →
  hs !! Blk p = Some h → size h = Z.lor s 1 → total_pages z < 2 ^ 36 →
  (PAGE_SIZE | r) → p <= r < p + s → valid_size sz →
  ∃ z2 hs2 z3 hs3 h3, alloc_head z (Blk p) (r - p) hs = Ok (Some (Blk r), z2, hs2) ∧
    alloc_tail z2 (Blk r) sz hs2 = Ok (bool_decide (r + sz <= p + s), z3, hs3) ∧
    tlsf z3 hs3 (if decide (r + sz <= p + s) then carve F p s r sz else cut F p s r) ∧
    same_zone z z3 ∧ hs3 !! Blk r = Some h3 ∧ frame (zone_key z lo) hs hs3.
Proof.
  intros Ht Hb EF Hg Eh Es Htot Hdr Hr Hsz. pose proof (blk_range _ _ _ _ Hb p s EF) as (?&?&?).
  destruct (blk_align _ _ _ _ Hb p s EF) as [Hap Hs]. pose proof Hs as [? Hds]. pose proof Hsz as [? _].
  assert (total_pages z * PAGE_SIZE < 2 ^ 48) by (unfold PAGE_SIZE; lia).
  destruct (alloc_head_ok z hs (delete p F) p s r h) as (z2&hs2&h2&Ehead&Ht2&Hz2&E2&Es2&F2); try done; try lia.
  { apply lookup_delete_eq. }
  { intros q t Eq ->. by rewrite (inside_none lo _ gap F p s r Hb EF) in Eq by lia. }
  destruct (head_piece lo (total_pages z) gap F p s r Hb EF ltac:(lia) Hdr Hr) as (Hb2&_&Hn2&_).
  set (G := if decide (p < r) then _ else _) in *.
  assert (valid_size (p + s - r)) as Hv.
  { replace (p + s - r) with (s - (r - p)) by lia. apply valid_size_sub; [done|by apply Z.divide_sub_r|lia|lia]. }
  destruct (alloc_tail_ok z2 hs2 G r (p + s - r) sz h2) as (z3&hs3&Etail&Ht3&Hz3&[h3 E3]&F3); try done; try lia.
  { destruct Hz2 as (_&_&->). lia. }
  { apply Hn2. lia. }
  { intros ?. apply Hn2. lia. }
  exists z2, hs2, z3, hs3, h3. split_and!; [done| | |by eapply same_zone_trans|done|].
  - rewrite Etail. do 3 f_equal. apply bool_decide_ext. lia.
  - revert Ht3. unfold carve, cut. cbn zeta. fold G. repeat case_decide; try lia; done.
  - eapply frame_trans.
    + eapply frame_weaken; [exact F2|]. intros q [->|[->|Hq]]; [right; exists p; split; [done|lia]|right; exists r; split; [done|lia]|].
      eapply owned_key; [apply same_zone_refl|by apply (blocks_delete lo (total_pages z) gap F p)|done].
    + eapply frame_weaken; [exact F3|]. intros q [->|[[? ->]|Hq]]; [right; eexists; split; [done|lia]..|].
      by eapply owned_key.
Qed.

(** Marking the carved range used restores the zone invariant. *)
Lemma mark_used_ok lo gap z z' hs hs' map F p s r sz h :
  zone_inv lo gap z hs map F → 0 <= gap <= 1 → F !! p = Some s → (PAGE_SIZE | r) → p <= r → valid_size sz →
  r + sz <= p + s → same_zone z z' → tlsf z' hs' (carve F p s r sz) → hs' !! Blk r = Some h →
  ∃ hs2 map', block_mark_used (Blk r) hs' = Ok hs2 ∧
    set_pages (pma_page_set_used z') (Z.to_nat (sz / PAGE_SIZE)) (r / PAGE_SIZE) map = Ok map' ∧
    frame (λ q, q = Blk r) hs' hs2 ∧ zone_inv lo gap z' hs2 map' (carve F p s r sz) ∧
    List.length map' = List.length map ∧
    ∀ x, 0 <= x → bit map' x =
      if (r <=? x * PAGE_SIZE) && (x * PAGE_SIZE <? r + sz) then true else bit map x.
Proof.
  intros H Hg EF Hdr Hpr Hv Hfit Hz Ht E3. pose proof Hz as (_&_&Et). pose proof Hv as [Hsz Hds].
  pose proof (zi_blocks _ _ _ _ _ _ H) as Hb. pose proof (zi_total _ _ _ _ _ _ H) as [Hlo Htot].
  pose proof (blk_range _ _ _ _ Hb p s EF) as (?&?&?).
  destruct (set_used_range z' map r sz) as (map'&Emap&Hlen&Hm'&Hbits);
    [apply H|rewrite Et; apply H|lia|done|done|lia|rewrite Et; lia|].
  unfold block_mark_used, load, set_size. rewrite E3. cbn [of_option mbind result_bind]. rewrite (store_ok (Blk r) _ _ h) by done.
  eexists _, map'. split; [done|]. split; [done|]. split; [intros q Hq; by rewrite lookup_insert_ne|]. split; [|done].
  destruct (carve_ok lo (total_pages z) gap F p s r sz Hb EF Hg Hdr Hpr Hv Hfit) as [Hcb Hcc].
  split; rewrite ?Et; try done.
  - eapply tlsf_frame; [exact Ht|]. intros q [t Eq]. apply lookup_insert_ne. intros [= <-].
    assert (covered (carve F p s r sz) (r / PAGE_SIZE)) as Hcr.
    { destruct Hdr as [x ->]. exists (x * PAGE_SIZE), t. split; [done|]. rewrite Z.div_mul by done.
      destruct (blk_align _ _ _ _ Hcb _ _ Eq) as [_ [? _]]. lia. }
    apply Hcc in Hcr as [_ Hcr]. apply Hcr. destruct Hdr as [x ->]. rewrite Z.div_mul by done. lia.
  - rewrite Hlen. apply H.
  - intros x Hx. eapply carve_bits; [exact Hb|done|done|done|done|done|done|done|apply H|done|done].
Qed.

Lemma alloc_from_zone_ok lo gap z hs map F size k :
  zone_inv lo gap z hs map F → 0 <= gap <= 1 → 12 <= k <= 40 → 0 < size <= 2 ^ 46 →
  (k = 12 ∨ 2 ^ k <= round_up size PAGE_SIZE) →
  ∃ r z' hs' map', pma_alloc_from_zone (z, hs, map) size (2 ^ k) = Ok (r, (z', hs', map')) ∧
    same_zone z z' ∧ frame (zone_key z lo) hs hs' ∧ List.length map' = List.length map ∧
    alloc_outcome lo gap F map (round_up size PAGE_SIZE) k r z' hs' map'.
Proof.
  intros H Hg Hk Hsz Hor. unfold pma_alloc_from_zone.
  destruct (size_rounding size ltac:(lia)) as (->&Hv&Hrs). set (sz := round_up size PAGE_SIZE) in *.
  pose proof Hv as [Hsz2 Hdsz]. unfold PMA_BLOCK_HEADER_SIZE.
  assert (PAGE_SIZE <= sz) by (pose proof (page_gap 0 sz (Z.divide_0_r _) Hdsz ltac:(lia)); lia).
  rewrite (proj2 (Z.ltb_ge sz 24)) by (unfold PAGE_SIZE in *; lia).
  pose proof (Z.pow_le_mono_r 2 k 40 ltac:(lia) ltac:(lia)). assert (0 < 2 ^ k) by (apply Z.pow_pos_nonneg; lia).
  assert ((if 2 ^ k >? PAGE_SIZE then u64 (sz + (2 ^ k - PAGE_SIZE)) else sz) = search_size sz (2 ^ k)) as ->.
  { unfold search_size, PAGE_SIZE in *. destruct (2 ^ k >? 4096) eqn:E; [|done]. zify_bools. by rewrite u64_id by lia. }
  assert (0 < search_size sz (2 ^ k) < 2 ^ 64) as Hss.
  { unfold search_size, PAGE_SIZE in *. destruct (2 ^ k >? 4096) eqn:E; zify_bools; lia. }
  pose proof (zi_tlsf _ _ _ _ _ _ H) as Ht. pose proof (zi_blocks _ _ _ _ _ _ H) as Hb.
  pose proof (zi_total _ _ _ _ _ _ H) as [Hlo Htot].
  destruct (tlsf_locate_ok z hs F (search_size sz (2 ^ k)) Ht Hss) as
    [[-> Hnone]|(p&s&z1&hs1&h1&->&EF&Hc&_&Ht1&Hz1&F1&E1&Es1)]; cbn [mbind result_bind].
  { exists 0, z, hs, map. split_and!; try done. by apply alloc_none. }
  cbn [block_phys mbind result_bind]. pose proof (blk_range _ _ _ _ Hb p s EF) as (?&?&?).
  destruct (blk_align _ _ _ _ Hb p s EF) as [Hap Hs]. pose proof Hs as [? _].
  assert (total_pages z * PAGE_SIZE < 2 ^ 48) by (unfold PAGE_SIZE; lia).
  destruct (search_fits p s sz k) as (Hr&Hgap&Hdk&Hdr); [lia|done|lia|done|done|lia|done|].
  destruct (align_phys p k ltac:(lia) ltac:(lia)) as [-> ->]. set (r := round_up p (2 ^ k)) in *.
  assert (total_pages z1 = total_pages z) as Et by apply Hz1.
  destruct (alloc_pieces lo gap z1 hs1 F p s r sz h1) as (z2&hs2&z3&hs3&h3&->&Etail&Ht3&Hz3&E3&F3); try done;
    [by rewrite Et|lia|]. cbn [mbind result_bind]. rewrite Etail. cbn [mbind result_bind].
  assert (same_zone z z3) as Hz by (by eapply same_zone_trans).
  assert (total_pages z3 = total_pages z) as Et3 by apply Hz.
  assert (frame (zone_key z lo) hs hs3) as F13.
  { eapply frame_trans; eapply frame_weaken; [exact F1| |exact F3|].
    - intros q. eapply owned_key; [done|]. by apply blocks_delete.
    - intros q. by apply zone_key_same. }
  case_decide as Hfit.
  - rewrite bool_decide_true by done. cbn [negb].
    destruct (mark_used_ok lo gap z z3 hs hs3 map F p s r sz h3) as (hs4&map'&->&->&F4&Hinv&Hlen&Hbits); try done; [lia|].
    exists r, z3, hs4, map'. split; [done|]. split; [done|]. split; [|split; [done|eapply alloc_success; done || lia]].
    intros q Hq. rewrite F4; [by apply F13|]. intros ->. apply Hq. right. exists r. split; [done|lia].
  - rewrite bool_decide_false by done. cbn [negb]. exists 0, z3, hs3, map. split_and!; try done.
    assert (size_class s = size_class (search_size sz (2 ^ k))) as Hcs.
    { destruct (decide (size_class s = size_class (search_size sz (2 ^ k)))); [done|].
      pose proof (size_class_lt (search_size sz (2 ^ k)) s ltac:(lia) ltac:(lia) ltac:(lia)) as Hlt.
      unfold search_size, PAGE_SIZE in Hlt, Hgap. rewrite Z.gtb_ltb in Hlt. destruct (Z.ltb_spec 4096 (2 ^ k)); lia. }
    eapply alloc_too_small; try done; [lia|].
    destruct (cut_ok lo (total_pages z) gap F p s r Hb EF ltac:(lia) Hdr Hr) as [Hcb Hcc].
    split; rewrite ?Et3; try done; try lia; try apply H.
    + case_z; [|done]. subst k. unfold r in *. change (2 ^ 12) with PAGE_SIZE in *.
      replace (round_up p PAGE_SIZE) with p by lia. by rewrite cut_same.
    + intros x Hx. change (round_up p (2 ^ k)) with r. rewrite Hcc. by apply H.
Qed.

(** * Release to a zone *)

Definition page_free (z : pma_zone) (map : list Z) (x : Z) : Prop := x < total_pages z ∧ bit map x = false.

Lemma free_start_ok n z map pfn a :
  0 <= a <= pfn → pfn <= Z.of_nat n + a → total_pages z <= 8 * Z.of_nat (List.length map) →
  (∀ x, a <= x < pfn → page_free z map x) → (a = 0 ∨ bit map (a - 1) = true) →
  free_start_loop n z map pfn = Ok a.
Proof.
  revert pfn. induction n as [|n IH]; intros pfn Ha Hn Ht Hf Hs; simpl.
  { f_equal. lia. }
  rewrite Z.gtb_ltb. case_z; [|f_equal; lia].
  rewrite page_is_free_ok by lia. cbn [mbind result_bind].
  destruct (decide (pfn = a)) as [->|].
  - destruct Hs as [|Hs]; [lia|]. rewrite Hs. by rewrite andb_false_r.
  - destruct (Hf (pfn - 1) ltac:(lia)) as [? ->]. rewrite (proj2 (Z.ltb_lt _ _)) by done. simpl.
    apply IH; [lia|lia|done| |done]. intros x ?. apply Hf. lia.
Qed.

Lemma free_end_ok n z map pfn e :
  0 <= pfn <= e → e <= total_pages z → e <= pfn + Z.of_nat n →
  total_pages z <= 8 * Z.of_nat (List.length map) →
  (∀ x, pfn <= x < e → page_free z map x) → (e = total_pages z ∨ bit map e = true) →
  free_end_loop n z map pfn = Ok e.
Proof.
  revert pfn. induction n as [|n IH]; intros pfn Ha He Hn Ht Hf Hs; simpl.
  { f_equal. lia. }
  case_z; [|f_equal; lia]. rewrite page_is_free_ok by lia. cbn [mbind result_bind].
  destruct (decide (pfn = e)) as [->|].
  - destruct Hs as [|Hs]; [lia|]. rewrite Hs. by rewrite andb_false_r.
  - destruct (Hf pfn ltac:(lia)) as [? ->]. rewrite (proj2 (Z.ltb_lt _ _)) by done. simpl.
    apply IH; [lia|done|lia|done| |done]. intros x ?. apply Hf. lia.
Qed.

(** What the passes over the bitmap need of it. *)
Record scan_ok (lo : Z) (z : pma_zone) (map : list Z) (F : gmap Z Z) (a b : Z) : Prop := {
  sc_len : total_pages z <= 8 * Z.of_nat (List.length map);
  sc_low : lo = 0 ∨ bit map (lo - 1) = true;
  sc_bits x : lo <= x < total_pages z → ¬ (a <= x < b) → bit map x = false ↔ covered F x
}.

Lemma covered_page lo total gap F p s x :
  blocks_ok lo total gap F → F !! p = Some s → p / PAGE_SIZE <= x < (p + s) / PAGE_SIZE → covered F x.
Proof.
  intros H E Hx. destruct (blk_align _ _ _ _ H p s E) as [[a ->] [_ [b ->]]]. unfold PAGE_SIZE in *.
  rewrite <- Z.mul_add_distr_r, !Z.div_mul in Hx by lia. exists (a * 4096), (b * 4096). split; [done|]. unfold PAGE_SIZE. lia.
Qed.

(** The page before a block is not free, nor is the page behind it. *)
Lemma block_edges lo total F p s :
  blocks_ok lo total 1 F → F !! p = Some s →
  ¬ covered F (p / PAGE_SIZE - 1) ∧ ¬ covered F ((p + s) / PAGE_SIZE).
Proof.
  intros H E. destruct (blk_align _ _ _ _ H p s E) as [[a ->] [[? ?] [b ->]]]. unfold PAGE_SIZE in *.
  rewrite <- Z.mul_add_distr_r, !Z.div_mul by lia. split; intros (q&t&E'&Hq);
    destruct (blk_align _ _ _ _ H q t E') as [[c ->] [[? ?] [d ->]]]; unfold PAGE_SIZE in *.
  - pose proof (blk_apart _ _ _ _ H _ _ _ _ E' E ltac:(lia)). lia.
  - destruct (decide (c < a)); [pose proof (blk_apart _ _ _ _ H _ _ _ _ E' E ltac:(lia)); lia|].
    destruct (decide (c = a)) as [->|]; [rewrite E in E'; injection E'; lia|].
    pose proof (blk_apart _ _ _ _ H _ _ _ _ E E' ltac:(lia)). lia.
Qed.

Lemma merge_back_ok lo z hs map F phys len :
  tlsf z hs F → blocks_ok lo (total_pages z) 1 F → 0 <= lo → total_pages z < 2 ^ 36 →
  0 < len → 0 < phys → lo * PAGE_SIZE <= phys → (PAGE_SIZE | phys) → (PAGE_SIZE | len) →
  phys + len <= total_pages z * PAGE_SIZE → apart 0 F phys len →
  scan_ok lo z map F (phys / PAGE_SIZE) ((phys + len) / PAGE_SIZE) →
  ∃ ms z1 hs1 F1, merge_back z map (phys / PAGE_SIZE) hs = Ok (ms / PAGE_SIZE, z1, hs1) ∧
    tlsf z1 hs1 F1 ∧ same_zone z z1 ∧ frame (owned z F1) hs hs1 ∧
    ((ms = phys ∧ F1 = F ∧ ∀ p s, F !! p = Some s → p + s ≠ phys) ∨
     (∃ s, F !! ms = Some s ∧ ms + s = phys ∧ F1 = delete ms F)).
Proof.
  intros Ht Hb Hlo Htot Hlen Hphys Hlp [a ->] [l ->] Hhi Hap [Sl Slow Sb]. unfold merge_back.
  unfold PAGE_SIZE in *. rewrite <- Z.mul_add_distr_r, !Z.div_mul in * by lia. rewrite Z.gtb_ltb.
  rewrite (proj2 (Z.ltb_lt 0 a)), page_is_free_ok, (proj2 (Z.ltb_lt (a - 1) _)) by lia.
  cbn [mbind result_bind andb].
  destruct (bit map (a - 1)) eqn:Ebit; cbn [negb].
  - exists (a * 4096), z, hs, F. rewrite Z.div_mul by lia. split; [done|]. split_and!; try done.
    left. split_and!; try done. intros p s E Hps.
    destruct (blk_align _ _ _ _ Hb p s E) as [[c ->] [[? ?] [d ->]]]. unfold PAGE_SIZE in *.
    destruct (blk_range _ _ _ _ Hb _ _ E) as (?&?&?). unfold PAGE_SIZE in *.
    assert (bit map (a - 1) = false); [|congruence]. apply Sb; [lia|lia|].
    exists (c * 4096), (d * 4096). unfold PAGE_SIZE. split; [done|lia].
  - assert (lo <= a - 1) as Hla.
    { destruct (decide (lo <= a - 1)); [done|]. destruct Slow as [|Slow]; [lia|].
      replace (lo - 1) with (a - 1) in Slow by lia. congruence. }
    apply Sb in Ebit as (p&s&E&Hps); [|lia|lia].
    destruct (blk_range _ _ _ _ Hb p s E) as (?&?&?). destruct (block_edges _ _ _ _ _ Hb E) as [He1 _].
    assert (∀ x, p / PAGE_SIZE <= x < a → covered F x) as Hcov.
    { intros x Hx. eapply covered_page; [done|done|].
      destruct (blk_align _ _ _ _ Hb p s E) as [[c ->] [_ [d ->]]]. unfold PAGE_SIZE in *.
      rewrite <- Z.mul_add_distr_r, !Z.div_mul in * by lia. lia. }
    destruct (blk_align _ _ _ _ Hb p s E) as [[c ->] [[? ?] [d ->]]]. unfold PAGE_SIZE in *.
    rewrite Z.div_mul in * by lia.
    assert (c * 4096 + d * 4096 = a * 4096) as Eps by (destruct (Hap _ _ E); lia).
    unfold pma_find_free_start. rewrite (free_start_ok _ z map (a - 1) c); [|lia|lia|done| |].
    + cbn [mbind result_bind]. rewrite u64_id by lia.
      destruct (tlsf_block_remove_ok z hs F (c * 4096) (d * 4096) Ht E) as (z1&hs1&h&E1&Ht1&Hz&F1&_).
      unfold block_from_phys, PAGE_SIZE. rewrite E1. cbn [mbind result_bind].
      exists (c * 4096), z1, hs1, (delete (c * 4096) F). rewrite Z.div_mul by lia. split_and!; try done.
      right. by exists (d * 4096).
    + intros x ?. split; [lia|]. apply Sb; [lia|lia|]. apply Hcov. lia.
    + destruct (decide (lo <= c - 1)) as [Hge|Hlt].
      * right. destruct (bit map (c - 1)) eqn:Ec; [done|]. apply Sb in Ec; [done|lia|lia].
      * assert (c = lo) as -> by lia. tauto.
Qed.

Lemma merge_forward_ok lo z hs map F e a :
  tlsf z hs F → blocks_ok lo (total_pages z) 1 F → 0 <= lo → total_pages z < 2 ^ 36 →
  0 <= a → a < e → lo * PAGE_SIZE <= e → (PAGE_SIZE | e) → e <= total_pages z * PAGE_SIZE → (PAGE_SIZE | a) →
  (∀ p s, F !! p = Some s → p + s <= a ∨ e <= p) →
  scan_ok lo z map F (a / PAGE_SIZE) (e / PAGE_SIZE) →
  ∃ me z1 hs1 F1, merge_forward z map (e / PAGE_SIZE) hs = Ok (me / PAGE_SIZE, z1, hs1) ∧
    tlsf z1 hs1 F1 ∧ same_zone z z1 ∧ frame (owned z F1) hs hs1 ∧
    ((me = e ∧ F1 = F ∧ F !! e = None) ∨
     (∃ t, F !! e = Some t ∧ me = e + t ∧ F1 = delete e F)).
Proof.
  intros Ht Hb Hlo Htot Ha Hae Hle [n ->] Hhi [b ->] Hap [Sl Slow Sb]. unfold merge_forward.
  unfold PAGE_SIZE in *. rewrite !Z.div_mul in * by lia.
  destruct (decide (n < total_pages z)) as [Hn|Hn].
  2: { rewrite (proj2 (Z.ltb_ge n _)) by lia. cbn [mbind result_bind mret result_ret].
       exists (n * 4096), z, hs, F. rewrite Z.div_mul by lia. split_and!; try done. left. split_and!; try done.
       destruct (F !! (n * 4096)) as [t|] eqn:E; [|done].
       destruct (blk_range _ _ _ _ Hb _ _ E) as (?&?&?). destruct (blk_align _ _ _ _ Hb _ _ E) as [_ [? _]].
       unfold PAGE_SIZE in *. lia. }
  rewrite (proj2 (Z.ltb_lt n _)), page_is_free_ok, (proj2 (Z.ltb_lt n _)) by lia.
  cbn [mbind result_bind andb].
  destruct (bit map n) eqn:Ebit; cbn [negb].
  - exists (n * 4096), z, hs, F. rewrite Z.div_mul by lia. split_and!; try done. left. split_and!; try done.
    destruct (F !! (n * 4096)) as [t|] eqn:E; [|done].
    destruct (blk_align _ _ _ _ Hb _ _ E) as [_ [? _]].
    assert (bit map n = false); [|congruence]. apply Sb; [lia|lia|]. exists (n * 4096), t. unfold PAGE_SIZE. split; [done|lia].
  - apply Sb in Ebit as (p&t&E&Hpt); [|lia|lia]. unfold PAGE_SIZE in Hpt.
    destruct (blk_range _ _ _ _ Hb p t E) as (?&?&?). destruct (block_edges _ _ _ _ _ Hb E) as [_ He2].
    assert (p = n * 4096) as -> by (destruct (Hap _ _ E); lia).
    destruct (blk_align _ _ _ _ Hb _ t E) as [_ [[? ?] [d ->]]]. unfold PAGE_SIZE in *.
    rewrite <- Z.mul_add_distr_r, Z.div_mul in He2 by lia.
    unfold pma_find_free_end. rewrite (free_end_ok _ z map n (n + d)); [|lia|lia|lia|done| |].
    + cbn [mbind result_bind]. rewrite u64_id by lia.
      destruct (tlsf_block_remove_ok z hs F (n * 4096) (d * 4096) Ht E) as (z1&hs1&h&E1&Ht1&Hz&F1&_).
      unfold block_from_phys, PAGE_SIZE. rewrite E1. cbn [mbind result_bind].
      exists ((n + d) * 4096), z1, hs1, (delete (n * 4096) F). rewrite Z.div_mul by lia. split_and!; try done.
      right. exists (d * 4096). split_and!; try done. lia.
    + intros x ?. split; [lia|]. apply Sb; [lia|lia|]. exists (n * 4096), (d * 4096). unfold PAGE_SIZE. split; [done|lia].
    + destruct (decide (n + d = total_pages z)) as [->|]; [by left|right].
      destruct (bit map (n + d)) eqn:Ec; [done|]. apply Sb in Ec; [done|lia|lia].
Qed.

(** The free neighbour that ends at [phys] is taken out, if there is one. *)
Definition merged_left (F : gmap Z Z) (phys ms : Z) (F1 : gmap Z Z) : Prop :=
  (ms = phys ∧ F1 = F ∧ ∀ p s, F !! p = Some s → p + s ≠ phys) ∨
  (∃ s, F !! ms = Some s ∧ ms + s = phys ∧ F1 = delete ms F).

(** The free neighbour that starts at [e] is taken out, if there is one. *)
Definition merged_right (F : gmap Z Z) (e me : Z) (F2 : gmap Z Z) : Prop :=
  (me = e ∧ F2 = F ∧ F !! e = None) ∨ (∃ t, F !! e = Some t ∧ me = e + t ∧ F2 = delete e F).

Lemma merged_left_ok lo total F phys len ms F1 :
  blocks_ok lo total 1 F → apart 0 F phys len → 0 < len → lo * PAGE_SIZE <= phys → (PAGE_SIZE | phys) → 0 < phys →
  merged_left F phys ms F1 →
  blocks_ok lo total 1 F1 ∧ 0 < ms <= phys ∧ lo * PAGE_SIZE <= ms ∧ (PAGE_SIZE | ms) ∧ F1 !! ms = None ∧
  (∀ p s, F1 !! p = Some s → p + s + 1 <= ms ∨ phys + len <= p) ∧
  ∀ x, covered F x ↔ ms <= x * PAGE_SIZE < phys ∨ covered F1 x.
Proof.
  intros Hb Hap Hlen Hlo Ha Hp [(->&->&Hno)|(s&E&Hs&->)].
  - split_and!; try done; try lia.
    + destruct (F !! phys) as [t|] eqn:E; [|done]. destruct (blk_align _ _ _ _ Hb _ _ E) as [_ [? _]].
      destruct (Hap _ _ E); lia.
    + intros p s E. pose proof (Hno p s E). destruct (Hap p s E); lia.
    + intros x. split; [by right|]. intros [?|]; [lia|done].
  - destruct (blk_range _ _ _ _ Hb _ _ E) as (?&?&?). destruct (blk_align _ _ _ _ Hb _ _ E) as [? [? _]].
    split_and!; try done; try lia; [by apply blocks_delete|by apply lookup_delete_eq| |].
    + intros p t [Hne E']%lookup_delete_Some. destruct (Hap p t E'); [|lia].
      destruct (decide (p < ms)); [pose proof (blk_apart _ _ _ _ Hb _ _ _ _ E' E); lia|].
      pose proof (blk_apart _ _ _ _ Hb _ _ _ _ E E' ltac:(lia)).
      destruct (blk_align _ _ _ _ Hb _ _ E') as [_ [? _]]. lia.
    + intros x. rewrite (covered_delete lo total 1 F ms s) by done.
      destruct (decide (ms <= x * PAGE_SIZE < phys)); [|rewrite Hs; tauto].
      split; [by left|]. intros _. exists ms, s. split; [done|lia].
Qed.

(** A range and its free neighbours become one block. *)
Lemma merge_blocks lo total F phys len ms me F1 F2 :
  blocks_ok lo total 1 F → apart 0 F phys len → 0 < len → lo * PAGE_SIZE <= phys → (PAGE_SIZE | phys) →
  0 < phys → (PAGE_SIZE | len) → phys + len <= total * PAGE_SIZE → total < 2 ^ 36 →
  merged_left F phys ms F1 → merged_right F1 (phys + len) me F2 →
  blocks_ok lo total 1 (<[ms := me - ms]> F2) ∧ valid_size (me - ms) ∧ F2 !! ms = None ∧
  0 < ms ∧ lo * PAGE_SIZE <= ms ∧ me <= total * PAGE_SIZE ∧ (PAGE_SIZE | ms) ∧ (PAGE_SIZE | me) ∧
  ∀ x, covered (<[ms := me - ms]> F2) x ↔ covered F x ∨ phys <= x * PAGE_SIZE < phys + len.
Proof.
  intros Hb Hap Hlen Hlo Ha Hp Hal Hhi Htot Hleft Hright.
  destruct (merged_left_ok _ _ _ _ _ _ _ Hb Hap Hlen Hlo Ha Hp Hleft) as (Hb1&Hms&Hmlo&Hma&Hmn&Hap1&Hcov).
  assert (blocks_ok lo total 1 F2 ∧ phys + len <= me <= total * PAGE_SIZE ∧ (PAGE_SIZE | me) ∧
    (∀ p s, F2 !! p = Some s → F1 !! p = Some s) ∧
    (∀ p s, F2 !! p = Some s → p + s + 1 <= ms ∨ me + 1 <= p) ∧
    ∀ x, covered F1 x ↔ phys + len <= x * PAGE_SIZE < me ∨ covered F2 x) as (Hb2&Hme&Hmea&Hsub&Hap2&Hcov2).
  { destruct Hright as [(->&->&En)|(t&E&->&->)].
    - split_and!; try done; try lia; [by apply Z.divide_add_r| |].
      + intros p s E. destruct (Hap1 p s E); [by left|right]. destruct (decide (p = phys + len)) as [->|]; [congruence|lia].
      + intros x. split; [by right|]. intros [?|]; [lia|done].
    - destruct (blk_range _ _ _ _ Hb1 _ _ E) as (?&?&?). destruct (blk_align _ _ _ _ Hb1 _ _ E) as [? [? ?]].
      split_and!; try done; try lia; [by apply blocks_delete|by apply Z.divide_add_r| | |].
      + by intros p s [_ ?]%lookup_delete_Some.
      + intros p s [Hne E']%lookup_delete_Some. destruct (Hap1 p s E'); [by left|right].
        pose proof (blk_apart _ _ _ _ Hb1 _ _ _ _ E E'). lia.
      + intros x. rewrite (covered_delete lo total 1 F1 (phys + len) t) by done.
        destruct (decide (phys + len <= x * PAGE_SIZE < phys + len + t)); [|tauto].
        split; [by left|]. intros _. eexists _, t. split; [done|lia]. }
  assert (F2 !! ms = None) as Hn2.
  { destruct (F2 !! ms) as [t|] eqn:E; [|done]. apply Hsub in E. congruence. }
  assert (valid_size (me - ms)) as Hv.
  { split; [unfold PAGE_SIZE in *; lia|by apply Z.divide_sub_r]. }
  split_and!; try done; try lia.
  - apply blocks_insert; try done; try lia. intros p s E. destruct (Hap2 p s E); lia.
  - intros x. rewrite covered_insert, Hcov, Hcov2 by done.
    destruct (decide (ms <= x * PAGE_SIZE < me)) as [?|?]; [|intuition lia].
    split; [|intros _; left; lia]. intros _.
    destruct (decide (x * PAGE_SIZE < phys)); [left; left; lia|].
    destruct (decide (x * PAGE_SIZE < phys + len)); [right; lia|left; right; left; lia].
Qed.

Lemma add_block_ok z hs F b s :
  tlsf z hs F → F !! b = None → valid_size s → 0 <= b → b + s <= total_pages z * PAGE_SIZE →
  ∃ z' hs', add_block z (Blk b) s hs = Ok (z', hs') ∧ tlsf z' hs' (<[b := s]> F) ∧
    same_zone z z' ∧ frame (owned z (<[b := s]> F)) hs hs'.
Proof.
  intros Ht En Hv Hb0 Hb. pose proof Hv as [? Hdv]. apply Z.divide_pos_le in Hdv; [|lia].
  unfold add_block. rewrite new_header_ok by lia. cbn [mbind result_bind].
  unfold set_prev, set_next. do 2 (erewrite (store_ok (Blk b)) by (done || apply lookup_insert_eq); cbn [mbind result_bind]).
  cbn [prev next size]. rewrite !insert_insert_eq. set (hs3 := <[Blk b := _]> hs).
  assert (frame (λ q, q = Blk b) hs hs3) as F3 by (intros q Hq; by apply lookup_insert_ne).
  pose (h := mkBlock Null Null (Z.lor s 1)). assert (hs3 !! Blk b = Some h ∧ size h = Z.lor s 1) as [Eh Es] by (split; [apply lookup_insert_eq|done]).
  assert (tlsf z hs3 F) as Ht3.
  { eapply tlsf_frame; [exact Ht|]. intros p [t E]. apply F3. intros [= ->]. congruence. }
  destruct (tlsf_insert_ok z hs3 F b s h Ht3 En Hv Eh Es) as (z'&hs'&->&?&?&F4).
  exists z', hs'. split_and!; try done. eapply frame_trans; [|exact F4].
  eapply frame_weaken; [exact F3|]. intros q ->. right. exists b. by rewrite lookup_insert_eq.
Qed.

Lemma set_free_range z map r n :
  bytes map → total_pages z <= 8 * Z.of_nat (List.length map) → 0 <= r → 0 <= n →
  ∃ map', set_pages (pma_page_set_free z) (Z.to_nat n) r map = Ok map' ∧
    List.length map' = List.length map ∧ bytes map' ∧
    ∀ x, 0 <= x → bit map' x = if (r <=? x) && (x <? r + n) && (x <? total_pages z) then false else bit map x.
Proof.
  intros Hm Ht Hr Hn.
  destruct (set_pages_ok (pma_page_set_free z) false (total_pages z) (Z.to_nat n) r map (List.length map))
    as (map'&?&?&?&Hb); [|done|done|lia|].
  { intros m i ? E ?. apply page_set_free_ok; [done|done|by rewrite E]. }
  exists map'. split_and!; try done. intros x ?. rewrite Hb by done. by rewrite Z2Nat.id by lia.
Qed.

Lemma owned_sub z z' lo total gap F F' q :
  same_zone z z' → blocks_ok lo total gap F → total = total_pages z →
  (∀ p s, F' !! p = Some s → F !! p = Some s) → owned z' F' q → zone_key z lo q.
Proof.
  intros Hz Hb -> Hsub Hq. eapply owned_key; [exact Hz|exact Hb|].
  destruct Hq as [?|(p&?&s&E)]; [by left|right; eauto].
Qed.

Lemma zone_free_range_ok lo z hs map F phys count :
  zone_inv lo 1 z hs map F → (lo = 0 ∨ bit map (lo - 1) = true) →
  0 < count → 0 < phys → lo * PAGE_SIZE <= phys → (PAGE_SIZE | phys) →
  phys + count * PAGE_SIZE <= total_pages z * PAGE_SIZE → apart 0 F phys (count * PAGE_SIZE) →
  ∃ z' hs' map' F', pma_zone_free_range (z, hs, map) phys count = Ok (z', hs', map') ∧
    zone_inv lo 1 z' hs' map' F' ∧ same_zone z z' ∧ frame (zone_key z lo) hs hs' ∧
    List.length map' = List.length map ∧
    (∀ x, covered F' x ↔ covered F x ∨ phys <= x * PAGE_SIZE < phys + count * PAGE_SIZE) ∧
    (∀ x, 0 <= x → bit map' x =
       if (phys <=? x * PAGE_SIZE) && (x * PAGE_SIZE <? phys + count * PAGE_SIZE) then false else bit map x).
Proof.
  intros H Hlow Hc Hp Hlo [a ->] Hhi Hap. pose proof (zi_blocks _ _ _ _ _ _ H) as Hb.
  pose proof (zi_total _ _ _ _ _ _ H) as [? [? Htot]]. pose proof (zi_len _ _ _ _ _ _ H) as Hlen.
  unfold pma_zone_free_range. rewrite !u64_id by (rewrite ?u64_id by (unfold PAGE_SIZE in *; lia); unfold PAGE_SIZE in *; lia).
  rewrite (proj2 (Z.eqb_neq count 0)), Z.gtb_ltb, (proj2 (Z.ltb_ge _ _) Hhi), Z.div_mul by (done || lia).
  destruct (set_free_range z map a count) as (map1&->&Hl1&Hm1&Hb1); [apply H|done|unfold PAGE_SIZE in *; lia|lia|].
  cbn [mbind result_bind].
  assert (∀ x, (a <=? x) && (x <? a + count) && (x <? total_pages z) =
    (a * PAGE_SIZE <=? x * PAGE_SIZE) && (x * PAGE_SIZE <? a * PAGE_SIZE + count * PAGE_SIZE)) as Eb.
  { intros x. unfold PAGE_SIZE in *. repeat case_z; simpl; done || lia. }
  assert (scan_ok lo z map1 F a (a + count)) as Hscan.
  { split; [by rewrite Hl1| |].
    - destruct (decide (lo = 0)); [by left|right]. destruct Hlow as [|Hlow]; [done|].
      rewrite Hb1 by lia. by rewrite (proj2 (Z.leb_gt a (lo - 1))) by (unfold PAGE_SIZE in *; lia).
    - intros x Hx Hnx. rewrite Hb1 by lia. rewrite <- (zi_bits _ _ _ _ _ _ H) by done.
      repeat case_z; simpl; done || lia. }
  assert (a * PAGE_SIZE / PAGE_SIZE = a ∧ (a * PAGE_SIZE + count * PAGE_SIZE) / PAGE_SIZE = a + count) as [Ea Eac].
  { rewrite <- Z.mul_add_distr_r. by rewrite !Z.div_mul. }
  destruct (merge_back_ok lo z hs map1 F (a * PAGE_SIZE) (count * PAGE_SIZE)) as (ms&z1&hs1&F1&E1&Ht1&Hz1&Hf1&Hleft);
    [apply H|done|done|done|unfold PAGE_SIZE; lia|done|done|by apply Z.divide_factor_r|by apply Z.divide_factor_r|done|done|by rewrite Ea, Eac|].
  rewrite Ea in E1. rewrite E1. cbn [mbind result_bind].
  destruct (merged_left_ok lo (total_pages z) F (a * PAGE_SIZE) (count * PAGE_SIZE) ms F1) as (Hbl1&Hms&Hmlo&Hma&_&Hap1&Hcov1);
    [done|done|unfold PAGE_SIZE; lia|done|by apply Z.divide_factor_r|done|done|].
  pose proof Hz1 as (_&_&Et1).
  destruct Hma as [m ->].
  destruct (merge_forward_ok lo z1 hs1 map1 F1 (a * PAGE_SIZE + count * PAGE_SIZE) (m * PAGE_SIZE))
    as (me&z2&hs2&F2&E2&Ht2&Hz2&Hf2&Hright);
    [done|by rewrite Et1|done|by rewrite Et1|lia|unfold PAGE_SIZE in *; lia|unfold PAGE_SIZE in *; lia
    |rewrite <- Z.mul_add_distr_r; by apply Z.divide_factor_r|by rewrite Et1|by apply Z.divide_factor_r| | |].
  { intros p s E. destruct (Hap1 p s E); [left; lia|by right]. }
  { rewrite Eac, Z.div_mul by done. split; rewrite ?Et1.
    - by rewrite Hl1.
    - apply Hscan.
    - intros x Hx Hnx. rewrite (sc_bits _ _ _ _ _ _ Hscan) by (unfold PAGE_SIZE in *; lia).
      rewrite Hcov1. unfold PAGE_SIZE in *. intuition lia. }
  rewrite Eac in E2. rewrite (u64_id (a + count)), E2 by (unfold PAGE_SIZE in *; lia). cbn [mbind result_bind].
  destruct (merge_blocks lo (total_pages z) F (a * PAGE_SIZE) (count * PAGE_SIZE) (m * PAGE_SIZE) me F1 F2)
    as (Hbm&Hvm&Hn2&_&_&Hme&_&Hmea&Hcm); [done|done|unfold PAGE_SIZE; lia|done|by apply Z.divide_factor_r|done
    |by apply Z.divide_factor_r|done|done|done|done|].
  destruct Hmea as [e ->]. rewrite !Z.div_mul by done. rewrite Z.mul_sub_distr_r.
  pose proof Hvm as [Hvm1 _]. unfold PMA_BLOCK_HEADER_SIZE. rewrite !u64_id by (unfold PAGE_SIZE in *; lia).
  rewrite Z.geb_leb, (proj2 (Z.leb_le 24 _)) by (unfold PAGE_SIZE in *; lia).
  destruct (add_block_ok z2 hs2 F2 (m * PAGE_SIZE) (e * PAGE_SIZE - m * PAGE_SIZE) Ht2 Hn2 Hvm) as (z3&hs3&E3&Ht3&Hz3&Hf3);
    [unfold PAGE_SIZE in *; lia|destruct Hz2 as (_&_&->), Hz1 as (_&_&->); unfold PAGE_SIZE in *; lia|].
  unfold block_from_phys. rewrite E3. cbn [mbind result_bind].
  assert (same_zone z z3) as Hz by (exact (same_zone_trans _ _ _ Hz1 (same_zone_trans _ _ _ Hz2 Hz3))).
  pose proof Hz as (_&_&Et).
  exists z3, hs3, map1, (<[m * PAGE_SIZE := e * PAGE_SIZE - m * PAGE_SIZE]> F2). split_and!; [done| |done| |done|done|].
  - split; rewrite ?Et; try done; [by rewrite Hl1|]. intros x Hx. rewrite Hb1, Hcm, Eb by lia.
    rewrite <- (zi_bits _ _ _ _ _ _ H) by done. repeat case_z; simpl; intuition (done || lia).
  - assert (∀ p s, F2 !! p = Some s → F1 !! p = Some s) as Hs2.
    { destruct Hright as [(_&->&_)|(t&_&_&->)]; [done|]. by intros p s [_ ?]%lookup_delete_Some. }
    assert (∀ p s, F1 !! p = Some s → F !! p = Some s) as Hs1.
    { destruct Hleft as [(_&->&_)|(t&_&_&->)]; [done|]. by intros p s [_ ?]%lookup_delete_Some. }
    eapply frame_trans; [|eapply frame_trans]; eapply frame_weaken; [exact Hf1| |exact Hf2| |exact Hf3|].
    + intros q. by apply (owned_sub z z lo (total_pages z) 1 F).
    + intros q. apply (owned_sub z z1 lo (total_pages z) 1 F); eauto.
    + intros q. apply (owned_sub z z2 lo (total_pages z) 1 (<[m * PAGE_SIZE := e * PAGE_SIZE - m * PAGE_SIZE]> F2)); try done.
      exact (same_zone_trans _ _ _ Hz1 Hz2).
  - intros x ?. by rewrite Hb1, Eb by done.
Qed.
