(* ===== verification/PmaSys.v ===== *)
(** The physical page allocator as a whole (src/mem/pma.c): two zones that
    share the page bitmap and the store of headers.

    The file lifts the zone lemmas (PmaZone.v) to the public operations, shows
    that boot establishes the invariant, and proves that every sequence of page
    allocations and releases keeps live allocations disjoint. *)

From S2P Require Import Prelude Bitmap Vmm Cmm Pma PmaSpec PmaZone.

(** * Invariant *)

(** With [gap] 1 the free blocks are maximal, which releases need; with [gap] 0
    two of them may touch, as after an allocation of huge pages that failed. *)
Record pma_inv_gap (gap : Z) (s : pma_state) (FN FL : gmap Z Z) : Prop := {
  pi_normal : zone_inv PMA_ZONE_32BIT gap (pma_normal s) (heads s) (bitmap s) FN;
  pi_low : zone_inv 0 gap (pma_low s) (heads s) (bitmap s) FL;
  pi_ids : zid (pma_normal s) = ZNormal ∧ zid (pma_low s) = ZLow;
  pi_top : total_pages (pma_low s) <= PMA_ZONE_32BIT;
  (** the page below 4 GiB is not free, or there is no memory above it *)
  pi_edge : total_pages (pma_normal s) <= PMA_ZONE_32BIT ∨ bit (bitmap s) (PMA_ZONE_32BIT - 1) = true
}.

Abbreviation pma_inv := (pma_inv_gap 1).

Lemma zone_inv_other lo gap z hs hs' map map' F :
  zone_inv lo gap z hs map F → (∀ p, is_Some (F !! p) → hs' !! Blk p = hs !! Blk p) → bytes map' →
  List.length map' = List.length map → (∀ x, lo <= x < total_pages z → bit map' x = bit map x) →
  zone_inv lo gap z hs' map' F.
Proof.
  intros H Hf Hm Hl Hb. split; try apply H; [|done|by rewrite Hl; apply H|].
  - eapply tlsf_frame; [apply H|done].
  - intros x Hx. rewrite Hb by done. by apply H.
Qed.

Lemma zone_inv_weaken lo gap z hs map F : 0 <= gap → zone_inv lo gap z hs map F → zone_inv lo 0 z hs map F.
Proof. intros ? H. split; try apply H. by apply (blocks_weaken _ _ gap), H. Qed.

Lemma block_in_zone lo gap z hs map F p :
  zone_inv lo gap z hs map F → is_Some (F !! p) → lo * PAGE_SIZE <= p < total_pages z * PAGE_SIZE.
Proof.
  intros H [s E]. pose proof (blk_range _ _ _ _ (zi_blocks _ _ _ _ _ _ H) p s E).
  destruct (blk_align _ _ _ _ (zi_blocks _ _ _ _ _ _ H) p s E) as [_ [? _]]. lia.
Qed.

(** An operation on the normal zone that touches only its own pages. *)
Lemma inv_normal gap s FN FL z' hs' map' FN' :
  pma_inv_gap gap s FN FL → zone_inv PMA_ZONE_32BIT gap z' hs' map' FN' → same_zone (pma_normal s) z' →
  frame (zone_key (pma_normal s) PMA_ZONE_32BIT) (heads s) hs' → List.length map' = List.length (bitmap s) →
  (∀ x, 0 <= x < PMA_ZONE_32BIT → bit map' x = bit (bitmap s) x) →
  pma_inv_gap gap (mkPma z' (pma_low s) hs' map') FN' FL.
Proof.
  intros H Hz (Eid&_&Et) Hf Hl Hb. pose proof (pi_ids _ _ _ _ H) as [En El].
  split; simpl; rewrite ?Eid, ?Et; try done; try apply H.
  - eapply zone_inv_other; [apply (pi_low _ _ _ _ H)| |apply Hz|done|].
    + intros p Hp. apply Hf. pose proof (block_in_zone _ _ _ _ _ _ _ (pi_low _ _ _ _ H) Hp).
      pose proof (pi_top _ _ _ _ H). intros [|(x&[= <-]&?)]; [congruence|]. unfold PAGE_SIZE in *. lia.
    + intros x Hx. apply Hb. pose proof (pi_top _ _ _ _ H). lia.
  - destruct (pi_edge _ _ _ _ H) as [|Hedge]; [by left|right]. by rewrite Hb by done.
Qed.

Lemma inv_low gap s FN FL z' hs' map' FL' :
  pma_inv_gap gap s FN FL → zone_inv 0 gap z' hs' map' FL' → same_zone (pma_low s) z' →
  frame (zone_key (pma_low s) 0) (heads s) hs' → List.length map' = List.length (bitmap s) →
  (∀ x, total_pages (pma_low s) <= x → bit map' x = bit (bitmap s) x) →
  (total_pages (pma_normal s) <= PMA_ZONE_32BIT ∨ bit map' (PMA_ZONE_32BIT - 1) = true) →
  pma_inv_gap gap (mkPma (pma_normal s) z' hs' map') FN FL'.
Proof.
  intros H Hz (Eid&_&Et) Hf Hl Hb Hedge. pose proof (pi_ids _ _ _ _ H) as [En El]. pose proof (pi_top _ _ _ _ H).
  split; simpl; rewrite ?Eid, ?Et; try done; try apply H.
  - eapply zone_inv_other; [apply (pi_normal _ _ _ _ H)| |apply Hz|done|].
    + intros p Hp. apply Hf. pose proof (block_in_zone _ _ _ _ _ _ _ (pi_normal _ _ _ _ H) Hp).
      intros [|(x&[= <-]&?)]; [congruence|]. unfold PAGE_SIZE in *. lia.
    + intros x Hx. apply Hb. lia.
Qed.

(** * Allocation *)

(** Page [x] is free in either zone. *)
Definition free_page (FN FL : gmap Z Z) (x : Z) : Prop := covered FN x ∨ covered FL x.

Definition in_range (r len x : Z) : Prop := r <= x * PAGE_SIZE < r + len.

(** [len] bytes at [r] lie in the pages of one zone. *)
Definition in_one_zone (s : pma_state) (r len : Z) : Prop :=
  (0 <= r ∧ r + len <= total_pages (pma_low s) * PAGE_SIZE) ∨
  (PMA_ZONE_32BIT * PAGE_SIZE <= r ∧ r + len <= total_pages (pma_normal s) * PAGE_SIZE).

(** [len] bytes at [r] were free, in one zone, and no longer are. *)
Definition took (s s' : pma_state) (FN FL FN' FL' : gmap Z Z) (r len : Z) : Prop :=
  0 < r ∧ (PAGE_SIZE | r) ∧ in_one_zone s r len ∧ same_zone (pma_low s) (pma_low s') ∧
  same_zone (pma_normal s) (pma_normal s') ∧
  (∀ x, in_range r len x → free_page FN FL x) ∧
  ∀ x, free_page FN' FL' x ↔ free_page FN FL x ∧ ¬ in_range r len x.

Lemma covered_zone lo gap z hs map F x :
  zone_inv lo gap z hs map F → covered F x → lo <= x < total_pages z.
Proof.
  intros H (p&s&E&?). pose proof (blk_range _ _ _ _ (zi_blocks _ _ _ _ _ _ H) p s E). unfold PAGE_SIZE in *. lia.
Qed.

(** What an allocation from a zone does to its free pages; [sz] is the rounded
    size.  A failed allocation of huge pages may cut a block in two. *)
Lemma carve_outcome lo gap z hs map F r z' hs' map' size k :
  zone_inv lo gap z hs map F → 0 <= gap <= 1 → 12 <= k <= 40 → k = 12 ∨ gap = 0 → 0 < size <= 2 ^ 46 →
  let sz := round_up size PAGE_SIZE in
  alloc_outcome lo gap F map sz k r z' hs' map' →
  (∃ F', r = 0 ∧ map' = map ∧ zone_inv lo gap z' hs' map' F' ∧ (k = 12 → F' = F) ∧ ∀ x, covered F' x ↔ covered F x) ∨
  (∃ F', 0 < r ∧ (2 ^ k | r) ∧ (PAGE_SIZE | r) ∧ lo * PAGE_SIZE <= r ∧ r + sz <= total_pages z * PAGE_SIZE ∧
     zone_inv lo gap z' hs' map' F' ∧
     (∀ x, in_range r sz x → covered F x) ∧
     (∀ x, covered F' x ↔ covered F x ∧ ¬ in_range r sz x) ∧
     ∀ x, 0 <= x → bit map' x = if bool_decide (in_range r sz x) then true else bit map x).
Proof.
  intros H Hg Hk Hor Hsz sz Ho. pose proof (size_rounding size ltac:(lia)) as (_&Hv&_). fold sz in Hv.
  pose proof (zi_blocks _ _ _ _ _ _ H) as Hb. pose proof (zi_total _ _ _ _ _ _ H) as [Hlo _].
  assert (PAGE_SIZE | 2 ^ k) as Hpk.
  { exists (2 ^ (k - 12)). change PAGE_SIZE with (2 ^ 12). rewrite <- Z.pow_add_r by lia. f_equal. lia. }
  destruct Ho as [p s r z' hs' map' E Hpr Hfit Hd Hr Hinv Hbits|z' hs' Hinv|p s z' hs' E Hc Hlt Hinv].
  - right. exists (carve F p s r sz). assert (PAGE_SIZE | r) as Hdp by (by etrans).
    pose proof (blk_range _ _ _ _ Hb p s E). pose proof Hv as [? ?].
    destruct (carve_ok lo (total_pages z) gap F p s r sz) as [_ Hcc]; try done; try lia.
    split_and!; try done; try lia.
    + intros x ?. exists p, s. unfold in_range in *. split; [done|lia].
    + intros x ?. rewrite Hbits by done. unfold in_range. repeat case_z; case_bool_decide; simpl; done || lia.
  - left. by exists F.
  - left. exists (cut F p s (round_up p (2 ^ k))). split; [done|]. split; [done|].
    pose proof (round_up_spec p (2 ^ k) ltac:(apply Z.pow_pos_nonneg; lia)) as [? Hdr].
    split; [|split].
    + destruct (Z.eqb_spec k 12); [done|]. destruct Hor; [done|by subst gap].
    + intros ->. destruct (blk_align _ _ _ _ Hb p s E) as [Hap _]. change (2 ^ 12) with PAGE_SIZE in *.
      pose proof (round_up_least p PAGE_SIZE p ltac:(done) ltac:(lia) Hap).
      replace (round_up p PAGE_SIZE) with p by lia. by apply cut_same.
    + eapply cut_ok; [done|done|lia|by etrans|lia].
Qed.

(** What the allocation of [sz] bytes does to both zones: it took [r], or it
    returned 0 and the free pages are what they were. *)
Definition alloc_any (k : Z) (s s' : pma_state) (FN FL FN' FL' : gmap Z Z) (r sz : Z) : Prop :=
  (r = 0 ∧ (k = 12 → FN' = FN ∧ FL' = FL) ∧ (∀ x, free_page FN' FL' x ↔ free_page FN FL x) ∧
   same_zone (pma_low s) (pma_low s') ∧ same_zone (pma_normal s) (pma_normal s')) ∨
  (2 ^ k | r) ∧ took s s' FN FL FN' FL' r sz.

Lemma alloc_normal_ok gap k s FN FL size :
  pma_inv_gap gap s FN FL → 0 <= gap <= 1 → 12 <= k <= 40 → k = 12 ∨ gap = 0 → 0 < size <= 2 ^ 46 →
  k = 12 ∨ 2 ^ k <= round_up size PAGE_SIZE →
  ∃ r s' FN', alloc_normal s size (2 ^ k) = Ok (r, s') ∧ pma_inv_gap gap s' FN' FL ∧
    alloc_any k s s' FN FL FN' FL r (round_up size PAGE_SIZE).
Proof.
  intros H Hg Hk Hor Hsz Hal. pose proof (pi_normal _ _ _ _ H) as Hn.
  destruct (alloc_from_zone_ok _ gap _ _ _ FN size k Hn Hg Hk Hsz Hal) as (r&z'&hs'&map'&E&Hz&Hf&Hl&Ho).
  unfold alloc_normal. rewrite E. cbn [mbind result_bind].
  destruct (carve_outcome _ _ _ _ _ _ _ _ _ _ _ _ Hn Hg Hk Hor Hsz Ho)
    as [(FN'&->&->&Hinv&Heq&Hcov)|(FN'&Hr&Hdk&Hd&Hlo&Hhi&Hinv&Hin&Hcov&Hbits)].
  - exists 0, (mkPma z' (pma_low s) hs' (bitmap s)), FN'. split; [done|]. split; [by eapply inv_normal|]. left. split_and!; try done; [auto|].
    intros x. unfold free_page. by rewrite Hcov.
  - exists r, (mkPma z' (pma_low s) hs' map'), FN'. split; [done|]. split.
    { eapply inv_normal; try done. intros x Hx. rewrite Hbits, bool_decide_false by (unfold in_range, PAGE_SIZE in *; lia). done. }
    right. split; [done|]. split_and!; try done; [by right|unfold free_page; auto|].
    intros x. unfold free_page. rewrite Hcov. split; [|tauto]. intros [[? ?]|Hc]; [tauto|]. split; [by right|].
    pose proof (covered_zone _ _ _ _ _ _ _ (pi_low _ _ _ _ H) Hc). pose proof (pi_top _ _ _ _ H). unfold in_range, PAGE_SIZE in *. lia.
Qed.

Lemma alloc_low_ok gap k s FN FL size :
  pma_inv_gap gap s FN FL → 0 <= gap <= 1 → 12 <= k <= 40 → k = 12 ∨ gap = 0 → 0 < size <= 2 ^ 46 →
  k = 12 ∨ 2 ^ k <= round_up size PAGE_SIZE →
  ∃ r s' FL', alloc_low s size (2 ^ k) = Ok (r, s') ∧ pma_inv_gap gap s' FN FL' ∧
    alloc_any k s s' FN FL FN FL' r (round_up size PAGE_SIZE).
Proof.
  intros H Hg Hk Hor Hsz Hal. pose proof (pi_low _ _ _ _ H) as Hn. pose proof (pi_top _ _ _ _ H).
  destruct (alloc_from_zone_ok _ gap _ _ _ FL size k Hn Hg Hk Hsz Hal) as (r&z'&hs'&map'&E&Hz&Hf&Hl&Ho).
  unfold alloc_low. rewrite E. cbn [mbind result_bind].
  destruct (carve_outcome _ _ _ _ _ _ _ _ _ _ _ _ Hn Hg Hk Hor Hsz Ho)
    as [(FL'&->&->&Hinv&Heq&Hcov)|(FL'&Hr&Hdk&Hd&Hlo&Hhi&Hinv&Hin&Hcov&Hbits)].
  - exists 0, (mkPma (pma_normal s) z' hs' (bitmap s)), FL'. split; [done|]. split; [eapply inv_low; try done; apply (pi_edge _ _ _ _ H)|]. left. split_and!; try done; [auto|].
    intros x. unfold free_page. by rewrite Hcov.
  - exists r, (mkPma (pma_normal s) z' hs' map'), FL'. split; [done|]. split.
    { eapply inv_low; try done.
      - intros x Hx. pose proof (zi_total _ _ _ _ _ _ Hn) as [_ [? _]].
        rewrite Hbits, bool_decide_false by (unfold in_range, PAGE_SIZE in *; lia). done.
      - destruct (pi_edge _ _ _ _ H) as [|He]; [by left|right]. rewrite Hbits by done. by case_bool_decide. }
    right. split; [done|]. split_and!; try done; [left; split; [lia|done]|unfold free_page; auto|].
    intros x. unfold free_page. rewrite Hcov. split; [|tauto]. intros [Hc|[? ?]]; [|tauto]. split; [by left|].
    pose proof (covered_zone _ _ _ _ _ _ _ (pi_normal _ _ _ _ H) Hc). unfold in_range, PAGE_SIZE in *. lia.
Qed.

Lemma round_up_pages count : round_up (count * PAGE_SIZE) PAGE_SIZE = count * PAGE_SIZE.
Proof.
  pose proof (round_up_least (count * PAGE_SIZE) PAGE_SIZE (count * PAGE_SIZE) ltac:(done) ltac:(lia) ltac:(by apply Z.divide_factor_r)).
  pose proof (round_up_spec (count * PAGE_SIZE) PAGE_SIZE ltac:(done)). lia.
Qed.

Lemma took_same s1 s2 s' FN FL FN' FL' FN1 FL1 r len :
  same_zone (pma_low s1) (pma_low s2) → same_zone (pma_normal s1) (pma_normal s2) →
  (∀ x, free_page FN1 FL1 x ↔ free_page FN FL x) →
  took s2 s' FN1 FL1 FN' FL' r len → took s1 s' FN FL FN' FL' r len.
Proof.
  intros Hl Hn Hfree (?&?&Hz&?&?&Hin&Hout). split_and!; try done; [|by eapply same_zone_trans..| |].
  - unfold in_one_zone in *. destruct Hl as (_&_&<-), Hn as (_&_&<-). done.
  - intros x ?. by apply Hfree, Hin.
  - intros x. by rewrite Hout, Hfree.
Qed.

(** The normal zone first, then the low one: the order of both entry points. *)
Lemma alloc_both_ok gap k s FN FL size :
  pma_inv_gap gap s FN FL → 0 <= gap <= 1 → 12 <= k <= 40 → k = 12 ∨ gap = 0 → 0 < size <= 2 ^ 46 →
  k = 12 ∨ 2 ^ k <= round_up size PAGE_SIZE →
  ∃ r s' FN' FL',
    (' (ret, s) ← alloc_normal s size (2 ^ k); if ret =? 0 then alloc_low s size (2 ^ k) else mret (ret, s)) = Ok (r, s') ∧
    pma_inv_gap gap s' FN' FL' ∧ alloc_any k s s' FN FL FN' FL' r (round_up size PAGE_SIZE).
Proof.
  intros H Hg Hk Hor Hsz Hal.
  destruct (alloc_normal_ok gap k s FN FL _ H Hg Hk Hor Hsz Hal) as (r&s1&FN1&->&H1&Hr); cbn [mbind result_bind].
  destruct Hr as [(->&Heq&Hfree&Hl&Hn)|[Hd Ht]].
  - cbn [Z.eqb]. destruct (alloc_low_ok gap k s1 FN1 FL _ H1 Hg Hk Hor Hsz Hal) as (r&s2&FL2&->&H2&Hr).
    exists r, s2, FN1, FL2. do 2 (split; [done|]). destruct Hr as [(->&Heq2&Hfree2&Hl2&Hn2)|[Hd Ht]].
    + left. split_and!; try done; [|by intros x; rewrite Hfree2|by eapply same_zone_trans..].
      intros Hk12. by destruct (Heq Hk12) as [-> _], (Heq2 Hk12) as [_ ->].
    + right. split; [done|]. by eapply took_same.
  - pose proof Ht as [? _]. rewrite (proj2 (Z.eqb_neq r 0)) by lia. exists r, s1, FN1, FL. do 2 (split; [done|]). by right.
Qed.

(** [pma_alloc_pages] as its callers see it. *)
Definition alloc_result (s s' : pma_state) (FN FL FN' FL' : gmap Z Z) (r count : Z) : Prop :=
  (r = 0 ∧ FN' = FN ∧ FL' = FL ∧ same_zone (pma_low s) (pma_low s') ∧ same_zone (pma_normal s) (pma_normal s')) ∨
  took s s' FN FL FN' FL' r (count * PAGE_SIZE).

Lemma alloc_any_result s s' FN FL FN' FL' r count :
  alloc_any 12 s s' FN FL FN' FL' r (round_up (count * PAGE_SIZE) PAGE_SIZE) → alloc_result s s' FN FL FN' FL' r count.
Proof.
  rewrite round_up_pages. intros [(->&Heq&_&Hl&Hn)|[_ Ht]]; [left|by right].
  destruct (Heq eq_refl) as [-> ->]. done.
Qed.

Lemma pma_alloc_pages_any gap s FN FL count :
  pma_inv_gap gap s FN FL → 0 <= gap <= 1 → 0 < count <= 2 ^ 34 →
  ∃ r s' FN' FL', pma_alloc_pages s count = Ok (r, s') ∧ pma_inv_gap gap s' FN' FL' ∧
    alloc_any 12 s s' FN FL FN' FL' r (count * PAGE_SIZE).
Proof.
  intros H Hg Hc. unfold pma_alloc_pages. rewrite u64_id by (unfold PAGE_SIZE; lia).
  change PAGE_SIZE with (2 ^ 12) at 2 4.
  destruct (alloc_both_ok gap 12 s FN FL (count * PAGE_SIZE) H Hg) as (r&s'&FN'&FL'&E&H'&Hr);
    [lia|by left|unfold PAGE_SIZE; lia|by left|].
  rewrite round_up_pages in Hr. by exists r, s', FN', FL'.
Qed.

Lemma pma_alloc_pages_ok gap s FN FL count :
  pma_inv_gap gap s FN FL → 0 <= gap <= 1 → 0 < count <= 2 ^ 34 →
  ∃ r s' FN' FL', pma_alloc_pages s count = Ok (r, s') ∧ pma_inv_gap gap s' FN' FL' ∧
    alloc_result s s' FN FL FN' FL' r count.
Proof.
  intros H Hg Hc. destruct (pma_alloc_pages_any gap s FN FL count H Hg Hc) as (r&s'&FN'&FL'&?&?&Hr).
  rewrite <- round_up_pages in Hr. exists r, s', FN', FL'. do 2 (split; [done|]). by apply alloc_any_result.
Qed.

Lemma pma_inv_weaken s FN FL : pma_inv s FN FL → pma_inv_gap 0 s FN FL.
Proof.
  intros []. split; try done; by apply (zone_inv_weaken _ 1).
Qed.

(** Huge pages: a failure may leave a block cut in two. *)
Lemma pma_alloc_pages_2mb_ok s FN FL count :
  pma_inv_gap 0 s FN FL → 0 < count <= 2 ^ 25 →
  ∃ r s' FN' FL', pma_alloc_pages_2mb s count = Ok (r, s') ∧ pma_inv_gap 0 s' FN' FL' ∧
    alloc_any 21 s s' FN FL FN' FL' r (count * PAGE_SIZE_2MB).
Proof.
  intros H Hc. unfold pma_alloc_pages_2mb. rewrite u64_id by (unfold PAGE_SIZE_2MB; lia).
  assert (round_up (count * PAGE_SIZE_2MB) PAGE_SIZE = count * PAGE_SIZE_2MB) as Er.
  { replace (count * PAGE_SIZE_2MB) with (count * 512 * PAGE_SIZE) by (unfold PAGE_SIZE_2MB, PAGE_SIZE; lia). apply round_up_pages. }
  destruct (alloc_both_ok 0 21 s FN FL (count * PAGE_SIZE_2MB) H) as (r&s'&FN'&FL'&E&H'&Hr);
    [lia|lia|by right|unfold PAGE_SIZE_2MB; lia|right; rewrite Er; unfold PAGE_SIZE_2MB; lia|].
  rewrite Er in Hr. change PAGE_SIZE_2MB with (2 ^ 21) in *. by exists r, s', FN', FL'.
Qed.

Lemma pma_alloc_pages_low_ok s FN FL count :
  pma_inv s FN FL → 0 < count <= 2 ^ 34 →
  ∃ r s' FN' FL', pma_alloc_pages_low s count = Ok (r, s') ∧ pma_inv s' FN' FL' ∧
    alloc_result s s' FN FL FN' FL' r count.
Proof.
  intros H Hc. unfold pma_alloc_pages_low. rewrite u64_id by (unfold PAGE_SIZE; lia).
  assert (0 < count * PAGE_SIZE <= 2 ^ 46) as Hsz by (unfold PAGE_SIZE; lia).
  change PAGE_SIZE with (2 ^ 12) at 2.
  destruct (alloc_low_ok 1 12 s FN FL _ H ltac:(lia) ltac:(lia) ltac:(by left) Hsz ltac:(by left)) as (r&s'&FL'&E&H'&Hr).
  exists r, s', FN, FL'. split; [exact E|]. split; [done|]. by apply alloc_any_result.
Qed.

(** * Release *)

Lemma uncovered_apart lo total gap F r len :
  blocks_ok lo total gap F → (PAGE_SIZE | r) → (PAGE_SIZE | len) → 0 < len →
  (∀ x, in_range r len x → ¬ covered F x) → apart 0 F r len.
Proof.
  intros H [a ->] [l ->] Hl Hn p s E. destruct (blk_align _ _ _ _ H p s E) as [[c ->] [? [d ->]]].
  unfold PAGE_SIZE in *. rewrite !Z.add_0_r. destruct (decide (c + d <= a)); [left; lia|].
  destruct (decide (a + l <= c)); [right; lia|]. exfalso. apply (Hn (Z.max a c)).
  - unfold in_range, PAGE_SIZE. lia.
  - exists (c * 4096), (d * 4096). unfold PAGE_SIZE. split; [done|lia].
Qed.

(** The page below 4 GiB stays used when [len] bytes at [r] are released. *)
Definition edge_ok (s : pma_state) (r len : Z) : Prop :=
  total_pages (pma_normal s) <= PMA_ZONE_32BIT ∨ ¬ in_range r len (PMA_ZONE_32BIT - 1).

(** A live allocation: pages of one zone, none of them free. *)
Record live_ok (s : pma_state) (FN FL : gmap Z Z) (r count : Z) : Prop := {
  lv_pos : 0 < r ∧ 0 < count;
  lv_align : (PAGE_SIZE | r);
  lv_zone : in_one_zone s r (count * PAGE_SIZE);
  lv_used x : in_range r (count * PAGE_SIZE) x → ¬ free_page FN FL x;
  lv_edge : edge_ok s r (count * PAGE_SIZE)
}.

Lemma low_limit_eq : low_limit = PMA_ZONE_32BIT * PAGE_SIZE.
Proof. done. Qed.

Lemma pma_free_pages_ok s FN FL r count :
  pma_inv s FN FL → live_ok s FN FL r count →
  ∃ s' FN' FL', pma_free_pages s r count = Ok s' ∧ pma_inv s' FN' FL' ∧
    same_zone (pma_low s) (pma_low s') ∧ same_zone (pma_normal s) (pma_normal s') ∧
    ∀ x, free_page FN' FL' x ↔ free_page FN FL x ∨ in_range r (count * PAGE_SIZE) x.
Proof.
  intros H [[Hr Hc] Ha Hz Hu Hedge]. pose proof (pi_low _ _ _ _ H) as Hlow. pose proof (pi_normal _ _ _ _ H) as Hnorm.
  pose proof (pi_top _ _ _ _ H). pose proof (zi_total _ _ _ _ _ _ Hlow) as [_ [? ?]].
  pose proof (zi_total _ _ _ _ _ _ Hnorm) as [? [? ?]].
  assert (0 < count * PAGE_SIZE) by (unfold PAGE_SIZE; lia).
  unfold pma_free_pages. rewrite (proj2 (Z.eqb_neq r 0)) by lia.
  assert (r + count * PAGE_SIZE < 2 ^ 48) by (unfold in_one_zone, PAGE_SIZE in *; lia).
  rewrite !u64_id by (rewrite ?u64_id by lia; lia). rewrite low_limit_eq, !Z.gtb_ltb.
  destruct Hz as [[_ Hz]|[Hlo Hz]].
  - rewrite Z.min_l, Z.max_r, (proj2 (Z.ltb_lt r _)), (proj2 (Z.ltb_ge _ (r + _))) by (unfold PAGE_SIZE in *; lia).
    replace (r + count * PAGE_SIZE - r) with (count * PAGE_SIZE) by lia. rewrite Z.div_mul by done.
    destruct (zone_free_range_ok 0 _ _ _ FL r count Hlow) as (z'&hs'&map'&FL'&E&Hinv&Hzz&Hf&Hl&Hcov&Hbits);
      [by left|done|done|lia|done|done| |].
    { eapply uncovered_apart; [apply Hlow|done|by apply Z.divide_factor_r|done|].
      intros x Hx Hcx. apply (Hu x Hx). by right. }
    unfold on_low. rewrite E. cbn [mbind result_bind].
    exists (mkPma (pma_normal s) z' hs' map'), FN, FL'. split; [done|]. split; [|split_and!; try done].
    + eapply inv_low; try done.
      * intros x Hx. rewrite Hbits by lia. unfold PAGE_SIZE in *. repeat case_z; simpl; done || lia.
      * destruct Hedge as [He|He]; [by left|]. destruct (pi_edge _ _ _ _ H) as [|Hb]; [by left|right].
        rewrite Hbits by done. unfold in_range in He. repeat case_z; simpl; done || lia.
    + intros x. unfold free_page. rewrite Hcov. unfold in_range. tauto.
  - rewrite Z.min_r, (proj2 (Z.ltb_ge r _)), Z.max_l, (proj2 (Z.ltb_lt r (r + _))) by (unfold PAGE_SIZE in *; lia).
    cbn [mbind result_bind mret result_ret].
    replace (r + count * PAGE_SIZE - r) with (count * PAGE_SIZE) by lia. rewrite Z.div_mul by done.
    destruct (pi_edge _ _ _ _ H) as [|Hb]; [unfold PAGE_SIZE in *; lia|].
    destruct (zone_free_range_ok PMA_ZONE_32BIT _ _ _ FN r count Hnorm) as (z'&hs'&map'&FN'&E&Hinv&Hzz&Hf&Hl&Hcov&Hbits);
      [by right|done|done|done|done|done| |].
    { eapply uncovered_apart; [apply Hnorm|done|by apply Z.divide_factor_r|done|].
      intros x Hx Hcx. apply (Hu x Hx). by left. }
    unfold on_normal. rewrite E. cbn [mbind result_bind].
    exists (mkPma z' (pma_low s) hs' map'), FN', FL. split; [done|]. split; [|split_and!; try done].
    + eapply inv_normal; try done.
      intros x Hx. rewrite Hbits by lia. unfold PAGE_SIZE in *. repeat case_z; simpl; done || lia.
    + intros x. unfold free_page. rewrite Hcov. unfold in_range. tauto.
Qed.

(** * Sequences of operations *)

(** [pma_reach s0 s live]: [s] is reached from [s0] by page allocations and by
    releases of live allocations; [live] are the allocations not released. *)
Inductive pma_reach (s0 : pma_state) : pma_state → list (Z * Z) → Prop :=
| reach_start : pma_reach s0 s0 []
| reach_alloc s live count r s' :
    pma_reach s0 s live → 0 < count <= 2 ^ 34 → pma_alloc_pages s count = Ok (r, s') →
    pma_reach s0 s' (if decide (r = 0) then live else (r, count) :: live)
| reach_alloc_low s live count r s' :
    pma_reach s0 s live → 0 < count <= 2 ^ 34 → pma_alloc_pages_low s count = Ok (r, s') →
    pma_reach s0 s' (if decide (r = 0) then live else (r, count) :: live)
| reach_free s l1 r count l2 s' :
    pma_reach s0 s (l1 ++ (r, count) :: l2) → pma_free_pages s r count = Ok s' →
    pma_reach s0 s' (l1 ++ l2).

Definition disjoint_ranges (a b : Z * Z) : Prop :=
  a.1 + a.2 * PAGE_SIZE <= b.1 ∨ b.1 + b.2 * PAGE_SIZE <= a.1.

(** Page [x] belongs to a live allocation. *)
Definition live_page (live : list (Z * Z)) (x : Z) : Prop :=
  Exists (λ a, in_range a.1 (a.2 * PAGE_SIZE) x) live.

Record sys_ok (P : Z → Prop) (s : pma_state) (live : list (Z * Z)) (FN FL : gmap Z Z) : Prop := {
  sys_inv : pma_inv s FN FL;
  sys_live : Forall (λ a, live_ok s FN FL a.1 a.2) live;
  sys_disjoint : ForallOrdPairs disjoint_ranges live;
  (** no page is lost or gained *)
  sys_pages x : P x ↔ free_page FN FL x ∨ live_page live x
}.

Lemma ranges_disjoint r n r' n' :
  (PAGE_SIZE | r) → (PAGE_SIZE | r') → 0 < n → 0 < n' →
  (∀ x, in_range r (n * PAGE_SIZE) x → ¬ in_range r' (n' * PAGE_SIZE) x) →
  disjoint_ranges (r, n) (r', n').
Proof.
  intros [a ->] [b ->] ?? H. unfold disjoint_ranges; simpl. unfold in_range, PAGE_SIZE in *.
  destruct (decide (a + n <= b)); [left; lia|]. destruct (decide (b + n' <= a)); [right; lia|].
  exfalso. apply (H (Z.max a b)); lia.
Qed.

Lemma same_one_zone s s' r len :
  same_zone (pma_low s) (pma_low s') → same_zone (pma_normal s) (pma_normal s') →
  in_one_zone s r len → in_one_zone s' r len.
Proof. intros (_&_&E1) (_&_&E2). unfold in_one_zone. by rewrite E1, E2. Qed.

Lemma live_ok_mono s s' FN FL FN' FL' r count :
  live_ok s FN FL r count → same_zone (pma_low s) (pma_low s') → same_zone (pma_normal s) (pma_normal s') →
  (∀ x, in_range r (count * PAGE_SIZE) x → free_page FN' FL' x → free_page FN FL x) →
  live_ok s' FN' FL' r count.
Proof.
  intros [? ? ? Hu He] Hl Hn Hm. split; try done.
  - by eapply same_one_zone.
  - intros x Hx Hf. apply (Hu x Hx). by apply Hm.
  - destruct Hn as (_&_&E). destruct He; [left; by rewrite E|by right].
Qed.

Lemma took_sys P s s' live FN FL FN' FL' r count :
  sys_ok P s live FN FL → pma_inv s' FN' FL' → 0 < count → took s s' FN FL FN' FL' r (count * PAGE_SIZE) →
  sys_ok P s' ((r, count) :: live) FN' FL'.
Proof.
  intros [Hi Hl Hd Hpg] Hi' Hc (Hr&Ha&Hz&Hzl&Hzn&Hin&Hfp). split; [done| | |].
  - constructor; simpl.
    + split; try done; [by eapply same_one_zone|intros x Hx [_ ?]%Hfp; tauto|].
      destruct (pi_edge _ _ _ _ Hi) as [He|He]; [left; destruct Hzn as (_&_&E); by rewrite E|right].
      intros Hx. apply Hin in Hx as [Hx|Hx].
      * pose proof (covered_zone _ _ _ _ _ _ _ (pi_normal _ _ _ _ Hi) Hx). lia.
      * pose proof (covered_zone _ _ _ _ _ _ _ (pi_low _ _ _ _ Hi) Hx) as Hxr.
        apply (zi_bits _ _ _ _ _ _ (pi_low _ _ _ _ Hi)) in Hx; [congruence|done].
    + eapply Forall_impl; [exact Hl|]. intros a Hok. eapply live_ok_mono; [exact Hok|done|done|].
      intros x _ Hx. by apply Hfp in Hx as [? _].
  - constructor; [|done]. eapply Forall_impl; [exact Hl|]. intros [q n] [[? ?] Ha' _ Hu _]. simpl in *.
    apply ranges_disjoint; try done. intros x Hx Hx'. by apply (Hu x Hx'), Hin.
  - intros x. rewrite Hpg, Hfp. unfold live_page. rewrite Exists_cons. simpl.
    destruct (decide (in_range r (count * PAGE_SIZE) x)) as [Hx|]; [|tauto]. pose proof (Hin x Hx). tauto.
Qed.

Lemma alloc_result_sys P s s' live FN FL FN' FL' r count :
  sys_ok P s live FN FL → pma_inv s' FN' FL' → 0 < count → alloc_result s s' FN FL FN' FL' r count →
  sys_ok P s' (if decide (r = 0) then live else (r, count) :: live) FN' FL'.
Proof.
  intros Hs Hi' Hc [(->&->&->&Hl&Hn)|Ht].
  - simpl. destruct Hs as [Hi Hlv Hd Hpg]. split; [done| |done|done]. eapply Forall_impl; [exact Hlv|].
    intros a Hok. by eapply live_ok_mono; [exact Hok|..].
  - pose proof Ht as [? _]. rewrite decide_False by lia. by eapply took_sys.
Qed.

Lemma pairs_remove {A} (R : A → A → Prop) l1 x l2 :
  (∀ a b, R a b → R b a) → ForallOrdPairs R (l1 ++ x :: l2) →
  ForallOrdPairs R (l1 ++ l2) ∧ Forall (R x) (l1 ++ l2).
Proof.
  intros Hsym. induction l1 as [|y l1 IH]; simpl; intros Hp; inversion_clear Hp as [|? ? Hy Hl]; [done|].
  destruct (IH Hl) as [? ?]. apply Forall_app in Hy as [Hy1 Hy2]. apply Forall_cons in Hy2 as [Hyx Hy2].
  split; [constructor; [by apply Forall_app|done]|]. constructor; [by apply Hsym|done].
Qed.

Lemma free_sys P s s' l1 r count l2 FN FL FN' FL' :
  sys_ok P s (l1 ++ (r, count) :: l2) FN FL → pma_inv s' FN' FL' →
  same_zone (pma_low s) (pma_low s') → same_zone (pma_normal s) (pma_normal s') →
  (∀ x, free_page FN' FL' x ↔ free_page FN FL x ∨ in_range r (count * PAGE_SIZE) x) →
  sys_ok P s' (l1 ++ l2) FN' FL'.
Proof.
  intros [Hi Hlv Hd Hpg] Hi' Hl Hn Hfp.
  apply pairs_remove in Hd as [Hd Hdx]; [|unfold disjoint_ranges; intros; lia].
  split; [done| |done|].
  2: { intros x. rewrite Hpg, Hfp. unfold live_page. rewrite !Exists_app, Exists_cons. simpl. tauto. }
  apply Forall_app in Hlv as [Hl1 Hl2]. apply Forall_cons in Hl2 as [_ Hl2].
  assert (Forall (λ a, live_ok s FN FL a.1 a.2) (l1 ++ l2)) as Hlv by (by apply Forall_app).
  rewrite Forall_forall in *. intros a Ha. eapply live_ok_mono; [by apply Hlv|done|done|].
  intros x Hx Hf. apply Hfp in Hf as [|Hf]; [done|]. specialize (Hdx a Ha).
  unfold disjoint_ranges, in_range, PAGE_SIZE in *. simpl in *. lia.
Qed.

Lemma pma_reach_ok P s0 s live FN0 FL0 :
  pma_inv s0 FN0 FL0 → (∀ x, P x ↔ free_page FN0 FL0 x) → pma_reach s0 s live → ∃ FN FL, sys_ok P s live FN FL.
Proof.
  intros H0 HP Hr. induction Hr as [|s live count r s' _ IH Hc E|s live count r s' _ IH Hc E|s l1 r count l2 s' _ IH E].
  - exists FN0, FL0. split; [done|constructor|constructor|]. intros x. rewrite HP. unfold live_page. rewrite Exists_nil. tauto.
  - destruct IH as (FN&FL&Hs). destruct (pma_alloc_pages_ok 1 s FN FL count (sys_inv _ _ _ _ _ Hs) ltac:(lia) Hc)
      as (r'&s''&FN'&FL'&E'&Hi'&Hres). rewrite E in E'. injection E' as <- <-.
    exists FN', FL'. eapply alloc_result_sys; try done. lia.
  - destruct IH as (FN&FL&Hs). destruct (pma_alloc_pages_low_ok s FN FL count (sys_inv _ _ _ _ _ Hs) Hc)
      as (r'&s''&FN'&FL'&E'&Hi'&Hres). rewrite E in E'. injection E' as <- <-.
    exists FN', FL'. eapply alloc_result_sys; try done. lia.
  - destruct IH as (FN&FL&Hs). pose proof (sys_live _ _ _ _ _ Hs) as Hlv.
    apply Forall_app in Hlv as [_ Hlv]. apply Forall_cons in Hlv as [Hlv _].
    destruct (pma_free_pages_ok s FN FL r count (sys_inv _ _ _ _ _ Hs) Hlv) as (s''&FN'&FL'&E'&Hi'&Hl&Hn&Hfp).
    rewrite E in E'. injection E' as <-. exists FN', FL'. by eapply free_sys.
Qed.

(** * Boot *)

Lemma page_up x : (PAGE_SIZE | x) → 0 <= x < 2 ^ 60 →
  Z.land (u64 (x + PAGE_SIZE - 1)) (not64 (PAGE_SIZE - 1)) = x ∧ Z.land x (not64 (PAGE_SIZE - 1)) = x.
Proof.
  unfold PAGE_SIZE. intros [a ->] Hx. change (4096 - 1) with (2 ^ 12 - 1).
  rewrite u64_id, !land_mask by lia. change (2 ^ 12) with 4096.
  replace (a * 4096 + 4096 - 1) with (4095 + a * 4096) by lia. rewrite Z.div_add, Z.div_mul by lia.
  change (4095 / 4096) with 0. lia.
Qed.

(** The first page is never handed out. *)
Definition skip_null (start : Z) : Z := if start =? 0 then PAGE_SIZE else start.

Lemma zone_add_region_ok lo z hs map F start fin :
  zone_inv lo 1 z hs map F → (PAGE_SIZE | start) → (PAGE_SIZE | fin) → start < fin →
  lo * PAGE_SIZE <= start → 0 <= start → fin <= total_pages z * PAGE_SIZE →
  (∀ p s, F !! p = Some s → p + s < start) →
  ∃ z' hs' map' F', pma_zone_add_region (z, hs, map) start (fin - start) = Ok (z', hs', map') ∧
    zone_inv lo 1 z' hs' map' F' ∧ same_zone z z' ∧ frame (zone_key z lo) hs hs' ∧
    List.length map' = List.length map ∧
    (∀ x, covered F' x ↔ covered F x ∨ (x ≠ 0 ∧ start <= x * PAGE_SIZE < fin)) ∧
    (∀ x, 0 <= x → ¬ (start <= x * PAGE_SIZE < fin) → bit map' x = bit map x) ∧
    (∀ p s, F' !! p = Some s → p + s <= fin).
Proof.
  intros H Ha Hfa Hlt Hlo H0 Hhi Hbelow. pose proof (zi_total _ _ _ _ _ _ H) as [? [? Htot]].
  unfold pma_zone_add_region, PMA_BLOCK_HEADER_SIZE.
  pose proof (page_gap start fin Ha Hfa Hlt) as Hg.
  rewrite (proj2 (Z.ltb_ge _ 24)) by (unfold PAGE_SIZE in *; lia).
  replace (start + (fin - start)) with fin by lia. rewrite (u64_id fin) by (unfold PAGE_SIZE in *; lia).
  destruct (page_up start Ha ltac:(unfold PAGE_SIZE in *; lia)) as [-> _].
  destruct (page_up fin Hfa ltac:(unfold PAGE_SIZE in *; lia)) as [_ ->].
  rewrite (proj2 (Z.leb_gt fin start)) by done.
  assert ((if start =? 0 then start + PAGE_SIZE else start) = skip_null start) as ->.
  { unfold skip_null. case_z; [subst|]; done. }
  set (st := skip_null start) in *.
  assert (start <= st ∧ 0 < st ∧ (PAGE_SIZE | st)) as (Hst&Hst0&Hsta).
  { unfold st, skip_null. case_z; [|split_and!; done || lia]. unfold PAGE_SIZE. split_and!; [lia|lia|done]. }
  assert (∀ x, x ≠ 0 ∧ start <= x * PAGE_SIZE < fin ↔ st <= x * PAGE_SIZE < fin) as Hpages.
  { intros x. unfold st, skip_null, PAGE_SIZE in *. case_z; lia. }
  destruct ((start =? 0) && (fin <=? st)) eqn:Eskip.
  { apply andb_true_iff in Eskip as [? ?]. zify_bools. exists z, hs, map, F. split_and!; try done.
    - intros x. rewrite Hpages. split; [by left|]. intros [|]; [done|lia].
    - intros p s E. pose proof (Hbelow p s E). lia. }
  assert (st < fin) as Hstf.
  { unfold st, skip_null in *. destruct (Z.eqb_spec start 0); simpl in Eskip; zify_bools; lia. }
  destruct Hsta as [a Ea], Hfa as [b ->]. rewrite Ea. rewrite <- Z.mul_sub_distr_r, !Z.div_mul by done.
  destruct (set_pages_ok (λ m pfn, if pfn <? total_pages z then pma_page_set_free z m pfn else mret m) false
              (total_pages z) (Z.to_nat (b - a)) a map (List.length map)) as (map'&->&Hl&Hm'&Hbits); [|apply H|done|unfold PAGE_SIZE in *; lia|].
  { intros m i ? El ?. case_z; [|exists m; split_and!; try done; intros j ?; repeat case_z; simpl; done || lia].
    apply page_set_free_ok; [done|done|rewrite El; apply H]. }
  cbn [mbind result_bind]. unfold block_from_phys.
  assert (valid_size ((b - a) * PAGE_SIZE)) as Hv.
  { split; [unfold PAGE_SIZE in *; lia|by apply Z.divide_factor_r]. }
  assert (apart 1 F (a * PAGE_SIZE) ((b - a) * PAGE_SIZE)) as Hap.
  { intros p s E. pose proof (Hbelow p s E). lia. }
  assert (F !! (a * PAGE_SIZE) = None) as En.
  { apply (blocks_none lo (total_pages z) 1 F _ (a * PAGE_SIZE) ((b - a) * PAGE_SIZE)); [apply H|done|lia|apply Hv|done]. }
  destruct (add_block_ok z hs F (a * PAGE_SIZE) ((b - a) * PAGE_SIZE)) as (z'&hs'&->&Ht'&Hz'&Hf'); [apply H|done|done|lia|unfold PAGE_SIZE in *; lia|].
  cbn [mbind result_bind]. pose proof Hz' as (_&_&Et).
  assert (blocks_ok lo (total_pages z) 1 (<[a * PAGE_SIZE := (b - a) * PAGE_SIZE]> F)) as Hb'.
  { apply blocks_insert; try done; try lia; [apply H|by apply Z.divide_factor_r]. }
  exists z', hs', map', (<[a * PAGE_SIZE := (b - a) * PAGE_SIZE]> F).
  assert (∀ x, covered (<[a * PAGE_SIZE := (b - a) * PAGE_SIZE]> F) x ↔
             covered F x ∨ (x ≠ 0 ∧ start <= x * PAGE_SIZE < b * PAGE_SIZE)) as Hcov.
  { intros x. rewrite covered_insert, Hpages, Ea by done. unfold PAGE_SIZE in *. intuition lia. }
  split_and!; try done.
  - split; rewrite ?Et; try done; [by rewrite Hl; apply H|]. intros x Hx.
    rewrite Hbits, Hcov, Hpages, Ea by lia. rewrite <- (zi_bits _ _ _ _ _ _ H) by done.
    unfold PAGE_SIZE in *. repeat case_z; simpl; intuition (done || lia).
  - eapply frame_weaken; [exact Hf'|]. intros q. by eapply owned_key.
  - intros x ? Hx. rewrite Hbits by done. unfold PAGE_SIZE in *. repeat case_z; simpl; done || lia.
  - intros p s [[<- <-]|[_ E]]%lookup_insert_Some; [lia|]. pose proof (Hbelow p s E). lia.
Qed.

(** Boot so far: the free pages are [P], every free block ends at or below [pos]. *)
Definition boot_inv (s : pma_state) (pos : Z) (P : Z → Prop) : Prop :=
  ∃ FN FL, pma_inv s FN FL ∧ (∀ x, free_page FN FL x ↔ P x) ∧
    (∀ p t, FN !! p = Some t → p + t <= pos) ∧ (∀ p t, FL !! p = Some t → p + t <= pos).

(** The pages a range adds. *)
Definition range_pages (start fin x : Z) : Prop := x ≠ 0 ∧ start <= x * PAGE_SIZE < fin.

Definition zone_sizes (s : pma_state) (total : Z) : Prop :=
  total_pages (pma_normal s) = total ∧ total_pages (pma_low s) = Z.min total PMA_ZONE_32BIT.

Lemma add_range_ok s pos P total start fin :
  boot_inv s pos P → zone_sizes s total → pos < start → 0 <= start < fin → fin <= total * PAGE_SIZE →
  (PAGE_SIZE | start) → (PAGE_SIZE | fin) →
  (total <= PMA_ZONE_32BIT ∨ ¬ (start <= (PMA_ZONE_32BIT - 1) * PAGE_SIZE < fin)) →
  ∃ s', add_range start fin s = Ok s' ∧ boot_inv s' fin (λ x, P x ∨ range_pages start fin x) ∧
    zone_sizes s' total ∧ List.length (bitmap s') = List.length (bitmap s).
Proof.
  intros (FN&FL&Hi&HP&HN&HL) [Hsn Hsl] Hpos Hst Hfin Ha Hfa Hedge. unfold add_range. rewrite low_limit_eq, !Z.gtb_ltb.
  assert (∃ s1 FL1, (if start <? Z.min fin (PMA_ZONE_32BIT * PAGE_SIZE)
     then on_low (λ st, pma_zone_add_region st start (Z.min fin (PMA_ZONE_32BIT * PAGE_SIZE) - start)) s else mret s) = Ok s1 ∧
     pma_inv s1 FN FL1 ∧ zone_sizes s1 total ∧ List.length (bitmap s1) = List.length (bitmap s) ∧
     (∀ x, covered FL1 x ↔ covered FL x ∨ range_pages start (Z.min fin (PMA_ZONE_32BIT * PAGE_SIZE)) x) ∧
     (∀ p t, FL1 !! p = Some t → p + t <= fin)) as (s1&FL1&->&Hi1&[Hsn1 Hsl1]&Hlen1&Hcov1&HL1).
  { case_z.
    - destruct (zone_add_region_ok 0 _ _ _ FL start (Z.min fin (PMA_ZONE_32BIT * PAGE_SIZE)) (pi_low _ _ _ _ Hi))
        as (z'&hs'&map'&FL1&E&Hinv&Hz&Hf&Hl&Hcov&Hbits&Hend); try done; try lia;
        [apply Z.min_case; [done|by apply Z.divide_factor_r]|intros p t E; pose proof (HL p t E); lia|].
      unfold on_low. rewrite E. cbn [mbind result_bind]. exists (mkPma (pma_normal s) z' hs' map'), FL1.
      split_and!; try done.
      + eapply inv_low; try done.
        * intros x Hx. rewrite Hsl in Hx. pose proof (zi_total _ _ _ _ _ _ (pi_low _ _ _ _ Hi)) as [_ [? _]].
          rewrite Hsl in *. apply Hbits; unfold PAGE_SIZE in *; lia.
        * rewrite Hsn. destruct Hedge as [|Hedge]; [by left|].
          destruct (pi_edge _ _ _ _ Hi) as [|He]; [left; lia|right]. rewrite Hbits; [done|done|lia].
      + destruct Hz as (_&_&Et). split; [done|]. simpl. by rewrite Et.
      + intros p t E'. pose proof (Hend p t E'). lia.
    - exists s, FL. split_and!; try done.
      + intros x. split; [by left|]. intros [|[_ ?]]; [done|lia].
      + intros p t E'. pose proof (HL p t E'). lia. }
  cbn [mbind result_bind].
  assert (∀ x, P x ∨ range_pages start fin x ↔ P x ∨ range_pages start (Z.min fin (PMA_ZONE_32BIT * PAGE_SIZE)) x ∨
             range_pages (Z.max start (PMA_ZONE_32BIT * PAGE_SIZE)) fin x) as Hsplit.
  { intros x. unfold range_pages. intuition lia. }
  case_z.
  - destruct (zone_add_region_ok PMA_ZONE_32BIT _ _ _ FN (Z.max start (PMA_ZONE_32BIT * PAGE_SIZE)) fin (pi_normal _ _ _ _ Hi1))
      as (z'&hs'&map'&FN1&E&Hinv&Hz&Hf&Hl&Hcov&Hbits&Hend); try done; try lia;
      [apply Z.max_case; [done|by apply Z.divide_factor_r]|intros p t E; pose proof (HN p t E); lia|].
    unfold on_normal. rewrite E. cbn [mbind result_bind]. eexists. split; [done|].
    destruct Hz as (Eid&Eb&Et). split; [|split; [split; simpl; congruence|simpl; congruence]].
    exists FN1, FL1. split; [|split; [|by split]].
    + eapply inv_normal; try done. intros x Hx. apply Hbits; unfold PAGE_SIZE in *; lia.
    + intros x. rewrite Hsplit, <- HP. unfold free_page. rewrite Hcov, Hcov1. unfold range_pages. tauto.
  - exists s1. split; [done|]. split_and!; try done. exists FN, FL1. split_and!; try done.
    + intros x. rewrite Hsplit, <- HP. unfold free_page. rewrite Hcov1. unfold range_pages. intuition lia.
    + intros p t E'. pose proof (HN p t E'). lia.
Qed.

Lemma boot_inv_iff s pos pos' (P Q : Z → Prop) :
  boot_inv s pos P → pos <= pos' → (∀ x, P x ↔ Q x) → boot_inv s pos' Q.
Proof.
  intros (FN&FL&?&HP&HN&HL) Hp HPQ. exists FN, FL. split; [done|]. split; [intros x; by rewrite HP|].
  split; intros p t E; [pose proof (HN p t E)|pose proof (HL p t E)]; lia.
Qed.

(** Usable regions: page aligned, in order from [pos], never adjacent, below
    [top], and not holding the page below 4 GiB. *)
Fixpoint usable_ok (top pos : Z) (rs : list cmm_region) : Prop :=
  match rs with
  | [] => True
  | r :: rs =>
      if decide (type r = CMM_USABLE) then
        (PAGE_SIZE | Cmm.base r) ∧ (PAGE_SIZE | length r) ∧ pos < Cmm.base r ∧ 0 <= Cmm.base r ∧ 0 <= length r ∧
        rend r <= top ∧
        ¬ (Cmm.base r <= (PMA_ZONE_32BIT - 1) * PAGE_SIZE < rend r) ∧
        usable_ok top (rend r) rs
      else usable_ok top pos rs
  end.

#[export] Instance usable_ok_dec top pos rs : Decision (usable_ok top pos rs).
Proof. revert pos. induction rs as [|r rs IH]; intros pos; simpl; [apply _|]. case_decide; apply _. Defined.

(** The pages a usable region contributes: all but page 0 and the bitmap's. *)
Definition region_pages (b R : Z) (r : cmm_region) (x : Z) : Prop :=
  type r = CMM_USABLE ∧ range_pages (Cmm.base r) (rend r) x ∧ ¬ (b <= x * PAGE_SIZE < b + R).

Lemma find_bitmap_above top pos rs R b :
  usable_ok top pos rs → find_bitmap R rs = Some b → pos < b.
Proof.
  revert pos. induction rs as [|r rs IH]; intros pos; simpl; [done|].
  case_decide; [rewrite bool_decide_true by done|rewrite bool_decide_false by done; simpl; apply IH].
  intros (?&?&?&?&?&?&?&Hr). simpl. destruct (length r >=? R); [by intros [= <-]|].
  intros Hb. pose proof (IH _ Hr Hb). unfold rend in *. lia.
Qed.

(** Marking the bitmap's own pages changes nothing: they are not free yet. *)
Lemma mark_bitmap_ok s pos P total b n :
  boot_inv s pos P → zone_sizes s total → 0 <= b → pos < b * PAGE_SIZE →
  total <= 8 * Z.of_nat (List.length (bitmap s)) →
  ∃ map', set_pages (λ m p, if p <? total then BITMAP_SET m p else mret m) n b (bitmap s) = Ok map' ∧
    List.length map' = List.length (bitmap s) ∧
    boot_inv (mkPma (pma_normal s) (pma_low s) (heads s) map') pos P.
Proof.
  intros (FN&FL&Hi&HP&HN&HL) [Hsn Hsl] Hb Hpos Hlen.
  destruct (set_pages_ok (λ m p, if p <? total then BITMAP_SET m p else mret m) true total n b (bitmap s) (List.length (bitmap s)))
    as (map'&->&Hl&Hm'&Hbits); [|apply (pi_low _ _ _ _ Hi)|done|done|].
  { intros m i ? El ?. case_z; [|exists m; split_and!; try done; intros j ?; repeat case_z; simpl; done || lia].
    destruct (BITMAP_SET_ok m i) as (m'&->&?&?&Hbm); [unfold bit_in; rewrite El; lia|done|].
    exists m'. split_and!; try done. intros j ?. rewrite Hbm by done. repeat case_z; simpl; done || lia. }
  exists map'. split; [done|]. split; [done|].
  assert (∀ x, covered FN x ∨ covered FL x → x * PAGE_SIZE < pos) as Hcov.
  { intros x [(p&t&E&?)|(p&t&E&?)]; [pose proof (HN p t E)|pose proof (HL p t E)]; lia. }
  assert (∀ lo z F, zone_inv lo 1 z (heads s) (bitmap s) F → 0 <= lo → (∀ x, covered F x → covered FN x ∨ covered FL x) →
    ∀ x, lo <= x < total_pages z → bit map' x = bit (bitmap s) x) as Hsame.
  { intros lo z F Hz ? HF x Hx. rewrite Hbits by lia.
    destruct ((b <=? x) && (x <? b + Z.of_nat n) && (x <? total)) eqn:Eb; [|done]. zify_bools.
    destruct (bit (bitmap s) x) eqn:Ex; [done|]. apply (zi_bits _ _ _ _ _ _ Hz) in Ex; [|done].
    apply HF, Hcov in Ex. unfold PAGE_SIZE in *. lia. }
  exists FN, FL. split; [|by split]. destruct Hi as [Hn Hlw ? ? Hedge]. split; simpl; try done.
  - eapply zone_inv_other; [exact Hn|done|done|done|]. eapply Hsame; [exact Hn|done|by left].
  - eapply zone_inv_other; [exact Hlw|done|done|done|]. eapply Hsame; [exact Hlw|done|by right].
  - destruct Hedge as [|He]; [by left|right]. rewrite Hbits by done. by case_match.
Qed.

Lemma init_region_ok s pos P total top b R r rs :
  boot_inv s pos P → zone_sizes s total → usable_ok top pos (r :: rs) → top < 2 ^ 48 → total = top / PAGE_SIZE →
  total <= 8 * Z.of_nat (List.length (bitmap s)) → 0 < R < 2 ^ 48 → (PAGE_SIZE | R) →
  (find_bitmap R (r :: rs) = Some b ∨ b + R <= pos) →
  ∃ s', init_region total b R s r = Ok s' ∧
    boot_inv s' (if decide (type r = CMM_USABLE) then rend r else pos) (λ x, P x ∨ region_pages b R r x) ∧
    zone_sizes s' total ∧ List.length (bitmap s') = List.length (bitmap s).
Proof.
  intros HB Hsz Hu Htop Htot Hlen HR HRa Hb. unfold init_region. simpl in Hu, Hb.
  destruct (decide (type r = CMM_USABLE)) as [Et|Et].
  2: { rewrite bool_decide_false by done. simpl. exists s. split_and!; try done.
       eapply boot_inv_iff; [exact HB|lia|]. intros x. unfold region_pages. tauto. }
  rewrite bool_decide_true in * by done. cbn [negb andb] in *. destruct Hu as (Ha&Hal&Hpos&H0&Hl0&Hre&Hedge&Hrs).
  assert (u64 (Cmm.base r + length r) = rend r) as -> by (unfold rend in *; apply u64_id; lia).
  assert (rend r <= total * PAGE_SIZE) as Hret.
  { assert (PAGE_SIZE | rend r) as [k Hk] by (by apply Z.divide_add_r). rewrite Hk in *. subst total.
    pose proof (Z.div_le_mono (k * PAGE_SIZE) top PAGE_SIZE ltac:(done) ltac:(lia)).
    rewrite Z.div_mul in * by done. unfold PAGE_SIZE in *. lia. }
  destruct ((Cmm.base r <=? b) && (rend r >? b)) eqn:Ehold.
  - apply andb_true_iff in Ehold as [? ?]. zify_bools. destruct Hb as [Hb|]; [|lia].
    destruct (length r >=? R) eqn:Elr; [|pose proof (find_bitmap_above _ _ _ _ _ Hrs Hb); lia].
    injection Hb as <-. zify_bools. rewrite Z.gtb_ltb, Z.ltb_irrefl. cbn [mbind result_bind mret result_ret].
    destruct Ha as [a Ea], HRa as [k ->], Hal as [l El]. unfold rend in *. rewrite Ea, El in *.
    rewrite (u64_id (a * PAGE_SIZE + k * PAGE_SIZE)), <- Z.mul_add_distr_r, !Z.div_mul by (done || lia).
    destruct (mark_bitmap_ok s pos P total a (Z.to_nat (a + k - a)) HB Hsz ltac:(unfold PAGE_SIZE in *; lia) Hpos Hlen)
      as (map'&->&Hl'&HB'). cbn [mbind result_bind].
    assert (∀ x, region_pages (a * PAGE_SIZE) (k * PAGE_SIZE) r x ↔
                 range_pages ((a + k) * PAGE_SIZE) (a * PAGE_SIZE + l * PAGE_SIZE) x) as Hpg.
    { intros x. unfold region_pages, range_pages, rend. rewrite Ea, El. intuition lia. }
    case_z.
    + edestruct (add_range_ok _ pos P total ((a + k) * PAGE_SIZE) (a * PAGE_SIZE + l * PAGE_SIZE) HB' Hsz)
        as (s'&E&HB''&Hsz'&Hl''); [lia|lia|done|by apply Z.divide_factor_r|rewrite <- Z.mul_add_distr_r; by apply Z.divide_factor_r| |].
      { right. intros ?. apply Hedge. lia. }
      rewrite <- Z.mul_add_distr_r in *. exists s'. split; [exact E|]. split; [|split; [done|simpl in *; congruence]].
      eapply boot_inv_iff; [exact HB''|lia|]. intros x. by rewrite Hpg.
    + eexists. split; [reflexivity|]. split; [|by split].
      eapply boot_inv_iff; [exact HB'|lia|]. intros x. rewrite Hpg. unfold range_pages. intuition lia.
  - assert (∀ x, region_pages b R r x ↔ range_pages (Cmm.base r) (rend r) x) as Hpg.
    { intros x. unfold region_pages, range_pages. split; [tauto|]. intros [? ?]. split; [done|]. split; [done|].
      intros ?. rewrite Z.gtb_ltb in Ehold. destruct Hb as [Hb|Hb].
      - destruct (length r >=? R) eqn:Elr; [injection Hb as <-; zify_bools|].
        + unfold rend in *. revert Ehold. repeat case_z; simpl; done || lia.
        + pose proof (find_bitmap_above _ _ _ _ _ Hrs Hb). lia.
      - lia. }
    destruct (decide (Cmm.base r < rend r)) as [Hne|He].
    + destruct (add_range_ok s pos P total (Cmm.base r) (rend r) HB Hsz) as (s'&E&HB'&Hsz'&Hl'); try done.
      { by apply Z.divide_add_r. } { by right. }
      exists s'. split; [exact E|]. split; [|by split].
      eapply boot_inv_iff; [exact HB'|lia|]. intros x. by rewrite Hpg.
    + assert (rend r = Cmm.base r) as -> by (unfold rend in *; lia). unfold add_range.
      rewrite !Z.gtb_ltb. case_z; [lia|]. cbn [mbind result_bind mret result_ret].
      case_z; [lia|]. exists s. split; [done|]. split; [|by split].
      eapply boot_inv_iff; [exact HB|lia|]. intros x. rewrite Hpg. unfold range_pages. intuition lia.
Qed.

Lemma init_regions_ok s pos P total top b R rs :
  boot_inv s pos P → zone_sizes s total → usable_ok top pos rs → top < 2 ^ 48 → total = top / PAGE_SIZE →
  total <= 8 * Z.of_nat (List.length (bitmap s)) → 0 < R < 2 ^ 48 → (PAGE_SIZE | R) →
  (find_bitmap R rs = Some b ∨ b + R <= pos) →
  ∃ s' pos', init_regions total b R s rs = Ok s' ∧
    boot_inv s' pos' (λ x, P x ∨ ∃ r, r ∈ rs ∧ region_pages b R r x) ∧ zone_sizes s' total.
Proof.
  intros HB Hsz Hu Htop Htot Hlen HR HRa Hb. revert s pos P HB Hsz Hu Hlen Hb.
  induction rs as [|r rs IH]; intros s pos P HB Hsz Hu Hlen Hb.
  { exists s, pos. split; [done|]. split; [|done]. eapply boot_inv_iff; [exact HB|lia|].
    intros x. split; [by left|]. intros [|(r&Hr&_)]; [done|]. by apply elem_of_nil in Hr. }
  destruct (init_region_ok s pos P total top b R r rs) as (s1&E1&HB1&Hsz1&Hl1); try done.
  simpl in Hu, Hb. cbn [init_regions]. rewrite E1. cbn [mbind result_bind].
  edestruct (IH s1 _ _ HB1 Hsz1) as (s2&pos2&E2&HB2&Hsz2).
  - by case_decide; [apply Hu|].
  - by rewrite Hl1.
  - case_decide as Et; [rewrite bool_decide_true in Hb by done|by rewrite bool_decide_false in Hb by done].
    simpl in Hb. destruct Hu as (?&?&?&?&?&_). destruct Hb as [Hb|Hb]; [|right; unfold rend; lia].
    destruct (length r >=? R) eqn:El; [injection Hb as <-; zify_bools; right; unfold rend; lia|by left].
  - exists s2, pos2. split; [done|]. split; [|done]. eapply boot_inv_iff; [exact HB2|lia|].
    intros x. split.
    + intros [[?|?]|(q&?&?)]; [by left|right; exists r; split; [apply list_elem_of_here|done]|].
      right. exists q. split; [by apply list_elem_of_further|done].
    + intros [?|(q&[->|?]%elem_of_cons&?)]; [by left; left|by left; right|right; eauto].
Qed.

Lemma empty_tlsf id base total hs :
  tlsf (mkZone id base total 0 (replicate 32 0) (replicate 32 (replicate 32 (Sentinel id)))) hs ∅.
Proof.
  exists (λ _ _, []). split; try done.
  - intros fl sl ??. unfold get_head. cbn [blocks]. rewrite lookup_replicate_2 by lia. cbn [of_option mbind result_bind].
    by rewrite lookup_replicate_2 by lia.
  - intros fl ?. exists 0. unfold get_sl. cbn [sl_bitmap fl_bitmap]. rewrite lookup_replicate_2, Z.bits_0 by lia.
    split_and!; try done. intros sl ?. by rewrite Z.bits_0.
  - intros fl sl ??. constructor.
  - intros fl sl p s ??. rewrite elem_of_nil, lookup_empty. naive_solver.
Qed.

Lemma ones_bit n x : 0 <= x < 8 * Z.of_nat n → bit (replicate n 255) x = true.
Proof.
  intros Hx. unfold bit. rewrite lookup_replicate_2.
  - simpl. pose proof (Z.mod_pos_bound x 8 ltac:(lia)). change 255 with (Z.ones 8).
    by rewrite Z.ones_spec_low by lia.
  - pose proof (Z.div_lt_upper_bound x 8 (Z.of_nat n) ltac:(lia) ltac:(lia)).
    pose proof (Z.div_pos x 8 ltac:(lia) ltac:(lia)). lia.
Qed.

Lemma ones_bytes n : bytes (replicate n 255).
Proof. apply Forall_replicate. lia. Qed.

Lemma empty_zone id lo total hs n :
  0 <= lo → 0 <= total < 2 ^ 36 → total <= 8 * Z.of_nat n →
  zone_inv lo 1 (mkZone id 0 total 0 (replicate 32 0) (replicate 32 (replicate 32 (Sentinel id)))) hs
    (replicate n 255) ∅.
Proof.
  intros ???. split; try done.
  - apply empty_tlsf.
  - apply ones_bytes.
  - by rewrite length_replicate.
  - intros x Hx. simpl in Hx. rewrite ones_bit by lia. split; [done|]. by intros (?&?&?&_).
Qed.

(** The bytes reserved for the page bitmap. *)
Definition bitmap_reserved (ram_top : Z) : Z :=
  (((ram_top / PAGE_SIZE + 7) / 8 + PAGE_SIZE - 1) / PAGE_SIZE) * PAGE_SIZE.

Lemma pma_init_ok c :
  let top := cmm_get_ram_top c in let R := bitmap_reserved top in
  PAGE_SIZE <= top < 2 ^ 48 → usable_ok top (-1) (internal_map c) →
  match find_bitmap R (internal_map c) with
  | None => pma_init c = Panic "PMA" "failed to allocate zone bitmap"
  | Some b => ∃ s FN FL, pma_init c = Ok s ∧ pma_inv s FN FL ∧
      ∀ x, free_page FN FL x ↔ ∃ r, r ∈ internal_map c ∧ region_pages b R r x
  end.
Proof.
  intros top R Htop Hu. unfold pma_init. fold top. change ((_ + PAGE_SIZE - 1) / PAGE_SIZE * PAGE_SIZE) with R.
  destruct (find_bitmap R (internal_map c)) as [b|] eqn:Eb; [|done].
  cbn [pma_zone_init]. set (total := top / PAGE_SIZE) in *. set (n := (total + 7) / 8) in *.
  assert (1 <= total < 2 ^ 36) as Htot.
  { unfold total, PAGE_SIZE in *. split; [apply Z.div_le_lower_bound; lia|apply Z.div_lt_upper_bound; lia]. }
  assert (total <= 8 * n < total + 8) as Hn.
  { unfold n. pose proof (Z.div_mod (total + 7) 8 ltac:(lia)). pose proof (Z.mod_pos_bound (total + 7) 8 ltac:(lia)). lia. }
  assert (0 < R < 2 ^ 48) as HR.
  { unfold R, bitmap_reserved. fold total. fold n. unfold PAGE_SIZE.
    pose proof (Z.div_mod (n + 4096 - 1) 4096 ltac:(lia)). pose proof (Z.mod_pos_bound (n + 4096 - 1) 4096 ltac:(lia)). lia. }
  assert (PMA_ZONE_32BIT = 1048576) as Hpma by done.
  set (s0 := mkPma _ _ _ _).
  assert (boot_inv s0 (-1) (λ _, False)) as HB.
  { exists ∅, ∅. split; [|split].
    - split; [apply empty_zone; done || lia|apply empty_zone; lia|done|apply Z.le_min_r|].
      simpl. destruct (decide (total <= PMA_ZONE_32BIT)); [by left|right]. apply ones_bit.
      lia.
    - intros x. unfold free_page, covered. split; [|done].
      by intros [(?&?&E&_)|(?&?&E&_)]; rewrite lookup_empty in E.
    - by split; intros ? ? E; rewrite lookup_empty in E. }
  destruct (init_regions_ok s0 (-1) (λ _, False) total top b R (internal_map c) HB) as (s'&pos'&E&(FN&FL&Hi&HP&_)&_);
    [done|done|lia|done|subst s0; cbn [bitmap]; rewrite length_replicate; lia|done|by apply Z.divide_factor_r|by left|].
  exists s', FN, FL. split; [exact E|]. split; [done|]. intros x. rewrite HP. split; [by intros [|]|by right].
Qed.

(** * Properties *)

(** allocation from a zone, at any power of two alignment up to the
    request's own size.  It never faults; on success the range is aligned,
    inside one free block, and the free blocks lose exactly it; it fails only
    when no free block has the request's class or a higher one, or the first
    block of the request's own class is too small. *)
Theorem pma_alloc_from_zone_correct lo gap z hs map F size k :
  zone_inv lo gap z hs map F → 0 <= gap <= 1 → 12 <= k <= 40 → 0 < size <= 2 ^ 46 →
  (k = 12 ∨ 2 ^ k <= round_up size PAGE_SIZE) →
  ∃ r z' hs' map', pma_alloc_from_zone (z, hs, map) size (2 ^ k) = Ok (r, (z', hs', map')) ∧
    alloc_outcome lo gap F map (round_up size PAGE_SIZE) k r z' hs' map'.
Proof.
  intros H Hg Hk Hs Hor. destruct (alloc_from_zone_ok lo gap z hs map F size k H Hg Hk Hs Hor)
    as (r&z'&hs'&map'&?&_&_&_&?). by exists r, z', hs', map'.
Qed.

(** releasing a used, page aligned range of a zone whose free blocks are
    maximal makes exactly its pages free, merges it with the free neighbours
    into one block (the invariant with gap 1 says the blocks are again
    maximal), and writes no header outside the zone. *)
Theorem pma_zone_free_range_correct lo z hs map F phys count :
  zone_inv lo 1 z hs map F → (lo = 0 ∨ bit map (lo - 1) = true) →
  0 < count → 0 < phys → lo * PAGE_SIZE <= phys → (PAGE_SIZE | phys) →
  phys + count * PAGE_SIZE <= total_pages z * PAGE_SIZE →
  (∀ x, in_range phys (count * PAGE_SIZE) x → ¬ covered F x) →
  ∃ z' hs' map' F', pma_zone_free_range (z, hs, map) phys count = Ok (z', hs', map') ∧
    zone_inv lo 1 z' hs' map' F' ∧ frame (zone_key z lo) hs hs' ∧
    ∀ x, covered F' x ↔ covered F x ∨ in_range phys (count * PAGE_SIZE) x.
Proof.
  intros H Hlow Hc Hp Hlo Ha Hhi Hu.
  destruct (zone_free_range_ok lo z hs map F phys count) as (z'&hs'&map'&F'&?&?&_&?&_&?&_); try done.
  - eapply uncovered_apart; [apply H|done|by apply Z.divide_factor_r|unfold PAGE_SIZE; lia|done].
  - by exists z', hs', map', F'.
Qed.

(** [pma_init] on usable regions that are page aligned, ordered, never
    adjacent and clear of the page below 4 GiB: it panics when no region can
    hold the bitmap, and otherwise the free pages of the two zones are exactly
    the pages of usable regions, without page 0 and the bitmap's own. *)
Theorem pma_init_correct c :
  PAGE_SIZE <= cmm_get_ram_top c < 2 ^ 48 → usable_ok (cmm_get_ram_top c) (-1) (internal_map c) →
  match find_bitmap (bitmap_reserved (cmm_get_ram_top c)) (internal_map c) with
  | None => pma_init c = Panic "PMA" "failed to allocate zone bitmap"
  | Some b => ∃ s FN FL, pma_init c = Ok s ∧ pma_inv s FN FL ∧
      ∀ x, free_page FN FL x ↔
        ∃ r, r ∈ internal_map c ∧ region_pages b (bitmap_reserved (cmm_get_ram_top c)) r x
  end.
Proof. apply pma_init_ok. Qed.

(** The pages boot may hand out: those of usable regions, without page 0 and the
    bitmap's own at [b]. *)
Definition usable_page (c : cmm_state) (b x : Z) : Prop :=
  ∃ r, r ∈ internal_map c ∧ region_pages b (bitmap_reserved (cmm_get_ram_top c)) r x.


(** * Concrete runs *)

(** 8 MiB of RAM: the bitmap page, one region at 2 MiB. *)
Definition demo_map : cmm_state :=
  mkCmm [mkRegion 1 0 0x1000 CMM_USABLE; mkRegion 2 0x1000 0x1FF000 CMM_RESERVED;
         mkRegion 3 0x200000 0x3F1000 CMM_USABLE] (Some 0) 16 4 true 0x5F1000 0x5F1000.

Definition pick {A} (m : result (Z * A)) : result A := '(_, a) ← m; mret a.

(** The 2 MiB allocator cuts a block at the aligned address before it finds
    the rest too small, and puts both parts back as adjacent free blocks.
    Releasing the page in front merges the whole run but unlinks only the first
    part: the second stays on its list, and is handed out twice. *)
Definition double_allocation : result (Z * Z * Z) :=
  s ← pma_init demo_map;
  '(a, s) ← pma_alloc_pages s 1;
  '(b, s) ← pma_alloc_pages_2mb s 1;
  s ← pma_free_page s a;
  '(c, s) ← pma_alloc_pages s 1;
  '(d, s) ← pma_alloc_pages s 0x3F1;
  mret (b, c, d).

Theorem pma_double_allocation :
  double_allocation = Ok (0, 0x400000, 0x200000) ∧ ¬ disjoint_ranges (0x400000, 1) (0x200000, 0x3F1).
Proof. split; [vm_compute; reflexivity|]. unfold disjoint_ranges, PAGE_SIZE. simpl. lia. Qed.

(** A request fails although a free block could hold it: the search stops at
    the first block of the request's class, here the smaller one of the two. *)
Definition spurious_map : cmm_state :=
  mkCmm [mkRegion 1 0 0x1000 CMM_USABLE; mkRegion 2 0x100000 0x43000 CMM_USABLE;
         mkRegion 3 0x200000 0x42000 CMM_USABLE] (Some 0) 16 4 true 0x300000 0x300000.

Theorem pma_spurious_failure :
  (s ← pma_init spurious_map; '(r, s) ← pma_alloc_pages s 0x43; mret r) = Ok 0 ∧
  (s ← pma_init spurious_map; '(r, s) ← pma_alloc_pages s 0x42; '(q, s) ← pma_alloc_pages s 0x43; mret q)
    = Ok 0x100000.
Proof. split; vm_compute; reflexivity. Qed.

Lemma demo_usable : usable_ok (cmm_get_ram_top demo_map) (-1) (internal_map demo_map).
Proof. refine (bool_decide_eq_true_1 _ _). vm_compute. reflexivity. Qed.

Lemma demo_boot : ∃ s FN FL, pma_init demo_map = Ok s ∧ pma_inv s FN FL ∧
  ∀ x, free_page FN FL x ↔
    ∃ r, r ∈ internal_map demo_map ∧ region_pages 0 (bitmap_reserved (cmm_get_ram_top demo_map)) r x.
Proof. apply (pma_init_ok demo_map); [by vm_compute|apply demo_usable]. Qed.

Definition no_state : pma_state :=
  mkPma (mkZone ZNormal 0 0 0 [] []) (mkZone ZLow 0 0 0 [] []) ∅ [].
Definition state_of {A} (m : result (A * pma_state)) : pma_state :=
  match m with Ok (_, s) => s | _ => no_state end.

Definition demo_s0 : pma_state :=
  Eval vm_compute in match pma_init demo_map with Ok s => s | _ => no_state end.
Definition demo_s1 : pma_state := Eval vm_compute in state_of (pma_alloc_pages demo_s0 3).
Definition demo_s2 : pma_state := Eval vm_compute in state_of (pma_alloc_pages demo_s1 2).

Lemma demo_init : pma_init demo_map = Ok demo_s0.
Proof. vm_compute. reflexivity. Qed.

Lemma demo_alloc1 : pma_alloc_pages demo_s0 3 = Ok (0x200000, demo_s1).
Proof. vm_compute. reflexivity. Qed.

Lemma demo_alloc2 : pma_alloc_pages demo_s1 2 = Ok (0x203000, demo_s2).
Proof. vm_compute. reflexivity. Qed.

Lemma demo_inv : ∃ FN FL, pma_inv demo_s0 FN FL ∧
  ∀ x, free_page FN FL x ↔
    ∃ r, r ∈ internal_map demo_map ∧ region_pages 0 (bitmap_reserved (cmm_get_ram_top demo_map)) r x.
Proof.
  destruct demo_boot as (s&FN&FL&E&Hi&Hp). rewrite demo_init in E. injection E as <-. eauto.
Qed.

Lemma pma_alloc_from_zone_correct_witness :
  ∃ st, pma_alloc_from_zone (pma_low demo_s0, heads demo_s0, bitmap demo_s0) 5000 (2 ^ 12) = Ok (0x200000, st).
Proof.
  destruct demo_inv as (FN&FL&Hi&_).
  destruct (pma_alloc_from_zone_correct 0 1 _ _ _ FL 5000 12 (pi_low _ _ _ _ Hi)) as (r&z'&hs'&map'&E'&_); [lia..|by left|].
  exists (z', hs', map'). rewrite E'. do 2 f_equal.
  assert (fst <$> (match pma_alloc_from_zone (pma_low demo_s0, heads demo_s0, bitmap demo_s0) 5000 (2 ^ 12) with
                   Ok a => Some a | _ => None end) = Some 0x200000) as E by (vm_compute; reflexivity).
  rewrite E' in E. by injection E.
Defined.

Lemma pma_zone_free_range_correct_witness :
  ∃ st, pma_zone_free_range (pma_low demo_s0, heads demo_s0, bitmap demo_s0) 0x100000 2 = Ok st.
Proof.
  destruct demo_inv as (FN&FL&Hi&Hp).
  assert (total_pages (pma_low demo_s0) = 1521) as Et by reflexivity.
  destruct (pma_zone_free_range_correct 0 _ _ _ FL 0x100000 2 (pi_low _ _ _ _ Hi)) as (z'&hs'&map'&F'&E'&_).
  - by left.
  - lia.
  - lia.
  - unfold PAGE_SIZE. lia.
  - by exists 256.
  - rewrite Et. unfold PAGE_SIZE. lia.
  - intros x Hx Hc. assert (free_page FN FL x) as Hf by (by right). apply Hp in Hf as (r&Hr&Ht&[_ Hx2]&_).
    unfold demo_map, internal_map, in_range, PAGE_SIZE in *.
    repeat (apply elem_of_cons in Hr as [->|Hr]; [unfold rend in *; simpl in *; try done; lia|]).
    by apply elem_of_nil in Hr.
  - by exists (z', hs', map').
Defined.

Lemma pma_init_correct_witness : is_ok (pma_init demo_map) = true.
Proof.
  pose proof (pma_init_correct demo_map ltac:(by vm_compute) demo_usable) as H.
  change (find_bitmap _ _) with (Some 0) in H. destruct H as (s&FN&FL&E&_). by rewrite E.
Defined.

Lemma demo_reach : pma_reach demo_s0 demo_s2 [(0x203000, 2); (0x200000, 3)].
Proof.
  apply (reach_alloc demo_s0 demo_s1 [(0x200000, 3)] 2 0x203000 demo_s2); [|lia|apply demo_alloc2].
  apply (reach_alloc demo_s0 demo_s0 [] 3 0x200000 demo_s1); [constructor|lia|apply demo_alloc1].
Qed.

