(* ===== verification/Paging.v ===== *)
(** x86-64 page tables (src/mem/paging.c, src/mem/paging.h).

    Tables are lists of 512 entries in a finite map from physical address, the
    code reaching them through the direct map at [hhdm_offset].  New tables come
    from a page source, an interface that the physical allocator implements
    (PageSource.v).  The file holds the walk that allocates tables and splits
    huge pages, the mapping and unmapping operations of the three page sizes,
    and the translation. *)

From S2P Require Import Prelude Mem Vmm.

(** * Entry bits *)

Definition PTE_PRESENT : Z := 2 ^ 0.
Definition PTE_WRITABLE : Z := 2 ^ 1.
Definition PTE_USER : Z := 2 ^ 2.
Definition PTE_HUGE_PAGE : Z := 2 ^ 7.
Definition PTE_GLOBAL : Z := 2 ^ 8.
Definition PTE_NX : Z := 2 ^ 63.
Definition PTE_ADDR_MASK : Z := 0x0FFFFFFFFFFFF000.
Definition PAGE_SIZE_1GB : Z := 2 ^ 30.

(** [entry & bit] as a condition. *)
Definition has (entry bits : Z) : bool := negb (Z.land entry bits =? 0).

(** * The interface to the physical allocator *)

(** A page the direct map reaches: below 128 TiB, its size on x86-64. *)
Definition page_addr (p : Z) : Prop := 0 < p < 2 ^ 47 ∧ (PAGE_SIZE | p).

(** [take_page] is [pma_alloc_pages(1)], 0 when memory ran out. *)
Class PageSource (PS : Type) := {
  take_page : PS → result (Z * PS);
  ps_ok : PS → Prop;
  ps_free : PS → Z → Prop;
  take_page_ok s : ps_ok s → ∃ p s', take_page s = Ok (p, s') ∧ ps_ok s' ∧
    (p = 0 ∨ page_addr p ∧ ps_free s p ∧ ¬ ps_free s' p) ∧
    ∀ q, ps_free s' q → ps_free s q
}.

Section Paging.
Context {PS : Type} `{!PageSource PS}.

(** [hhdm_offset], the start of the direct map. *)
Variable hhdm_offset : Z.

(** [flushed] records the addresses given to [paging_flush_tlb_page]. *)
Record paging_state := mkPaging {
  tables : gmap Z (list Z);
  pages : PS;
  flushed : list Z
}.

Definition with_tables (st : paging_state) (t : gmap Z (list Z)) : paging_state :=
  mkPaging t (pages st) (flushed st).

Definition read_entry (st : paging_state) (table index : Z) : result Z :=
  es ← of_option (tables st !! table); of_option (es !! Z.to_nat index).

Definition write_entry (st : paging_state) (table index v : Z) : result paging_state :=
  es ← of_option (tables st !! table);
  _ ← of_option (es !! Z.to_nat index);
  mret (with_tables st (<[table := <[Z.to_nat index := v]> es]> (tables st))).

(** The index of [virt] in a table of [level], and the size a level maps. *)
Definition level_shift (level : nat) : Z := 12 + Z.of_nat level * 9.
Definition table_index (virt : Z) (level : nat) : Z := Z.land (Z.shiftr virt (level_shift level)) 0x1FF.

(** [pma_alloc_pages(1)] *)
Definition alloc_table (st : paging_state) : result (Z * paging_state) :=
  '(p, ps) ← take_page (pages st);
  mret (p, mkPaging (tables st) ps (flushed st)).

(** The 512 entries that take over from a huge entry of [level]. *)
Definition split_entries (entry : Z) (level : nat) : list Z :=
  let base_phys := Z.land entry (not64 (2 ^ level_shift level - 1)) in
  let sub_flags := Z.lor (Z.land entry 0xFFF) (Z.land entry PTE_NX) in
  let sub_flags := Z.land sub_flags (not64 PTE_HUGE_PAGE) in
  let sub_flags := Z.land sub_flags (not64 PTE_GLOBAL) in
  let sub_page_size := 2 ^ level_shift (level - 1) in
  map (λ i, let e := Z.lor (u64 (base_phys + i * sub_page_size)) sub_flags in
            if (1 <? level)%nat then Z.lor e PTE_HUGE_PAGE else e) (seqZ 0 512).

(** From a table of [level] down to one of [target]. *)
Fixpoint walk_to_level (level target : nat) (allocate : bool) (virt table : Z) (st : paging_state)
    : result (option Z * paging_state) :=
  match level with
  | O => Ok (Some table, st)
  | S level' =>
      if (level <=? target)%nat then Ok (Some table, st)
      else if negb (range_is_safe (u64 (table + hhdm_offset)) 4096)
      then Panic "PAGING" "invalid page table pointer in walk_to_level"
      else
        let index := table_index virt level in
        entry ← read_entry st table index;
        if negb (has entry PTE_PRESENT) then
          if negb allocate then mret (None, st)
          else
            '(new_table, st) ← alloc_table st;
            if new_table =? 0 then mret (None, st)
            else
              let st := with_tables st (<[new_table := replicate 512 0]> (tables st)) in
              st ← write_entry st table index (Z.lor new_table (Z.lor PTE_PRESENT PTE_WRITABLE));
              walk_to_level level' target allocate virt new_table st
        else if has entry PTE_HUGE_PAGE then
          if negb allocate then mret (None, st)
          else
            '(new_table, st) ← alloc_table st;
            if new_table =? 0 then mret (None, st)
            else
              let st := with_tables st (<[new_table := split_entries entry level]> (tables st)) in
              let table_flags := Z.land entry (Z.lor (Z.lor (Z.lor PTE_PRESENT PTE_WRITABLE) PTE_USER) PTE_NX) in
              st ← write_entry st table index (Z.lor new_table table_flags);
              walk_to_level level' target allocate virt new_table st
        else walk_to_level level' target allocate virt (Z.land entry PTE_ADDR_MASK) st
  end.

(** [paging_level] comes from bit 12 of CR4. *)
Definition paging_init (cr4 : Z) : Z := if has cr4 (2 ^ 12) then 5 else 4.

(** The level of the top table. *)
Variable top : nat.

(** The table and index of the entry that decides [vaddr], [None] if absent. *)
Fixpoint get_page_entry (level : nat) (vaddr table : Z) (st : paging_state) : result (option (Z * Z)) :=
  entry ← read_entry st table (table_index vaddr level);
  if negb (has entry PTE_PRESENT) then mret None
  else match level with
  | O => mret (Some (table, table_index vaddr level))
  | S level' =>
      if has entry PTE_HUGE_PAGE then mret (Some (table, table_index vaddr level))
      else get_page_entry level' vaddr (Z.land entry PTE_ADDR_MASK) st
  end.

Definition paging_get_pte (pml4 virt : Z) (allocate : bool) (st : paging_state)
    : result (option (Z * Z) * paging_state) :=
  '(pt, st) ← walk_to_level top 0 allocate virt pml4 st;
  match pt with
  | None => mret (None, st)
  | Some pt => mret (Some (pt, Z.land (Z.shiftr virt 12) 0x1FF), st)
  end.

Definition paging_flush_tlb_page (virt : Z) (st : paging_state) : paging_state :=
  mkPaging (tables st) (pages st) (flushed st ++ [virt]).

Definition paging_map_page_noflush (pml4 virt phys flags : Z) (st : paging_state) : result paging_state :=
  '(pte, st) ← paging_get_pte pml4 virt true st;
  match pte with
  | None => mret st
  | Some (t, i) => write_entry st t i (Z.lor (Z.land phys (not64 0xFFF)) flags)
  end.

Definition paging_map_page (pml4 virt phys flags : Z) (st : paging_state) : result paging_state :=
  st ← paging_map_page_noflush pml4 virt phys flags st;
  mret (paging_flush_tlb_page virt st).

Definition paging_unmap_page_noflush (pml4 virt : Z) (st : paging_state) : result paging_state :=
  '(pte, st) ← paging_get_pte pml4 virt false st;
  match pte with
  | None => mret st
  | Some (t, i) =>
      e ← read_entry st t i;
      if has e PTE_PRESENT then write_entry st t i 0 else mret st
  end.

Definition paging_unmap_page (pml4 virt : Z) (st : paging_state) : result paging_state :=
  st ← paging_unmap_page_noflush pml4 virt st;
  mret (paging_flush_tlb_page virt st).

(** The mapping of a huge page at [level] (1 or 2) with index shift [sh]. *)
Definition map_huge (level : nat) (size : Z) (pml4 virt phys flags : Z) (st : paging_state)
    : result paging_state :=
  '(pd, st) ← walk_to_level top level true virt pml4 st;
  match pd with
  | None => mret st
  | Some pd =>
      write_entry st pd (table_index virt level)
        (Z.lor (Z.lor (Z.land phys (not64 (size - 1))) flags) PTE_HUGE_PAGE)
  end.

Definition unmap_huge (level : nat) (pml4 virt : Z) (st : paging_state) : result paging_state :=
  '(pd, st) ← walk_to_level top level false virt pml4 st;
  match pd with
  | None => mret st
  | Some pd =>
      e ← read_entry st pd (table_index virt level);
      if has e PTE_PRESENT then write_entry st pd (table_index virt level) 0 else mret st
  end.

Definition paging_map_2mb_noflush := map_huge 1 PAGE_SIZE_2MB.
Definition paging_unmap_2mb_noflush := unmap_huge 1.
Definition paging_map_1gb_noflush := map_huge 2 PAGE_SIZE_1GB.
Definition paging_unmap_1gb_noflush := unmap_huge 2.

Definition paging_map_2mb (pml4 virt phys flags : Z) (st : paging_state) : result paging_state :=
  st ← paging_map_2mb_noflush pml4 virt phys flags st; mret (paging_flush_tlb_page virt st).
Definition paging_unmap_2mb (pml4 virt : Z) (st : paging_state) : result paging_state :=
  st ← paging_unmap_2mb_noflush pml4 virt st; mret (paging_flush_tlb_page virt st).
Definition paging_map_1gb (pml4 virt phys flags : Z) (st : paging_state) : result paging_state :=
  st ← paging_map_1gb_noflush pml4 virt phys flags st; mret (paging_flush_tlb_page virt st).
Definition paging_unmap_1gb (pml4 virt : Z) (st : paging_state) : result paging_state :=
  st ← paging_unmap_1gb_noflush pml4 virt st; mret (paging_flush_tlb_page virt st).

(** The physical address of [vaddr], 0 when it is not mapped. *)
Fixpoint get_phys (level : nat) (vaddr table : Z) (tbls : gmap Z (list Z)) : result Z :=
  es ← of_option (tbls !! table);
  entry ← of_option (es !! Z.to_nat (table_index vaddr level));
  if negb (has entry PTE_PRESENT) then mret 0
  else match level with
  | O => mret (u64 (Z.land entry PTE_ADDR_MASK + Z.land vaddr 0xFFF))
  | S level' =>
      if has entry PTE_HUGE_PAGE then
        let page_offset_mask := 2 ^ level_shift level - 1 in
        mret (u64 (Z.land entry (not64 page_offset_mask) + Z.land vaddr page_offset_mask))
      else get_phys level' vaddr (Z.land entry PTE_ADDR_MASK) tbls
  end.

Definition paging_get_phys (top_table vaddr : Z) (st : paging_state) : result Z :=
  get_phys top vaddr top_table (tables st).

Definition paging_get_level : Z := Z.of_nat top + 1.

End Paging.
