(* ===== verification/PagingSpec.v ===== *)
(** What the page table operations do to the translation (src/mem/paging.c).

    The tables reachable from the top table form a tree; the file proves that
    the allocating walk, huge page splits included, changes no translation,
    and that mapping and unmapping change exactly the page they name. *)

From S2P Require Import Prelude Mem Vmm Paging.

(** * Entry arithmetic *)

Lemma has_testbit e k : 0 <= k → has e (2 ^ k) = Z.testbit e k.
Proof.
  intros Hk. unfold has. destruct (Z.testbit e k) eqn:E.
  - apply negb_true_iff, Z.eqb_neq. intros H0.
    assert (Z.testbit (Z.land e (2 ^ k)) k = true) as Hb by (rewrite Z.land_spec, E, Z.pow2_bits_true by lia; done).
    by rewrite H0, Z.bits_0 in Hb.
  - apply negb_false_iff, Z.eqb_eq. apply Z.bits_inj'. intros i Hi.
    rewrite Z.land_spec, Z.bits_0, Z.pow2_bits_eqb by lia. case_z; [subst; by rewrite E|apply andb_false_r].
Qed.

Definition present (e : Z) : bool := has e PTE_PRESENT.
Definition huge (e : Z) : bool := has e PTE_HUGE_PAGE.

Lemma present_bit e : present e = Z.testbit e 0.
Proof. by apply (has_testbit e 0). Qed.
Lemma huge_bit e : huge e = Z.testbit e 7.
Proof. by apply (has_testbit e 7). Qed.

(** The address part of an entry. *)
Definition entry_addr (e : Z) : Z := Z.land e PTE_ADDR_MASK.

Lemma entry_addr_eq e : 0 <= e → entry_addr e = 2 ^ 12 * ((e mod 2 ^ 60) / 2 ^ 12).
Proof.
  intros He. unfold entry_addr.
  assert (Z.land e PTE_ADDR_MASK = Z.land (e mod 2 ^ 60) (not64 (2 ^ 12 - 1))) as ->.
  { apply Z.bits_inj'. intros i Hi. rewrite !Z.land_spec.
    assert (PTE_ADDR_MASK = Z.shiftl (Z.ones 48) 12) as -> by reflexivity.
    assert (not64 (2 ^ 12 - 1) = Z.shiftl (Z.ones 52) 12) as -> by reflexivity.
    rewrite !Z.shiftl_spec by lia. destruct (decide (i < 60)).
    - rewrite Z.mod_pow2_bits_low by lia. destruct (decide (i < 12)).
      + by rewrite (Z.testbit_neg_r (Z.ones 48)), (Z.testbit_neg_r (Z.ones 52)) by lia.
      + by rewrite (Z.ones_spec_low 48), (Z.ones_spec_low 52) by lia.
    - rewrite Z.mod_pow2_bits_high by lia. rewrite (Z.ones_spec_high 48) by lia. by rewrite andb_false_r. }
  rewrite land_mask; [done|lia|]. pose proof (Z.mod_pos_bound e (2 ^ 60) ltac:(lia)). lia.
Qed.

(** Flags below the page offset do not meet a page aligned address. *)
Lemma lor_low a f k : 0 <= k → 0 <= f < 2 ^ k → (2 ^ k | a) → Z.lor a f = a + f.
Proof.
  intros Hk Hf [q ->].
  assert (Z.land (q * 2 ^ k) f = 0) as H0.
  { apply Z.bits_inj'. intros i Hi. rewrite Z.land_spec, Z.bits_0.
    destruct (decide (i < k)).
    - by rewrite Z.mul_pow2_bits_low by lia.
    - by rewrite (testbit_high k f i), andb_false_r by lia. }
  by rewrite <- Z.lxor_lor, Z.add_nocarry_lxor.
Qed.

Lemma low_testbit a f k i : 0 <= i < k → 0 <= f < 2 ^ k → (2 ^ k | a) → Z.testbit (a + f) i = Z.testbit f i.
Proof.
  intros Hi Hf [q ->]. rewrite <- (Z.mod_pow2_bits_low (q * 2 ^ k + f) k i) by lia.
  by rewrite Z.add_comm, Z.mod_add, Z.mod_small by (lia || apply Z.pow_nonzero; lia).
Qed.

(** * Table indices *)

Lemma level_shift_pos l : 12 <= level_shift l.
Proof. unfold level_shift. lia. Qed.

Lemma table_index_eq v l : 0 <= v → table_index v l = (v / 2 ^ level_shift l) mod 512.
Proof.
  intros. unfold table_index. pose proof (level_shift_pos l). rewrite Z.shiftr_div_pow2 by lia.
  change 0x1FF with (Z.ones 9). by rewrite Z.land_ones by lia.
Qed.

Lemma table_index_range v l : 0 <= v → 0 <= table_index v l < 512.
Proof. intros. rewrite table_index_eq by done. apply Z.mod_pos_bound. lia. Qed.

Lemma land_low v k : 0 <= k → Z.land v (2 ^ k - 1) = v mod 2 ^ k.
Proof. intros. rewrite <- Z.land_ones by done. f_equal. rewrite Z.ones_equiv. lia. Qed.

(** The offset inside a page of a level, by the index one level down. *)
Lemma offset_split v l : 0 <= v →
  v mod 2 ^ level_shift (S l) = table_index v l * 2 ^ level_shift l + v mod 2 ^ level_shift l.
Proof.
  intros Hv. rewrite table_index_eq by done. pose proof (level_shift_pos l).
  assert (2 ^ level_shift (S l) = 2 ^ level_shift l * 512) as ->.
  { unfold level_shift. replace (12 + Z.of_nat (S l) * 9) with (12 + Z.of_nat l * 9 + 9) by lia.
    by rewrite Z.pow_add_r by lia. }
  rewrite Z.rem_mul_r by (try apply Z.pow_nonzero; try apply Z.pow_pos_nonneg; lia). lia.
Qed.

(** * Entries the code writes *)

(** A page aligned address with flag bits: what is read back. *)
Lemma entry_fields a f :
  (2 ^ 12 | a) → 0 <= a < 2 ^ 60 → 0 <= f < 2 ^ 12 →
  0 <= Z.lor a f < 2 ^ 60 ∧ entry_addr (Z.lor a f) = a ∧
  present (Z.lor a f) = present f ∧ huge (Z.lor a f) = huge f.
Proof.
  intros Ha Hr Hf. rewrite (lor_low a f 12) by (done || lia).
  assert (0 <= a + f < 2 ^ 60) as Hb.
  { destruct Ha as [q ->]. change (2 ^ 60) with (2 ^ 48 * 2 ^ 12) in *. nia. }
  split; [done|]. split.
  - rewrite entry_addr_eq, Z.mod_small by lia. destruct Ha as [q ->].
    rewrite Z.add_comm, Z.div_add, Z.div_small by lia. lia.
  - rewrite !present_bit, !huge_bit. split; by apply (low_testbit a f 12).
Qed.

Lemma table_entry n : page_addr n →
  let e := Z.lor n (Z.lor PTE_PRESENT PTE_WRITABLE) in
  0 <= e < 2 ^ 64 ∧ entry_addr e = n ∧ present e = true ∧ huge e = false.
Proof.
  intros [Hn Hd] e. destruct (entry_fields n (Z.lor PTE_PRESENT PTE_WRITABLE)) as (?&?&?&?);
    [exact Hd|lia|by vm_compute|]. subst e. split_and!; try done; lia.
Qed.

(** The entry that replaces a huge page keeps the flags of [entry] below 2^12. *)
Lemma table_entry_from n entry : page_addr n → 0 <= entry < 2 ^ 60 → present entry = true →
  let e := Z.lor n (Z.land entry (Z.lor (Z.lor (Z.lor PTE_PRESENT PTE_WRITABLE) PTE_USER) PTE_NX)) in
  0 <= e < 2 ^ 64 ∧ entry_addr e = n ∧ present e = true ∧ huge e = false.
Proof.
  intros [Hn Hd] He Hp e. set (f := Z.land entry _) in *.
  assert (f = Z.land entry 7) as Ef.
  { subst f. apply Z.bits_inj'. intros i Hi. rewrite !Z.land_spec.
    change (Z.lor (Z.lor (Z.lor PTE_PRESENT PTE_WRITABLE) PTE_USER) PTE_NX) with (Z.lor 7 (2 ^ 63)).
    rewrite Z.lor_spec, Z.pow2_bits_eqb by lia. case_z; [subst i|by rewrite orb_false_r].
    by rewrite (testbit_high 60 entry) by lia. }
  assert (0 <= f < 2 ^ 12) as Hf.
  { rewrite Ef. change 7 with (Z.ones 3). rewrite Z.land_ones by lia.
    pose proof (Z.mod_pos_bound entry (2 ^ 3) ltac:(lia)). lia. }
  destruct (entry_fields n f) as (?&?&Hpf&Hhf); [exact Hd|lia|done|].
  subst e. split; [lia|]. split; [done|]. rewrite Hpf, Hhf, present_bit, huge_bit, Ef, !Z.land_spec.
  rewrite present_bit in Hp. by rewrite Hp, andb_false_r.
Qed.

(** What a huge or last level entry translates an address to. *)
Definition leaf_phys (l : nat) (e v : Z) : Z :=
  if negb (present e) then 0
  else match l with
  | O => u64 (entry_addr e + Z.land v 0xFFF)
  | S _ => u64 (Z.land e (not64 (2 ^ level_shift l - 1)) + Z.land v (2 ^ level_shift l - 1))
  end.

Lemma leaf_phys_eq l e v : 0 <= e < 2 ^ 60 → 0 <= v → (l <= 4)%nat → present e = true →
  leaf_phys l e v = 2 ^ level_shift l * (e / 2 ^ level_shift l) + v mod 2 ^ level_shift l.
Proof.
  intros He Hv Hl Hp. unfold leaf_phys. rewrite Hp. cbn [negb].
  pose proof (level_shift_pos l). assert (level_shift l <= 48) by (unfold level_shift; lia).
  pose proof (Z.mod_pos_bound v (2 ^ level_shift l) ltac:(apply Z.pow_pos_nonneg; lia)).
  pose proof (Z.pow_le_mono_r 2 (level_shift l) 48 ltac:(lia) ltac:(lia)).
  pose proof (Z.mul_div_le e (2 ^ level_shift l) ltac:(apply Z.pow_pos_nonneg; lia)).
  pose proof (Z.div_pos e (2 ^ level_shift l) ltac:(lia) ltac:(apply Z.pow_pos_nonneg; lia)).
  destruct l as [|l].
  - rewrite entry_addr_eq, (Z.mod_small e) by lia. change 0xFFF with (2 ^ 12 - 1). rewrite land_low by lia.
    change (level_shift 0) with 12 in *. apply u64_id. lia.
  - rewrite land_mask, land_low by lia. apply u64_id. nia.
Qed.

(** One of the entries a split writes. *)
Definition split_entry (entry : Z) (level : nat) (i : Z) : Z :=
  let base_phys := Z.land entry (not64 (2 ^ level_shift level - 1)) in
  let sub_flags := Z.lor (Z.land entry 0xFFF) (Z.land entry PTE_NX) in
  let sub_flags := Z.land sub_flags (not64 PTE_HUGE_PAGE) in
  let sub_flags := Z.land sub_flags (not64 PTE_GLOBAL) in
  let e := Z.lor (u64 (base_phys + i * 2 ^ level_shift (level - 1))) sub_flags in
  if (1 <? level)%nat then Z.lor e PTE_HUGE_PAGE else e.

Lemma split_lookup entry level i : 0 <= i < 512 →
  split_entries entry level !! Z.to_nat i = Some (split_entry entry level i).
Proof.
  intros Hi. unfold split_entries. change (map ?f ?l) with (f <$> l).
  rewrite list_lookup_fmap, lookup_seqZ_lt by lia. cbn [fmap option_fmap option_map].
  by replace (0 + Z.of_nat (Z.to_nat i)) with i by lia.
Qed.

Lemma split_length entry level : length (split_entries entry level) = 512%nat.
Proof. unfold split_entries. by rewrite length_map, length_seqZ. Qed.

(** The flags a split keeps, all below 2^12 when NX is clear. *)
Lemma split_flags entry : 0 <= entry < 2 ^ 60 →
  let f := Z.land (Z.land (Z.lor (Z.land entry 0xFFF) (Z.land entry PTE_NX)) (not64 PTE_HUGE_PAGE)) (not64 PTE_GLOBAL) in
  0 <= f < 2 ^ 12 ∧ Z.testbit f 0 = Z.testbit entry 0 ∧ Z.testbit f 7 = false.
Proof.
  intros He f.
  assert (∀ i, 0 <= i → Z.testbit f i = (Z.testbit entry i && Z.testbit 0xFFF i) && negb (i =? 7) && negb (i =? 8)) as Hb.
  { intros i Hi. subst f. rewrite !Z.land_spec, Z.lor_spec, !Z.land_spec.
    destruct (decide (i < 64)).
    - rewrite !not64_testbit by (done || lia). change PTE_HUGE_PAGE with (2 ^ 7). change PTE_GLOBAL with (2 ^ 8).
      change PTE_NX with (2 ^ 63). rewrite !Z.pow2_bits_eqb, (Z.eqb_sym 7), (Z.eqb_sym 8), (Z.eqb_sym 63) by lia.
      destruct (Z.eqb_spec i 63) as [->|]; [by rewrite (testbit_high 60 entry 63) by lia|].
      by rewrite andb_false_r, orb_false_r.
    - rewrite (testbit_high 60 entry i) by lia. done. }
  assert (0 <= f) as Hf0.
  { subst f. rewrite Z.land_nonneg. right. by vm_compute. }
  split; [|split].
  - split; [done|]. apply bits_lt; [lia|done|]. intros i Hi. rewrite Hb by lia.
    by rewrite (testbit_high 12 0xFFF i), andb_false_r by lia.
  - rewrite Hb by lia. by rewrite !andb_true_r.
  - rewrite Hb by lia. by rewrite andb_false_r.
Qed.

Lemma shift_step l : 2 ^ level_shift (S l) = 2 ^ level_shift l * 512.
Proof.
  unfold level_shift. replace (12 + Z.of_nat (S l) * 9) with (12 + Z.of_nat l * 9 + 9) by lia.
  by rewrite Z.pow_add_r by lia.
Qed.

Lemma split_entry_ok entry l k :
  0 <= entry < 2 ^ 60 → (S l <= 2)%nat → present entry = true → 0 <= k < 512 →
  let e := split_entry entry (S l) k in
  0 <= e < 2 ^ 60 ∧ present e = true ∧ (l ≠ 0%nat → huge e = true) ∧
  e / 2 ^ level_shift l = entry / 2 ^ level_shift (S l) * 512 + k.
Proof.
  intros He Hl Hp Hk e. subst e. unfold split_entry. simpl (S l - 1)%nat. rewrite Nat.sub_0_r.
  destruct (split_flags entry He) as (Hf&Hf0&Hf7). set (f := Z.land (Z.land _ (not64 PTE_HUGE_PAGE)) _) in *.
  pose proof (level_shift_pos l) as Hsh. assert (level_shift l <= 21) by (unfold level_shift; lia).
  assert (0 < 2 ^ level_shift l) as Hpos by (apply Z.pow_pos_nonneg; lia).
  assert (level_shift (S l) <= 30) by (unfold level_shift; lia).
  rewrite land_mask by (unfold level_shift in *; lia).
  set (q := entry / 2 ^ level_shift (S l)) in *.
  assert (2 ^ level_shift (S l) * q + k * 2 ^ level_shift l = 2 ^ level_shift l * (q * 512 + k)) as Eb.
  { rewrite shift_step. ring. }
  rewrite Eb. set (a := 2 ^ level_shift l * (q * 512 + k)) in *.
  assert (0 <= a < 2 ^ 60) as Ha.
  { pose proof (Z.mul_div_le entry (2 ^ level_shift (S l)) ltac:(apply Z.pow_pos_nonneg; unfold level_shift; lia)) as Hle.
    fold q in Hle. pose proof (Z.div_pos entry (2 ^ level_shift (S l)) ltac:(lia) ltac:(apply Z.pow_pos_nonneg; unfold level_shift; lia)) as Hq.
    fold q in Hq. subst a. split; [nia|].
    assert (2 ^ 60 = 2 ^ level_shift (S l) * 2 ^ (60 - level_shift (S l))) as E60 by (rewrite <- Z.pow_add_r by (unfold level_shift; lia); f_equal; lia).
    assert (q < 2 ^ (60 - level_shift (S l))) as Hq2.
    { apply Z.div_lt_upper_bound; [apply Z.pow_pos_nonneg; unfold level_shift; lia|lia]. }
    rewrite E60, shift_step. nia. }
  assert (2 ^ 12 | a) as Hd.
  { subst a. apply Z.divide_mul_l. exists (2 ^ (level_shift l - 12)). rewrite <- Z.pow_add_r by lia. f_equal. lia. }
  rewrite (u64_id a) by lia.
  set (g := if (1 <? S l)%nat then Z.lor f PTE_HUGE_PAGE else f).
  assert ((if (1 <? S l)%nat then Z.lor (Z.lor a f) PTE_HUGE_PAGE else Z.lor a f) = Z.lor a g) as ->.
  { subst g. destruct (1 <? S l)%nat; [by rewrite Z.lor_assoc|done]. }
  assert (0 <= g < 2 ^ 12 ∧ Z.testbit g 0 = true ∧ (l ≠ 0%nat → Z.testbit g 7 = true)) as (Hg&Hg0&Hg7).
  { rewrite present_bit in Hp. subst g. clearbody f. destruct l as [|l].
    - change (1 <? 1)%nat with false. cbv iota. by rewrite Hf0.
    - change (1 <? S (S l))%nat with true. cbv iota.
      split; [apply lor_range; [lia|done|by vm_compute]|]. rewrite !Z.lor_spec. split; [by rewrite Hf0, Hp|].
      intros _. by rewrite Hf7. }
  destruct (entry_fields a g Hd Ha Hg) as (?&_&Hpg&Hhg).
  split; [done|]. split; [by rewrite Hpg, present_bit|]. split; [intros ?; rewrite Hhg, huge_bit; auto|].
  rewrite (lor_low a g 12) by (done || lia). subst a.
  rewrite Z.mul_comm, Z.add_comm, Z.div_add by lia. rewrite Z.div_small; [lia|].
  split; [lia|]. pose proof (Z.pow_le_mono_r 2 12 (level_shift l) ltac:(lia) ltac:(lia)). lia.
Qed.

(** A split entry translates its part of the huge page as the huge entry did. *)
Lemma split_entry_phys entry l v :
  0 <= entry < 2 ^ 60 → (S l <= 2)%nat → present entry = true → 0 <= v →
  leaf_phys l (split_entry entry (S l) (table_index v l)) v = leaf_phys (S l) entry v.
Proof.
  intros He Hl Hp Hv. pose proof (table_index_range v l Hv) as Hk.
  destruct (split_entry_ok entry l (table_index v l) He Hl Hp Hk) as (He'&Hp'&_&Hq).
  rewrite !leaf_phys_eq by (done || lia). rewrite Hq, offset_split, shift_step by done. ring.
Qed.

(** * The tree of tables *)

(** A page aligned address is a table of 512 64-bit entries. *)
Definition is_table (T : gmap Z (list Z)) (t : Z) (es : list Z) : Prop :=
  page_addr t ∧ T !! t = Some es ∧ length es = 512%nat ∧ Forall (λ e, 0 <= e < 2 ^ 64) es.

(** [a] is a table below (or is) the table [t] of [lvl]. *)
Fixpoint reach (T : gmap Z (list Z)) (lvl : nat) (t a : Z) : Prop :=
  a = t ∨
  match lvl with
  | O => False
  | S l => ∃ es i e, T !! t = Some es ∧ es !! i = Some e ∧ present e = true ∧ huge e = false ∧
             reach T l (entry_addr e) a
  end.

(** Tables form a tree: no table is reached twice.  Huge entries are at most
    1 GiB large and have no bit from 60 on. *)
Fixpoint wf (T : gmap Z (list Z)) (lvl : nat) (t : Z) : Prop :=
  ∃ es, is_table T t es ∧
  match lvl with
  | O => True
  | S l =>
      (∀ i e, es !! i = Some e → present e = true →
        if huge e then e < 2 ^ 60 ∧ (S l <= 2)%nat
        else wf T l (entry_addr e) ∧ ¬ reach T l (entry_addr e) t) ∧
      (∀ i j e e' a, i ≠ j → es !! i = Some e → es !! j = Some e' →
        present e = true → huge e = false → present e' = true → huge e' = false →
        reach T l (entry_addr e) a → reach T l (entry_addr e') a → False)
  end.

(** What one entry of a table of level [S l] contributes. *)
Definition entry_reach (T : gmap Z (list Z)) (l : nat) (e a : Z) : Prop :=
  present e = true ∧ huge e = false ∧ reach T l (entry_addr e) a.
Definition entry_wf (T : gmap Z (list Z)) (l : nat) (e : Z) : Prop :=
  present e = true → if huge e then e < 2 ^ 60 ∧ (S l <= 2)%nat else wf T l (entry_addr e).
Definition entry_phys (T : gmap Z (list Z)) (l : nat) (e v : Z) : result Z :=
  if negb (present e) then Ok 0
  else if huge e then Ok (leaf_phys (S l) e v) else get_phys l v (entry_addr e) T.

Lemma wf_table T lvl t : wf T lvl t → ∃ es, is_table T t es.
Proof. destruct lvl; intros (es&?&_); eauto. Qed.

Lemma wf_self T lvl t es : wf T lvl t → T !! t = Some es → is_table T t es.
Proof. intros (es'&H)%wf_table E. pose proof H as (?&E'&?). by simplify_eq. Qed.

Lemma reach_self T lvl t : reach T lvl t t.
Proof. destruct lvl; by left. Qed.

Lemma reach_S T l t es a : T !! t = Some es →
  reach T (S l) t a ↔ a = t ∨ ∃ i e, es !! i = Some e ∧ entry_reach T l e a.
Proof.
  intros E. simpl. split; (intros [->|H]; [by left|right]).
  - destruct H as (es'&i&e&E'&Hi&Hp&Hh&Hr). simplify_eq. by exists i, e.
  - destruct H as (i&e&Hi&Hp&Hh&Hr). by exists es, i, e.
Qed.

(** A [wf] node by its entries. *)
Lemma wf_S T l t :
  wf T (S l) t ↔ ∃ es, is_table T t es ∧
    (∀ i e, es !! i = Some e → entry_wf T l e ∧ ¬ entry_reach T l e t) ∧
    (∀ i j e e' a, i ≠ j → es !! i = Some e → es !! j = Some e' →
      entry_reach T l e a → entry_reach T l e' a → False).
Proof.
  simpl. split; intros (es&Ht&Hc&Hd); exists es; (split; [done|]); split.
  - intros i e Hi. split.
    + intros Hp. specialize (Hc i e Hi Hp). destruct (huge e); [done|by destruct Hc].
    + intros (Hp&Hh&Hr). specialize (Hc i e Hi Hp). rewrite Hh in Hc. by destruct Hc.
  - intros i j e e' a ? ? ? (?&?&?) (?&?&?). by eapply (Hd i j e e' a).
  - intros i e Hi Hp. destruct (Hc i e Hi) as [Hw Hr]. specialize (Hw Hp).
    destruct (huge e) eqn:Hh; [done|]. split; [done|]. intros ?. by apply Hr.
  - intros i j e e' a ? ? ? ? ? ? ? ? ?. by apply (Hd i j e e' a).
Qed.

(** The table holds an entry for every address. *)
Lemma table_entry_at T t es v l : is_table T t es → 0 <= v →
  ∃ e, es !! Z.to_nat (table_index v l) = Some e ∧ 0 <= e < 2 ^ 64.
Proof.
  intros (_&_&Hl&Hf) Hv. pose proof (table_index_range v l Hv).
  destruct (lookup_lt_is_Some_2 es (Z.to_nat (table_index v l))) as [e He]; [lia|].
  exists e. split; [done|]. by apply (Forall_lookup_1 _ _ _ _ Hf He).
Qed.

Lemma get_phys_S T l t es v e : T !! t = Some es → es !! Z.to_nat (table_index v (S l)) = Some e →
  get_phys (S l) v t T = entry_phys T l e v.
Proof.
  intros E Hi. cbn [get_phys]. rewrite E. cbn [of_option mbind result_bind]. rewrite Hi.
  cbn [of_option mbind result_bind]. unfold entry_phys, present, huge, leaf_phys, present.
  destruct (has e PTE_PRESENT); [|done]. by destruct (has e PTE_HUGE_PAGE).
Qed.

Lemma get_phys_O T t es v e : T !! t = Some es → es !! Z.to_nat (table_index v 0) = Some e →
  get_phys 0 v t T = Ok (leaf_phys 0 e v).
Proof.
  intros E Hi. cbn [get_phys]. rewrite E. cbn [of_option mbind result_bind]. rewrite Hi.
  cbn [of_option mbind result_bind]. unfold leaf_phys, present. by destruct (has e PTE_PRESENT).
Qed.

(** * Framing: only the reachable tables matter *)

Definition agree (T T' : gmap Z (list Z)) (P : Z → Prop) : Prop := ∀ a, P a → T' !! a = T !! a.

Lemma reach_frame T T' lvl t : agree T T' (reach T lvl t) → ∀ a, reach T' lvl t a ↔ reach T lvl t a.
Proof.
  revert t. induction lvl as [|l IH]; intros t Ha a; [done|].
  pose proof (Ha t (reach_self T (S l) t)) as Et.
  assert (∀ es i e, T !! t = Some es → es !! i = Some e → present e = true → huge e = false →
    ∀ a, reach T' l (entry_addr e) a ↔ reach T l (entry_addr e) a) as IH'.
  { intros es i e E Hi Hp Hh. apply IH. intros b Hb. apply Ha. right. eauto 10. }
  simpl. rewrite Et. split; (intros [->|(es&i&e&E&Hi&Hp&Hh&Hr)]; [by left|right]);
    exists es, i, e; do 4 (split; [done|]); by apply (IH' es i e).
Qed.

Lemma wf_frame T T' lvl t : agree T T' (reach T lvl t) → wf T lvl t → wf T' lvl t.
Proof.
  revert t. induction lvl as [|l IH]; intros t Ha.
  - intros (es&(?&E&?&?)&_). exists es. split; [|done]. split; [done|]. by rewrite Ha by (by left).
  - rewrite !wf_S. intros (es&Ht&Hc&Hd). pose proof Ht as (Hp&E&Hl&Hf).
    assert (∀ i e, es !! i = Some e → present e = true → huge e = false →
      agree T T' (reach T l (entry_addr e))) as Hag.
    { intros i e Hi Hpe Hh b Hb. apply Ha. right. eauto 10. }
    assert (∀ i e a, es !! i = Some e → entry_reach T' l e a → entry_reach T l e a) as Hr.
    { intros i e a Hi (Hpe&Hh&Hr). split; [done|split; [done|]]. by eapply (reach_frame T T'); [eapply Hag|]. }
    exists es. split; [|split].
    + split; [done|]. split; [|done]. rewrite Ha by (by left). done.
    + intros i e Hi. destruct (Hc i e Hi) as [Hw Hn]. split; [|by intros ?%(Hr i)].
      intros Hpe. specialize (Hw Hpe). destruct (huge e) eqn:Hh; [done|]. by apply IH; [eapply Hag|].
    + intros i j e e' a ? ? ? ?%(Hr i) ?%(Hr j); [|done|done]. by eapply (Hd i j e e' a).
Qed.

Lemma get_phys_frame T T' lvl t v : agree T T' (reach T lvl t) → get_phys lvl v t T' = get_phys lvl v t T.
Proof.
  revert t. induction lvl as [|l IH]; intros t Ha; cbn [get_phys];
    rewrite (Ha t (reach_self _ _ _)); destruct (T !! t) as [es|] eqn:E; try done;
    cbn [of_option mbind result_bind]; destruct (es !! _) as [e|] eqn:Hi; try done.
  cbn [of_option mbind result_bind]. destruct (has e PTE_PRESENT) eqn:Hp; [|done].
  destruct (has e PTE_HUGE_PAGE) eqn:Hh; [done|]. cbn [negb].
  apply IH. intros a Hr. apply Ha. right. eauto 10.
Qed.

Lemma entry_frame T T' l e : agree T T' (entry_reach T l e) →
  (∀ a, entry_reach T' l e a ↔ entry_reach T l e a) ∧ (entry_wf T l e → entry_wf T' l e) ∧
  ∀ v, entry_phys T' l e v = entry_phys T l e v.
Proof.
  intros Ha. destruct (present e) eqn:Hp; [destruct (huge e) eqn:Hh|].
  - unfold entry_reach, entry_wf, entry_phys. rewrite Hp, Hh. naive_solver.
  - assert (agree T T' (reach T l (entry_addr e))) as Ha' by (intros a Hr; by apply Ha).
    unfold entry_reach, entry_wf, entry_phys. rewrite Hp, Hh. split; [|split].
    + intros a. by rewrite (reach_frame T T').
    + intros Hw _. by eapply wf_frame; [|apply Hw].
    + intros v. by apply get_phys_frame.
  - unfold entry_reach, entry_wf, entry_phys. rewrite Hp. naive_solver.
Qed.

(** * Replacing one entry *)

(** What is left of the tree when entry [i] of [t] becomes [e'], whose tables
    are those the old entry had or tables the tree did not have. *)
Lemma replace_entry T T' l t es i e e' :
  wf T (S l) t → T !! t = Some es → 0 <= i < 512 → es !! Z.to_nat i = Some e → 0 <= e' < 2 ^ 64 →
  T' !! t = Some (<[Z.to_nat i := e']> es) → entry_wf T' l e' →
  (∀ a, entry_reach T' l e' a → a ≠ t ∧ (entry_reach T l e a ∨ ¬ reach T (S l) t a)) →
  (∀ j e0, j ≠ Z.to_nat i → es !! j = Some e0 → agree T T' (entry_reach T l e0)) →
  wf T' (S l) t ∧
  (∀ a, reach T' (S l) t a → reach T (S l) t a ∨ entry_reach T' l e' a) ∧
  ∀ v, 0 <= v → get_phys (S l) v t T' =
    if table_index v (S l) =? i then entry_phys T' l e' v else get_phys (S l) v t T.
Proof.
  intros Hwf E Hi He He' E' Hw' Hr' Hag. pose proof Hwf as (es0&Ht&Hc&Hd)%wf_S.
  pose proof Ht as (Hpa&E0&Hl&Hf). simplify_eq.
  assert (∀ j e0, j ≠ Z.to_nat i → <[Z.to_nat i:=e']> es !! j = Some e0 →
    es !! j = Some e0 ∧ entry_wf T' l e0 ∧ ∀ a, entry_reach T' l e0 a ↔ entry_reach T l e0 a) as Hold.
  { intros j e0 Hj Hl0. rewrite list_lookup_insert_ne in Hl0 by done. split; [done|].
    destruct (entry_frame T T' l e0 (Hag j e0 Hj Hl0)) as (H1&H2&_). split; [|done]. by apply H2, (Hc j e0). }
  assert (<[Z.to_nat i:=e']> es !! Z.to_nat i = Some e') as Hnew by (apply list_lookup_insert_eq; lia).
  assert (∀ j e0 a, j ≠ Z.to_nat i → es !! j = Some e0 → entry_reach T' l e' a → entry_reach T l e0 a → False) as Hdis.
  { intros j e0 a Hj Hl0 [Hat [Hr|Hr]]%Hr' Hr0; [by apply (Hd j (Z.to_nat i) e0 e a)|].
    apply Hr. rewrite (reach_S _ _ _ _ _ E). right. eauto. }
  split; [|split].
  - rewrite wf_S. exists (<[Z.to_nat i:=e']> es). split; [|split].
    + split; [done|]. split; [done|]. rewrite length_insert. split; [done|]. by apply Forall_insert.
    + intros j e0 Hj. destruct (decide (j = Z.to_nat i)) as [->|Hne].
      * simplify_eq. split; [done|]. by intros [? _]%Hr'.
      * destruct (Hold j e0 Hne Hj) as (Hj'&?&Hrr). split; [done|]. rewrite Hrr. by apply (Hc j e0).
    + intros j k e1 e2 a Hjk Hj Hk R1 R2.
      destruct (decide (j = Z.to_nat i)) as [->|Hj1], (decide (k = Z.to_nat i)) as [->|Hk1]; simplify_eq.
      * destruct (Hold k e2 Hk1 Hk) as (Hk'&_&Hrr). apply Hrr in R2. by eapply (Hdis k).
      * destruct (Hold j e1 Hj1 Hj) as (Hj'&_&Hrr). apply Hrr in R1. by eapply (Hdis j).
      * destruct (Hold k e2 Hk1 Hk) as (Hk'&_&Hrr2), (Hold j e1 Hj1 Hj) as (Hj'&_&Hrr1).
        apply Hrr1 in R1. apply Hrr2 in R2. by apply (Hd j k e1 e2 a).
  - intros a. rewrite (reach_S _ _ _ _ _ E'). intros [->|(j&e0&Hj&Hr)]; [left; by left|].
    destruct (decide (j = Z.to_nat i)) as [->|Hne]; [simplify_eq; by right|].
    destruct (Hold j e0 Hne Hj) as (Hj'&_&Hrr). left. apply (reach_S _ _ _ _ _ E). right. exists j, e0.
    split; [done|]. by apply Hrr.
  - intros v Hv. pose proof (table_index_range v (S l) Hv) as Hx. case_z.
    + subst i. by apply (get_phys_S _ _ _ _ _ _ E').
    + destruct (table_entry_at T t es v (S l) Ht Hv) as (e0&Hl0&_).
      rewrite (get_phys_S _ _ _ _ _ e0 E'), (get_phys_S _ _ _ _ _ e0 E) by (done || (rewrite list_lookup_insert_ne by lia; done)).
      by apply (entry_frame T T' l e0), (Hag (Z.to_nat (table_index v (S l)))); [lia|].
Qed.

(** * The slot an address uses at a level *)

(** [v'] goes through the same entry as [v] in the table of level [target]. *)
Fixpoint same_slot (lvl target : nat) (v v' : Z) : bool :=
  (table_index v' lvl =? table_index v lvl) &&
  match lvl with
  | O => true
  | S l => if (lvl <=? target)%nat then true else same_slot l target v v'
  end.

(** The table of [target] on the path of [v], all tables of the path being
    there. *)
Fixpoint path (T : gmap Z (list Z)) (lvl target : nat) (v t : Z) : option Z :=
  match lvl with
  | O => Some t
  | S l =>
      if (lvl <=? target)%nat then Some t
      else es ← T !! t; e ← es !! Z.to_nat (table_index v lvl);
           if present e && negb (huge e) then path T l target v (entry_addr e) else None
  end.

Lemma path_reach T lvl target v t tt : path T lvl target v t = Some tt → reach T lvl t tt.
Proof.
  revert t. induction lvl as [|l IH]; intros t H; cbn [path] in H; [by left; simplify_eq|].
  destruct (S l <=? target)%nat; [by left; simplify_eq|].
  destruct (T !! t) as [es|] eqn:E; [|done]. cbn [mbind option_bind] in H.
  destruct (es !! _) as [e|] eqn:Hi; [|done]. cbn [mbind option_bind] in H.
  destruct (present e) eqn:Hp, (huge e) eqn:Hh; try done. right. eauto 10.
Qed.

(** An entry that holds no table at level [target]. *)
Definition leaf_entry (target : nat) (e : Z) : Prop :=
  0 <= e < 2 ^ 64 ∧
  match target with O => True | S k => present e = true → huge e = true ∧ e < 2 ^ 60 ∧ (S k <= 2)%nat end.

Lemma leaf_entry_phys T l e v : leaf_entry (S l) e →
  entry_wf T l e ∧ (∀ a, ¬ entry_reach T l e a) ∧ entry_phys T l e v = Ok (leaf_phys (S l) e v).
Proof.
  intros [_ H]. unfold entry_wf, entry_reach, entry_phys. destruct (present e) eqn:Hp.
  - destruct (H eq_refl) as (Hh&?&?). rewrite Hh. split; [done|]. split; [naive_solver|done].
  - split; [done|]. split; [naive_solver|]. unfold leaf_phys. by rewrite Hp.
Qed.

(** Writing a leaf entry into the table of level [target] on the path of [v]
    changes the translation of exactly the addresses that share its slot. *)
Lemma set_leaf T lvl target v t tt es e :
  wf T lvl t → 0 <= v → path T lvl target v t = Some tt → (target <= lvl)%nat → T !! tt = Some es → leaf_entry target e →
  let T' := <[tt := <[Z.to_nat (table_index v target) := e]> es]> T in
  wf T' lvl t ∧ (∀ a, reach T' lvl t a → reach T lvl t a) ∧
  ∀ v', 0 <= v' → get_phys lvl v' t T' = if same_slot lvl target v v' then Ok (leaf_phys target e v') else get_phys lvl v' t T.
Proof.
  intros Hwf Hv. revert t Hwf. induction lvl as [|l IH]; intros t Hwf Hp Hle Ett He T'.
  - assert (target = 0%nat) by lia. subst target. cbn [path] in Hp. simplify_eq.
    destruct (wf_self _ _ _ _ Hwf Ett) as (Hpa&_&Hlen&Hf). destruct He as [He _].
    pose proof (table_index_range v 0 Hv) as Hx.
    assert (is_table T' tt (<[Z.to_nat (table_index v 0):=e]> es)) as Ht'.
    { split; [done|]. split; [apply lookup_insert_eq|]. rewrite length_insert. split; [done|]. by apply Forall_insert. }
    split; [by eexists|]. split; [intros a [->|[]]; by left|]. intros v' Hv'. cbn [same_slot]. rewrite andb_true_r.
    pose proof (table_index_range v' 0 Hv'). pose proof Ht' as (_&E'&_).
    destruct (Z.eqb_spec (table_index v' 0) (table_index v 0)) as [Eq|Hne].
    + apply (get_phys_O _ _ _ _ _ E'). rewrite Eq. apply list_lookup_insert_eq. lia.
    + destruct (table_entry_at T tt es v' 0) as (e0&Hl0&_); [done|done|].
      rewrite (get_phys_O _ _ _ _ e0 Ett) by done. apply (get_phys_O _ _ _ _ _ E'). by rewrite list_lookup_insert_ne by lia.
  - cbn [path] in Hp. pose proof (table_index_range v (S l) Hv) as Hx.
    destruct (Nat.leb_spec (S l) target) as [Hlt|Hlt].
    + assert (target = S l) by lia. subst target. simplify_eq.
      destruct (wf_self _ _ _ _ Hwf Ett) as (_&_&Hlen&_).
      destruct (lookup_lt_is_Some_2 es (Z.to_nat (table_index v (S l)))) as [e0 He0]; [lia|].
      destruct (replace_entry T T' l tt es (table_index v (S l)) e0 e) as (Hw&Hr&Hg);
        [done|done|lia|done|by destruct He|apply lookup_insert_eq|by apply (leaf_entry_phys T' l e 0)|..].
      * intros a Ha. by apply (leaf_entry_phys T' l e 0) in Ha.
      * intros j e1 Hj Hl1 a Ha. unfold T'. apply lookup_insert_ne. intros <-.
        pose proof Hwf as (es1&(_&E1&_)&Hc&_)%wf_S. simplify_eq. by apply (Hc j e1 Hl1).
      * split; [done|]. split; [intros a [|Ha]%Hr; [done|by apply (leaf_entry_phys T' l e 0) in Ha]|].
        intros v' Hv'. rewrite Hg by done. cbn [same_slot]. rewrite Nat.leb_refl, andb_true_r.
        by destruct (leaf_entry_phys T' l e v' He) as (_&_&->).
    + destruct (T !! t) as [es0|] eqn:E0; [|done]. cbn [mbind option_bind] in Hp.
      destruct (es0 !! _) as [e0|] eqn:Hi0; [|done]. cbn [mbind option_bind] in Hp.
      destruct (present e0) eqn:Hp0, (huge e0) eqn:Hh0; try done. cbn [andb negb] in Hp.
      pose proof Hwf as (es1&Ht1&Hc&Hd)%wf_S. pose proof Ht1 as (_&E1&_&Hf1). simplify_eq.
      destruct (Hc _ _ Hi0) as [Hw0 Hn0]. specialize (Hw0 Hp0). rewrite Hh0 in Hw0.
      pose proof (path_reach _ _ _ _ _ _ Hp) as Hrt.
      destruct (IH (entry_addr e0) Hw0 Hp) as (IHw&IHr&IHg); [lia|done|done|]. fold T' in IHw, IHr, IHg.
      assert (entry_reach T l e0 tt) as Hrtt by done.
      destruct (replace_entry T T' l t es0 (table_index v (S l)) e0 e0) as (Hw&Hr&Hg);
        [done|done|lia|done|by apply (Forall_lookup_1 _ _ _ _ Hf1 Hi0)|..].
      * unfold T'. rewrite lookup_insert_ne by (by intros <-). by rewrite list_insert_id.
      * intros _. by rewrite Hh0.
      * intros a (_&_&Ha%IHr). split; [by intros ->; apply Hn0|]. by left.
      * intros j e1 Hj Hl1 a Ha. unfold T'. apply lookup_insert_ne. intros <-. by apply (Hd j _ e1 e0 tt Hj).
      * split; [done|]. split; [intros a [|(_&_&Ha%IHr)]%Hr; [done|]; apply (reach_S _ _ _ _ _ E0); right; by exists (Z.to_nat (table_index v (S l))), e0|].
        intros v' Hv'. rewrite Hg by done. cbn [same_slot]. rewrite (proj2 (Nat.leb_gt _ _) Hlt).
        destruct (Z.eqb_spec (table_index v' (S l)) (table_index v (S l))) as [Eq|Hne]; [|done].
        unfold entry_phys. rewrite Hp0, Hh0. cbn [negb andb]. rewrite IHg by done.
        destruct (same_slot l target v v'); [done|].
        rewrite (get_phys_S T l t es0 v' e0 E0) by (rewrite Eq; done). unfold entry_phys. by rewrite Hp0, Hh0.
Qed.

(** A table of leaf entries has no table below it. *)
Lemma leaf_table T l n es : is_table T n es → Forall (leaf_entry l) es →
  wf T l n ∧ (∀ a, reach T l n a → a = n) ∧
  ∀ v e, es !! Z.to_nat (table_index v l) = Some e → get_phys l v n T = Ok (leaf_phys l e v).
Proof.
  intros Ht Hf. pose proof Ht as (_&E&_). destruct l as [|l].
  - split; [by eexists|]. split; [by intros a [->|[]]|]. intros v e He. by apply (get_phys_O _ _ es).
  - assert (∀ i e, es !! i = Some e → leaf_entry (S l) e) as Hle by (intros i e He; by apply (Forall_lookup_1 _ _ _ _ Hf He)).
    split; [|split].
    + apply wf_S. exists es. split; [done|]. split.
      * intros i e Hi. destruct (leaf_entry_phys T l e 0 (Hle i e Hi)) as (?&?&_). split; [done|]. auto.
      * intros i j e e' a _ Hi _ Hr. by apply (leaf_entry_phys T l e 0 (Hle i e Hi)) in Hr.
    + intros a [->|(i&e&Hi&Hr)]%(reach_S _ _ _ _ _ E); [done|].
      by apply (leaf_entry_phys T l e 0 (Hle i e Hi)) in Hr.
    + intros v e He. rewrite (get_phys_S _ _ _ _ _ _ E He). by apply leaf_entry_phys, (Hle _ _ He).
Qed.

(** * The walk *)

Section Walk.
Context {PS : Type} `{!PageSource PS}.
Variable hhdm_offset : Z.
(** The direct map holds every page the allocator hands out, in canonical
    addresses. *)
Hypothesis hhdm_safe : ∀ p, page_addr p → range_is_safe (u64 (p + hhdm_offset)) 4096 = true.

(** Pages that [st'] took from the allocator of [st]. *)
Definition taken (s s' : PS) (a : Z) : Prop := page_addr a ∧ ps_free s a ∧ ¬ ps_free s' a.

(** [st'] has the tables of [st] below [t] and tables taken from the
    allocator, and translates every address as [st] does. *)
Record grown (lvl : nat) (t : Z) (st st' : paging_state) : Prop := {
  grown_wf : wf (tables st') lvl t;
  grown_ok : ps_ok (pages st');
  grown_free q : ps_free (pages st') q → ps_free (pages st) q;
  grown_reach a : reach (tables st') lvl t a → reach (tables st) lvl t a ∨ taken (pages st) (pages st') a;
  grown_agree a : ¬ reach (tables st) lvl t a → ¬ taken (pages st) (pages st') a → tables st' !! a = tables st !! a;
  grown_phys v : 0 <= v → get_phys lvl v t (tables st') = get_phys lvl v t (tables st);
  grown_flushed : flushed st' = flushed st
}.

(** A state the operations start from: the tables form a tree and no table is
    a free page. *)
Record paging_ok (lvl : nat) (t : Z) (st : paging_state) : Prop := {
  pok_wf : wf (tables st) lvl t;
  pok_ok : ps_ok (pages st);
  pok_free q : ps_free (pages st) q → ¬ reach (tables st) lvl t q
}.

Lemma grown_paging_ok lvl t st st' : paging_ok lvl t st → grown lvl t st st' → paging_ok lvl t st'.
Proof.
  intros [? ? Hf] []. split; [done..|]. intros q Hq [Hr|(?&?&?)]%grown_reach0; [|done]. by apply (Hf q); [apply grown_free0|].
Qed.

Lemma grown_refl lvl t st : paging_ok lvl t st → grown lvl t st st.
Proof. intros []. split; try done. auto. Qed.

(** The node [t] whose entry [i] was replaced by a table [c], after the tree
    below [c] has grown. *)
Lemma grow_node l t st st1 st' es i e e' :
  paging_ok (S l) t st → tables st !! t = Some es → 0 <= i < 512 → es !! Z.to_nat i = Some e →
  0 <= e' < 2 ^ 64 → present e' = true → huge e' = false →
  tables st1 !! t = Some (<[Z.to_nat i := e']> es) →
  (∀ a, a ≠ t → ¬ taken (pages st) (pages st1) a → tables st1 !! a = tables st !! a) →
  (∀ q, ps_free (pages st1) q → ps_free (pages st) q) → flushed st1 = flushed st →
  (∀ a, reach (tables st1) l (entry_addr e') a → entry_reach (tables st) l e a ∨ taken (pages st) (pages st1) a) →
  (∀ v, 0 <= v → table_index v (S l) = i →
    get_phys l v (entry_addr e') (tables st1) = entry_phys (tables st) l e v) →
  grown l (entry_addr e') st1 st' →
  grown (S l) t st st'.
Proof.
  intros [Hwf Hok Hfree] E Hi Hie He' Hp' Hh' E1 Hag1 Hsub1 Hfl Hr1 Hph1 [Gw Go Gf Gr Ga Gp Gfl].
  pose proof Hwf as (es0&Ht&Hc&Hd)%wf_S. pose proof Ht as (_&E0&_). simplify_eq.
  assert (∀ a, taken (pages st) (pages st1) a ∨ taken (pages st1) (pages st') a → taken (pages st) (pages st') a) as Htk.
  { intros a [(?&?&H)|(?&?&?)]; split_and!; [done|done|by intros ?%Gf|done|by apply Hsub1|done]. }
  assert (∀ a, taken (pages st) (pages st') a → ¬ reach (tables st) (S l) t a) as Hnt by (intros a (_&Hf&_); by apply Hfree).
  assert (∀ a, entry_reach (tables st) l e a → reach (tables st) (S l) t a) as Hup.
  { intros a Ha. rewrite (reach_S _ _ _ _ _ E). right. eauto. }
  assert (∀ a, reach (tables st) (S l) t a → ¬ entry_reach (tables st) l e a → tables st' !! a = tables st1 !! a) as Hold.
  { intros a Ha Hn. apply Ga; [intros [|]%Hr1; [done|]|intros ?]; eapply (Hnt a); eauto. }
  assert (¬ entry_reach (tables st) l e t) as Hnself by by apply (Hc (Z.to_nat i)).
  destruct (replace_entry (tables st) (tables st') l t es i e e') as (Hw&Hr&Hg); try done.
  - rewrite Hold; [done|apply reach_self|done].
  - intros _. by rewrite Hh'.
  - assert (∀ a, entry_reach (tables st') l e' a → entry_reach (tables st) l e a ∨ taken (pages st) (pages st') a) as Hra.
    { intros a (_&_&[[|]%Hr1|]%Gr); eauto. }
    intros a [Ha|Ha]%Hra; (split; [|by auto]); intros ->; [done|]. by apply (Hnt _ Ha), reach_self.
  - intros j e0 Hj Hl0 a Ha.
    assert (reach (tables st) (S l) t a) as Hra by (rewrite (reach_S _ _ _ _ _ E); right; eauto).
    rewrite Hold; [|done|intros ?; by apply (Hd j (Z.to_nat i) e0 e a)]. apply Hag1.
    + intros ->. by apply (Hc j e0 Hl0).
    + intros ?. apply (Hnt a); auto.
  - split; try done.
    + auto.
    + intros a [|(_&_&[[?|?]%Hr1|?]%Gr)]%Hr; auto.
    + intros a Hn Hnk. rewrite Ga; [apply Hag1|..].
      * intros ->. by apply Hn, reach_self.
      * intros ?. auto.
      * intros [|]%Hr1; auto.
      * intros ?. auto.
    + intros v Hv. rewrite Hg by done. case_z; [|done]. unfold entry_phys at 1. rewrite Hp', Hh'. cbn [negb].
      rewrite Gp, Hph1 by done. symmetry. apply (get_phys_S _ _ _ _ _ _ E). by subst i.
    + by rewrite Gfl.
Qed.

(** Hanging a new table of leaf entries below entry [i] of [t], where there
    was no table before. *)
Lemma attach l t st s' n es i e e' new :
  paging_ok (S l) t st → page_addr n → ps_free (pages st) n → ps_ok s' → ¬ ps_free s' n →
  (∀ q, ps_free s' q → ps_free (pages st) q) →
  tables st !! t = Some es → 0 <= i < 512 → es !! Z.to_nat i = Some e →
  0 <= e' < 2 ^ 64 → present e' = true → huge e' = false → entry_addr e' = n →
  length new = 512%nat → Forall (leaf_entry l) new →
  (∀ v x, 0 <= v → table_index v (S l) = i → new !! Z.to_nat (table_index v l) = Some x →
    Ok (leaf_phys l x v) = entry_phys (tables st) l e v) →
  let st1 := mkPaging (<[t := <[Z.to_nat i := e']> es]> (<[n := new]> (tables st))) s' (flushed st) in
  paging_ok l n st1 ∧ ∀ st', grown l n st1 st' → grown (S l) t st st'.
Proof.
  intros Hst Hn Hfn Hok Hnf Hsub E Hi Hie He' Hp' Hh' Ha Hlen Hleaf Hph st1.
  assert (n ≠ t) as Hnt by (intros ->; by apply (pok_free _ _ _ Hst t Hfn), reach_self).
  assert (is_table (tables st1) n new) as Hnew.
  { split; [done|]. split; [unfold st1; cbn [tables]; by rewrite lookup_insert_ne, lookup_insert_eq by done|].
    split; [done|]. eapply Forall_impl; [exact Hleaf|]. by intros x []. }
  destruct (leaf_table (tables st1) l n new Hnew Hleaf) as (Hw&Hr&Hg).
  split.
  - split; [done|done|]. intros q Hq Hrq%Hr. by subst q.
  - intros st' Hgr. rewrite <- Ha in Hgr.
    apply (grow_node l t st st1 st' es i e e'); try done.
    + unfold st1. cbn [tables]. by rewrite lookup_insert_eq.
    + intros a Hat Hnk. unfold st1. cbn [tables]. rewrite !lookup_insert_ne; [done| |done].
      intros <-. by apply Hnk.
    + intros a Hra. right. rewrite Ha in Hra. by apply Hr in Hra as ->.
    + intros v Hv Hvi. rewrite Ha. destruct (table_entry_at _ _ _ v l Hnew Hv) as (x&Hx&_).
      rewrite (Hg v x Hx). by apply Hph.
Qed.

(** Going down into a table that is there. *)
Lemma descend l t st es i e :
  paging_ok (S l) t st → tables st !! t = Some es → 0 <= i < 512 → es !! Z.to_nat i = Some e →
  present e = true → huge e = false →
  paging_ok l (entry_addr e) st ∧ ∀ st', grown l (entry_addr e) st st' → grown (S l) t st st'.
Proof.
  intros Hst E Hi Hie Hp Hh. pose proof Hst as [Hwf ? Hfree]. pose proof Hwf as (es0&Ht&Hc&_)%wf_S.
  pose proof Ht as (_&E0&_&Hf). simplify_eq. destruct (Hc _ _ Hie) as [Hw _]. specialize (Hw Hp). rewrite Hh in Hw.
  assert (∀ a, reach (tables st) l (entry_addr e) a → reach (tables st) (S l) t a) as Hup.
  { intros a Ha. rewrite (reach_S _ _ _ _ _ E). right. by exists (Z.to_nat i), e. }
  split.
  - split; [done..|]. intros q Hq Hr. by apply (Hfree q Hq), Hup.
  - intros st' Hgr. apply (grow_node l t st st st' es i e e); try done.
    + by apply (Forall_lookup_1 _ _ _ _ Hf Hie).
    + by rewrite list_insert_id.
    + intros a Ha. by left.
    + intros v _ _. unfold entry_phys. by rewrite Hp, Hh.
Qed.

Lemma alloc_table_ok (st : paging_state) : ps_ok (pages st) →
  ∃ n s', alloc_table st = Ok (n, mkPaging (tables st) s' (flushed st)) ∧ ps_ok s' ∧
    take_page (pages st) = Ok (n, s') ∧
    (n = 0 ∨ page_addr n ∧ ps_free (pages st) n ∧ ¬ ps_free s' n) ∧
    ∀ q, ps_free s' q → ps_free (pages st) q.
Proof.
  intros Hok. destruct (take_page_ok _ Hok) as (n&s'&E&Hok'&Hn&Hsub). exists n, s'. unfold alloc_table. rewrite E.
  done.
Qed.

(** [s'] is what a run of requests for pages leaves of [s]. *)
Inductive takes : PS → PS → Prop :=
| takes_none s : takes s s
| takes_one s p s1 s' : take_page s = Ok (p, s1) → takes s1 s' → takes s s'.

(** Out of memory: on the way from [st], the allocator returned no page. *)
Definition out_of_memory (st st' : @paging_state PS) : Prop :=
  ∃ s, takes (pages st) s ∧ take_page s = Ok (0, pages st').

Lemma grown_oom l t st s' : paging_ok l t st → ps_ok s' → (∀ q, ps_free s' q → ps_free (pages st) q) →
  grown l t st (mkPaging (tables st) s' (flushed st)).
Proof. intros [] Hok Hsub. split; try done. by left. Qed.

(** The result of an allocating walk: the table of [target] on the path of [v],
    or none because the allocator ran out. *)
Definition walked (lvl target : nat) (v t : Z) (st st' : @paging_state PS) (r : option Z) : Prop :=
  match r with
  | None => out_of_memory st st'
  | Some tb => takes (pages st) (pages st') ∧ path (tables st') lvl target v t = Some tb
  end.

(** What the walk does after it put a table with leaf entries [new] in place of
    entry [i], for both places of the code that allocate one. *)
Lemma walk_new (l : nat) target v t st es e new e' :
  (∀ t st, paging_ok l t st →
    ∃ r st', walk_to_level hhdm_offset l target true v t st = Ok (r, st') ∧ grown l t st st' ∧
      walked l target v t st st' r) →
  0 <= v → paging_ok (S l) t st → tables st !! t = Some es → es !! Z.to_nat (table_index v (S l)) = Some e →
  (S l <=? target)%nat = false → length new = 512%nat → Forall (leaf_entry l) new →
  (∀ n, page_addr n → 0 <= e' n < 2 ^ 64 ∧ entry_addr (e' n) = n ∧ present (e' n) = true ∧ huge (e' n) = false) →
  (∀ w x, 0 <= w → table_index w (S l) = table_index v (S l) → new !! Z.to_nat (table_index w l) = Some x →
    Ok (leaf_phys l x w) = entry_phys (tables st) l e w) →
  ∃ r st', (' (new_table, st1) ← alloc_table st;
      if new_table =? 0 then mret (None, st1)
      else
        let st2 := with_tables st1 (<[new_table:=new]> (tables st1)) in
        st3 ← write_entry st2 t (table_index v (S l)) (e' new_table);
        walk_to_level hhdm_offset l target true v new_table st3) = Ok (r, st') ∧ grown (S l) t st st' ∧
    walked (S l) target v t st st' r.
Proof.
  intros IH Hv Hst E Hie Hlt Hlen Hleaf He' Hph. pose proof Hst as [Hwf Hok Hfree].
  destruct (alloc_table_ok st Hok) as (n&s'&->&Hok'&Et&Hn&Hsub). cbn [mbind result_bind].
  destruct Hn as [->|(Hn&Hfn&Hnf)].
  { exists None, (mkPaging (tables st) s' (flushed st)). split; [done|]. split; [by apply grown_oom|].
    exists (pages st). split; [apply takes_none|done]. }
  rewrite (proj2 (Z.eqb_neq n 0)) by (destruct Hn; lia). destruct (He' n Hn) as (Hr'&Ha'&Hp'&Hh').
  assert (n ≠ t) as Hnt by (intros ->; by apply (Hfree t Hfn), reach_self).
  unfold write_entry, with_tables. cbn [tables pages flushed]. rewrite lookup_insert_ne, E by done.
  cbn [of_option mbind result_bind]. rewrite Hie. cbn [of_option mbind result_bind].
  destruct (attach l t st s' n es (table_index v (S l)) e (e' n) new) as [Hok1 Hgrow]; try done.
  { by apply table_index_range. }
  destruct (IH n _ Hok1) as (r&st'&Ew&Hg&Hr). exists r, st'. split; [exact Ew|]. pose proof (Hgrow st' Hg) as Hg'.
  split; [done|]. destruct r as [tb|]; [destruct Hr as [Htk Hr]; split; [by eapply takes_one|]|].
  2: { destruct Hr as (s0&Htk&E0). exists s0. split; [by eapply takes_one|done]. }
  assert (tables st' !! t = Some (<[Z.to_nat (table_index v (S l)):=e' n]> es)) as E'.
  { rewrite (grown_agree _ _ _ _ Hg); cbn [tables pages].
    - by rewrite lookup_insert_eq.
    - intros [Hr1|Hr1]%(grown_reach _ _ _ _ (grown_refl _ _ _ Hok1)); cbn in *.
      + apply (leaf_table _ l n new) in Hr1; [by subst|..|done]. split; [done|].
        rewrite lookup_insert_ne, lookup_insert_eq by done. split; [done|]. split; [done|].
        eapply Forall_impl; [exact Hleaf|]. by intros x [].
      + destruct Hr1 as (_&?&?); done.
    - intros (_&Hf&_). cbn in Hf. by apply (Hfree t (Hsub t Hf)), reach_self. }
  cbn [path]. rewrite Hlt, E'. cbn [mbind option_bind].
  rewrite list_lookup_insert_eq by (by eapply lookup_lt_Some). cbn [mbind option_bind]. by rewrite Hp', Hh', Ha'.
Qed.

Lemma zero_leaf l : Forall (leaf_entry l) (replicate 512 0).
Proof. apply Forall_replicate. by destruct l. Qed.

Lemma split_leaf e l : 0 <= e < 2 ^ 60 → (S l <= 2)%nat → present e = true →
  Forall (leaf_entry l) (split_entries e (S l)).
Proof.
  intros He Hl Hp. apply Forall_lookup. intros i x Hi.
  pose proof (lookup_lt_Some _ _ _ Hi) as Hlt. rewrite split_length in Hlt.
  rewrite <- (Nat2Z.id i), split_lookup in Hi by lia. simplify_eq.
  destruct (split_entry_ok e l (Z.of_nat i) He Hl Hp ltac:(lia)) as (?&?&Hh&_). split; [lia|].
  destruct l as [|l]; [done|]. intros _. split; [by apply Hh|]. split; [lia|lia].
Qed.

(** The allocating walk ends at the table of [target] on the path of [v], or
    runs out of memory; either way it grows the tree. *)
Lemma walk_ok target v : 0 <= v → ∀ lvl t st, paging_ok lvl t st → (target <= lvl <= 4)%nat →
  ∃ r st', walk_to_level hhdm_offset lvl target true v t st = Ok (r, st') ∧ grown lvl t st st' ∧
    walked lvl target v t st st' r.
Proof.
  intros Hv lvl. induction lvl as [|l IH]; intros t st Hst Hle.
  { exists (Some t), st. split; [done|]. split; [by apply grown_refl|]. split; [apply takes_none|done]. }
  cbn [walk_to_level]. destruct (Nat.leb_spec (S l) target) as [Hge|Hlt].
  { exists (Some t), st. split; [done|]. split; [by apply grown_refl|]. split; [apply takes_none|].
    cbn [path]. by rewrite (proj2 (Nat.leb_le _ _) Hge). }
  pose proof Hst as [Hwf Hok Hfree]. pose proof Hwf as (es&Ht&Hc&_)%wf_S. pose proof Ht as (Hpa&E&Hlen&Hf).
  rewrite hhdm_safe by done. cbn [negb]. unfold read_entry at 1. rewrite E. cbn [of_option mbind result_bind].
  destruct (table_entry_at _ _ _ v (S l) Ht Hv) as (e&Hie&He). rewrite Hie. cbn [of_option mbind result_bind].
  fold (present e) (huge e). pose proof (table_index_range v (S l) Hv) as Hx.
  assert (∀ t st, paging_ok l t st → ∃ r st', walk_to_level hhdm_offset l target true v t st = Ok (r, st') ∧ grown l t st st' ∧
      walked l target v t st st' r) as IH'.
  { intros. apply IH; [done|lia]. }
  pose proof (proj2 (Nat.leb_gt _ _) Hlt) as Hleb.
  destruct (present e) eqn:Hp; cbn [negb]; [destruct (huge e) eqn:Hh|].
  - destruct (Hc _ _ Hie) as [Hw _]. specialize (Hw Hp). rewrite Hh in Hw. destruct Hw as [He60 Hl2].
    apply (walk_new l target v t st es e (split_entries e (S l))
      (λ n, Z.lor n (Z.land e (Z.lor (Z.lor (Z.lor PTE_PRESENT PTE_WRITABLE) PTE_USER) PTE_NX))));
      [done|done|done|done|done|done|apply split_length|apply split_leaf; [lia|done|done]|..].
    + intros n Hn. by apply table_entry_from; [|lia|].
    + intros w x Hw Hwi Hx'. pose proof (table_index_range w l Hw).
      rewrite split_lookup in Hx' by done. simplify_eq. unfold entry_phys. rewrite Hp, Hh. cbn [negb].
      f_equal. by apply split_entry_phys; [lia|..].
  - destruct (descend l t st es _ e Hst E Hx Hie Hp Hh) as [Hok1 Hgrow].
    destruct (IH' _ _ Hok1) as (r&st'&Ew&Hg&Hr). exists r, st'. split; [exact Ew|]. pose proof (Hgrow st' Hg).
    split; [done|]. destruct r as [tb|]; [|done]. destruct Hr as [Htk Hr]. split; [done|]. cbn [path]. rewrite Hleb.
    rewrite (grown_agree _ _ _ _ Hg), E.
    + cbn [mbind option_bind]. rewrite Hie. cbn [mbind option_bind]. by rewrite Hp, Hh.
    + intros Hr1. by apply (Hc _ _ Hie).
    + intros (_&Hf1&_). by apply (Hfree t Hf1), reach_self.
  - apply (walk_new l target v t st es e (replicate 512 0) (λ n, Z.lor n (Z.lor PTE_PRESENT PTE_WRITABLE)));
      [done|done|done|done|done|done|apply length_replicate|apply zero_leaf|..].
    + apply table_entry.
    + intros w x Hw Hwi [-> _]%lookup_replicate. unfold entry_phys, leaf_phys. by rewrite Hp.
Qed.

(** The walk that may not allocate changes nothing and finds the path. *)
Lemma walk_find target v lvl t st : wf (tables st) lvl t → 0 <= v →
  walk_to_level hhdm_offset lvl target false v t st = Ok (path (tables st) lvl target v t, st).
Proof.
  intros Hwf Hv. revert t Hwf. induction lvl as [|l IH]; intros t Hwf; [done|].
  cbn [walk_to_level path]. destruct (S l <=? target)%nat; [done|].
  pose proof Hwf as (es&Ht&Hc&_)%wf_S. pose proof Ht as (Hpa&E&Hlen&Hf).
  rewrite hhdm_safe by done. cbn [negb]. unfold read_entry. rewrite E. cbn [of_option mbind result_bind option_bind].
  destruct (table_entry_at _ _ _ v (S l) Ht Hv) as (e&Hie&_). rewrite Hie. cbn [of_option mbind result_bind option_bind].
  fold (present e) (huge e). destruct (present e) eqn:Hp; [|done]. destruct (huge e) eqn:Hh; [done|]. cbn [negb andb].
  apply IH. destruct (Hc _ _ Hie) as [Hw _]. specialize (Hw Hp). by rewrite Hh in Hw.
Qed.

Lemma path_table T lvl target v t tb : wf T lvl t → path T lvl target v t = Some tb → ∃ es, is_table T tb es.
Proof.
  revert t. induction lvl as [|l IH]; intros t Hwf; cbn [path]; [intros; simplify_eq; by eapply wf_table|].
  destruct (S l <=? target)%nat; [intros; simplify_eq; by eapply wf_table|].
  pose proof Hwf as (es&Ht&Hc&_)%wf_S. pose proof Ht as (Hpa&->&Hlen&Hf). cbn [mbind option_bind].
  destruct (es !! _) as [e|] eqn:Hie; [|done]. cbn [mbind option_bind].
  destruct (present e) eqn:Hp, (huge e) eqn:Hh; try done. cbn [andb negb].
  apply IH. destruct (Hc _ _ Hie) as [Hw _]. specialize (Hw Hp). by rewrite Hh in Hw.
Qed.

(** An address whose entry at level [target] is clear is not mapped. *)
Lemma path_absent T lvl target v v' t tb es e :
  path T lvl target v t = Some tb → (target <= lvl)%nat → T !! tb = Some es →
  es !! Z.to_nat (table_index v target) = Some e → present e = false → same_slot lvl target v v' = true →
  get_phys lvl v' t T = Ok 0.
Proof.
  intros Hp Hle E Hie Hpe. revert t Hp. induction lvl as [|l IH]; intros t Hp Hs.
  - assert (target = 0%nat) by lia. subst target. cbn [path same_slot] in *. simplify_eq.
    rewrite andb_true_r in Hs. apply Z.eqb_eq in Hs. rewrite <- Hs in Hie.
    rewrite (get_phys_O _ _ _ _ _ E Hie). unfold leaf_phys. by rewrite Hpe.
  - cbn [path same_slot] in *. apply andb_true_iff in Hs as [Hi%Z.eqb_eq Hs].
    destruct (Nat.leb_spec (S l) target).
    + assert (target = S l) by lia. subst target. simplify_eq. rewrite <- Hi in Hie.
      rewrite (get_phys_S _ _ _ _ _ _ E Hie). unfold entry_phys. by rewrite Hpe.
    + destruct (T !! t) as [es0|] eqn:E0; [|done]. cbn [mbind option_bind] in Hp.
      destruct (es0 !! _) as [e0|] eqn:Hi0; [|done]. cbn [mbind option_bind] in Hp.
      destruct (present e0) eqn:Hp0, (huge e0) eqn:Hh0; try done. cbn [andb negb] in Hp.
      rewrite <- Hi in Hi0. rewrite (get_phys_S _ _ _ _ _ _ E0 Hi0). unfold entry_phys. rewrite Hp0, Hh0.
      apply IH; [lia|done|done].
Qed.

(** Writing the entry of [v] at level [target] through [write_entry]. *)
Lemma write_leaf lvl target v t tb e st : paging_ok lvl t st → 0 <= v → (target <= lvl)%nat →
  path (tables st) lvl target v t = Some tb → leaf_entry target e →
  ∃ st', write_entry st tb (table_index v target) e = Ok st' ∧ paging_ok lvl t st' ∧ flushed st' = flushed st ∧
    pages st' = pages st ∧ (∀ a, tables st !! a = None → tables st' !! a = None) ∧
    ∀ v', 0 <= v' → get_phys lvl v' t (tables st') =
      if same_slot lvl target v v' then Ok (leaf_phys target e v') else get_phys lvl v' t (tables st).
Proof.
  intros [Hwf Hok Hfree] Hv Hle Hp He. destruct (path_table _ _ _ _ _ _ Hwf Hp) as (es&Ht).
  pose proof Ht as (_&E&_). unfold write_entry. rewrite E. cbn [of_option mbind result_bind].
  destruct (table_entry_at _ _ _ v target Ht Hv) as (e0&->&_). cbn [of_option mbind result_bind].
  destruct (set_leaf (tables st) lvl target v t tb es e) as (Hw&Hr&Hg); try done.
  eexists. split; [done|]. split; [split; [done|done|]; intros q Hq Hrq%Hr; by apply (Hfree q Hq)|].
  do 2 (split; [done|]). split; [|done]. intros a Ha. cbn [tables with_tables].
  rewrite lookup_insert_ne; [done|congruence].
Qed.

Variable top : nat.
Hypothesis Htop : (top <= 4)%nat.

(** The size of a page of a level, and the virtual addresses that share the
    page of [v]: translation uses the bits below [level_shift (S top)]. *)
Definition page_no (target : nat) (v : Z) : Z := (v mod 2 ^ level_shift (S top)) / 2 ^ level_shift target.

Lemma same_slot_page target lvl v v' : 0 <= v → 0 <= v' → (target <= lvl)%nat →
  same_slot lvl target v v' =
    ((v' mod 2 ^ level_shift (S lvl)) / 2 ^ level_shift target =? (v mod 2 ^ level_shift (S lvl)) / 2 ^ level_shift target).
Proof.
  intros Hv Hv' Hle. pose proof (level_shift_pos target).
  assert (∀ v, 0 <= v → (v mod 2 ^ level_shift (S target)) / 2 ^ level_shift target = table_index v target) as Hbase.
  { intros w Hw. rewrite offset_split, Z.div_add_l, Z.div_small by (done || (apply Z.mod_pos_bound || apply Z.pow_nonzero); lia). lia. }
  induction lvl as [|l IH].
  - replace target with 0%nat in * by lia. cbn [same_slot]. by rewrite andb_true_r, !Hbase.
  - cbn [same_slot]. destruct (Nat.leb_spec (S l) target) as [|Hlt].
    { replace target with (S l) in * by lia. by rewrite andb_true_r, !Hbase. }
    rewrite IH by lia. rewrite !(offset_split _ (S l)) by done.
    set (d := level_shift (S l) - level_shift target). assert (0 <= d) as Hd by (unfold d, level_shift; lia).
    assert (2 ^ level_shift (S l) = 2 ^ d * 2 ^ level_shift target) as ->.
    { rewrite <- Z.pow_add_r by lia. f_equal. lia. }
    rewrite !Z.mul_assoc, !Z.div_add_l by (apply Z.pow_nonzero; lia).
    assert (∀ w, 0 <= (w mod (2 ^ d * 2 ^ level_shift target)) / 2 ^ level_shift target < 2 ^ d) as Hb.
    { intros w. pose proof (Z.mod_pos_bound w (2 ^ d * 2 ^ level_shift target) ltac:(apply Z.mul_pos_pos; apply Z.pow_pos_nonneg; lia)).
      split; [apply Z.div_pos; [lia|apply Z.pow_pos_nonneg; lia]|]. apply Z.div_lt_upper_bound; [apply Z.pow_pos_nonneg; lia|lia]. }
    pose proof (Hb v) as H1. pose proof (Hb v') as H2.
    repeat case_z; simpl; try done; exfalso; nia.
Qed.

(** The three map operations, [write] the entry of level [target]. *)
Definition map_at (target : nat) (pml4 virt e : Z) (st : @paging_state PS) : result paging_state :=
  '(pd, st) ← walk_to_level hhdm_offset top target true virt pml4 st;
  match pd with
  | None => mret st
  | Some pd => write_entry st pd (table_index virt target) e
  end.

(** After mapping or unmapping: exactly the addresses of the page of [virt]
    changed, to what [f] says. *)
Definition changed (target : nat) (pml4 virt : Z) (f : Z → Z) (st st' : @paging_state PS) : Prop :=
  ∀ v, 0 <= v → paging_get_phys top pml4 v st' =
    if page_no target v =? page_no target virt then Ok (f v) else paging_get_phys top pml4 v st.
Definition unchanged (pml4 : Z) (st st' : @paging_state PS) : Prop :=
  ∀ v, 0 <= v → paging_get_phys top pml4 v st' = paging_get_phys top pml4 v st.

(** What a mapping does to the pages: it takes tables from the allocator. *)
Record supplied (st st' : @paging_state PS) : Prop := {
  sup_takes : takes (pages st) (pages st');
  sup_free q : ps_free (pages st') q → ps_free (pages st) q;
  sup_tables a : tables st !! a = None → ¬ taken (pages st) (pages st') a → tables st' !! a = None
}.

Lemma reach_held T lvl t a : wf T lvl t → reach T lvl t a → is_Some (T !! a).
Proof.
  revert t. induction lvl as [|l IH]; intros t Hwf.
  - intros [->|[]]. destruct (wf_table _ _ _ Hwf) as (es&_&E&_). by exists es.
  - pose proof Hwf as (es&Ht&Hc&_)%wf_S. pose proof Ht as (_&E&_). rewrite (reach_S _ _ _ _ _ E).
    intros [->|(i&e&Hi&Hp&Hh&Hr)]; [by exists es|]. destruct (Hc i e Hi) as [Hw _]. specialize (Hw Hp).
    rewrite Hh in Hw. by apply (IH (entry_addr e)).
Qed.

Lemma walk_supplied lvl target v t st st' r : wf (tables st) lvl t → grown lvl t st st' →
  walked lvl target v t st st' r → supplied st st'.
Proof.
  intros Hwf Hg Hr. split.
  - destruct r as [tb|]; [apply Hr|]. destruct Hr as (s&Htk&E). clear -Htk E.
    induction Htk; [|by eapply takes_one; eauto]. eapply takes_one; [done|apply takes_none].
  - apply Hg.
  - intros a Ha Hn. rewrite (grown_agree _ _ _ _ Hg); [done| |done]. intros [es Es]%reach_held; [congruence|done].
Qed.

Lemma map_at_ok target pml4 virt e st : paging_ok top pml4 st → 0 <= virt → (target <= top)%nat → leaf_entry target e →
  ∃ st', map_at target pml4 virt e st = Ok st' ∧ paging_ok top pml4 st' ∧ flushed st' = flushed st ∧
    supplied st st' ∧
    (out_of_memory st st' ∧ unchanged pml4 st st' ∨ changed target pml4 virt (leaf_phys target e) st st').
Proof.
  intros Hst Hv Hle He. unfold map_at.
  destruct (walk_ok target virt Hv top pml4 st Hst) as (r&st1&->&Hg&Hr); [lia|]. cbn [mbind result_bind].
  pose proof (grown_paging_ok _ _ _ _ Hst Hg) as Hst1. pose proof (grown_flushed _ _ _ _ Hg) as Hfl.
  pose proof (walk_supplied _ _ _ _ _ _ _ (pok_wf _ _ _ Hst) Hg Hr) as Hsup.
  destruct r as [tb|].
  - destruct Hr as [_ Hr]. destruct (write_leaf top target virt pml4 tb e st1) as (st'&->&Hok'&Hfl'&Epg&Hnone&Hph); try done.
    exists st'. split; [done|]. split; [done|]. split; [by rewrite Hfl'|]. split.
    { destruct Hsup. split; rewrite ?Epg; auto. } right. intros v Hv'.
    unfold paging_get_phys. rewrite Hph, same_slot_page by done. unfold page_no. case_z; [done|]. by apply Hg.
  - exists st1. split; [done|]. split; [done|]. split; [done|]. split; [done|]. left. split; [done|]. intros v Hv'. by apply Hg.
Qed.

(** The three unmap operations. *)
Lemma unmap_at_ok target pml4 virt st : paging_ok top pml4 st → 0 <= virt → (target <= top)%nat →
  ∃ st', unmap_huge hhdm_offset top target pml4 virt st = Ok st' ∧ paging_ok top pml4 st' ∧ flushed st' = flushed st ∧
    match path (tables st) top target virt pml4 with
    | None => st' = st
    | Some _ => changed target pml4 virt (λ _, 0) st st'
    end.
Proof.
  intros Hst Hv Hle. unfold unmap_huge. rewrite walk_find by (done || apply Hst). cbn [mbind result_bind].
  destruct (path (tables st) top target virt pml4) as [tb|] eqn:Hp; [|by exists st].
  destruct (path_table _ _ _ _ _ _ (pok_wf _ _ _ Hst) Hp) as (es&Ht). pose proof Ht as (_&E&_).
  unfold read_entry. rewrite E. cbn [of_option mbind result_bind].
  destruct (table_entry_at _ _ _ virt target Ht Hv) as (e&Hie&He). rewrite Hie. cbn [of_option mbind result_bind].
  assert (leaf_entry target 0) as H0 by (by destruct target).
  destruct (write_leaf top target virt pml4 tb 0 st) as (st'&Ew&Hok'&Hfl'&_&_&Hph); try done.
  assert (changed target pml4 virt (λ _, 0) st st') as Hch.
  { intros v Hv'. unfold paging_get_phys. rewrite Hph, same_slot_page by done. unfold page_no. case_z; [|done].
    unfold leaf_phys, present, has. by rewrite Z.land_0_l. }
  fold (present e). destruct (present e) eqn:Hpe; [by exists st'|]. exists st. do 3 (split; [done|]).
  intros v Hv'. unfold paging_get_phys. case_z; [|done].
  apply (path_absent _ _ target virt v _ tb es e); try done.
  rewrite same_slot_page by done. by apply Z.eqb_eq.
Qed.

(** * The operations *)

(** What the mapped page translates its addresses to. *)
Definition page_phys (target : nat) (phys v : Z) : Z :=
  2 ^ level_shift target * (phys / 2 ^ level_shift target) + v mod 2 ^ level_shift target.

Lemma map_entry target phys f : (target <= 2)%nat → 0 <= phys < 2 ^ 60 → 0 <= f < 2 ^ 12 → Z.testbit f 0 = true →
  (target ≠ 0%nat → Z.testbit f 7 = true) →
  let e := Z.lor (Z.land phys (not64 (2 ^ level_shift target - 1))) f in
  leaf_entry target e ∧ ∀ v, 0 <= v → leaf_phys target e v = page_phys target phys v.
Proof.
  intros Ht Hph Hf H0 H7 e. pose proof (level_shift_pos target) as Hsh.
  assert (level_shift target <= 30) by (unfold level_shift; lia).
  assert (0 < 2 ^ level_shift target) as Hpos by (apply Z.pow_pos_nonneg; lia).
  subst e. rewrite land_mask by lia. set (q := phys / 2 ^ level_shift target).
  pose proof (Z.mul_div_le phys (2 ^ level_shift target) Hpos) as Hle. fold q in Hle.
  assert (0 <= q) as Hq by (apply Z.div_pos; lia).
  assert (2 ^ 12 | 2 ^ level_shift target * q) as Hd.
  { apply Z.divide_mul_l. exists (2 ^ (level_shift target - 12)). rewrite <- Z.pow_add_r by lia. f_equal. lia. }
  destruct (entry_fields (2 ^ level_shift target * q) f Hd) as (He&_&Hp&Hh); [nia|done|].
  rewrite (present_bit f), H0 in Hp. split.
  - split; [lia|]. destruct target as [|k]; [done|]. intros _. rewrite Hh, huge_bit, H7 by done. split; [done|]. split; lia.
  - intros v Hv. rewrite leaf_phys_eq by (done || lia). unfold page_phys. f_equal. f_equal.
    rewrite (lor_low _ f 12) by (done || lia). rewrite Z.mul_comm, Z.div_add_l by lia. rewrite Z.div_small; [unfold q; lia|].
    pose proof (Z.pow_le_mono_r 2 12 (level_shift target) ltac:(lia) ltac:(lia)). lia.
Qed.

(** A 4 KiB entry may also have NX: the translation masks it. *)
Lemma map_entry_4k phys f : 0 <= phys < 2 ^ 60 → 0 <= f < 2 ^ 64 → Z.testbit f 0 = true → Z.land f PTE_ADDR_MASK = 0 →
  let e := Z.lor (Z.land phys (not64 0xFFF)) f in
  leaf_entry 0 e ∧ ∀ v, 0 <= v → leaf_phys 0 e v = page_phys 0 phys v.
Proof.
  intros Hph Hf H0 Hm e. change 0xFFF with (2 ^ 12 - 1) in e. subst e. rewrite land_mask by lia.
  set (a := 2 ^ 12 * (phys / 2 ^ 12)).
  assert (0 <= a < 2 ^ 60 ∧ (2 ^ 12 | a)) as [Ha Hd].
  { pose proof (Z.mul_div_le phys (2 ^ 12) ltac:(lia)). pose proof (Z.div_pos phys (2 ^ 12) ltac:(lia) ltac:(lia)).
    split; [lia|by apply Z.divide_factor_l]. }
  split; [split; [apply lor_range; lia|done]|]. intros v Hv. unfold leaf_phys.
  assert (present (Z.lor a f) = true) as ->.
  { by rewrite present_bit, Z.lor_spec, H0, orb_true_r. }
  assert (entry_addr (Z.lor a f) = a) as ->.
  { unfold entry_addr. rewrite Z.land_lor_distr_l, Hm, Z.lor_0_r.
    destruct (entry_fields a 0 Hd Ha) as (_&Hea&_); [lia|]. by rewrite Z.lor_0_r in Hea. }
  cbn [negb]. change 0xFFF with (2 ^ 12 - 1). rewrite land_low by lia. unfold page_phys. change (level_shift 0) with 12.
  pose proof (Z.mod_pos_bound v (2 ^ 12) ltac:(lia)). apply u64_id. unfold a. lia.
Qed.

Definition flushed_at (virt : Z) (st st' : @paging_state PS) : Prop := flushed st' = flushed st ++ [virt].

Lemma flush_ok pml4 virt (st st1 : @paging_state PS) : paging_ok top pml4 st1 → flushed st1 = flushed st →
  let st' := paging_flush_tlb_page virt st1 in
  paging_ok top pml4 st' ∧ flushed_at virt st st' ∧ tables st' = tables st1 ∧ pages st' = pages st1.
Proof. intros [] Hf st'. split; [by split|]. unfold flushed_at, st', paging_flush_tlb_page. cbn. by rewrite Hf. Qed.

Lemma map_page_ok pml4 virt phys flags st :
  paging_ok top pml4 st → 0 <= virt → 0 <= phys < 2 ^ 60 → 0 <= flags < 2 ^ 64 →
  has flags PTE_PRESENT = true → Z.land flags PTE_ADDR_MASK = 0 →
  ∃ st', paging_map_page hhdm_offset top pml4 virt phys flags st = Ok st' ∧ paging_ok top pml4 st' ∧
    flushed_at virt st st' ∧ supplied st st' ∧
    (out_of_memory st st' ∧ unchanged pml4 st st' ∨
     changed 0 pml4 virt (page_phys 0 phys) st st').
Proof.
  intros Hst Hv Hph Hf Hp Hm.
  assert (Z.testbit flags 0 = true) as H0 by (by rewrite <- (has_testbit flags 0)).
  destruct (map_entry_4k phys flags Hph Hf H0 Hm) as [Hleaf Hlp].
  destruct (map_at_ok 0 pml4 virt _ st Hst Hv ltac:(lia) Hleaf) as (st1&Em&Hok&Hfl&Hsup&Hres).
  destruct (flush_ok pml4 virt st st1 Hok Hfl) as (Hok'&Hfl'&Et&Ep).
  exists (paging_flush_tlb_page virt st1). split; [|split; [done|split; [done|split; [by destruct Hsup; split|]]]].
  - unfold paging_map_page, paging_map_page_noflush, paging_get_pte. unfold map_at in Em.
    destruct (walk_to_level _ _ _ _ _ _ _) as [[[pt|] st2]| | |]; cbn [mbind result_bind mret result_ret] in *;
      [|by injection Em as ->|done..]. change (Z.land (Z.shiftr virt 12) 0x1FF) with (table_index virt 0). by rewrite Em.
  - destruct Hres as [[Ho Hu]|Hc]; [left|right].
    + split; [exact Ho|done].
    + intros v Hv'. unfold paging_get_phys. rewrite Et. fold (paging_get_phys top pml4 v st1). rewrite Hc by done.
      case_z; [|done]. by rewrite Hlp.
Qed.

Lemma map_huge_ok level size pml4 virt phys flags st :
  size = 2 ^ level_shift level → (1 <= level <= 2)%nat → (level <= top)%nat →
  paging_ok top pml4 st → 0 <= virt → 0 <= phys < 2 ^ 60 → 0 <= flags < 2 ^ 12 → has flags PTE_PRESENT = true →
  ∃ st', (st ← map_huge hhdm_offset top level size pml4 virt phys flags st; mret (paging_flush_tlb_page virt st)) = Ok st' ∧
    paging_ok top pml4 st' ∧ flushed_at virt st st' ∧ supplied st st' ∧
    (out_of_memory st st' ∧ unchanged pml4 st st' ∨
     changed level pml4 virt (page_phys level phys) st st').
Proof.
  intros -> Hl Hlt Hst Hv Hph Hf Hp.
  assert (Z.testbit flags 0 = true) as H0 by (by rewrite <- (has_testbit flags 0)).
  destruct (map_entry level phys (Z.lor flags PTE_HUGE_PAGE)) as [Hleaf Hlp]; [lia|done| | | |].
  { apply lor_range; [lia|done|by vm_compute]. }
  { by rewrite Z.lor_spec, H0. }
  { intros _. by rewrite Z.lor_spec, orb_true_r. }
  destruct (map_at_ok level pml4 virt _ st Hst Hv Hlt Hleaf) as (st1&Em&Hok&Hfl&Hsup&Hres).
  destruct (flush_ok pml4 virt st st1 Hok Hfl) as (Hok'&Hfl'&Et&Ep).
  exists (paging_flush_tlb_page virt st1). split; [|split; [done|split; [done|split; [by destruct Hsup; split|]]]].
  - unfold map_huge. unfold map_at in Em.
    destruct (walk_to_level _ _ _ _ _ _ _) as [[[pt|] st2]| | |]; cbn [mbind result_bind mret result_ret] in *;
      [|by injection Em as ->|done..]. rewrite <- Z.lor_assoc. by rewrite Em.
  - destruct Hres as [[Ho Hu]|Hc]; [left|right].
    + split; [exact Ho|done].
    + intros v Hv'. unfold paging_get_phys. rewrite Et. fold (paging_get_phys top pml4 v st1). rewrite Hc by done.
      case_z; [|done]. by rewrite Hlp.
Qed.

Lemma unmap_ok target pml4 virt st : paging_ok top pml4 st → 0 <= virt → (target <= top)%nat →
  ∃ st', (st ← unmap_huge hhdm_offset top target pml4 virt st; mret (paging_flush_tlb_page virt st)) = Ok st' ∧
    paging_ok top pml4 st' ∧ flushed_at virt st st' ∧
    match path (tables st) top target virt pml4 with
    | None => tables st' = tables st
    | Some _ => changed target pml4 virt (λ _, 0) st st'
    end.
Proof.
  intros Hst Hv Hl. destruct (unmap_at_ok target pml4 virt st Hst Hv Hl) as (st1&->&Hok&Hfl&Hres).
  destruct (flush_ok pml4 virt st st1 Hok Hfl) as (Hok'&Hfl'&Et&Ep).
  exists (paging_flush_tlb_page virt st1). split; [done|]. split; [done|]. split; [done|].
  destruct (path _ _ _ _ _); [|by subst st1]. intros v Hv'. unfold paging_get_phys. rewrite Et. by apply Hres.
Qed.

Lemma unmap_page_huge pml4 virt (st : @paging_state PS) :
  paging_unmap_page_noflush hhdm_offset top pml4 virt st = unmap_huge hhdm_offset top 0 pml4 virt st.
Proof.
  unfold paging_unmap_page_noflush, paging_get_pte, unmap_huge.
  by destruct (walk_to_level _ _ _ _ _ _ _) as [[[pt|] st2]| | |].
Qed.

(** The translation always has a result, that of the entry [get_page_entry]
    finds. *)
Lemma get_page_entry_ok (st : @paging_state PS) lvl t v : wf (tables st) lvl t → 0 <= v →
  ∃ r, get_page_entry lvl v t st = Ok r ∧
    match r with
    | None => get_phys lvl v t (tables st) = Ok 0
    | Some (tb, i) => ∃ es l e, tables st !! tb = Some es ∧ es !! Z.to_nat i = Some e ∧ (l <= lvl)%nat ∧
        i = table_index v l ∧ present e = true ∧ get_phys lvl v t (tables st) = Ok (leaf_phys l e v)
    end.
Proof.
  intros Hwf Hv. revert t Hwf. induction lvl as [|l IH]; intros t Hwf.
  - destruct (wf_table _ _ _ Hwf) as (es&Ht). pose proof Ht as (_&E&_).
    destruct (table_entry_at _ _ _ v 0 Ht Hv) as (e&Hie&_). pose proof (get_phys_O _ _ _ _ _ E Hie) as Hg.
    cbn [get_page_entry]. unfold read_entry. rewrite E. cbn [of_option mbind result_bind]. rewrite Hie.
    cbn [of_option mbind result_bind]. fold (present e). destruct (present e) eqn:Hp; cbn [negb].
    + eexists. split; [done|]. by exists es, 0%nat, e.
    + exists None. split; [done|]. rewrite Hg. unfold leaf_phys. by rewrite Hp.
  - pose proof Hwf as (es&Ht&Hc&_)%wf_S. pose proof Ht as (_&E&_).
    destruct (table_entry_at _ _ _ v (S l) Ht Hv) as (e&Hie&_). pose proof (get_phys_S _ _ _ _ _ _ E Hie) as Hg.
    cbn [get_page_entry]. unfold read_entry. rewrite E. cbn [of_option mbind result_bind]. rewrite Hie.
    cbn [of_option mbind result_bind]. fold (present e) (huge e). unfold entry_phys in Hg. rewrite Hg.
    destruct (present e) eqn:Hp; cbn [negb]; [|by exists None].
    destruct (huge e) eqn:Hh; [eexists; split; [done|]; by exists es, (S l), e|].
    destruct (Hc _ _ Hie) as [Hw _]. specialize (Hw Hp). rewrite Hh in Hw. fold (entry_addr e).
    destruct (IH _ Hw) as (r&->&Hr).
    exists r. split; [done|]. destruct r as [[tb i]|]; [|done]. destruct Hr as (es'&l'&e'&?&?&?&?).
    exists es', l', e'. do 2 (split; [done|]). split; [lia|done].
Qed.

(** C6: mapping a 4 KiB page keeps the page tables a tree disjoint from free
    memory and changes the translation of exactly the addresses of that page,
    to [phys] plus their offset, although it may have split a 1 GiB and a 2 MiB
    page on the way; when the allocator runs out, no translation changes.  New
    tables are pages taken from the allocator.  The TLB entry of [virt] is
    flushed. *)
Theorem paging_map_page_correct pml4 virt phys flags st :
  paging_ok top pml4 st → 0 <= virt → 0 <= phys < 2 ^ 60 → 0 <= flags < 2 ^ 64 →
  has flags PTE_PRESENT = true → Z.land flags PTE_ADDR_MASK = 0 →
  ∃ st', paging_map_page hhdm_offset top pml4 virt phys flags st = Ok st' ∧ paging_ok top pml4 st' ∧
    flushed_at virt st st' ∧ supplied st st' ∧
    (out_of_memory st st' ∧ unchanged pml4 st st' ∨
     changed 0 pml4 virt (page_phys 0 phys) st st').
Proof. apply map_page_ok. Qed.

(** mapping a 2 MiB or a 1 GiB page changes the translation of exactly the
    addresses of that page, to [phys] rounded down to the page size plus their
    offset, whatever was mapped there before; when the allocator runs out, no
    translation changes. *)
Theorem paging_map_huge_correct pml4 virt phys flags st :
  (2 <= top)%nat → paging_ok top pml4 st → 0 <= virt → 0 <= phys < 2 ^ 60 → 0 <= flags < 2 ^ 12 →
  has flags PTE_PRESENT = true →
  (∃ st', paging_map_2mb hhdm_offset top pml4 virt phys flags st = Ok st' ∧ paging_ok top pml4 st' ∧
    flushed_at virt st st' ∧ supplied st st' ∧
    (out_of_memory st st' ∧ unchanged pml4 st st' ∨ changed 1 pml4 virt (page_phys 1 phys) st st')) ∧
  (∃ st', paging_map_1gb hhdm_offset top pml4 virt phys flags st = Ok st' ∧ paging_ok top pml4 st' ∧
    flushed_at virt st st' ∧ supplied st st' ∧
    (out_of_memory st st' ∧ unchanged pml4 st st' ∨ changed 2 pml4 virt (page_phys 2 phys) st st')).
Proof.
  intros ? Hst Hv Hph Hf Hp. split.
  - apply (map_huge_ok 1); try done; lia.
  - apply (map_huge_ok 2); try done; lia.
Qed.

(** C7: unmapping a 4 KiB, 2 MiB or 1 GiB page makes exactly its addresses
    untranslated when the table of that level exists; below a larger page or
    where no table exists it changes nothing, so part of a huge page is never
    unmapped. *)
Theorem paging_unmap_correct pml4 virt st :
  (2 <= top)%nat → paging_ok top pml4 st → 0 <= virt →
  Forall (λ op : nat * (paging_state → result paging_state), ∃ st', op.2 st = Ok st' ∧ paging_ok top pml4 st' ∧
    flushed_at virt st st' ∧
    match path (tables st) top op.1 virt pml4 with
    | None => tables st' = tables st
    | Some _ => changed op.1 pml4 virt (λ _, 0) st st'
    end)
    [(0%nat, paging_unmap_page hhdm_offset top pml4 virt); (1%nat, paging_unmap_2mb hhdm_offset top pml4 virt);
     (2%nat, paging_unmap_1gb hhdm_offset top pml4 virt)].
Proof.
  intros ? Hst Hv. repeat apply Forall_cons_2; [..|by apply Forall_nil_2]; cbn [fst snd].
  - unfold paging_unmap_page. rewrite unmap_page_huge. apply unmap_ok; [done|done|lia].
  - apply unmap_ok; [done|done|lia].
  - apply unmap_ok; [done|done|lia].
Qed.

(** The translation of an address is total, 0 when [get_page_entry] finds
    no entry, else what the present entry it finds says at that entry's level. *)
Theorem paging_get_phys_correct pml4 virt st : paging_ok top pml4 st → 0 <= virt →
  ∃ r, get_page_entry top virt pml4 st = Ok r ∧
    match r with
    | None => paging_get_phys top pml4 virt st = Ok 0
    | Some (tb, i) => ∃ es l e, tables st !! tb = Some es ∧ es !! Z.to_nat i = Some e ∧ (l <= top)%nat ∧
        i = table_index virt l ∧ present e = true ∧ paging_get_phys top pml4 virt st = Ok (leaf_phys l e virt)
    end.
Proof. intros [] ?. by apply get_page_entry_ok. Qed.

End Walk.
