(* ===== verification/PageSource.v ===== *)
(** Page tables on the physical allocator.

    The physical allocator (src/mem/pma.c) implements the page source of the
    page table code (src/mem/paging.c), so the theorems of PagingSpec.v hold of
    the two together; the concrete runs boot the allocator, take a top table
    from it and map pages of every size. *)

From S2P Require Import Prelude Mem Vmm Cmm Pma PmaSpec PmaZone PmaSys Paging PagingSpec.

(** [q] is free whatever block maps describe the state. *)
Definition free_frame (s : pma_state) (q : Z) : Prop :=
  ∀ FN FL, pma_inv_gap 0 s FN FL → free_page FN FL (q / PAGE_SIZE).

(** Memory that the direct map reaches. *)
Definition mapped_ram (s : pma_state) : Prop :=
  total_pages (pma_low s) <= 2 ^ 35 ∧ total_pages (pma_normal s) <= 2 ^ 35.

Definition pma_ready (s : pma_state) : Prop := mapped_ram s ∧ ∃ FN FL, pma_inv_gap 0 s FN FL.

(** The [n] bytes at [p] were free and no longer are. *)
Definition frames_taken (s s' : pma_state) (p n : Z) : Prop :=
  ∀ q, (PAGE_SIZE | q) → p <= q < p + n → free_frame s q ∧ ¬ free_frame s' q.

(** What every allocation of aligned pages is to a client that only takes. *)
Lemma pma_take_ok (op : pma_state → result (Z * pma_state)) k n s :
  (∀ GN GL, pma_inv_gap 0 s GN GL → ∃ r s' GN' GL', op s = Ok (r, s') ∧ pma_inv_gap 0 s' GN' GL' ∧
    alloc_any k s s' GN GL GN' GL' r n) →
  pma_ready s →
  ∃ p s', op s = Ok (p, s') ∧ pma_ready s' ∧
    (p = 0 ∨ 0 < p ∧ p + n <= 2 ^ 47 ∧ (2 ^ k | p) ∧ (PAGE_SIZE | p) ∧ frames_taken s s' p n) ∧
    ∀ q, free_frame s' q → free_frame s q.
Proof.
  intros Hop (Hram&FN&FL&H). destruct (Hop FN FL H) as (r&s'&FN'&FL'&E&H'&Hr).
  assert (∀ GN GL, pma_inv_gap 0 s GN GL → ∃ GN' GL', pma_inv_gap 0 s' GN' GL' ∧ alloc_any k s s' GN GL GN' GL' r n) as Hany.
  { intros GN GL HG. destruct (Hop GN GL HG) as (r1&s1&GN'&GL'&E1&H1&Hr1).
    rewrite E in E1. injection E1 as <- <-. eauto. }
  exists r, s'. split; [done|]. split; [|split].
  - split; [|by exists FN', FL']. destruct Hram. unfold mapped_ram.
    destruct Hr as [(_&_&_&(_&_&->)&(_&_&->))|(_&_&_&_&(_&_&->)&(_&_&->)&_)]; done.
  - destruct Hr as [(->&_)|[Hk Ht]]; [by left|right]. destruct Ht as (Hr&Hd&Hz&_&_&Hin&Hfp).
    split; [done|]. split; [destruct Hram; unfold in_one_zone, PAGE_SIZE in Hz; lia|]. split; [done|]. split; [done|].
    intros q [j ->] Hq.
    assert (in_range r n (j * PAGE_SIZE / PAGE_SIZE)) as Hrr by (unfold in_range; rewrite Z.div_mul by done; lia).
    split.
    + intros GN GL HG. destruct (Hany GN GL HG) as (GN'&GL'&_&[(?&_)|(_&_&_&_&_&_&HinG&_)]); [lia|by apply HinG].
    + intros Hf. specialize (Hf FN' FL' H'). by apply Hfp in Hf as [_ Hn].
  - intros q Hq GN GL HG. destruct (Hany GN GL HG) as (GN'&GL'&HG'&Hres). specialize (Hq GN' GL' HG').
    destruct Hres as [(_&_&Hfree&_)|(_&_&_&_&_&_&_&HfpG)]; [by apply Hfree|exact (proj1 (proj1 (HfpG _) Hq))].
Qed.

Lemma pma_take_page_ok s : pma_ready s →
  ∃ p s', pma_alloc_pages s 1 = Ok (p, s') ∧ pma_ready s' ∧
    (p = 0 ∨ page_addr p ∧ free_frame s p ∧ ¬ free_frame s' p) ∧
    ∀ q, free_frame s' q → free_frame s q.
Proof.
  intros H. destruct (pma_take_ok (λ s, pma_alloc_pages s 1) 12 (1 * PAGE_SIZE) s) as (p&s'&E&H'&Hp&Hsub); [|done|].
  { intros GN GL HG. apply pma_alloc_pages_any; [done|lia|lia]. }
  exists p, s'. do 2 (split; [done|]). split; [|done]. destruct Hp as [->|(H0&Hhi&_&Hd&Hq)]; [by left|right].
  unfold PAGE_SIZE in *. split; [split; [lia|done]|]. apply Hq; [done|lia].
Qed.

#[export] Instance pma_source : PageSource pma_state := {|
  take_page s := pma_alloc_pages s 1;
  ps_ok := pma_ready;
  ps_free := free_frame;
  take_page_ok := pma_take_page_ok
|}.

(** * The direct map of x86-64 Limine boots *)

Definition hhdm : Z := 0xffff800000000000.

Lemma canonical_high a : 0xff00000000000000 <= a < 2 ^ 64 → ptr_is_canonical a = true.
Proof.
  intros Ha. unfold ptr_is_canonical. apply Z.eqb_eq.
  assert (u64 (Z.shiftl a 7) = 2 ^ 7 * a - 127 * 2 ^ 64) as ->.
  { unfold u64. rewrite Z.shiftl_mul_pow2 by lia. symmetry. apply (Z.mod_unique _ _ 127); lia. }
  assert (i64 (2 ^ 7 * a - 127 * 2 ^ 64) = 2 ^ 7 * (a - 2 ^ 64)) as ->.
  { unfold i64, sint. change (2 ^ (64 - 1)) with (2 ^ 63). rewrite Z.mod_small by lia. case_z; lia. }
  rewrite Z.shiftr_div_pow2, Z.mul_comm, Z.div_mul by lia. unfold u64.
  apply (Z.mod_unique _ _ (-1)); lia.
Qed.

Lemma hhdm_safe p : page_addr p → range_is_safe (u64 (p + hhdm)) 4096 = true.
Proof.
  intros [Hp [q ->]]. unfold hhdm, PAGE_SIZE in *. rewrite u64_id by lia. unfold range_is_safe.
  cbn [Z.eqb]. rewrite u64_id by lia. rewrite !canonical_high by lia. case_z; [lia|done].
Qed.

(** * Concrete runs *)

Definition zero_tables : gmap Z (list Z) := {[0x200000 := replicate 512 0]}.
Definition demo_p0 : @paging_state pma_state := mkPaging zero_tables demo_s1 [].

Lemma demo_p0_ok : paging_ok 3 0x200000 demo_p0.
Proof.
  destruct demo_inv as (FN&FL&H%pma_inv_weaken&_).
  destruct (pma_alloc_pages_ok 0 demo_s0 FN FL 3 H ltac:(lia) ltac:(lia)) as (r&s'&FN'&FL'&E&H'&Hr).
  rewrite demo_alloc1 in E. injection E as <- <-.
  assert (page_addr 0x200000) as Hpa by (split; [lia|by exists 512]).
  destruct (leaf_table zero_tables 3 0x200000 (replicate 512 0)) as (Hw&Hreach&_).
  { split; [done|]. split; [apply lookup_singleton_eq|]. split; [apply length_replicate|]. apply Forall_replicate. lia. }
  { apply zero_leaf. }
  split; [done|split; [by vm_compute|by exists FN', FL']|]. intros q Hq ->%Hreach. specialize (Hq FN' FL' H').
  destruct Hr as [(?&_)|(_&_&_&_&_&_&Hfp)]; [done|]. apply Hfp in Hq as [_ []].
  unfold in_range, PAGE_SIZE. change (0x200000 / 4096) with 512. lia.
Qed.

Definition paging_after (m : result (@paging_state pma_state)) : paging_state :=
  match m with Ok st => st | _ => demo_p0 end.

(** Present, writable. *)
Definition demo_flags : Z := 3.

Lemma paging_map_page_correct_witness :
  ∃ st', paging_map_page hhdm 3 0x200000 0x40001000 0x7000 demo_flags demo_p0 = Ok st' ∧
    paging_get_phys 3 0x200000 0x40001234 st' = Ok 0x7234 ∧ paging_ok 3 0x200000 st'.
Proof.
  destruct (paging_map_page_correct hhdm hhdm_safe 3 ltac:(lia) 0x200000 0x40001000 0x7000 demo_flags demo_p0)
    as (st'&E&Hok&_&_); [apply demo_p0_ok|lia|lia|by vm_compute|done|done|].
  exists st'. split; [done|]. split; [|done].
  assert ((st ← paging_map_page hhdm 3 0x200000 0x40001000 0x7000 demo_flags demo_p0;
           paging_get_phys 3 0x200000 0x40001234 st) = Ok 0x7234) as Er by (vm_compute; reflexivity).
  rewrite E in Er. exact Er.
Defined.

Lemma paging_map_huge_correct_witness :
  ∃ st', paging_map_1gb hhdm 3 0x200000 0x40000000 0x80000000 demo_flags demo_p0 = Ok st' ∧
    paging_get_phys 3 0x200000 0x40201234 st' = Ok 0x80201234 ∧ paging_ok 3 0x200000 st'.
Proof.
  destruct (paging_map_huge_correct hhdm hhdm_safe 3 ltac:(lia) 0x200000 0x40000000 0x80000000 demo_flags demo_p0)
    as [_ (st'&E&Hok&_&_)]; [lia|apply demo_p0_ok|lia|lia|by vm_compute|done|].
  exists st'. split; [done|]. split; [|done].
  assert ((st ← paging_map_1gb hhdm 3 0x200000 0x40000000 0x80000000 demo_flags demo_p0;
           paging_get_phys 3 0x200000 0x40201234 st) = Ok 0x80201234) as Er by (vm_compute; reflexivity).
  rewrite E in Er. exact Er.
Defined.

Lemma paging_unmap_correct_witness :
  ∃ st', paging_unmap_page hhdm 3 0x200000 0x40001000 demo_p0 = Ok st' ∧ paging_ok 3 0x200000 st'.
Proof.
  pose proof (paging_unmap_correct hhdm hhdm_safe 3 ltac:(lia) 0x200000 0x40001000 demo_p0
    ltac:(lia) demo_p0_ok ltac:(lia)) as H.
  apply Forall_cons in H as [(st'&E&Hok&_) _]. by exists st'.
Defined.

Lemma paging_get_phys_correct_witness : paging_get_phys 3 0x200000 0x40001000 demo_p0 = Ok 0.
Proof.
  destruct (paging_get_phys_correct 3 ltac:(lia) 0x200000 0x40001000 demo_p0 demo_p0_ok ltac:(lia)) as ([[tb i]|]&E&H); [|done].
  assert (get_page_entry 3 0x40001000 0x200000 demo_p0 = Ok None) as E' by (vm_compute; reflexivity).
  rewrite E in E'. discriminate.
Defined.

(** Splitting a 1 GiB page twice and overwriting one 4 KiB page of it leaves
    the neighbouring pages where they were. *)
Example split_run :
  (st ← paging_map_1gb hhdm 3 0x200000 0x40000000 0x80000000 demo_flags demo_p0;
   st ← paging_map_page hhdm 3 0x200000 0x40203000 0x7000 demo_flags st;
   a ← paging_get_phys 3 0x200000 0x40202fff st; b ← paging_get_phys 3 0x200000 0x40203123 st;
   c ← paging_get_phys 3 0x200000 0x40204000 st; d ← paging_get_phys 3 0x200000 0x7fffffff st;
   mret [a; b; c; d]) = Ok [0x80202fff; 0x7123; 0x80204000; 0xbfffffff].
Proof. vm_compute. reflexivity. Qed.

(** The translation of a huge page keeps the no-execute bit of its entry as
    bit 63 of the physical address; a 4 KiB page masks it. *)
Theorem get_phys_keeps_nx :
  (st ← paging_map_2mb hhdm 3 0x200000 0x40000000 0x800000 (Z.lor demo_flags PTE_NX) demo_p0;
   paging_get_phys 3 0x200000 0x40000010 st) = Ok 0x8000000000800010 ∧
  (st ← paging_map_page hhdm 3 0x200000 0x40000000 0x800000 (Z.lor demo_flags PTE_NX) demo_p0;
   paging_get_phys 3 0x200000 0x40000010 st) = Ok 0x800010.
Proof. split; vm_compute; reflexivity. Qed.
