(* ===== verification/Stdio.v ===== *)
(** Formatted output and number parsing (src/stdio.c).

    A C string is the list of its bytes before the NUL; a pointer into one is
    the suffix it points to, so [*p] is 0 at the end and [p++] there leaves the
    string, a [Fault].  The output buffer is the list of bytes at its address;
    a store outside it is a [Fault], and so is the overflow of a signed [int],
    which C leaves undefined.  Arguments are 64-bit slots with the object a
    pointer points to; the objects do not overlap the output buffer. *)

From Stdlib Require Import Ascii.
From S2P Require Import Prelude Mem.

(** * Characters *)

Definition chr (a : ascii) : Z := Z.of_nat (nat_of_ascii a).
Definition bytes_of (s : string) : list Z := map chr (String.list_ascii_of_string s).

(** [*p] *)
Definition peek (p : list Z) : Z := default 0 (head p).
(** [p++] *)
Definition next (p : list Z) : result (list Z) := match p with [] => Fault | _ :: p => Ok p end.

Definition is_digit (c : Z) : bool := (48 <=? c) && (c <=? 57).

(** The result of an [int] operation. *)
Definition int_ok (z : Z) : result Z := if (- 2 ^ 31 <=? z) && (z <? 2 ^ 31) then Ok z else Fault.

(** * Buffers *)

Definition store_bytes (b : list Z) (p : Z) (s : list Z) : result (list Z) :=
  if (0 <=? p) && (p + Z.of_nat (length s) <=? Z.of_nat (length b))
  then Ok (take (Z.to_nat p) b ++ s ++ drop (Z.to_nat p + length s) b)
  else Fault.

Definition digits_lower : list Z := bytes_of "0123456789abcdef".
Definition digits_upper : list Z := bytes_of "0123456789ABCDEF".

(** The loop of [ptrthex]: [i] more digits to store, from the last. *)
Fixpoint ptrthex_loop (i : nat) (buf : list Z) (val : Z) : result (list Z) :=
  match i with
  | O => Ok buf
  | S i =>
      c ← of_option (digits_upper !! Z.to_nat (Z.land val 0xF));
      buf ← store_bytes buf (Z.of_nat i) [c];
      ptrthex_loop i buf (Z.shiftr val 4)
  end.

Definition ptrthex (buf : list Z) (val : Z) : result (list Z) :=
  buf ← ptrthex_loop 16 buf val;
  store_bytes buf 16 [0].

(** * strtoull *)

Definition is_hex (c : Z) : bool :=
  is_digit c || ((97 <=? c) && (c <=? 102)) || ((65 <=? c) && (c <=? 70)).

Definition hex_value (c : Z) : Z :=
  if is_digit c then c - 48 else if (97 <=? c) && (c <=? 102) then c - 97 + 10 else c - 65 + 10.

Fixpoint hex_loop (p : list Z) (val : Z) : Z :=
  match p with
  | c :: p => if is_hex c then hex_loop p (u64 (u64 (val * 16) + hex_value c)) else val
  | [] => val
  end.

Fixpoint dec_loop (p : list Z) (val : Z) : Z :=
  match p with
  | c :: p => if is_digit c then dec_loop p (u64 (u64 (val * 10) + (c - 48))) else val
  | [] => val
  end.

Definition strtoull (nptr : list Z) : Z :=
  if (peek nptr =? 48) && ((peek (tail nptr) =? 120) || (peek (tail nptr) =? 88))
  then hex_loop (drop 2 nptr) 0
  else dec_loop nptr 0.

(** * readline *)

(** What [readline] keeps: the buffer, the index, the input not yet read and
    the characters echoed. *)
Record line_state := mkLine { line_buf : list Z; line_index : Z; line_in : list Z; line_echo : list Z }.

Definition echo_chars (echo : bool) (cs : list Z) (out : list Z) : list Z := if echo then out ++ cs else out.

(** The loop; the input holds what the blocking [getc_func] will return, as
    signed [char]s.  [None]: the input ended and the loop still waits. *)
Fixpoint readline_loop (input : list Z) (echo : bool) (limit : Z) (buffer : list Z) (index : Z) (out : list Z)
    : result (option line_state) :=
  if negb (index <? u64 (limit - 1)) then Ok (Some (mkLine buffer index input out))
  else match input with
  | [] => Ok None
  | c :: rest =>
      let c := sint 8 c in
      if (c =? 10) || (c =? 13) then Ok (Some (mkLine buffer index rest (echo_chars echo [10] out)))
      else if (c =? 8) || (c =? 127) then
        if index >? 0 then readline_loop rest echo limit buffer (index - 1) (echo_chars echo [8; 32; 8] out)
        else readline_loop rest echo limit buffer index out
      else if (c >=? 32) && (c <=? 126) then
        buffer ← store_bytes buffer index [c];
        readline_loop rest echo limit buffer (index + 1) (echo_chars echo [c] out)
      else readline_loop rest echo limit buffer index out
  end.

Definition readline (input : list Z) (echo : bool) (buffer : list Z) (limit : Z) : result (option line_state) :=
  r ← readline_loop input echo limit buffer 0 [];
  match r with
  | None => mret None
  | Some st =>
      let out := if line_index st =? u64 (limit - 1) then echo_chars echo [10] (line_echo st) else line_echo st in
      b ← store_bytes (line_buf st) (line_index st) [0];
      mret (Some (mkLine b (line_index st) (line_in st) out))
  end.

(** * The output context *)

Definition map100 : list Z := bytes_of
  "00010203040506070809101112131415161718192021222324252627282930313233343536373839404142434445464748495051525354555657585960616263646566676869707172737475767778798081828384858687888990919293949596979899".

Definition FLAG_ALT : Z := 2 ^ 0.
Definition FLAG_ZERO : Z := 2 ^ 1.
Definition FLAG_LEFT : Z := 2 ^ 2.
Definition FLAG_SPACE : Z := 2 ^ 3.
Definition FLAG_SIGN : Z := 2 ^ 4.

Definition flag (flags f : Z) : bool := negb (Z.land flags f =? 0).

Inductive len_t := LEN_DEFAULT | LEN_HH | LEN_H | LEN_L | LEN_LL | LEN_Z | LEN_J | LEN_T.

(** [base] is the address of the buffer whose bytes are [buf]. *)
Record ctx := mkCtx { base : Z; buf : list Z; cap : Z; pos : Z }.

Definition ctx_putc (x : ctx) (c : Z) : result ctx :=
  b ← (if pos x <? cap x then store_bytes (buf x) (pos x) [c] else mret (buf x));
  mret (mkCtx (base x) b (cap x) (u64 (pos x + 1))).

Definition avail (x : ctx) : Z := if cap x >? pos x then cap x - pos x else 0.

(** [memcpy] from an array the model holds as a list: only the destination
    can fail its checks. *)
Definition ctx_write (x : ctx) (s : list Z) : result ctx :=
  let n := Z.of_nat (length s) in
  if n =? 0 then Ok x
  else
    let copy := if n <? avail x then n else avail x in
    _ ← nonnull "MEMORY" "memcpy dest is null" (u64 (base x + pos x));
    _ ← safe "MEMORY" "memcpy dest is out of range" (u64 (base x + pos x)) copy;
    b ← (if copy =? 0 then mret (buf x) else store_bytes (buf x) (pos x) (take (Z.to_nat copy) s));
    mret (mkCtx (base x) b (cap x) (u64 (pos x + n))).

Definition ctx_pad (x : ctx) (ch n : Z) : result ctx :=
  if n <=? 0 then Ok x
  else
    let fill := if n <? avail x then n else avail x in
    _ ← nonnull "MEMORY" "memset s is null" (u64 (base x + pos x));
    _ ← safe "MEMORY" "memset s is out of range" (u64 (base x + pos x)) fill;
    b ← (if fill =? 0 then mret (buf x) else store_bytes (buf x) (pos x) (replicate (Z.to_nat fill) (u8 ch)));
    mret (mkCtx (base x) b (cap x) (u64 (pos x + n))).

(** * Numbers *)

(** The loops fill [tmp] downwards: the [i] slots left bound them, and a loop
    that runs out of slots has left the array.  [acc] is [tmp + i]. *)
Fixpoint digits_loop16 (i : nat) (digits : list Z) (val : Z) (acc : list Z) : result (list Z) :=
  if val =? 0 then Ok acc
  else match i with
  | O => Fault
  | S i => d ← of_option (digits !! Z.to_nat (Z.land val 0xF)); digits_loop16 i digits (Z.shiftr val 4) (d :: acc)
  end.

Fixpoint digits_loop2 (i : nat) (val : Z) (acc : list Z) : result (list Z) :=
  if val =? 0 then Ok acc
  else match i with
  | O => Fault
  | S i => digits_loop2 i (Z.shiftr val 1) (48 + Z.land val 1 :: acc)
  end.

(** The last one or two digits of a decimal number below 100. *)
Definition digits_last (i : nat) (val : Z) (acc : list Z) : result (list Z) :=
  if val >=? 10 then
    match i with
    | S (S _) =>
        lo ← of_option (map100 !! Z.to_nat (Z.shiftl val 1 + 1));
        hi ← of_option (map100 !! Z.to_nat (Z.shiftl val 1));
        mret (hi :: lo :: acc)
    | _ => Fault
    end
  else match i with O => Fault | S _ => Ok (48 + val :: acc) end.

Fixpoint digits_loop10 (i : nat) (val : Z) (acc : list Z) : result (list Z) :=
  if val >=? 100 then
    match i with
    | S (S i) =>
        let rem := u32 (val mod 100) in
        lo ← of_option (map100 !! Z.to_nat (Z.shiftl rem 1 + 1));
        hi ← of_option (map100 !! Z.to_nat (Z.shiftl rem 1));
        digits_loop10 i (val / 100) (hi :: lo :: acc)
    | _ => Fault
    end
  else digits_last i val acc.

Fixpoint digits_loop (i : nat) (digits : list Z) (b val : Z) (acc : list Z) : result (list Z) :=
  if val =? 0 then Ok acc
  else match i with
  | O => Fault
  | S i => d ← of_option (digits !! Z.to_nat (val mod u32 b)); digits_loop i digits b (val / u32 b) (d :: acc)
  end.

(** The digits of [val], [tmp + i] to [tmp + 65]. *)
Definition fmt_digits (val b : Z) (upper : bool) : result (list Z) :=
  let digits := if upper then digits_upper else digits_lower in
  if val =? 0 then Ok [48]
  else if b =? 16 then digits_loop16 65 digits val []
  else if b =? 2 then digits_loop2 65 val []
  else if b =? 10 then digits_loop10 65 val []
  else digits_loop 65 digits b val [].

Definition fmt_uint (x : ctx) (val b width flags : Z) (upper : bool) (prefix : list Z) : result ctx :=
  num ← fmt_digits val b upper;
  let numlen := Z.of_nat (length num) in
  let total := numlen + Z.of_nat (length prefix) in
  let padding := if width >? total then width - total else 0 in
  x ← (if negb (flag flags FLAG_LEFT) then
         if flag flags FLAG_ZERO then x ← ctx_write x prefix; ctx_pad x 48 padding
         else x ← ctx_pad x 32 padding; ctx_write x prefix
       else ctx_write x prefix);
  x ← ctx_write x num;
  if flag flags FLAG_LEFT then ctx_pad x 32 padding else mret x.

Definition fmt_signed (x : ctx) (val width flags : Z) : result ctx :=
  if val <? 0 then fmt_uint x (u64 (- (val + 1) + 1)) 10 width flags false [45]
  else
    let prefix := if flag flags FLAG_SIGN then [43] else if flag flags FLAG_SPACE then [32] else [] in
    fmt_uint x (u64 val) 10 width flags false prefix.

(** [s] is [None] for NULL. *)
Definition fmt_string (x : ctx) (s : option (list Z)) (width flags : Z) : result ctx :=
  let s := default (bytes_of "(null)") s in
  let len := i32 (Z.of_nat (length s)) in
  padding ← (if width >? len then int_ok (width - len) else mret 0);
  x ← (if negb (flag flags FLAG_LEFT) then ctx_pad x 32 padding else mret x);
  x ← ctx_write x s;
  if flag flags FLAG_LEFT then ctx_pad x 32 padding else mret x.

Definition fmt_u8_dec (x : ctx) (v : Z) : result ctx :=
  if v >=? 100 then
    let rem := v mod 100 in
    a ← of_option (map100 !! Z.to_nat (Z.shiftl rem 1));
    b ← of_option (map100 !! Z.to_nat (Z.shiftl rem 1 + 1));
    ctx_write x [48 + v / 100; a; b]
  else if v >=? 10 then
    a ← of_option (map100 !! Z.to_nat (Z.shiftl v 1));
    b ← of_option (map100 !! Z.to_nat (Z.shiftl v 1 + 1));
    ctx_write x [a; b]
  else ctx_putc x (48 + v).

Definition fmt_u8_hex2 (x : ctx) (v : Z) : result ctx :=
  a ← of_option (digits_upper !! Z.to_nat (Z.shiftr v 4));
  b ← of_option (digits_upper !! Z.to_nat (Z.land v 0xF));
  ctx_write x [a; b].

(** * Conversions *)

(** An argument: its 64-bit slot, and what it points to when it is a
    pointer. *)
Record va_slot := mkArg { slot : Z; pointee : list Z }.
Definition va_list := list va_slot.

Definition va_arg (args : va_list) : result (va_slot * va_list) :=
  match args with [] => Fault | a :: args => Ok (a, args) end.

Definition va_int (a : va_slot) : Z := i32 (slot a).
Definition va_uint (a : va_slot) : Z := u32 (slot a).
Definition va_long (a : va_slot) : Z := i64 (slot a).
Definition va_ulong (a : va_slot) : Z := u64 (slot a).

(** What stands between the [%] and the conversion character. *)
Record directive := mkDir { d_flags : Z; d_width : Z; d_length : len_t }.

Fixpoint parse_flags (p : list Z) (flags : Z) : Z * list Z :=
  match p with
  | c :: p' =>
      if c =? 35 then parse_flags p' (Z.lor flags FLAG_ALT)
      else if c =? 48 then parse_flags p' (Z.lor flags FLAG_ZERO)
      else if c =? 45 then parse_flags p' (Z.lor flags FLAG_LEFT)
      else if c =? 32 then parse_flags p' (Z.lor flags FLAG_SPACE)
      else if c =? 43 then parse_flags p' (Z.lor flags FLAG_SIGN)
      else (flags, p)
  | [] => (flags, p)
  end.

Fixpoint parse_number (p : list Z) (width : Z) : result (Z * list Z) :=
  match p with
  | c :: p' => if is_digit c then w ← int_ok (width * 10); w ← int_ok (w + (c - 48)); parse_number p' w else Ok (width, p)
  | [] => Ok (width, p)
  end.

Fixpoint skip_digits (p : list Z) : list Z :=
  match p with c :: p' => if is_digit c then skip_digits p' else p | [] => [] end.

(** The width, from an argument for [*]. *)
Definition parse_width (p : list Z) (flags : Z) (args : va_list) : result (Z * Z * list Z * va_list) :=
  if peek p =? 42 then
    '(a, args) ← va_arg args;
    let width := va_int a in
    if width <? 0 then w ← int_ok (- width); mret (Z.lor flags FLAG_LEFT, w, tail p, args)
    else mret (flags, width, tail p, args)
  else '(width, p) ← parse_number p 0; mret (flags, width, p, args).

(** A precision is skipped, its argument too. *)
Definition parse_precision (p : list Z) (args : va_list) : result (list Z * va_list) :=
  if peek p =? 46 then
    let p := tail p in
    if peek p =? 42 then '(_, args) ← va_arg args; mret (tail p, args)
    else mret (skip_digits p, args)
  else mret (p, args).

Definition parse_length (p : list Z) : len_t * list Z :=
  if peek p =? 104 then
    let p := tail p in if peek p =? 104 then (LEN_HH, tail p) else (LEN_H, p)
  else if peek p =? 108 then
    let p := tail p in if peek p =? 108 then (LEN_LL, tail p) else (LEN_L, p)
  else if peek p =? 122 then (LEN_Z, tail p)
  else if peek p =? 106 then (LEN_J, tail p)
  else if peek p =? 116 then (LEN_T, tail p)
  else (LEN_DEFAULT, p).

Definition parse_directive (p : list Z) (args : va_list) : result (directive * list Z * va_list) :=
  let '(flags, p) := parse_flags p 0 in
  let flags := if flag flags FLAG_LEFT then Z.land flags (u8 (Z.lnot FLAG_ZERO)) else flags in
  '(flags, width, p, args) ← parse_width p flags args;
  '(p, args) ← parse_precision p args;
  let '(len, p) := parse_length p in
  mret (mkDir flags width len, p, args).

Definition signed_arg (len : len_t) (a : va_slot) : Z :=
  match len with
  | LEN_LL | LEN_L | LEN_Z | LEN_J | LEN_T => va_long a
  | LEN_H => sint 16 (va_int a)
  | LEN_HH => sint 8 (va_int a)
  | LEN_DEFAULT => va_int a
  end.

Definition unsigned_arg (len : len_t) (a : va_slot) : Z :=
  match len with
  | LEN_LL | LEN_L | LEN_Z | LEN_J | LEN_T => va_ulong a
  | LEN_H => u16 (va_uint a)
  | LEN_HH => u8 (va_uint a)
  | LEN_DEFAULT => va_uint a
  end.

(** The base, case and prefix of an unsigned conversion. *)
Definition unsigned_style (c flags val : Z) : Z * bool * list Z :=
  if c =? 120 then (16, false, if flag flags FLAG_ALT then bytes_of "0x" else [])
  else if c =? 88 then (16, true, if flag flags FLAG_ALT then bytes_of "0X" else [])
  else if c =? 111 then (8, false, if flag flags FLAG_ALT && negb (val =? 0) then bytes_of "0" else [])
  else if c =? 98 then (2, false, if flag flags FLAG_ALT then bytes_of "0b" else [])
  else (10, false, []).

(** Bytes of an address, with a separator between them. *)
Fixpoint fmt_seq (f : ctx → Z → result ctx) (sep : Z) (x : ctx) (vs : list Z) : result ctx :=
  match vs with
  | [] => Ok x
  | [v] => f x v
  | v :: vs => x ← f x v; x ← ctx_putc x sep; fmt_seq f sep x vs
  end.

Definition first_bytes (n : nat) (a : va_slot) : result (list Z) :=
  if (slot a =? NULL) || (length (pointee a) <? n)%nat then Fault else Ok (take n (pointee a)).

(** The conversion of the character [c]. *)
Definition convert (x : ctx) (c : Z) (d : directive) (args : va_list) : result (ctx * va_list) :=
  let flags := d_flags d in
  let width := d_width d in
  if (c =? 100) || (c =? 105) then
    '(a, args) ← va_arg args;
    x ← fmt_signed x (signed_arg (d_length d) a) width flags; mret (x, args)
  else if (c =? 117) || (c =? 120) || (c =? 88) || (c =? 111) || (c =? 98) then
    '(a, args) ← va_arg args;
    let val := unsigned_arg (d_length d) a in
    let '(b, upper, prefix) := unsigned_style c flags val in
    x ← fmt_uint x val b width flags upper prefix; mret (x, args)
  else if c =? 112 then
    '(a, args) ← va_arg args;
    let pwidth := if width >? 0 then width else 18 in
    x ← fmt_uint x (u64 (slot a)) 16 pwidth FLAG_ZERO false (bytes_of "0x"); mret (x, args)
  else if c =? 115 then
    '(a, args) ← va_arg args;
    x ← fmt_string x (if slot a =? NULL then None else Some (pointee a)) width flags; mret (x, args)
  else if c =? 99 then
    '(a, args) ← va_arg args;
    x ← ctx_putc x (u8 (va_int a)); mret (x, args)
  else if c =? 73 then
    '(a, args) ← va_arg args;
    ip ← first_bytes 4 a;
    x ← fmt_seq fmt_u8_dec 46 x ip; mret (x, args)
  else if c =? 77 then
    '(a, args) ← va_arg args;
    if slot a =? NULL then x ← fmt_string x (Some (bytes_of "(null)")) width flags; mret (x, args)
    else
      mac ← first_bytes 6 a;
      x ← fmt_seq fmt_u8_hex2 58 x mac; mret (x, args)
  else if c =? 37 then x ← ctx_putc x 37; mret (x, args)
  else x ← ctx_putc x 37; x ← ctx_putc x c; mret (x, args).

(** The literal text up to a [%] or the end. *)
Fixpoint span_literal (p : list Z) : list Z * list Z :=
  match p with
  | c :: p' => if c =? 37 then ([], p) else let '(l, r) := span_literal p' in (c :: l, r)
  | [] => ([], [])
  end.

(** The main loop; every iteration but the last consumes a character. *)
Fixpoint vsnprintf_loop (fuel : nat) (p : list Z) (x : ctx) (args : va_list) : result ctx :=
  match fuel with
  | O => Fuel
  | S fuel =>
      if peek p =? 0 then Ok x
      else
        let '(lit, p) := span_literal p in
        x ← ctx_write x lit;
        if peek p =? 0 then Ok x
        else
          p ← next p;
          if peek p =? 0 then Ok x
          else
            '(d, p, args) ← parse_directive p args;
            '(x, args) ← convert x (peek p) d args;
            p ← next p;
            vsnprintf_loop fuel p x args
  end.

Definition vsnprintf (addr : Z) (b : list Z) (bufsz : Z) (fmt : list Z) (args : va_list) : result (Z * list Z) :=
  x ← vsnprintf_loop (S (length fmt)) fmt (mkCtx addr b (if bufsz >? 0 then bufsz - 1 else 0) 0) args;
  b ← (if bufsz >? 0 then store_bytes (buf x) (if pos x <? cap x then pos x else cap x) [0] else mret (buf x));
  mret (i32 (pos x), b).

Definition snprintf := vsnprintf.
