(* ===== verification/StdioSpec.v ===== *)
(** What the formatter of src/stdio.c promises.

    [spec_format] is the text a format stands for, without a buffer and without
    the code's parser: flags as a set of characters, tables of length modifiers
    and number styles, integers as residues of the argument's slot.  The file
    proves that [vsnprintf] writes that text truncated to the buffer, ends it
    with NUL, stores nothing behind it and returns the length of the whole
    text, and that [strtoull] reads back the numbers it prints. *)

From S2P Require Import Prelude Mem Stdio.

(** * Numerals *)

Fixpoint digits_of (fuel : nat) (b v : Z) : list Z :=
  match fuel with
  | O => []
  | S fuel => if v <? b then [v] else digits_of fuel b (v / b) ++ [v mod b]
  end.

Definition of_digits (b : Z) (ds : list Z) : Z := fold_left (λ a d, a * b + d) ds 0.

Lemma of_digits_snoc b ds d : of_digits b (ds ++ [d]) = of_digits b ds * b + d.
Proof. unfold of_digits. by rewrite fold_left_app. Qed.

Lemma fold_ge b ds a : 1 <= b → 0 <= a → Forall (λ d, 0 <= d) ds → a <= fold_left (λ a d, a * b + d) ds a.
Proof.
  intros Hb. revert a. induction ds as [|d ds IH]; intros a Ha Hd; simpl; [lia|].
  apply Forall_cons in Hd as [? Hd]. etrans; [|apply IH; [nia|done]]. nia.
Qed.

Lemma div_halves b v k : 2 <= b → 0 <= v < 2 ^ Z.of_nat (S k) → 0 <= v / b < 2 ^ Z.of_nat k.
Proof.
  intros Hb Hv. rewrite Nat2Z.inj_succ, Z.pow_succ_r in Hv by lia. split; [apply Z.div_pos; lia|].
  apply Z.div_lt_upper_bound; [lia|]. nia.
Qed.

(** The numeral of [v]: its value, its digits, and no leading zero. *)
Lemma digits_of_ok k b v : 2 <= b → 0 <= v < 2 ^ Z.of_nat k →
  of_digits b (digits_of (S k) b v) = v ∧ Forall (λ d, 0 <= d < b) (digits_of (S k) b v) ∧
  ∃ d ds, digits_of (S k) b v = d :: ds ∧ (d = 0 → v = 0 ∧ ds = []).
Proof.
  intros Hb. revert v. induction k as [|k IH]; intros v Hv.
  - simpl in Hv. assert (v = 0) as -> by lia. simpl. rewrite (proj2 (Z.ltb_lt 0 b)) by lia.
    split; [done|]. split; [repeat constructor; lia|]. by exists 0, [].
  - remember (S k) as k1. cbn [digits_of]. subst k1. case_z.
    + split; [unfold of_digits; simpl; lia|]. split; [repeat constructor; lia|]. by exists v, [].
    + destruct (IH (v / b)) as (Hval&Hf&d&ds&E&Hz); [by apply div_halves|].
      rewrite of_digits_snoc, Hval. pose proof (Z.div_mod v b ltac:(lia)). pose proof (Z.mod_pos_bound v b ltac:(lia)).
      split; [lia|]. split; [apply Forall_app; split; [done|repeat constructor; lia]|].
      exists d, (ds ++ [v mod b]). rewrite E. split; [done|]. intros ->. destruct (Hz eq_refl) as [Hz0 _].
      pose proof (Z.div_str_pos v b ltac:(lia)). lia.
Qed.

Abbreviation digit_table upper := (if upper then digits_upper else digits_lower).

Definition digit_char (upper : bool) (d : Z) : Z := default 0 (digit_table upper !! Z.to_nat d).

Definition numeral (upper : bool) (b v : Z) : list Z := map (digit_char upper) (digits_of 65 b v).

Lemma digit_lookup (upper : bool) d : 0 <= d < 16 →
  (digit_table upper) !! Z.to_nat d = Some (digit_char upper d).
Proof.
  intros Hd. assert (Z.to_nat d < length (if upper then digits_upper else digits_lower))%nat as Hlt.
  { destruct upper; [change (length digits_upper) with 16%nat|change (length digits_lower) with 16%nat]; lia. }
  unfold digit_char. by destruct (lookup_lt_is_Some_2 _ _ Hlt) as [c ->].
Qed.

(** * The digit loops *)

Lemma digits_loop_ok (upper : bool) b i v acc : 2 <= b <= 16 → 0 < v < 2 ^ Z.of_nat i →
  digits_loop i (if upper then digits_upper else digits_lower) b v acc =
    Ok (map (digit_char upper) (digits_of (S i) b v) ++ acc).
Proof.
  intros Hb. revert v acc. induction i as [|i IH]; intros v acc Hv; [simpl in Hv; lia|].
  remember (S i) as i1. cbn [digits_of]. subst i1. cbn [digits_loop]. rewrite (proj2 (Z.eqb_neq v 0)), (u32_id b) by lia.
  pose proof (Z.mod_pos_bound v b ltac:(lia)). rewrite digit_lookup by lia. cbn [of_option mbind result_bind].
  case_z.
  - rewrite Z.div_small, Z.mod_small by lia. by destruct i.
  - pose proof (Z.div_str_pos v b ltac:(lia)). rewrite IH by (pose proof (div_halves b v i); lia).
    rewrite map_app, <- app_assoc. done.
Qed.

Lemma loop16_eq i digits v acc : 0 <= v → digits_loop16 i digits v acc = digits_loop i digits 16 v acc.
Proof.
  revert v acc. induction i as [|i IH]; intros v acc Hv; cbn [digits_loop16 digits_loop]; [done|].
  change 0xF with (Z.ones 4). rewrite Z.land_ones, Z.shiftr_div_pow2 by lia. change (u32 16) with (2 ^ 4).
  destruct (v =? 0); [done|]. destruct (digits !! _); [|done]. cbn [of_option mbind result_bind].
  apply IH. apply Z.div_pos; lia.
Qed.

Lemma loop2_eq i v acc : 0 <= v → digits_loop2 i v acc = digits_loop i digits_lower 2 v acc.
Proof.
  revert v acc. induction i as [|i IH]; intros v acc Hv; cbn [digits_loop2 digits_loop]; [done|].
  change 1 with (Z.ones 1) at 2. rewrite Z.land_ones, Z.shiftr_div_pow2 by lia. change (u32 2) with (2 ^ 1).
  destruct (v =? 0); [done|]. pose proof (Z.mod_pos_bound v (2 ^ 1) ltac:(lia)).
  assert (digits_lower !! Z.to_nat (v mod 2 ^ 1) = Some (48 + v mod 2 ^ 1)) as ->.
  { destruct (decide (v mod 2 ^ 1 = 0)) as [->|]; [done|]. by replace (v mod 2 ^ 1) with 1 by lia. }
  cbn [of_option mbind result_bind]. apply IH. apply Z.div_pos; lia.
Qed.

Lemma map100_ok r : 0 <= r < 100 →
  map100 !! Z.to_nat (Z.shiftl r 1) = Some (digit_char false (r / 10)) ∧
  map100 !! Z.to_nat (Z.shiftl r 1 + 1) = Some (digit_char false (r mod 10)).
Proof.
  intros Hr. assert (Forall (λ r, map100 !! Z.to_nat (Z.shiftl r 1) = Some (digit_char false (r / 10)) ∧
    map100 !! Z.to_nat (Z.shiftl r 1 + 1) = Some (digit_char false (r mod 10))) (seqZ 0 100)) as H.
  { refine (bool_decide_eq_true_1 _ _). vm_compute. reflexivity. }
  rewrite Forall_forall in H. apply H, elem_of_seqZ. lia.
Qed.

Lemma low_digit d : 0 <= d < 10 → 48 + d = digit_char false d.
Proof.
  intros. assert (Forall (λ d, 48 + d = digit_char false d) (seqZ 0 10)) as Hall
    by (refine (bool_decide_eq_true_1 _ _); vm_compute; reflexivity).
  rewrite Forall_forall in Hall. apply Hall, elem_of_seqZ. lia.
Qed.

Lemma loop10_ok i v acc : 0 < v < 2 ^ Z.of_nat i →
  digits_loop10 i v acc = Ok (map (digit_char false) (digits_of (S i) 10 v) ++ acc).
Proof.
  revert v acc. induction (lt_wf i) as [i _ IH]. intros v acc Hv.
  assert (∀ k, v < 2 ^ k → 10 <= v → 4 <= k) as Hk.
  { intros k Hvk Hv10. destruct (decide (4 <= k)); [done|]. pose proof (Z.pow_le_mono_r 2 k 3 ltac:(lia) ltac:(lia)). lia. }
  destruct (Z.leb_spec 100 v) as [Hb|Hs].
  - pose proof (Hk _ (proj2 Hv) ltac:(lia)). destruct i as [|[|i]]; [lia..|]. cbn [digits_loop10].
    rewrite Z.geb_leb, (proj2 (Z.leb_le 100 v)) by done. pose proof (Z.mod_pos_bound v 100 ltac:(lia)) as Hm.
    rewrite u32_id by lia. destruct (map100_ok (v mod 100) Hm) as [-> ->]. cbn [of_option mbind result_bind].
    remember (S i) as i1. cbn [digits_of]. rewrite (proj2 (Z.ltb_ge v 10)) by lia. subst i1.
    remember (S i) as i1. cbn [digits_of]. rewrite (proj2 (Z.ltb_ge (v / 10) 10)) by (apply Z.div_le_lower_bound; lia). subst i1.
    rewrite Z.div_div by lia. change (10 * 10) with 100.
    assert (0 < v / 100 < 2 ^ Z.of_nat i).
    { split; [apply Z.div_str_pos; lia|]. apply Z.div_lt_upper_bound; [lia|].
      replace (Z.of_nat (S (S i))) with (Z.of_nat i + 2) in Hv by lia. rewrite Z.pow_add_r in Hv by lia. lia. }
    rewrite IH by lia. rewrite !map_app, <- !app_assoc. cbn [map app].
    replace (v mod 100 / 10) with ((v / 10) mod 10).
    2: { change 100 with (10 * 10). rewrite Z.rem_mul_r by lia. rewrite Z.mul_comm, Z.div_add by lia.
         rewrite (Z.div_small (v mod 10)) by (apply Z.mod_pos_bound; lia). lia. }
    replace (v mod 100 mod 10) with (v mod 10); [done|].
    change 100 with (10 * 10). rewrite Z.rem_mul_r by lia. rewrite (Z.mul_comm 10), Z.mod_add, Z.mod_mod by lia. done.
  - assert (digits_loop10 i v acc = digits_last i v acc) as ->.
    { destruct i; cbn [digits_loop10]; by rewrite Z.geb_leb, (proj2 (Z.leb_gt 100 v)) by lia. }
    unfold digits_last. rewrite Z.geb_leb. destruct (Z.leb_spec 10 v) as [H10|H10].
    + pose proof (Hk _ (proj2 Hv) H10). destruct i as [|[|i]]; [lia..|].
      destruct (map100_ok v ltac:(lia)) as [-> ->]. cbn [of_option mbind result_bind].
      remember (S i) as i1. cbn [digits_of]. rewrite (proj2 (Z.ltb_ge v 10)) by lia. subst i1. cbn [digits_of].
      by rewrite (proj2 (Z.ltb_lt (v / 10) 10)) by (apply Z.div_lt_upper_bound; lia).
    + destruct i as [|i]; [simpl in Hv; lia|]. cbn [digits_of]. rewrite (proj2 (Z.ltb_lt v 10)) by lia.
      by rewrite low_digit by lia.
Qed.

(** The bases the conversions use. *)
Definition printf_base (b : Z) : Prop := b = 2 ∨ b = 8 ∨ b = 10 ∨ b = 16.

Ltac base_cases H := destruct H as [H|[H|[H|H]]]; subst.

Lemma fmt_digits_ok v b upper : printf_base b → 0 <= v < 2 ^ 64 → (b = 10 ∨ b = 2 → upper = false) →
  fmt_digits v b upper = Ok (numeral upper b v).
Proof.
  intros Hb Hv Hu. unfold fmt_digits, numeral. case_z.
  { subst. base_cases Hb; by destruct upper. }
  assert (digits_of 65 b v = digits_of 66 b v) as ->.
  { assert (∀ k v, 0 <= v < 2 ^ Z.of_nat k → digits_of (S k) b v = digits_of (S (S k)) b v) as Hs.
    { intros k. induction k as [|k IH]; intros w Hw.
      - simpl in Hw. assert (w = 0) as -> by lia. cbn [digits_of]. by base_cases Hb.
      - cbn [digits_of] in *. case_z; [done|]. f_equal. apply (IH (w / b)). apply div_halves; [base_cases Hb; lia|done]. }
    apply (Hs 64%nat). done. }
  base_cases Hb; cbn [Z.eqb Pos.eqb].
  - rewrite loop2_eq by lia. rewrite (Hu (or_intror eq_refl)).
    rewrite (digits_loop_ok false 2 65) by lia. by rewrite app_nil_r.
  - rewrite digits_loop_ok by lia. by rewrite app_nil_r.
  - rewrite (Hu (or_introl eq_refl)), loop10_ok by lia. by rewrite app_nil_r.
  - rewrite loop16_eq, digits_loop_ok by lia. by rewrite app_nil_r.
Qed.

(** * The text of a format *)

Definition blanks (ch n : Z) : list Z := replicate (Z.to_nat n) ch.

(** What a directive asks for, in the words of the standard: the flags, the
    field width and the number of bits of an integer argument. *)
Record request := mkRequest {
  left_adjust : bool; zero_pad : bool; plus_sign : bool; space_sign : bool; alternate : bool;
  field_width : Z; value_bits : Z
}.

(** The longest prefix of characters that satisfy [P], and the rest. *)
Fixpoint span (P : Z → bool) (p : list Z) : list Z * list Z :=
  match p with
  | c :: p' => if P c then let '(l, r) := span P p' in (c :: l, r) else ([], p)
  | [] => ([], [])
  end.

Definition char_in (s : string) (c : Z) : bool := bool_decide (c ∈ bytes_of s).

(** Whether the flag is among the characters [fl]. *)
Definition given (s : string) (fl : list Z) : bool := existsb (char_in s) fl.

Fixpoint starts (m p : list Z) : bool :=
  match m, p with
  | [], _ => true
  | a :: m, c :: p => (c =? a) && starts m p
  | _ :: _, [] => false
  end.

(** A decimal numeral, or an asterisk for an [int] argument. *)
Definition spec_width (p : list Z) (args : va_list) : result (Z * list Z * va_list) :=
  if starts (bytes_of "*") p then '(a, args) ← va_arg args; mret (sint 32 (slot a), drop 1 p, args)
  else let '(ds, p) := span (char_in "0123456789") p in mret (of_digits 10 (map (λ c, c - 48) ds), p, args).

(** A precision has no effect on the text. *)
Definition spec_precision (p : list Z) (args : va_list) : result (list Z * va_list) :=
  if starts (bytes_of ".*") p then '(_, args) ← va_arg args; mret (drop 2 p, args)
  else if starts (bytes_of ".") p then mret ((span (char_in "0123456789") (drop 1 p)).2, args)
  else mret (p, args).

(** The length modifiers, a longer one before its prefix. *)
Definition modifiers : list (string * Z) :=
  [("hh"%string, 8); ("h"%string, 16); ("ll"%string, 64); ("l"%string, 64); ("z"%string, 64); ("j"%string, 64); ("t"%string, 64)].

(** The bits of an integer argument, 32 without a modifier. *)
Definition spec_length (p : list Z) : Z * list Z :=
  match find (λ m, starts (bytes_of m.1) p) modifiers with
  | Some (m, bits) => (bits, drop (length (bytes_of m)) p)
  | None => (32, p)
  end.

(** Flags in any order, width, precision and length.  A [-] cancels [0]; a
    negative width stands for [-] and its magnitude, which must be an [int]. *)
Definition spec_directive (p : list Z) (args : va_list) : result (request * list Z * va_list) :=
  let '(fl, p) := span (char_in "#0- +") p in
  '(w, p, args) ← spec_width p args;
  if Z.abs w <? 2 ^ 31 then
    '(p, args) ← spec_precision p args;
    let '(bits, p) := spec_length p in
    mret (mkRequest (given "-" fl || (w <? 0)) (given "0" fl && negb (given "-" fl)) (given "+" fl) (given " " fl) (given "#" fl) (Z.abs w) bits, p, args)
  else Fault.

(** A numeral with its prefix, padded to the width. *)
Definition spec_uint (val b width : Z) (left zero upper : bool) (prefix : list Z) : list Z :=
  let num := numeral upper b val in
  let fill := width - (Z.of_nat (length num) + Z.of_nat (length prefix)) in
  if left then prefix ++ num ++ blanks 32 fill
  else if zero then prefix ++ blanks 48 fill ++ num
  else blanks 32 fill ++ prefix ++ num.

Definition spec_signed (val : Z) (r : request) : list Z :=
  spec_uint (Z.abs val) 10 (field_width r) (left_adjust r) (zero_pad r) false
    (if val <? 0 then [45] else if plus_sign r then [43] else if space_sign r then [32] else []).

Definition spec_string (s : option (list Z)) (r : request) : list Z :=
  let s := default (bytes_of "(null)") s in
  let fill := field_width r - Z.of_nat (length s) in
  if left_adjust r then s ++ blanks 32 fill else blanks 32 fill ++ s.

Definition spec_hex2 (v : Z) : list Z := [digit_char true (v / 16); digit_char true (v mod 16)].

Fixpoint spec_seq (f : Z → list Z) (sep : Z) (vs : list Z) : list Z :=
  match vs with [] => [] | [v] => f v | v :: vs => f v ++ sep :: spec_seq f sep vs end.

(** Base, upper case digits, prefix of the alternate form, and whether zero
    has the prefix too. *)
Definition spec_style (c : Z) : Z * bool * list Z * bool :=
  if char_in "x" c then (16, false, bytes_of "0x", true)
  else if char_in "X" c then (16, true, bytes_of "0X", true)
  else if char_in "o" c then (8, false, bytes_of "0", false)
  else if char_in "b" c then (2, false, bytes_of "0b", true)
  else (10, false, [], false).

Definition spec_unsigned (c val : Z) (r : request) : list Z :=
  let '(b, upper, prefix, of_zero) := spec_style c in
  spec_uint val b (field_width r) (left_adjust r) (zero_pad r) upper
    (if alternate r && (of_zero || negb (val =? 0)) then prefix else []).

(** The first [n] bytes of the object behind a pointer. *)
Definition spec_bytes (n : nat) (a : va_slot) : result (list Z) :=
  if bool_decide (slot a ≠ 0 ∧ (n <= length (pointee a))%nat) then Ok (take n (pointee a)) else Fault.

(** The text of one conversion of the argument [a]. *)
Definition spec_value (c : Z) (r : request) (a : va_slot) : result (list Z) :=
  if char_in "di" c then mret (spec_signed (sint (value_bits r) (slot a)) r)
  else if char_in "uxXob" c then mret (spec_unsigned c (slot a mod 2 ^ value_bits r) r)
  else if char_in "p" c then
    mret (spec_uint (slot a mod 2 ^ 64) 16 (if 0 <? field_width r then field_width r else 18) false true false (bytes_of "0x"))
  else if char_in "s" c then mret (spec_string (if slot a =? 0 then None else Some (pointee a)) r)
  else if char_in "c" c then mret [slot a mod 2 ^ 8]
  else if char_in "I" c then ip ← spec_bytes 4 a; mret (spec_seq (numeral false 10) 46 ip)
  else if slot a =? 0 then mret (spec_string None r)
  else mac ← spec_bytes 6 a; mret (spec_seq spec_hex2 58 mac).

(** The text of one conversion and the arguments left; an unknown conversion
    stands for itself. *)
Definition spec_convert (c : Z) (r : request) (args : va_list) : result (list Z * va_list) :=
  if char_in "%" c then Ok ([37], args)
  else if char_in "diuxXobpscIM" c then '(a, args) ← va_arg args; s ← spec_value c r a; mret (s, args)
  else Ok ([37; c], args).

Fixpoint spec_loop (fuel : nat) (p : list Z) (args : va_list) : result (list Z) :=
  match fuel with
  | O => Fuel
  | S fuel =>
      if peek p =? 0 then Ok []
      else
        let '(lit, p) := span (λ c, negb (char_in "%" c)) p in
        if peek p =? 0 then Ok lit
        else
          p ← next p;
          if peek p =? 0 then Ok lit
          else
            '(r, p, args) ← spec_directive p args;
            '(s, args) ← spec_convert (peek p) r args;
            p ← next p;
            rest ← spec_loop fuel p args;
            mret (lit ++ s ++ rest)
  end.

(** The text a format stands for: literal text and conversions in turn. *)
Definition spec_format (fmt : list Z) (args : va_list) : result (list Z) := spec_loop (S (length fmt)) fmt args.

(** Arguments as C has them: 64-bit slots, pointers to bytes of objects
    smaller than 2 GiB. *)
Definition arg_ok (a : va_slot) : Prop :=
  0 <= slot a < 2 ^ 64 ∧ Forall (λ c, 0 <= c < 256) (pointee a) ∧ Z.of_nat (length (pointee a)) < 2 ^ 31.

Lemma i32_mod8 z : u8 (i32 z) = u8 z.
Proof.
  unfold u8, i32, sint. change (2 ^ 32) with (2 ^ 8 * 2 ^ 24).
  pose proof (Z.mod_pos_bound z (2 ^ 8 * 2 ^ 24) ltac:(lia)).
  assert (z mod (2 ^ 8 * 2 ^ 24) mod 2 ^ 8 = z mod 2 ^ 8) as E.
  { rewrite Z.rem_mul_r, (Z.mul_comm (2 ^ 8)), Z.mod_add, Z.mod_mod by lia. done. }
  case_z; [done|]. replace (z mod (2 ^ 8 * 2 ^ 24) - 2 ^ 8 * 2 ^ 24) with (z mod (2 ^ 8 * 2 ^ 24) + - 2 ^ 24 * 2 ^ 8) by lia.
  by rewrite Z.mod_add by lia.
Qed.

Lemma sint_range w z : 1 <= w → - 2 ^ (w - 1) <= sint w z < 2 ^ (w - 1).
Proof.
  intros Hw. unfold sint. pose proof (Z.mod_pos_bound z (2 ^ w) ltac:(apply Z.pow_pos_nonneg; lia)).
  assert (2 ^ w = 2 * 2 ^ (w - 1)) by (rewrite <- Z.pow_succ_r by lia; f_equal; lia). case_z; lia.
Qed.

Lemma signed_arg_range len a : - 2 ^ 63 <= signed_arg len a < 2 ^ 63.
Proof.
  pose proof (sint_range 64 (slot a) ltac:(lia)). pose proof (sint_range 32 (slot a) ltac:(lia)).
  pose proof (sint_range 16 (va_int a) ltac:(lia)). pose proof (sint_range 8 (va_int a) ltac:(lia)).
  unfold signed_arg, va_int, va_long, i32, i64 in *. destruct len; lia.
Qed.

Lemma unsigned_arg_range len a : 0 <= unsigned_arg len a < 2 ^ 64.
Proof.
  pose proof (u64_range (slot a)). pose proof (u32_range (slot a)). pose proof (u16_range (u32 (slot a))).
  pose proof (u8_range (u32 (slot a))). unfold unsigned_arg, va_ulong, va_uint. destruct len; lia.
Qed.

(** * Parsing a directive *)

Lemma int_ok_Ok z w : int_ok z = Ok w → w = z ∧ - 2 ^ 31 <= z < 2 ^ 31.
Proof.
  unfold int_ok. destruct (Z.leb_spec (- 2 ^ 31) z), (Z.ltb_spec z (2 ^ 31)); cbn [andb]; try done. by intros [= <-].
Qed.

Lemma parse_number_ok p w w' p' : parse_number p w = Ok (w', p') → 0 <= w < 2 ^ 31 →
  0 <= w' < 2 ^ 31 ∧ (length p' <= length p)%nat.
Proof.
  revert w. induction p as [|c p IH]; intros w; cbn [parse_number]; [intros [= <- <-]; done|].
  destruct (is_digit c) eqn:Ed; [|intros [= <- <-]; split; done || lia].
  intros (w1&[-> ?]%int_ok_Ok&E)%bind_ok Hw. apply bind_ok in E as (w2&[-> ?]%int_ok_Ok&E).
  unfold is_digit in Ed. zify_bools. destruct (IH _ E) as [? ?]; [lia|]. simpl. split; [done|lia].
Qed.

Lemma parse_flags_length p f f' p' : parse_flags p f = (f', p') → (length p' <= length p)%nat.
Proof.
  revert f. induction p as [|c p IH]; intros f; cbn [parse_flags]; [by intros [= <- <-]|].
  repeat case_match; try (intros ?%IH; simpl; lia). intros [= <- <-]. lia.
Qed.

Lemma skip_digits_length p : (length (skip_digits p) <= length p)%nat.
Proof. induction p as [|c p IH]; simpl; [lia|]. case_match; simpl; lia. Qed.

Lemma tail_length (p : list Z) : (length (tail p) <= length p)%nat.
Proof. destruct p; simpl; lia. Qed.

Lemma parse_length_length p : (length (parse_length p).2 <= length p)%nat.
Proof. unfold parse_length. pose proof (tail_length p). pose proof (tail_length (tail p)). repeat case_match; simpl; lia. Qed.

Lemma parse_directive_ok p args d p' args' : parse_directive p args = Ok (d, p', args') →
  d_width d < 2 ^ 31 ∧ (Forall arg_ok args → Forall arg_ok args') ∧ (length p' <= length p)%nat.
Proof.
  unfold parse_directive. destruct (parse_flags p 0) as [fl p1] eqn:Ef. apply parse_flags_length in Ef.
  intros ([[[fl2 w] p2] args2]&Ew&E)%bind_ok. apply bind_ok in E as ([p3 args3]&Ep&E).
  pose proof (parse_length_length p3) as Hpl. destruct (parse_length p3) as [len p4]. injection E as <- <- <-. cbn [d_width snd] in *.
  assert (w < 2 ^ 31 ∧ (Forall arg_ok args → Forall arg_ok args2) ∧ (length p2 <= length p1)%nat) as (?&?&?).
  { unfold parse_width in Ew. destruct (peek p1 =? 42).
    - apply bind_ok in Ew as ([a args1]&Ea&Ew). destruct args as [|a0 args0]; [done|]. injection Ea as <- <-.
      pose proof (tail_length p1). pose proof (sint_range 32 (slot a0) ltac:(lia)) as Hs. fold (i32 (slot a0)) in Hs. fold (va_int a0) in Hs.
      destruct (va_int a0 <? 0).
      + apply bind_ok in Ew as (w0&[-> ?]%int_ok_Ok&[= <- <- <- <-]). split; [lia|]. split; [by intros [_ ?]%Forall_cons|done].
      + injection Ew as <- <- <- <-. split; [lia|]. split; [by intros [_ ?]%Forall_cons|done].
    - apply bind_ok in Ew as ([w1 p5]&Ew&[= <- <- <- <-]). destruct (parse_number_ok _ _ _ _ Ew); [lia|].
      split; [lia|]. done. }
  assert ((Forall arg_ok args2 → Forall arg_ok args3) ∧ (length p3 <= length p2)%nat) as (?&?).
  { unfold parse_precision in Ep. destruct (peek p2 =? 46); [|by injection Ep as <- <-].
    pose proof (tail_length p2). pose proof (tail_length (tail p2)). pose proof (skip_digits_length (tail p2)). destruct (_ =? 42).
    - apply bind_ok in Ep as ([a args1]&Ea&[= <- <-]). destruct args2 as [|a0 args0]; [done|]. injection Ea as <- <-.
      split; [by intros [_ ?]%Forall_cons|lia].
    - injection Ep as <- <-. split; [done|lia]. }
  split; [done|]. split; [auto|lia].
Qed.

Lemma span_length p : (length (span_literal p).2 <= length p)%nat.
Proof.
  induction p as [|c p IH]; simpl; [lia|]. destruct (c =? 37); simpl; [lia|].
  destruct (span_literal p) as [l r]. simpl in *. lia.
Qed.

(** * The parser finds what the directive asks for *)

Lemma char_in_one s k c : bytes_of s = [k] → char_in s c = (c =? k).
Proof.
  intros E. unfold char_in. rewrite E. destruct (Z.eqb_spec c k) as [->|Hne].
  - apply bool_decide_true, list_elem_of_singleton. done.
  - apply bool_decide_false. by rewrite list_elem_of_singleton.
Qed.

Lemma char_in_digit c : char_in "0123456789" c = is_digit c.
Proof.
  unfold char_in, is_digit. change (bytes_of "0123456789") with [48; 49; 50; 51; 52; 53; 54; 55; 56; 57].
  destruct (bool_decide_reflect (c ∈ [48; 49; 50; 51; 52; 53; 54; 55; 56; 57])) as [H|H];
    rewrite !elem_of_cons, elem_of_nil in H; symmetry; [apply andb_true_iff|apply andb_false_iff];
    rewrite ?Z.leb_le, ?Z.leb_gt; lia.
Qed.

Lemma peek_starts s k p : bytes_of s = [k] → k ≠ 0 → starts (bytes_of s) p = (peek p =? k).
Proof. intros E Hk. rewrite E. destruct p as [|c p]; cbn; [by destruct k|by rewrite andb_true_r]. Qed.

Lemma drop1_tail (p : list Z) : drop 1 p = tail p.
Proof. by destruct p. Qed.

Lemma span_literal_eq p : span_literal p = span (λ c, negb (char_in "%" c)) p.
Proof.
  induction p as [|c p IH]; [done|]. cbn [span_literal span]. rewrite (char_in_one "%" 37), IH by done. by destruct (c =? 37).
Qed.

(** The bit of a flag character, 0 for another one. *)
Definition flag_bit (c : Z) : Z :=
  if c =? 35 then FLAG_ALT else if c =? 48 then FLAG_ZERO else if c =? 45 then FLAG_LEFT
  else if c =? 32 then FLAG_SPACE else if c =? 43 then FLAG_SIGN else 0.

Lemma flag_lor f g k : flag (Z.lor f g) k = flag f k || flag g k.
Proof.
  unfold flag. rewrite Z.land_lor_distr_l, <- negb_andb. f_equal.
  destruct (Z.eqb_spec (Z.lor (Z.land f k) (Z.land g k)) 0) as [E|E]; rewrite Z.lor_eq_0_iff in E; symmetry;
    [apply andb_true_iff|apply andb_false_iff]; rewrite ?Z.eqb_eq, ?Z.eqb_neq; tauto || (destruct (Z.eq_decidable (Z.land f k) 0); tauto).
Qed.

Lemma flag_keep f m k : Z.land m k = k → flag (Z.land f m) k = flag f k.
Proof. intros E. unfold flag. by rewrite <- Z.land_assoc, E. Qed.

Lemma parse_flags_eq p f : let '(fl, r) := span (char_in "#0- +") p in
  parse_flags p f = (fold_left (λ f c, Z.lor f (flag_bit c)) fl f, r).
Proof.
  revert f. induction p as [|c p IH]; intros f; [done|]. cbn [span parse_flags].
  assert (char_in "#0- +" c = (c =? 35) || (c =? 48) || (c =? 45) || (c =? 32) || (c =? 43)) as ->.
  { unfold char_in. change (bytes_of "#0- +") with [35; 48; 45; 32; 43].
    destruct (bool_decide_reflect (c ∈ [35; 48; 45; 32; 43])) as [H|H];
      rewrite !elem_of_cons, elem_of_nil in H; symmetry; rewrite ?orb_true_iff, ?orb_false_iff, ?Z.eqb_eq, ?Z.eqb_neq; tauto. }
  destruct (span (char_in "#0- +") p) as [fl r].
  destruct (c =? 35) eqn:E1; [|destruct (c =? 48) eqn:E2; [|destruct (c =? 45) eqn:E3; [|destruct (c =? 32) eqn:E4; [|destruct (c =? 43) eqn:E5]]]];
    cbn [orb]; try done; rewrite IH; cbn [fold_left]; unfold flag_bit; by rewrite ?E1, ?E2, ?E3, ?E4, ?E5.
Qed.

Lemma flags_given s k fl f : (∀ c, flag (flag_bit c) k = char_in s c) →
  flag (fold_left (λ f c, Z.lor f (flag_bit c)) fl f) k = flag f k || given s fl.
Proof.
  intros Hs. revert f. induction fl as [|c fl IH]; intros f; cbn [fold_left given existsb]; [by rewrite orb_false_r|].
  rewrite IH, flag_lor, Hs. by rewrite <- orb_assoc.
Qed.

Lemma flag_bit_ok : (∀ c, flag (flag_bit c) FLAG_LEFT = char_in "-" c) ∧ (∀ c, flag (flag_bit c) FLAG_ZERO = char_in "0" c) ∧
  (∀ c, flag (flag_bit c) FLAG_SIGN = char_in "+" c) ∧ (∀ c, flag (flag_bit c) FLAG_SPACE = char_in " " c) ∧
  (∀ c, flag (flag_bit c) FLAG_ALT = char_in "#" c).
Proof.
  split_and!; intros c; [rewrite (char_in_one "-" 45) by done|rewrite (char_in_one "0" 48) by done|
    rewrite (char_in_one "+" 43) by done|rewrite (char_in_one " " 32) by done|rewrite (char_in_one "#" 35) by done];
    unfold flag_bit; repeat case_z; subst; done.
Qed.

Lemma skip_digits_eq p : skip_digits p = (span (char_in "0123456789") p).2.
Proof.
  induction p as [|c p IH]; [done|]. cbn [skip_digits span]. rewrite char_in_digit, IH.
  destruct (is_digit c); [|done]. by destruct (span _ p).
Qed.

Lemma parse_number_eq p w : 0 <= w → let '(ds, r) := span (char_in "0123456789") p in
  let v := fold_left (λ a d, a * 10 + d) (map (λ c, c - 48) ds) w in
  w <= v ∧ (v < 2 ^ 31 → parse_number p w = Ok (v, r)).
Proof.
  revert w. induction p as [|c p IH]; intros w Hw; [done|]. cbn [span parse_number]. rewrite char_in_digit.
  destruct (is_digit c) eqn:Ed; [|done]. unfold is_digit in Ed. zify_bools. specialize (IH (w * 10 + (c - 48)) ltac:(lia)).
  destruct (span _ p) as [ds r]. cbn [map fold_left]. destruct IH as [Hge IH]. split; [lia|]. intros Hv.
  unfold int_ok. repeat (rewrite (proj2 (Z.leb_le _ _)), (proj2 (Z.ltb_lt _ _)) by lia; cbn [andb mbind result_bind]).
  by apply IH.
Qed.

(** The bits a length modifier selects. *)
Definition len_bits (len : len_t) : Z :=
  match len with LEN_HH => 8 | LEN_H => 16 | LEN_DEFAULT => 32 | _ => 64 end.

Lemma parse_length_eq p : spec_length p = (len_bits (parse_length p).1, (parse_length p).2).
Proof.
  unfold spec_length, parse_length, modifiers. cbn [find fst].
  destruct p as [|c [|k p]]; cbn; rewrite ?andb_false_r, ?andb_true_r; cbn; repeat case_z; subst; done.
Qed.

Lemma i32_mod w z : 0 <= w <= 32 → i32 z mod 2 ^ w = z mod 2 ^ w.
Proof.
  intros Hw. unfold i32, sint. assert (2 ^ 32 = 2 ^ w * 2 ^ (32 - w)) as E by (rewrite <- Z.pow_add_r by lia; f_equal; lia).
  pose proof (Z.pow_pos_nonneg 2 w ltac:(lia) ltac:(lia)). pose proof (Z.pow_pos_nonneg 2 (32 - w) ltac:(lia) ltac:(lia)).
  assert (z mod 2 ^ 32 mod 2 ^ w = z mod 2 ^ w) as Em.
  { rewrite E, Z.rem_mul_r, (Z.mul_comm (2 ^ w)), Z.mod_add, Z.mod_mod by lia. done. }
  case_z; [done|]. rewrite <- Em. replace (z mod 2 ^ 32 - 2 ^ 32) with (z mod 2 ^ 32 + - 2 ^ (32 - w) * 2 ^ w) by lia.
  by rewrite Z.mod_add by lia.
Qed.

Lemma signed_arg_eq len a : signed_arg len a = sint (len_bits len) (slot a).
Proof. destruct len; try done; unfold signed_arg, va_int, len_bits, sint; by rewrite i32_mod. Qed.

Lemma unsigned_arg_eq len a : unsigned_arg len a = slot a mod 2 ^ len_bits len.
Proof.
  destruct len; try done; unfold unsigned_arg, va_uint, u8, u16, u32, len_bits.
  - change (2 ^ 32) with (2 ^ 8 * 2 ^ 24). rewrite Z.rem_mul_r, (Z.mul_comm (2 ^ 8)), Z.mod_add, Z.mod_mod by lia. done.
  - change (2 ^ 32) with (2 ^ 16 * 2 ^ 16). rewrite Z.rem_mul_r, (Z.mul_comm (2 ^ 16)), Z.mod_add, Z.mod_mod by lia. done.
Qed.

(** The directive the code keeps stands for the request. *)
Definition stands_for (d : directive) (r : request) : Prop :=
  (flag (d_flags d) FLAG_LEFT = left_adjust r ∧ flag (d_flags d) FLAG_ZERO = zero_pad r ∧
   flag (d_flags d) FLAG_SIGN = plus_sign r ∧ flag (d_flags d) FLAG_SPACE = space_sign r ∧
   flag (d_flags d) FLAG_ALT = alternate r) ∧
  d_width d = field_width r ∧ field_width r < 2 ^ 31 ∧ value_bits r = len_bits (d_length d).

Lemma parse_width_eq p flags args w p' args' :
  spec_width p args = Ok (w, p', args') → Z.abs w < 2 ^ 31 →
  parse_width p flags args = Ok (if w <? 0 then Z.lor flags FLAG_LEFT else flags, Z.abs w, p', args').
Proof.
  unfold spec_width, parse_width. rewrite (peek_starts "*" 42), drop1_tail by done. destruct (peek p =? 42).
  - intros ([a args1]&Ea&[= <- <- <-])%bind_ok Hw. rewrite Ea. cbn [mbind result_bind]. unfold va_int, i32.
    case_z; [|by rewrite Z.abs_eq by lia]. unfold int_ok.
    rewrite (proj2 (Z.leb_le _ _)), (proj2 (Z.ltb_lt _ _)) by lia. cbn [andb mbind result_bind]. by rewrite Z.abs_neq by lia.
  - pose proof (parse_number_eq p 0 ltac:(lia)) as Hn. destruct (span _ p) as [ds r]. destruct Hn as [Hge Hn].
    intros [= <- <- <-] Hw. unfold of_digits in *. rewrite Z.abs_eq in * by lia. rewrite Hn by done.
    by rewrite (proj2 (Z.ltb_ge _ _)) by lia.
Qed.

Lemma parse_precision_eq p args : parse_precision p args = spec_precision p args.
Proof.
  unfold spec_precision, parse_precision. rewrite (peek_starts "." 46), drop1_tail by done.
  assert (starts (bytes_of ".*") p = (peek p =? 46) && (peek (tail p) =? 42)) as ->.
  { destruct p as [|c [|k p]]; [done|by cbn; rewrite !andb_false_r|]. unfold peek. cbn. by rewrite andb_true_r. }
  destruct (peek p =? 46); [|done]. cbn [andb]. rewrite skip_digits_eq. destruct (_ =? 42); [|done].
  by destruct p as [|c [|k p]].
Qed.

Lemma parse_directive_eq p args r p' args' : spec_directive p args = Ok (r, p', args') →
  ∃ d, parse_directive p args = Ok (d, p', args') ∧ stands_for d r.
Proof.
  unfold spec_directive, parse_directive. pose proof (parse_flags_eq p 0) as Ef.
  destruct (span (char_in "#0- +") p) as [fl p1]. rewrite Ef. clear Ef. set (f := fold_left _ fl 0).
  assert (∀ s k, (∀ c, flag (flag_bit c) k = char_in s c) → flag f k = given s fl) as Hf.
  { intros s k Hs. unfold f. rewrite (flags_given s) by done. by destruct k. }
  destruct flag_bit_ok as (Hl&Hz&Hs&Hsp&Ha). apply Hf in Hl, Hz, Hs, Hsp, Ha. clearbody f. clear Hf.
  intros ([[w p2] args2]&Ew&E)%bind_ok. destruct (Z.ltb_spec (Z.abs w) (2 ^ 31)) as [Hw|]; [|done].
  apply bind_ok in E as ([p3 args3]&Ep&E). rewrite parse_length_eq in E. injection E as <- <- <-.
  rewrite (parse_width_eq _ _ _ _ _ _ Ew Hw). cbn [mbind result_bind]. rewrite parse_precision_eq, Ep. cbn [mbind result_bind].
  destruct (parse_length p3) as [len p4]. eexists. split; [done|]. unfold stands_for.
  cbn [fst snd d_flags d_width d_length left_adjust zero_pad plus_sign space_sign alternate field_width value_bits].
  rewrite <- Hl, <- Hz, <- Hs, <- Hsp, <- Ha. split; [|done].
  assert (∀ k g, flag (if w <? 0 then Z.lor g FLAG_LEFT else g) k = flag g k || ((w <? 0) && flag FLAG_LEFT k)) as Hneg.
  { intros k g. destruct (w <? 0); [by rewrite flag_lor|by rewrite orb_false_r]. }
  rewrite !Hneg. change (flag FLAG_LEFT FLAG_LEFT) with true. change (flag FLAG_LEFT FLAG_ZERO) with false.
  change (flag FLAG_LEFT FLAG_SIGN) with false. change (flag FLAG_LEFT FLAG_SPACE) with false. change (flag FLAG_LEFT FLAG_ALT) with false.
  rewrite ?andb_true_r, ?andb_false_r, ?orb_false_r. destruct (flag f FLAG_LEFT) eqn:EL; cbn [negb].
  - rewrite (flag_keep f _ FLAG_LEFT), (flag_keep f _ FLAG_SIGN), (flag_keep f _ FLAG_SPACE), (flag_keep f _ FLAG_ALT), EL, andb_false_r by done.
    unfold flag at 1. rewrite <- Z.land_assoc.
    change (Z.land (u8 (Z.lnot FLAG_ZERO)) FLAG_ZERO) with 0. by rewrite Z.land_0_r.
  - by rewrite EL, andb_true_r.
Qed.

(** * The buffer after writing a text *)

(** [b0] overwritten with as much of [out] as fits below [c]. *)
Definition window (c : Z) (out b0 : list Z) : list Z :=
  take (Z.to_nat c) out ++ drop (Nat.min (Z.to_nat c) (length out)) b0.

Section Output.
Variable addr bound : Z.
Variable b0 : list Z.
Hypothesis Hcap : 0 <= bound <= Z.of_nat (length b0).
Hypothesis Hplaced : placed addr bound.

(** The context after the text [out]. *)
Definition holds (out : list Z) (x : ctx) : Prop :=
  x = mkCtx addr (window bound out b0) bound (Z.of_nat (length out)).

(** The pointer behind the text does not wrap to NULL. *)
Definition room (out : list Z) : Prop := addr + Z.of_nat (length out) < 2 ^ 64.

Lemma room_app out s : room (out ++ s) → room out.
Proof. unfold room. rewrite length_app. lia. Qed.

Lemma window_length out : length (window bound out b0) = length b0.
Proof. unfold window. rewrite length_app, length_take, length_drop. lia. Qed.

Lemma window_full out s : bound <= Z.of_nat (length out) → window bound (out ++ s) b0 = window bound out b0.
Proof.
  intros H. unfold window. rewrite length_app, take_app_le by lia. f_equal. f_equal. lia.
Qed.

Lemma window_store out s :
  Z.of_nat (length out) < bound → let copy := Z.min (Z.of_nat (length s)) (bound - Z.of_nat (length out)) in
  store_bytes (window bound out b0) (Z.of_nat (length out)) (take (Z.to_nat copy) s) = Ok (window bound (out ++ s) b0).
Proof.
  intros Hlt copy. unfold store_bytes. rewrite window_length, length_take.
  rewrite (proj2 (Z.leb_le 0 _)), (proj2 (Z.leb_le (_ + _) _)) by lia. cbn [andb]. f_equal. rewrite Nat2Z.id. unfold window.
  rewrite (take_ge out) by lia. rewrite take_app_length, take_app, (take_ge out), <- app_assoc by lia. f_equal.
  assert (take (Z.to_nat copy) s = take (Z.to_nat bound - length out) s) as ->.
  { destruct (decide (Z.of_nat (length s) <= bound - Z.of_nat (length out))).
    - rewrite !take_ge by lia. done.
    - f_equal. lia. }
  f_equal. rewrite drop_app_ge, drop_drop by lia. f_equal. rewrite length_app. lia.
Qed.

(** Storing at the end of the text, as [ctx_write] and [ctx_pad] do. *)
Lemma out_store_ok out s t1 t2 m1 m2 : room (out ++ s) → 
  let pos := Z.of_nat (length out) in let n := Z.of_nat (length s) in
  let av := if bound >? pos then bound - pos else 0 in let copy := if n <? av then n else av in
  nonnull t1 m1 (u64 (addr + pos)) = Ok () ∧ safe t2 m2 (u64 (addr + pos)) copy = Ok () ∧
  (if copy =? 0 then mret (window bound out b0) else store_bytes (window bound out b0) pos (take (Z.to_nat copy) s))
    = Ok (window bound (out ++ s) b0) ∧
  u64 (pos + n) = Z.of_nat (length (out ++ s)).
Proof.
  intros Hr pos n av copy. unfold room in Hr. rewrite length_app in *. destruct Hplaced as [Ha Hpl].
  assert (0 <= copy ∧ (pos < bound → copy = Z.min n (bound - pos)) ∧ (bound <= pos → copy = 0)) as (Hc0&Hc1&Hc2).
  { unfold copy, av, n. rewrite Z.gtb_ltb. destruct (Z.ltb_spec pos bound); case_z; lia. }
  split; [|split; [|split]].
  - unfold nonnull, NULL. rewrite u64_id by lia. by rewrite (proj2 (Z.eqb_neq _ 0)) by lia.
  - unfold safe. destruct (decide (copy = 0)) as [->|]; [done|]. by rewrite (placed_safe addr bound) by (done || lia).
  - destruct (decide (pos < bound)).
    + destruct (Z.eqb_spec copy 0) as [E|].
      * assert (s = []) as -> by (destruct s; [done|]; simpl in *; lia). by rewrite app_nil_r.
      * rewrite Hc1 by done. by apply window_store.
    + rewrite Hc2 by lia. cbn. f_equal. symmetry. apply window_full. lia.
  - rewrite u64_id by lia. rewrite Nat2Z.inj_add. done.
Qed.

(** [f] appends [s]. *)
Definition emits (f : ctx → result ctx) (s : list Z) : Prop :=
  ∀ out x, holds out x → room (out ++ s) → ∃ x', f x = Ok x' ∧ holds (out ++ s) x'.

Lemma emits_write s : emits (λ x, ctx_write x s) s.
Proof.
  intros out x -> Hr. unfold ctx_write, avail. cbn [base buf cap pos].
  destruct (Z.eqb_spec (Z.of_nat (length s)) 0) as [E|].
  { assert (s = []) as -> by (destruct s; [done|]; simpl in *; lia). rewrite app_nil_r. by eexists. }
  destruct (out_store_ok out s "MEMORY" "MEMORY" "memcpy dest is null" "memcpy dest is out of range" Hr) as (->&->&->&->).
  cbn [mbind result_bind]. by eexists.
Qed.

Lemma emits_pad ch n : 0 <= ch < 256 → emits (λ x, ctx_pad x ch n) (replicate (Z.to_nat n) ch).
Proof.
  intros Hch out x -> Hr. unfold ctx_pad, avail. cbn [base buf cap pos]. destruct (Z.leb_spec n 0).
  { replace (Z.to_nat n) with 0%nat by lia. rewrite app_nil_r. by eexists. }
  destruct (out_store_ok out _ "MEMORY" "MEMORY" "memset s is null" "memset s is out of range" Hr) as (E1&E2&E3&E4).
  rewrite length_replicate, Z2Nat.id in E2, E3, E4 by lia. rewrite E1, E2, E4, u8_id by lia. cbn [mbind result_bind].
  rewrite take_replicate, Nat.min_l in E3.
  2: { rewrite Z.gtb_ltb. destruct (Z.ltb_spec (Z.of_nat (length out)) bound); case_z; lia. }
  rewrite E3. by eexists.
Qed.

Lemma emits_putc c : emits (λ x, ctx_putc x c) [c].
Proof.
  intros out x -> Hr. unfold ctx_putc. cbn [base buf cap pos].
  destruct (out_store_ok out [c] "" "" "" "" Hr) as (_&_&E3&E4). cbn [length] in E3, E4. change (Z.of_nat 1) with 1 in *.
  rewrite E4. case_z.
  - rewrite Z.gtb_ltb, (proj2 (Z.ltb_lt (Z.of_nat (length out)) bound)) in E3 by done.
    assert ((if 1 <? bound - Z.of_nat (length out) then 1 else bound - Z.of_nat (length out)) = 1) as Ec by (case_z; lia).
    rewrite Ec in E3. cbn [Z.eqb Z.to_nat take] in E3. change (take (Z.to_nat 1) [c]) with [c] in E3.
    rewrite E3. by eexists.
  - rewrite Z.gtb_ltb, (proj2 (Z.ltb_ge (Z.of_nat (length out)) bound)) in E3 by done. cbn in E3. injection E3 as ->. by eexists.
Qed.

Lemma emits_nil f : (∀ x, f x = Ok x) → emits f [].
Proof. intros H out x Hx _. rewrite H, app_nil_r. eauto. Qed.

Lemma emits_bind f g s t : emits f s → emits g t → emits (λ x, x ← f x; g x) (s ++ t).
Proof.
  intros Hf Hg out x Hx. rewrite app_assoc. intros Hr. destruct (Hf out x Hx) as (x1&->&Hx1); [by eapply room_app|].
  by apply Hg.
Qed.

Lemma emits_ext f g s : (∀ x, f x = g x) → emits g s → emits f s.
Proof. intros H Hg out x. rewrite H. apply Hg. Qed.

Lemma emits_blanks ch n : 0 <= ch < 256 → emits (λ x, ctx_pad x ch n) (blanks ch n).
Proof. apply emits_pad. Qed.

Lemma blanks_max ch width total : blanks ch (if width >? total then width - total else 0) = blanks ch (width - total).
Proof. unfold blanks. rewrite Z.gtb_ltb. case_z; [done|]. by replace (Z.to_nat (width - total)) with 0%nat by lia. Qed.

Lemma emits_uint val b width flags upper prefix :
  printf_base b → 0 <= val < 2 ^ 64 → (b = 10 ∨ b = 2 → upper = false) →
  emits (λ x, fmt_uint x val b width flags upper prefix) (spec_uint val b width (flag flags FLAG_LEFT) (flag flags FLAG_ZERO) upper prefix).
Proof.
  intros Hb Hv Hu. unfold fmt_uint. rewrite fmt_digits_ok by done. cbn [mbind result_bind]. unfold spec_uint.
  set (num := numeral upper b val). set (total := Z.of_nat (length num) + _).
  rewrite <- (blanks_max 32 width total), <- (blanks_max 48 width total).
  set (padding := if width >? total then _ else _).
  destruct (flag flags FLAG_LEFT); cbn [negb].
  - apply emits_bind; [apply emits_write|]. apply emits_bind; [apply emits_write|by apply emits_blanks].
  - eapply emits_ext with (g := λ x, x ← (if flag flags FLAG_ZERO then x ← ctx_write x prefix; ctx_pad x 48 padding
         else x ← ctx_pad x 32 padding; ctx_write x prefix); ctx_write x num).
    { intros x. destruct (if flag flags FLAG_ZERO then _ else _); cbn [mbind result_bind]; [|done..].
      by destruct (ctx_write a num). }
    destruct (flag flags FLAG_ZERO).
    + rewrite app_assoc. apply emits_bind; [|apply emits_write].
      apply emits_bind; [apply emits_write|by apply emits_blanks].
    + rewrite app_assoc. apply emits_bind; [|apply emits_write].
      apply emits_bind; [by apply emits_blanks|apply emits_write].
Qed.

Lemma emits_signed val d r : stands_for d r → - 2 ^ 63 <= val < 2 ^ 63 →
  emits (λ x, fmt_signed x val (d_width d) (d_flags d)) (spec_signed val r).
Proof.
  intros [(El&Ez&Es&Esp&_) [Ew _]] Hv. unfold fmt_signed, spec_signed. rewrite <- El, <- Ez, <- Es, <- Esp, <- Ew. destruct (Z.ltb_spec val 0).
  - rewrite u64_id by lia. replace (- (val + 1) + 1) with (Z.abs val) by lia.
    apply emits_uint; [right; right; by left|lia|done].
  - rewrite u64_id, (Z.abs_eq val) by lia. apply emits_uint; [right; right; by left|lia|done].
Qed.

Lemma emits_string s d r :
  stands_for d r → Z.of_nat (length (default (bytes_of "(null)") s)) < 2 ^ 31 →
  emits (λ x, fmt_string x s (d_width d) (d_flags d)) (spec_string s r).
Proof.
  intros [(El&_) (Ew&Hw&_)] Hl. unfold fmt_string, spec_string. rewrite <- El, <- Ew in *. set (width := d_width d) in *. set (flags := d_flags d). set (t := default _ s) in *.
  assert (i32 (Z.of_nat (length t)) = Z.of_nat (length t)) as ->.
  { unfold i32, sint. change (2 ^ (32 - 1)) with (2 ^ 31). rewrite Z.mod_small by lia. case_z; lia. }
  rewrite <- (blanks_max 32 width).
  set (padding := if width >? Z.of_nat (length t) then width - Z.of_nat (length t) else 0).
  assert ((if width >? Z.of_nat (length t) then int_ok (width - Z.of_nat (length t)) else mret 0) = Ok padding) as ->.
  { unfold padding, int_ok. rewrite Z.gtb_ltb. destruct (Z.ltb_spec (Z.of_nat (length t)) width); [|done].
    rewrite (proj2 (Z.leb_le _ _)), (proj2 (Z.ltb_lt _ _)) by lia. done. }
  cbn [mbind result_bind]. destruct (flag flags FLAG_LEFT); cbn [negb].
  - eapply emits_ext; [intros x; done|]. cbn. apply emits_bind; [apply emits_write|by apply emits_blanks].
  - apply emits_bind; [by apply emits_blanks|]. eapply emits_ext; [|apply emits_write].
    intros x. by destruct (ctx_write x t).
Qed.

Lemma emits_u8_dec v : 0 <= v < 256 → emits (λ x, fmt_u8_dec x v) (numeral false 10 v).
Proof.
  intros Hv. unfold fmt_u8_dec. rewrite !Z.geb_leb. destruct (Z.leb_spec 100 v).
  - destruct (map100_ok (v mod 100)) as [-> ->]; [apply Z.mod_pos_bound; lia|]. cbn [of_option mbind result_bind].
    assert (numeral false 10 v = [48 + v / 100; digit_char false (v mod 100 / 10); digit_char false ((v mod 100) mod 10)]) as ->.
    { assert (Forall (λ v, numeral false 10 v = [48 + v / 100; digit_char false (v mod 100 / 10); digit_char false ((v mod 100) mod 10)]) (seqZ 100 156)) as Hall
        by (refine (bool_decide_eq_true_1 _ _); vm_compute; reflexivity).
      rewrite Forall_forall in Hall. apply Hall, elem_of_seqZ. lia. }
    apply emits_write.
  - destruct (Z.leb_spec 10 v).
    + destruct (map100_ok v) as [-> ->]; [lia|]. cbn [of_option mbind result_bind].
      assert (numeral false 10 v = [digit_char false (v / 10); digit_char false (v mod 10)]) as ->.
      { assert (Forall (λ v, numeral false 10 v = [digit_char false (v / 10); digit_char false (v mod 10)]) (seqZ 10 90)) as Hall
          by (refine (bool_decide_eq_true_1 _ _); vm_compute; reflexivity).
        rewrite Forall_forall in Hall. apply Hall, elem_of_seqZ. lia. }
      apply emits_write.
    + assert (numeral false 10 v = [48 + v]) as ->.
      { unfold numeral. cbn [digits_of]. rewrite (proj2 (Z.ltb_lt v 10)) by lia. simpl. by rewrite low_digit by lia. }
      apply emits_putc.
Qed.

Lemma emits_u8_hex2 v : 0 <= v < 256 → emits (λ x, fmt_u8_hex2 x v) (spec_hex2 v).
Proof.
  intros Hv. unfold fmt_u8_hex2. rewrite Z.shiftr_div_pow2 by lia. change 0xF with (Z.ones 4). rewrite Z.land_ones by lia.
  change (2 ^ 4) with 16. rewrite (digit_lookup true (v / 16)), (digit_lookup true (v mod 16)).
  - apply emits_write.
  - apply Z.mod_pos_bound. lia.
  - split; [apply Z.div_pos; lia|apply Z.div_lt_upper_bound; lia].
Qed.

Lemma emits_seq f g sep vs : (∀ v, v ∈ vs → emits (λ x, f x v) (g v)) →
  emits (λ x, fmt_seq f sep x vs) (spec_seq g sep vs).
Proof.
  induction vs as [|v vs IH]; intros Hf; [by apply emits_nil|].
  destruct vs as [|w vs]; [apply Hf, list_elem_of_here|]. cbn [fmt_seq spec_seq].
  apply emits_bind; [apply Hf, list_elem_of_here|]. change (sep :: ?l) with ([sep] ++ l).
  apply emits_bind; [apply emits_putc|]. apply IH. intros ??. apply Hf. by apply list_elem_of_further.
Qed.

(** A conversion that takes one argument. *)
Lemma one_arg (f : va_slot → ctx → result ctx) (g : va_slot → result (list Z)) args s args' out x :
  ('(a, args) ← va_arg args; s ← g a; mret (s, args)) = Ok (s, args') → Forall arg_ok args →
  (∀ a t, arg_ok a → g a = Ok t → emits (f a) t) →
  holds out x → room (out ++ s) →
  ∃ x', ('(a, args) ← va_arg args; x ← f a x; mret (x, args)) = Ok (x', args') ∧ holds (out ++ s) x' ∧ Forall arg_ok args'.
Proof.
  intros E Ha Hf Hx Hr. destruct args as [|a args]; [done|]. apply Forall_cons in Ha as [Ha Hargs].
  cbn [va_arg mbind result_bind] in *. apply bind_ok in E as (t&Eg&[= -> ->]).
  destruct (Hf a s Ha Eg out x Hx Hr) as (x'&->&Hx'). cbn [mbind result_bind]. by exists x'.
Qed.

(** Evaluate the character tests of a known conversion. *)
Ltac decide_known H :=
  repeat match type of H with
  | context [char_in ?t ?n] =>
      let b := eval vm_compute in (char_in t n) in change (char_in t n) with b in H
  end; cbv iota in H.

Lemma spec_bytes_eq n a : spec_bytes n a = first_bytes n a.
Proof.
  unfold spec_bytes, first_bytes, NULL. destruct (Z.eqb_spec (slot a) 0); cbn [orb]; [by rewrite bool_decide_false by tauto|].
  destruct (Nat.ltb_spec (length (pointee a)) n); [by rewrite bool_decide_false by lia|by rewrite bool_decide_true by lia].
Qed.

Lemma first_bytes_ok n a vs : first_bytes n a = Ok vs → arg_ok a → Forall (λ v, 0 <= v < 256) vs.
Proof.
  unfold first_bytes. destruct (_ || _); [done|]. intros [= <-] (_&Hb&_). by apply Forall_take.
Qed.

(** The unsigned conversions. *)
Lemma emits_unsigned c val d r : stands_for d r → 0 <= val < 2 ^ 64 →
  emits (λ x, let '(b, upper, prefix) := unsigned_style c (d_flags d) val in
    fmt_uint x val b (d_width d) (d_flags d) upper prefix) (spec_unsigned c val r).
Proof.
  intros [(El&Ez&_&_&Ea) [Ew _]] Hv. unfold spec_unsigned, spec_style, unsigned_style. rewrite <- El, <- Ez, <- Ea, <- Ew.
  rewrite (char_in_one "x" 120), (char_in_one "X" 88), (char_in_one "o" 111), (char_in_one "b" 98) by done.
  destruct (c =? 120); [|destruct (c =? 88); [|destruct (c =? 111); [|destruct (c =? 98)]]];
    rewrite ?andb_true_r; cbn [orb]; destruct (flag (d_flags d) FLAG_ALT); cbn [andb];
    try destruct (negb (val =? 0)); (apply emits_uint; [unfold printf_base; lia|done|lia || done]).
Qed.

(** Every conversion emits its text. *)
Lemma convert_ok c d r args s args' out x :
  spec_convert c r args = Ok (s, args') → stands_for d r → Forall arg_ok args →
  holds out x → room (out ++ s) →
  ∃ x', convert x c d args = Ok (x', args') ∧ holds (out ++ s) x' ∧ Forall arg_ok args'.
Proof.
  intros E Hd Ha Hx Hr. unfold spec_convert in E. rewrite (char_in_one "%" 37) in E by done.
  destruct (Z.eqb_spec c 37) as [->|H37].
  { injection E as <- <-. destruct (emits_putc 37 out x Hx Hr) as (x'&E&Hx'). unfold convert. cbn [Z.eqb Pos.eqb orb].
    rewrite E. cbn [mbind result_bind]. by exists x'. }
  pose proof Hd as (_&Ew&Hw&Eb). unfold spec_value in E. rewrite Eb, <- Ew in E.
  destruct (decide (c ∈ bytes_of "diuxXobpscIM")) as [Hc|Hc].
  - change (bytes_of "diuxXobpscIM") with [100; 105; 117; 120; 88; 111; 98; 112; 115; 99; 73; 77] in Hc.
    rewrite !elem_of_cons, elem_of_nil in Hc. destruct_or! Hc; try done; subst c;
      decide_known E; unfold convert; cbn [Z.eqb Pos.eqb orb].
    (* d i *)
    1,2: eapply (one_arg (λ a x, fmt_signed x (signed_arg (d_length d) a) (d_width d) (d_flags d)) _ _ _ _ _ _ E); try done;
      intros a t _ [= <-]; rewrite <- signed_arg_eq; apply emits_signed; [done|apply signed_arg_range].
    (* u x X o b *)
    1-5: match type of E with context [spec_unsigned ?k] =>
        eapply (one_arg (λ a x, let '(b, upper, prefix) := unsigned_style k (d_flags d) (unsigned_arg (d_length d) a) in
          fmt_uint x (unsigned_arg (d_length d) a) b (d_width d) (d_flags d) upper prefix) _ _ _ _ _ _ E) end; try done;
      intros a t _ [= <-]; rewrite <- unsigned_arg_eq; apply emits_unsigned; [done|apply unsigned_arg_range].
    (* p *)
    + eapply (one_arg (λ a x, fmt_uint x (u64 (slot a)) 16 _ FLAG_ZERO false (bytes_of "0x")) _ _ _ _ _ _ E); try done.
      intros a t _ [= <-]. rewrite <- Z.gtb_ltb.
      apply (emits_uint (u64 (slot a)) 16 _ FLAG_ZERO false (bytes_of "0x")); [unfold printf_base; lia|apply u64_range|lia].
    (* s *)
    + eapply (one_arg (λ a x, fmt_string x (if slot a =? NULL then None else Some (pointee a)) _ _) _ _ _ _ _ _ E); try done.
      intros a t (_&_&Hl) [= <-]. apply emits_string; [done|]. by destruct (slot a =? 0).
    (* c *)
    + eapply (one_arg (λ a x, ctx_putc x (u8 (va_int a))) _ _ _ _ _ _ E); try done.
      intros a t _ [= <-]. unfold va_int. rewrite i32_mod8. apply emits_putc.
    (* I *)
    + assert (('(a, args) ← va_arg args; ip ← first_bytes 4 a; x ← fmt_seq fmt_u8_dec 46 x ip; mret (x, args)) =
        ('(a, args) ← va_arg args; x ← (ip ← first_bytes 4 a; fmt_seq fmt_u8_dec 46 x ip); mret (x, args))) as ->.
      { destruct args as [|a args1]; [done|]. cbn [va_arg mbind result_bind]. by destruct (first_bytes 4 a). }
      eapply (one_arg (λ a x, ip ← first_bytes 4 a; fmt_seq fmt_u8_dec 46 x ip) _ _ _ _ _ _ E); try done.
      intros a t Ha1 (vs&Ev&[= <-])%bind_ok. rewrite spec_bytes_eq in Ev. rewrite Ev. cbn [mbind result_bind].
      pose proof (first_bytes_ok _ _ _ Ev Ha1) as Hb. apply emits_seq. intros v Hv. apply emits_u8_dec.
      rewrite Forall_forall in Hb. by apply Hb.
    (* M *)
    + eapply one_arg with (f := λ a x, if slot a =? NULL then fmt_string x (Some (bytes_of "(null)")) (d_width d) (d_flags d)
        else mac ← first_bytes 6 a; fmt_seq fmt_u8_hex2 58 x mac) in E as (x'&Ex&?&?); try done.
      * exists x'. split; [|done]. destruct args as [|a args1]; [done|]. cbn [va_arg mbind result_bind] in Ex |- *.
        destruct (slot a =? NULL); [done|]. by destruct (first_bytes 6 a).
      * intros a t Ha1 Et. unfold NULL. destruct (slot a =? 0).
        { injection Et as <-. by apply (emits_string (Some (bytes_of "(null)"))). }
        apply bind_ok in Et as (vs&Ev&[= <-]). rewrite spec_bytes_eq in Ev. rewrite Ev. cbn [mbind result_bind].
        pose proof (first_bytes_ok _ _ _ Ev Ha1) as Hb. apply emits_seq. intros v Hv. apply emits_u8_hex2.
        rewrite Forall_forall in Hb. by apply Hb.
  - unfold char_in in E. rewrite bool_decide_false in E by done. injection E as <- <-.
    assert (convert x c d args = (x ← ctx_putc x 37; x ← ctx_putc x c; mret (x, args))) as ->.
    { cbn in Hc. rewrite !not_elem_of_cons in Hc. unfold convert.
      repeat match goal with |- context [c =? ?n] => rewrite (proj2 (Z.eqb_neq c n)) by (clear -Hc H37; naive_solver) end. done. }
    destruct (emits_bind _ _ _ _ (emits_putc 37) (emits_putc c) out x Hx Hr) as (x'&E&Hx').
    exists x'. split; [|done]. destruct (ctx_putc x 37) as [x1| | |]; cbn [mbind result_bind] in *; try done. by rewrite E.
Qed.

Lemma loop_ok fuel p args s out x :
  spec_loop fuel p args = Ok s → Forall arg_ok args → holds out x → room (out ++ s) →
  ∃ x', vsnprintf_loop fuel p x args = Ok x' ∧ holds (out ++ s) x'.
Proof.
  revert p args s out x. induction fuel as [|fuel IH]; intros p args s out x E Ha Hx Hr; [done|].
  cbn [spec_loop vsnprintf_loop] in *. destruct (peek p =? 0).
  { injection E as <-. rewrite app_nil_r. by exists x. }
  rewrite span_literal_eq. destruct (span _ p) as [lit p1].
  assert (∀ t, room (out ++ lit ++ t) → ∃ x1, ctx_write x lit = Ok x1 ∧ holds (out ++ lit) x1) as Hlit.
  { intros t. rewrite app_assoc. intros ?. apply emits_write; [done|]. by eapply room_app. }
  destruct (peek p1 =? 0).
  { injection E as <-. destruct (Hlit []) as (x1&->&Hx1); [by rewrite app_nil_r|]. by exists x1. }
  apply bind_ok in E as (p2&Ep2&E). destruct (peek p2 =? 0) eqn:Ez.
  { injection E as <-. destruct (Hlit []) as (x1&->&Hx1); [by rewrite app_nil_r|]. cbn [mbind result_bind].
    rewrite Ep2. cbn [mbind result_bind]. rewrite Ez. by exists x1. }
  apply bind_ok in E as ([[r p3] args3]&Er0&E). destruct (parse_directive_eq _ _ _ _ _ Er0) as (d&Ed&Hd). apply bind_ok in E as ([t args4]&Ec&E).
  apply bind_ok in E as (p4&Ep4&E). apply bind_ok in E as (rest&Er&[= <-]).
  destruct (parse_directive_ok _ _ _ _ _ Ed) as (_&Hargs&_).
  destruct (Hlit _ Hr) as (x1&->&Hx1). cbn [mbind result_bind]. rewrite Ep2. cbn [mbind result_bind]. rewrite Ez, Ed.
  cbn [mbind result_bind]. rewrite (app_assoc out), (app_assoc (out ++ lit)) in Hr |- *.
  destruct (convert_ok _ _ _ _ _ _ (out ++ lit) x1 Ec Hd (Hargs Ha) Hx1) as (x2&->&Hx2&Ha4); [by eapply room_app|].
  cbn [mbind result_bind]. rewrite Ep4. cbn [mbind result_bind]. by apply (IH _ _ _ _ _ Er).
Qed.

End Output.

(** The buffer [vsnprintf] leaves: the text cut to [bufsz - 1] bytes and a
    NUL, the rest as it was. *)
Definition printed (bufsz : Z) (out b : list Z) : list Z :=
  if bufsz >? 0 then
    let t := take (Z.to_nat (bufsz - 1)) out in t ++ 0 :: drop (S (length t)) b
  else b.

Lemma vsnprintf_ok addr b bufsz fmt args out :
  0 <= bufsz <= Z.of_nat (length b) → placed addr bufsz →
  Forall arg_ok args → spec_format fmt args = Ok out → room addr out →
  vsnprintf addr b bufsz fmt args = Ok (i32 (Z.of_nat (length out)), printed bufsz out b).
Proof.
  intros Hb Hp Ha E Hr. unfold vsnprintf, printed. set (c := if bufsz >? 0 then bufsz - 1 else 0).
  assert (0 <= c <= Z.of_nat (length b) ∧ placed addr c) as [Hc Hpc].
  { unfold c, placed in *. rewrite Z.gtb_ltb. unfold room in Hr. case_z; split; lia. }
  destruct (loop_ok addr c b Hc Hpc _ _ _ _ [] (mkCtx addr b c 0) E Ha) as (x&->&->); [|done|].
  { unfold holds, window. cbn [length]. by rewrite take_nil, Nat.min_0_r, drop_0. }
  cbn [mbind result_bind buf pos cap app]. unfold c. rewrite Z.gtb_ltb. destruct (Z.ltb_spec 0 bufsz).
  - set (k := bufsz - 1). set (t := take (Z.to_nat k) out).
    assert ((if Z.of_nat (length out) <? k then Z.of_nat (length out) else k) = Z.of_nat (length t)) as ->.
    { unfold t. rewrite length_take. case_z; lia. }
    unfold store_bytes. rewrite window_length by (unfold c in Hc; rewrite Z.gtb_ltb, (proj2 (Z.ltb_lt 0 bufsz)) in Hc by lia; unfold k; lia).
    rewrite (proj2 (Z.leb_le 0 _)), (proj2 (Z.leb_le (_ + _) _)).
    + cbn [andb mbind result_bind]. do 2 f_equal. rewrite Nat2Z.id. unfold window. fold t.
      rewrite take_app_length. f_equal. cbn [length app]. f_equal.
      rewrite drop_app_ge, drop_drop by lia. f_equal. unfold t. rewrite length_take. lia.
    + unfold t. rewrite length_take. cbn [length]. lia.
    + lia.
  - cbn [mbind result_bind]. done.
Qed.

(** * Termination *)

Definition ends {A} (m : result A) : Prop := m ≠ Fuel.

Lemma ends_bind {A B} (m : result A) (f : A → result B) :
  ends m → (∀ a, m = Ok a → ends (f a)) → ends (m ≫= f).
Proof. unfold ends. intros Hm Hf. destruct m; cbn [mbind result_bind]; try done. by apply Hf. Qed.

Lemma ends_ok {A} (a : A) : ends (Ok a). Proof. done. Qed.
Lemma ends_ret {A} (a : A) : ends (mret a). Proof. done. Qed.
Lemma ends_option {A} (o : option A) : ends (of_option o). Proof. by destruct o. Qed.
Lemma ends_store b p s : ends (store_bytes b p s). Proof. unfold store_bytes. by case_match. Qed.
Lemma ends_int z : ends (int_ok z). Proof. unfold int_ok. by case_match. Qed.
Lemma ends_nonnull t m p : ends (nonnull t m p). Proof. unfold nonnull. by case_match. Qed.
Lemma ends_safe t m p n : ends (safe t m p n). Proof. unfold safe. by case_match. Qed.
Lemma ends_next p : ends (next p). Proof. by destruct p. Qed.
Lemma ends_arg args : ends (va_arg args). Proof. by destruct args. Qed.
Lemma ends_first n a : ends (first_bytes n a). Proof. unfold first_bytes. by case_match. Qed.

Create HintDb ends discriminated.
#[export] Hint Resolve ends_ok ends_ret ends_option ends_store ends_int ends_nonnull ends_safe ends_next ends_arg ends_first : ends.

(** Follow the binds, tests and matches of a definition. *)
Ltac ends_step :=
  match goal with
  | |- ends (_ ≫= _) => apply ends_bind; [|intros ? ?]
  | |- ends (let '_ := ?x in _) => destruct x
  | |- ends (match ?x with _ => _ end) => destruct x
  | |- ends Fault => done
  | |- ends (Panic _ _) => done
  | |- ends (Ok _) => done
  | |- ends _ => solve [auto with ends]
  end.

Lemma ends_write x s : ends (ctx_write x s). Proof. unfold ctx_write. repeat ends_step. Qed.
Lemma ends_pad x c n : ends (ctx_pad x c n). Proof. unfold ctx_pad. repeat ends_step. Qed.
Lemma ends_putc x c : ends (ctx_putc x c). Proof. unfold ctx_putc. repeat ends_step. Qed.

Lemma ends_digits val b upper : ends (fmt_digits val b upper).
Proof.
  assert (∀ i d b v acc, ends (digits_loop i d b v acc)) as H.
  { intros i d c. induction i as [|i IH]; intros v acc; cbn [digits_loop]; repeat (ends_step || apply IH). }
  assert (∀ i d v acc, ends (digits_loop16 i d v acc)) as H16.
  { intros i d. induction i as [|i IH]; intros v acc; cbn [digits_loop16]; repeat (ends_step || apply IH). }
  assert (∀ i v acc, ends (digits_loop2 i v acc)) as H2.
  { intros i. induction i as [|i IH]; intros v acc; cbn [digits_loop2]; [by case_match|]. case_match; [done|apply IH]. }
  assert (∀ i v acc, ends (digits_loop10 i v acc)) as H10.
  { intros i. induction (lt_wf i) as [i _ IH]. intros v acc. destruct i as [|[|i]]; cbn [digits_loop10];
      unfold digits_last; repeat (ends_step || (apply IH; lia)). }
  unfold fmt_digits. repeat case_match; auto with ends.
Qed.

#[export] Hint Resolve ends_write ends_pad ends_putc ends_digits : ends.

Lemma ends_uint x v b w f u p : ends (fmt_uint x v b w f u p).
Proof. unfold fmt_uint. repeat ends_step. Qed.
Lemma ends_signed x v w f : ends (fmt_signed x v w f).
Proof. unfold fmt_signed. case_match; apply ends_uint. Qed.
Lemma ends_string x s w f : ends (fmt_string x s w f).
Proof. unfold fmt_string. repeat ends_step. Qed.
Lemma ends_u8_dec x v : ends (fmt_u8_dec x v).
Proof. unfold fmt_u8_dec. repeat ends_step. Qed.
Lemma ends_u8_hex2 x v : ends (fmt_u8_hex2 x v).
Proof. unfold fmt_u8_hex2. repeat ends_step. Qed.

Lemma ends_seq f sep x vs : (∀ x v, ends (f x v)) → ends (fmt_seq f sep x vs).
Proof.
  intros Hf. revert x. induction vs as [|v [|w vs] IH]; intros x; [done|apply Hf|].
  cbn [fmt_seq]. apply ends_bind; [apply Hf|]. intros ??. apply ends_bind; [apply ends_putc|]. intros ??. apply IH.
Qed.

#[export] Hint Resolve ends_uint ends_signed ends_string ends_u8_dec ends_u8_hex2 ends_seq : ends.

Lemma ends_convert x c d args : ends (convert x c d args).
Proof. unfold convert. repeat ends_step. Qed.

Lemma ends_number p w : ends (parse_number p w).
Proof. revert w. induction p as [|c p IH]; intros w; cbn [parse_number]; repeat (ends_step || apply IH). Qed.

Lemma ends_directive p args : ends (parse_directive p args).
Proof.
  unfold parse_directive, parse_width, parse_precision. pose proof ends_number.
  repeat (ends_step || apply ends_number).
Qed.

Lemma next_length p p' : next p = Ok p' → length p = S (length p').
Proof. destruct p; [done|]. by intros [= <-]. Qed.

Lemma loop_ends fuel p x args : (length p < fuel)%nat → ends (vsnprintf_loop fuel p x args).
Proof.
  revert p x args. induction fuel as [|fuel IH]; intros p x args Hf; [lia|]. cbn [vsnprintf_loop].
  case_match; [done|]. pose proof (span_length p) as Hs. destruct (span_literal p) as [lit p1]. cbn [snd] in Hs.
  apply ends_bind; [apply ends_write|]. intros x1 _. case_match; [done|].
  apply ends_bind; [apply ends_next|]. intros p2 Hp2%next_length. case_match; [done|].
  apply ends_bind; [apply ends_directive|]. intros [[d p3] args3] (_&_&Hp3)%parse_directive_ok.
  apply ends_bind; [apply ends_convert|]. intros [x2 args4] _.
  apply ends_bind; [apply ends_next|]. intros p4 Hp4%next_length. apply IH. lia.
Qed.

(** * Reading numbers back *)

(** What the reading loops see of a digit. *)
Lemma digit_char_ok (upper : bool) d : 0 <= d < 16 →
  is_hex (digit_char upper d) = true ∧ hex_value (digit_char upper d) = d ∧
  (d < 10 → is_digit (digit_char upper d) = true ∧ digit_char upper d = 48 + d).
Proof.
  intros Hd. assert (Forall (λ d, is_hex (digit_char upper d) = true ∧ hex_value (digit_char upper d) = d ∧
    (d < 10 → is_digit (digit_char upper d) = true ∧ digit_char upper d = 48 + d)) (seqZ 0 16)) as Hall.
  { refine (bool_decide_eq_true_1 _ _). destruct upper; vm_compute; reflexivity. }
  rewrite Forall_forall in Hall. apply Hall, elem_of_seqZ. lia.
Qed.

Lemma hex_loop_ok (upper : bool) ds a : 0 <= a → Forall (λ d, 0 <= d < 16) ds →
  fold_left (λ a d, a * 16 + d) ds a < 2 ^ 64 →
  hex_loop (map (digit_char upper) ds) a = fold_left (λ a d, a * 16 + d) ds a.
Proof.
  revert a. induction ds as [|d ds IH]; intros a Ha Hd Hlt; cbn [map hex_loop fold_left] in *; [done|].
  apply Forall_cons in Hd as [? Hd]. destruct (digit_char_ok upper d) as (->&->&_); [done|].
  pose proof (fold_ge 16 ds (a * 16 + d) ltac:(lia) ltac:(lia)) as Hge.
  rewrite (u64_id (a * 16)), u64_id.
  - apply IH; [lia|done|done].
  - split; [lia|]. eapply Z.le_lt_trans; [apply Hge|done]. eapply Forall_impl; [exact Hd|]. simpl. lia.
  - split; [lia|]. eapply Z.le_lt_trans; [|apply Hlt]. etrans; [|apply Hge]; [lia|]. eapply Forall_impl; [exact Hd|]. simpl. lia.
Qed.

Lemma dec_loop_ok ds a : 0 <= a → Forall (λ d, 0 <= d < 10) ds →
  fold_left (λ a d, a * 10 + d) ds a < 2 ^ 64 →
  dec_loop (map (digit_char false) ds) a = fold_left (λ a d, a * 10 + d) ds a.
Proof.
  revert a. induction ds as [|d ds IH]; intros a Ha Hd Hlt; cbn [map dec_loop fold_left] in *; [done|].
  apply Forall_cons in Hd as [? Hd]. destruct (digit_char_ok false d) as (_&_&Hdig); [lia|].
  destruct Hdig as [-> ->]; [lia|]. replace (48 + d - 48) with d by lia.
  pose proof (fold_ge 10 ds (a * 10 + d) ltac:(lia) ltac:(lia)) as Hge.
  rewrite (u64_id (a * 10)), u64_id.
  - apply IH; [lia|done|done].
  - split; [lia|]. eapply Z.le_lt_trans; [apply Hge|done]. eapply Forall_impl; [exact Hd|]. simpl. lia.
  - split; [lia|]. eapply Z.le_lt_trans; [|apply Hlt]. etrans; [|apply Hge]; [lia|]. eapply Forall_impl; [exact Hd|]. simpl. lia.
Qed.

Lemma strtoull_dec v : 0 <= v < 2 ^ 64 → strtoull (numeral false 10 v) = v.
Proof.
  intros Hv. destruct (digits_of_ok 64 10 v) as (Hval&Hf&_); [lia|done|]. unfold numeral, strtoull.
  assert (∀ p, Forall (λ d, 0 <= d < 10) p → (peek (map (digit_char false) p) =? 120) || (peek (map (digit_char false) p) =? 88) = false) as Hnx.
  { intros [|d p] Hp; [done|]. apply Forall_cons in Hp as [? _]. cbn. destruct (digit_char_ok false d) as (_&_&Hdig); [lia|].
    destruct Hdig as [_ ->]; [lia|]. by rewrite !(proj2 (Z.eqb_neq _ _)) by lia. }
  assert (tail (map (digit_char false) (digits_of 65 10 v)) = map (digit_char false) (tail (digits_of 65 10 v))) as ->.
  { by destruct (digits_of 65 10 v). }
  rewrite Hnx, andb_false_r by (destruct Hf; [constructor|done]).
  rewrite dec_loop_ok; [exact Hval|lia|done|]. unfold of_digits in Hval. lia.
Qed.

Lemma strtoull_hex upper x v : 0 <= v < 2 ^ 64 → x = 120 ∨ x = 88 → strtoull (48 :: x :: numeral upper 16 v) = v.
Proof.
  intros Hv Hx. destruct (digits_of_ok 64 16 v) as (Hval&Hf&_); [lia|done|].
  change (strtoull (48 :: x :: ?n)) with (if (x =? 120) || (x =? 88) then hex_loop n 0 else dec_loop (48 :: x :: n) 0).
  assert ((x =? 120) || (x =? 88) = true) as -> by (destruct Hx as [->| ->]; done).
  unfold numeral. rewrite hex_loop_ok; [exact Hval|lia|done|]. unfold of_digits in Hval. lia.
Qed.

Lemma numeral_length upper b v : (length (numeral upper b v) <= 65)%nat.
Proof.
  unfold numeral. rewrite length_map. assert (∀ k w, (length (digits_of k b w) <= k)%nat) as H; [|apply H].
  intros k. induction k as [|k IH]; intros w; cbn [digits_of]; [simpl; lia|]. case_z; [simpl; lia|].
  rewrite length_app. pose proof (IH (w / b)). simpl. lia.
Qed.

(** The text of the formats of the round trip. *)
Lemma spec_llu v : spec_format (bytes_of "%llu") [mkArg v []] = Ok (spec_uint (u64 v) 10 0 false false false [] ++ []).
Proof. reflexivity. Qed.
Lemma spec_llx v : spec_format (bytes_of "%#llx") [mkArg v []] = Ok (spec_uint (u64 v) 16 0 false false false [48; 120] ++ []).
Proof. reflexivity. Qed.
Lemma spec_llX v : spec_format (bytes_of "%#llX") [mkArg v []] = Ok (spec_uint (u64 v) 16 0 false false true [48; 88] ++ []).
Proof. reflexivity. Qed.

Lemma spec_uint_plain v b upper prefix : spec_uint v b 0 false false upper prefix = prefix ++ numeral upper b v.
Proof. unfold spec_uint, blanks. by replace (Z.to_nat _) with 0%nat by lia. Qed.

(** The buffer holds the whole text, which [strtoull] reads. *)
Lemma roundtrip_ok addr b v fmt out :
  0 <= v < 2 ^ 64 → 70 <= Z.of_nat (length b) < 2 ^ 31 → placed addr (Z.of_nat (length b)) →
  spec_format fmt [mkArg v []] = Ok out → (length out <= 67)%nat → strtoull out = v →
  ∃ out, snprintf addr b (Z.of_nat (length b)) fmt [mkArg v []] =
    Ok (Z.of_nat (length out), out ++ 0 :: drop (S (length out)) b) ∧ strtoull out = v.
Proof.
  intros Hv Hb Hp E Hl Hs. exists out. split; [|done]. unfold snprintf.
  rewrite (vsnprintf_ok _ _ _ _ _ out) by (done || lia || (unfold room, placed in *; lia) ||
    (repeat constructor; unfold arg_ok; simpl; lia)).
  f_equal. f_equal.
  - unfold i32, sint. change (2 ^ (32 - 1)) with (2 ^ 31). rewrite Z.mod_small by lia. case_z; lia.
  - unfold printed. rewrite Z.gtb_ltb, (proj2 (Z.ltb_lt _ _)) by lia. by rewrite take_ge by lia.
Qed.

(** * Line editing *)

Definition edit_step (l : list Z) (c : Z) : list Z :=
  let c := sint 8 c in
  if (c =? 8) || (c =? 127) then take (length l - 1) l
  else if (c >=? 32) && (c <=? 126) then l ++ [c] else l.

Definition edit (keys : list Z) : list Z := foldl edit_step [] keys.
Definition is_newline (c : Z) : bool := (sint 8 c =? 10) || (sint 8 c =? 13).

(** A terminal line: a backspace moves the cursor left, any other character
    is written at the cursor. *)
Definition screen_step (s : list Z * nat) (c : Z) : list Z * nat :=
  if c =? 8 then (s.1, (s.2 - 1)%nat) else (take s.2 s.1 ++ c :: drop (S s.2) s.1, S s.2).
Definition screen (cs : list Z) : list Z * nat := foldl screen_step ([], O) cs.
(** What is left of the cursor. *)
Definition shown (cs : list Z) : list Z := let '(t, k) := screen cs in take k t.

Definition echo_ok (echo : bool) (out line : list Z) : Prop :=
  if echo then ∃ t, screen out = (t, length line) ∧ take (length line) t = line else out = [].

(** The state of the loop after [keys]. *)
Definition line_inv (echo : bool) (limit : Z) (b0 keys buf out : list Z) (index : Z) : Prop :=
  index = Z.of_nat (length (edit keys)) ∧ index <= limit - 1 ∧ length buf = length b0 ∧
  take (length (edit keys)) buf = edit keys ∧ (∀ k, limit - 1 <= Z.of_nat k → buf !! k = b0 !! k) ∧
  echo_ok echo out (edit keys).

Lemma echo_erase echo out line : echo_ok echo out line → line ≠ [] →
  echo_ok echo (echo_chars echo [8; 32; 8] out) (take (length line - 1) line).
Proof.
  destruct echo; [|done]. intros (t&E&Ht) Hne. assert (0 < length line)%nat by (destruct line; simpl; [done|lia]).
  unfold echo_ok, echo_chars, screen in *. rewrite foldl_app, E. cbn [foldl screen_step fst snd Z.eqb Pos.eqb].
  rewrite length_take, Nat.min_l by lia. unfold screen_step. cbn [fst snd Z.eqb Pos.eqb].
  eexists. split; [f_equal; lia|]. rewrite take_app_le.
  - transitivity (take (length line - 1) (take (length line) t)); [rewrite !take_take; f_equal; lia|by rewrite Ht].
  - rewrite length_take. assert (length (take (length line) t) = length line) as Hlt by (by rewrite Ht).
    rewrite length_take in Hlt. lia.
Qed.

Lemma echo_type echo out line c : c ≠ 8 → echo_ok echo out line → echo_ok echo (echo_chars echo [c] out) (line ++ [c]).
Proof.
  destruct echo; [|done]. intros Hc (t&E&Ht). unfold echo_ok, echo_chars, screen in *. rewrite foldl_app, E.
  cbn [foldl]. unfold screen_step at 1. rewrite (proj2 (Z.eqb_neq c 8)) by done. cbn [fst snd].
  rewrite length_app, Nat.add_1_r. eexists. split; [done|]. rewrite Ht.
  change (c :: ?l) with ([c] ++ l). rewrite app_assoc, take_app_le by (rewrite length_app; simpl; lia).
  by rewrite take_ge by (rewrite length_app; simpl; lia).
Qed.

Lemma line_inv_bs echo limit b0 keys buf out index c :
  line_inv echo limit b0 keys buf out index → (sint 8 c =? 8) || (sint 8 c =? 127) = true →
  if index >? 0 then line_inv echo limit b0 (keys ++ [c]) buf (echo_chars echo [8; 32; 8] out) (index - 1)
  else line_inv echo limit b0 (keys ++ [c]) buf out index.
Proof.
  intros (->&Hi&Hl&Ht&Hk&He) Hc. unfold line_inv, edit in *. rewrite foldl_app. cbn [foldl].
  unfold edit_step. rewrite Hc. fold edit_step. set (line := foldl edit_step [] keys) in *. rewrite Z.gtb_ltb. case_z.
  - rewrite length_take, Nat.min_l by lia. split; [lia|]. split; [lia|]. split; [done|].
    split; [|split; [done|]]; [|apply echo_erase; [done|intros E; rewrite E in *; simpl in *; lia]].
    transitivity (take (length line - 1) (take (length line) buf)); [rewrite take_take; f_equal; lia|by rewrite Ht].
  - assert (line = []) as -> by (destruct line; [done|simpl in *; lia]). simpl in *. done.
Qed.

Lemma line_inv_type echo limit b0 keys buf out index c :
  line_inv echo limit b0 keys buf out index → index < limit - 1 → limit <= Z.of_nat (length b0) →
  (sint 8 c =? 8) || (sint 8 c =? 127) = false → (sint 8 c >=? 32) && (sint 8 c <=? 126) = true →
  ∃ buf', store_bytes buf index [sint 8 c] = Ok buf' ∧
    line_inv echo limit b0 (keys ++ [c]) buf' (echo_chars echo [sint 8 c] out) (index + 1).
Proof.
  intros (->&Hi&Hl&Ht&Hk&He) Hlt Hb Hc Hp. unfold store_bytes.
  set (line := edit keys) in *. rewrite (proj2 (Z.leb_le 0 _)), (proj2 (Z.leb_le (_ + _) _)) by (simpl; lia).
  cbn [andb]. eexists. split; [done|]. rewrite Nat2Z.id. unfold line_inv.
  assert (edit (keys ++ [c]) = line ++ [sint 8 c]) as ->.
  { unfold edit. rewrite foldl_app. cbn [foldl]. unfold edit_step at 1. by rewrite Hc, Hp. }
  rewrite length_app. cbn [length]. split; [lia|]. split; [lia|]. split; [|split; [|split]].
  - rewrite !length_app, length_take, length_drop. cbn [length]. lia.
  - rewrite Ht, app_assoc, take_app_le by (rewrite length_app; simpl; lia). rewrite take_ge; [done|rewrite length_app; simpl; lia].
  - intros k Hkk. rewrite <- Hk by done. rewrite lookup_app_r by (rewrite length_take; lia).
    rewrite length_take, Nat.min_l by lia. rewrite lookup_app_r by (simpl; lia). rewrite lookup_drop. f_equal. simpl. lia.
  - apply echo_type; [|done]. intros E. rewrite E in Hp. done.
Qed.

(** How the loop stops: with a full line, at a newline, or waiting. *)
Definition stopped (echo : bool) (limit : Z) (b0 input : list Z) (r : option line_state) : Prop :=
  match r with
  | None => Forall (λ c, is_newline c = false) input
  | Some st => ∃ keys out,
      line_inv echo limit b0 keys (line_buf st) out (line_index st) ∧ Forall (λ c, is_newline c = false) keys ∧
      (input = keys ++ line_in st ∧ line_index st = limit - 1 ∧ line_echo st = out ∨
       ∃ nl, input = keys ++ nl :: line_in st ∧ is_newline nl = true ∧ line_index st < limit - 1 ∧
         line_echo st = echo_chars echo [10] out)
  end.

Lemma readline_loop_ok echo limit b0 keys rest buf out index :
  1 <= limit < 2 ^ 64 → limit <= Z.of_nat (length b0) → Forall (λ c, is_newline c = false) keys →
  line_inv echo limit b0 keys buf out index →
  ∃ r, readline_loop rest echo limit buf index out = Ok r ∧ stopped echo limit b0 (keys ++ rest) r.
Proof.
  intros Hlim Hb. revert keys buf out index. induction rest as [|c rest IH]; intros keys buf out index Hnl Hinv;
    cbn [readline_loop]; rewrite u64_id by lia; pose proof Hinv as (Ei&Hi&_).
  - rewrite app_nil_r. destruct (Z.ltb_spec index (limit - 1)); cbn [negb]; [by exists None|].
    eexists. split; [done|]. exists keys, out. split; [done|]. split; [done|]. left. cbn. rewrite app_nil_r.
    split; [done|]. split; [lia|done].
  - destruct (Z.ltb_spec index (limit - 1)); cbn [negb].
    2: { eexists. split; [done|]. exists keys, out. split; [done|]. split; [done|]. left. cbn. split; [done|]. split; [lia|done]. }
    destruct (is_newline c) eqn:Enl; unfold is_newline in Enl; rewrite Enl.
    { eexists. split; [done|]. exists keys, out. split; [done|]. split; [done|]. right. exists c. cbn. done. }
    assert (Forall (λ c, is_newline c = false) (keys ++ [c])) as Hnl'.
    { apply Forall_app. split; [done|]. by repeat constructor. }
    rewrite (cons_middle c keys rest), app_assoc.
    destruct ((sint 8 c =? 8) || (sint 8 c =? 127)) eqn:Ebs.
    { pose proof (line_inv_bs echo limit b0 keys buf out index c Hinv Ebs) as Hinv'. destruct (index >? 0); by apply IH. }
    destruct ((sint 8 c >=? 32) && (sint 8 c <=? 126)) eqn:Ep.
    + destruct (line_inv_type echo limit b0 keys buf out index c Hinv) as (buf'&->&Hinv'); [done|done|done|done|].
      cbn [mbind result_bind]. by apply IH.
    + apply IH; [done|]. destruct Hinv as (?&?&?&?&?&?). unfold line_inv.
      assert (edit (keys ++ [c]) = edit keys) as ->; [|done].
      unfold edit. rewrite foldl_app. cbn [foldl]. unfold edit_step at 1. by rewrite Ebs, Ep.
Qed.

(** * Properties *)

(** C9: formatting refines the text of the format: into a buffer of [bufsz]
    bytes [vsnprintf] stores the first [bufsz - 1] bytes of the text and a NUL,
    leaves every byte behind them as it was, and returns the length of the
    whole text; nothing is stored when [bufsz] is 0.  The text is specified
    apart from the code: what each flag, width, length modifier and conversion
    means.  A format or argument the specification gives no text (it ends in
    the middle of a directive, an argument is missing) is outside the claim. *)
Theorem vsnprintf_correct addr b bufsz fmt args out :
  0 <= bufsz <= Z.of_nat (length b) → placed addr bufsz →
  Forall arg_ok args → spec_format fmt args = Ok out → room addr out →
  vsnprintf addr b bufsz fmt args = Ok (i32 (Z.of_nat (length out)), printed bufsz out b).
Proof. apply vsnprintf_ok. Qed.

(** [vsnprintf] ends for every format, argument list and buffer: each
    round of its loop consumes a character of the format. *)
Theorem vsnprintf_terminates addr b bufsz fmt args : vsnprintf addr b bufsz fmt args ≠ Fuel.
Proof.
  apply ends_bind; [apply loop_ends; lia|]. intros x _. apply ends_bind; [case_match; auto with ends|].
  intros b' _. apply ends_ret.
Qed.

(** C10: every 64-bit number printed in decimal, or in hexadecimal of either
    case with its prefix, is read back by [strtoull]. *)
Theorem number_roundtrip addr b v :
  0 <= v < 2 ^ 64 → 70 <= Z.of_nat (length b) < 2 ^ 31 → placed addr (Z.of_nat (length b)) →
  Forall (λ fmt, ∃ out, snprintf addr b (Z.of_nat (length b)) (bytes_of fmt) [mkArg v []] =
      Ok (Z.of_nat (length out), out ++ 0 :: drop (S (length out)) b) ∧ strtoull out = v)
    ["%llu"; "%#llx"; "%#llX"].
Proof.
  intros Hv Hb Hp.
  assert (∀ upper b, length (numeral upper b v) <= 65)%nat as Hlen by (intros; apply numeral_length).
  repeat apply Forall_cons_2; [..|by apply Forall_nil_2].
  - apply (roundtrip_ok _ _ _ _ (numeral false 10 v)); [done|done|done| |specialize (Hlen false 10); lia|by apply strtoull_dec].
    by rewrite spec_llu, u64_id, app_nil_r, spec_uint_plain by done.
  - apply (roundtrip_ok _ _ _ _ (48 :: 120 :: numeral false 16 v)); [done|done|done| |specialize (Hlen false 16); simpl; lia|].
    + by rewrite spec_llx, u64_id, app_nil_r, spec_uint_plain by done.
    + apply strtoull_hex; [done|by left].
  - apply (roundtrip_ok _ _ _ _ (48 :: 88 :: numeral true 16 v)); [done|done|done| |specialize (Hlen true 16); simpl; lia|].
    + by rewrite spec_llX, u64_id, app_nil_r, spec_uint_plain by done.
    + apply strtoull_hex; [done|by right].
Qed.

(** [readline] never stores outside its [limit] bytes; it stops at a
    newline or with the line full, the line is what the editing keys leave of
    the characters read, ends with NUL, and with echo on it is what the
    terminal shows before the one newline echoed. *)
Theorem readline_correct input echo buffer limit :
  1 <= limit < 2 ^ 64 → limit <= Z.of_nat (length buffer) →
  ∃ r, readline input echo buffer limit = Ok r ∧
  match r with
  | None => Forall (λ c, is_newline c = false) input
  | Some st => ∃ keys, let line := edit keys in
      (input = keys ++ line_in st ∧ line_index st = limit - 1 ∨
       ∃ nl, input = keys ++ nl :: line_in st ∧ is_newline nl = true) ∧
      Forall (λ c, is_newline c = false) keys ∧
      line_index st = Z.of_nat (length line) ∧ line_index st <= limit - 1 ∧
      take (S (length line)) (line_buf st) = line ++ [0] ∧ length (line_buf st) = length buffer ∧
      (∀ k, limit <= Z.of_nat k → line_buf st !! k = buffer !! k) ∧
      if echo then ∃ out, line_echo st = out ++ [10] ∧ shown out = line else line_echo st = []
  end.
Proof.
  intros Hlim Hb. unfold readline.
  destruct (readline_loop_ok echo limit buffer [] input buffer [] 0) as (r&->&Hr); [done|done|constructor| |].
  { unfold line_inv. cbn. split; [done|]. split; [lia|]. do 3 (split; [done|]). destruct echo; [by exists []|done]. }
  cbn [mbind result_bind app] in *. destruct r as [st|]; [|by exists None].
  destruct Hr as (keys&out&(Ei&Hi&Hl&Ht&Hk&He)&Hnl&Hstop). rewrite u64_id by lia.
  unfold store_bytes. rewrite (proj2 (Z.leb_le 0 _)), (proj2 (Z.leb_le (_ + _) _)) by (simpl; lia).
  cbn [andb mbind result_bind]. eexists. split; [done|]. exists keys. cbn [line_in line_index line_buf line_echo]. rewrite Ei, Nat2Z.id.
  split. { destruct Hstop as [(?&?&_)|(nl&?&?&_)]; [left; split; [done|lia]|right; by exists nl]. }
  split; [done|]. split; [done|]. split; [lia|]. split; [|split; [|split]].
  - rewrite Ht. change ([0] ++ ?l) with (0 :: l). rewrite (cons_middle 0), app_assoc, take_app_le by (rewrite length_app; simpl; lia).
    apply take_ge. rewrite length_app. simpl. lia.
  - rewrite !length_app, length_take, length_drop. cbn [length]. lia.
  - intros k Hkk. rewrite <- (Hk k) by lia. rewrite lookup_app_r by (rewrite length_take; lia).
    rewrite length_take, Nat.min_l by lia. rewrite lookup_app_r by (simpl; lia). rewrite lookup_drop. f_equal. simpl. lia.
  - assert ((if Z.of_nat (length (edit keys)) =? limit - 1 then echo_chars echo [10] (line_echo st) else line_echo st)
      = echo_chars echo [10] out) as ->.
    { destruct Hstop as [(_&?&->)|(nl&_&_&?&->)]; case_z; done || lia. }
    destruct echo; [|done]. destruct He as (t&E&Hshow). exists out. split; [done|]. unfold shown. by rewrite E.
Qed.

(** * Concrete runs *)

Lemma vsnprintf_correct_witness :
  vsnprintf 0x5000 (replicate 20 7) 8 (bytes_of "%-4d|%#06x") [mkArg 42 []; mkArg 0xbeef []] =
    Ok (11, bytes_of "42  |0x" ++ 0 :: replicate 12 7).
Proof.
  rewrite (vsnprintf_correct _ _ _ _ _ (bytes_of "42  |0xbeef")).
  - vm_compute. reflexivity.
  - vm_compute. split; discriminate.
  - split; [lia|by left].
  - repeat constructor; simpl; lia.
  - vm_compute. reflexivity.
  - by vm_compute.
Defined.

Lemma number_roundtrip_witness :
  ∃ out, snprintf 0x5000 (replicate 80 0) 80 (bytes_of "%#llx") [mkArg 0xfeedface []] =
    Ok (Z.of_nat (length out), out ++ 0 :: drop (S (length out)) (replicate 80 0)) ∧ strtoull out = 0xfeedface.
Proof.
  pose proof (number_roundtrip 0x5000 (replicate 80 0) 0xfeedface ltac:(lia) ltac:(by vm_compute)
    ltac:(split; [lia|left; by vm_compute])) as H.
  apply Forall_cons in H as [_ [H _]%Forall_cons]. exact H.
Defined.

Lemma readline_correct_witness :
  ∃ st, readline [104; 105; 106; 8; 33; 13; 65] true (replicate 16 7) 16 = Ok (Some st) ∧
    take 4 (line_buf st) = [104; 105; 33; 0] ∧ line_in st = [65].
Proof.
  destruct (readline_correct [104; 105; 106; 8; 33; 13; 65] true (replicate 16 7) 16) as (r&E&_); [lia|simpl; lia|].
  assert (readline [104; 105; 106; 8; 33; 13; 65] true (replicate 16 7) 16 =
    Ok (Some (mkLine ([104; 105; 33; 0] ++ replicate 12 7) 3 [65] [104; 105; 106; 8; 32; 8; 33; 10]))) as Er
    by (vm_compute; reflexivity).
  rewrite E in Er. injection Er as ->. eexists. split; [exact E|done].
Defined.

(** A format that ends inside a conversion: the default case prints the NUL
    and steps over it, and the loop reads behind the string. *)
Theorem vsnprintf_overruns : vsnprintf 0x5000 (replicate 20 7) 20 (bytes_of "ab%5") [] = Fault.
Proof. vm_compute. reflexivity. Qed.

(** Asking for the length with a NULL buffer of size 0 panics in [memcpy]. *)
Theorem vsnprintf_null_panics :
  vsnprintf NULL [] 0 (bytes_of "abc") [] = Panic "MEMORY" "memcpy dest is null".
Proof. vm_compute. reflexivity. Qed.

(** [readline] with a limit of 0 takes the limit for 2^64 bytes. *)
Theorem readline_zero_limit : readline [104; 105; 106] false [0; 0] 0 = Fault.
Proof. vm_compute. reflexivity. Qed.

(** The precision of a conversion is parsed and ignored, and %p drops the
    flags. *)
Theorem precision_ignored :
  vsnprintf 0x5000 (replicate 6 0) 6 (bytes_of "%.2s") [mkArg 1 (bytes_of "abcd")] = Ok (4, bytes_of "abcd" ++ [0; 0]).
Proof. vm_compute. reflexivity. Qed.
