(* ===== verification/Heap.v ===== *)
(** The kernel heap (src/mem/heap.c, src/mem/heap.h).

    Block headers and the nodes of the fixed size pools live in two stores
    keyed by address, the payload bytes in a third; HeapSpec.v proves that live
    payloads never contain a header, which is what lets the stores be apart.
    Pages come from a backend, the interface to the physical allocator
    (pma.c), the virtual allocator (vmm.c) and the page tables (paging.c).  A
    header or node that is not in its store is memory the heap knows nothing
    about: reading it is a [Fault]. *)

From S2P Require Import Prelude Mem Vmm Paging.

(** * Constants *)

Definition HEAP_ALIGNMENT : Z := 16.
Definition HEAP_MAGIC : Z := 0x1E160E06.
Definition MIN_SPLIT_SIZE : Z := 16.
Definition PAGES_PER_GROWTH : Z := 4.
Definition KERNEL_HEAP_FLAGS : Z := Z.lor (Z.lor PTE_PRESENT PTE_WRITABLE) PTE_NX.
Definition PTE_TYPE_HEAP_BLOCK : Z := 2 ^ 9.
Definition PTE_TYPE_HEAP_POOL : Z := 2 * 2 ^ 9.
Definition POOL_COUNT : Z := 3.
Definition pool_sizes : list Z := [32; 64; 128].
Definition MAX_POOL_PAGES : Z := 64.
Definition PAGES_2MB : Z := PAGE_SIZE_2MB / PAGE_SIZE.
(** [sizeof(BlockHeader)] *)
Definition HEADER : Z := 48.

(** [ALIGN(alignment, size)] on [size_t]; the complement is taken of an [int]
    and sign extended. *)
Definition ALIGN (alignment size : Z) : Z := Z.land (u64 (size + (alignment - 1))) (not64 (alignment - 1)).

Definition page_of (ptr : Z) : Z := Z.land ptr (not64 (PAGE_SIZE - 1)).

(** * Data *)

Record BlockHeader := mkHeader {
  magic : Z;
  flags : Z;
  size : Z;
  bin_size : Z;
  used_slots : Z;
  next : Z;
  prev : Z
}.

Record FixedPool := mkPool { block_size : Z; free_list : Z }.

Definition BH_FREE : Z := 2 ^ 0.
Definition BH_POOL_BLOCK : Z := 2 ^ 1.
Definition BH_BOUNDARY_START : Z := 2 ^ 2.

Definition BH_IS_FREE (b : BlockHeader) : bool := has (flags b) BH_FREE.
Definition BH_IS_POOL (b : BlockHeader) : bool := has (flags b) BH_POOL_BLOCK.
Definition BH_IS_BOUNDARY (b : BlockHeader) : bool := has (flags b) BH_BOUNDARY_START.

Definition with_flags (b : BlockHeader) (f : Z) : BlockHeader :=
  mkHeader (magic b) f (size b) (bin_size b) (used_slots b) (next b) (prev b).
Definition with_size (b : BlockHeader) (s : Z) : BlockHeader :=
  mkHeader (magic b) (flags b) s (bin_size b) (used_slots b) (next b) (prev b).
Definition with_used (b : BlockHeader) (u : Z) : BlockHeader :=
  mkHeader (magic b) (flags b) (size b) (bin_size b) u (next b) (prev b).
Definition with_next (b : BlockHeader) (n : Z) : BlockHeader :=
  mkHeader (magic b) (flags b) (size b) (bin_size b) (used_slots b) n (prev b).
Definition with_prev (b : BlockHeader) (p : Z) : BlockHeader :=
  mkHeader (magic b) (flags b) (size b) (bin_size b) (used_slots b) (next b) p.

Definition BH_SET_FREE (b : BlockHeader) : BlockHeader := with_flags b (Z.lor (flags b) BH_FREE).
Definition BH_CLR_FREE (b : BlockHeader) : BlockHeader := with_flags b (Z.land (flags b) (u32 (Z.lnot BH_FREE))).

(** * The backend *)

(** What the heap calls of pma.c, vmm.c and paging.c.  [be_ok b R]: the state
    is consistent and [R] are the live virtual ranges, start and page count. *)
Class PageBackend (B : Type) := {
  pma_alloc_pages : B → Z → result (Z * B);
  pma_alloc_pages_2mb : B → Z → result (Z * B);
  pma_free_pages : B → Z → Z → result B;
  vmm_alloc_aligned : B → Z → Z → result (Z * B);
  vmm_free_pages : B → Z → Z → result B;
  map_page : B → Z → Z → Z → result B;
  map_2mb : B → Z → Z → Z → result B;
  get_pte : B → Z → result (option Z);
  (** the page tables translate the page at the address *)
  mapped : B → Z → bool
}.

Section Heap.
Context {B : Type} `{!PageBackend B}.

(** The static variables, the three stores and the backend. *)
Record heap := mkHeap {
  hdrs : gmap Z BlockHeader;
  nodes : gmap Z Z;
  data : Z → Z;
  head : Z;
  tail : Z;
  last_fit : Z;
  pools : list FixedPool;
  registry : list Z;
  back : B
}.

Definition set_hdrs (h : heap) (x : gmap Z BlockHeader) : heap :=
  mkHeap x (nodes h) (data h) (head h) (tail h) (last_fit h) (pools h) (registry h) (back h).
Definition set_nodes (h : heap) (x : gmap Z Z) : heap :=
  mkHeap (hdrs h) x (data h) (head h) (tail h) (last_fit h) (pools h) (registry h) (back h).
Definition set_data (h : heap) (x : Z → Z) : heap :=
  mkHeap (hdrs h) (nodes h) x (head h) (tail h) (last_fit h) (pools h) (registry h) (back h).
Definition set_head (h : heap) (x : Z) : heap :=
  mkHeap (hdrs h) (nodes h) (data h) x (tail h) (last_fit h) (pools h) (registry h) (back h).
Definition set_tail (h : heap) (x : Z) : heap :=
  mkHeap (hdrs h) (nodes h) (data h) (head h) x (last_fit h) (pools h) (registry h) (back h).
Definition set_last_fit (h : heap) (x : Z) : heap :=
  mkHeap (hdrs h) (nodes h) (data h) (head h) (tail h) x (pools h) (registry h) (back h).
Definition set_pools (h : heap) (x : list FixedPool) : heap :=
  mkHeap (hdrs h) (nodes h) (data h) (head h) (tail h) (last_fit h) x (registry h) (back h).
Definition set_registry (h : heap) (x : list Z) : heap :=
  mkHeap (hdrs h) (nodes h) (data h) (head h) (tail h) (last_fit h) (pools h) x (back h).
Definition set_back (h : heap) (x : B) : heap :=
  mkHeap (hdrs h) (nodes h) (data h) (head h) (tail h) (last_fit h) (pools h) (registry h) x.

(** Loads and stores of headers and pool nodes. *)
Definition load (h : heap) (a : Z) : result BlockHeader := of_option (hdrs h !! a).
Definition store (h : heap) (a : Z) (b : BlockHeader) : heap := set_hdrs h (<[a := b]> (hdrs h)).
Definition update (f : BlockHeader → BlockHeader) (a : Z) (h : heap) : result heap :=
  b ← load h a; mret (store h a (f b)).
Definition node_next (h : heap) (a : Z) : result Z := of_option (nodes h !! a).
Definition set_node (h : heap) (a n : Z) : heap := set_nodes h (<[a := n]> (nodes h)).

(** [if (n) n->prev = p; else tail = p;] *)
Definition set_prev_or_tail (n p : Z) (h : heap) : result heap :=
  if n =? NULL then mret (set_tail h p) else update (λ b, with_prev b p) n h.

Definition is_pool_page (page_base : Z) (h : heap) : bool := existsb (λ p, p =? page_base) (registry h).

Inductive ptr_type := HEAP_POOL | HEAP_BLOCK | NOINFO.

Definition get_ptr_type (ptr : Z) (h : heap) : result ptr_type :=
  if is_pool_page (page_of ptr) h then mret HEAP_POOL
  else
    block ← load h (ptr - HEADER);
    mret (if magic block =? HEAP_MAGIC then HEAP_BLOCK else NOINFO).

Definition list_append (bh : Z) (h : heap) : result heap :=
  h ← update (λ b, with_prev (with_next b NULL) (tail h)) bh h;
  h ← (if tail h =? NULL then mret h else update (λ b, with_next b bh) (tail h) h);
  let h := set_tail h bh in
  mret (if head h =? NULL then set_head h bh else h).

Definition list_unlink (bh : Z) (h : heap) : result heap :=
  b ← load h bh;
  h ← (if prev b =? NULL then mret (set_head h (next b)) else update (λ p, with_next p (next b)) (prev b) h);
  h ← set_prev_or_tail (next b) (prev b) h;
  mret (if last_fit h =? bh then set_last_fit h NULL else h).

(** * Growth *)

(** The mapping functions return nothing, and map nothing when there is no frame
    for a table.  The code goes on and faults when it first touches such a page;
    the model faults at once. *)
Definition checked (m : B → Z → Z → Z → result B) (b : B) (virt phys flags : Z) : result B :=
  b ← m b virt phys flags; if mapped b virt then mret b else Fault.

Definition map_pages (m : B → Z → Z → Z → result B) (step virt phys flags : Z) (b : B) (n : Z) : result B :=
  foldl (λ r i, b ← r; checked m b (virt + i * step) (phys + i * step) flags) (Ok b) (seqZ 0 n).

Definition new_header (fl sz : Z) : BlockHeader := mkHeader HEAP_MAGIC fl sz 0 0 NULL NULL.

(** Pages for a region: their address, 0 when there are none. *)
Definition grow_pages (pages : Z) (b : B) : result (Z * B) :=
  if (pages >=? PAGES_2MB) && (pages mod PAGES_2MB =? 0) then
    let huge_count := pages / PAGES_2MB in
    '(phys, b) ← pma_alloc_pages_2mb b huge_count;
    if phys =? 0 then mret (0, b)
    else
      '(virt, b) ← vmm_alloc_aligned b pages PAGE_SIZE_2MB;
      if virt =? 0 then b ← pma_free_pages b phys pages; mret (0, b)
      else
        b ← map_pages map_2mb PAGE_SIZE_2MB virt phys (Z.lor KERNEL_HEAP_FLAGS PTE_TYPE_HEAP_BLOCK) b huge_count;
        mret (virt, b)
  else
    '(phys, b) ← pma_alloc_pages b pages;
    if phys =? 0 then mret (0, b)
    else
      '(virt, b) ← vmm_alloc_aligned b pages PAGE_SIZE;
      if virt =? 0 then b ← pma_free_pages b phys pages; mret (0, b)
      else
        b ← map_pages map_page PAGE_SIZE virt phys (Z.lor KERNEL_HEAP_FLAGS PTE_TYPE_HEAP_BLOCK) b pages;
        mret (virt, b).

Definition heap_grow (size_needed : Z) (h : heap) : result (bool * heap) :=
  let pages := u64 (size_needed + HEADER + PAGE_SIZE - 1) / PAGE_SIZE in
  let pages := if pages <? PAGES_PER_GROWTH then PAGES_PER_GROWTH else pages in
  '(virt, b) ← grow_pages pages (back h);
  let h := set_back h b in
  if virt =? 0 then mret (false, h)
  else
    let h := store h virt (new_header (Z.lor BH_FREE BH_BOUNDARY_START) (u64 (pages * PAGE_SIZE - HEADER))) in
    h ← list_append virt h;
    mret (true, h).

(** * Initialisation *)

(** The slots of a pool page go to the front of its free list. *)
Definition add_slots (data_start bsize : Z) (slots : Z) (first : Z) (h : heap) : Z * heap :=
  foldl (λ '(fl, h) j, let node := data_start + j * bsize in (node, set_node h node fl)) (first, h) (seqZ 0 slots).

Definition init_pool (bsize : Z) (h : heap) : result heap :=
  '(phys, b) ← pma_alloc_pages (back h) 1;
  if phys =? 0 then Panic "HEAP" "pma failed for pool page"
  else
    '(virt, b) ← vmm_alloc_aligned b 1 PAGE_SIZE;
    if virt =? 0 then Panic "HEAP" "vmm failed for pool page"
    else
      b ← checked map_page b virt phys (Z.lor KERNEL_HEAP_FLAGS PTE_TYPE_HEAP_POOL);
      let h := set_back h b in
      if Z.of_nat (length (registry h)) >=? MAX_POOL_PAGES then Panic "HEAP" "pool page registry exhausted"
      else
        let h := set_registry h (registry h ++ [virt]) in
        let h := store h virt (mkHeader HEAP_MAGIC BH_POOL_BLOCK (PAGE_SIZE - HEADER) bsize 0 NULL NULL) in
        h ← list_append virt h;
        let '(fl, h) := add_slots (virt + HEADER) bsize ((PAGE_SIZE - HEADER) / bsize) NULL h in
        mret (set_pools h (pools h ++ [mkPool bsize fl])).

Definition heap_init_pools (h : heap) : result heap :=
  foldl (λ r s, h ← r; init_pool s h) (Ok (set_pools h [])) pool_sizes.

(** [heap_init] on zeroed static variables, with the bytes the memory holds. *)
Definition heap_init (bytes : Z → Z) (b : B) (sz : Z) : result heap :=
  let pages := u64 (sz + PAGE_SIZE - 1) / PAGE_SIZE in
  '(virt, b) ← vmm_alloc_aligned b pages PAGE_SIZE;
  if virt =? 0 then Panic "HEAP" "vmm failed for heap init"
  else
    '(phys, b) ← pma_alloc_pages b pages;
    if phys =? 0 then Panic "HEAP" "pma failed for heap init"
    else
      b ← map_pages map_page PAGE_SIZE virt phys (Z.lor KERNEL_HEAP_FLAGS PTE_TYPE_HEAP_BLOCK) b pages;
      let first := new_header (Z.lor BH_FREE BH_BOUNDARY_START) (u64 (pages * PAGE_SIZE - HEADER)) in
      heap_init_pools (mkHeap {[ virt := first ]} ∅ bytes virt virt NULL (replicate 3 (mkPool 0 NULL)) [] b).

(** * malloc *)

(** The first pool with a slot for [sz]. *)
Fixpoint pick_pool (ps : list FixedPool) (i : nat) (sz : Z) : option (nat * FixedPool) :=
  match ps with
  | [] => None
  | p :: ps =>
      if (sz <=? block_size p) && negb (free_list p =? NULL) then Some (i, p) else pick_pool ps (S i) sz
  end.

Definition pool_alloc (i : nat) (p : FixedPool) (h : heap) : result (Z * heap) :=
  let ptr := free_list p in
  n ← node_next h ptr;
  let h := set_pools h (<[i := mkPool (block_size p) n]> (pools h)) in
  h ← update (λ b, with_used b (u32 (used_slots b + 1))) (page_of ptr) h;
  mret (ptr, h).

(** The circular search for a block, from [start] with one wrap to [head]. *)
Fixpoint search (fuel : nat) (sz start curr : Z) (wrapped : bool) (h : heap) : result (option Z) :=
  match fuel with
  | O => Fuel
  | S fuel =>
      if curr =? NULL then mret None
      else
        c ← load h curr;
        if negb (magic c =? HEAP_MAGIC) then Panic "MEMORY CORRUPTION" "heap magic invalid"
        else if BH_IS_FREE c && negb (BH_IS_POOL c) && (size c >=? sz) then mret (Some curr)
        else
          let curr := next c in
          if (curr =? NULL) && negb wrapped then
            if negb (start =? head h) then
              if head h =? start then mret None else search fuel sz start (head h) true h
            else mret None
          else if curr =? start then mret None
          else search fuel sz start curr wrapped h
  end.

(** Taking the block at [curr], splitting it when enough is left. *)
Definition take_block (curr sz : Z) (h : heap) : result (Z * heap) :=
  c ← load h curr;
  h ← (if size c >=? u64 (u64 (sz + HEADER) + MIN_SPLIT_SIZE) then
         let split := curr + HEADER + sz in
         let h := store h split (mkHeader HEAP_MAGIC BH_FREE (u64 (size c - sz - HEADER)) 0 0 (next c) curr) in
         h ← set_prev_or_tail (next c) split h;
         update (λ b, with_size (with_next b split) sz) curr h
       else mret h);
  h ← update BH_CLR_FREE curr h;
  mret (curr + HEADER, set_last_fit h curr).

(** The search, and the growth that leads back to it. *)
Fixpoint malloc_block (retries fuel : nat) (sz : Z) (h : heap) : result (Z * heap) :=
  match retries with
  | O => Fuel
  | S retries =>
      let start := if last_fit h =? NULL then head h else last_fit h in
      found ← search fuel sz start start false h;
      match found with
      | Some curr => take_block curr sz h
      | None =>
          '(ok, h) ← heap_grow sz h;
          if (ok : bool) then malloc_block retries fuel sz h else mret (NULL, h)
      end
  end.

Definition malloc (retries fuel : nat) (sz : Z) (h : heap) : result (Z * heap) :=
  if sz =? 0 then mret (NULL, h)
  else match pick_pool (pools h) 0 sz with
  | Some (i, p) => pool_alloc i p h
  | None => malloc_block retries fuel (ALIGN HEAP_ALIGNMENT sz) h
  end.

(** * free *)

Fixpoint find_bin (ps : list FixedPool) (i : nat) (bin : Z) : option (nat * FixedPool) :=
  match ps with
  | [] => None
  | p :: ps => if block_size p =? bin then Some (i, p) else find_bin ps (S i) bin
  end.

(** Dropping the nodes of a page from the free list of pool [i]. *)
Fixpoint purge (fuel : nat) (page_base : Z) (i : nat) (prev_node curr_node : Z) (h : heap) : result heap :=
  match fuel with
  | O => Fuel
  | S fuel =>
      if curr_node =? NULL then mret h
      else
        n ← node_next h curr_node;
        if page_of curr_node =? page_base then
          h ← (if prev_node =? NULL then
                 p ← of_option (pools h !! i); mret (set_pools h (<[i := mkPool (block_size p) n]> (pools h)))
               else _ ← node_next h prev_node; mret (set_node h prev_node n));
          purge fuel page_base i prev_node n h
        else purge fuel page_base i curr_node n h
  end.

(** [registry[i] = registry[--count]] for the first match. *)
Definition remove_page (page_base : Z) (reg : list Z) : list Z :=
  match list_find (λ p, p = page_base) reg with
  | None => reg
  | Some (i, _) => take (length reg - 1) (<[i := default 0 (last reg)]> reg)
  end.

Definition free_pool (fuel : nat) (ptr : Z) (h : heap) : result heap :=
  let page := page_of ptr in
  bh ← load h page;
  match find_bin (pools h) 0 (bin_size bh) with
  | None => Panic "MEMORY CORRUPTION" "pool bin mismatch"
  | Some (i, p) =>
      let h := set_node h ptr (free_list p) in
      let h := set_pools h (<[i := mkPool (block_size p) ptr]> (pools h)) in
      let used := if used_slots bh >? 0 then used_slots bh - 1 else used_slots bh in
      let h := store h page (with_used bh used) in
      if used =? 0 then
        h ← purge fuel page i NULL ptr h;
        let h := set_registry h (remove_page page (registry h)) in
        pte ← get_pte (back h) page;
        let phys := match pte with Some e => Z.land e (not64 0xfff) | None => 0 end in
        h ← list_unlink page h;
        b ← vmm_free_pages (back h) page 1;
        b ← (if phys =? 0 then mret b else pma_free_pages b phys 1);
        mret (set_back h b)
      else mret h
  end.

(** Whether [fwd] can be merged into the block before it. *)
Definition can_absorb (fwd : BlockHeader) : bool :=
  BH_IS_FREE fwd && negb (BH_IS_POOL fwd) && negb (BH_IS_BOUNDARY fwd).

(** Block [a] takes over its successor [n] with header [fwd]. *)
Definition absorb_next (a : Z) (n : Z) (fwd : BlockHeader) (h : heap) : result heap :=
  h ← update (λ b, with_next (with_size b (u64 (size b + (HEADER + size fwd)))) (next fwd)) a h;
  h ← set_prev_or_tail (next fwd) a h;
  mret (if last_fit h =? n then set_last_fit h a else h).

Definition coalesce_forward (block : Z) (h : heap) : result heap :=
  b ← load h block;
  if next b =? NULL then mret h
  else
    fwd ← load h (next b);
    if can_absorb fwd then absorb_next block (next b) fwd h else mret h.

Definition coalesce_backward (block : Z) (h : heap) : result heap :=
  b ← load h block;
  if prev b =? NULL then mret h
  else
    bwd ← load h (prev b);
    if BH_IS_FREE bwd && negb (BH_IS_POOL bwd) && negb (BH_IS_BOUNDARY b)
    then absorb_next (prev b) block b h else mret h.

Definition free_block (ptr : Z) (h : heap) : result heap :=
  let block := ptr - HEADER in
  b ← load h block;
  if negb (magic b =? HEAP_MAGIC) then Panic "MEMORY CORRUPTION" "heap magic mismatch on free"
  else
    h ← update BH_SET_FREE block h;
    h ← coalesce_forward block h;
    coalesce_backward block h.

(** [_free] *)
Definition free_typed (fuel : nat) (ptr : Z) (ty : ptr_type) (h : heap) : result heap :=
  if ptr =? NULL then mret h
  else match ty with
  | HEAP_POOL => free_pool fuel ptr h
  | HEAP_BLOCK => free_block ptr h
  | NOINFO => Panic "MEMORY CORRUPTION" "free called with unknown block type"
  end.

Definition free (fuel : nat) (ptr : Z) (h : heap) : result heap :=
  if ptr =? NULL then mret h
  else
    ty ← get_ptr_type ptr h;
    match ty with
    | NOINFO => Panic "MEMORY CORRUPTION" "free on unmanaged pointer"
    | _ => free_typed fuel ptr ty h
    end.

(** * realloc *)

(** [memcpy] and [memset] on the payload bytes: the checks of mem.h and, for
    ranges that do not overlap, what Mem.v proves they leave. *)
Definition copy_bytes (d s n : Z) (h : heap) : result heap :=
  _ ← nonnull "MEMORY" "memcpy dest is null" d;
  _ ← nonnull "MEMORY" "memcpy src is null" s;
  _ ← safe "MEMORY" "memcpy dest is out of range" d n;
  _ ← safe "MEMORY" "memcpy src is out of range" s n;
  mret (set_data h (λ a, if (d <=? a) && (a <? d + n) then data h (a - d + s) else data h a)).

Definition set_bytes (s c n : Z) (h : heap) : result heap :=
  _ ← nonnull "MEMORY" "memset s is null" s;
  _ ← safe "MEMORY" "memset s is out of range" s n;
  mret (set_data h (λ a, if (s <=? a) && (a <? s + n) then u8 c else data h a)).

(** The 64-bit word at offset [o] of a header. *)
Definition header_word (b : BlockHeader) (o : Z) : Z :=
  if o =? 0 then magic b + Z.shiftl (flags b) 32
  else if o =? 8 then size b
  else if o =? 16 then bin_size b
  else if o =? 24 then used_slots b
  else if o =? 32 then next b
  else prev b.

(** [old->next] read after [b] was written at [split]: the new header may lie
    over the old one, whose [next] is at offset 32. *)
Definition next_after_split (old : Z) (nx : BlockHeader) (split : Z) (b : BlockHeader) : Z :=
  let o := old + 32 - split in
  if (0 <=? o) && (o <? HEADER) then header_word b o else next nx.

(** The in-place expansion of block [curr] with header [c] into its free
    successor [nx], to [combined] bytes. *)
Definition expand (curr : Z) (c nx : BlockHeader) (combined new_size : Z) (h : heap) : result heap :=
  let old_next := next c in
  if combined >=? u64 (u64 (new_size + HEADER) + MIN_SPLIT_SIZE) then
    h ← update (λ b, with_size b new_size) curr h;
    let split := curr + HEADER + new_size in
    let b := new_header BH_FREE (u64 (combined - new_size - HEADER)) in
    let n := next_after_split old_next nx split b in
    let h := store h split (with_prev (with_next b n) curr) in
    h ← set_prev_or_tail n split h;
    h ← update (λ b, with_next b split) curr h;
    mret (if last_fit h =? old_next then set_last_fit h split else h)
  else
    let h := if last_fit h =? old_next then set_last_fit h curr else h in
    h ← update (λ b, with_next (with_size b combined) (next nx)) curr h;
    set_prev_or_tail (next nx) curr h.

(** Moving the contents to a new allocation. *)
Definition realloc_move (retries fuel : nat) (ptr old_size new_size : Z) (ty : ptr_type) (h : heap) : result (Z * heap) :=
  '(new_p, h) ← malloc retries fuel new_size h;
  if new_p =? NULL then mret (NULL, h)
  else
    h ← copy_bytes new_p ptr old_size h;
    h ← free_typed fuel ptr ty h;
    mret (new_p, h).

Definition realloc (retries fuel : nat) (ptr new_size : Z) (h : heap) : result (Z * heap) :=
  if ptr =? NULL then malloc retries fuel new_size h
  else if new_size =? 0 then
    ty ← get_ptr_type ptr h; h ← free_typed fuel ptr ty h; mret (NULL, h)
  else
    let new_size := ALIGN HEAP_ALIGNMENT new_size in
    ty ← get_ptr_type ptr h;
    match ty with
    | HEAP_POOL =>
        bh ← load h (page_of ptr);
        if new_size <=? bin_size bh then mret (ptr, h)
        else realloc_move retries fuel ptr (bin_size bh) new_size HEAP_POOL h
    | HEAP_BLOCK =>
        let curr := ptr - HEADER in
        c ← load h curr;
        if negb (magic c =? HEAP_MAGIC) then Panic "MEMORY CORRUPTION" "realloc on bad magic"
        else if size c >=? new_size then mret (ptr, h)
        else
          inplace ← (if next c =? NULL then mret None
                     else
                       nx ← load h (next c);
                       let combined := u64 (u64 (size c + HEADER) + size nx) in
                       mret (if can_absorb nx && (combined >=? new_size) then Some (nx, combined) else None));
          match inplace with
          | Some (nx, combined) => h ← expand curr c nx combined new_size h; mret (ptr, h)
          | None => realloc_move retries fuel ptr (size c) new_size HEAP_BLOCK h
          end
    | NOINFO => Panic "REALLOC ERROR" "realloc on unmanaged pointer"
    end.

(** * The zeroing variants *)

Definition zalloc (retries fuel : nat) (sz : Z) (h : heap) : result (Z * heap) :=
  '(p, h) ← malloc retries fuel sz h;
  if p =? NULL then mret (p, h) else h ← set_bytes p 0 sz h; mret (p, h).

Definition zfree (fuel : nat) (ptr : Z) (h : heap) : result heap :=
  if ptr =? NULL then mret h
  else
    ty ← get_ptr_type ptr h;
    sz ← match ty with
         | NOINFO => Panic "MEMORY CORRUPTION" "zfree on unmanaged pointer"
         | HEAP_POOL => bh ← load h (page_of ptr); mret (bin_size bh)
         | HEAP_BLOCK => b ← load h (ptr - HEADER); mret (size b)
         end;
    h ← (if sz >? 0 then set_bytes ptr 0 sz h else mret h);
    free_typed fuel ptr ty h.

Definition sfree (fuel : nat) (ptr sz : Z) (h : heap) : result heap := free fuel ptr h.
Definition szfree (fuel : nat) (ptr sz : Z) (h : heap) : result heap := zfree fuel ptr h.

End Heap.
