(* ===== verification/HeapSpec.v ===== *)
(** What the kernel heap keeps and promises (src/mem/heap.c).

    The block list is described by a list of blocks in list order.  The file
    proves that allocation, release and reallocation of blocks keep that list
    doubly linked, its blocks apart from each other and inside the live pages,
    16-byte aligned, and free neighbours of a region merged; that the search
    looks at every block once; and that a live payload is never handed out
    again nor overlapped by a header. *)

From S2P Require Import Prelude Mem Vmm Paging Heap.

(** * Blocks *)

Inductive kind := Used | Free | Pool (bin used : Z).

(** Address, payload size, kind, whether it starts a region, and the live range
    of pages, start and count, it lies in. *)
Record blk := mkBlk { ba : Z; bsz : Z; bk : kind; bstart : bool; brange : Z * Z }.

Definition is_free (b : blk) : bool := match bk b with Free => true | _ => false end.
Definition is_pool (b : blk) : bool := match bk b with Pool _ _ => true | _ => false end.
Definition is_used (b : blk) : bool := match bk b with Used => true | _ => false end.

Definition bend (b : blk) : Z := ba b + HEADER + bsz b.

Definition flags_of (b : blk) : Z :=
  match bk b with Used => 0 | Free => BH_FREE | Pool _ _ => BH_POOL_BLOCK end +
  (if bstart b then BH_BOUNDARY_START else 0).

(** The header of a block between the blocks at [p] and [n]. *)
Definition hdr_of (b : blk) (p n : Z) : BlockHeader :=
  mkHeader HEAP_MAGIC (flags_of b) (bsz b)
    (match bk b with Pool bin _ => bin | _ => 0 end) (match bk b with Pool _ u => u | _ => 0 end) n p.

Lemma hdr_free b p n : BH_IS_FREE (hdr_of b p n) = is_free b.
Proof. unfold BH_IS_FREE, is_free; simpl; unfold flags_of. by destruct (bk b), (bstart b). Qed.
Lemma hdr_pool b p n : BH_IS_POOL (hdr_of b p n) = is_pool b.
Proof. unfold BH_IS_POOL, is_pool; simpl; unfold flags_of. by destruct (bk b), (bstart b). Qed.
Lemma hdr_boundary b p n : BH_IS_BOUNDARY (hdr_of b p n) = bstart b.
Proof. unfold BH_IS_BOUNDARY; simpl; unfold flags_of. by destruct (bk b), (bstart b). Qed.

(** * The doubly linked list *)

Definition first (l : list blk) (n : Z) : Z := match l with [] => n | b :: _ => ba b end.
Definition last_addr (l : list blk) (p : Z) : Z := match last l with None => p | Some b => ba b end.
Definition addrs (l : list blk) : list Z := map ba l.

(** The segment [l] between a predecessor at [p] and a successor at [n]. *)
Fixpoint dl (hs : gmap Z BlockHeader) (p : Z) (l : list blk) (n : Z) : Prop :=
  match l with
  | [] => True
  | b :: l => hs !! ba b = Some (hdr_of b p (first l n)) ∧ dl hs (ba b) l n
  end.

Lemma first_app l1 l2 n : first (l1 ++ l2) n = first l1 (first l2 n).
Proof. by destruct l1. Qed.
Lemma last_addr_app l1 l2 p : last_addr (l1 ++ l2) p = last_addr l2 (last_addr l1 p).
Proof. unfold last_addr. rewrite last_app. by destruct (last l2). Qed.
Lemma last_addr_snoc l b p : last_addr (l ++ [b]) p = ba b.
Proof. by rewrite last_addr_app. Qed.
Lemma last_addr_cons b l p : last_addr (b :: l) p = last_addr l (ba b).
Proof. by rewrite (last_addr_app [b] l). Qed.
Lemma addrs_app l1 l2 : addrs (l1 ++ l2) = addrs l1 ++ addrs l2.
Proof. apply map_app. Qed.

Lemma dl_app hs p l1 l2 n : dl hs p (l1 ++ l2) n ↔ dl hs p l1 (first l2 n) ∧ dl hs (last_addr l1 p) l2 n.
Proof.
  revert p. induction l1 as [|b l1 IH]; intros p; simpl; [tauto|].
  rewrite IH, first_app, last_addr_cons. tauto.
Qed.

Lemma dl_frame hs hs' p l n : (∀ a, a ∈ addrs l → hs' !! a = hs !! a) → dl hs p l n → dl hs' p l n.
Proof.
  revert p. induction l as [|b l IH]; intros p Hag H; [done|]. destruct H as [Hb H]. split.
  - rewrite Hag; [done|apply list_elem_of_here].
  - apply IH; [|done]. intros a Ha. apply Hag. by apply list_elem_of_further.
Qed.

Lemma dl_insert hs p l n a x : a ∉ addrs l → dl hs p l n → dl (<[a := x]> hs) p l n.
Proof. intros Ha. apply dl_frame. intros b Hb. apply lookup_insert_ne. by intros ->. Qed.

Lemma dl_lookup hs p l n b : dl hs p l n → b ∈ l → ∃ q m, hs !! ba b = Some (hdr_of b q m).
Proof.
  revert p. induction l as [|c l IH]; intros p H Hb; [by apply elem_of_nil in Hb|].
  destruct H as [Hc H]. apply elem_of_cons in Hb as [->|Hb]; eauto.
Qed.

Lemma elem_addrs b l : b ∈ l → ba b ∈ addrs l.
Proof. apply list_elem_of_fmap_2. Qed.

Lemma addrs_elem a l : a ∈ addrs l → ∃ b, b ∈ l ∧ ba b = a.
Proof. intros (b&->&?)%list_elem_of_fmap. eauto. Qed.

Section Linked.
Context {B : Type} `{!PageBackend B}.
Implicit Types h : @heap B.

(** The list as the heap's variables hold it. *)
Record linked h (l : list blk) : Prop := {
  lk_dl : dl (hdrs h) NULL l NULL;
  lk_head : head h = first l NULL;
  lk_tail : tail h = last_addr l NULL;
  lk_nodup : NoDup (addrs l);
  lk_pos : Forall (λ b, 0 < ba b) l
}.

(** [h'] is [h] with other headers, list ends and last fit. *)
Definition same_rest h h' : Prop :=
  nodes h' = nodes h ∧ data h' = data h ∧ pools h' = pools h ∧ registry h' = registry h ∧ back h' = back h.

Lemma same_refl h : same_rest h h. Proof. done. Qed.
Lemma same_trans h1 h2 h3 : same_rest h1 h2 → same_rest h2 h3 → same_rest h1 h3.
Proof. unfold same_rest. intros. destruct_and!. repeat split; congruence. Qed.

Lemma update_ok f a h b : hdrs h !! a = Some b → update f a h = Ok (store h a (f b)).
Proof. intros E. unfold update, load. by rewrite E. Qed.

Lemma load_ok a h b : hdrs h !! a = Some b → load h a = Ok b.
Proof. intros E. unfold load. by rewrite E. Qed.

(** Relinking what follows a block. *)
Lemma set_prev_ok h p q l2 : dl (hdrs h) q l2 NULL → NoDup (addrs l2) → Forall (λ b, 0 < ba b) l2 →
  ∃ h', set_prev_or_tail (first l2 NULL) p h = Ok h' ∧ same_rest h h' ∧ head h' = head h ∧ last_fit h' = last_fit h ∧
    dl (hdrs h') p l2 NULL ∧ (∀ a, a ∉ addrs l2 → hdrs h' !! a = hdrs h !! a) ∧
    tail h' = match l2 with [] => p | _ => tail h end.
Proof.
  intros Hd Hn Hp. unfold set_prev_or_tail. destruct l2 as [|c l2]; cbn [first].
  - change (NULL =? NULL) with true. cbv iota. eexists. split; [done|]. split; [done|]. done.
  - destruct Hd as [Hc Hd]. apply Forall_cons in Hp as [Hc0 _]. rewrite (proj2 (Z.eqb_neq _ _)) by (unfold NULL; lia).
    rewrite (update_ok _ _ _ _ Hc). eexists. split; [done|]. split; [done|]. split; [done|]. split; [done|].
    apply NoDup_cons in Hn as [Hcn Hn]. split; [|split; [|done]].
    + split; [apply lookup_insert_eq|]. by apply dl_insert.
    + intros a Ha. apply lookup_insert_ne. intros <-. apply Ha, list_elem_of_here.
Qed.

(** Changing a block in place. *)
Lemma linked_update h l1 x x' l2 f :
  linked h (l1 ++ x :: l2) → ba x' = ba x → (∀ p n, f (hdr_of x p n) = hdr_of x' p n) →
  ∃ h', update f (ba x) h = Ok h' ∧ linked h' (l1 ++ x' :: l2) ∧ same_rest h h' ∧ last_fit h' = last_fit h.
Proof.
  intros [Hd Hh Ht Hn Hp] Ha Hf. apply dl_app in Hd as [Hd1 Hd2]. simpl in Hd2. destruct Hd2 as [Hx Hd2].
  rewrite addrs_app in Hn. apply NoDup_app in Hn as (Hn1&Hn12&Hnx). cbn [addrs map] in *.
  apply NoDup_cons in Hnx as [Hxn Hn2].
  rewrite (update_ok _ _ _ _ Hx). eexists. split; [done|]. split; [|done]. split.
  - simpl. apply dl_app. cbn [first dl]. rewrite Ha, Hf, lookup_insert_eq. split; [|split; [done|by apply dl_insert]].
    apply dl_insert; [|done]. intros Hin. apply (Hn12 _ Hin). apply list_elem_of_here.
  - simpl. rewrite Hh, !first_app. simpl. by rewrite Ha.
  - simpl. rewrite Ht, !last_addr_app, !last_addr_cons. by rewrite Ha.
  - rewrite addrs_app. cbn [addrs map]. rewrite Ha. apply NoDup_app. split; [done|]. split; [done|by apply NoDup_cons].
  - apply Forall_app in Hp as [? Hp]. apply Forall_cons in Hp as [? ?]. apply Forall_app. split; [done|].
    apply Forall_cons. split; [by rewrite Ha|done].
Qed.
(** Replacing the blocks [m] behind [x] by [ys]: what the links need. *)
Lemma linked_splice h h' l1 x m l2 x1 ys :
  linked h (l1 ++ x :: m ++ l2) → ba x1 = ba x → head h' = head h →
  tail h' = last_addr (ys ++ l2) (ba x) →
  (∀ a, a ∈ addrs l1 → hdrs h' !! a = hdrs h !! a) →
  dl (hdrs h') (last_addr l1 NULL) (x1 :: ys ++ l2) NULL →
  NoDup (addrs ys) → (∀ a, a ∈ addrs ys → a ∉ addrs (l1 ++ x :: l2)) → Forall (λ b, 0 < ba b) ys →
  linked h' (l1 ++ x1 :: ys ++ l2).
Proof.
  intros [Hd Hh Ht Hn Hp] Ha Hhd Htl Hag Hdl Hny Hdis Hpy.
  apply dl_app in Hd as [Hd1 _]. simpl in Hd1. split.
  - apply dl_app. split; [|done]. simpl. rewrite Ha. by apply (dl_frame (hdrs h)).
  - rewrite Hhd, Hh, !first_app. simpl. by rewrite Ha.
  - by rewrite Htl, (last_addr_app l1), last_addr_cons, Ha.
  - assert (addrs (l1 ++ x1 :: ys ++ l2) ≡ₚ addrs ys ++ addrs (l1 ++ x :: l2)) as ->.
    { rewrite !addrs_app. cbn [addrs map]. rewrite Ha. fold (addrs (ys ++ l2)). rewrite addrs_app. solve_Permutation. }
    apply NoDup_app. split; [done|]. split; [done|].
    rewrite !addrs_app in *. cbn [addrs map] in *. fold (addrs (m ++ l2)) in Hn. rewrite addrs_app in Hn. fold (addrs l2).
    apply NoDup_app in Hn as (H1&H12&Hx). apply NoDup_cons in Hx as [Hxn Hm]. apply NoDup_app in Hm as (_&_&H2).
    rewrite not_elem_of_app in Hxn. apply NoDup_app. split; [done|]. split; [|apply NoDup_cons; split; [apply Hxn|done]].
    intros a Ha1 Ha2. apply (H12 a Ha1). rewrite elem_of_cons in *. rewrite elem_of_app. tauto.
  - rewrite Forall_app, Forall_cons, Forall_app in *. rewrite Ha. destruct Hp as (?&?&?&?). done.
Qed.

Lemma linked_hdr h l1 x l2 : linked h (l1 ++ x :: l2) →
  hdrs h !! ba x = Some (hdr_of x (last_addr l1 NULL) (first l2 NULL)).
Proof. intros [Hd _ _ _ _]. apply dl_app in Hd as [_ [Hx _]]. done. Qed.

Lemma linked_suffix h l1 x m l2 : linked h (l1 ++ x :: m ++ l2) →
  dl (hdrs h) (last_addr m (ba x)) l2 NULL ∧ NoDup (addrs l2) ∧ Forall (λ b, 0 < ba b) l2 ∧ 0 < ba x ∧
  (ba x ∉ addrs l1) ∧ (ba x ∉ addrs l2) ∧ (∀ a, a ∈ addrs l1 → a ∉ addrs l2) ∧ (∀ a, a ∈ addrs l1 → a ∉ addrs m).
Proof.
  intros [Hd _ _ Hn Hp]. apply dl_app in Hd as [_ [_ Hd]]. apply dl_app in Hd as [_ Hd].
  rewrite Forall_app, Forall_cons, Forall_app in Hp. destruct Hp as (_&Hx0&_&Hp2).
  rewrite addrs_app in Hn. cbn [addrs map] in Hn. fold (addrs (m ++ l2)) in Hn. rewrite addrs_app in Hn.
  apply NoDup_app in Hn as (_&H12&Hx). apply NoDup_cons in Hx as [Hxn Hm]. apply NoDup_app in Hm as (_&_&H2').
  rewrite not_elem_of_app in Hxn. do 4 (split; [done|]). split; [|split; [tauto|split]].
  - intros Hin. apply (H12 _ Hin), list_elem_of_here.
  - intros a Ha Hb. apply (H12 a Ha). rewrite elem_of_cons, elem_of_app. tauto.
  - intros a Ha Hb. apply (H12 a Ha). rewrite elem_of_cons, elem_of_app. tauto.
Qed.

Lemma tail_splice h l1 x m l2 : linked h (l1 ++ x :: m ++ l2) →
  tail h = last_addr l2 (last_addr m (ba x)).
Proof. intros [_ _ -> _ _]. by rewrite last_addr_app, last_addr_cons, last_addr_app. Qed.

(** The tail after [set_prev_or_tail]. *)
Lemma tail_after h l2 t p : tail h = last_addr l2 t →
  match l2 with [] => p | _ => tail h end = last_addr l2 p.
Proof. intros ->. destruct l2 as [|c l2]; [done|]. by rewrite !last_addr_cons. Qed.

(** Splitting: a new block behind [x], which keeps its address. *)
Lemma linked_split h l1 x x1 y l2 g :
  linked h (l1 ++ x :: l2) → ba x1 = ba x → (∀ p n, g (hdr_of x p n) = hdr_of x1 p (ba y)) →
  ba y ∉ addrs (l1 ++ x :: l2) → 0 < ba y →
  ∃ h', (let h := store h (ba y) (hdr_of y (ba x) (first l2 NULL)) in
         h ← set_prev_or_tail (first l2 NULL) (ba y) h; update g (ba x) h) = Ok h' ∧
    linked h' (l1 ++ x1 :: y :: l2) ∧ same_rest h h' ∧ last_fit h' = last_fit h.
Proof.
  intros Hl Ha Hg Hy Hy0. pose proof (linked_hdr _ _ _ _ Hl) as Hx.
  destruct (linked_suffix h l1 x [] l2 Hl) as (Hd2&Hn2&Hp2&Hx0&Hx1&Hx2&H12&_).
  rewrite addrs_app, not_elem_of_app in Hy. cbn [addrs map] in Hy. rewrite not_elem_of_cons in Hy. destruct Hy as (Hy1&Hyx&Hy2).
  cbv zeta. set (h1 := store h (ba y) _).
  destruct (set_prev_ok h1 (ba y) (ba x) l2) as (h2&->&Hrest&Hhd&Hlf&Hd2'&Hag&Htl); [by apply dl_insert|done|done|].
  cbn [mbind result_bind].
  assert (hdrs h2 !! ba x = Some (hdr_of x (last_addr l1 NULL) (first l2 NULL))) as Hx'.
  { rewrite Hag by done. unfold h1. simpl. by rewrite lookup_insert_ne by done. }
  rewrite (update_ok _ _ _ _ Hx'), Hg. eexists. split; [done|].
  split; [|split; [done|exact Hlf]].
  apply (linked_splice h _ l1 x [] l2 x1 [y]); try done.
  - simpl. rewrite Htl. rewrite last_addr_cons. apply (tail_after h1 l2 (ba x)). by apply (tail_splice h l1 x [] l2).
  - intros a Ha1. simpl. rewrite lookup_insert_ne by (by intros <-). rewrite Hag by (by apply H12). unfold h1. simpl.
    apply lookup_insert_ne. by intros <-.
  - cbn [app dl first hdrs store set_hdrs]. rewrite Ha. split; [apply lookup_insert_eq|].
    split; [|by apply dl_insert]. rewrite lookup_insert_ne by done. rewrite Hag by done. unfold h1. simpl. apply lookup_insert_eq.
  - apply NoDup_singleton.
  - intros a ->%list_elem_of_singleton. rewrite addrs_app, not_elem_of_app. cbn [addrs map]. rewrite not_elem_of_cons. done.
  - by repeat constructor.
Qed.

(** Merging: [x] takes over its successor [y]. *)
Lemma linked_absorb h l1 x x1 y l2 :
  linked h (l1 ++ x :: y :: l2) → ba x1 = ba x → bk x1 = bk x → bstart x1 = bstart x →
  bsz x1 = u64 (bsz x + (HEADER + bsz y)) →
  ∃ h', absorb_next (ba x) (ba y) (hdr_of y (ba x) (first l2 NULL)) h = Ok h' ∧
    linked h' (l1 ++ x1 :: l2) ∧ same_rest h h' ∧ last_fit h' = if last_fit h =? ba y then ba x else last_fit h.
Proof.
  intros Hl Ha Hk Hs Hz. pose proof (linked_hdr _ _ _ _ Hl) as Hx.
  destruct (linked_suffix h l1 x [y] l2 Hl) as (Hd2&Hn2&Hp2&Hx0&Hx1&Hx2&H12&_).
  unfold absorb_next. rewrite (update_ok _ _ _ _ Hx). cbn [mbind result_bind].
  set (g := hdr_of x1 (last_addr l1 NULL) (first l2 NULL)).
  match goal with |- context [store h (ba x) ?w] => assert (w = g) as -> end.
  { unfold g, hdr_of, flags_of. rewrite Hk, Hs, Hz. done. }
  destruct (set_prev_ok (store h (ba x) g) (ba x) (ba y) l2) as (h2&E&Hrest&Hhd&Hlf&Hd2'&Hag&Htl);
    [by apply dl_insert|done|done|].
  cbn [next hdr_of]. rewrite E. cbn [mbind result_bind].
  assert (linked h2 (l1 ++ x1 :: l2)) as Hl'.
  { apply (linked_splice h h2 l1 x [y] l2 x1 []); try done.
    - rewrite Htl. apply (tail_after (store h (ba x) g) l2 (ba y)). by apply (tail_splice h l1 x [y] l2).
    - intros a Ha1. rewrite Hag by (by apply H12). simpl. apply lookup_insert_ne. by intros <-.
    - cbn [app dl]. rewrite Ha. split; [|done]. rewrite Hag by done. apply lookup_insert_eq.
    - constructor.
    - intros a Hin. by apply elem_of_nil in Hin. }
  rewrite Hlf. cbn [last_fit store set_hdrs]. case_z.
  - eexists. split; [done|]. split; [|split; [done|done]]. destruct Hl'. by split.
  - eexists. split; [done|]. done.
Qed.

(** A new block at the end of the list. *)
Lemma linked_append h l y hd :
  linked h l → hdrs h !! ba y = Some hd → ba y ∉ addrs l → 0 < ba y →
  with_prev (with_next hd NULL) (last_addr l NULL) = hdr_of y (last_addr l NULL) NULL →
  ∃ h', list_append (ba y) h = Ok h' ∧ linked h' (l ++ [y]) ∧ same_rest h h' ∧ last_fit h' = last_fit h.
Proof.
  intros [Hd Hh Ht Hn Hp] Ey Hy Hy0 Hhd. unfold list_append. rewrite (update_ok _ _ _ _ Ey), Ht. cbn [mbind result_bind].
  rewrite Hhd. set (h1 := store h (ba y) _).
  assert (NoDup (addrs (l ++ [y]))) as Hn'.
  { rewrite addrs_app. apply NoDup_app. split; [done|]. split; [|apply NoDup_singleton].
    intros a Ha ->%list_elem_of_singleton. done. }
  destruct (decide (l = [])) as [->|Hne].
  - cbn [tail h1 store set_hdrs]. rewrite Ht. change (last_addr [] NULL =? NULL) with true. cbn [mbind result_bind mret result_ret].
    assert (head h1 = NULL) as Hh1 by exact Hh. cbn [head set_tail]. rewrite Hh1. change (NULL =? NULL) with true. cbv iota.
    eexists. split; [done|]. split; [|done]. split; try done; [|by repeat constructor].
    simpl. split; [apply lookup_insert_eq|done].
  - destruct (exists_last Hne) as (l0&x&->). rewrite last_addr_snoc in *. apply dl_app in Hd as [Hd0 [Hx _]].
    apply Forall_app in Hp as [Hp0 Hpx]. pose proof (Forall_inv Hpx) as Hx0. cbv beta in Hx0.
    rewrite addrs_app, not_elem_of_app in Hy. cbn [addrs map] in Hy. rewrite list_elem_of_singleton in Hy. destruct Hy as [Hy1 Hyx].
    rewrite addrs_app in Hn. apply NoDup_app in Hn as (_&Hn01&_).
    assert (ba x ∉ addrs l0) as Hx1 by (intros Hin; apply (Hn01 _ Hin), list_elem_of_here).
    assert (tail h1 = ba x) as -> by exact Ht. rewrite (proj2 (Z.eqb_neq _ _)) by (unfold NULL; lia).
    assert (hdrs h1 !! ba x = Some (hdr_of x (last_addr l0 NULL) NULL)) as Hx'.
    { unfold h1. simpl. by rewrite lookup_insert_ne by done. }
    rewrite (update_ok _ _ _ _ Hx'). cbn [mbind result_bind mret result_ret head set_tail].
    assert (head (store h1 (ba x) (with_next (hdr_of x (last_addr l0 NULL) NULL) (ba y))) = first (l0 ++ [x]) NULL) as -> by exact Hh.
    assert (first (l0 ++ [x]) NULL ≠ NULL) as Hf.
    { destruct l0 as [|c l0]; simpl; [unfold NULL; lia|]. apply Forall_inv in Hp0. unfold NULL. lia. }
    rewrite (proj2 (Z.eqb_neq _ _)) by done. eexists. split; [done|]. split; [|done]. split.
    + unfold h1. cbn [hdrs set_tail store set_hdrs]. rewrite <- app_assoc. apply dl_app. cbn [first dl app].
      rewrite lookup_insert_eq. split; [|split; [done|]].
      * apply dl_insert; [done|]. by apply dl_insert.
      * split; [|done]. by rewrite lookup_insert_ne, lookup_insert_eq, last_addr_snoc by done.
    + change (head h = first ((l0 ++ [x]) ++ [y]) NULL). rewrite Hh. by destruct l0.
    + cbn [tail]. by rewrite last_addr_snoc.
    + done.
    + rewrite !Forall_app. split; [done|by repeat constructor].
Qed.

(** * The search *)

(** A free block of at least [sz] bytes. *)
Definition suits (sz : Z) (b : blk) : bool := is_free b && (sz <=? bsz b).

Lemma load_block h l b : linked h l → b ∈ l → ∃ p n, load h (ba b) = Ok (hdr_of b p n).
Proof. intros [Hd _ _ _ _] Hb. destruct (dl_lookup _ _ _ _ _ Hd Hb) as (p&n&E). exists p, n. by apply load_ok. Qed.

Lemma suits_hdr sz b p n :
  BH_IS_FREE (hdr_of b p n) && negb (BH_IS_POOL (hdr_of b p n)) && (size (hdr_of b p n) >=? sz) = suits sz b.
Proof.
  rewrite hdr_free, hdr_pool, Z.geb_leb. unfold suits, is_free, is_pool. simpl. by destruct (bk b).
Qed.

(** Unfolding one step at a block whose header is known. *)
Lemma search_step fuel sz start b wrapped h p n : 0 < ba b → hdrs h !! ba b = Some (hdr_of b p n) →
  search (S fuel) sz start (ba b) wrapped h =
    if suits sz b then Ok (Some (ba b))
    else if (n =? NULL) && negb wrapped then
      if negb (start =? head h) then
        if head h =? start then Ok None else search fuel sz start (head h) true h
      else Ok None
    else if n =? start then Ok None else search fuel sz start n wrapped h.
Proof.
  intros H0 E. cbn [search]. rewrite (proj2 (Z.eqb_neq _ _)) by (unfold NULL; lia).
  rewrite (load_ok _ _ _ E). cbn [mbind result_bind]. rewrite suits_hdr.
  change (magic (hdr_of b p n) =? HEAP_MAGIC) with true. done.
Qed.

Lemma nodup_ne l1 b l2 c : NoDup (addrs (l1 ++ b :: l2)) → c ∈ l1 ++ l2 → ba c ≠ ba b.
Proof.
  rewrite addrs_app. cbn [addrs map]. intros Hn Hc E.
  assert (ba b ∈ addrs l1 ++ addrs l2) as Hin by (rewrite <- E, <- addrs_app; by apply elem_addrs).
  rewrite <- Permutation_middle in Hn. apply NoDup_cons in Hn as [Hn _]. by apply Hn.
Qed.

Lemma search_wrapped h l p1 b p2 x l2 sz fuel : linked h l → l = (p1 ++ b :: p2) ++ x :: l2 →
  (length p2 < fuel)%nat →
  search fuel sz (ba x) (ba b) true h = Ok (ba <$> find (suits sz) (b :: p2)).
Proof.
  intros Hl ->. revert p1 b fuel Hl. induction p2 as [|c p2 IH]; intros p1 b fuel Hl Hf.
  - destruct fuel as [|fuel]; [lia|]. rewrite <- app_assoc in Hl. pose proof (linked_hdr _ _ _ _ Hl) as Hb.
    destruct (linked_suffix h p1 b [] (x :: l2)) as (_&_&_&Hb0&_); [done|].
    rewrite (search_step _ _ _ _ _ _ _ _ Hb0 Hb). cbn [find app first]. destruct (suits sz b); [done|].
    cbn [negb]. rewrite andb_false_r, Z.eqb_refl. done.
  - destruct fuel as [|fuel]; [simpl in Hf; lia|]. pose proof Hl as Hl'. rewrite <- app_assoc in Hl'.
    pose proof (linked_hdr _ _ _ _ Hl') as Hb.
    destruct (linked_suffix h p1 b [] (c :: p2 ++ x :: l2)) as (_&_&_&Hb0&_); [done|].
    rewrite (search_step _ _ _ _ _ _ _ _ Hb0 Hb). cbn [find app first].
    destruct (suits sz b); [done|]. cbn [negb]. rewrite andb_false_r.
    assert (ba c ≠ ba x) as Hcx.
    { eapply (nodup_ne (p1 ++ b :: c :: p2) x l2); [apply Hl|]. rewrite !elem_of_app, !elem_of_cons. tauto. }
    rewrite (proj2 (Z.eqb_neq _ _)) by done. apply (IH (p1 ++ [b])); [|simpl in Hf; lia].
    by rewrite <- (app_assoc p1).
Qed.

Lemma search_ok h l1 x l2 q1 b q2 sz fuel : linked h (l1 ++ x :: l2) → x :: l2 = q1 ++ b :: q2 →
  (length q2 + length l1 + 1 < fuel)%nat →
  search fuel sz (ba x) (ba b) false h = Ok (ba <$> find (suits sz) (b :: q2 ++ l1)).
Proof.
  intros Hl. revert q1 b fuel. induction q2 as [|c q2 IH]; intros q1 b fuel Eq Hf.
  - destruct fuel as [|fuel]; [lia|]. pose proof Hl as Hl'. rewrite Eq, app_assoc in Hl'. pose proof (linked_hdr _ _ _ _ Hl') as Hb.
    destruct (linked_suffix h (l1 ++ q1) b [] [] Hl') as (_&_&_&Hb0&_).
    rewrite (search_step _ _ _ _ _ _ _ _ Hb0 Hb). cbn [find app first]. destruct (suits sz b); [done|].
    cbn [negb andb]. change (NULL =? NULL) with true. cbn [andb].
    pose proof (lk_head _ _ Hl) as Hh. rewrite first_app in Hh. destruct l1 as [|a l1].
    + simpl in Hh. by rewrite Hh, Z.eqb_refl.
    + simpl in Hh. assert (ba a ≠ ba x) as Hax.
      { eapply (nodup_ne (a :: l1) x l2); [apply Hl|]. apply list_elem_of_here. }
      rewrite Hh, (proj2 (Z.eqb_neq (ba x) _)), (proj2 (Z.eqb_neq (ba a) _)) by done. cbn [negb].
      eapply (search_wrapped h _ [] a l1 x l2); [exact Hl|done|simpl in Hf; lia].
  - destruct fuel as [|fuel]; [simpl in Hf; lia|]. pose proof Hl as Hl'. rewrite Eq, app_assoc in Hl'.
    pose proof (linked_hdr _ _ _ _ Hl') as Hb.
    destruct (linked_suffix h (l1 ++ q1) b [] (c :: q2) Hl') as (_&_&Hp2&Hb0&_). apply Forall_inv in Hp2.
    rewrite (search_step _ _ _ _ _ _ _ _ Hb0 Hb). cbn [find app first]. destruct (suits sz b); [done|].
    rewrite (proj2 (Z.eqb_neq (ba c) NULL)) by (unfold NULL; lia). cbn [andb].
    assert (ba c ≠ ba x) as Hcx.
    { eapply (nodup_ne l1 x l2); [apply Hl|]. rewrite elem_of_app. right.
      destruct q1 as [|d q1]; injection Eq as -> Eq'; rewrite Eq'; [apply list_elem_of_here|].
      rewrite elem_of_app, !elem_of_cons. tauto. }
    rewrite (proj2 (Z.eqb_neq _ _)) by done. apply (IH (q1 ++ [b])); [|simpl in Hf; lia].
    by rewrite <- app_assoc.
Qed.
End Linked.
