(* ===== verification/HeapInv.v ===== *)
(** The invariant of the kernel heap and its operations (src/mem/heap.c).

    [heap_ok] joins the doubly linked list of HeapSpec.v with the geometry of
    the blocks: aligned, apart, inside live pages, adjacent in memory where the
    list says so, no two free neighbours.  Allocation, release and reallocation
    of blocks keep it, for every backend that keeps its laws. *)

From S2P Require Import Prelude Mem Vmm Paging Heap HeapSpec.

(** * Geometry *)

Definition apart (b c : blk) : Prop := bend b <= ba c ∨ bend c <= ba b.

(** A range of [n] pages at [v], in the kernel half. *)
Definition range_ok (r : Z * Z) : Prop :=
  2 ^ 64 - 2 ^ 56 <= r.1 ∧ 0 < r.2 ∧ r.1 + r.2 * PAGE_SIZE < 2 ^ 64 ∧ (PAGE_SIZE | r.1).

Definition inside (b : blk) (r : Z * Z) : Prop := r.1 <= ba b ∧ bend b <= r.1 + r.2 * PAGE_SIZE.

Definition ranges_apart (r s : Z * Z) : Prop := r.1 + r.2 * PAGE_SIZE <= s.1 ∨ s.1 + s.2 * PAGE_SIZE <= r.1.

Definition fresh (R : list (Z * Z)) (r : Z * Z) : Prop := range_ok r ∧ ∀ s, s ∈ R → ranges_apart r s.

Record blk_ok (R : list (Z * Z)) (b : blk) : Prop := {
  bo_align : (16 | ba b) ∧ (16 | bsz b);
  bo_size : 16 <= bsz b;
  bo_in : brange b ∈ R ∧ inside b (brange b);
  bo_pool : is_pool b = true → brange b = (ba b, 1) ∧ bsz b = PAGE_SIZE - HEADER ∧ bstart b = false
}.

(** Consecutive blocks: unless the second starts a region or a pool page, it
    lies behind the first in the same range. *)
Definition adj (b c : blk) : Prop :=
  bstart c = false → is_pool c = false → is_pool b = false ∧ ba c = bend b ∧ brange c = brange b.

(** No two free neighbours. *)
Definition merged (b c : blk) : Prop := is_free b = true → is_free c = true → bstart c = true.

Fixpoint consecutive (P : blk → blk → Prop) (l : list blk) : Prop :=
  match l with
  | b :: (c :: _) as l' => P b c ∧ consecutive P l'
  | _ => True
  end.

Lemma consecutive_app P l1 x l2 : consecutive P (l1 ++ x :: l2) ↔ consecutive P (l1 ++ [x]) ∧ consecutive P (x :: l2).
Proof.
  induction l1 as [|b l1 IH]; [simpl; tauto|]. destruct l1 as [|c l1]; simpl in *; tauto.
Qed.

Lemma consecutive_cons P x l2 : consecutive P (x :: l2) ↔ consecutive P l2 ∧ match l2 with [] => True | c :: _ => P x c end.
Proof. destruct l2; simpl; tauto. Qed.

Lemma consecutive_snoc P l1 x : consecutive P (l1 ++ [x]) ↔ consecutive P l1 ∧ match last l1 with None => True | Some b => P b x end.
Proof.
  induction l1 as [|b l1 IH]; [simpl; tauto|]. destruct l1 as [|c l1]; [simpl; tauto|].
  rewrite last_cons_cons. cbn [app consecutive] in *. rewrite IH. tauto.
Qed.

(** Replacing a middle part: what the links at its ends need. *)
Lemma consecutive_middle P l1 x l2 :
  consecutive P (l1 ++ x :: l2) ↔
    consecutive P l1 ∧ match last l1 with None => True | Some b => P b x end ∧
    match l2 with [] => True | c :: _ => P x c end ∧ consecutive P l2.
Proof. rewrite consecutive_app, consecutive_snoc, consecutive_cons. tauto. Qed.

Record geometry (R : list (Z * Z)) (l : list blk) : Prop := {
  ge_blk b : b ∈ l → blk_ok R b;
  ge_apart b c : b ∈ l → c ∈ l → ba b ≠ ba c → apart b c;
  ge_adj : consecutive adj l
}.

Lemma blk_range R b : blk_ok R b → Forall range_ok R →
  2 ^ 64 - 2 ^ 56 <= ba b ∧ ba b + HEADER < bend b ∧ bend b < 2 ^ 64.
Proof.
  intros [_ Hs [Hr Hin] _] HR. rewrite Forall_forall in HR. destruct (HR _ Hr) as (?&_&?&_), Hin.
  unfold bend, HEADER in *. lia.
Qed.

(** Shrinking a block, its rest becoming a free block behind it. *)
Lemma blk_ok_part R x b : blk_ok R x → is_pool b = false → (16 | ba b) → (16 | bsz b) → 16 <= bsz b →
  ba x <= ba b → bend b <= bend x → brange b = brange x → blk_ok R b.
Proof.
  intros [_ _ [Hr Hi] _] Hp ????? E. split; [done|done| |by rewrite Hp].
  rewrite E. split; [done|]. destruct Hi. unfold inside. lia.
Qed.

(** Blocks of the middle part replaced by others inside the same bytes. *)
Lemma geometry_splice R l1 m l2 ys :
  geometry R (l1 ++ m ++ l2) → NoDup (addrs (l1 ++ m ++ l2)) →
  (∀ y, y ∈ ys → blk_ok R y) →
  (∀ y z, y ∈ ys → z ∈ ys → ba y ≠ ba z → apart y z) →
  (∀ y c, y ∈ ys → blk_ok R c → (∀ x, x ∈ m → apart x c) → apart y c) →
  consecutive adj (l1 ++ ys ++ l2) →
  geometry R (l1 ++ ys ++ l2).
Proof.
  intros [Hb Ha _] Hn Hy Hyy Hyc Hadj.
  assert (∀ c x, c ∈ l1 ++ l2 → x ∈ m → ba c ≠ ba x) as Hne.
  { intros c x Hc Hx E. rewrite !addrs_app in Hn. rewrite (Permutation_app_comm (addrs m)), app_assoc in Hn.
    apply NoDup_app in Hn as (_&Hd&_). apply (Hd (ba c)); [rewrite <- addrs_app; by apply elem_addrs|].
    rewrite E. by apply elem_addrs. }
  assert (∀ c, c ∈ l1 ++ l2 → c ∈ l1 ++ m ++ l2) as Hup by (intros c; rewrite !elem_of_app; tauto).
  assert (∀ x, x ∈ m → x ∈ l1 ++ m ++ l2) as Hupm by (intros c; rewrite !elem_of_app; tauto).
  assert (∀ y c, y ∈ ys → c ∈ l1 ++ l2 → apart y c) as Hside.
  { intros y c Hy1 Hc. apply Hyc; [done|by apply Hb, Hup|]. intros x Hx. apply Ha; [by apply Hupm|by apply Hup|]. intros E. by apply (Hne c x). }
  assert (∀ c, c ∈ l1 ++ ys ++ l2 → c ∈ ys ∨ c ∈ l1 ++ l2) as Hcase by (intros c; rewrite !elem_of_app; tauto).
  split; [|  |done].
  - intros b [Hin|Hin]%Hcase; auto.
  - intros b c [Hb1|Hb1]%Hcase [Hc1|Hc1]%Hcase Hbc; auto.
    apply or_comm. apply (Hside c b); done.
Qed.

(** * The live payloads *)

Definition live (l : list blk) : list (Z * Z) :=
  flat_map (λ b, if is_used b then [(ba b + HEADER, bsz b)] else []) l.

Lemma live_app l1 l2 : live (l1 ++ l2) = live l1 ++ live l2.
Proof. apply flat_map_app. Qed.

Lemma live_elem p s l : (p, s) ∈ live l ↔ ∃ b, b ∈ l ∧ is_used b = true ∧ p = ba b + HEADER ∧ s = bsz b.
Proof.
  unfold live. rewrite list_elem_of_In, in_flat_map. split.
  - intros (b&Hb&Hin). exists b. rewrite list_elem_of_In. destruct (is_used b); [|done].
    destruct Hin as [[= <- <-]|[]]. done.
  - intros (b&Hb&Hu&->&->). exists b. rewrite <- list_elem_of_In, Hu. split; [done|by left].
Qed.

(** * The backend's laws

    Pages and ranges may run out; frames for page tables are always there. *)

Class BackendLaws (B : Type) `{!PageBackend B} := {
  be_ok : B → list (Z * Z) → Prop;
  be_alloc b R n : be_ok b R → 0 < n → ∃ p b', pma_alloc_pages b n = Ok (p, b') ∧ be_ok b' R ∧
    (p = 0 ∨ 0 < p ∧ p + n * PAGE_SIZE <= 2 ^ 48);
  be_alloc_2mb b R n : be_ok b R → 0 < n → ∃ p b', pma_alloc_pages_2mb b n = Ok (p, b') ∧ be_ok b' R ∧
    (p = 0 ∨ 0 < p ∧ p + n * PAGE_SIZE_2MB <= 2 ^ 48);
  be_valloc b R n align : be_ok b R → 0 < n < 2 ^ 36 → align = PAGE_SIZE ∨ align = PAGE_SIZE_2MB →
    (∃ v b', vmm_alloc_aligned b n align = Ok (v, b') ∧ fresh R (v, n) ∧ be_ok b' ((v, n) :: R)) ∨
    ∃ t m, vmm_alloc_aligned b n align = Panic t m;
  be_map b R v n k p f : be_ok b R → (v, n) ∈ R → 0 <= k < n → 0 < p <= 2 ^ 48 →
    ∃ b', map_page b (v + k * PAGE_SIZE) p f = Ok b' ∧ mapped b' (v + k * PAGE_SIZE) = true ∧ be_ok b' R;
  be_map_2mb b R v n k p f : be_ok b R → (v, n) ∈ R → 0 <= k * PAGES_2MB < n → 0 < p <= 2 ^ 48 →
    ∃ b', map_2mb b (v + k * PAGE_SIZE_2MB) p f = Ok b' ∧ mapped b' (v + k * PAGE_SIZE_2MB) = true ∧ be_ok b' R
}.

Section Invariant.
Context {B : Type} `{!PageBackend B, !BackendLaws B}.
Implicit Types h : @heap B.

(** The heap [h] holds the blocks [l], of which [M] is known, in the live ranges
    [R]. *)
Record heap_rel (M : list blk → Prop) h (l : list blk) (R : list (Z * Z)) : Prop := {
  ho_linked : linked h l;
  ho_geo : geometry R l;
  ho_merged : M l;
  ho_ranges : Forall range_ok R;
  ho_ne : l ≠ [];
  ho_fit : last_fit h = NULL ∨ last_fit h ∈ addrs l;
  ho_reg p : p ∈ registry h → ∃ b, b ∈ l ∧ is_pool b = true ∧ ba b = p;
  ho_back : be_ok (back h) R
}.
#[global] Arguments ho_linked {M}.
#[global] Arguments ho_geo {M}.
#[global] Arguments ho_merged {M}.
#[global] Arguments ho_ranges {M}.
#[global] Arguments ho_ne {M}.
#[global] Arguments ho_fit {M}.
#[global] Arguments ho_reg {M}.
#[global] Arguments ho_back {M}.

(** The invariant, and what is left of it between the steps of a release. *)
Definition heap_ok := heap_rel (consecutive merged).
Definition heap_shape := heap_rel (λ _, True).

Lemma ho_in M h l R b : heap_rel M h l R → b ∈ l →
  2 ^ 64 - 2 ^ 56 <= ba b ∧ ba b + HEADER < bend b ∧ bend b < 2 ^ 64.
Proof. intros H Hb. eapply blk_range; [by apply (ho_geo _ _ _ H)|apply H]. Qed.

(** Where the search starts: at a block of the list. *)
Lemma search_start h l R : heap_ok h l R →
  ∃ l1 x l2, l = l1 ++ x :: l2 ∧ (if last_fit h =? NULL then head h else last_fit h) = ba x.
Proof.
  intros H. destruct (ho_fit _ _ _ H) as [->|Hf].
  - change (NULL =? NULL) with true. cbv iota. rewrite (lk_head _ _ (ho_linked _ _ _ H)).
    pose proof (ho_ne _ _ _ H). destruct l as [|x l]; [done|]. by exists [], x, l.
  - apply addrs_elem in Hf as (x&Hx&E). pose proof (ho_in _ _ _ _ _ H Hx).
    rewrite <- E, (proj2 (Z.eqb_neq _ _)) by (unfold NULL; lia).
    apply list_elem_of_split in Hx as (l1&l2&->). by exists l1, x, l2.
Qed.

(** The search finds a free block that is large enough whenever there is
    one. *)
Lemma search_total h l R sz fuel : heap_ok h l R → (length l + 1 < fuel)%nat →
  let start := if last_fit h =? NULL then head h else last_fit h in
  (∃ l1 x l2, l = l1 ++ x :: l2 ∧ suits sz x = true ∧ search fuel sz start start false h = Ok (Some (ba x))) ∨
  ((∀ b, b ∈ l → suits sz b = false) ∧ search fuel sz start start false h = Ok None).
Proof.
  intros H Hf start. destruct (search_start h l R H) as (l1&x&l2&->&Es). fold start in Es. rewrite Es.
  rewrite length_app in Hf. simpl in Hf.
  rewrite (search_ok h l1 x l2 [] x l2) by (apply H || done || lia).
  destruct (find (suits sz) (x :: l2 ++ l1)) as [b|] eqn:E.
  - left. apply find_some in E as [Hin Hs]. assert (b ∈ l1 ++ x :: l2) as Hb.
    { apply list_elem_of_In in Hin. rewrite elem_of_cons, elem_of_app in Hin. rewrite elem_of_app, elem_of_cons. tauto. }
    apply list_elem_of_split in Hb as (k1&k2&E). exists k1, b, k2. done.
  - right. split; [|done]. intros b Hb. apply (find_none _ _ E). apply list_elem_of_In.
    rewrite elem_of_app, elem_of_cons in Hb. rewrite elem_of_cons, elem_of_app. tauto.
Qed.

(** Replacing [m] by [ys], the list operation given. *)
Lemma heap_ok_splice M M' h h' l1 m l2 ys R :
  heap_rel M h (l1 ++ m ++ l2) R → linked h' (l1 ++ ys ++ l2) → same_rest h h' →
  geometry R (l1 ++ ys ++ l2) → M' (l1 ++ ys ++ l2) → ys ≠ [] →
  (∀ x, x ∈ m → is_pool x = false) → (last_fit h' = NULL ∨ last_fit h' ∈ addrs (l1 ++ ys ++ l2)) →
  heap_rel M' h' (l1 ++ ys ++ l2) R.
Proof.
  intros [] Hl (_&_&_&Hreg&Hback) Hg Hm Hne Hp Hf. split; try done.
  - destruct l1; [by destruct ys|done].
  - intros p Hp1. rewrite Hreg in Hp1. destruct (ho_reg0 p Hp1) as (b&Hb&Hpb&Hpa). exists b. split; [|done].
    rewrite !elem_of_app in *. destruct Hb as [|[Hb|]]; [tauto| |tauto]. by rewrite Hp in Hpb.
  - by rewrite Hback.
Qed.

(** * Taking a block *)

Definition with_kind (b : blk) (k : kind) : blk := mkBlk (ba b) (bsz b) k (bstart b) (brange b).

Lemma clr_free_hdr x p n : is_free x = true → BH_CLR_FREE (hdr_of x p n) = hdr_of (with_kind x Used) p n.
Proof.
  intros Hf. destruct x as [a z k st]. unfold is_free in Hf. simpl in Hf. destruct k; try done. by destruct st.
Qed.

Lemma set_free_hdr x p n : is_used x = true → BH_SET_FREE (hdr_of x p n) = hdr_of (with_kind x Free) p n.
Proof.
  intros Hf. destruct x as [a z k st]. unfold is_used in Hf. simpl in Hf. destruct k; try done. by destruct st.
Qed.

(** An address inside a block is no other block's address. *)
Lemma inner_fresh M h l1 x l2 R a : heap_rel M h (l1 ++ x :: l2) R → ba x < a < bend x → a ∉ addrs (l1 ++ x :: l2).
Proof.
  intros H Ha (c&Hc&E)%addrs_elem. assert (x ∈ l1 ++ x :: l2) as Hx by (rewrite elem_of_app, elem_of_cons; tauto).
  pose proof (ho_in _ _ _ _ _ H Hc). assert (ba x ≠ ba c) as Hne by lia.
  destruct (ge_apart _ _ (ho_geo _ _ _ H) x c Hx Hc Hne); unfold HEADER in *; lia.
Qed.

(** The two parts of a split block. *)
Definition front (x : blk) (sz : Z) (k : kind) : blk := mkBlk (ba x) sz k (bstart x) (brange x).
Definition rest (x : blk) (sz : Z) : blk := mkBlk (ba x + HEADER + sz) (bsz x - sz - HEADER) Free false (brange x).

Lemma geometry_split R l1 x l2 sz k :
  geometry R (l1 ++ x :: l2) → NoDup (addrs (l1 ++ x :: l2)) → is_pool x = false → is_pool (front x sz k) = false →
  (16 | sz) → 16 <= sz → sz + HEADER + MIN_SPLIT_SIZE <= bsz x →
  geometry R (l1 ++ [front x sz k; rest x sz] ++ l2).
Proof.
  intros Hg Hn Hp Hpk Hsz Hs1 Hs2. unfold MIN_SPLIT_SIZE in Hs2.
  assert (x ∈ l1 ++ x :: l2) as Hx by (rewrite elem_of_app, elem_of_cons; tauto).
  pose proof (ge_blk _ _ Hg x Hx) as Hbo. pose proof (bo_align _ _ Hbo) as [Ha Hz].
  assert ((16 | HEADER)) as H48 by (by exists 3).
  assert (bend (front x sz k) = ba (rest x sz) ∧ bend (rest x sz) = bend x ∧ ba x < ba (rest x sz)) as (E1&E2&E3).
  { unfold bend, front, rest, HEADER in *. simpl. lia. }
  apply (geometry_splice R l1 [x] l2); try done.
  - intros y Hy. rewrite !elem_of_cons, elem_of_nil in Hy. destruct Hy as [->|[->|[]]].
    + apply (blk_ok_part R x); try done. unfold bend, front, HEADER in *. simpl. lia.
    + apply (blk_ok_part R x); try done.
      * unfold rest. simpl. by apply Z.divide_add_r; [apply Z.divide_add_r|].
      * unfold rest. simpl. by apply Z.divide_sub_r; [apply Z.divide_sub_r|].
      * unfold rest, HEADER in *. simpl. lia.
      * lia.
      * lia.
  - intros y z Hy Hz' Hne. rewrite !elem_of_cons, elem_of_nil in Hy, Hz'. unfold apart.
    destruct Hy as [->|[->|[]]], Hz' as [->|[->|[]]]; try done; rewrite E1; lia.
  - intros y c Hy _ Hc. specialize (Hc x (list_elem_of_here _ _)). unfold apart in *.
    rewrite !elem_of_cons, elem_of_nil in Hy. destruct Hy as [->|[->|[]]].
    + rewrite E1. change (ba (front x sz k)) with (ba x). unfold bend, rest, HEADER in *. simpl. lia.
    + rewrite E2. lia.
  - pose proof (ge_adj _ _ Hg) as Hadj. apply consecutive_middle in Hadj as (H1&Hl&Hr&H2).
    apply consecutive_middle. split; [done|].
    split; [destruct (last l1); [|done]; intros Hs _; by apply Hl|]. split; [by unfold adj; rewrite E1|].
    apply consecutive_cons. split; [done|]. destruct l2 as [|c l2]; [done|].
    intros Hc1 Hc2. destruct (Hr Hc1 Hc2) as (_&->&->). by rewrite E2.
Qed.

Lemma geometry_kind R l1 x l2 k :
  geometry R (l1 ++ x :: l2) → NoDup (addrs (l1 ++ x :: l2)) → is_pool x = false → is_pool (with_kind x k) = false →
  geometry R (l1 ++ [with_kind x k] ++ l2).
Proof.
  intros Hg Hn Hp Hpk. apply (geometry_splice R l1 [x] l2); try done.
  - intros y ->%list_elem_of_singleton. assert (x ∈ l1 ++ x :: l2) as Hx by (rewrite elem_of_app, elem_of_cons; tauto).
    destruct (ge_blk _ _ Hg x Hx). split; try done. by rewrite Hpk.
  - intros y z ->%list_elem_of_singleton ->%list_elem_of_singleton. done.
  - intros y c ->%list_elem_of_singleton _ Hc. by apply (Hc x), list_elem_of_here.
  - pose proof (ge_adj _ _ Hg) as Hadj. apply consecutive_middle in Hadj as (H1&Hl&Hr&H2).
    apply consecutive_middle. split; [done|]. split; [destruct (last l1); [|done]|split; [destruct l2; [done|]|done]].
    + intros Hs _. by apply Hl.
    + intros Hs Hp'. destruct (Hr Hs Hp') as (_&->&->). done.
Qed.

Lemma take_block_ok h l1 x l2 R sz :
  heap_ok h (l1 ++ x :: l2) R → suits sz x = true → (16 | sz) → 16 <= sz →
  ∃ s h' ys, take_block (ba x) sz h = Ok (ba x + HEADER, h') ∧ heap_ok h' (l1 ++ ys ++ l2) R ∧ same_rest h h' ∧
    sz <= s < sz + HEADER + MIN_SPLIT_SIZE ∧ live ys = [(ba x + HEADER, s)].
Proof.
  intros H Hs Hsz Hsz0. apply andb_true_iff in Hs as [Hfree Hle%Z.leb_le].
  assert (is_pool x = false) as Hnp by (unfold is_free, is_pool in *; by destruct (bk x)).
  assert (x ∈ l1 ++ x :: l2) as Hx by (rewrite elem_of_app, elem_of_cons; tauto).
  pose proof (ho_in _ _ _ _ _ H Hx) as Hin. pose proof (ho_linked _ _ _ H) as Hl. pose proof (ho_geo _ _ _ H) as Hg.
  pose proof (lk_nodup _ _ Hl) as Hn. pose proof (linked_hdr _ _ _ _ Hl) as Ehdr.
  pose proof (ho_merged _ _ _ H) as Hm. apply consecutive_middle in Hm as (Hm1&Hml&Hmr&Hm2).
  unfold take_block. rewrite (load_ok _ _ _ Ehdr). cbn [mbind result_bind].
  cbn [size next hdr_of]. unfold bend, HEADER, MIN_SPLIT_SIZE in *. rewrite (u64_id (sz + 48)), (u64_id (sz + 48 + 16)) by lia.
  rewrite Z.geb_leb. destruct (Z.leb_spec (sz + 48 + 16) (bsz x)).
  - set (y := rest x sz).
    destruct (linked_split h l1 x (front x sz Free) y l2 (λ b, with_size (with_next b (ba x + 48 + sz)) sz)) as (h1&E1&Hl1&Hr1&Hf1);
      [done|done| | |unfold y, rest, HEADER; simpl; lia|].
    { intros p n. destruct x as [a z k st]. unfold is_free in Hfree. simpl in Hfree. by destruct k. }
    { apply (inner_fresh _ _ _ _ _ _ _ H). unfold y, rest, bend, HEADER. simpl. lia. }
    cbv zeta in E1.
    assert (hdr_of y (ba x) (first l2 NULL) = mkHeader HEAP_MAGIC BH_FREE (u64 (bsz x - sz - 48)) 0 0 (first l2 NULL) (ba x)) as Ey.
    { unfold y, rest, hdr_of, HEADER. simpl. rewrite u64_id by lia. done. }
    rewrite Ey in E1. change (ba y) with (ba x + 48 + sz) in E1. rewrite E1. cbn [mbind result_bind].
    destruct (linked_update h1 l1 (front x sz Free) (front x sz Used) (y :: l2) BH_CLR_FREE) as (h2&E2&Hl2&Hr2&Hf2);
      [done|done|intros; by apply clr_free_hdr|].
    change (ba (front x sz Free)) with (ba x) in E2. rewrite E2. cbn [mbind result_bind].
    exists sz. eexists _, [front x sz Used; y]. split; [done|]. split; [|split; [by eapply same_trans; [eapply same_trans|]|split; [lia|done]]].
    apply (heap_ok_splice (consecutive merged) _ h _ l1 [x] l2 [front x sz Used; y]); try done.
    + destruct Hl2. by split.
    + by eapply same_trans; [eapply same_trans|].
    + by apply geometry_split; [..|unfold HEADER, MIN_SPLIT_SIZE; lia].
    + apply consecutive_middle. split; [done|]. split; [by destruct (last l1)|]. split; [done|].
      apply consecutive_cons. split; [done|]. destruct l2 as [|c l2]; [done|]. intros _. by apply Hmr.
    + by intros z ->%list_elem_of_singleton.
    + right. cbn [last_fit set_last_fit]. rewrite addrs_app, elem_of_app. right. by apply list_elem_of_here.
  - cbn [mbind result_bind mret result_ret].
    destruct (linked_update h l1 x (with_kind x Used) l2 BH_CLR_FREE) as (h2&E2&Hl2&Hr2&Hf2);
      [done|done|intros; by apply clr_free_hdr|].
    rewrite E2. cbn [mbind result_bind]. exists (bsz x). eexists _, [with_kind x Used].
    split; [done|]. split; [|split; [done|split; [lia|done]]].
    apply (heap_ok_splice (consecutive merged) _ h _ l1 [x] l2 [with_kind x Used]); try done.
    + destruct Hl2. by split.
    + by apply geometry_kind.
    + apply consecutive_middle. split; [done|]. split; [by destruct (last l1)|]. split; [by destruct l2|done].
    + by intros z ->%list_elem_of_singleton.
    + right. cbn [last_fit set_last_fit]. rewrite addrs_app, elem_of_app. right. by apply list_elem_of_here.
Qed.

(** * Growing *)

(** What block operations leave alone. *)
Definition kept h h' : Prop :=
  nodes h' = nodes h ∧ data h' = data h ∧ pools h' = pools h ∧ registry h' = registry h.

Lemma same_kept h h' : same_rest h h' → kept h h'.
Proof. unfold same_rest, kept. tauto. Qed.

Lemma kept_trans h1 h2 h3 : kept h1 h2 → kept h2 h3 → kept h1 h3.
Proof. unfold kept. intros. destruct_and!. repeat split; congruence. Qed.

Lemma map_pages_ok (m : B → Z → Z → Z → result B) step virt phys f R n b :
  (∀ i b, 0 <= i < n → be_ok b R → ∃ b', m b (virt + i * step) (phys + i * step) f = Ok b' ∧ mapped b' (virt + i * step) = true ∧ be_ok b' R) →
  be_ok b R → ∃ b', map_pages m step virt phys f b n = Ok b' ∧ be_ok b' R.
Proof.
  intros Hm Hb. unfold map_pages.
  assert (∀ js b, (∀ i, i ∈ js → 0 <= i < n) → be_ok b R →
    ∃ b', foldl (λ r i, b ← r; checked m b (virt + i * step) (phys + i * step) f) (Ok b) js = Ok b' ∧ be_ok b' R) as H.
  { intros js. induction js as [|i js IH]; intros b1 Hi Hb1; [by exists b1|]. cbn [foldl mbind result_bind].
    destruct (Hm i b1) as (b2&E2&Em&Hb2); [apply Hi, list_elem_of_here|done|]. unfold checked at 2. rewrite E2. cbn [mbind result_bind]. rewrite Em.
    apply IH; [|done]. intros j Hj. apply Hi. by apply list_elem_of_further. }
  apply H; [|done]. intros i Hi. apply elem_of_seqZ in Hi. lia.
Qed.

Definition panics {A} (m : result A) : Prop := ∃ t s, m = Panic t s.

Lemma range_nonzero r : range_ok r → r.1 ≠ 0.
Proof. intros (?&_). lia. Qed.

(** Page counts of a growth. *)
Definition growth (pages : Z) : Prop := 0 < pages < 2 ^ 36.

Lemma grow_pages_ok pages b R : growth pages → be_ok b R →
  (∃ b', grow_pages pages b = Ok (0, b') ∧ be_ok b' R) ∨
  (∃ v b', grow_pages pages b = Ok (v, b') ∧ fresh R (v, pages) ∧ be_ok b' ((v, pages) :: R)) ∨
  panics (grow_pages pages b).
Proof.
  intros Hg Hb. unfold growth in Hg. unfold grow_pages. assert (PAGES_2MB = 512) as E512 by done.
  destruct ((pages >=? PAGES_2MB) && (pages mod PAGES_2MB =? 0)) eqn:E2.
  - apply andb_true_iff in E2 as [_ Em%Z.eqb_eq]. rewrite E512 in *.
    pose proof (Z.div_mod pages 512 ltac:(lia)) as Hdm. rewrite Em in Hdm. set (hc := pages / 512) in *.
    destruct (be_alloc_2mb b R hc) as (p&b1&->&Hb1&Hp); [done|lia|]. cbn [mbind result_bind].
    destruct (Z.eqb_spec p 0) as [->|Hp0]; [left; by exists b1|]. destruct Hp as [|Hp]; [done|].
    destruct (be_valloc b1 R pages PAGE_SIZE_2MB) as [(v&b2&->&Hf&Hb2)|(t&m&->)]; [done|lia|by right| |by right; right; exists t, m].
    cbn [mbind result_bind]. rewrite (proj2 (Z.eqb_neq v 0)) by (by apply (range_nonzero (v, pages)), Hf).
    destruct (map_pages_ok map_2mb PAGE_SIZE_2MB v p (Z.lor KERNEL_HEAP_FLAGS PTE_TYPE_HEAP_BLOCK) ((v, pages) :: R) hc b2) as (b3&->&Hb3); [|done|].
    { intros i b' Hi Hb'. apply (be_map_2mb b' _ v pages); [done|apply list_elem_of_here|rewrite E512; lia|unfold PAGE_SIZE_2MB in *; lia]. }
    right. left. by exists v, b3.
  - destruct (be_alloc b R pages) as (p&b1&->&Hb1&Hp); [done|lia|]. cbn [mbind result_bind].
    destruct (Z.eqb_spec p 0) as [->|Hp0]; [left; by exists b1|]. destruct Hp as [|Hp]; [done|].
    destruct (be_valloc b1 R pages PAGE_SIZE) as [(v&b2&->&Hf&Hb2)|(t&m&->)]; [done|lia|by left| |by right; right; exists t, m].
    cbn [mbind result_bind]. rewrite (proj2 (Z.eqb_neq v 0)) by (by apply (range_nonzero (v, pages)), Hf).
    destruct (map_pages_ok map_page PAGE_SIZE v p (Z.lor KERNEL_HEAP_FLAGS PTE_TYPE_HEAP_BLOCK) ((v, pages) :: R) pages b2) as (b3&->&Hb3); [|done|].
    { intros i b' Hi Hb'. apply (be_map b' _ v pages); [done|apply list_elem_of_here|lia|unfold PAGE_SIZE in *; lia]. }
    right. left. by exists v, b3.
Qed.

Lemma linked_store h l a b : linked h l → a ∉ addrs l → linked (store h a b) l.
Proof. intros [] Ha. split; try done. by apply dl_insert. Qed.

Lemma linked_back h l b : linked h l → linked (set_back h b) l.
Proof. intros []. by split. Qed.

(** A range that is apart from the live ones holds no block. *)
Lemma fresh_apart R r b : fresh R r → blk_ok R b → bend b <= r.1 ∨ r.1 + r.2 * PAGE_SIZE <= ba b.
Proof.
  intros [_ Hf] [_ _ [Hs Hin] _]. destruct (Hf _ Hs), Hin; lia.
Qed.

Lemma blk_ok_mono R R' b : (∀ r, r ∈ R → r ∈ R') → blk_ok R b → blk_ok R' b.
Proof.
  intros Hs [? ? [? ?] Hp]. split; auto.
Qed.

(** A new region, or a new pool page: one block that fills a fresh range. *)
Lemma heap_ok_append h l R y n b hd hs :
  heap_ok h l R → fresh R (ba y, n) → brange y = (ba y, n) → bsz y = n * PAGE_SIZE - HEADER → (bstart y = true ∨ is_pool y = true) →
  (is_pool y = true → n = 1 ∧ bstart y = false) →
  hs = <[ba y := hd]> (hdrs h) →
  with_prev (with_next hd NULL) (last_addr l NULL) = hdr_of y (last_addr l NULL) NULL →
  ∀ h0, hdrs h0 = hs → head h0 = head h → tail h0 = tail h → last_fit h0 = last_fit h → back h0 = b →
    registry h0 = registry h ++ (if is_pool y then [ba y] else []) → be_ok b ((ba y, n) :: R) →
  ∃ h', list_append (ba y) h0 = Ok h' ∧ heap_ok h' (l ++ [y]) ((ba y, n) :: R) ∧ same_rest h0 h'.
Proof.
  intros H [Hr Hf] Hrg Hsz Hst Hpool -> Hhd h0 Eh Ehd Etl Elf Eb Ereg Hb. destruct Hr as (Hr1&Hr2&Hr3&Hr4). cbn [fst snd] in *.
  assert (ba y ∉ addrs l) as Hy.
  { intros (c&Hc&E)%addrs_elem. pose proof (ho_in _ _ _ _ _ H Hc).
    destruct (fresh_apart R (ba y, n) c) as [Ha|Ha]; [by split|by apply (ge_blk _ _ (ho_geo _ _ _ H))|simpl in *; unfold HEADER in *; lia..|].
    simpl in *. unfold PAGE_SIZE in *. lia. }
  assert (linked h0 l) as Hl0.
  { destruct (linked_store h l (ba y) hd (ho_linked _ _ _ H) Hy) as [Hd Hh Ht Hn Hp].
    split; [by rewrite Eh|by rewrite Ehd|by rewrite Etl|done|done]. }
  destruct (linked_append h0 l y hd Hl0) as (h'&E&Hl'&Hrest&Hlf);
    [rewrite Eh; apply lookup_insert_eq|done|lia|done|].
  exists h'. split; [done|]. split; [|done].
  assert (bend y = ba y + n * PAGE_SIZE) as Eend by (unfold bend; lia).
  assert (∀ c, c ∈ l → apart c y) as Hap.
  { intros c Hc. unfold apart. rewrite Eend.
    destruct (fresh_apart R (ba y, n) c) as [Ha|Ha]; [by split|by apply (ge_blk _ _ (ho_geo _ _ _ H))|by left|by right]. }
  destruct Hrest as (_&_&_&Hreg&Hbk). split.
  - done.
  - split.
    + intros c [Hc| ->%list_elem_of_singleton]%elem_of_app.
      * eapply blk_ok_mono; [|by apply (ge_blk _ _ (ho_geo _ _ _ H))]. intros r. apply list_elem_of_further.
      * split.
        -- rewrite Hsz. assert ((16 | PAGE_SIZE)) by (by exists 256). assert ((16 | HEADER)) by (by exists 3).
           split; [by apply (Z.divide_trans _ PAGE_SIZE)|]. apply Z.divide_sub_r; [by apply Z.divide_mul_r|done].
        -- unfold PAGE_SIZE, HEADER in *. lia.
        -- rewrite Hrg. split; [apply list_elem_of_here|]. unfold inside. simpl. lia.
        -- intros Hp. destruct (Hpool Hp) as [-> ?]. split; [done|]. split; [lia|done].
    + intros c d [Hc| ->%list_elem_of_singleton]%elem_of_app [Hd| ->%list_elem_of_singleton]%elem_of_app Hne;
        [by apply (ge_apart _ _ (ho_geo _ _ _ H))|by apply Hap| |done]. apply or_comm. by apply Hap.
    + apply consecutive_snoc. split; [apply (ho_geo _ _ _ H)|]. destruct (last l); [|done].
      intros ? ?. destruct Hst; congruence.
  - apply consecutive_snoc. split; [apply H|]. destruct (last l); [|done]. intros _ Hfy.
    destruct Hst as [|Hp]; [done|]. unfold is_free, is_pool in *. by destruct (bk y).
  - apply Forall_cons. split; [done|apply H].
  - by destruct l.
  - rewrite Hlf, Elf, addrs_app, elem_of_app. destruct (ho_fit _ _ _ H); tauto.
  - intros p Hp. rewrite Hreg, Ereg, elem_of_app in Hp. destruct Hp as [Hp|Hp].
    + destruct (ho_reg _ _ _ H p Hp) as (c&?&?&?). exists c. rewrite elem_of_app. tauto.
    + destruct (is_pool y) eqn:Ey; [|by apply elem_of_nil in Hp]. apply list_elem_of_singleton in Hp as ->.
      exists y. rewrite elem_of_app, list_elem_of_singleton. tauto.
  - by rewrite Hbk, Eb.
Qed.

Definition region (v pages : Z) : blk := mkBlk v (pages * PAGE_SIZE - HEADER) Free true (v, pages).

Lemma heap_grow_ok sz h l R : heap_ok h l R → 0 < sz <= 2 ^ 46 →
  (∃ h', heap_grow sz h = Ok (false, h') ∧ heap_ok h' l R ∧ kept h h') ∨
  (∃ h' v n, heap_grow sz h = Ok (true, h') ∧ heap_ok h' (l ++ [region v n]) ((v, n) :: R) ∧ kept h h' ∧
     sz <= n * PAGE_SIZE - HEADER) ∨
  panics (heap_grow sz h).
Proof.
  intros H Hsz. unfold heap_grow. rewrite (u64_id (sz + HEADER + PAGE_SIZE - 1)) by (unfold HEADER, PAGE_SIZE; lia).
  change (sz + HEADER + PAGE_SIZE - 1) with (sz + 48 + 4096 - 1).
  pose proof (Z.div_mod (sz + 48 + 4096 - 1) PAGE_SIZE ltac:(done)) as Hdm.
  pose proof (Z.mod_pos_bound (sz + 48 + 4096 - 1) PAGE_SIZE ltac:(done)) as Hmb.
  set (q := (sz + 48 + 4096 - 1) / PAGE_SIZE) in *.
  set (pages := if q <? PAGES_PER_GROWTH then PAGES_PER_GROWTH else q).
  assert (growth pages ∧ sz + 48 <= pages * PAGE_SIZE) as [Hg Hfit].
  { unfold growth, pages, PAGES_PER_GROWTH, PAGE_SIZE in *. case_z; lia. }
  destruct (grow_pages_ok pages (back h) R Hg (ho_back _ _ _ H)) as [(b&->&Hb)|[(v&b&->&Hf&Hb)|(t&m&->)]]; cbn [mbind result_bind].
  - left. exists (set_back h b). split; [done|]. split; [|done]. destruct H. split; try done. by apply linked_back.
  - right. left. rewrite (proj2 (Z.eqb_neq v 0)) by (by apply (range_nonzero (v, pages)), Hf).
    clearbody pages. unfold growth in Hg. rewrite u64_id by (unfold HEADER, PAGE_SIZE in *; lia).
    destruct (heap_ok_append h l R (region v pages) pages b (new_header (Z.lor BH_FREE BH_BOUNDARY_START) (pages * PAGE_SIZE - HEADER)) _ H Hf
      eq_refl eq_refl (or_introl eq_refl) ltac:(done) eq_refl eq_refl (store (set_back h b) v (new_header (Z.lor BH_FREE BH_BOUNDARY_START) (pages * PAGE_SIZE - HEADER))))
      as (h'&E&Hok&Hrest); try done.
    { simpl. by rewrite app_nil_r. }
    change (ba (region v pages)) with v in E. rewrite E. cbn [mbind result_bind]. exists h', v, pages.
    split; [done|]. split; [done|]. split; [apply (same_kept _ _ Hrest)|unfold HEADER; lia].
  - right. right. by exists t, m.
Qed.

(** * malloc *)

Definition malloc_outcome (sz : Z) h (l : list blk) (R : list (Z * Z)) (r : result (Z * heap)) : Prop :=
  (∃ p s h' l' R', r = Ok (p, h') ∧ p ≠ NULL ∧ heap_ok h' l' R' ∧ kept h h' ∧
     sz <= s < sz + HEADER + MIN_SPLIT_SIZE ∧ live l' ≡ₚ (p, s) :: live l ∧ (∀ x, x ∈ R → x ∈ R')) ∨
  (∃ h', r = Ok (NULL, h') ∧ heap_ok h' l R ∧ kept h h' ∧ ∀ b, b ∈ l → suits sz b = false) ∨
  panics r.

Lemma take_outcome sz h l R h1 l1 x l2 R1 :
  (16 | sz) → 16 <= sz → heap_ok h1 (l1 ++ x :: l2) R1 → suits sz x = true → live (l1 ++ x :: l2) = live l →
  kept h h1 → (∀ y, y ∈ R → y ∈ R1) → malloc_outcome sz h l R (take_block (ba x) sz h1).
Proof.
  intros Hsz Hs16 H1 Hx Hlive Hk HR. destruct (take_block_ok h1 l1 x l2 R1 sz H1 Hx Hsz Hs16) as (s&h'&ys&->&Hok&Hrest&Hss&Hy).
  left. exists (ba x + HEADER), s, h', (l1 ++ ys ++ l2), R1. split; [done|].
  assert (x ∈ l1 ++ x :: l2) as Hin by (rewrite elem_of_app, elem_of_cons; tauto). pose proof (ho_in _ _ _ _ _ H1 Hin).
  split; [unfold NULL, HEADER in *; lia|]. split; [done|]. split; [eapply kept_trans; [done|by apply same_kept]|]. split; [done|].
  split; [|done]. rewrite <- Hlive, !live_app, Hy. change (x :: l2) with ([x] ++ l2). rewrite live_app.
  apply andb_true_iff in Hx as [Hfree _]. assert (live [x] = []) as ->.
  { unfold live, is_free, is_used in *. simpl. by destruct (bk x). }
  simpl. by rewrite Permutation_middle.
Qed.

Lemma malloc_block_ok fuel sz h l R : heap_ok h l R → (16 | sz) → 0 < sz <= 2 ^ 46 → (length l + 2 < fuel)%nat →
  malloc_outcome sz h l R (malloc_block 2 fuel sz h).
Proof.
  intros H Hsz Hs Hf. assert (16 <= sz) as Hs16 by (destruct Hsz as [q ->]; lia).
  cbn [malloc_block].
  destruct (search_total h l R sz fuel H) as [(l1&x&l2&->&Hx&->)|[Hno ->]]; [lia| |]; cbn [mbind result_bind].
  { by apply (take_outcome _ _ _ _ _ l1 _ l2 R). }
  destruct (heap_grow_ok sz h l R H Hs) as [(h1&->&H1&Hk1)|[(h1&v&n&->&H1&Hk1&Hfit)|(t&m&->)]]; cbn [mbind result_bind].
  - right. left. by exists h1.
  - destruct (search_total h1 _ _ sz fuel H1) as [(l1&x&l2&El&Hx&->)|[Hno1 _]]; cbn [mbind result_bind].
    + rewrite length_app. simpl. lia.
    + rewrite El in H1. apply (take_outcome _ _ _ _ _ l1 _ l2 _ Hsz Hs16 H1 Hx); [|done|intros y; apply list_elem_of_further].
      rewrite <- El, live_app. simpl. by rewrite app_nil_r.
    + exfalso. specialize (Hno1 (region v n)). rewrite elem_of_app, list_elem_of_singleton in Hno1.
      unfold suits, region in Hno1. simpl in Hno1. rewrite (proj2 (Z.leb_le _ _)) in Hno1 by done. by discriminate Hno1; right.
  - right. right. by exists t, m.
Qed.
End Invariant.
