(* ===== verification/HeapOps.v ===== *)
(** Release and reallocation of the kernel heap (src/mem/heap.c), and what the
    heap promises its callers. *)

From S2P Require Import Prelude Mem Vmm Paging Heap HeapSpec HeapInv.

Section Operations.
Context {B : Type} `{!PageBackend B, !BackendLaws B}.
Implicit Types h : @heap B.

(** * Merging *)

(** Block [x] with its successor [y] merged into it. *)
Definition joined (x y : blk) : blk := mkBlk (ba x) (bsz x + HEADER + bsz y) (bk x) (bstart x) (brange x).

Lemma geometry_join R l1 x y l2 :
  geometry R (l1 ++ x :: y :: l2) → NoDup (addrs (l1 ++ x :: y :: l2)) →
  is_pool x = false → is_pool y = false → bstart y = false →
  geometry R (l1 ++ [joined x y] ++ l2).
Proof.
  intros Hg Hn Hpx Hpy Hsy.
  assert (x ∈ l1 ++ x :: y :: l2) as Hx by (rewrite elem_of_app, elem_of_cons; tauto).
  assert (y ∈ l1 ++ x :: y :: l2) as Hy by (rewrite elem_of_app, !elem_of_cons; tauto).
  pose proof (ge_adj _ _ Hg) as Hadj. apply consecutive_middle in Hadj as (H1&Hl&Hr&H2).
  apply consecutive_cons in H2 as [H2 Hr2]. destruct (Hr Hsy Hpy) as (_&Exy&Erg).
  destruct (ge_blk _ _ Hg x Hx) as [[Hax Hzx] Hsx [Hrx Hix] _], (ge_blk _ _ Hg y Hy) as [[_ Hzy] Hsy0 [_ Hiy] _].
  assert (bend (joined x y) = bend y) as Ee by (unfold bend, joined in *; simpl; lia).
  apply (geometry_splice R l1 [x; y] l2); try done.
  - intros z ->%list_elem_of_singleton. split; simpl.
    + split; [done|]. apply Z.divide_add_r; [|done]. apply Z.divide_add_r; [done|by exists 3].
    + unfold HEADER. lia.
    + split; [done|]. unfold inside in *. rewrite Ee. rewrite Erg in Hiy. simpl. lia.
    + unfold is_pool in *. simpl. by rewrite Hpx.
  - intros z w ->%list_elem_of_singleton ->%list_elem_of_singleton. done.
  - intros z c ->%list_elem_of_singleton [_ Hcs _ _] Hc. pose proof (Hc x (list_elem_of_here _ _)) as Hcx.
    pose proof (Hc y (list_elem_of_further _ _ _ (list_elem_of_here _ _))) as Hcy. unfold apart in *. rewrite Ee.
    change (ba (joined x y)) with (ba x). unfold bend, HEADER in *. lia.
  - apply consecutive_middle. split; [done|]. split; [destruct (last l1); [|done]|split; [destruct l2; [done|]|done]].
    + intros Hs _. by apply Hl.
    + intros Hs Hp. destruct (Hr2 Hs Hp) as (_&->&->). by rewrite Ee.
Qed.

Lemma join_ok h l1 x y l2 R :
  heap_shape h (l1 ++ x :: y :: l2) R → is_pool x = false → is_pool y = false → bstart y = false →
  ∃ h', absorb_next (ba x) (ba y) (hdr_of y (ba x) (first l2 NULL)) h = Ok h' ∧
    heap_shape h' (l1 ++ joined x y :: l2) R ∧ same_rest h h'.
Proof.
  intros H Hpx Hpy Hsy. pose proof (lk_nodup _ _ (ho_linked _ _ _ H)) as Hn.
  pose proof (geometry_join _ _ _ _ _ (ho_geo _ _ _ H) Hn Hpx Hpy Hsy) as Hg.
  pose proof (blk_range _ (joined x y) (ge_blk _ _ Hg (joined x y) ltac:(rewrite !elem_of_app, elem_of_cons; tauto)) (ho_ranges _ _ _ H)) as Hr.
  assert (y ∈ l1 ++ x :: y :: l2) as Hy by (rewrite elem_of_app, !elem_of_cons; tauto).
  pose proof (bo_size _ _ (ge_blk _ _ (ho_geo _ _ _ H) y Hy)) as Hsz.
  assert (x ∈ l1 ++ x :: y :: l2) as Hx by (rewrite elem_of_app, !elem_of_cons; tauto).
  pose proof (bo_size _ _ (ge_blk _ _ (ho_geo _ _ _ H) x Hx)) as Hsx.
  destruct (linked_absorb h l1 x (joined x y) y l2) as (h'&E&Hl'&Hrest&Hf); [apply H|done..| |].
  { rewrite u64_id; unfold bend, joined, HEADER in *; simpl in *; lia. }
  exists h'. split; [done|]. split; [|done].
  apply (heap_ok_splice (λ _, True) _ h h' l1 [x; y] l2 [joined x y]); try done.
  - intros z. rewrite !elem_of_cons, elem_of_nil. by intros [->|[->|[]]].
  - rewrite Hf, addrs_app, elem_of_app. cbn [app addrs map]. rewrite elem_of_cons. destruct (Z.eqb_spec (last_fit h) (ba y)); [tauto|].
    destruct (ho_fit _ _ _ H) as [|Hin]; [tauto|]. rewrite addrs_app, elem_of_app in Hin. cbn [addrs map] in Hin.
    rewrite !elem_of_cons in Hin. tauto.
Qed.

(** What a step of coalescing leaves alone: [x1] is [x], grown. *)
Definition same_block (x x1 : blk) : Prop := bk x1 = bk x.

(** Free blocks that may be merged into the block before them. *)
Definition mergeable (b : blk) : bool := is_free b && negb (bstart b).

Lemma can_absorb_hdr b p n : can_absorb (hdr_of b p n) = mergeable b.
Proof.
  unfold can_absorb, mergeable. rewrite hdr_free, hdr_pool, hdr_boundary. unfold is_free, is_pool.
  by destruct (bk b), (bstart b).
Qed.

Lemma free_not_pool b : is_free b = true → is_pool b = false.
Proof. unfold is_free, is_pool. by destruct (bk b). Qed.
Lemma used_not_pool b : is_used b = true → is_pool b = false.
Proof. unfold is_used, is_pool. by destruct (bk b). Qed.
Lemma live_skip b l : is_used b = false → live (b :: l) = live l.
Proof. unfold live. simpl. by intros ->. Qed.
Lemma live_used b l : is_used b = true → live (b :: l) = (ba b + HEADER, bsz b) :: live l.
Proof. unfold live. simpl. by intros ->. Qed.
Lemma free_not_used b : is_free b = true → is_used b = false.
Proof. unfold is_free, is_used. by destruct (bk b). Qed.

Lemma forward_ok h l1 x l2 R : heap_shape h (l1 ++ x :: l2) R → is_free x = true →
  ∃ h' x1 l2', coalesce_forward (ba x) h = Ok h' ∧ heap_shape h' (l1 ++ x1 :: l2') R ∧ same_rest h h' ∧
    ba x1 = ba x ∧ is_free x1 = true ∧ bstart x1 = bstart x ∧
    (l2' = l2 ∧ match l2 with [] => True | c :: _ => mergeable c = false end ∨ ∃ y, is_free y = true ∧ l2 = y :: l2').
Proof.
  intros H Hf. pose proof (ho_linked _ _ _ H) as Hl. pose proof (linked_hdr _ _ _ _ Hl) as Ex.
  unfold coalesce_forward. rewrite (load_ok _ _ _ Ex). cbn [mbind result_bind next hdr_of].
  destruct l2 as [|y l2]; cbn [first].
  { change (NULL =? NULL) with true. exists h, x, []. split; [done|]. split; [done|]. repeat split; auto. }
  assert (y ∈ l1 ++ x :: y :: l2) as Hy by (rewrite elem_of_app, !elem_of_cons; tauto).
  pose proof (ho_in _ _ _ _ _ H Hy) as Hyr. rewrite (proj2 (Z.eqb_neq _ _)) by (unfold NULL; lia).
  assert (hdrs h !! ba y = Some (hdr_of y (ba x) (first l2 NULL))) as Ey.
  { pose proof Hl as Hl'. rewrite cons_middle, app_assoc in Hl'. apply linked_hdr in Hl'. by rewrite last_addr_snoc in Hl'. }
  rewrite (load_ok _ _ _ Ey). cbn [mbind result_bind]. rewrite can_absorb_hdr. destruct (mergeable y) eqn:Em.
  - apply andb_true_iff in Em as [Hfy Hsy%negb_true_iff].
    destruct (join_ok h l1 x y l2 R H (free_not_pool _ Hf) (free_not_pool _ Hfy) Hsy) as (h'&E&H'&Hr).
    exists h', (joined x y), l2. split; [done|]. split; [done|]. repeat split; try done; try apply Hr. right. by exists y.
  - exists h, x, (y :: l2). split; [done|]. split; [done|]. repeat split; auto.
Qed.

Lemma backward_ok h l1 x l2 R : heap_shape h (l1 ++ x :: l2) R → is_free x = true →
  ∃ h' x1 l1', coalesce_backward (ba x) h = Ok h' ∧ heap_shape h' (l1' ++ x1 :: l2) R ∧ same_rest h h' ∧
    is_free x1 = true ∧
    (l1' = l1 ∧ bstart x1 = bstart x ∧ match last l1 with None => True | Some c => is_free c = true → bstart x = true end ∨
     ∃ y, is_free y = true ∧ l1 = l1' ++ [y] ∧ bstart x1 = bstart y).
Proof.
  intros H Hf. pose proof (ho_linked _ _ _ H) as Hl. pose proof (linked_hdr _ _ _ _ Hl) as Ex.
  unfold coalesce_backward. rewrite (load_ok _ _ _ Ex). cbn [mbind result_bind prev hdr_of].
  destruct l1 as [|c l1 _] using rev_ind.
  { change (last_addr [] NULL =? NULL) with true. exists h, x, []. split; [done|]. split; [done|]. split; [done|]. split; [done|]. by left. }
  rewrite last_addr_snoc in *. assert (c ∈ (l1 ++ [c]) ++ x :: l2) as Hc by (rewrite !elem_of_app, !elem_of_cons; tauto).
  pose proof (ho_in _ _ _ _ _ H Hc) as Hcr. rewrite (proj2 (Z.eqb_neq _ _)) by (unfold NULL; lia).
  pose proof Hl as Hl'. rewrite <- app_assoc in Hl'. apply linked_hdr in Hl'. rewrite (load_ok _ _ _ Hl').
  cbn [mbind result_bind]. rewrite hdr_free, hdr_pool, hdr_boundary.
  destruct (is_free c && negb (is_pool c) && negb (bstart x)) eqn:Em.
  - apply andb_true_iff in Em as [[Hfc _]%andb_true_iff Hsx%negb_true_iff]. rewrite <- app_assoc in H.
    destruct (join_ok h l1 c x l2 R H (free_not_pool _ Hfc) (free_not_pool _ Hf) Hsx) as (h'&E&H'&Hr).
    exists h', (joined c x), l1. split; [done|]. split; [done|]. split; [done|]. split; [done|]. right. by exists c.
  - exists h, x, (l1 ++ [c]). split; [done|]. split; [done|]. split; [done|]. split; [done|]. left. split; [done|]. split; [done|].
    rewrite last_snoc. intros Hfc. rewrite Hfc, (free_not_pool _ Hfc) in Em. by destruct (bstart x).
Qed.

(** * Release *)

Lemma relabel_ok h l1 x l2 R : heap_ok h (l1 ++ x :: l2) R → is_used x = true →
  ∃ h', update BH_SET_FREE (ba x) h = Ok h' ∧ heap_shape h' (l1 ++ with_kind x Free :: l2) R ∧ same_rest h h'.
Proof.
  intros H Hu. pose proof (ho_linked _ _ _ H) as Hl.
  destruct (linked_update h l1 x (with_kind x Free) l2 BH_SET_FREE) as (h'&E&Hl'&Hr&Hf);
    [done|done|intros; by apply set_free_hdr|].
  exists h'. split; [done|]. split; [|done].
  apply (heap_ok_splice (consecutive merged) _ h h' l1 [x] l2 [with_kind x Free]); try done.
  - apply geometry_kind; [apply H|apply Hl|by apply used_not_pool|done].
  - intros z ->%list_elem_of_singleton. by apply used_not_pool.
  - rewrite Hf. destruct (ho_fit _ _ _ H) as [|Hin]; [tauto|]. right. by rewrite addrs_app in *.
Qed.

(** The list a release leaves has no free neighbours: [x] has taken in those
    around it. *)
Lemma merged_after l1 l2 l1' l2' x x1 :
  consecutive merged (l1 ++ x :: l2) →
  (l2' = l2 ∧ match l2 with [] => True | c :: _ => mergeable c = false end ∨ ∃ y, is_free y = true ∧ l2 = y :: l2') →
  (l1' = l1 ∧ bstart x1 = bstart x ∧ match last l1 with None => True | Some c => is_free c = true → bstart x = true end ∨
   ∃ y, is_free y = true ∧ l1 = l1' ++ [y] ∧ bstart x1 = bstart y) →
  consecutive merged (l1' ++ x1 :: l2').
Proof.
  intros Hm Hr Hl. apply consecutive_middle in Hm as (H1&_&_&H2). apply consecutive_middle.
  assert (consecutive merged l1' ∧ match last l1' with None => True | Some c => merged c x1 end) as [? ?].
  { destruct Hl as [(->&Es&Hc)|(y&Hy&->&Es)].
    - split; [done|]. destruct (last l1); [|done]. intros Hf _. rewrite Es. by apply Hc.
    - apply consecutive_snoc in H1 as [H1 Hy1]. split; [done|]. destruct (last l1'); [|done].
      intros Hf _. rewrite Es. by apply Hy1. }
  assert (consecutive merged l2' ∧ match l2' with [] => True | c :: _ => merged x1 c end) as [? ?].
  { destruct Hr as [(->&Hc)|(y&Hy&->)].
    - split; [done|]. destruct l2; [done|]. intros _ Hf. unfold mergeable in Hc. rewrite Hf in Hc. by destruct (bstart b).
    - apply consecutive_cons in H2 as [H2 Hy2]. split; [done|]. destruct l2'; [done|]. intros _ Hf. by apply Hy2. }
  done.
Qed.

Lemma free_block_ok h l1 x l2 R : heap_ok h (l1 ++ x :: l2) R → is_used x = true →
  ∃ h' l', free_block (ba x + HEADER) h = Ok h' ∧ heap_ok h' l' R ∧ same_rest h h' ∧
    live (l1 ++ x :: l2) ≡ₚ (ba x + HEADER, bsz x) :: live l'.
Proof.
  intros H Hu. pose proof (ho_linked _ _ _ H) as Hl. pose proof (linked_hdr _ _ _ _ Hl) as Ex.
  unfold free_block. rewrite Z.add_simpl_r, (load_ok _ _ _ Ex). cbn [mbind result_bind].
  change (magic (hdr_of x (last_addr l1 NULL) (first l2 NULL)) =? HEAP_MAGIC) with true. cbn [negb].
  destruct (relabel_ok h l1 x l2 R H Hu) as (h1&->&H1&Hr1). cbn [mbind result_bind].
  destruct (forward_ok h1 l1 (with_kind x Free) l2 R H1 eq_refl) as (h2&x2&l2'&E2&H2&Hr2&Ea&Hf2&Es&Hc2).
  change (ba (with_kind x Free)) with (ba x) in E2, Ea. rewrite E2. cbn [mbind result_bind].
  destruct (backward_ok h2 l1 x2 l2' R H2 Hf2) as (h3&x3&l1'&E3&H3&Hr3&Hf3&Hc3). rewrite Ea in E3. rewrite E3.
  change (bstart (with_kind x Free)) with (bstart x) in Es. rewrite Es in Hc3.
  exists h3, (l1' ++ x3 :: l2'). split; [done|]. split; [|split].
  - destruct H3. split; try done. by apply (merged_after l1 l2 _ _ x); [apply H| |].
  - apply (same_trans _ h1); [done|]. by apply (same_trans _ h2).
  - assert (live l2' = live l2) as El2 by (destruct Hc2 as [[-> _]|(y&Hy&->)]; [done|by rewrite live_skip by (by apply free_not_used)]).
    assert (live l1' = live l1) as El1.
    { destruct Hc3 as [(->&_)|(y&Hy&->&_)]; [done|]. rewrite live_app, live_skip by (by apply free_not_used). by rewrite app_nil_r. }
    rewrite !live_app, (live_skip x3) by (by apply free_not_used). rewrite El1, El2.
    assert (live (x :: l2) = (ba x + HEADER, bsz x) :: live l2) as -> by (by apply live_used).
    by rewrite Permutation_middle.
Qed.

(** * Live payloads *)

Lemma live_split h l R p s : heap_ok h l R → (p, s) ∈ live l →
  ∃ l1 x l2, l = l1 ++ x :: l2 ∧ is_used x = true ∧ p = ba x + HEADER ∧ s = bsz x.
Proof.
  intros H (b&Hb&Hu&->&->)%live_elem. apply list_elem_of_split in Hb as (l1&l2&->). by exists l1, b, l2.
Qed.

(** A live payload is aligned, in the kernel half and not on a pool page. *)
Lemma live_bounds h l R p s : heap_ok h l R → (p, s) ∈ live l →
  (16 | p) ∧ (16 | s) ∧ 16 <= s ∧ 2 ^ 64 - 2 ^ 56 + HEADER <= p ∧ p + s < 2 ^ 64.
Proof.
  intros H (b&Hb&Hu&->&->)%live_elem. pose proof (ho_in _ _ _ _ _ H Hb) as Hr.
  destruct (ge_blk _ _ (ho_geo _ _ _ H) b Hb) as [[Ha Hz] Hs _ _]. unfold bend in *.
  split; [|split; [done|lia]]. apply Z.divide_add_r; [done|by exists 3].
Qed.

Lemma page_of_spec p : 0 <= p < 2 ^ 64 → page_of p = PAGE_SIZE * (p / PAGE_SIZE).
Proof. intros Hp. unfold page_of. by apply (land_mask p 12). Qed.

Lemma live_page h l R p s : heap_ok h l R → (p, s) ∈ live l → is_pool_page (page_of p) h = false.
Proof.
  intros H Hin. pose proof (live_bounds _ _ _ _ _ H Hin) as Hb. apply live_elem in Hin as (b&Hb1&Hu&->&->).
  destruct (is_pool_page _ h) eqn:E; [|done]. apply existsb_exists in E as (q&Hq&Eq%Z.eqb_eq).
  apply list_elem_of_In in Hq. destruct (ho_reg _ _ _ H q Hq) as (c&Hc&Hpc&<-).
  assert (b ≠ c) as Hne by (intros ->; by rewrite used_not_pool in Hpc).
  assert (ba b ≠ ba c) as Hna.
  { intros Ea. pose proof (lk_nodup _ _ (ho_linked _ _ _ H)) as Hn.
    apply list_elem_of_lookup in Hb1 as [i Hi], Hc as [j Hj].
    assert (i = j); [|congruence]. eapply (NoDup_lookup (addrs l)); [done| |]; unfold addrs; rewrite list_lookup_fmap.
    - rewrite Hi. by simpl.
    - rewrite Hj. simpl. by rewrite Ea. }
  destruct (ge_blk _ _ (ho_geo _ _ _ H) c Hc) as [_ _ _ Hpool]. destruct (Hpool Hpc) as (_&Ez&_).
  pose proof (ho_in _ _ _ _ _ H Hb1) as Hbr. pose proof (ge_apart _ _ (ho_geo _ _ _ H) b c Hb1 Hc Hna) as Hap.
  rewrite page_of_spec in Eq by (unfold HEADER in *; lia).
  pose proof (Z.div_mod (ba b + HEADER) PAGE_SIZE ltac:(done)). pose proof (Z.mod_pos_bound (ba b + HEADER) PAGE_SIZE ltac:(done)).
  unfold apart, bend, HEADER in *. lia.
Qed.

(** Different live payloads share no byte. *)
Lemma live_disjoint h l R i j p s q t : heap_ok h l R → live l !! i = Some (p, s) → live l !! j = Some (q, t) → i ≠ j →
  p + s + HEADER <= q ∨ q + t + HEADER <= p.
Proof.
  intros H Hi Hj Hne.
  assert (∀ l, NoDup (addrs l) → (∀ b c, b ∈ l → c ∈ l → ba b ≠ ba c → apart b c) →
    ∀ i j p s q t, live l !! i = Some (p, s) → live l !! j = Some (q, t) → (i < j)%nat →
    p + s + HEADER <= q ∨ q + t + HEADER <= p) as Haux.
  { clear. induction l as [|b l IH]; [done|]. intros [Hb Hn]%NoDup_cons Ha i j p s q t Hi Hj Hlt.
    specialize (IH Hn (λ c d Hc Hd, Ha c d (list_elem_of_further _ _ _ Hc) (list_elem_of_further _ _ _ Hd))).
    destruct (is_used b) eqn:Eu; [|rewrite live_skip in Hi, Hj by done; eapply IH; eauto].
    assert (live (b :: l) = (ba b + HEADER, bsz b) :: live l) as El by (by apply live_used).
    rewrite El in Hi, Hj. destruct j as [|j]; [lia|]. destruct i as [|i]; [|apply (IH i j); auto with lia].
    injection Hi as <- <-. change (live l !! j = Some (q, t)) in Hj. apply list_elem_of_lookup_2 in Hj. apply live_elem in Hj as (c&Hc&_&->&->).
    destruct (Ha b c) as [?|?]; [apply list_elem_of_here|by apply list_elem_of_further| | |]; unfold bend in *; [|lia..].
    intros E. apply Hb. rewrite E. by apply elem_addrs. }
  destruct (Nat.lt_total i j) as [?|[?|?]]; [|done|].
  - eapply Haux; [apply H|apply H|exact Hi|exact Hj|done].
  - apply or_comm. eapply Haux; [apply H|apply H|exact Hj|exact Hi|done].
Qed.

Lemma free_ok fuel h l R p s : heap_ok h l R → (p, s) ∈ live l →
  ∃ h' l', free fuel p h = Ok h' ∧ heap_ok h' l' R ∧ same_rest h h' ∧ live l ≡ₚ (p, s) :: live l'.
Proof.
  intros H Hin. pose proof (live_bounds _ _ _ _ _ H Hin) as Hb. pose proof (live_page _ _ _ _ _ H Hin) as Hpp.
  destruct (live_split _ _ _ _ _ H Hin) as (l1&x&l2&->&Hu&->&->).
  unfold free. rewrite (proj2 (Z.eqb_neq _ _)) by (unfold NULL, HEADER in *; lia).
  unfold get_ptr_type. rewrite Hpp, Z.add_simpl_r.
  rewrite (load_ok _ _ _ (linked_hdr _ _ _ _ (ho_linked _ _ _ H))). cbn [mbind result_bind].
  change (magic (hdr_of x (last_addr l1 NULL) (first l2 NULL)) =? HEAP_MAGIC) with true. cbn [mret result_ret mbind result_bind].
  unfold free_typed. rewrite (proj2 (Z.eqb_neq _ _)) by (unfold NULL, HEADER in *; lia).
  by apply free_block_ok.
Qed.

Lemma live_disjoint_rest h l R p s L q t : heap_ok h l R → live l ≡ₚ (p, s) :: L → (q, t) ∈ L →
  p + s + HEADER <= q ∨ q + t + HEADER <= p.
Proof.
  intros H Hp Hq. apply list_elem_of_lookup in Hq as [j Hj].
  symmetry in Hp. apply Permutation_inj in Hp as (_&f&Hinj&Hf).
  eapply (live_disjoint h l R (f 0%nat) (f (S j))); [done|by rewrite <- Hf|by rewrite <- Hf|].
  intros E. by apply Hinj in E.
Qed.

(** * Growing a block in place *)

Lemma update_fit f a h x : update f a (set_last_fit h x) = (h' ← update f a h; mret (set_last_fit h' x)).
Proof. unfold update, load. simpl. by destruct (hdrs h !! a). Qed.

Lemma set_prev_fit n p h x :
  set_prev_or_tail n p (set_last_fit h x) = (h' ← set_prev_or_tail n p h; mret (set_last_fit h' x)).
Proof. unfold set_prev_or_tail. destruct (n =? NULL); [done|]. apply update_fit. Qed.

Lemma update_last_fit f a h h' : update f a h = Ok h' → last_fit h' = last_fit h.
Proof. unfold update, load. destruct (hdrs h !! a); [|done]. by intros [= <-]. Qed.

Lemma set_prev_last_fit n p h h' : set_prev_or_tail n p h = Ok h' → last_fit h' = last_fit h.
Proof. unfold set_prev_or_tail. destruct (n =? NULL); [by intros [= <-]|]. apply update_last_fit. Qed.

(** Without a split the expansion is the merge of [free]. *)
Lemma expand_join curr c nx n h : hdrs h !! curr = Some c →
  let combined := u64 (size c + (HEADER + size nx)) in
  combined < u64 (u64 (n + HEADER) + MIN_SPLIT_SIZE) →
  expand curr c nx combined n h = absorb_next curr (next c) nx h.
Proof.
  intros Ec combined Hc. unfold expand, absorb_next. rewrite Z.geb_leb, (proj2 (Z.leb_gt _ _)) by done.
  rewrite (update_ok _ _ _ _ Ec). cbn [mbind result_bind].
  destruct (Z.eqb_spec (last_fit h) (next c)) as [El|El].
  - rewrite update_fit, (update_ok _ _ _ _ Ec). cbn [mbind result_bind mret result_ret]. rewrite set_prev_fit.
    destruct (set_prev_or_tail _ _ _) as [h'| | |] eqn:E; [|done..]. cbn [mbind result_bind mret result_ret].
    apply set_prev_last_fit in E. simpl in E. by rewrite E, El, Z.eqb_refl.
  - rewrite (update_ok _ _ _ _ Ec). cbn [mbind result_bind].
    destruct (set_prev_or_tail _ _ _) as [h'| | |] eqn:E; [|done..]. cbn [mbind result_bind mret result_ret].
    apply set_prev_last_fit in E. simpl in E. by rewrite E, (proj2 (Z.eqb_neq _ _)).
Qed.

(** With one, the successor [y] is replaced by [y']. *)
Lemma linked_resplit h l1 x x1 y y' l2 f g :
  linked h (l1 ++ x :: y :: l2) → ba x1 = ba x → (∀ p n, g (f (hdr_of x p n)) = hdr_of x1 p (ba y')) →
  ba y' ∉ addrs (l1 ++ x :: l2) → 0 < ba y' →
  ∃ h', (h ← update f (ba x) h; let h := store h (ba y') (hdr_of y' (ba x) (first l2 NULL)) in
         h ← set_prev_or_tail (first l2 NULL) (ba y') h; update g (ba x) h) = Ok h' ∧
    linked h' (l1 ++ x1 :: y' :: l2) ∧ same_rest h h' ∧ last_fit h' = last_fit h.
Proof.
  intros Hl Ha Hg Hy Hy0. pose proof (linked_hdr _ _ _ _ Hl) as Hx.
  destruct (linked_suffix h l1 x [y] l2 Hl) as (Hd2&Hn2&Hp2&Hx0&Hx1&Hx2&H12&_).
  rewrite addrs_app, not_elem_of_app in Hy. cbn [addrs map] in Hy. rewrite not_elem_of_cons in Hy. destruct Hy as (Hy1&Hyx&Hy2).
  rewrite (update_ok _ _ _ _ Hx). cbn [mbind result_bind]. cbv zeta.
  set (h0 := store h (ba x) _). set (h1 := store h0 (ba y') _).
  destruct (set_prev_ok h1 (ba y') (ba y) l2) as (h2&->&Hrest&Hhd&Hlf&Hd2'&Hag&Htl);
    [apply dl_insert; [done|]; by apply dl_insert|done|done|].
  cbn [mbind result_bind].
  assert (hdrs h2 !! ba x = Some (f (hdr_of x (last_addr l1 NULL) (ba y)))) as Hx'.
  { rewrite Hag by done. unfold h1. simpl. rewrite lookup_insert_ne by done. apply lookup_insert_eq. }
  rewrite (update_ok _ _ _ _ Hx'), Hg. eexists. split; [done|]. split; [|split; [done|exact Hlf]].
  apply (linked_splice h _ l1 x [y] l2 x1 [y']); try done.
  - simpl. rewrite Htl, last_addr_cons. apply (tail_after h1 l2 (ba y)). by apply (tail_splice h l1 x [y] l2).
  - intros a Ha1. simpl. rewrite lookup_insert_ne by (by intros <-). rewrite Hag by (by apply H12). unfold h1. simpl.
    rewrite lookup_insert_ne by (by intros <-). apply lookup_insert_ne. by intros <-.
  - cbn [app dl first hdrs store set_hdrs]. rewrite Ha. split; [apply lookup_insert_eq|].
    split; [|by apply dl_insert]. rewrite lookup_insert_ne by done. rewrite Hag by done. unfold h1. simpl. apply lookup_insert_eq.
  - apply NoDup_singleton.
  - intros a ->%list_elem_of_singleton. rewrite addrs_app, not_elem_of_app. cbn [addrs map]. rewrite not_elem_of_cons. done.
  - by repeat constructor.
Qed.

(** The expansion of [x] into its free successor [y], unless it is split off
    within the first 48 bytes of [y]. *)
Definition expands_well (x y : blk) (n : Z) : Prop := bsz x + HEADER <= n ∨ bsz x + bsz y < n + MIN_SPLIT_SIZE.

Lemma next_after_split_ok old nx split b : old + HEADER <= split ∨ split + HEADER <= old → 
  next_after_split old nx split b = next nx.
Proof.
  intros H. unfold next_after_split. destruct (Z.leb_spec 0 (old + 32 - split)), (Z.ltb_spec (old + 32 - split) HEADER); try done.
  unfold HEADER in *. lia.
Qed.

Lemma nodup_drop l1 x y l2 : NoDup (addrs (l1 ++ x :: y :: l2)) → NoDup (addrs (l1 ++ x :: l2)).
Proof.
  rewrite !addrs_app. cbn [addrs map]. rewrite (Permutation_swap (ba y)), <- Permutation_middle. by intros [_ ?]%NoDup_cons.
Qed.

Lemma expand_ok h l1 x y l2 R n :
  heap_ok h (l1 ++ x :: y :: l2) R → is_used x = true → mergeable y = true → (16 | n) → bsz x < n <= bsz x + HEADER + bsz y →
  expands_well x y n →
  ∃ h' s l', expand (ba x) (hdr_of x (last_addr l1 NULL) (ba y)) (hdr_of y (ba x) (first l2 NULL))
      (u64 (bsz x + (HEADER + bsz y))) n h = Ok h' ∧
    heap_ok h' l' R ∧ same_rest h h' ∧ n <= s ∧ live l' = live l1 ++ (ba x + HEADER, s) :: live l2.
Proof.
  intros H Hu Hm H16 Hn Hw. pose proof (ho_linked _ _ _ H) as Hl. pose proof (linked_hdr _ _ _ _ Hl) as Ex. cbn [first] in Ex.
  apply andb_true_iff in Hm as [Hfy Hsy%negb_true_iff]. pose proof (lk_nodup _ _ Hl) as Hnd.
  pose proof (geometry_join _ _ _ _ _ (ho_geo _ _ _ H) Hnd (used_not_pool _ Hu) (free_not_pool _ Hfy) Hsy) as Hg.
  set (j := joined x y) in *.
  assert (j ∈ l1 ++ [j] ++ l2) as Hj by (rewrite !elem_of_app, elem_of_cons; tauto).
  assert (x ∈ l1 ++ x :: y :: l2) as Hx by (rewrite elem_of_app, elem_of_cons; tauto).
  assert (y ∈ l1 ++ x :: y :: l2) as Hy by (rewrite elem_of_app, !elem_of_cons; tauto).
  pose proof (blk_range _ j (ge_blk _ _ Hg j Hj) (ho_ranges _ _ _ H)) as Hr.
  pose proof (bo_size _ _ (ge_blk _ _ (ho_geo _ _ _ H) x Hx)) as Hsx.
  pose proof (bo_size _ _ (ge_blk _ _ (ho_geo _ _ _ H) y Hy)) as Hsz.
  assert (ba y = bend x) as Exy.
  { pose proof (ge_adj _ _ (ho_geo _ _ _ H)) as Ha. apply consecutive_middle in Ha as (_&_&Ha&_).
    by destruct (Ha Hsy (free_not_pool _ Hfy)) as (_&?&_). }
  change (ba j) with (ba x) in Hr. assert (bend j = ba x + HEADER + (bsz x + HEADER + bsz y)) as Ej by done.
  pose proof (ho_merged _ _ _ H) as Hm. apply consecutive_middle in Hm as (Hm1&_&_&Hm2). apply consecutive_cons in Hm2 as [Hm2 Hmy].
  assert (HEADER = 48) as E48 by done. assert (MIN_SPLIT_SIZE = 16) as E16 by done. unfold expands_well in Hw.
  assert (last_fit h = ba y ∨ last_fit h = NULL ∨ last_fit h ∈ addrs (l1 ++ x :: l2)) as Hfit.
  { destruct (ho_fit _ _ _ H) as [|Hin]; [tauto|]. rewrite addrs_app, elem_of_app in *. cbn [addrs map] in *.
    rewrite !elem_of_cons in *. tauto. }
  destruct (decide (bsz x + bsz y < n + MIN_SPLIT_SIZE)) as [Hns|Hsp].
  - pose proof (expand_join (ba x) _ (hdr_of y (ba x) (first l2 NULL)) n h Ex) as Ee. cbn [size next hdr_of] in Ee.
    rewrite Ee by (rewrite (u64_id (n + HEADER)), (u64_id (n + HEADER + _)), u64_id; lia). clear Ee.
    destruct (join_ok h l1 x y l2 R) as (h'&E&H'&Hr'); [by destruct H|by apply used_not_pool|by apply free_not_pool|done|].
    exists h', (bsz j), (l1 ++ j :: l2). split; [exact E|]. split; [|split; [done|split; [unfold j, joined; simpl; lia|]]].
    + destruct H'. split; try done. apply consecutive_middle. split; [done|].
      assert (is_free j = false) as Hfj by (unfold is_free, is_used, j in *; simpl; by destruct (bk x)).
      split; [destruct (last l1); [|done]; intros _; congruence|]. split; [destruct l2; [done|]; intros ?; congruence|done].
    + by rewrite live_app, (live_used j).
  - unfold expand. rewrite (u64_id (n + HEADER)), (u64_id (n + HEADER + MIN_SPLIT_SIZE)), (u64_id (bsz x + _)) by lia.
    rewrite Z.geb_leb, (proj2 (Z.leb_le _ _)) by lia. cbn [next hdr_of].
    rewrite next_after_split_ok by (unfold bend in *; lia). cbn [next hdr_of].
    set (y' := rest j n).
    assert (ba y' = ba x + HEADER + n) as Ey' by done.
    destruct (linked_resplit h l1 x (front j n Used) y y' l2 (λ b, with_size b n) (λ b, with_next b (ba x + HEADER + n)))
      as (h1&E1&Hl1&Hr1&Hf1); [done|done| | |lia|].
    { intros p m. rewrite <- Ey'. destruct x as [a z k st rg]. unfold is_used in Hu. simpl in Hu. by destruct k. }
    { rewrite Ey'. intros Hin. apply (inner_fresh (consecutive merged) h (l1 ++ [x]) y l2 R (ba x + HEADER + n)).
      - by rewrite <- app_assoc.
      - unfold bend in *. lia.
      - rewrite <- app_assoc. revert Hin. rewrite !addrs_app, !elem_of_app. cbn [addrs map app]. rewrite !elem_of_cons. tauto. }
    cbv zeta in E1.
    assert (hdr_of y' (ba x) (first l2 NULL) =
      with_prev (with_next (new_header BH_FREE (u64 (bsz x + (HEADER + bsz y) - n - HEADER))) (first l2 NULL)) (ba x)) as Eh.
    { unfold y', rest, hdr_of, new_header, j, joined. simpl. rewrite u64_id by lia. unfold with_prev, with_next. simpl. f_equal; lia. }
    rewrite Eh, Ey' in E1.
    destruct (update _ (ba x) h) as [ha| | |]; [|done..]. cbn [mbind result_bind] in *.
    destruct (set_prev_or_tail _ _ _) as [hb| | |]; [|done..]. cbn [mbind result_bind] in *.
    rewrite E1. cbn [mbind result_bind]. eexists _, n, (l1 ++ [front j n Used; y'] ++ l2). split; [reflexivity|].
    assert (same_rest h (if last_fit h1 =? ba y then set_last_fit h1 (ba x + HEADER + n) else h1)) as Hsame by (by destruct (last_fit h1 =? ba y)).
    split; [|split; [done|split; [done|]]].
    + apply (heap_ok_splice (consecutive merged) _ h _ l1 [x; y] l2 [front j n Used; y']); try done.
      * destruct (last_fit h1 =? ba y); [|done]. destruct Hl1. by split.
      * apply geometry_split; try done.
        -- pose proof (nodup_drop _ _ _ _ Hnd) as Hn1. by rewrite addrs_app in *.
        -- by apply used_not_pool.
        -- lia.
        -- unfold j, joined; simpl. lia.
      * apply consecutive_middle. split; [done|]. split; [by destruct (last l1)|]. split; [done|].
        apply consecutive_cons. split; [done|]. destruct l2 as [|c l2]; [done|]. intros _. by apply Hmy.
      * intros z. rewrite !elem_of_cons, elem_of_nil. intros [->|[->|[]]]; [by apply used_not_pool|by apply free_not_pool].
      * rewrite Hf1. destruct (Z.eqb_spec (last_fit h) (ba y)).
        -- cbn [last_fit set_last_fit]. rewrite addrs_app, elem_of_app. cbn [app addrs map]. rewrite !elem_of_cons. tauto.
        -- rewrite Hf1. destruct Hfit as [?|[?|Hin]]; [done|tauto|]. rewrite addrs_app, elem_of_app in *. cbn [app addrs map] in *.
           rewrite !elem_of_cons in *. tauto.
    + by rewrite live_app.
Qed.
End Operations.
