(* ===== verification/HeapApi.v ===== *)
(** What the kernel heap promises its callers (src/mem/heap.c): [malloc],
    [free] and [realloc] on the live payloads, and their contents. *)

From S2P Require Import Prelude Mem Vmm Paging Heap HeapSpec HeapInv HeapOps.

Section Api.
Context {B : Type} `{!PageBackend B, !BackendLaws B}.
Implicit Types h : @heap B.

Lemma ALIGN_spec sz : 0 <= sz <= 2 ^ 46 → ALIGN HEAP_ALIGNMENT sz = round_up sz 16.
Proof.
  intros Hs. unfold ALIGN, round_up, HEAP_ALIGNMENT. rewrite u64_id by lia.
  change (16 - 1) with (2 ^ 4 - 1). rewrite (land_mask _ 4) by lia. f_equal. f_equal. lia.
Qed.

Lemma ALIGN_bounds sz : 0 < sz <= 2 ^ 46 →
  let n := ALIGN HEAP_ALIGNMENT sz in (16 | n) ∧ sz <= n < sz + 16 ∧ n <= 2 ^ 46.
Proof.
  intros Hs n. unfold n. rewrite ALIGN_spec by lia. destruct (round_up_spec sz 16) as [? ?]; [lia|].
  split; [done|]. split; [done|]. apply round_up_least; [lia|lia|]. by exists (2 ^ 42).
Qed.

(** * malloc *)

(** The three outcomes of an allocation of [sz] bytes: a payload of its own, no
    memory, or a panic of the virtual allocator. *)
Definition allocated (sz : Z) h (l : list blk) (R : list (Z * Z)) (r : result (Z * heap)) : Prop :=
  (∃ p s h' l' R', r = Ok (p, h') ∧ p ≠ NULL ∧ heap_ok h' l' R' ∧ sz <= s < sz + 80 ∧
     live l' ≡ₚ (p, s) :: live l ∧ data h' = data h ∧ pools h' = pools h ∧ (∀ x, x ∈ R → x ∈ R')) ∨
  (∃ h', r = Ok (NULL, h') ∧ heap_ok h' l R ∧ data h' = data h ∧ ∀ b, b ∈ l → is_free b = true → bsz b < sz + 16) ∨
  panics r.

Lemma malloc_ok fuel sz h l R : heap_ok h l R → 0 < sz <= 2 ^ 46 → pick_pool (pools h) 0 sz = None →
  (length l + 2 < fuel)%nat → allocated sz h l R (malloc 2 fuel sz h).
Proof.
  intros H Hs Hpp Hf. unfold malloc. rewrite (proj2 (Z.eqb_neq _ _)), Hpp by lia.
  destruct (ALIGN_bounds sz Hs) as (H16&Hb&Hmax). set (n := ALIGN _ _) in *.
  destruct (malloc_block_ok fuel n h l R H H16 ltac:(lia) Hf) as
    [(p&s&h'&l'&R'&->&Hp&H'&(_&Hd&Hpo&_)&Hss&Hl&HR)|[(h'&->&H'&(_&Hd&_&_)&Hno)|Hpan]].
  - left. exists p, s, h', l', R'. unfold HEADER, MIN_SPLIT_SIZE in *. repeat (split; [done || lia|]). done.
  - right. left. exists h'. split; [done|]. split; [done|]. split; [done|]. intros b Hb1 Hfb.
    specialize (Hno b Hb1). unfold suits in Hno. rewrite Hfb in Hno. cbn [andb] in Hno. apply Z.leb_gt in Hno. lia.
  - by right; right.
Qed.

(** * realloc *)

Lemma copy_bytes_ok d s n h : placed d n → placed s n → 0 <= n → d < 2 ^ 64 → s < 2 ^ 64 →
  copy_bytes d s n h =
    Ok (set_data h (λ a, if (d <=? a) && (a <? d + n) then data h (a - d + s) else data h a)).
Proof.
  intros Hd Hs Hn Hd64 Hs64. unfold copy_bytes, nonnull, safe.
  rewrite (proj2 (Z.eqb_neq d _)), (proj2 (Z.eqb_neq s _)) by (unfold NULL; destruct Hd, Hs; lia).
  pose proof (placed_safe d n 0 n Hd) as Hsd. pose proof (placed_safe s n 0 n Hs) as Hss.
  rewrite Z.add_0_r, u64_id in Hsd by (destruct Hd; lia). rewrite Z.add_0_r, u64_id in Hss by (destruct Hs; lia).
  by rewrite Hsd, Hss by lia.
Qed.

(** The outcomes of [realloc] of the payload of [s] bytes at [ptr] to [n]. *)
Definition reallocated (ptr s n : Z) h (l : list blk) (R : list (Z * Z)) (r : result (Z * heap)) : Prop :=
  (∃ p s' h' l' R' L, r = Ok (p, h') ∧ p ≠ NULL ∧ heap_ok h' l' R' ∧ n <= s' ∧
     live l ≡ₚ (ptr, s) :: L ∧ live l' ≡ₚ (p, s') :: L ∧
     (∀ i, 0 <= i < s → i < s' → data h' (p + i) = data h (ptr + i)) ∧
     (∀ q t i, (q, t) ∈ L → 0 <= i < t → data h' (q + i) = data h (q + i))) ∨
  (∃ h', r = Ok (NULL, h') ∧ heap_ok h' l R ∧ data h' = data h) ∨
  panics r.

Lemma heap_ok_data h l R d : heap_ok h l R → heap_ok (set_data h d) l R.
Proof. intros [[] ? ? ? ? ? ? ?]. by split. Qed.

Lemma live_rest l p s : (p, s) ∈ live l → ∃ L, live l ≡ₚ (p, s) :: L.
Proof. intros (k1&k2&->)%list_elem_of_split. exists (k1 ++ k2). by rewrite Permutation_middle. Qed.

Lemma move_ok fuel h l R p s n : heap_ok h l R → (p, s) ∈ live l → 0 < n <= 2 ^ 46 → s < n →
  pick_pool (pools h) 0 n = None → (length l + 2 < fuel)%nat →
  reallocated p s n h l R (realloc_move 2 fuel p s n HEAP_BLOCK h).
Proof.
  intros H Hin Hn Hsn Hpp Hf. unfold realloc_move. pose proof (live_bounds _ _ _ _ _ H Hin) as Hpb.
  destruct (malloc_ok fuel n h l R H Hn Hpp Hf) as
    [(q&t&h1&l1&R1&->&Hq&H1&Ht&Hl1&Hd1&_&_)|[(h1&->&H1&Hd1&_)|(t&m&->)]]; cbn [mbind result_bind].
  2: { change (NULL =? NULL) with true. right. left. by exists h1. }
  2: { right. right. by exists t, m. }
  rewrite (proj2 (Z.eqb_neq _ _)) by done.
  assert ((p, s) ∈ live l1) as Hin1 by (rewrite Hl1; by apply list_elem_of_further).
  assert ((q, t) ∈ live l1) as Hq1 by (rewrite Hl1; apply list_elem_of_here).
  pose proof (live_bounds _ _ _ _ _ H1 Hq1) as Hqb.
  rewrite copy_bytes_ok by (unfold placed, HEADER in *; lia). cbn [mbind result_bind].
  set (h2 := set_data h1 _).
  assert (heap_ok h2 l1 R1) as H2 by (by apply heap_ok_data).
  destruct (live_split _ _ _ _ _ H2 Hin1) as (k1&x&k2&El&Hu&Ep&Es).
  rewrite El in H2. unfold free_typed. rewrite (proj2 (Z.eqb_neq p _)) by (unfold NULL, HEADER in *; lia).
  destruct (free_block_ok h2 k1 x k2 R1 H2 Hu) as (h3&l3&E3&H3&(_&Hd3&_)&Hl3). rewrite <- Ep in E3, Hl3. rewrite <- Es in Hl3.
  rewrite E3. cbn [mbind result_bind]. destruct (live_rest _ _ _ Hin) as [L HL].
  assert (live l3 ≡ₚ (q, t) :: L) as Hl3'.
  { apply (Permutation_cons_inv (a := (p, s))). rewrite <- Hl3, <- El, Hl1, HL. apply Permutation_swap. }
  assert (∀ a, data h3 a = if (q <=? a) && (a <? q + s) then data h (a - q + p) else data h a) as Hdata.
  { intros a. rewrite Hd3. unfold h2. simpl. by rewrite Hd1. }
  left. exists q, t, h3, l3, R1, L. split; [done|]. split; [done|]. split; [done|]. split; [lia|]. split; [done|].
  split; [done|]. split.
  - intros i Hi _. rewrite Hdata, (proj2 (Z.leb_le _ _)), (proj2 (Z.ltb_lt _ _)) by lia. cbn [andb]. f_equal. lia.
  - intros r u i Hr Hi. rewrite Hdata.
    destruct (live_disjoint_rest h3 l3 R1 q t L r u H3 Hl3' Hr) as [?|?]; unfold HEADER in *.
    + rewrite (proj2 (Z.ltb_ge _ _)), andb_false_r by lia. done.
    + rewrite (proj2 (Z.leb_gt _ _)) by lia. done.
Qed.

(** Growing to [n] bytes does not split 16 or 32 bytes behind the old end. *)
Definition no_overlap (s n : Z) : Prop :=
  let m := ALIGN HEAP_ALIGNMENT n in m ≠ s + 16 ∧ m ≠ s + 32.

Lemma reallocated_here h l R p s n h' s' l' L : p ≠ NULL → heap_ok h' l' R → same_rest h h' → n <= s' →
  live l ≡ₚ (p, s) :: L → live l' ≡ₚ (p, s') :: L → reallocated p s n h l R (Ok (p, h')).
Proof.
  intros Hp H' (_&Hd&_) Hn HL HL'. left. exists p, s', h', l', R, L. rewrite Hd. repeat (split; [done|]). done.
Qed.

Lemma realloc_ok fuel h l R p s n : heap_ok h l R → (p, s) ∈ live l → 0 < n <= 2 ^ 46 →
  pick_pool (pools h) 0 (ALIGN HEAP_ALIGNMENT n) = None → no_overlap s n → (length l + 2 < fuel)%nat →
  reallocated p s n h l R (realloc 2 fuel p n h).
Proof.
  intros H Hin Hn Hpp Hno Hf. pose proof (live_bounds _ _ _ _ _ H Hin) as (Hp16&Hs16&Hs0&Hpl&Hph).
  destruct (ALIGN_bounds n Hn) as (H16&Hb&Hmax). unfold no_overlap in Hno. unfold realloc. set (m := ALIGN HEAP_ALIGNMENT n) in *.
  assert (p ≠ NULL) as Hp0 by (unfold NULL, HEADER in *; lia).
  rewrite (proj2 (Z.eqb_neq p _)), (proj2 (Z.eqb_neq n _)) by (done || lia).
  unfold get_ptr_type. rewrite (live_page _ _ _ _ _ H Hin).
  destruct (live_split _ _ _ _ _ H Hin) as (l1&x&l2&->&Hu&Ep&Es).
  pose proof (linked_hdr _ _ _ _ (ho_linked _ _ _ H)) as Ex. subst p s. rewrite Z.add_simpl_r, (load_ok _ _ _ Ex).
  cbn [mbind result_bind]. change (magic (hdr_of x (last_addr l1 NULL) (first l2 NULL)) =? HEAP_MAGIC) with true.
  cbn [mret result_ret mbind result_bind negb size hdr_of next]. destruct (live_rest _ _ _ Hin) as [L HL].
  rewrite Z.geb_leb. destruct (Z.leb_spec m (bsz x)) as [|Hgt].
  { by apply (reallocated_here _ _ _ _ _ _ _ (bsz x) (l1 ++ x :: l2) L); [..|lia| |]. }
  assert (reallocated (ba x + HEADER) (bsz x) n h (l1 ++ x :: l2) R (realloc_move 2 fuel (ba x + HEADER) (bsz x) m HEAP_BLOCK h)) as Hmove.
  { destruct (move_ok fuel h _ R _ _ m H Hin ltac:(lia) Hgt Hpp Hf) as [(q&t&h'&l'&R'&L'&E&?&?&?&?)|?]; [|by right].
    left. exists q, t, h', l', R', L'. repeat (split; [done || lia|]). done. }
  destruct l2 as [|y l2]; cbn [first].
  { change (NULL =? NULL) with true. cbn [mret result_ret mbind result_bind]. done. }
  assert (y ∈ l1 ++ x :: y :: l2) as Hy by (rewrite elem_of_app, !elem_of_cons; tauto).
  pose proof (ho_in _ _ _ _ _ H Hy) as Hyr. pose proof (bo_size _ _ (ge_blk _ _ (ho_geo _ _ _ H) y Hy)) as Hys.
  rewrite (proj2 (Z.eqb_neq (ba y) _)) by (unfold NULL; lia).
  assert (hdrs h !! ba y = Some (hdr_of y (ba x) (first l2 NULL))) as Ey.
  { pose proof (ho_linked _ _ _ H) as Hl'. rewrite cons_middle, app_assoc in Hl'. apply linked_hdr in Hl'. by rewrite last_addr_snoc in Hl'. }
  rewrite (load_ok _ _ _ Ey). cbn [mret result_ret mbind result_bind]. rewrite can_absorb_hdr. cbn [size hdr_of].
  destruct (mergeable y) eqn:Em; [|exact Hmove]. cbn [andb]. rewrite Z.geb_leb.
  assert (bend x + HEADER + bsz y < 2 ^ 64) as Hend.
  { apply andb_true_iff in Em as [Hfy Hsy%negb_true_iff]. pose proof (ge_adj _ _ (ho_geo _ _ _ H)) as Ha.
    apply consecutive_middle in Ha as (_&_&Ha&_). destruct (Ha Hsy (free_not_pool _ Hfy)) as (_&<-&_). unfold bend in Hyr. lia. }
  unfold bend, HEADER in *. rewrite (u64_id (bsz x + 48)), (u64_id (bsz x + 48 + bsz y)) by lia.
  destruct (Z.leb_spec m (bsz x + 48 + bsz y)) as [Hle|]; [|exact Hmove].
  destruct (expand_ok h l1 x y l2 R m H Hu Em H16) as (h'&s'&l'&E&H'&Hr&Hs'&Hl').
  { unfold HEADER. lia. }
  { left. unfold HEADER. destruct H16 as [a ->], Hs16 as [b Eb]. lia. }
  unfold HEADER in E, Hl'. rewrite u64_id in E by lia. rewrite Z.add_assoc in E. cbn [mbind result_bind].
  rewrite E. cbn [mbind result_bind].
  apply (reallocated_here _ _ _ _ _ _ _ s' l' L); [done|done|done|lia|done|].
  apply (Permutation_cons_inv (a := (ba x + 48, bsz x))). rewrite (Permutation_swap (ba x + 48, s')), <- HL, Hl'.
  rewrite live_app, (live_used x), (live_skip y) by (done || apply free_not_used; by apply andb_true_iff in Em as [? _]).
  unfold HEADER. rewrite <- !Permutation_middle. apply Permutation_swap.
Qed.

(** To 0 bytes: the payload is released. *)
Lemma realloc_zero fuel h l R p s : heap_ok h l R → (p, s) ∈ live l →
  ∃ h' l', realloc 2 fuel p 0 h = Ok (NULL, h') ∧ heap_ok h' l' R ∧ same_rest h h' ∧ live l ≡ₚ (p, s) :: live l'.
Proof.
  intros H Hin. destruct (free_ok fuel h l R p s H Hin) as (h'&l'&E&H'&Hr&Hl). exists h', l'. split; [|done].
  unfold free in E. unfold realloc. pose proof (live_bounds _ _ _ _ _ H Hin) as (_&_&_&Hpl&_).
  rewrite (proj2 (Z.eqb_neq p _)) in E |- * by (unfold NULL, HEADER in *; lia). cbn [Z.eqb].
  destruct (get_ptr_type p h) as [ty| | |]; [|done..]. cbn [mbind result_bind] in E |- *.
  destruct ty; [| |done]; by rewrite E.
Qed.

(** * Initialisation *)

Lemma heap_ok_frame h h' l R : heap_ok h l R → hdrs h' = hdrs h → head h' = head h → tail h' = tail h →
  last_fit h' = last_fit h → registry h' = registry h → back h' = back h → heap_ok h' l R.
Proof.
  intros [[] ? ? ? ? ? ? ?] E1 E2 E3 E4 E5 E6. split; try done.
  - split; [by rewrite E1|by rewrite E2|by rewrite E3|done|done].
  - by rewrite E4.
  - by rewrite E5.
  - by rewrite E6.
Qed.

Lemma add_slots_nodes a bs n fl h : ∃ x ns, add_slots a bs n fl h = (x, set_nodes h ns).
Proof.
  unfold add_slots. generalize (seqZ 0 n) as js. intros js. revert fl h.
  induction js as [|j js IH]; intros fl h; simpl; [exists fl, (nodes h); by destruct h|].
  destruct (IH (a + j * bs) (set_node h (a + j * bs) fl)) as (x&ns&->). by exists x, ns.
Qed.

Definition pool_block (v bs : Z) : blk := mkBlk v (PAGE_SIZE - HEADER) (Pool bs 0) false (v, 1).

Lemma init_pool_ok bs h l R : heap_ok h l R → (length (registry h) < 64)%nat →
  (∃ h' v, init_pool bs h = Ok h' ∧ heap_ok h' (l ++ [pool_block v bs]) ((v, 1) :: R) ∧
     data h' = data h ∧ length (registry h') = S (length (registry h))) ∨
  panics (init_pool bs h).
Proof.
  intros H Hreg. unfold init_pool.
  destruct (be_alloc (back h) R 1 (ho_back _ _ _ H)) as (p&b1&->&Hb1&Hp); [lia|]. cbn [mbind result_bind].
  destruct (Z.eqb_spec p 0) as [->|Hp0]; [right; by eexists _, _|]. destruct Hp as [|Hp]; [done|].
  destruct (be_valloc b1 R 1 PAGE_SIZE) as [(v&b2&->&Hf&Hb2)|(t&m&->)]; [done|lia|by left| |by right; exists t, m].
  cbn [mbind result_bind]. rewrite (proj2 (Z.eqb_neq v 0)) by (by apply (range_nonzero (v, 1)), Hf).
  destruct (be_map b2 ((v, 1) :: R) v 1 0 p (Z.lor KERNEL_HEAP_FLAGS PTE_TYPE_HEAP_POOL)) as (b3&E3&Em3&Hb3);
    [done|apply list_elem_of_here|lia|unfold PAGE_SIZE in *; lia|].
  rewrite Z.mul_0_l, Z.add_0_r in E3, Em3. unfold checked. rewrite E3. cbn [mbind result_bind]. rewrite Em3. cbn [mret result_ret mbind result_bind]. cbv zeta.
  rewrite Z.geb_leb, (proj2 (Z.leb_gt _ _)) by (unfold MAX_POOL_PAGES; simpl; lia).
  destruct (heap_ok_append h l R (pool_block v bs) 1 b3 (mkHeader HEAP_MAGIC BH_POOL_BLOCK (PAGE_SIZE - HEADER) bs 0 NULL NULL) _
    H Hf eq_refl eq_refl (or_intror eq_refl) ltac:(done) eq_refl eq_refl
    (store (set_registry (set_back h b3) (registry h ++ [v])) v (mkHeader HEAP_MAGIC BH_POOL_BLOCK (PAGE_SIZE - HEADER) bs 0 NULL NULL)))
    as (h'&E&Hok&Hrest); try done.
  change (ba (pool_block v bs)) with v in E. change (registry (set_back h b3)) with (registry h). rewrite E. cbn [mbind result_bind].
  destruct (add_slots_nodes (v + HEADER) bs ((PAGE_SIZE - HEADER) / bs) NULL h') as (x&ns&->).
  left. eexists _, v. split; [done|]. split; [by apply (heap_ok_frame h')|].
  destruct Hrest as (_&Ed&_&Er&_). simpl. rewrite Ed, Er. simpl. rewrite length_app. simpl. split; [done|lia].
Qed.

Lemma heap_ok_init v n b hs : range_ok (v, n) → be_ok b [(v, n)] →
  hs = {[ v := new_header (Z.lor BH_FREE BH_BOUNDARY_START) (n * PAGE_SIZE - HEADER) ]} →
  ∀ h, hdrs h = hs → head h = v → tail h = v → last_fit h = NULL → registry h = [] → back h = b →
  heap_ok h [region v n] [(v, n)].
Proof.
  intros Hr Hb -> h E1 E2 E3 E4 E5 E6. pose proof Hr as (?&?&?&Hd). simpl in *. split; try done.
  - split; [|done|done|apply NoDup_singleton|by repeat constructor; simpl; lia].
    rewrite E1. split; [|done]. apply lookup_insert_eq.
  - split; [|by intros ? ? ->%list_elem_of_singleton ->%list_elem_of_singleton|done].
    intros c ->%list_elem_of_singleton. split; [| | |done].
    + simpl. split; [apply (Z.divide_trans _ PAGE_SIZE); [by exists 256|done]|].
      apply Z.divide_sub_r; [apply Z.divide_mul_r; by exists 256|by exists 3].
    + simpl. unfold PAGE_SIZE, HEADER in *. lia.
    + split; [apply list_elem_of_here|]. unfold inside, bend. simpl. unfold HEADER. lia.
  - by repeat constructor.
  - by left.
  - intros p Hp. rewrite E5 in Hp. by apply elem_of_nil in Hp.
  - by rewrite E6.
Qed.

Lemma heap_init_ok bytes b sz : be_ok b [] → 0 < sz <= 2 ^ 46 →
  (∃ h l R, heap_init bytes b sz = Ok h ∧ heap_ok h l R ∧ live l = [] ∧ length l = 4%nat ∧ data h = bytes) ∨
  panics (heap_init bytes b sz).
Proof.
  intros Hb Hs. unfold heap_init. rewrite (u64_id (sz + PAGE_SIZE - 1)) by (unfold PAGE_SIZE; lia).
  pose proof (Z.div_mod (sz + PAGE_SIZE - 1) PAGE_SIZE ltac:(done)) as Hdm.
  pose proof (Z.mod_pos_bound (sz + PAGE_SIZE - 1) PAGE_SIZE ltac:(done)) as Hmb.
  set (n := (sz + PAGE_SIZE - 1) / PAGE_SIZE) in *.
  assert (0 < n < 2 ^ 36) as Hn by (unfold PAGE_SIZE in *; lia).
  destruct (be_valloc b [] n PAGE_SIZE) as [(v&b2&->&[Hr _]&Hb2)|(t&m&->)]; [done|lia|by left| |by right; exists t, m].
  cbn [mbind result_bind]. rewrite (proj2 (Z.eqb_neq v 0)) by (by apply (range_nonzero (v, n))).
  destruct (be_alloc b2 [(v, n)] n Hb2) as (p&b1&->&Hb1&Hp); [lia|]. cbn [mbind result_bind].
  destruct (Z.eqb_spec p 0) as [->|Hp0]; [right; by eexists _, _|]. destruct Hp as [|Hp]; [done|].
  destruct (map_pages_ok map_page PAGE_SIZE v p (Z.lor KERNEL_HEAP_FLAGS PTE_TYPE_HEAP_BLOCK) [(v, n)] n b1) as (b3&->&Hb3); [|done|].
  { intros i b' Hi Hb'. apply (be_map b' _ v n); [done|apply list_elem_of_here|lia|unfold PAGE_SIZE in *; lia]. }
  cbn [mbind result_bind]. rewrite u64_id by (unfold PAGE_SIZE, HEADER in *; lia).
  set (h := mkHeap _ _ _ _ _ _ _ _ _). assert (heap_ok h [region v n] [(v, n)]) as H by (by apply (heap_ok_init v n b3 _ Hr Hb3 eq_refl)).
  unfold heap_init_pools, pool_sizes. cbn [foldl mbind result_bind].
  assert (∀ bs h l R, heap_ok h l R → (length (registry h) < 64)%nat → live l = [] → data h = bytes →
    (∃ h' l' R', init_pool bs h = Ok h' ∧ heap_ok h' l' R' ∧ live l' = [] ∧ length l' = S (length l) ∧ data h' = bytes ∧ length (registry h') = S (length (registry h))) ∨
    panics (init_pool bs h)) as Hpool.
  { intros bs h1 l1 R1 H1 Hr1 Hl1 Hd1. destruct (init_pool_ok bs h1 l1 R1 H1 Hr1) as [(h'&w&E&H'&Hd'&Hr')|?]; [|by right].
    left. exists h', (l1 ++ [pool_block w bs]), ((w, 1) :: R1). split; [done|]. split; [done|].
    split; [rewrite live_app, Hl1; done|]. split; [rewrite length_app; simpl; lia|]. by rewrite Hd'. }
  destruct (Hpool 32 (set_pools h []) [region v n] [(v, n)]) as [(h1&l1&R1&->&H1&Hl1&Hn1&Hd1&Hr1)|(t&m&->)];
    [by apply (heap_ok_frame h)|simpl; lia|done|done| |by right; exists t, m].
  cbn [mbind result_bind].
  destruct (Hpool 64 h1 l1 R1) as [(h2&l2&R2&->&H2&Hl2&Hn2&Hd2&Hr2)|(t&m&->)]; [done|rewrite Hr1; simpl; lia|done|done| |by right; exists t, m].
  cbn [mbind result_bind].
  destruct (Hpool 128 h2 l2 R2) as [(h3&l3&R3&->&H3&Hl3&Hn3&Hd3&Hr3)|(t&m&->)]; [done|rewrite Hr2, Hr1; simpl; lia|done|done| |by right; exists t, m].
  left. exists h3, l3, R3. do 3 (split; [done|]). split; [by rewrite Hn3, Hn2, Hn1|done].
Qed.

(** C11: an allocation of [sz] bytes that no pool serves returns a payload of at
    least [sz] and less than [sz + 80] bytes that joins the live payloads and
    leaves the others, their contents and the invariant alone; or it returns
    NULL, leaves the blocks as they were, and no free block was 16 bytes larger
    than the request; or the virtual allocator panicked.  The fuel need only
    exceed the number of blocks. *)
Theorem heap_malloc_correct fuel sz h l R : heap_ok h l R → 0 < sz <= 2 ^ 46 → pick_pool (pools h) 0 sz = None →
  (length l + 2 < fuel)%nat → allocated sz h l R (malloc 2 fuel sz h).
Proof. apply malloc_ok. Qed.

(** C12: freeing a live payload removes it from the live payloads, keeps the
    others and all contents, and keeps the invariant: the block list linked both
    ways and the free neighbours of a region merged. *)
Theorem heap_free_correct fuel h l R p s : heap_ok h l R → (p, s) ∈ live l →
  ∃ h' l', free fuel p h = Ok h' ∧ heap_ok h' l' R ∧ same_rest h h' ∧ live l ≡ₚ (p, s) :: live l'.
Proof. apply free_ok. Qed.

(** C13: [realloc].  Growing or keeping a live payload of [s] bytes, [n] bytes
    being asked for and no pool serving them, gives a payload of at least [n] bytes
    in its place, in place or moved, with the contents of the old one, and leaves
    the other payloads and their contents alone; or it returns NULL and keeps the
    old payload; or the virtual allocator panicked.  This holds unless [n] rounds
    to 16 or 32 bytes more than [s], where the code may lose blocks, see
    [realloc_loses_blocks].  To 0 bytes the payload is released and NULL returned;
    of NULL it is [malloc]; a slot of a pool stays where it is as long as it is
    large enough; and a pointer without a header in front of it panics.  Moving
    the contents of a slot out of its pool is not covered. *)
Theorem heap_realloc_correct fuel h l R p n : heap_ok h l R → 0 < n <= 2 ^ 46 → (length l + 2 < fuel)%nat →
  (∀ s, (p, s) ∈ live l → pick_pool (pools h) 0 (ALIGN HEAP_ALIGNMENT n) = None → no_overlap s n →
     reallocated p s n h l R (realloc 2 fuel p n h)) ∧
  (∀ s, (p, s) ∈ live l → ∃ h' l', realloc 2 fuel p 0 h = Ok (NULL, h') ∧ heap_ok h' l' R ∧ same_rest h h' ∧ live l ≡ₚ (p, s) :: live l') ∧
  realloc 2 fuel NULL n h = malloc 2 fuel n h ∧
  (∀ b, p ≠ NULL → is_pool_page (page_of p) h = true → hdrs h !! page_of p = Some b → ALIGN HEAP_ALIGNMENT n <= bin_size b →
     realloc 2 fuel p n h = Ok (p, h)) ∧
  (∀ b, p ≠ NULL → is_pool_page (page_of p) h = false → hdrs h !! (p - HEADER) = Some b → magic b ≠ HEAP_MAGIC →
     realloc 2 fuel p n h = Panic "REALLOC ERROR" "realloc on unmanaged pointer").
Proof.
  intros H Hn Hf. split; [intros; by apply realloc_ok|]. split; [intros; by apply realloc_zero|]. split; [done|]. unfold realloc, get_ptr_type. split.
  - intros b Hp Hr Hb Hle. rewrite (proj2 (Z.eqb_neq p _)), (proj2 (Z.eqb_neq n _)), Hr by (done || lia). cbn [mbind result_bind mret result_ret].
    unfold load. rewrite Hb. cbn [of_option mbind result_bind]. by rewrite (proj2 (Z.leb_le _ _)).
  - intros b Hp Hr Hb Hm. rewrite (proj2 (Z.eqb_neq p _)), (proj2 (Z.eqb_neq n _)), Hr by (done || lia). cbn [mbind result_bind mret result_ret].
    unfold load. rewrite Hb. cbn [of_option mbind result_bind]. by rewrite (proj2 (Z.eqb_neq _ _) Hm).
Qed.

(** initialisation reaches the invariant with no live payload, on every
    backend that keeps its laws, or it panics because memory ran out. *)
Theorem heap_init_correct bytes b sz : be_ok b [] → 0 < sz <= 2 ^ 46 →
  (∃ h l R, heap_init bytes b sz = Ok h ∧ heap_ok h l R ∧ live l = [] ∧ length l = 4%nat ∧ data h = bytes) ∨
  panics (heap_init bytes b sz).
Proof. apply heap_init_ok. Qed.
End Api.

(** * A concrete backend *)

(** A bump allocator of virtual ranges over one physical range; [bump] is the
    next free address. *)
Record bump_state := mkBump { bump : Z }.

Definition bump_end : Z := 2 ^ 64 - 2 ^ 32.

#[export] Instance bump_backend : PageBackend bump_state := {|
  pma_alloc_pages b n := Ok (if n * PAGE_SIZE <=? 2 ^ 47 then 0x100000 else 0, b);
  pma_alloc_pages_2mb b n := Ok (if n * PAGE_SIZE_2MB <=? 2 ^ 47 then 0x200000 else 0, b);
  pma_free_pages b _ _ := Ok b;
  vmm_alloc_aligned b n align :=
    let v := round_up (bump b) align in
    if v + n * PAGE_SIZE <? bump_end then Ok (v, mkBump (v + n * PAGE_SIZE)) else Panic "VMM" "out of virtual memory";
  vmm_free_pages b _ _ := Ok b;
  map_page b _ _ _ := Ok b;
  map_2mb b _ _ _ := Ok b;
  get_pte _ _ := Ok None;
  mapped _ _ := true
|}.

Definition bump_ok (b : bump_state) (R : list (Z * Z)) : Prop :=
  2 ^ 64 - 2 ^ 56 <= bump b ∧ ∀ r, r ∈ R → r.1 + r.2 * PAGE_SIZE <= bump b.

Lemma bump_valloc b R n align : bump_ok b R → 0 < n < 2 ^ 36 → align = PAGE_SIZE ∨ align = PAGE_SIZE_2MB →
  (∃ v b', vmm_alloc_aligned b n align = Ok (v, b') ∧ fresh R (v, n) ∧ bump_ok b' ((v, n) :: R)) ∨
  ∃ t m, vmm_alloc_aligned b n align = Panic t m.
Proof.
  intros [Hb HR] Hn Ha. simpl. assert ((PAGE_SIZE | align) ∧ 0 < align) as [Hd Hal].
  { destruct Ha as [-> | ->]; (split; [|done]); [done|by exists 512]. }
  destruct (round_up_spec (bump b) align Hal) as [Hv Hdiv]. set (v := round_up _ _) in *. unfold bump_end.
  destruct (Z.ltb_spec (v + n * PAGE_SIZE) (2 ^ 64 - 2 ^ 32)); [left|right; by eexists _, _].
  exists v, (mkBump (v + n * PAGE_SIZE)). split; [done|]. split.
  - split; [repeat split; simpl; [lia|lia|lia|by etransitivity]|].
    intros s Hs. specialize (HR s Hs). right. simpl. lia.
  - split; [simpl; unfold PAGE_SIZE; lia|]. intros r Hr. simpl. apply elem_of_cons in Hr as [->|Hr]; [done|].
    specialize (HR r Hr). unfold PAGE_SIZE in *. lia.
Qed.

#[export] Instance bump_laws : BackendLaws bump_state.
Proof.
  refine {| be_ok := bump_ok; be_alloc := _; be_alloc_2mb := _; be_valloc := bump_valloc; be_map := _; be_map_2mb := _ |}.
  - intros b R n Hb Hn. eexists _, b. split; [done|]. split; [done|]. case_z; [right|by left]. lia.
  - intros b R n Hb Hn. eexists _, b. split; [done|]. split; [done|]. case_z; [right|by left]. lia.
  - intros b R v n k p f Hb _ _ _. by exists b.
  - intros b R v n k p f Hb _ _ _. by exists b.
Defined.

(** * Concrete runs *)

Definition bump0 : bump_state := mkBump 0xffff900000000000.

Definition heap0 : result (@heap bump_state) := heap_init (λ _, 0) bump0 0x8000.

Definition heap_of (m : result (@heap bump_state)) : heap :=
  match m with Ok h => h | _ => mkHeap ∅ ∅ (λ _, 0) 0 0 0 [] [] bump0 end.
Definition ptr_of (m : result (Z * @heap bump_state)) : option Z :=
  match m with Ok (p, _) => Some p | _ => None end.

Definition heap1 : @heap bump_state := heap_of heap0.

(** What an outcome of the theorems says of a run that was evaluated. *)
Lemma init_run m (P : heap → list blk → list (Z * Z) → Prop) :
  is_ok m = true → (∃ h l R, m = Ok h ∧ P h l R) ∨ panics m → ∃ l R, P (heap_of m) l R.
Proof. by intros Hr [(h&l&R&->&H)|(t&s&->)]; [exists l, R|]. Qed.

Lemma malloc_run sz h l R m p : ptr_of m = Some p → p ≠ NULL → live l = [] → allocated sz h l R m →
  ∃ s l' R', heap_ok (heap_of ('(_, h) ← m; mret h)) l' R' ∧ live l' = [(p, s)] ∧ sz <= s < sz + 80 ∧
    pools (heap_of ('(_, h) ← m; mret h)) = pools h.
Proof.
  intros Hp H0 Hl [(q&s&h'&l'&R'&->&_&H'&Hs&Hl'&_&Hpo&_)|[(h'&->&_)|(t&e&->)]]; [|by injection Hp as <-|done].
  injection Hp as ->. exists s, l', R'. rewrite Hl in Hl'. apply Permutation_singleton_r in Hl'. done.
Qed.

Lemma heap0_runs : is_ok heap0 = true.
Proof. vm_compute. reflexivity. Qed.

Lemma bump0_ok : be_ok bump0 [].
Proof. split; [simpl; lia|]. intros r Hr. by apply elem_of_nil in Hr. Qed.

Lemma heap_init_correct_witness : ∃ l R, heap_ok heap1 l R ∧ live l = [] ∧ length l = 4%nat ∧ data heap1 = λ _, 0.
Proof.
  exact (init_run heap0 (λ h l R, heap_ok h l R ∧ live l = [] ∧ length l = 4%nat ∧ data h = λ _, 0) heap0_runs
    (heap_init_correct (λ _, 0) bump0 0x8000 bump0_ok ltac:(lia))).
Defined.

Lemma heap1_ok : ∃ l R, heap_ok heap1 l R ∧ live l = [] ∧ length l = 4%nat ∧ data heap1 = λ _, 0.
Proof.
  exact (init_run heap0 (λ h l R, heap_ok h l R ∧ live l = [] ∧ length l = 4%nat ∧ data h = λ _, 0) heap0_runs
    (heap_init_ok (λ _, 0) bump0 0x8000 bump0_ok ltac:(lia))).
Qed.

(** A request of 200 bytes. *)
Definition ptr1 : Z := 0xffff900000000030.
Definition heap2 : @heap bump_state := heap_of ('(_, h) ← malloc 2 16 200 heap1; mret h).

Lemma heap2_ptr : ptr_of (malloc 2 16 200 heap1) = Some ptr1.
Proof. vm_compute. reflexivity. Qed.

Lemma big_no_pool ps sz : map block_size ps = [32; 64; 128] → 128 < sz → pick_pool ps 0 sz = None.
Proof.
  intros E Hs. destruct ps as [|p1 [|p2 [|p3 [|]]]]; try done. injection E as E1 E2 E3. simpl.
  by rewrite E1, E2, E3, !(proj2 (Z.leb_gt _ _)) by lia.
Qed.

Lemma heap1_pools sz : 128 < sz → pick_pool (pools heap1) 0 sz = None.
Proof. apply big_no_pool. vm_compute. reflexivity. Qed.

Lemma heap_malloc_correct_witness :
  ∃ s l R, heap_ok heap2 l R ∧ live l = [(ptr1, s)] ∧ 200 <= s < 200 + 80 ∧ pools heap2 = pools heap1.
Proof.
  destruct heap1_ok as (l&R&H&Hl&Hn&_).
  exact (malloc_run 200 heap1 l R _ ptr1 heap2_ptr ltac:(done) Hl
    (heap_malloc_correct 16 200 heap1 l R H ltac:(lia) (heap1_pools 200 ltac:(lia)) ltac:(lia))).
Defined.

Lemma heap2_ok : ∃ s l R, heap_ok heap2 l R ∧ live l = [(ptr1, s)] ∧ 200 <= s < 200 + 80 ∧ pools heap2 = pools heap1.
Proof.
  destruct heap1_ok as (l&R&H&Hl&Hn&_).
  exact (malloc_run 200 heap1 l R _ ptr1 heap2_ptr ltac:(done) Hl
    (malloc_ok 16 200 heap1 l R H ltac:(lia) (heap1_pools 200 ltac:(lia)) ltac:(lia))).
Qed.

Lemma heap_free_correct_witness : ∃ h' l' R, free 0 ptr1 heap2 = Ok h' ∧ heap_ok h' l' R ∧ live l' = [].
Proof.
  destruct heap2_ok as (s&l&R&H&Hl&_).
  destruct (heap_free_correct 0 heap2 l R ptr1 s H) as (h'&l'&E&H'&_&Hl').
  { rewrite Hl. apply list_elem_of_here. }
  exists h', l', R. split; [done|]. split; [done|]. rewrite Hl in Hl'. apply Permutation_singleton_l in Hl'. by injection Hl'.
Defined.

(** Growing it to 1000 bytes; [fuel] need only exceed the number of blocks. *)
Lemma heap_realloc_correct_witness : ∃ fuel h l R, heap_ok h l R ∧
  reallocated ptr1 208 1000 h l R (realloc 2 fuel ptr1 1000 h).
Proof.
  destruct heap2_ok as (s&l&R&H&Hl&Hs&Hp). exists (length l + 3)%nat, heap2, l, R. split; [done|].
  assert (s = 208) as ->.
  { assert ((size <$> (hdrs heap2 !! (ptr1 - HEADER))) = Some 208) as E by (vm_compute; reflexivity).
    destruct (live_split heap2 l R ptr1 s H) as (l1&x&l2&->&Hu&Ep&->); [rewrite Hl; apply list_elem_of_here|].
    rewrite Ep, Z.add_simpl_r, (linked_hdr _ _ _ _ (ho_linked _ _ _ H)) in E. by injection E. }
  destruct (heap_realloc_correct (length l + 3) heap2 l R ptr1 1000 H ltac:(lia) ltac:(lia)) as [Hre _]. apply Hre.
  - rewrite Hl. apply list_elem_of_here.
  - rewrite Hp. apply heap1_pools. vm_compute. reflexivity.
  - split; vm_compute; discriminate.
Defined.

(** The list after freeing the middle one of three payloads and growing the
    first one by [d] bytes: the sizes from the head on. *)
Definition block_sizes (h : @heap bump_state) : list Z :=
  (fix go fuel a := match fuel with
    | O => []
    | S fuel => match hdrs h !! a with None => [] | Some b => size b :: go fuel (next b) end
    end) 16%nat (head h).

Definition grow_run (d : Z) : result (list Z) :=
  '(p, h) ← malloc 2 16 208 heap1; '(q, h) ← malloc 2 16 208 h; '(r, h) ← malloc 2 16 208 h;
  h ← free 16 q h; '(_, h) ← realloc 2 16 p (208 + d) h; mret (block_sizes h).

(** growing a block in place by 48 bytes keeps every block on the list, but
    growing it by 16 or by 32 bytes overwrites the link of the block it grows
    into before reading it: by 16 bytes the rest of the list is lost, by 32
    bytes the heap follows the magic number as a pointer. *)
Theorem realloc_loses_blocks :
  grow_run 48 = Ok [256; 160; 208; 31952; 4048; 4048; 4048] ∧ grow_run 16 = Ok [224; 192] ∧ grow_run 32 = Fault.
Proof. split; [|split]; vm_compute; reflexivity. Qed.

(** The rounding of a size near [2 ^ 64] wraps to 0, which any block serves. *)
Example malloc_wraps : ptr_of (malloc 2 16 (2 ^ 64 - 1) heap1) = Some ptr1.
Proof. vm_compute. reflexivity. Qed.
