(* ===== verification/HeapRun.v ===== *)
(** Programs that use the kernel heap: sequences of [malloc], [free], [realloc]
    and writes to what was allocated, after [heap_init].

    A sequence knows the live allocations and what was written to each, nothing
    of headers and lists; in every state the heap holds exactly that. *)

From S2P Require Import Prelude Mem Vmm Paging Heap HeapSpec HeapInv HeapOps HeapApi.

Section Run.
Context {B : Type} `{!PageBackend B, !BackendLaws B}.
Implicit Types h : @heap B.

(** The bytes at [p] are [bs]. *)
Definition contents h (p : Z) (bs : list Z) : Prop := ∀ (i : nat) c, bs !! i = Some c → data h (p + Z.of_nat i) = c.

Definition write_byte (a c : Z) h : heap := set_data h (λ x, if x =? a then c else data h x).

(** [heap_run h A]: a sequence leads to [h], [A] being the live allocations, each
    with its address and bytes.  Fresh bytes are what memory holds there.
    Requests that a pool serves are left out, and so is growth by 16 or 32 bytes,
    in which the code may lose blocks. *)
Inductive heap_run : heap → list (Z * list Z) → Prop :=
| run_init bytes b sz h : be_ok b [] → 0 < sz <= 2 ^ 46 → heap_init bytes b sz = Ok h → heap_run h []
| run_malloc h A fuel n p h' bs :
    heap_run h A → 0 < n <= 2 ^ 46 → pick_pool (pools h) 0 n = None → (base.size (hdrs h) + 2 < fuel)%nat →
    malloc 2 fuel n h = Ok (p, h') → Z.of_nat (length bs) = n → contents h' p bs →
    heap_run h' (if decide (p = NULL) then A else (p, bs) :: A)
| run_free h A1 p bs A2 fuel h' :
    heap_run h (A1 ++ (p, bs) :: A2) → free fuel p h = Ok h' → heap_run h' (A1 ++ A2)
| run_realloc h A1 p bs A2 fuel n q h' bs' :
    heap_run h (A1 ++ (p, bs) :: A2) → 0 < n <= 2 ^ 46 → pick_pool (pools h) 0 (ALIGN HEAP_ALIGNMENT n) = None →
    (∀ b, hdrs h !! (p - HEADER) = Some b → no_overlap (Heap.size b) n) → (base.size (hdrs h) + 2 < fuel)%nat →
    realloc 2 fuel p n h = Ok (q, h') →
    Z.of_nat (length (take (Z.to_nat n) bs ++ bs')) = n → contents h' (q + Z.of_nat (length (take (Z.to_nat n) bs))) bs' →
    heap_run h' (if decide (q = NULL) then A1 ++ (p, bs) :: A2 else (q, take (Z.to_nat n) bs ++ bs') :: A1 ++ A2)
| run_write h A1 p bs A2 i c :
    heap_run h (A1 ++ (p, bs) :: A2) → (i < length bs)%nat →
    heap_run (write_byte (p + Z.of_nat i) c h) (A1 ++ (p, <[i := c]> bs) :: A2).

(** An allocation and the payload it has. *)
Definition serves h (a : Z * list Z) (k : Z * Z) : Prop :=
  a.1 = k.1 ∧ Z.of_nat (length a.2) <= k.2 ∧ contents h a.1 a.2.

Definition run_ok h (A : list (Z * list Z)) : Prop :=
  ∃ l R K, heap_ok h l R ∧ live l ≡ₚ K ∧ Forall2 (serves h) A K.

Lemma blocks_bound h l : linked h l → (length l <= base.size (hdrs h))%nat.
Proof.
  intros H. rewrite <- (length_map ba l). rewrite <- (size_list_to_set (C := gset Z) (map ba l)) by apply H.
  rewrite <- size_dom. apply subseteq_size. intros a Ha. apply elem_of_list_to_set in Ha. apply elem_of_dom.
  apply list_elem_of_fmap in Ha as (b&->&Hb). apply list_elem_of_split in Hb as (l1&l2&->). eexists. by apply linked_hdr.
Qed.

(** Allocations whose payloads keep their bytes. *)
Lemma serves_keep h h' A K : Forall2 (serves h) A K → (∀ p t i, (p, t) ∈ K → 0 <= i < t → data h' (p + i) = data h (p + i)) →
  Forall2 (serves h') A K.
Proof.
  intros H Hd. induction H as [|[p bs] [q t] A K (Ep&Hl&Hc) _ IH]; constructor.
  - simpl in *. subst q. split; [done|]. split; [done|]. intros i c Hi. pose proof (lookup_lt_Some _ _ _ Hi).
    simpl. rewrite Hd with (t := t); [by apply Hc|apply list_elem_of_here|cbn [fst snd] in *; lia].
  - apply IH. intros r u i Hr. apply Hd. by apply list_elem_of_further.
Qed.

Lemma serves_same h h' A K : data h' = data h → Forall2 (serves h) A K → Forall2 (serves h') A K.
Proof. intros E H. eapply serves_keep; [exact H|]. intros. by rewrite E. Qed.

(** The payload of an allocation in the middle. *)
Lemma serves_middle h A1 p bs A2 K : Forall2 (serves h) (A1 ++ (p, bs) :: A2) K →
  ∃ K1 s K2, K = K1 ++ (p, s) :: K2 ∧ Forall2 (serves h) (A1 ++ A2) (K1 ++ K2) ∧ serves h (p, bs) (p, s) ∧ length K1 = length A1.
Proof.
  intros (K1&K'&H1&H2&->)%Forall2_app_inv_l. apply Forall2_cons_inv_l in H2 as ([q s]&K2&Hs&H2&->). pose proof Hs as (E&_). simpl in E. subst q.
  exists K1, s, K2. split; [done|]. split; [by apply Forall2_app|]. split; [done|]. symmetry. by eapply Forall2_length.
Qed.

Lemma contents_app h p b1 b2 : contents h p b1 → contents h (p + Z.of_nat (length b1)) b2 → contents h p (b1 ++ b2).
Proof.
  intros H1 H2 i c [Hi|[Hl Hi]]%lookup_app_Some; [by apply H1|]. rewrite <- (H2 _ _ Hi). f_equal. lia.
Qed.

Lemma run_malloc_ok h A fuel n p h' bs : run_ok h A → 0 < n <= 2 ^ 46 → pick_pool (pools h) 0 n = None →
  (base.size (hdrs h) + 2 < fuel)%nat → malloc 2 fuel n h = Ok (p, h') → Z.of_nat (length bs) = n → contents h' p bs →
  run_ok h' (if decide (p = NULL) then A else (p, bs) :: A).
Proof.
  intros (l&R&K&H&HK&HA) Hn Hpp Hf E Hbs Hc. pose proof (blocks_bound _ _ (ho_linked _ _ _ H)).
  destruct (malloc_ok fuel n h l R H Hn Hpp ltac:(lia)) as [(q&s&h1&l1&R1&E1&Hq&H1&Hs&Hl1&Hd&_)|[(h1&E1&H1&Hd&_)|(t&m&E1)]];
    rewrite E in E1; [injection E1 as <- <-|injection E1 as -> <-|done].
  - rewrite decide_False by done. exists l1, R1, ((p, s) :: K). split; [done|]. split; [by rewrite Hl1, HK|].
    constructor; [by split; [|split; [simpl; lia|]]|by eapply serves_same].
  - rewrite decide_True by done. exists l, R, K. split; [done|]. split; [done|]. by eapply serves_same.
Qed.

Lemma run_free_ok h A1 p bs A2 fuel : run_ok h (A1 ++ (p, bs) :: A2) → ∃ h', free fuel p h = Ok h' ∧ run_ok h' (A1 ++ A2).
Proof.
  intros (l&R&K&H&HK&HA). destruct (serves_middle _ _ _ _ _ _ HA) as (K1&s&K2&->&HA'&Hs&_). rewrite <- Permutation_middle in HK.
  destruct (free_ok fuel h l R p s H) as (h'&l'&E&H'&(_&Hd&_)&Hl'); [rewrite HK; apply list_elem_of_here|].
  exists h'. split; [done|]. exists l', R, (K1 ++ K2). split; [done|]. split; [|by eapply serves_same].
  apply (Permutation_cons_inv (a := (p, s))). by rewrite <- Hl'.
Qed.

Lemma run_realloc_ok h A1 p bs A2 fuel n q h' bs' : run_ok h (A1 ++ (p, bs) :: A2) → 0 < n <= 2 ^ 46 →
  pick_pool (pools h) 0 (ALIGN HEAP_ALIGNMENT n) = None → (∀ b, hdrs h !! (p - HEADER) = Some b → no_overlap (Heap.size b) n) →
  (base.size (hdrs h) + 2 < fuel)%nat → realloc 2 fuel p n h = Ok (q, h') →
  Z.of_nat (length (take (Z.to_nat n) bs ++ bs')) = n → contents h' (q + Z.of_nat (length (take (Z.to_nat n) bs))) bs' →
  run_ok h' (if decide (q = NULL) then A1 ++ (p, bs) :: A2 else (q, take (Z.to_nat n) bs ++ bs') :: A1 ++ A2).
Proof.
  intros (l&R&K&H&HK&HA) Hn Hpp Hno Hf E Hlen Hc. pose proof (blocks_bound _ _ (ho_linked _ _ _ H)).
  destruct (serves_middle _ _ _ _ _ _ HA) as (K1&s&K2&->&HA'&(_&Hbs&Hold)&_). rewrite <- Permutation_middle in HK.
  assert ((p, s) ∈ live l) as Hin by (rewrite HK; apply list_elem_of_here).
  assert (no_overlap s n) as Hns.
  { destruct (live_split _ _ _ _ _ H Hin) as (l1&x&l2&->&_&Ep&->). apply (Hno (hdr_of x (last_addr l1 NULL) (first l2 NULL))).
    rewrite Ep, Z.add_simpl_r. apply (linked_hdr _ _ _ _ (ho_linked _ _ _ H)). }
  destruct (realloc_ok fuel h l R p s n H Hin Hn Hpp Hns ltac:(lia)) as
    [(r&s'&h1&l1&R1&L&E1&Hr&H1&Hs'&HL&HL1&Hcp&Hoth)|[(h1&E1&H1&Hd)|(t&m&E1)]]; rewrite E in E1; [injection E1 as <- <-|injection E1 as -> <-|done].
  - rewrite decide_False by done. exists l1, R1, ((q, s') :: K1 ++ K2). split; [done|].
    assert (L ≡ₚ K1 ++ K2) as HLK by (apply (Permutation_cons_inv (a := (p, s))); by rewrite <- HL). split; [by rewrite HL1, HLK|].
    constructor.
    + split; [done|]. simpl in Hbs |- *. split; [lia|]. apply contents_app; [|done]. intros i c Hi. apply lookup_take_Some in Hi as [Hi Hin'].
      pose proof (lookup_lt_Some _ _ _ Hi). rewrite Hcp by lia. by apply Hold.
    + eapply serves_keep; [exact HA'|]. intros r u i Hru. apply Hoth. by rewrite HLK.
  - rewrite decide_True by done. exists l, R, (K1 ++ (p, s) :: K2). split; [done|]. split; [by rewrite <- Permutation_middle|]. by eapply serves_same.
Qed.

Lemma run_write_ok h A1 p bs A2 i c : run_ok h (A1 ++ (p, bs) :: A2) → (i < length bs)%nat →
  run_ok (write_byte (p + Z.of_nat i) c h) (A1 ++ (p, <[i := c]> bs) :: A2).
Proof.
  intros (l&R&K&H&HK&HA) Hi. apply Forall2_app_inv_l in HA as (K1&K'&H1&H2&->). apply Forall2_cons_inv_l in H2 as ([q s]&K2&(Eq&Hbs&Hc)&H2&->).
  simpl in Eq, Hbs, Hc. subst q. exists l, R, (K1 ++ (p, s) :: K2). split; [by apply heap_ok_data|]. split; [done|].
  rewrite <- Permutation_middle in HK.
  assert (∀ A K0, (∀ x, x ∈ K0 → x ∈ K1 ++ K2) → Forall2 (serves h) A K0 → Forall2 (serves (write_byte (p + Z.of_nat i) c h)) A K0) as Hoth.
  { intros A K0 Hsub HA. eapply serves_keep; [exact HA|]. intros r u j Hr Hj. simpl.
    destruct (live_disjoint_rest h l R p s _ r u H HK (Hsub _ Hr)) as [?|?]; unfold HEADER in *; by rewrite (proj2 (Z.eqb_neq _ _)) by lia. }
  apply Forall2_app; [apply Hoth; [intros x Hx; apply elem_of_app; by left|done]|].
  constructor; [|apply Hoth; [intros x Hx; apply elem_of_app; by right|done]].
  split; [done|]. simpl. split; [by rewrite length_insert|]. intros j d Hj. simpl. destruct (decide (j = i)) as [->|Hne].
  - rewrite list_lookup_insert_eq in Hj by done. injection Hj as <-. by rewrite Z.eqb_refl.
  - rewrite list_lookup_insert_ne in Hj by done. rewrite (proj2 (Z.eqb_neq _ _)) by lia. by apply Hc.
Qed.

Lemma heap_run_ok h A : heap_run h A → run_ok h A.
Proof.
  induction 1 as [bytes b sz h Hb Hs E|h A fuel n p h' bs _ IH Hn Hpp Hf E Hl Hc|h A1 p bs A2 fuel h' _ IH E|h A1 p bs A2 fuel n q h' bs' _ IH Hn Hpp Hno Hf E Hl Hc|h A1 p bs A2 i c _ IH Hi].
  - destruct (heap_init_ok bytes b sz Hb Hs) as [(h0&l&R&E0&H&Hl&_)|(t&m&E0)]; rewrite E in E0; [injection E0 as <-|done].
    exists l, R, []. rewrite Hl. by split.
  - by eapply run_malloc_ok.
  - destruct (run_free_ok h A1 p bs A2 fuel IH) as (h1&E1&H1). rewrite E in E1. by injection E1 as <-.
  - by eapply run_realloc_ok.
  - by apply run_write_ok.
Qed.

(** C14: whatever sequence of allocations, releases, reallocations and writes runs
    on the heap after its initialisation, on every backend that keeps its laws:
    live allocations are 16-byte aligned and apart by at least a header, each
    holds what was written to it last, through all releases and moves of others
    and its own; releasing any of them succeeds; and the next allocation returns
    or the virtual allocator panics, in as many steps as there are headers. *)
Theorem heap_runs_safe h A : heap_run h A →
  (∀ i j p bs q cs, A !! i = Some (p, bs) → A !! j = Some (q, cs) → i ≠ j →
     p + Z.of_nat (length bs) + HEADER <= q ∨ q + Z.of_nat (length cs) + HEADER <= p) ∧
  Forall (λ a, (16 | a.1) ∧ 0 < a.1 ∧ a.1 + Z.of_nat (length a.2) < 2 ^ 64 ∧ contents h a.1 a.2) A ∧
  (∀ fuel, Forall (λ a, is_ok (free fuel a.1 h) = true) A) ∧
  (∀ n fuel, 0 < n <= 2 ^ 46 → pick_pool (pools h) 0 n = None → (base.size (hdrs h) + 2 < fuel)%nat →
     is_ok (malloc 2 fuel n h) = true ∨ panics (malloc 2 fuel n h)).
Proof.
  intros Hrun. pose proof (heap_run_ok h A Hrun) as Hok. pose proof Hok as (l&R&K&H&HK&HA). split; [|split; [|split]].
  - intros i j p bs q cs Hi Hj Hne. destruct (Forall2_lookup_l _ _ _ _ _ HA Hi) as ([p' s]&Ki&Ep&Hs&_). destruct (Forall2_lookup_l _ _ _ _ _ HA Hj) as ([q' t]&Kj&Eq&Ht&_).
    simpl in *. subst p' q'. symmetry in HK. apply Permutation_inj in HK as (_&f&Hinj&Hf).
    rewrite Hf in Ki, Kj. destruct (live_disjoint h l R (f i) (f j) p s q t H Ki Kj) as [?|?]; [intros E; by apply Hinj in E|lia|lia].
  - apply Forall_forall. intros [p bs] Hp. apply list_elem_of_lookup in Hp as [i Hi]. destruct (Forall2_lookup_l _ _ _ _ _ HA Hi) as ([q s]&Ki&Eq&Hs&Hc).
    simpl in *. subst q. destruct (live_bounds _ _ _ p s H) as (?&_&_&?&?); [rewrite HK; by eapply list_elem_of_lookup_2|]. unfold HEADER in *. split_and!; [done|lia|lia|done].
  - intros fuel. apply Forall_forall. intros [p bs] (A1&A2&->)%list_elem_of_split. destruct (run_free_ok h A1 p bs A2 fuel Hok) as (h'&E&_). cbn [fst]. by rewrite E.
  - intros n fuel Hn Hpp Hf. pose proof (blocks_bound _ _ (ho_linked _ _ _ H)).
    destruct (malloc_ok fuel n h l R H Hn Hpp ltac:(lia)) as [(q&s&h1&l1&R1&->&_)|[(h1&->&_)|?]]; [by left|by left|by right].
Qed.
End Run.

(** * A run *)

(** 200 bytes, with a byte written at offset 7. *)
Definition demo_bytes : list Z := <[7%nat := 42]> (replicate 200 0).
Definition demo_heap : @heap bump_state := write_byte (ptr1 + 7) 42 heap2.

Lemma heap0_eq : heap_init (λ _, 0) bump0 0x8000 = Ok heap1.
Proof. pose proof heap0_runs as H. unfold heap1, heap0 in *. by destruct (heap_init _ _ _). Qed.

Lemma heap2_eq : malloc 2 16 200 heap1 = Ok (ptr1, heap2).
Proof.
  pose proof heap2_ptr as H. unfold heap2. destruct (malloc 2 16 200 heap1) as [[p h]| | |]; [|done..]. by injection H as ->.
Qed.

Lemma demo_run : heap_run demo_heap [(ptr1, demo_bytes)].
Proof.
  apply (run_write heap2 [] ptr1 (replicate 200 0) [] 7 42); [|rewrite length_replicate; lia].
  apply (run_malloc heap1 [] 16 200 ptr1 heap2 (replicate 200 0)).
  - apply (run_init (λ _, 0) bump0 0x8000); [apply bump0_ok|lia|apply heap0_eq].
  - lia.
  - apply heap1_pools. lia.
  - vm_compute. lia.
  - apply heap2_eq.
  - done.
  - intros i c [-> _]%lookup_replicate. vm_compute. reflexivity.
Qed.

Lemma heap_runs_safe_witness : (16 | ptr1) ∧ contents demo_heap ptr1 demo_bytes ∧ is_ok (free 16 ptr1 demo_heap) = true.
Proof.
  destruct (heap_runs_safe demo_heap [(ptr1, demo_bytes)] demo_run) as (_&Ha&Hf&_).
  apply Forall_cons in Ha as [(H1&_&_&H2) _]. specialize (Hf 16%nat). apply Forall_cons in Hf as [H3 _]. exact (conj H1 (conj H2 H3)).
Defined.
