(* ===== verification/Sched.v ===== *)
(** The round robin scheduler (src/scheduler.c, src/scheduler.h).

    Tasks are records in a store keyed by address, linked into a ring both ways;
    a task that is not in the store is freed memory and touching it is a
    [Fault].  Allocation of tasks and stacks goes through an interface to heap.c
    and pma.c.  The state is that of one core: its current task, its CR3 and the
    frames on the task stacks. *)

From S2P Require Import Prelude Mem Vmm.

Record task_t := mkTask {
  upid : Z;
  rsp : Z;
  cr3 : Z;
  next : Z;
  prev : Z;
  stack_base : Z
}.

Definition set_upid (t : task_t) (v : Z) : task_t := mkTask v (rsp t) (cr3 t) (next t) (prev t) (stack_base t).
Definition set_rsp (t : task_t) (v : Z) : task_t := mkTask (upid t) v (cr3 t) (next t) (prev t) (stack_base t).
Definition set_cr3 (t : task_t) (v : Z) : task_t := mkTask (upid t) (rsp t) v (next t) (prev t) (stack_base t).
Definition set_next (t : task_t) (v : Z) : task_t := mkTask (upid t) (rsp t) (cr3 t) v (prev t) (stack_base t).
Definition set_prev (t : task_t) (v : Z) : task_t := mkTask (upid t) (rsp t) (cr3 t) (next t) v (stack_base t).
Definition set_stack (t : task_t) (v : Z) : task_t := mkTask (upid t) (rsp t) (cr3 t) (next t) (prev t) v.

(** The fields of a trap frame that a new task sets, the others being zero. *)
Record trap_frame := mkFrame { tf_rip : Z; tf_cs : Z; tf_rflags : Z; tf_rsp : Z; tf_ss : Z }.

(** [sizeof(struct trap_frame)] *)
Definition FRAME_SIZE : Z := 224.

(** What the scheduler calls of heap.c and pma.c. *)
Class TaskMemory (B : Type) := {
  zalloc : B → result (Z * B);
  free : B → Z → result B;
  alloc_2mb : B → result (Z * B);
  free_pages : B → Z → Z → result B
}.

Section Sched.
Context {B : Type} `{!TaskMemory B}.

(** The start of the direct map. *)
Variable hhdm_offset : Z.

Record sched := mkSched {
  tasks : gmap Z task_t;
  frames : gmap Z trap_frame;
  current : Z;
  current_pid : Z;
  pml4 : Z;
  memory : B
}.

Definition with_tasks (s : sched) (x : gmap Z task_t) : sched :=
  mkSched x (frames s) (current s) (current_pid s) (pml4 s) (memory s).
Definition with_frames (s : sched) (x : gmap Z trap_frame) : sched :=
  mkSched (tasks s) x (current s) (current_pid s) (pml4 s) (memory s).
Definition with_current (s : sched) (x : Z) : sched :=
  mkSched (tasks s) (frames s) x (current_pid s) (pml4 s) (memory s).
Definition with_pid (s : sched) (x : Z) : sched :=
  mkSched (tasks s) (frames s) (current s) x (pml4 s) (memory s).
Definition with_pml4 (s : sched) (x : Z) : sched :=
  mkSched (tasks s) (frames s) (current s) (current_pid s) x (memory s).
Definition with_memory (s : sched) (x : B) : sched :=
  mkSched (tasks s) (frames s) (current s) (current_pid s) (pml4 s) x.

Definition task_at (s : sched) (a : Z) : result task_t := of_option (tasks s !! a).
Definition set_task (a : Z) (f : task_t → task_t) (s : sched) : result sched :=
  _ ← task_at s a; mret (with_tasks s (alter f a (tasks s))).

(** [free(old_task)]: the memory is gone. *)
Definition drop_task (a : Z) (s : sched) : result sched :=
  b ← free (memory s) a; mret (with_memory (with_tasks s (delete a (tasks s))) b).

(** The part of the tick that takes a finished task off the ring. *)
Definition reap (old : Z) (s : sched) : result sched :=
  t ← task_at s old;
  s ← set_task (prev t) (λ p, set_next p (next t)) s;
  s ← set_task (next t) (λ n, set_prev n (prev t)) s;
  s ← (if stack_base t =? NULL then mret s
       else
         b ← free_pages (memory s) (u64 (stack_base t - hhdm_offset)) (PAGE_SIZE_2MB / PAGE_SIZE);
         mret (with_memory s b));
  drop_task old s.

Definition scheduler_timer_handler (tf : Z) (s : sched) : result (Z * sched) :=
  let current_task := current s in
  s ← set_task current_task (λ t, set_rsp t tf) s;
  t ← task_at s current_task;
  let next_task := next t in
  s ← (if (upid t =? 0) && negb (current_task =? next_task) && negb (next t =? NULL) && negb (prev t =? NULL)
       then reap current_task s else mret s);
  n ← task_at s next_task;
  let s := if negb (cr3 n =? pml4 s) && negb (cr3 n =? 0) then with_pml4 s (cr3 n) else s in
  mret (rsp n, with_current s next_task).

Fixpoint task_loop (fuel : nat) (target start curr : Z) (s : sched) : result Z :=
  match fuel with
  | O => Fuel
  | S fuel =>
      t ← task_at s curr;
      if upid t =? target then mret curr
      else if next t =? start then mret NULL
      else task_loop fuel target start (next t) s
  end.

Definition get_task_by_upid (fuel : nat) (target_upid : Z) (s : sched) : result Z :=
  if current s =? NULL then mret NULL else task_loop fuel target_upid (current s) (current s) s.

(** [zalloc(sizeof(task_t))]: a zeroed task. *)
Definition new_task_record (s : sched) : result (Z * sched) :=
  '(a, b) ← zalloc (memory s);
  let s := with_memory s b in
  mret (a, if a =? NULL then s else with_tasks s (<[a := mkTask 0 0 0 NULL NULL NULL]> (tasks s))).

Definition scheduler_create_task (entry_point : Z) (s : sched) : result (Z * sched) :=
  '(new_task, s) ← new_task_record s;
  if new_task =? NULL then mret (NULL, s)
  else
    s ← set_task new_task (λ t, set_cr3 (set_upid t 0) (pml4 s)) s;
    '(stack_phys, b) ← alloc_2mb (memory s);
    let s := with_memory s b in
    if stack_phys =? 0 then s ← drop_task new_task s; mret (NULL, s)
    else
      let stack_top := u64 (stack_phys + PAGE_SIZE_2MB + hhdm_offset) in
      let aligned_stack_top := Z.land stack_top (not64 0xF) in
      let frame := u64 (aligned_stack_top - FRAME_SIZE) in
      _ ← nonnull "MEMORY" "memset s is null" frame;
      _ ← safe "MEMORY" "memset s is out of range" frame FRAME_SIZE;
      let s := with_frames s (<[frame := mkFrame entry_point 0x08 0x202 aligned_stack_top 0x10]> (frames s)) in
      s ← set_task new_task (λ t, set_prev (set_next (set_rsp (set_stack t (u64 (stack_phys + hhdm_offset))) frame) NULL) NULL) s;
      mret (new_task, s).

Definition scheduler_enroll_task (new_task : Z) (s : sched) : result sched :=
  s ← set_task new_task (λ t, set_upid t (current_pid s)) s;
  let s := with_pid s (u64 (current_pid s + 1)) in
  if current s =? NULL then
    let s := with_current s new_task in
    set_task new_task (λ t, set_prev (set_next t new_task) new_task) s
  else
    c ← task_at s (current s);
    s ← set_task (prev c) (λ t, set_next t new_task) s;
    s ← set_task new_task (λ t, set_next (set_prev t (prev c)) (current s)) s;
    set_task (current s) (λ t, set_prev t new_task) s.

(** Up to [int $32], which enters the tick with the frame [tf] of the task. *)
Definition scheduler_exit_task (tf : Z) (s : sched) : result (Z * sched) :=
  t ← task_at s (current s);
  if next t =? current s then Panic "SCHEDULER" "Last task attempted to exit. Halting."
  else
    s ← set_task (current s) (λ t, set_upid t 0) s;
    scheduler_timer_handler tf s.

(** [scheduler_start] before it waits for interrupts. *)
Definition scheduler_start (s : sched) : result sched :=
  if current s =? NULL then Panic "SCHEDULER" "INITALIZED WITH NO TASKS" else mret s.

Definition scheduler_yield (tf : Z) (s : sched) : result (Z * sched) := scheduler_timer_handler tf s.

(** [scheduler_init] up to the installation of the tick on vector 32. *)
Definition scheduler_init (s : sched) : result sched :=
  '(bootstrap, s) ← new_task_record s;
  s ← set_task bootstrap (λ t, set_cr3 (set_upid t 0) (pml4 s)) s;
  let s := with_current s bootstrap in
  set_task bootstrap (λ t, set_prev (set_next t bootstrap) bootstrap) s.
End Sched.
