(* ===== verification/SchedSpec.v ===== *)
(** What the scheduler promises (src/scheduler.c): its tasks form a ring, which a
    tick rotates; it refines a queue of tasks and pids, in which no task
    starves. *)

From S2P Require Import Prelude Mem Vmm Sched.

(** * Rings *)

Definition firstz (l : list Z) (d : Z) : Z := default d (head l).
Definition lastz (l : list Z) (d : Z) : Z := default d (last l).

(** The links of a task. *)
Definition links (m : gmap Z task_t) (a : Z) : option (Z * Z) := (λ t, (prev t, next t)) <$> m !! a.

(** The tasks [l] linked between a predecessor [p] and a successor [n]. *)
Fixpoint seg (m : gmap Z task_t) (p : Z) (l : list Z) (n : Z) : Prop :=
  match l with
  | [] => True
  | a :: l => links m a = Some (p, firstz l n) ∧ seg m a l n
  end.

Definition ring (m : gmap Z task_t) (ts : list Z) : Prop :=
  ts ≠ [] ∧ NoDup ts ∧ seg m (lastz ts 0) ts (firstz ts 0).

Lemma firstz_app l1 l2 d : firstz (l1 ++ l2) d = firstz l1 (firstz l2 d).
Proof. by destruct l1. Qed.
Lemma lastz_app l1 l2 d : lastz (l1 ++ l2) d = lastz l2 (lastz l1 d).
Proof. unfold lastz. rewrite last_app. by destruct (last l2). Qed.
Lemma lastz_cons a l d : lastz (a :: l) d = lastz l a.
Proof. by rewrite (lastz_app [a] l). Qed.
Lemma lastz_in l d : l ≠ [] → lastz l d ∈ l.
Proof.
  intros Hl. unfold lastz. destruct (last l) as [x|] eqn:E; [by apply last_Some_elem_of|]. by apply last_None in E.
Qed.
Lemma firstz_in l d : l ≠ [] → firstz l d ∈ l.
Proof. destruct l; [done|]. intros _. apply list_elem_of_here. Qed.
Lemma lastz_any l d e : l ≠ [] → lastz l d = lastz l e.
Proof. intros Hl. unfold lastz. destruct (last l) eqn:E; [done|]. by apply last_None in E. Qed.
Lemma firstz_any l d e : l ≠ [] → firstz l d = firstz l e.
Proof. by destruct l. Qed.

Lemma seg_app m p l1 l2 n : seg m p (l1 ++ l2) n ↔ seg m p l1 (firstz l2 n) ∧ seg m (lastz l1 p) l2 n.
Proof.
  revert p. induction l1 as [|a l1 IH]; intros p; simpl; [tauto|]. rewrite IH, firstz_app, lastz_cons. tauto.
Qed.

Lemma seg_frame m m' p l n : (∀ a, a ∈ l → links m' a = links m a) → seg m p l n → seg m' p l n.
Proof.
  revert p. induction l as [|a l IH]; intros p Hag H; [done|]. destruct H as [E H]. split.
  - rewrite Hag; [done|apply list_elem_of_here].
  - apply IH; [|done]. intros b Hb. apply Hag. by apply list_elem_of_further.
Qed.

(** New links at the two ends. *)
Lemma seg_relink m m' p n p' n' l : l ≠ [] → NoDup l → seg m p l n →
  (∀ e x y, e ∈ l → links m e = Some (x, y) →
     links m' e = Some (if decide (e = firstz l 0) then p' else x, if decide (e = lastz l 0) then n' else y)) →
  seg m' p' l n'.
Proof.
  revert p p'. induction l as [|a l IH]; intros p p' Hl Hn H Hag; [done|].
  apply NoDup_cons in Hn as [Ha Hn]. destruct H as [E H].
  pose proof (Hag a _ _ (list_elem_of_here _ _) E) as Ea. change (firstz (a :: l) 0) with a in *.
  rewrite decide_True in Ea by done. destruct l as [|b l]; [by rewrite decide_True in Ea|].
  rewrite lastz_cons in *. assert (lastz (b :: l) a ∈ b :: l) as Hlast by (by apply lastz_in).
  rewrite decide_False in Ea by (by intros E'; rewrite E' in Ha at 1). split; [done|].
  apply (IH a); [done|done|done|]. intros e x y He Ee. specialize (Hag e x y (list_elem_of_further _ _ _ He) Ee).
  rewrite decide_False, lastz_cons in Hag by (by intros ->). rewrite Hag. do 2 f_equal.
  change (firstz (b :: l) 0) with b. destruct (decide (e = b)) as [->|]; [|done]. destruct H as [Eb _]. congruence.
Qed.

Lemma seg_lookup m p l n a : seg m p l n → a ∈ l → is_Some (m !! a).
Proof.
  revert p. induction l as [|b l IH]; intros p H Ha; [by apply elem_of_nil in Ha|]. destruct H as [E H].
  apply elem_of_cons in Ha as [->|Ha]; [|by apply (IH b)]. unfold links in E. by destruct (m !! b).
Qed.

(** The ring seen from the next task. *)
Lemma ring_rotate m a l : ring m (a :: l) → ring m (l ++ [a]).
Proof.
  intros (_&Hn&E&Hs). split; [by destruct l|]. split; [by rewrite <- Permutation_cons_append|].
  rewrite lastz_cons in E. rewrite lastz_app, firstz_app. change (lastz [a] _) with a.
  change (firstz (a :: l) 0) with a in *. apply seg_app. change (firstz [a] 0) with a. split; [done|]. split; [|done].
  by destruct l.
Qed.

Lemma ring_frame m m' ts : ring m ts → (∀ a, a ∈ ts → links m' a = links m a) → ring m' ts.
Proof. intros (He&Hn&Hs) Hag. split; [done|]. split; [done|]. by apply (seg_frame m). Qed.

Lemma ring_lookup m ts a : ring m ts → a ∈ ts → is_Some (m !! a).
Proof. intros (_&_&Hs). by apply seg_lookup with (1 := Hs). Qed.

Lemma ring_first m a l t : ring m (a :: l) → m !! a = Some t → prev t = lastz l a ∧ next t = firstz l a.
Proof.
  intros (_&_&[E _]) Et. unfold links in E. rewrite Et, lastz_cons in E. by injection E.
Qed.

(** Linking [p] before [n], as the code does for every change of the ring. *)
Definition link (p n : Z) (m : gmap Z task_t) : gmap Z task_t :=
  alter (λ t, set_prev t p) n (alter (λ t, set_next t n) p m).

Lemma links_link p n m e x y : links m e = Some (x, y) →
  links (link p n m) e = Some (if decide (e = n) then p else x, if decide (e = p) then n else y).
Proof.
  unfold links, link. intros E. destruct (m !! e) as [t|] eqn:Et; [|done]. injection E as <- <-.
  rewrite !lookup_alter, Et. by repeat case_decide; simplify_eq/=; rewrite ?Et.
Qed.

(** A task goes into the ring before the first one, or out of it. *)
Lemma ring_snoc m c l a q r : ring m (c :: l) → a ∉ c :: l → links m a = Some (q, r) →
  ring (link a c (link (lastz l c) a m)) ((c :: l) ++ [a]).
Proof.
  intros (_&Hn&Hs) Ha Ea. split; [done|]. split.
  { apply NoDup_app. split; [done|]. split; [|apply NoDup_singleton]. by intros e He ->%list_elem_of_singleton. }
  assert (∀ e, e ∈ c :: l → e ≠ a) as Hne by (by intros e He ->).
  rewrite lastz_app. change (lastz [a] _) with a. change (firstz ((c :: l) ++ [a]) 0) with c.
  apply seg_app. change (firstz [a] c) with a. rewrite lastz_cons. split.
  - apply (seg_relink m _ (lastz (c :: l) 0) c a a (c :: l)); [done|done|done|]. intros e x y He Ee.
    change (firstz (c :: l) 0) with c. rewrite lastz_cons.
    rewrite (links_link a c _ e _ _ (links_link (lastz l c) a m e _ _ Ee)).
    rewrite !(decide_False (P := e = a)) by (by apply Hne). done.
  - split; [|done]. rewrite (links_link a c _ a _ _ (links_link (lastz l c) a m a _ _ Ea)).
    rewrite !(decide_True (P := a = a)) by done. rewrite decide_False; [done|]. intros ->. apply Ha, list_elem_of_here.
Qed.

Lemma ring_tail m c l : ring m (c :: l) → l ≠ [] → ring (link (lastz l c) (firstz l c) m) l.
Proof.
  intros (_&Hn&[_ Hs]) Hl. apply NoDup_cons in Hn as [Hc Hn]. split; [done|]. split; [done|].
  apply (seg_relink m _ c c _ _ l); [done|done|done|]. intros e x y He Ee. rewrite (links_link _ _ _ _ _ _ Ee).
  by rewrite (lastz_any l 0 c), (firstz_any l 0 c).
Qed.

(** * The interface's laws *)

(** [tm_ok b A S]: the state is consistent, [A] are the live tasks and [S] the
    live stacks.  Only what is live can be freed. *)
Class TaskMemoryLaws (B : Type) `{!TaskMemory B} := {
  tm_ok : B → gset Z → gset Z → Prop;
  tm_zalloc b A S : tm_ok b A S →
    (∃ a b', zalloc b = Ok (a, b') ∧ (a = NULL ∧ tm_ok b' A S ∨ 0 < a < 2 ^ 64 ∧ (a ∉ A) ∧ tm_ok b' ({[a]} ∪ A) S)) ∨
    ∃ t m, zalloc b = Panic t m;
  tm_free b A S a : tm_ok b A S → a ∈ A → ∃ b', free b a = Ok b' ∧ tm_ok b' (A ∖ {[a]}) S;
  tm_alloc_2mb b A S : tm_ok b A S → ∃ p b', alloc_2mb b = Ok (p, b') ∧
    (p = 0 ∧ tm_ok b' A S ∨ 0 < p < 2 ^ 46 ∧ (16 | p) ∧ (p ∉ S) ∧ tm_ok b' A ({[p]} ∪ S));
  tm_free_pages b A S p : tm_ok b A S → p ∈ S →
    ∃ b', free_pages b p (PAGE_SIZE_2MB / PAGE_SIZE) = Ok b' ∧ tm_ok b' A (S ∖ {[p]})
}.

Section Spec.
Context {B : Type} `{!TaskMemory B, !TaskMemoryLaws B}.
Implicit Types s : @sched B.

(** * The invariant *)

(** The start of the direct map. *)
Variable hhdm : Z.

(** The stacks [S] are those of the tasks [m], each of one of them. *)
Record stacks (m : gmap Z task_t) (S : gset Z) : Prop := {
  st_live a t : m !! a = Some t → stack_base t ≠ NULL → ∃ p, p ∈ S ∧ 0 < p < 2 ^ 46 ∧ stack_base t = p + hhdm;
  st_owned p : p ∈ S → ∃ a t, m !! a = Some t ∧ stack_base t ≠ NULL ∧ stack_base t = p + hhdm;
  st_unique a b t u : m !! a = Some t → m !! b = Some u → stack_base t ≠ NULL → stack_base t = stack_base u → a = b
}.

(** The allocators hold the memory of the tasks and their stacks. *)
Definition mem_ok (b : B) (m : gmap Z task_t) : Prop := ∃ S, tm_ok b (dom m) S ∧ stacks m S.

Lemma stacks_frame m m' S : (∀ e, stack_base <$> m' !! e = stack_base <$> m !! e) → stacks m S → stacks m' S.
Proof.
  intros E [H1 H2 H3]. assert (∀ e t, m' !! e = Some t → ∃ u, m !! e = Some u ∧ stack_base t = stack_base u) as Hback.
  { intros e t Et. specialize (E e). rewrite Et in E. destruct (m !! e) as [u|]; [|done]. injection E as E. eauto. }
  constructor.
  - intros a t (u&Eu&->)%Hback. eauto.
  - intros p (a&t&Ea&?&?)%H2. specialize (E a). rewrite Ea in E. destruct (m' !! a) as [u|] eqn:Eu; [|done]. injection E as E.
    exists a, u. by rewrite E.
  - intros a b t u (t'&Et&->)%Hback (u'&Eu&->)%Hback. eauto.
Qed.

Lemma mem_ok_frame b m m' : (∀ e, stack_base <$> m' !! e = stack_base <$> m !! e) → mem_ok b m → mem_ok b m'.
Proof.
  intros E (S&Hb&HS). exists S. split; [|by eapply stacks_frame].
  assert (dom m' = dom m) as ->; [|done]. apply set_eq. intros e. rewrite !elem_of_dom. specialize (E e).
  destruct (m' !! e), (m !! e); try done; by split; intros [].
Qed.

Lemma alter_stack (m : gmap Z task_t) f a : (∀ t, stack_base (f t) = stack_base t) → ∀ e, stack_base <$> alter f a m !! e = stack_base <$> m !! e.
Proof. intros Hf e. rewrite lookup_alter. case_decide; [subst|done]. destruct (m !! e) as [t|]; simpl; by rewrite ?Hf. Qed.

(** A task without a stack comes. *)
Lemma stacks_new m S a t : m !! a = None → stack_base t = NULL → stacks m S → stacks (<[a := t]> m) S.
Proof.
  intros Ea Et [H1 H2 H3]. constructor.
  - intros e u [[<- <-]|[_ Eu]]%lookup_insert_Some; [done|eauto].
  - intros p (e&u&Eu&?&?)%H2. exists e, u. rewrite lookup_insert_ne by congruence. done.
  - intros e1 e2 t1 t2 [[<- <-]|[_ E1]]%lookup_insert_Some; [done|].
    intros [[<- <-]|[_ E2]]%lookup_insert_Some Hne Heq; [congruence|eauto].
Qed.

(** It gets its stack. *)
Lemma stacks_give m S a t p : m !! a = None → p ∉ S → 0 < p < 2 ^ 46 → stack_base t = p + hhdm → stack_base t ≠ NULL →
  stacks m S → stacks (<[a := t]> m) ({[p]} ∪ S).
Proof.
  intros Ea Hp Hr Et Hn [H1 H2 H3]. constructor.
  - intros e u [[<- <-]|[_ Eu]]%lookup_insert_Some Hu; [exists p; set_solver|].
    destruct (H1 e u Eu Hu) as (q&?&?&?). exists q. set_solver.
  - intros q [->%elem_of_singleton|(e&u&Eu&?&?)%H2]%elem_of_union; [exists a, t; by rewrite lookup_insert_eq|].
    exists e, u. rewrite lookup_insert_ne by congruence. done.
  - assert (∀ e u, m !! e = Some u → stack_base u ≠ stack_base t) as Hother.
    { intros e u Eu E. destruct (H1 e u Eu) as (q&Hq&_&Eq); [congruence|]. apply Hp. by replace p with q by lia. }
    intros e1 e2 t1 t2 [[<- <-]|[_ E1]]%lookup_insert_Some [[<- <-]|[_ E2]]%lookup_insert_Some Hne Heq; [done| | |eauto].
    + by destruct (Hother e2 t2 E2).
    + by destruct (Hother e1 t1 E1).
Qed.

(** A task goes, with its stack when it has one. *)
Lemma stacks_drop m S a t : m !! a = Some t → stack_base t = NULL → stacks m S → stacks (delete a m) S.
Proof.
  intros Ea Et [H1 H2 H3]. constructor.
  - intros e u [_ Eu]%lookup_delete_Some. eauto.
  - intros p (e&u&Eu&?&?)%H2. exists e, u. rewrite lookup_delete_ne by congruence. done.
  - intros e1 e2 t1 t2 [_ E1]%lookup_delete_Some [_ E2]%lookup_delete_Some. eauto.
Qed.

Lemma stacks_take m S a t p : m !! a = Some t → stack_base t ≠ NULL → stack_base t = p + hhdm →
  stacks m S → stacks (delete a m) (S ∖ {[p]}).
Proof.
  intros Ea Hn Et [H1 H2 H3]. constructor.
  - intros e u [Hne Eu]%lookup_delete_Some Hu. destruct (H1 e u Eu Hu) as (q&Hq&?&Eq). exists q. split; [|done].
    apply elem_of_difference. split; [done|]. intros ->%elem_of_singleton. apply Hne. eapply H3; [exact Ea|exact Eu|done|congruence].
  - intros q [(e&u&Eu&?&Eq)%H2 Hq%not_elem_of_singleton]%elem_of_difference. exists e, u.
    rewrite lookup_delete_ne; [done|]. intros ->. assert (u = t) as -> by congruence. apply Hq. lia.
  - intros e1 e2 t1 t2 [_ E1]%lookup_delete_Some [_ E2]%lookup_delete_Some. eauto.
Qed.

(** What is not a link. *)
Definition payload (t : task_t) : Z * Z * Z * Z := (upid t, rsp t, cr3 t, stack_base t).

(** The ring [ts] from the current task on; the other tasks wait for their
    enrolment; pids are handed out once. *)
Record sched_ok s (ts : list Z) : Prop := {
  so_ring : ring (tasks s) ts;
  so_current : current s = firstz ts 0;
  so_null : tasks s !! NULL = None;
  so_pid : 0 < current_pid s < 2 ^ 64;
  so_pids a t : tasks s !! a = Some t → 0 <= upid t < current_pid s;
  so_unique a b t u : tasks s !! a = Some t → tasks s !! b = Some u → upid t = upid u → upid t ≠ 0 → a = b;
  so_wait a t : tasks s !! a = Some t → a ∉ ts → next t = NULL;
  so_mem : mem_ok (memory s) (tasks s)
}.

Lemma seg_next_in m p l n a t : seg m p l n → a ∈ l → m !! a = Some t → next t = n ∨ next t ∈ l.
Proof.
  revert p. induction l as [|b l IH]; intros p H Ha E; [by apply elem_of_nil in Ha|]. destruct H as [Eb H].
  apply elem_of_cons in Ha as [->|Ha].
  - unfold links in Eb. rewrite E in Eb. injection Eb as _ ->. destruct l as [|c l]; [by left|right].
    change (firstz (c :: l) n) with c. apply list_elem_of_further, list_elem_of_here.
  - destruct (IH b H Ha E); [by left|right]. by apply list_elem_of_further.
Qed.

Lemma ring_next_in m ts a t : ring m ts → a ∈ ts → m !! a = Some t → next t ∈ ts.
Proof.
  intros (He&_&Hs) Ha E. destruct (seg_next_in _ _ _ _ _ _ Hs Ha E) as [->|]; [by apply firstz_in|done].
Qed.

Lemma so_nonnull s ts a : sched_ok s ts → a ∈ ts → a ≠ NULL.
Proof. intros H Ha ->. destruct (ring_lookup _ _ _ (so_ring _ _ H) Ha) as [t E]. by rewrite (so_null _ _ H) in E. Qed.

(** A task waits for its enrolment exactly if its link is NULL. *)
Lemma waiting s ts a t : sched_ok s ts → tasks s !! a = Some t → (next t = NULL ↔ a ∉ ts).
Proof.
  intros H E. split; [|by apply (so_wait _ _ H)]. intros En Ha.
  apply (so_nonnull s ts (next t) H); [|done]. by eapply ring_next_in; [apply H| |].
Qed.

Lemma set_task_ok a f s t : tasks s !! a = Some t → set_task a f s = Ok (with_tasks s (alter f a (tasks s))).
Proof. intros E. unfold set_task, task_at. by rewrite E. Qed.
Lemma task_at_ok a s t : tasks s !! a = Some t → task_at s a = Ok t.
Proof. intros E. unfold task_at. by rewrite E. Qed.

Lemma alter_some (m : gmap Z task_t) f a b t : m !! b = Some t → alter f a m !! b = Some (if decide (a = b) then f t else t).
Proof. intros E. rewrite lookup_alter. case_decide; [subst; by rewrite E|done]. Qed.

(** [link] changes the links only. *)
Lemma link_payload p n m e : payload <$> link p n m !! e = payload <$> m !! e.
Proof. unfold link. rewrite !lookup_alter. by repeat case_decide; subst; destruct (m !! _). Qed.

Lemma alter_twice (f g : task_t → task_t) a (m : gmap Z task_t) : alter f a (alter g a m) = alter (λ t, f (g t)) a m.
Proof.
  apply map_eq. intros e. destruct (decide (a = e)) as [->|]; [|by rewrite !lookup_alter_ne].
  rewrite !lookup_alter_eq. by destruct (m !! e).
Qed.

Lemma links_alter m f a e : (∀ t, prev (f t) = prev t ∧ next (f t) = next t) → links (alter f a m) e = links m e.
Proof.
  intros Hf. unfold links. rewrite lookup_alter. case_decide; [subst|done]. destruct (m !! e) as [t|]; [|done]. simpl.
  by destruct (Hf t) as [-> ->].
Qed.

Lemma link_other p n m e : e ≠ p → e ≠ n → link p n m !! e = m !! e.
Proof. intros. unfold link. by rewrite !lookup_alter_ne. Qed.

(** Enrolment. *)
Lemma enroll_ok s c l a t : sched_ok s (c :: l) → tasks s !! a = Some t → next t = NULL → current_pid s < 2 ^ 64 - 1 →
  ∃ s', scheduler_enroll_task a s = Ok s' ∧ sched_ok s' ((c :: l) ++ [a]) ∧
    current_pid s' = current_pid s + 1 ∧ frames s' = frames s ∧ pml4 s' = pml4 s ∧
    (payload <$> tasks s' !! a = Some (payload (set_upid t (current_pid s)))) ∧
    ∀ e, e ≠ a → payload <$> tasks s' !! e = payload <$> tasks s !! e.
Proof.
  intros H Ea En Hpid. assert (a ∉ c :: l) as Ha by (by apply (waiting s _ a t H)).
  assert (a ≠ c) as Hac by (intros ->; apply Ha, list_elem_of_here).
  destruct (ring_lookup _ _ c (so_ring _ _ H)) as [tc Ec]; [apply list_elem_of_here|].
  unfold scheduler_enroll_task. rewrite (set_task_ok _ _ _ _ Ea). cbn [mbind result_bind].
  set (f := λ t, set_upid t (current_pid s)). set (m1 := alter f a (tasks s)).
  assert (current s = c) as Ecur by apply H. cbn [current with_pid with_tasks current_pid].
  rewrite Ecur, (proj2 (Z.eqb_neq c _)) by (eapply so_nonnull; [done|apply list_elem_of_here]).
  assert (ring m1 (c :: l)) as Hr1.
  { apply (ring_frame (tasks s)); [apply H|]. intros e _. by apply links_alter. }
  assert (m1 !! c = Some tc) as Ec1 by (unfold m1; by rewrite lookup_alter_ne).
  assert (m1 !! a = Some (f t)) as Ea1 by (unfold m1; by rewrite lookup_alter_eq, Ea).
  destruct (ring_first _ _ _ _ Hr1 Ec1) as [Epc _].
  rewrite (task_at_ok c _ tc) by done. cbn [mbind result_bind]. rewrite Epc. set (z := lastz l c).
  assert (is_Some (m1 !! z)) as [tz Ez].
  { apply (ring_lookup _ _ _ Hr1). unfold z. destruct l; [apply list_elem_of_here|]. apply list_elem_of_further. by apply lastz_in. }
  rewrite (set_task_ok z _ _ tz) by done. cbn [mbind result_bind tasks with_tasks current with_pid]. rewrite Ecur.
  erewrite (set_task_ok a) by (cbn [tasks with_tasks with_pid]; by apply alter_some). cbn [mbind result_bind tasks with_tasks current with_pid]. rewrite ?Ecur.
  erewrite (set_task_ok c) by (cbn [tasks with_tasks with_pid]; by apply alter_some, alter_some). cbn [mbind result_bind tasks with_tasks current with_pid].
  eexists. split; [done|].
  set (m4 := alter _ c _). assert (m4 = link a c (link z a m1)) as Em4.
  { unfold m4, link. by rewrite (alter_twice (λ t, set_next t c) (λ t, set_prev t z)). }
  assert (∀ e, payload <$> m4 !! e = payload <$> m1 !! e) as Hpay.
  { intros e. by rewrite Em4, !link_payload. }
  assert (∀ e t', m4 !! e = Some t' → ∃ t0, tasks s !! e = Some t0 ∧ (e ≠ a → payload t' = payload t0) ∧
    upid t' = if decide (e = a) then current_pid s else upid t0) as Hup.
  { intros e t' Et'. specialize (Hpay e). rewrite Et' in Hpay. destruct (m1 !! e) as [t1|] eqn:E1; [|done].
    injection Hpay as Hu Hr Hc Hs. unfold m1 in E1. destruct (decide (e = a)) as [->|Hne].
    - rewrite lookup_alter_eq, Ea in E1. injection E1 as <-. exists t. split; [done|]. split; [done|exact Hu].
    - rewrite lookup_alter_ne in E1 by done. exists t1. split; [done|]. split; [intros _; unfold payload; congruence|done]. }
  pose proof (so_pid _ _ H) as Hpid0. rewrite u64_id in * by lia.
  split; [split|split; [done|split; [done|split; [done|split]]]].
  - cbn [tasks with_tasks]. rewrite Em4. by apply (ring_snoc _ _ _ _ (prev (f t)) (next (f t))); [| |unfold links; rewrite Ea1].
  - exact Ecur.
  - cbn [tasks with_tasks]. pose proof (so_null _ _ H) as Hn. specialize (Hpay NULL). unfold m1 in Hpay.
    rewrite lookup_alter, Hn in Hpay. case_decide; [by subst; rewrite Ea in Hn|]. simpl in Hpay. by destruct (m4 !! NULL).
  - cbn [current_pid with_tasks with_pid]. lia.
  - intros e t' (t0&E0&_&->)%Hup. cbn [current_pid with_tasks with_pid]. pose proof (so_pids _ _ H _ _ E0). case_decide; lia.
  - intros e1 e2 t1 t2 (u1&E1&_&Hu1)%Hup (u2&E2&_&Hu2)%Hup Heq Hne. rewrite Hu1, Hu2 in *.
    pose proof (so_pids _ _ H _ _ E1). pose proof (so_pids _ _ H _ _ E2).
    repeat case_decide; [congruence|lia|lia|by eapply (so_unique _ _ H)].
  - intros e t' Et' Hout. cbn [tasks with_tasks] in Et'. rewrite elem_of_app, list_elem_of_singleton in Hout.
    assert (e ≠ a ∧ e ∉ c :: l) as [Hea Hecl] by tauto. assert (e ≠ c) as Hec by (intros ->; apply Hecl, list_elem_of_here).
    assert (e ≠ z) as Hez.
    { intros ->. apply Hecl. unfold z. destruct l; [apply list_elem_of_here|]. apply list_elem_of_further. by apply lastz_in. }
    rewrite Em4, !link_other in Et' by done. unfold m1 in Et'. rewrite lookup_alter_ne in Et' by done.
    by apply (so_wait _ _ H e).
  - apply (mem_ok_frame _ (tasks s)); [|apply H]. cbn [tasks with_tasks]. intros e. rewrite Em4. unfold link, m1.
    by rewrite !alter_stack.
  - cbn [tasks with_tasks]. rewrite Hpay, Ea1. done.
  - intros e He. cbn [tasks with_tasks]. rewrite Hpay. unfold m1. by rewrite lookup_alter_ne.
Qed.

(** * The tick *)

(** Saving the stack pointer of the current task. *)
Lemma save_ok s ts c t tf : sched_ok s ts → tasks s !! c = Some t →
  sched_ok (with_tasks s (alter (λ t, set_rsp t tf) c (tasks s))) ts.
Proof.
  intros H Ec. assert (∀ e u, alter (λ t, set_rsp t tf) c (tasks s) !! e = Some u →
    ∃ u0, tasks s !! e = Some u0 ∧ upid u = upid u0 ∧ next u = next u0) as Hold.
  { intros e u. rewrite lookup_alter. case_decide; [subst; rewrite Ec; intros [= <-]; by exists t|intros E; by exists u]. }
  split; cbn [tasks with_tasks current current_pid memory]; try apply H.
  - apply (ring_frame (tasks s)); [apply H|]. intros e _. by apply links_alter.
  - pose proof (so_null _ _ H) as Hn. rewrite lookup_alter. case_decide; [subst; by rewrite Ec in Hn|done].
  - intros e u (u0&E0&->&_)%Hold. by eapply (so_pids _ _ H).
  - intros a b t1 t2 (u1&E1&->&_)%Hold (u2&E2&->&_)%Hold. by eapply (so_unique _ _ H).
  - intros e u (u0&E0&_&->)%Hold. by apply (so_wait _ _ H).
  - apply (mem_ok_frame _ (tasks s)); [by apply alter_stack|apply H].
Qed.

(** Dropping the finished task [c]. *)
Lemma reap_ok s c l : sched_ok s (c :: l) → l ≠ [] →
  ∃ s', reap hhdm c s = Ok s' ∧ sched_ok (with_current s' (firstz l 0)) l ∧
    current_pid s' = current_pid s ∧ frames s' = frames s ∧ pml4 s' = pml4 s ∧ tasks s' !! c = None ∧
    ∀ e, e ≠ c → payload <$> tasks s' !! e = payload <$> tasks s !! e.
Proof.
  intros H Hl. pose proof (so_ring _ _ H) as Hring.
  destruct (ring_lookup _ _ c Hring) as [tc Ec]; [apply list_elem_of_here|].
  destruct (ring_first _ _ _ _ Hring Ec) as [Ep Ex]. set (p := lastz l c) in *. set (n := firstz l c) in *.
  assert (p ∈ l ∧ n ∈ l) as [Hp Hn] by (split; [by apply lastz_in|by apply firstz_in]).
  assert (c ∉ l) as Hcl by (destruct Hring as (_&[? _]%NoDup_cons&_); done).
  assert (is_Some (tasks s !! p)) as [tp Etp] by (apply (ring_lookup _ _ _ Hring); by apply list_elem_of_further).
  assert (is_Some (tasks s !! n)) as [tn Etn] by (apply (ring_lookup _ _ _ Hring); by apply list_elem_of_further).
  unfold reap. rewrite (task_at_ok c s tc Ec). cbn [mbind result_bind]. rewrite Ep, Ex.
  rewrite (set_task_ok p _ s tp Etp). cbn [mbind result_bind].
  erewrite (set_task_ok n) by (cbn [tasks with_tasks]; by apply alter_some). cbn [mbind result_bind tasks with_tasks].
  change (alter (λ n0, set_prev n0 p) n (alter (λ p0, set_next p0 n) p (tasks s))) with (link p n (tasks s)).
  set (s2 := with_tasks _ (link p n (tasks s))).
  assert (mem_ok (memory s2) (tasks s2)) as (S&Hm&HS).
  { apply (mem_ok_frame _ (tasks s)); [|apply H]. intros e. cbn [tasks s2 with_tasks]. unfold link. by rewrite !alter_stack. }
  assert (∃ ts2, tasks s2 !! c = Some ts2 ∧ stack_base ts2 = stack_base tc) as (ts2&Et2&Es2).
  { cbn [tasks s2 with_tasks]. pose proof (link_payload p n (tasks s) c) as E. rewrite Ec in E.
    destruct (link p n (tasks s) !! c) as [ts2|]; [|done]. injection E as _ _ _ E. by exists ts2. }
  assert (∃ b S', (if stack_base tc =? NULL then mret s2
    else b ← free_pages (memory s2) (u64 (stack_base tc - hhdm)) (PAGE_SIZE_2MB / PAGE_SIZE); mret (with_memory s2 b))
    = Ok (with_memory s2 b) ∧ tm_ok b (dom (tasks s2)) S' ∧ stacks (delete c (tasks s2)) S') as (b&S'&->&Hb&HS').
  { rewrite <- Es2. destruct (Z.eqb_spec (stack_base ts2) NULL) as [En|Hst].
    - exists (memory s2), S. split; [done|]. split; [done|]. by eapply stacks_drop.
    - destruct (st_live _ _ HS c ts2 Et2 Hst) as (q&Hq&Hqr&Eq). rewrite Eq. replace (q + hhdm - hhdm) with q by lia. rewrite u64_id by lia.
      destruct (tm_free_pages (memory s2) _ S q Hm Hq) as (b&->&Hb). exists b, (S ∖ {[q]}). split; [done|]. split; [done|]. by eapply stacks_take. }
  cbn [mbind result_bind]. unfold drop_task. cbn [memory with_memory].
  assert (c ∈ dom (tasks s2)) as Hc by (apply elem_of_dom; eauto).
  destruct (tm_free b _ S' c Hb Hc) as (b'&->&Hb'). cbn [mbind result_bind]. eexists. split; [done|].
  cbn [tasks with_tasks with_memory s2].
  assert (∀ e, payload <$> link p n (tasks s) !! e = payload <$> tasks s !! e) as Hpay by (intros; apply link_payload).
  assert (∀ e u, delete c (link p n (tasks s)) !! e = Some u → e ≠ c ∧ ∃ u0, tasks s !! e = Some u0 ∧ upid u = upid u0) as Hold.
  { intros e u [Hne E]%lookup_delete_Some. split; [done|]. specialize (Hpay e). rewrite E in Hpay.
    destruct (tasks s !! e) as [u0|]; [|done]. injection Hpay as Hu _ _ _. by exists u0. }
  split; [split; cbn [tasks with_tasks with_current with_memory current memory current_pid s2]; try apply H|].
  - apply (ring_frame (link p n (tasks s))).
    + by apply ring_tail.
    + intros e He. unfold links. rewrite lookup_delete_ne; [done|]. by intros ->.
  - done.
  - apply lookup_delete_None. right. specialize (Hpay NULL). rewrite (so_null _ _ H) in Hpay. by destruct (link p n (tasks s) !! NULL).
  - intros e u (_&u0&E0&->)%Hold. by eapply (so_pids _ _ H).
  - intros e1 e2 t1 t2 (_&u1&E1&->)%Hold (_&u2&E2&->)%Hold. by eapply (so_unique _ _ H).
  - intros e u [Hne E]%lookup_delete_Some Hout. rewrite link_other in E by (by intros ->).
    apply (so_wait _ _ H e); [done|]. rewrite elem_of_cons. by intros [->|?].
  - exists S'. by rewrite dom_delete_L.
  - do 3 (split; [done|]). split; [apply lookup_delete_eq|]. intros e He. rewrite lookup_delete_ne by done. apply Hpay.
Qed.

(** The ring after a tick. *)
Definition ticked (c : Z) (l : list Z) (t : task_t) : list Z :=
  if (upid t =? 0) && negb (bool_decide (l = [])) then l else l ++ [c].

Lemma switch_ok s ts : sched_ok s ts → ∃ n, tasks s !! current s = Some n.
Proof.
  intros H. rewrite (so_current _ _ H). apply (ring_lookup _ ts); [apply H|]. apply firstz_in. apply (so_ring _ _ H).
Qed.

Lemma timer_ok s c l tf : sched_ok s (c :: l) → ∃ t r s' n, tasks s !! c = Some t ∧
  scheduler_timer_handler hhdm tf s = Ok (r, s') ∧ sched_ok s' (ticked c l t) ∧
  current_pid s' = current_pid s ∧ frames s' = frames s ∧
  (payload <$> tasks s' !! c = if (upid t =? 0) && negb (bool_decide (l = [])) then None else Some (payload (set_rsp t tf))) ∧
  (∀ e, e ≠ c → payload <$> tasks s' !! e = payload <$> tasks s !! e) ∧
  tasks s' !! current s' = Some n ∧ r = rsp n ∧ pml4 s' = (if cr3 n =? 0 then pml4 s else cr3 n).
Proof.
  intros H. destruct (ring_lookup _ _ c (so_ring _ _ H)) as [t Ec]; [apply list_elem_of_here|].
  assert (current s = c) as Ecur by apply H. unfold scheduler_timer_handler. rewrite Ecur.
  rewrite (set_task_ok c _ s t Ec). cbn [mbind result_bind].
  pose proof (save_ok s _ c t tf H Ec) as H1. set (s1 := with_tasks s _) in *.
  assert (tasks s1 !! c = Some (set_rsp t tf)) as Ec1 by (cbn [tasks s1 with_tasks]; by rewrite lookup_alter_eq, Ec).
  assert (∀ e, e ≠ c → tasks s1 !! e = tasks s !! e) as Hne1 by (intros; by apply lookup_alter_ne).
  rewrite (task_at_ok _ _ _ Ec1). cbn [mbind result_bind].
  destruct (ring_first _ _ _ _ (so_ring _ _ H1) Ec1) as [Ep Ex]. rewrite Ep, Ex. cbn [upid set_rsp].
  assert (firstz l c ≠ NULL ∧ lastz l c ≠ NULL) as [Hf0 Hl0].
  { destruct l as [|x l]; [split; apply (so_nonnull _ _ c H), list_elem_of_here|].
    split; apply (so_nonnull _ _ _ H), list_elem_of_further; [by apply firstz_in|by apply lastz_in]. }
  rewrite (proj2 (Z.eqb_neq _ _) Hf0), (proj2 (Z.eqb_neq _ _) Hl0). cbn [negb]. rewrite !andb_true_r.
  assert ((c =? firstz l c) = bool_decide (l = [])) as ->.
  { destruct l as [|x l]; [apply Z.eqb_refl|]. rewrite bool_decide_false by done. apply Z.eqb_neq. intros E.
    destruct (so_ring _ _ H) as (_&[Hc _]%NoDup_cons&_). apply Hc. rewrite E. by apply firstz_in. }
  exists t. unfold ticked. destruct ((upid t =? 0) && negb (bool_decide (l = []))) eqn:Eb.
  - apply andb_true_iff in Eb as [_ Hl%negb_true_iff%bool_decide_eq_false_1].
    destruct (reap_ok s1 c l H1 Hl) as (s2&->&H2&Hpid&Hfr&Hpm&Hc&Hpay). cbn [mbind result_bind].
    rewrite (firstz_any l c 0) by done. destruct (switch_ok _ _ H2) as [n En]. cbn [current with_current tasks] in En.
    rewrite (task_at_ok _ _ _ En). cbn [mbind result_bind]. eexists _, _, n. split; [done|]. split; [done|].
    split; [|split; [|split; [|split; [|split]]]].
    + destruct (_ && _); [|done]. destruct H2. by split.
    + by destruct (_ && _).
    + by destruct (_ && _).
    + destruct (_ && _); cbn [tasks with_current with_pml4]; by rewrite Hc.
    + intros e He. rewrite <- (Hne1 e He), <- Hpay by done. by destruct (_ && _).
    + split; [by destruct (_ && _)|]. split; [done|]. change (pml4 s1) with (pml4 s) in Hpm. cbn [pml4 with_current]. rewrite Hpm.
      destruct (Z.eqb_spec (cr3 n) 0), (Z.eqb_spec (cr3 n) (pml4 s)); cbn [negb andb pml4 with_current with_pml4]; congruence.
  - clear Eb. cbn [mbind result_bind mret result_ret].
    assert (sched_ok (with_current s1 (firstz (l ++ [c]) 0)) (l ++ [c])) as H2.
    { pose proof (ring_rotate _ _ _ (so_ring _ _ H1)) as Hr. destruct H1. split; try done.
      intros e u E Hout. eapply so_wait0; [done|]. rewrite elem_of_app, elem_of_cons in *. rewrite elem_of_nil in Hout. tauto. }
    assert (firstz l c = firstz (l ++ [c]) 0) as -> by (by destruct l).
    destruct (switch_ok _ _ H2) as [n En]. cbn [current with_current tasks] in En.
    rewrite (task_at_ok _ _ _ En). cbn [mbind result_bind]. eexists _, _, n. split; [done|]. split; [done|].
    split; [|split; [|split; [|split; [|split]]]].
    + destruct (_ && _); [|done]. destruct H2. by split.
    + by destruct (_ && _).
    + by destruct (_ && _).
    + destruct (_ && _); cbn [tasks with_current with_pml4]; by rewrite Ec1.
    + intros e He. rewrite <- (Hne1 e He). by destruct (_ && _).
    + split; [by destruct (_ && _)|]. split; [done|]. assert (pml4 s1 = pml4 s) as Hpm by done. cbn [pml4 with_current]. rewrite Hpm.
      destruct (Z.eqb_spec (cr3 n) 0), (Z.eqb_spec (cr3 n) (pml4 s)); cbn [negb andb pml4 with_current with_pml4]; congruence.
Qed.

(** * Exit and creation *)

Lemma mark_ok s ts c t : sched_ok s ts → tasks s !! c = Some t →
  sched_ok (with_tasks s (alter (λ t, set_upid t 0) c (tasks s))) ts.
Proof.
  intros H Ec. assert (∀ e u, alter (λ t, set_upid t 0) c (tasks s) !! e = Some u →
    ∃ u0, tasks s !! e = Some u0 ∧ (upid u = 0 ∨ upid u = upid u0) ∧ next u = next u0) as Hold.
  { intros e u. rewrite lookup_alter. case_decide; [subst; rewrite Ec; intros [= <-]; exists t; by auto|intros E; exists u; by auto]. }
  pose proof (so_pid _ _ H) as Hpid.
  split; cbn [tasks with_tasks current current_pid memory]; try apply H.
  - apply (ring_frame (tasks s)); [apply H|]. intros e _. by apply links_alter.
  - pose proof (so_null _ _ H) as Hn. rewrite lookup_alter. case_decide; [subst; by rewrite Ec in Hn|done].
  - intros e u (u0&E0&Hu&_)%Hold. pose proof (so_pids _ _ H _ _ E0). lia.
  - intros a b t1 t2 (u1&E1&Hu1&_)%Hold (u2&E2&Hu2&_)%Hold Heq Hne.
    apply (so_unique _ _ H a b u1 u2); [done|done|lia|lia].
  - intros e u (u0&E0&_&->)%Hold. by apply (so_wait _ _ H).
  - apply (mem_ok_frame _ (tasks s)); [by apply alter_stack|apply H].
Qed.

Lemma exit_ok s c l tf : sched_ok s (c :: l) → l ≠ [] → ∃ r s' n,
  scheduler_exit_task hhdm tf s = Ok (r, s') ∧ sched_ok s' l ∧ current_pid s' = current_pid s ∧ frames s' = frames s ∧
  tasks s' !! c = None ∧ (∀ e, e ≠ c → payload <$> tasks s' !! e = payload <$> tasks s !! e) ∧
  tasks s' !! current s' = Some n ∧ r = rsp n ∧ pml4 s' = (if cr3 n =? 0 then pml4 s else cr3 n).
Proof.
  intros H Hl. destruct (ring_lookup _ _ c (so_ring _ _ H)) as [t Ec]; [apply list_elem_of_here|].
  assert (current s = c) as Ecur by apply H. unfold scheduler_exit_task. rewrite Ecur, (task_at_ok _ _ _ Ec).
  cbn [mbind result_bind]. destruct (ring_first _ _ _ _ (so_ring _ _ H) Ec) as [_ ->].
  rewrite (proj2 (Z.eqb_neq _ _)).
  2: { intros E. destruct (so_ring _ _ H) as (_&[Hc _]%NoDup_cons&_). apply Hc. rewrite <- E. by apply firstz_in. }
  rewrite (set_task_ok c _ s t Ec). cbn [mbind result_bind].
  destruct (timer_ok _ c l tf (mark_ok s _ c t H Ec)) as (t'&r&s'&n&Et'&E&H'&Hp&Hf&Hc&Hpay&Hn&Hr&Hpm).
  cbn [tasks with_tasks] in Et'. rewrite lookup_alter_eq, Ec in Et'. injection Et' as <-.
  unfold ticked in H'. cbn [upid set_upid Z.eqb andb] in *. rewrite bool_decide_false in * by done. cbn [negb andb] in *.
  exists r, s', n. split; [done|]. split; [done|]. split; [done|]. split; [done|].
  split; [by destruct (tasks s' !! c)|]. split; [|done]. intros e He. rewrite Hpay by done. cbn [tasks with_tasks]. by rewrite lookup_alter_ne.
Qed.

(** The last task cannot exit. *)
Lemma exit_last s c tf : sched_ok s [c] → ∃ t m, scheduler_exit_task hhdm tf s = Panic t m.
Proof.
  intros H. destruct (ring_lookup _ _ c (so_ring _ _ H)) as [t Ec]; [apply list_elem_of_here|].
  assert (current s = c) as Ecur by apply H. unfold scheduler_exit_task. rewrite Ecur, (task_at_ok _ _ _ Ec).
  cbn [mbind result_bind]. destruct (ring_first _ _ _ _ (so_ring _ _ H) Ec) as [_ ->]. cbn [firstz]. unfold firstz. simpl.
  rewrite Z.eqb_refl. by eexists _, _.
Qed.

(** The direct map lies in the kernel half. *)
Hypothesis Hhdm : 2 ^ 64 - 2 ^ 47 <= hhdm <= 2 ^ 64 - 2 ^ 46 - PAGE_SIZE_2MB.
Hypothesis Hhdm16 : (16 | hhdm).

(** The state with a new waiting task. *)
Lemma add_ok s ts a b t : sched_ok s ts → tasks s !! a = None → a ≠ NULL → upid t = 0 → next t = NULL →
  mem_ok b (<[a := t]> (tasks s)) → ∀ s', tasks s' = <[a := t]> (tasks s) → memory s' = b → current s' = current s →
  current_pid s' = current_pid s → sched_ok s' ts.
Proof.
  intros H Ea Ha Hu Hn Hb s' Et Em Ec Ep. pose proof (so_pid _ _ H).
  assert (a ∉ ts) as Hts.
  { intros Hin. destruct (ring_lookup _ _ a (so_ring _ _ H) Hin) as [u Eu]. congruence. }
  split; rewrite ?Et, ?Em, ?Ec, ?Ep; try apply H.
  - apply (ring_frame (tasks s)); [apply H|]. intros e He. unfold links. rewrite lookup_insert_ne; [done|]. by intros ->.
  - rewrite lookup_insert_ne by done. apply H.
  - intros e u [[-> <-]|[_ E]]%lookup_insert_Some; [lia|by eapply (so_pids _ _ H)].
  - intros e1 e2 t1 t2 [[-> <-]|[_ E1]]%lookup_insert_Some; [lia|].
    intros [[-> <-]|[_ E2]]%lookup_insert_Some; [lia|by eapply (so_unique _ _ H)].
  - intros e u [[-> <-]|[_ E]]%lookup_insert_Some; [done|by apply (so_wait _ _ H)].
  - done.
Qed.

Lemma memory_ok s ts b : sched_ok s ts → mem_ok b (tasks s) → sched_ok (with_memory s b) ts.
Proof. intros [] Hb. by split. Qed.

(** A new task waits with the frame of its entry point on top of its stack. *)
Definition prepared (entry : Z) s (a : Z) s' : Prop := ∃ t p,
  tasks s !! a = None ∧ tasks s' !! a = Some t ∧ upid t = 0 ∧ cr3 t = pml4 s ∧ next t = NULL ∧
  stack_base t = p + hhdm ∧ rsp t = p + hhdm + PAGE_SIZE_2MB - FRAME_SIZE ∧
  frames s' = <[rsp t := mkFrame entry 0x08 0x202 (p + hhdm + PAGE_SIZE_2MB) 0x10]> (frames s) ∧
  ∀ e, e ≠ a → tasks s' !! e = tasks s !! e.

Lemma create_ok s ts entry : sched_ok s ts →
  (∃ a s', scheduler_create_task hhdm entry s = Ok (a, s') ∧ a ≠ NULL ∧ sched_ok s' ts ∧ prepared entry s a s' ∧
     pml4 s' = pml4 s ∧ current_pid s' = current_pid s) ∨
  (∃ s', scheduler_create_task hhdm entry s = Ok (NULL, s') ∧ sched_ok s' ts ∧ tasks s' = tasks s ∧ frames s' = frames s ∧
     current_pid s' = current_pid s) ∨
  ∃ t m, scheduler_create_task hhdm entry s = Panic t m.
Proof.
  intros H. unfold scheduler_create_task, new_task_record.
  destruct (so_mem _ _ H) as (S&Hm&HS).
  destruct (tm_zalloc (memory s) _ S Hm) as [(a&b&->&Ha)|(t&m&->)]; [|by right; right; exists t, m].
  cbn [mbind result_bind mret result_ret]. destruct Ha as [[-> Hb]|(Ha&Hfresh&Hb)].
  { right. left. change (NULL =? NULL) with true. eexists. split; [done|]. split; [|done]. apply memory_ok; [done|by exists S]. }
  assert (a ≠ NULL) as Ha0 by (unfold NULL; lia). rewrite (proj2 (Z.eqb_neq a NULL)) by done.
  apply not_elem_of_dom in Hfresh. set (t0 := mkTask 0 0 0 NULL NULL NULL). set (s1 := with_tasks (with_memory s b) _).
  erewrite (set_task_ok a _ s1) by (unfold s1; apply lookup_insert_eq). cbn [mbind result_bind].
  set (t1 := set_cr3 (set_upid t0 0) (pml4 s1)). cbn [memory with_tasks s1 with_memory].
  destruct (tm_alloc_2mb b _ S Hb) as (p&b'&->&Hp). cbn [mbind result_bind].
  assert (alter (λ t, set_cr3 (set_upid t 0) (pml4 s1)) a (tasks s1) = <[a := t1]> (tasks s)) as Em.
  { apply map_eq. intros e. unfold s1. cbn [tasks with_tasks]. rewrite lookup_alter. case_decide; [subst; by rewrite !lookup_insert_eq|].
    by rewrite !lookup_insert_ne. }
  rewrite Em. destruct (Z.eqb_spec p 0) as [->|Hp0].
  1: destruct Hp as [[_ Hb']|[? _]]; [|lia].
  - right. left. unfold drop_task. cbn [memory with_memory with_tasks tasks].
    destruct (tm_free b' _ S a Hb') as (b2&->&Hb2); [set_solver|]. cbn [mbind result_bind mret result_ret].
    assert (({[a]} ∪ dom (tasks s)) ∖ {[a]} = dom (tasks s)) as Ed by (apply not_elem_of_dom in Hfresh; set_solver).
    rewrite Ed in Hb2. eexists. split; [done|].
    assert (delete a (<[a := t1]> (tasks s)) = tasks s) as Edel by (by apply delete_insert_id).
    split; [|split; [done|done]]. pose proof (so_pid _ _ H). destruct H.
    split; cbn [tasks with_tasks with_memory]; rewrite ?Edel; try done. by exists S.
  - left. destruct Hp as [[? _]|(Hp16&Hpr&HpS&Hb')]; [done|].
    assert (u64 (p + PAGE_SIZE_2MB + hhdm) = p + hhdm + PAGE_SIZE_2MB) as -> by (rewrite u64_id; unfold PAGE_SIZE_2MB in *; lia).
    assert (u64 (p + hhdm) = p + hhdm) as -> by (rewrite u64_id; unfold PAGE_SIZE_2MB in *; lia).
    assert (Z.land (p + hhdm + PAGE_SIZE_2MB) (not64 15) = p + hhdm + PAGE_SIZE_2MB) as ->.
    { change 15 with (2 ^ 4 - 1). rewrite land_mask by (unfold PAGE_SIZE_2MB in *; lia). symmetry. apply Z.div_exact; [done|].
      apply Z.mod_divide; [done|]. apply Z.divide_add_r; [by apply Z.divide_add_r|]. by exists (2 ^ 17). }
    rewrite (u64_id (_ - FRAME_SIZE)) by (unfold FRAME_SIZE, PAGE_SIZE_2MB in *; lia). set (fr := p + hhdm + PAGE_SIZE_2MB - FRAME_SIZE).
    assert (placed fr FRAME_SIZE) as Hpl by (unfold placed, fr, FRAME_SIZE, PAGE_SIZE_2MB in *; lia).
    unfold nonnull. rewrite (proj2 (Z.eqb_neq fr NULL)) by (unfold NULL; destruct Hpl; lia). cbn [mbind result_bind].
    pose proof (placed_safe fr FRAME_SIZE 0 FRAME_SIZE Hpl) as Hsafe.
    rewrite Z.add_0_r, u64_id in Hsafe by (unfold fr, FRAME_SIZE, PAGE_SIZE_2MB in *; lia).
    unfold safe. rewrite Hsafe by (unfold FRAME_SIZE; lia). cbn [mbind result_bind negb].
    erewrite (set_task_ok a) by (cbn [tasks with_frames with_memory with_tasks]; apply lookup_insert_eq).
    cbn [mbind result_bind mret result_ret]. eexists a, _. split; [done|]. split; [done|].
    cbn [tasks with_frames with_memory with_tasks].
    set (t2 := mkTask 0 fr (pml4 s) NULL NULL (p + hhdm)).
    match goal with |- context [alter ?f a (<[a:=t1]> (tasks s))] => assert (alter f a (<[a:=t1]> (tasks s)) = <[a := t2]> (tasks s)) as -> end.
    { apply map_eq. intros e. rewrite lookup_alter. case_decide; [subst; by rewrite !lookup_insert_eq|]. by rewrite !lookup_insert_ne. }
    split.
    { apply (add_ok s ts a b' t2); try done. exists ({[p]} ∪ S). rewrite dom_insert_L. split; [done|].
      apply stacks_give; try done. cbn [stack_base t2]. unfold NULL, PAGE_SIZE_2MB in *. lia. }
    split; [|done].
    exists t2, p. split; [done|]. cbn [tasks with_tasks frames with_frames]. split; [apply lookup_insert_eq|].
    repeat (split; [done|]). intros e He. by apply lookup_insert_ne.
Qed.

(** * The queue of tasks *)

Definition pid_of s (a : Z) : Z := default 0 (upid <$> tasks s !! a).

(** The ring as a queue of tasks and pids, and the next pid. *)
Definition queue_of s (ts : list Z) : list (Z * Z) * Z := (map (λ a, (a, pid_of s a)) ts, current_pid s).

Inductive event := Tick (tf : Z) | Create (entry : Z) | Enroll (a : Z) | Exit (tf : Z).

(** The specification: a tick moves the first task to the end, or drops it when
    its pid is 0; enrolment appends; exit drops the first task. *)
Definition queue_step (ev : event) (q : list (Z * Z) * Z) : list (Z * Z) * Z :=
  let '(q, pid) := q in
  match ev with
  | Tick _ => match q with
              | [] => ([], pid)
              | (a, p) :: q => ((if (p =? 0) && negb (bool_decide (q = [])) then q else q ++ [(a, p)]), pid)
              end
  | Create _ => (q, pid)
  | Enroll a => (q ++ [(a, pid)], pid + 1)
  | Exit _ => (tail q, pid)
  end.

(** The steps of the code; a task is enrolled once, after its creation. *)
Inductive step : sched → event → sched → Prop :=
  | step_tick s tf r s' : scheduler_timer_handler hhdm tf s = Ok (r, s') → step s (Tick tf) s'
  | step_create s entry a s' : scheduler_create_task hhdm entry s = Ok (a, s') → step s (Create entry) s'
  | step_enroll s a t s' : tasks s !! a = Some t → next t = NULL → scheduler_enroll_task a s = Ok s' → step s (Enroll a) s'
  | step_exit s tf r s' : scheduler_exit_task hhdm tf s = Ok (r, s') → step s (Exit tf) s'.

Inductive steps : sched → list event → sched → Prop :=
  | steps_nil s : steps s [] s
  | steps_cons s ev s1 evs s2 : step s ev s1 → steps s1 evs s2 → steps s (ev :: evs) s2.

Lemma pid_payload s s' e : payload <$> tasks s' !! e = payload <$> tasks s !! e → pid_of s' e = pid_of s e.
Proof.
  unfold pid_of. intros E. destruct (tasks s !! e), (tasks s' !! e); [|done..]. by injection E.
Qed.

Lemma queue_same s s' ts : (∀ a, a ∈ ts → pid_of s' a = pid_of s a) →
  map (λ a, (a, pid_of s' a)) ts = map (λ a, (a, pid_of s a)) ts.
Proof.
  intros Hp. induction ts as [|a ts IH]; [done|]. simpl. rewrite Hp by apply list_elem_of_here. f_equal. apply IH.
  intros b Hb. apply Hp. by apply list_elem_of_further.
Qed.

Lemma head_fresh s c l e : sched_ok s (c :: l) → e ∈ l → e ≠ c.
Proof. intros H He ->. destruct (so_ring _ _ H) as (_&[Hc _]%NoDup_cons&_). done. Qed.

Lemma refines s ts ev s' : sched_ok s ts → current_pid s < 2 ^ 64 - 1 → step s ev s' →
  ∃ ts', sched_ok s' ts' ∧ queue_of s' ts' = queue_step ev (queue_of s ts).
Proof.
  intros H Hpid Hstep. destruct ts as [|c l]; [by destruct (so_ring _ _ H)|].
  destruct Hstep as [s tf r s' E|s entry a s' E|s a t s' Ea En E|s tf r s' E].
  - destruct (timer_ok s c l tf H) as (t&r1&s1&n&Ec&E1&H1&Hp&_&Hc&Hpay&_). rewrite E in E1. injection E1 as <- <-.
    exists (ticked c l t). split; [done|]. unfold queue_of, queue_step. rewrite Hp. simpl.
    assert (pid_of s c = upid t) as Epc by (unfold pid_of; by rewrite Ec). rewrite Epc.
    assert (bool_decide (map (λ a, (a, pid_of s a)) l = []) = bool_decide (l = [])) as -> by (apply bool_decide_ext; by destruct l).
    assert (map (λ a, (a, pid_of s' a)) l = map (λ a, (a, pid_of s a)) l) as Hl.
    { apply queue_same. intros e He. apply pid_payload, Hpay. by eapply head_fresh. }
    unfold ticked. destruct ((upid t =? 0) && negb (bool_decide (l = []))) eqn:Eb; rewrite ?Eb; [by rewrite Hl|].
    rewrite map_app, Hl. simpl. do 4 f_equal. unfold pid_of. destruct (tasks s' !! c); [|done]. by injection Hc.
  - exists (c :: l). destruct (create_ok s (c :: l) entry H) as [(a1&s1&E1&_&H1&(t&p&Hf&_&_&_&_&_&_&_&Hne)&_&Hp)|[(s1&E1&H1&Ht&_&Hp)|(t&m&E1)]];
      rewrite E in E1; [| |done]; assert (s1 = s') as -> by congruence; (split; [done|]); unfold queue_of, queue_step; rewrite Hp; f_equal; apply queue_same; intros e He; unfold pid_of.
    + rewrite Hne; [done|]. intros ->. destruct (ring_lookup _ _ _ (so_ring _ _ H) He) as [u Eu]. congruence.
    + by rewrite Ht.
  - destruct (enroll_ok s c l a t H Ea En Hpid) as (s1&E1&H1&Hp&_&_&Ha&Hpay). rewrite E in E1. injection E1 as <-.
    exists ((c :: l) ++ [a]). split; [done|]. unfold queue_of, queue_step. rewrite Hp, map_app. f_equal.
    assert (a ∉ c :: l) as Hout by (by apply (waiting s _ a t H)). f_equal.
    + apply queue_same. intros e He. apply pid_payload, Hpay. by intros ->.
    + simpl. do 2 f_equal. unfold pid_of. destruct (tasks s' !! a); [|done]. by injection Ha.
  - destruct l as [|x l]; [destruct (exit_last s c tf H) as (?&?&E1); congruence|].
    destruct (exit_ok s c (x :: l) tf H) as (r1&s1&n&E1&H1&Hp&_&_&Hpay&_); [done|]. rewrite E in E1. injection E1 as <- <-.
    exists (x :: l). split; [done|]. unfold queue_of, queue_step. rewrite Hp. f_equal.
    apply (queue_same s s' (x :: l)). intros e He. apply pid_payload, Hpay. by eapply head_fresh.
Qed.

(** * No starvation *)

(** Entries into the tick. *)
Definition ticks (evs : list event) : nat := length (List.filter (λ ev, match ev with Tick _ | Exit _ => true | _ => false end) evs).

(** The place of a task after a step. *)
Lemma queue_place ev q pid k a p : q !! S k = Some (a, p) →
  ∃ j, (queue_step ev (q, pid)).1 !! j = Some (a, p) ∧ match ev with Tick _ | Exit _ => j = k | _ => j = S k end.
Proof.
  destruct q as [|(c&pc) q]; [done|]. intros Hk. change (q !! k = Some (a, p)) in Hk.
  destruct ev; simpl; [exists k|exists (S k)|exists (S k)|exists k]; (split; [|done]).
  - destruct (_ && _); [done|]. by apply lookup_app_l_Some.
  - done.
  - by apply lookup_app_l_Some.
  - done.
Qed.

Lemma no_starvation_ok s ts evs s' k a : sched_ok s ts → current_pid s + Z.of_nat (length evs) < 2 ^ 64 →
  steps s evs s' → ts !! k = Some a → (k <= ticks evs)%nat →
  ∃ evs1 evs2 s1, evs = evs1 ++ evs2 ∧ steps s evs1 s1 ∧ current s1 = a.
Proof.
  intros H Hpid Hs. revert ts k H Hpid. induction Hs as [s|s ev s1 evs s2 Hev Hs IH]; intros ts k H Hpid Hk Ht.
  - assert (k = 0%nat) as -> by (unfold ticks in Ht; simpl in Ht; lia). exists [], [], s. split; [done|]. split; [constructor|].
    rewrite (so_current _ _ H). by destruct ts; simplify_eq/=.
  - destruct k as [|k].
    + exists [], (ev :: evs), s. split; [done|]. split; [constructor|]. rewrite (so_current _ _ H). by destruct ts; simplify_eq/=.
    + cbn [length] in Hpid. destruct (refines s ts ev s1 H ltac:(lia) Hev) as (ts1&H1&Hq).
      destruct (queue_place ev (queue_of s ts).1 (current_pid s) k a (pid_of s a)) as (j&Hj&Hjk).
      { unfold queue_of. cbn [fst]. change (map (λ a0, (a0, pid_of s a0)) ts) with ((λ a0, (a0, pid_of s a0)) <$> ts).
        by rewrite list_lookup_fmap, Hk. }
      change ((queue_of s ts).1, current_pid s) with (queue_of s ts) in Hj. rewrite <- Hq in Hj. unfold queue_of in Hj. cbn [fst] in Hj.
      change (map (λ a0, (a0, pid_of s1 a0)) ts1) with ((λ a0, (a0, pid_of s1 a0)) <$> ts1) in Hj.
      rewrite list_lookup_fmap in Hj. destruct (ts1 !! j) as [b|] eqn:Eb; [|done]. simpl in Hj.
      assert (b = a) as -> by congruence.
      assert (current_pid s1 <= current_pid s + 1) as Hpid1.
      { assert (current_pid s1 = (queue_step ev (queue_of s ts)).2) as -> by (by rewrite <- Hq).
        unfold queue_of, queue_step. destruct ev; simpl; [destruct ts; simpl|..]; lia. }
      destruct (IH ts1 j H1) as (evs1&evs2&s3&->&Hs3&Hc); [lia|done| |].
      { unfold ticks in *. cbn [List.filter] in Ht. destruct ev; cbn [length] in Ht; subst j; lia. }
      exists (ev :: evs1), evs2, s3. split; [done|]. split; [by econstructor|done].
Qed.

(** * Lookup and initialisation *)

Lemma task_loop_ok s ts target fuel : sched_ok s ts → (length ts <= fuel)%nat →
  get_task_by_upid fuel target s = Ok (default NULL (List.find (λ a, pid_of s a =? target) ts)).
Proof.
  intros H Hf. unfold get_task_by_upid. pose proof (so_current _ _ H) as Hc.
  destruct ts as [|c l]; [by destruct (so_ring _ _ H)|]. change (firstz (c :: l) 0) with c in Hc. rewrite Hc.
  rewrite (proj2 (Z.eqb_neq _ _)) by (eapply so_nonnull; [done|apply list_elem_of_here]).
  assert (∀ l2 l1 e fuel, c :: l = l1 ++ e :: l2 → (length l2 < fuel)%nat → task_loop fuel target c e s =
    Ok (default NULL (List.find (λ a, pid_of s a =? target) (e :: l2)))) as Haux.
  2: { apply (Haux l []); [done|simpl in Hf; lia]. }
  induction l2 as [|x l2 IH]; intros l1 e fuel1 El Hf1; (destruct fuel1 as [|fuel1]; [simpl in Hf1; lia|]); cbn [task_loop].
  - destruct (ring_lookup _ _ e (so_ring _ _ H)) as [t Et]; [rewrite El, elem_of_app, elem_of_cons; tauto|].
    rewrite (task_at_ok _ _ _ Et). cbn [mbind result_bind List.find].
    assert (pid_of s e = upid t) as -> by (unfold pid_of; by rewrite Et). destruct (upid t =? target); [done|].
    destruct (so_ring _ _ H) as (_&_&Hs). rewrite El in Hs. apply seg_app in Hs as [_ [El1 _]]. unfold links in El1. rewrite Et in El1.
    injection El1 as _ ->. assert (firstz (l1 ++ [e]) 0 = c) as -> by (by rewrite <- El). by rewrite Z.eqb_refl.
  - destruct (ring_lookup _ _ e (so_ring _ _ H)) as [t Et]; [rewrite El, elem_of_app, elem_of_cons; tauto|].
    rewrite (task_at_ok _ _ _ Et). cbn [mbind result_bind]. change (List.find ?f (e :: x :: l2)) with (if f e then Some e else List.find f (x :: l2)). cbv beta.
    assert (pid_of s e = upid t) as -> by (unfold pid_of; by rewrite Et). destruct (upid t =? target); [done|].
    destruct (so_ring _ _ H) as (_&Hn&Hs). rewrite El in Hs, Hn. apply seg_app in Hs as [_ [El1 _]]. unfold links in El1. rewrite Et in El1.
    injection El1 as _ ->. change (firstz (x :: l2) _) with x. rewrite (proj2 (Z.eqb_neq _ _)).
    + apply (IH (l1 ++ [e])); [by rewrite <- app_assoc|simpl in Hf1; lia].
    + intros ->. destruct l1 as [|y l1]; injection El as -> El'.
      * apply NoDup_cons in Hn as [Hn _]. apply Hn, list_elem_of_here.
      * apply NoDup_cons in Hn as [Hn _]. apply Hn. rewrite elem_of_app, !elem_of_cons. tauto.
Qed.

(** An idle core: no task yet. *)
Definition idle s : Prop := tasks s = ∅ ∧ current s = NULL ∧ 0 < current_pid s < 2 ^ 64 ∧ tm_ok (memory s) ∅ ∅.

Lemma init_ok s : idle s →
  (∃ s' a t, scheduler_init s = Ok s' ∧ sched_ok s' [a] ∧ tasks s' !! a = Some t ∧ upid t = 0 ∧ cr3 t = pml4 s) ∨
  scheduler_init s = Fault ∨ ∃ t m, scheduler_init s = Panic t m.
Proof.
  intros (Et&Ec&Hp&Hm). unfold scheduler_init, new_task_record.
  destruct (tm_zalloc (memory s) _ _ Hm) as [(a&b&->&Ha)|(t&m&->)]; [|by right; right; exists t, m].
  cbn [mbind result_bind mret result_ret]. destruct Ha as [[-> Hb]|(Ha&Hfresh&Hb)].
  { right. left. change (NULL =? NULL) with true. cbv iota. unfold set_task, task_at. cbn [tasks with_memory]. by rewrite Et. }
  left. assert (a ≠ NULL) as Ha0 by (unfold NULL; lia). rewrite (proj2 (Z.eqb_neq a NULL)) by done.
  set (t0 := mkTask 0 0 0 NULL NULL NULL). set (s1 := with_tasks (with_memory s b) _).
  erewrite (set_task_ok a _ s1) by (unfold s1; apply lookup_insert_eq). cbn [mbind result_bind].
  erewrite (set_task_ok a) by (cbn [tasks with_tasks with_current]; apply alter_some; unfold s1; apply lookup_insert_eq).
  cbn [tasks with_tasks with_current]. rewrite alter_twice. set (t1 := set_prev (set_next (set_cr3 (set_upid t0 0) (pml4 s1)) a) a).
  assert (alter (λ t, set_prev (set_next (set_cr3 (set_upid t 0) (pml4 s1)) a) a) a (tasks s1) = {[a := t1]}) as ->.
  { apply map_eq. intros e. unfold s1. cbn [tasks with_tasks with_memory]. rewrite Et, lookup_alter.
    case_decide; [subst; by rewrite lookup_insert_eq, lookup_singleton_eq|]. by rewrite lookup_insert_ne, lookup_singleton_ne. }
  eexists _, a, t1. split; [done|]. split; [|split; [apply lookup_singleton_eq|done]].
  split; cbn [tasks with_tasks current with_current current_pid memory s1 with_memory].
  - split; [done|]. split; [apply NoDup_singleton|]. split; [|done]. unfold links. by rewrite lookup_singleton_eq.
  - done.
  - by apply lookup_singleton_ne.
  - done.
  - intros e u [<- <-]%lookup_singleton_Some. simpl. lia.
  - intros e1 e2 u1 u2 [<- <-]%lookup_singleton_Some [<- <-]%lookup_singleton_Some. done.
  - intros e u [<- <-]%lookup_singleton_Some Hout. exfalso. apply Hout, list_elem_of_here.
  - exists ∅. rewrite dom_singleton_L. rewrite (right_id_L ∅ (∪)) in Hb. split; [done|]. constructor.
    + intros e u [<- <-]%lookup_singleton_Some. done.
    + intros p Hin. by apply elem_of_empty in Hin.
    + intros e1 e2 u1 u2 [<- <-]%lookup_singleton_Some. done.
Qed.

(** C17: a tick with the ring [c :: l] never faults: it saves the stack pointer
    of [c], makes the next task current, returns that task's stack pointer and
    loads its page table; [c] goes to the end of the ring, or, when it has
    finished and is not alone, is unlinked and freed.  No other task changes. *)
Theorem sched_tick_correct s c l tf : sched_ok s (c :: l) → ∃ t r s' n, tasks s !! c = Some t ∧
  scheduler_timer_handler hhdm tf s = Ok (r, s') ∧ sched_ok s' (ticked c l t) ∧
  current_pid s' = current_pid s ∧ frames s' = frames s ∧
  (payload <$> tasks s' !! c = if (upid t =? 0) && negb (bool_decide (l = [])) then None else Some (payload (set_rsp t tf))) ∧
  (∀ e, e ≠ c → payload <$> tasks s' !! e = payload <$> tasks s !! e) ∧
  tasks s' !! current s' = Some n ∧ r = rsp n ∧ pml4 s' = (if cr3 n =? 0 then pml4 s else cr3 n).
Proof. apply timer_ok. Qed.

(** C18: the scheduler refines a queue of tasks and pids: every step of the code,
    ticks, creation, enrolment and exit, keeps the ring and its invariant and
    does to the queue what the specification says. *)
Theorem sched_refines_queue s ts ev s' : sched_ok s ts → current_pid s < 2 ^ 64 - 1 → step s ev s' →
  ∃ ts', sched_ok s' ts' ∧ queue_of s' ts' = queue_step ev (queue_of s ts).
Proof. by apply refines. Qed.

(** C19: no task starves: in every run, whatever is created, enrolled or exits
    meanwhile, the task at place [k] of the ring becomes current before the tick
    has been entered more than [k] times. *)
Theorem sched_no_starvation s ts evs s' k a : sched_ok s ts → current_pid s + Z.of_nat (length evs) < 2 ^ 64 →
  steps s evs s' → ts !! k = Some a → (k <= ticks evs)%nat →
  ∃ evs1 evs2 s1, evs = evs1 ++ evs2 ∧ steps s evs1 s1 ∧ current s1 = a.
Proof. by apply no_starvation_ok. Qed.
End Spec.

(** * A concrete memory and run *)

(** A counter: records of 64 bytes one after the other, and stacks of 2 MiB, the
    one after the other. *)
#[export] Instance bump_tasks : TaskMemory Z := {|
  zalloc b := Ok (if b <? 2 ^ 60 then (b, b + 64) else (NULL, b));
  free b _ := Ok b;
  alloc_2mb b := Ok (if b <? 2 ^ 30 then (b * 2 ^ 15, b + 64) else (0, b));
  free_pages b _ _ := Ok b
|}.

Definition bump_ok (b : Z) (A S : gset Z) : Prop := 0 < b ∧ (∀ a, a ∈ A → a < b) ∧ ∀ p, p ∈ S → p < b * 2 ^ 15.

#[export] Instance bump_tasks_laws : TaskMemoryLaws Z.
Proof.
  refine {| tm_ok := bump_ok; tm_zalloc := _; tm_free := _; tm_alloc_2mb := _; tm_free_pages := _ |}.
  - intros b A S (Hb&HA&HS). left. simpl. destruct (Z.ltb_spec b (2 ^ 60)); [|by exists NULL, b; split; [|left]].
    exists b, (b + 64). split; [done|]. right. split; [lia|]. split; [intros Hin; specialize (HA b Hin); lia|].
    split; [lia|]. split; [|intros p Hp; specialize (HS p Hp); lia].
    intros a [->%elem_of_singleton|Ha]%elem_of_union; [lia|]. specialize (HA a Ha). lia.
  - intros b A S a (Hb&HA&HS) _. exists b. split; [done|]. split; [done|]. set_solver.
  - intros b A S (Hb&HA&HS). simpl. destruct (Z.ltb_spec b (2 ^ 30)); [|by exists 0, b; split; [|left]].
    exists (b * 2 ^ 15), (b + 64). split; [done|]. right. split; [lia|]. split; [exists (b * 2 ^ 11); lia|].
    split; [intros Hin; specialize (HS _ Hin); lia|]. split; [lia|]. split; [intros a Ha; specialize (HA a Ha); lia|].
    intros p [->%elem_of_singleton|Hp]%elem_of_union; [lia|]. specialize (HS p Hp). lia.
  - intros b A S p (Hb&HA&HS) _. exists b. split; [done|]. split; [done|]. set_solver.
Defined.

Definition demo_hhdm : Z := 0xffff800000000000.

Lemma demo_hhdm_ok : 2 ^ 64 - 2 ^ 47 <= demo_hhdm <= 2 ^ 64 - 2 ^ 46 - PAGE_SIZE_2MB.
Proof. unfold demo_hhdm, PAGE_SIZE_2MB. lia. Qed.

Lemma demo_hhdm16 : (16 | demo_hhdm).
Proof. by exists 0xffff80000000000. Qed.

Definition sched_of (m : result (@sched Z)) : sched := match m with Ok s => s | _ => mkSched ∅ ∅ 0 1 0 0x1000 end.
Definition demo0 : @sched Z := mkSched ∅ ∅ NULL 1 0x5000 0x1000.
Definition demo1 : sched := sched_of (scheduler_init demo0).
Definition demo2 : sched := sched_of ('(_, s) ← scheduler_create_task demo_hhdm 0x400000 demo1; mret s).
Definition demo3 : sched := sched_of (scheduler_enroll_task 0x1040 demo2).

Lemma demo1_ok : sched_ok demo_hhdm demo1 [0x1000].
Proof.
  destruct (init_ok demo_hhdm demo0) as [(s'&a&t&E&H&_)|[E|(?&?&E)]]; [| |by vm_compute in E..].
  - do 3 (split; [done|]). split; [done|]. split; intros a Ha; by apply elem_of_empty in Ha.
  - unfold demo1. assert (current (sched_of (scheduler_init demo0)) = 0x1000) as Ec by (by vm_compute).
    rewrite E in *. cbn [sched_of] in *. rewrite (so_current _ _ _ H) in Ec. by rewrite <- Ec.
Qed.

Lemma demo3_ok : sched_ok demo_hhdm demo3 [0x1000; 0x1040].
Proof.
  destruct (create_ok demo_hhdm demo_hhdm_ok demo_hhdm16 demo1 [0x1000] 0x400000 demo1_ok) as
    [(a&s'&E&_&H&(t&p&_&Et&_&_&En&_)&_&Hp)|[(s'&E&_)|(?&?&E)]]; [|by vm_compute in E..].
  assert (a = 0x1040) as ->.
  { assert ((λ r, match r with Ok (a, _) => a | _ => 0 end) (scheduler_create_task demo_hhdm 0x400000 demo1) = 0x1040) as Ea by (by vm_compute).
    by rewrite E in Ea. }
  assert (demo2 = s') as E2 by (unfold demo2; by rewrite E).
  destruct (enroll_ok demo_hhdm s' 0x1000 [] 0x1040 t H Et En) as (s3&E3&H3&_).
  { rewrite Hp. by vm_compute. }
  unfold demo3. by rewrite E2, E3.
Qed.

Lemma sched_tick_correct_witness : ∃ r s', scheduler_timer_handler demo_hhdm 0x7000 demo3 = Ok (r, s') ∧
  sched_ok demo_hhdm s' [0x1040] ∧ tasks s' !! 0x1000 = None.
Proof.
  destruct (sched_tick_correct demo_hhdm demo3 0x1000 [0x1040] 0x7000 demo3_ok) as (t&r&s'&n&Et&E&H&_&_&Hc&_).
  exists r, s'. split; [done|].
  assert (upid t = 0) as Hu.
  { assert (upid <$> tasks demo3 !! 0x1000 = Some 0) as Eu by (by vm_compute). rewrite Et in Eu. by injection Eu. }
  unfold ticked in H. rewrite Hu in H, Hc. split; [exact H|]. simpl in Hc. by destruct (tasks s' !! 0x1000).
Defined.

Definition demo4 : sched := sched_of ('(_, s) ← scheduler_timer_handler demo_hhdm 0x7000 demo3; mret s).

Lemma demo_step : step demo_hhdm demo3 (Tick 0x7000) demo4.
Proof.
  destruct (timer_ok demo_hhdm demo3 0x1000 [0x1040] 0x7000 demo3_ok) as (t&r&s'&n&_&E&_).
  apply (step_tick _ _ _ r). unfold demo4. rewrite E. done.
Qed.

(** The bootstrap task, which has pid 0, is dropped at the first tick. *)
Lemma sched_refines_queue_witness : ∃ ts', sched_ok demo_hhdm demo4 ts' ∧ queue_of demo4 ts' = ([(0x1040, 1)], 2).
Proof.
  destruct (sched_refines_queue demo_hhdm demo_hhdm_ok demo_hhdm16 demo3 [0x1000; 0x1040] (Tick 0x7000) demo4 demo3_ok ltac:(by vm_compute) demo_step)
    as (ts'&H&E).
  exists ts'. split; [done|]. rewrite E. vm_compute. reflexivity.
Defined.

Lemma sched_no_starvation_witness : ∃ evs1 evs2 s1, [Tick 0x7000] = evs1 ++ evs2 ∧ steps demo_hhdm demo3 evs1 s1 ∧ current s1 = 0x1040.
Proof.
  refine (sched_no_starvation demo_hhdm demo_hhdm_ok demo_hhdm16 demo3 [0x1000; 0x1040] [Tick 0x7000] demo4 1 0x1040 demo3_ok _ _ eq_refl _).
  - by vm_compute.
  - eapply steps_cons; [apply demo_step|constructor].
  - unfold ticks. simpl. lia.
Defined.
