(* ===== verification/Cuterm.v ===== *)
(** The framebuffer terminal (src/graphics/ui/cuterm.c, cuterm.h,
    src/graphics/fb.h).

    The pixels are the bytes of the framebuffer, by offset from its address; a
    store outside the [pitch * height] bytes is a [Fault].  The font is a
    parameter: every theorem holds for every font.  Signed overflow, which C
    leaves undefined, is a [Fault] too. *)

From S2P Require Import Prelude Mem.

Definition ANSI_MAX_PARAMS : Z := 16.
Definition CUTERM_CHAR_WIDTH : Z := 8.
Definition CUTERM_CHAR_HEIGHT : Z := 16.

Inductive ansi_state_t := ANSI_STATE_NORMAL | ANSI_STATE_ESC | ANSI_STATE_CSI.

Record rgb_t := mkRgb { r : Z; g : Z; b : Z }.

Record linear_framebuffer_t := mkFb {
  address : Z;
  width : Z;
  height : Z;
  pitch : Z;
  bpp : Z;
  red_size : Z; red_shift : Z;
  green_size : Z; green_shift : Z;
  blue_size : Z; blue_shift : Z
}.

(** The terminal, with the bytes of the framebuffer in [vram]. *)
Record cuterm_state_t := mkTerm {
  fb_info : linear_framebuffer_t;
  vram : Z → Z;
  cursor_x : Z;
  cursor_y : Z;
  ansi_state : ansi_state_t;
  ansi_params : list Z;
  ansi_cur_param : Z;
  ansi_has_digit : bool;
  cur_fg : rgb_t;
  cur_bg : rgb_t
}.

Definition with_vram (s : cuterm_state_t) (v : Z → Z) : cuterm_state_t :=
  mkTerm (fb_info s) v (cursor_x s) (cursor_y s) (ansi_state s) (ansi_params s) (ansi_cur_param s) (ansi_has_digit s) (cur_fg s) (cur_bg s).
Definition with_cursor (s : cuterm_state_t) (x y : Z) : cuterm_state_t :=
  mkTerm (fb_info s) (vram s) x y (ansi_state s) (ansi_params s) (ansi_cur_param s) (ansi_has_digit s) (cur_fg s) (cur_bg s).
Definition with_ansi (s : cuterm_state_t) (a : ansi_state_t) : cuterm_state_t :=
  mkTerm (fb_info s) (vram s) (cursor_x s) (cursor_y s) a (ansi_params s) (ansi_cur_param s) (ansi_has_digit s) (cur_fg s) (cur_bg s).
Definition with_params (s : cuterm_state_t) (ps : list Z) (p : Z) (d : bool) : cuterm_state_t :=
  mkTerm (fb_info s) (vram s) (cursor_x s) (cursor_y s) (ansi_state s) ps p d (cur_fg s) (cur_bg s).
Definition with_colors (s : cuterm_state_t) (f k : rgb_t) : cuterm_state_t :=
  mkTerm (fb_info s) (vram s) (cursor_x s) (cursor_y s) (ansi_state s) (ansi_params s) (ansi_cur_param s) (ansi_has_digit s) f k.

Definition ansi_basic_colors : list rgb_t :=
  [mkRgb 0 0 0; mkRgb 205 0 0; mkRgb 0 205 0; mkRgb 205 205 0; mkRgb 0 0 238; mkRgb 205 0 205; mkRgb 0 205 205;
   mkRgb 229 229 229; mkRgb 127 127 127; mkRgb 255 0 0; mkRgb 0 255 0; mkRgb 255 255 0; mkRgb 92 92 255;
   mkRgb 255 0 255; mkRgb 0 255 255; mkRgb 255 255 255].

Definition ansi_cube_levels : list Z := [0; 95; 135; 175; 215; 255].

(** The static initialiser. *)
Definition g_cuterm_state (fb : linear_framebuffer_t) (v : Z → Z) : cuterm_state_t :=
  mkTerm fb v 0 0 ANSI_STATE_NORMAL [] 0 false (mkRgb 255 255 255) (mkRgb 0 0 0).

Definition cuterm_init (fb : linear_framebuffer_t) (s : cuterm_state_t) : cuterm_state_t :=
  mkTerm fb (vram s) (cursor_x s) (cursor_y s) (ansi_state s) (ansi_params s) (ansi_cur_param s) (ansi_has_digit s) (cur_fg s) (cur_bg s).

(** * Pixels *)

(** [(c >> (8 - size)) << shift] on [int]; the result is used as 32 bits. *)
Definition channel (c size shift : Z) : result Z :=
  if (size <=? 8) && (shift <? 32) then mret (Z.shiftl (Z.shiftr c (8 - size)) shift) else Fault.

Definition pack_color (c : rgb_t) (s : cuterm_state_t) : result Z :=
  let fb := fb_info s in
  x ← channel (r c) (red_size fb) (red_shift fb);
  y ← channel (g c) (green_size fb) (green_shift fb);
  z ← channel (b c) (blue_size fb) (blue_shift fb);
  mret (u32 (Z.lor (Z.lor x y) z)).

Definition vram_size (fb : linear_framebuffer_t) : Z := pitch fb * height fb.

Definition store_byte (off v : Z) (s : cuterm_state_t) : result cuterm_state_t :=
  if (0 <=? off) && (off <? vram_size (fb_info s))
  then mret (with_vram s (λ a, if a =? off then v else vram s a)) else Fault.

(** The [n] low bytes of [color] at [off]. *)
Definition store_bytes (off color n : Z) (s : cuterm_state_t) : result cuterm_state_t :=
  for_range n (λ i s, store_byte (off + i) (Z.land (Z.shiftr color (8 * i)) 0xFF) s) s.

Definition set_pixel (x y : Z) (c : rgb_t) (s : cuterm_state_t) : result cuterm_state_t :=
  let fb := fb_info s in
  let off := y * pitch fb + x * (bpp fb / 8) in
  color ← pack_color c s;
  if bpp fb =? 32 then store_bytes off color 4 s
  else if bpp fb =? 24 then store_bytes off color 3 s
  else mret s.

Definition clear_rows (y_start height_px : Z) (s : cuterm_state_t) : result cuterm_state_t :=
  if height_px <=? 0 then mret s
  else
    let fb := fb_info s in
    color ← pack_color (cur_bg s) s;
    let base := y_start * pitch fb in
    for_range height_px (λ y s,
      let row := base + y * pitch fb in
      if bpp fb =? 32 then
        for_range (width fb) (λ x s,
          _ ← safe "MEMORY" "memcpy dest is out of range" (u64 (address fb + (row + x * 4))) 4;
          store_bytes (row + x * 4) color 4 s) s
      else if bpp fb =? 24 then for_range (width fb) (λ x s, store_bytes (row + x * 3) color 3 s) s
      else mret s) s.

(** [memmove] from [off] to the start, as Mem.v shows it moves bytes. *)
Definition move_down (off n : Z) (s : cuterm_state_t) : result cuterm_state_t :=
  let fb := fb_info s in
  _ ← nonnull "MEMORY" "memmove dest is null" (address fb);
  _ ← nonnull "MEMORY" "memmove src is null" (u64 (address fb + off));
  _ ← safe "MEMORY" "memmove dest is out of range" (address fb) n;
  _ ← safe "MEMORY" "memmove src is out of range" (u64 (address fb + off)) n;
  if off + n <=? vram_size fb
  then mret (with_vram s (λ a, if (0 <=? a) && (a <? n) then vram s (a + off) else vram s a)) else Fault.

Definition cuterm_scroll (s : cuterm_state_t) : result cuterm_state_t :=
  let fb := fb_info s in
  let row_bytes := u64 (pitch fb * CUTERM_CHAR_HEIGHT) in
  let total_bytes := u64 (pitch fb * height fb) in
  s ← move_down row_bytes (u64 (total_bytes - row_bytes)) s;
  clear_rows (i32 (height fb) - CUTERM_CHAR_HEIGHT) CUTERM_CHAR_HEIGHT s.

Definition cuterm_newline (s : cuterm_state_t) : result cuterm_state_t :=
  let s := with_cursor s (cursor_x s) (cursor_y s + 1) in
  let rows := i32 (height (fb_info s) / CUTERM_CHAR_HEIGHT) in
  if cursor_y s >=? rows then
    s ← cuterm_scroll s; mret (with_cursor s (cursor_x s) (rows - 1))
  else mret s.

(** * Escape sequences *)

Definition color_at (i : Z) : result rgb_t := of_option (ansi_basic_colors !! Z.to_nat i).

Definition ansi_256_to_rgb (code : Z) : result rgb_t :=
  if code <? 16 then color_at code
  else if code >=? 232 then
    let v := u8 (8 + (code - 232) * 10) in mret (mkRgb v v v)
  else
    let idx := u8 (code - 16) in
    x ← of_option (ansi_cube_levels !! Z.to_nat (idx / 36));
    y ← of_option (ansi_cube_levels !! Z.to_nat ((idx / 6) mod 6));
    z ← of_option (ansi_cube_levels !! Z.to_nat (idx mod 6));
    mret (mkRgb x y z).

Definition ansi_reset_colors (s : cuterm_state_t) : cuterm_state_t :=
  with_colors s (mkRgb 200 200 200) (mkRgb 0 0 0).

Definition between (lo hi p : Z) : bool := (lo <=? p) && (p <=? hi).

(** The loop over the parameters, two of which a 256 color code skips. *)
Fixpoint sgr_loop (ps : list Z) (s : cuterm_state_t) : result cuterm_state_t :=
  match ps with
  | [] => mret s
  | p :: ps1 =>
      let fg := cur_fg s in let bg := cur_bg s in
      if p =? 0 then sgr_loop ps1 (ansi_reset_colors s)
      else if between 30 37 p then c ← color_at (p - 30); sgr_loop ps1 (with_colors s c bg)
      else if p =? 38 then
        match ps1 with
        | m :: n :: ps2 =>
            if m =? 5 then c ← ansi_256_to_rgb (u8 n); sgr_loop ps2 (with_colors s c bg) else sgr_loop ps1 s
        | _ => sgr_loop ps1 s
        end
      else if p =? 39 then sgr_loop ps1 (with_colors s (mkRgb 255 255 255) bg)
      else if between 40 47 p then c ← color_at (p - 40); sgr_loop ps1 (with_colors s fg c)
      else if p =? 48 then
        match ps1 with
        | m :: n :: ps2 =>
            if m =? 5 then c ← ansi_256_to_rgb (u8 n); sgr_loop ps2 (with_colors s fg c) else sgr_loop ps1 s
        | _ => sgr_loop ps1 s
        end
      else if p =? 49 then sgr_loop ps1 (with_colors s fg (mkRgb 0 0 0))
      else if between 90 97 p then c ← color_at (p - 90 + 8); sgr_loop ps1 (with_colors s c bg)
      else if between 100 107 p then c ← color_at (p - 100 + 8); sgr_loop ps1 (with_colors s fg c)
      else sgr_loop ps1 s
  end.

Definition ansi_apply_sgr (s : cuterm_state_t) : result cuterm_state_t :=
  match ansi_params s with [] => mret (ansi_reset_colors s) | ps => sgr_loop ps s end.

Definition ansi_push_param (s : cuterm_state_t) : cuterm_state_t :=
  let ps := if Z.of_nat (length (ansi_params s)) <? ANSI_MAX_PARAMS
            then ansi_params s ++ [if ansi_has_digit s then ansi_cur_param s else 0] else ansi_params s in
  with_params s ps 0 false.

Definition is_digit (c : Z) : bool := (48 <=? c) && (c <=? 57).

(** Whether the character belonged to a sequence, and the state. *)
Definition ansi_feed (c : Z) (s : cuterm_state_t) : result (bool * cuterm_state_t) :=
  match ansi_state s with
  | ANSI_STATE_NORMAL => if c =? 0x1b then mret (true, with_ansi s ANSI_STATE_ESC) else mret (false, s)
  | ANSI_STATE_ESC =>
      mret (true, if c =? 91 then with_params (with_ansi s ANSI_STATE_CSI) [] 0 false else with_ansi s ANSI_STATE_NORMAL)
  | ANSI_STATE_CSI =>
      if is_digit c then
        let p := ansi_cur_param s * 10 + (c - 48) in
        if p <? 2 ^ 31 then mret (true, with_params s (ansi_params s) p true) else Fault
      else if c =? 59 then mret (true, ansi_push_param s)
      else
        let s := ansi_push_param s in
        s ← (if c =? 109 then ansi_apply_sgr s else mret s);
        mret (true, with_ansi s ANSI_STATE_NORMAL)
  end.

(** * Characters *)

Section Cuterm.
(** [builtin_font] *)
Variable builtin_font : Z → Z.

Definition draw_char (c : Z) (s : cuterm_state_t) : result cuterm_state_t :=
  let font_idx := c * CUTERM_CHAR_HEIGHT in
  let pos_x := cursor_x s * CUTERM_CHAR_WIDTH in
  let pos_y := cursor_y s * CUTERM_CHAR_HEIGHT in
  for_range CUTERM_CHAR_HEIGHT (λ y s,
    let row := builtin_font (font_idx + y) in
    for_range CUTERM_CHAR_WIDTH (λ x s,
      set_pixel (pos_x + x) (pos_y + y) (if Z.testbit row (7 - x) then cur_fg s else cur_bg s) s) s) s.

(** [c] is the character as an [unsigned char]. *)
Definition cuterm_putc (c : Z) (s : cuterm_state_t) : result cuterm_state_t :=
  '(fed, s) ← ansi_feed c s;
  if (fed : bool) then mret s
  else if c =? 10 then cuterm_newline (with_cursor s 0 (cursor_y s))
  else
    s ← draw_char c s;
    let s := with_cursor s (cursor_x s + 1) (cursor_y s) in
    if cursor_x s >=? width (fb_info s) / CUTERM_CHAR_WIDTH
    then cuterm_newline (with_cursor s 0 (cursor_y s)) else mret s.

Definition cuterm_puts (cs : list Z) (s : cuterm_state_t) : result cuterm_state_t :=
  foldl (λ r c, s ← r; cuterm_putc c s) (Ok s) cs.
End Cuterm.
