(* ===== verification/CutermSpec.v ===== *)
(** What the framebuffer terminal shows (src/graphics/ui/cuterm.c): its state
    stays well formed and inside the framebuffer, its pixels render a screen of
    cells, and escape sequences set the colors they name. *)

From S2P Require Import Prelude Mem Cuterm.

(** * Well-formed states *)

Definition bytes_pp (fb : linear_framebuffer_t) : Z := bpp fb / 8.
Definition cols (fb : linear_framebuffer_t) : Z := width fb / CUTERM_CHAR_WIDTH.
Definition rows (fb : linear_framebuffer_t) : Z := height fb / CUTERM_CHAR_HEIGHT.

(** A framebuffer of at least one character, whose lines fit their pitch. *)
Record fb_ok (fb : linear_framebuffer_t) : Prop := {
  fo_width : 8 <= width fb < 2 ^ 24;
  fo_height : 16 <= height fb < 2 ^ 24;
  fo_bpp : bpp fb = 24 ∨ bpp fb = 32;
  fo_pitch : width fb * bytes_pp fb <= pitch fb < 2 ^ 28;
  fo_placed : placed (address fb) (vram_size fb) ∧ address fb + vram_size fb < 2 ^ 64;
  fo_masks : Forall (λ m : Z * Z, 0 <= m.1 <= 8 ∧ 0 <= m.2 < 32)
    [(red_size fb, red_shift fb); (green_size fb, green_shift fb); (blue_size fb, blue_shift fb)]
}.

Definition rgb_ok (c : rgb_t) : Prop := 0 <= r c < 2 ^ 8 ∧ 0 <= g c < 2 ^ 8 ∧ 0 <= b c < 2 ^ 8.

Record term_ok (s : cuterm_state_t) : Prop := {
  to_fb : fb_ok (fb_info s);
  to_x : 0 <= cursor_x s < cols (fb_info s);
  to_y : 0 <= cursor_y s < rows (fb_info s);
  to_count : Z.of_nat (length (ansi_params s)) <= ANSI_MAX_PARAMS;
  to_params : Forall (λ p, 0 <= p < 2 ^ 31) (ansi_params s);
  to_param : 0 <= ansi_cur_param s < 2 ^ 31;
  to_fg : rgb_ok (cur_fg s);
  to_bg : rgb_ok (cur_bg s)
}.

(** * Pixels *)

Section Pixels.
Variable fb : linear_framebuffer_t.
Hypothesis Hfb : fb_ok fb.

(** The bytes of a color, and byte [i] of the pixel at [(x, y)]. *)
Definition packed (c : rgb_t) : Z :=
  u32 (Z.lor (Z.lor (Z.shiftl (Z.shiftr (r c) (8 - red_size fb)) (red_shift fb))
    (Z.shiftl (Z.shiftr (g c) (8 - green_size fb)) (green_shift fb)))
    (Z.shiftl (Z.shiftr (b c) (8 - blue_size fb)) (blue_shift fb))).
Definition color_byte (c : rgb_t) (i : Z) : Z := Z.land (Z.shiftr (packed c) (8 * i)) 0xFF.
Definition offset (x y : Z) : Z := y * pitch fb + x * bytes_pp fb.
Definition on_screen (x y : Z) : Prop := 0 <= x < width fb ∧ 0 <= y < height fb.

(** [v'] is [v] with the pixels [D] painted with [col]. *)
Definition painted (v : Z → Z) (D : Z → Z → bool) (col : Z → Z → rgb_t) (v' : Z → Z) : Prop :=
  ∀ x y i, on_screen x y → 0 <= i < bytes_pp fb →
    v' (offset x y + i) = if D x y then color_byte (col x y) i else v (offset x y + i).

Lemma painted_nothing v col : painted v (λ _ _, false) col v.
Proof. done. Qed.

Lemma painted_then v D1 v1 D2 v2 D col : painted v D1 col v1 → painted v1 D2 col v2 →
  (∀ x y, on_screen x y → D x y = D1 x y || D2 x y) → painted v D col v2.
Proof.
  intros H1 H2 HD x y i Hxy Hi. rewrite (H2 x y i Hxy Hi), HD by done. rewrite (H1 x y i Hxy Hi).
  by destruct (D1 x y), (D2 x y).
Qed.

Lemma painted_ext v D D' col col' v' : painted v D col v' →
  (∀ x y, on_screen x y → D' x y = D x y ∧ (D x y = true → col' x y = col x y)) → painted v D' col' v'.
Proof.
  intros H HD x y i Hxy Hi. rewrite (H x y i Hxy Hi). destruct (HD x y Hxy) as [-> Hc].
  destruct (D x y); [by rewrite Hc|done].
Qed.

Lemma bytes_pp_cases : ((bpp fb =? 32) = true ∧ bytes_pp fb = 4) ∨ ((bpp fb =? 32) = false ∧ (bpp fb =? 24) = true ∧ bytes_pp fb = 3).
Proof. unfold bytes_pp. destruct (fo_bpp _ Hfb) as [-> | ->]; [by right|by left]. Qed.

Lemma offset_inj x y i x' y' i' : on_screen x y → on_screen x' y' → 0 <= i < bytes_pp fb → 0 <= i' < bytes_pp fb →
  offset x y + i = offset x' y' + i' → x = x' ∧ y = y' ∧ i = i'.
Proof.
  unfold on_screen, offset. intros Hx Hx' Hi Hi' E. pose proof (fo_pitch _ Hfb) as Hp.
  set (n := bytes_pp fb) in *. set (p := pitch fb) in *. set (w := width fb) in *.
  assert (0 <= x * n + i < p ∧ 0 <= x' * n + i' < p) as [Hu Hu'] by nia.
  assert (y = y') as <-.
  { rewrite <- !Z.add_assoc in E. rewrite (Z.mul_comm y), (Z.mul_comm y') in E.
    by destruct (Z.div_mod_unique p y y' (x * n + i) (x' * n + i')); [by left|by left|done|]. }
  assert (x = x'); [|split; [done|split; [done|subst; lia]]].
  assert (n * x + i = n * x' + i') as E2 by lia.
  by destruct (Z.div_mod_unique n x x' i i'); [by left|by left|done|].
Qed.

Lemma offset_bounds x y : on_screen x y → 0 <= offset x y ∧ offset x y + bytes_pp fb <= vram_size fb.
Proof.
  unfold on_screen, offset, vram_size. intros [Hx Hy]. pose proof (fo_pitch _ Hfb) as Hp. pose proof (fo_width _ Hfb).
  assert (0 < bytes_pp fb) by (destruct bytes_pp_cases as [[_ ->]|(_&_&->)]; lia). nia.
Qed.

Lemma pack_ok c s : fb_info s = fb → pack_color c s = Ok (packed c).
Proof.
  intros E. unfold pack_color, channel. rewrite E. pose proof (fo_masks _ Hfb) as Hm.
  apply Forall_cons in Hm as [[? ?] Hm]. apply Forall_cons in Hm as [[? ?] Hm]. apply Forall_cons in Hm as [[? ?] _]. simpl in *.
  by repeat (rewrite (proj2 (Z.leb_le _ _)), (proj2 (Z.ltb_lt _ _)) by lia; cbn [andb mret result_ret mbind result_bind]).
Qed.

Lemma store_bytes_ok off c n s : fb_info s = fb → 0 <= n → 0 <= off → off + n <= vram_size fb →
  ∃ v, store_bytes off (packed c) n s = Ok (with_vram s v) ∧
    ∀ a, v a = if (off <=? a) && (a <? off + n) then color_byte c (a - off) else vram s a.
Proof.
  intros E Hn H0 H1. unfold store_bytes.
  destruct (for_range_ok (λ k s', ∃ v, s' = with_vram s v ∧
    ∀ a, v a = if (off <=? a) && (a <? off + k) then color_byte c (a - off) else vram s a) n
    (λ i s, store_byte (off + i) (Z.land (Z.shiftr (packed c) (8 * i)) 0xFF) s) s) as (s'&Es&v&->&Hv); [done| | |by exists v].
  - exists (vram s). split; [by destruct s|]. intros a. destruct (Z.leb_spec off a), (Z.ltb_spec a (off + 0)); try done. lia.
  - intros k s1 Hk (v&->&Hv). unfold store_byte. cbn [fb_info with_vram]. rewrite E.
    rewrite (proj2 (Z.leb_le _ _)), (proj2 (Z.ltb_lt _ _)) by lia. cbn [andb]. eexists. split; [done|].
    eexists. split; [done|]. intros a. cbn [vram with_vram]. rewrite Hv. unfold color_byte.
    destruct (Z.eqb_spec a (off + k)) as [->|].
    + rewrite (proj2 (Z.leb_le _ _)), (proj2 (Z.ltb_lt _ _)) by lia. cbn [andb]. do 3 f_equal. lia.
    + destruct (Z.leb_spec off a), (Z.ltb_spec a (off + k)), (Z.ltb_spec a (off + (k + 1))); try done; lia.
Qed.

Lemma store_paints s v X Y c : on_screen X Y →
  (∀ a, v a = if (offset X Y <=? a) && (a <? offset X Y + bytes_pp fb) then color_byte c (a - offset X Y) else vram s a) →
  painted (vram s) (λ x y, (x =? X) && (y =? Y)) (λ _ _, c) v.
Proof.
  intros HXY Hv x y i Hxy Hi. rewrite Hv. destruct (Z.eqb_spec x X) as [->|Hx]; [destruct (Z.eqb_spec y Y) as [->|Hy]|]; cbn [andb].
  - rewrite (proj2 (Z.leb_le _ _)), (proj2 (Z.ltb_lt _ _)) by lia. cbn [andb]. f_equal. lia.
  - destruct (Z.leb_spec (offset X Y) (offset X y + i)), (Z.ltb_spec (offset X y + i) (offset X Y + bytes_pp fb)); try done.
    exfalso. destruct (offset_inj X y i X Y (offset X y + i - offset X Y) Hxy HXY Hi) as (?&?&?); [lia|lia|done].
  - destruct (Z.leb_spec (offset X Y) (offset x y + i)), (Z.ltb_spec (offset x y + i) (offset X Y + bytes_pp fb)); try done.
    exfalso. destruct (offset_inj x y i X Y (offset x y + i - offset X Y) Hxy HXY Hi) as (?&?&?); [lia|lia|done].
Qed.

Lemma set_pixel_ok X Y c s : fb_info s = fb → on_screen X Y →
  ∃ v, set_pixel X Y c s = Ok (with_vram s v) ∧ painted (vram s) (λ x y, (x =? X) && (y =? Y)) (λ _ _, c) v.
Proof.
  intros E HXY. unfold set_pixel. rewrite (pack_ok _ _ E). cbn [mbind result_bind]. rewrite E.
  fold (bytes_pp fb) (offset X Y). pose proof (offset_bounds X Y HXY) as [H0 H1].
  assert (∃ v, store_bytes (offset X Y) (packed c) (bytes_pp fb) s = Ok (with_vram s v) ∧
    painted (vram s) (λ x y, (x =? X) && (y =? Y)) (λ _ _, c) v) as (v&Ev&Hv).
  { destruct (store_bytes_ok (offset X Y) c (bytes_pp fb) s E) as (v&Ev&Hv); [|done|done|].
    - destruct bytes_pp_cases as [[_ ->]|(_&_&->)]; lia.
    - exists v. split; [done|]. by apply store_paints. }
  exists v. split; [|done]. destruct bytes_pp_cases as [[-> En]|(->&->&En)]; by rewrite En in Ev.
Qed.

(** A loop that paints one set after the other. *)
Lemma for_range_paints n f s D col : 0 <= n →
  (∀ i s' v, 0 <= i < n → s' = with_vram s v → ∃ v', f i s' = Ok (with_vram s v') ∧ painted v (D i) col v') →
  ∃ v, for_range n f s = Ok (with_vram s v) ∧
    painted (vram s) (λ x y, existsb (λ i, D i x y) (seqZ 0 n)) col v.
Proof.
  intros Hn Hf.
  destruct (for_range_ok (λ k s', ∃ v, s' = with_vram s v ∧ painted (vram s) (λ x y, existsb (λ i, D i x y) (seqZ 0 k)) col v) n f s)
    as (s'&E&v&->&Hv); [done| | |by exists v].
  - exists (vram s). split; [by destruct s|done].
  - intros i s1 Hi (v&->&Hv). destruct (Hf i (with_vram s v) v Hi eq_refl) as (v'&E&Hv'). eexists. split; [done|].
    exists v'. split; [done|]. eapply painted_then; [exact Hv|exact Hv'|]. intros x y _.
    assert (seqZ 0 (i + 1) = seqZ 0 i ++ [i]) as Es.
    { by rewrite seqZ_app by lia. }
    rewrite Es, existsb_app. simpl. by rewrite orb_false_r.
Qed.

Lemma existsb_same (f f' : Z → bool) l : (∀ i, f i = f' i) → existsb f l = existsb f' l.
Proof. intros H. induction l as [|i l IH]; [done|]. simpl. by rewrite H, IH. Qed.

Lemma existsb_seqZ_eq n a : existsb (λ i, a =? i) (seqZ 0 n) = (0 <=? a) && (a <? n).
Proof.
  apply eq_bool_prop_intro. rewrite !Is_true_true, existsb_exists, andb_true_iff, Z.leb_le, Z.ltb_lt. split.
  - intros (i&Hi&->%Z.eqb_eq). apply list_elem_of_In, elem_of_seqZ in Hi. lia.
  - intros Ha. exists a. split; [|by apply Z.eqb_refl]. apply list_elem_of_In, elem_of_seqZ. lia.
Qed.

(** The loop body of [clear_rows] for the line at [row]. *)
Definition clear_line (row color : Z) (s : cuterm_state_t) : result cuterm_state_t :=
  if bpp fb =? 32 then
    for_range (width fb) (λ x s,
      _ ← safe "MEMORY" "memcpy dest is out of range" (u64 (address fb + (row + x * 4))) 4;
      store_bytes (row + x * 4) color 4 s) s
  else if bpp fb =? 24 then for_range (width fb) (λ x s, store_bytes (row + x * 3) color 3 s) s
  else mret s.

Lemma clear_line_ok y c s : fb_info s = fb → 0 <= y < height fb →
  ∃ v, clear_line (y * pitch fb) (packed c) s = Ok (with_vram s v) ∧
    painted (vram s) (λ _ y', y' =? y) (λ _ _, c) v.
Proof.
  intros E Hy. pose proof (fo_width _ Hfb) as Hw. pose proof (fo_placed _ Hfb) as [Hpl Ha64].
  assert (∀ x s' v', 0 <= x < width fb → s' = with_vram s v' →
    (∃ v, store_bytes (y * pitch fb + x * bytes_pp fb) (packed c) (bytes_pp fb) s' = Ok (with_vram s v) ∧
      painted v' (λ x' y', (x' =? x) && (y' =? y)) (λ _ _, c) v) ∧
    range_is_safe (u64 (address fb + (y * pitch fb + x * bytes_pp fb))) (bytes_pp fb) = true) as Hpix.
  { intros x s' v' Hx ->. assert (on_screen x y) as Hxy by done. pose proof (offset_bounds x y Hxy) as [H0 H1]. fold (offset x y).
    assert (0 <= bytes_pp fb) by (destruct bytes_pp_cases as [[_ ->]|(_&_&->)]; lia).
    split; [|apply (placed_safe _ _ _ _ Hpl); done].
    destruct (store_bytes_ok (offset x y) c (bytes_pp fb) (with_vram s v') E) as (v&Ev&Hv); [done..|].
    exists v. split; [done|]. by apply (store_paints (with_vram s v')). }
  assert (∀ f, (∀ x s' v', 0 <= x < width fb → s' = with_vram s v' →
      ∃ v, f x s' = Ok (with_vram s v) ∧ painted v' (λ x' y', (x' =? x) && (y' =? y)) (λ _ _, c) v) →
    ∃ v, for_range (width fb) f s = Ok (with_vram s v) ∧ painted (vram s) (λ _ y', y' =? y) (λ _ _, c) v) as Hloop.
  { intros f Hf. destruct (for_range_paints (width fb) f s (λ i x' y', (x' =? i) && (y' =? y)) (λ _ _, c)) as (v&Ev&Hv); [lia|done|].
    exists v. split; [done|]. eapply painted_ext; [exact Hv|]. intros x' y' [Hx' _]. split; [|done].
    destruct (y' =? y); symmetry.
    - apply existsb_exists. exists x'. rewrite Z.eqb_refl. split; [|done]. apply list_elem_of_In, elem_of_seqZ. lia.
    - apply not_true_is_false. intros (i&_&Hi)%existsb_exists. by rewrite andb_false_r in Hi. }
  unfold clear_line. destruct bytes_pp_cases as [[-> En]|(->&->&En)]; rewrite En in Hpix; apply Hloop; intros x s' v' Hx Hs';
    destruct (Hpix x s' v' Hx Hs') as [(v&Ev&Hv) Hsafe].
  - exists v. unfold safe. rewrite Hsafe. by split.
  - by exists v.
Qed.

(** Rows [y0, y0 + h) of the background color. *)
Lemma clear_rows_ok y0 h s : fb_info s = fb → 0 <= y0 → 0 < h → y0 + h <= height fb →
  ∃ v, clear_rows y0 h s = Ok (with_vram s v) ∧
    painted (vram s) (λ _ y, (y0 <=? y) && (y <? y0 + h)) (λ _ _, cur_bg s) v.
Proof.
  intros E Hy0 Hh Hb. unfold clear_rows. rewrite (proj2 (Z.leb_gt _ _)) by lia. rewrite (pack_ok _ _ E). cbn [mbind result_bind]. rewrite E.
  destruct (for_range_paints h (λ y s0, clear_line (y0 * pitch fb + y * pitch fb) (packed (cur_bg s)) s0) s
    (λ i _ y, y =? y0 + i) (λ _ _, cur_bg s)) as (v&Ev&Hv); [lia| |].
  - intros i s' v Hi ->. rewrite <- Z.mul_add_distr_r. apply (clear_line_ok (y0 + i) (cur_bg s) (with_vram s v)); [done|lia].
  - exists v. split; [exact Ev|]. eapply painted_ext; [exact Hv|]. intros x y _. split; [|done].
    transitivity (existsb (λ i, y - y0 =? i) (seqZ 0 h)).
    + rewrite existsb_seqZ_eq. apply eq_bool_prop_intro. rewrite !Is_true_true, !andb_true_iff, !Z.leb_le, !Z.ltb_lt. lia.
    + apply existsb_same. intros i. apply eq_bool_prop_intro. rewrite !Is_true_true, !Z.eqb_eq. lia.
Qed.

(** * Scrolling *)

(** Every line moves up by the height of a character; the last lines are
    cleared. *)
Lemma scroll_ok s : fb_info s = fb →
  ∃ v, cuterm_scroll s = Ok (with_vram s v) ∧
    ∀ x y i, on_screen x y → 0 <= i < bytes_pp fb → v (offset x y + i) =
      if y <? height fb - 16 then vram s (offset x (y + 16) + i) else color_byte (cur_bg s) i.
Proof.
  intros E. unfold cuterm_scroll. rewrite E. pose proof (fo_pitch _ Hfb) as Hp. pose proof (fo_height _ Hfb) as Hh.
  pose proof (fo_width _ Hfb) as Hw. pose proof (fo_placed _ Hfb) as [[Ha Hpl] Ha64]. unfold vram_size in Hpl, Ha64.
  assert (0 < bytes_pp fb) by (destruct bytes_pp_cases as [[_ ->]|(_&_&->)]; lia).
  assert (0 < pitch fb) as Hpp by nia. assert (pitch fb * 16 <= pitch fb * height fb < 2 ^ 52) as Hph by nia.
  unfold CUTERM_CHAR_HEIGHT. rewrite (u64_id (pitch fb * 16)), (u64_id (pitch fb * height fb)), u64_id by lia.
  set (n := pitch fb * height fb - pitch fb * 16).
  unfold move_down. rewrite E. cbn [nonnull]. unfold nonnull, NULL.
  assert (address fb + pitch fb * 16 < 2 ^ 64 ∧ 0 <= n) as (Hn1&Hn2) by (unfold n; lia).
  rewrite (proj2 (Z.eqb_neq (address fb) 0)), (u64_id (address fb + _)), (proj2 (Z.eqb_neq (address fb + _) 0)) by lia.
  cbn [mbind result_bind]. unfold safe.
  assert (placed (address fb) (vram_size fb)) as Hplaced by apply Hfb.
  assert (range_is_safe (address fb) n = true) as ->.
  { rewrite <- (u64_id (address fb)), <- (Z.add_0_r (address fb)) by lia. eapply placed_safe; [exact Hplaced|lia|done|]. unfold n, vram_size; lia. }
  assert (range_is_safe (address fb + pitch fb * 16) n = true) as ->.
  { rewrite <- (u64_id (address fb + _)) by lia. eapply placed_safe; [exact Hplaced|lia|done|]. unfold n, vram_size; lia. }
  cbn [mbind result_bind negb]. rewrite (proj2 (Z.leb_le _ _)) by (unfold n, vram_size; lia). cbn [mret result_ret mbind result_bind].
  set (v1 := λ a, if (0 <=? a) && (a <? n) then vram s (a + pitch fb * 16) else vram s a). assert (i32 (height fb) = height fb) as ->.
  { unfold i32, sint. rewrite Z.mod_small by lia. cbn [Z.sub]. rewrite (proj2 (Z.ltb_lt _ _)) by lia. done. }
  destruct (clear_rows_ok (height fb - 16) 16 (with_vram s v1) E) as (v&Ev&Hv); [lia|lia|lia|].
  exists v. split; [exact Ev|]. intros x y i Hxy Hi. rewrite (Hv x y i Hxy Hi). cbn [vram with_vram cur_bg].
  destruct Hxy as [Hx Hy]. destruct (Z.leb_spec (height fb - 16) y), (Z.ltb_spec y (height fb - 16 + 16)), (Z.ltb_spec y (height fb - 16));
    try lia; cbn [andb]; [done|].
  destruct (offset_bounds x y) as [Ho _]; [done|]. destruct (offset_bounds x (y + 16)) as [_ Ho']; [split; [done|lia]|].
  unfold v1, offset, vram_size, n in *.
  rewrite (proj2 (Z.leb_le _ _)), (proj2 (Z.ltb_lt _ _)) by lia. cbn [andb]. f_equal. lia.
Qed.

(** * Glyphs *)

(** The pixels of the cell at [(cx, cy)]. *)
Definition in_cell (cx cy x y : Z) : bool := (8 * cx <=? x) && (x <? 8 * cx + 8) && ((16 * cy <=? y) && (y <? 16 * cy + 16)).

Variable builtin_font : Z → Z.

(** The color of a pixel of character [c], by its place in the glyph. *)
Definition glyph_color (c : Z) (fg bg : rgb_t) (px py : Z) : rgb_t :=
  if Z.testbit (builtin_font (c * 16 + py)) (7 - px) then fg else bg.

Lemma cell_on_screen cx cy px py : 0 <= cx < cols fb → 0 <= cy < rows fb → 0 <= px < 8 → 0 <= py < 16 →
  on_screen (8 * cx + px) (16 * cy + py).
Proof.
  unfold cols, rows, CUTERM_CHAR_WIDTH, CUTERM_CHAR_HEIGHT, on_screen. intros Hx Hy ??.
  pose proof (Z.mul_div_le (width fb) 8 ltac:(lia)). pose proof (Z.mul_div_le (height fb) 16 ltac:(lia)). lia.
Qed.

Lemma draw_char_ok c s : fb_info s = fb → 0 <= cursor_x s < cols fb → 0 <= cursor_y s < rows fb →
  let cx := cursor_x s in let cy := cursor_y s in
  ∃ v, draw_char builtin_font c s = Ok (with_vram s v) ∧
    painted (vram s) (in_cell cx cy) (λ x y, glyph_color c (cur_fg s) (cur_bg s) (x - 8 * cx) (y - 16 * cy)) v.
Proof.
  intros E Hx Hy cx cy. unfold draw_char. fold cx cy. unfold CUTERM_CHAR_HEIGHT, CUTERM_CHAR_WIDTH.
  set (col := λ x y, glyph_color c (cur_fg s) (cur_bg s) (x - 8 * cx) (y - 16 * cy)).
  destruct (for_range_paints 16 (λ y s0, for_range 8 (λ x s0,
      set_pixel (cx * 8 + x) (cy * 16 + y) (if Z.testbit (builtin_font (c * 16 + y)) (7 - x) then cur_fg s0 else cur_bg s0) s0) s0) s
    (λ j x y, (8 * cx <=? x) && (x <? 8 * cx + 8) && (y =? 16 * cy + j)) col) as (v&Ev&Hv); [lia| |].
  - intros j s' w Hj ->.
    destruct (for_range_paints 8 (λ x s0,
        set_pixel (cx * 8 + x) (cy * 16 + j) (if Z.testbit (builtin_font (c * 16 + j)) (7 - x) then cur_fg s0 else cur_bg s0) s0) (with_vram s w)
      (λ i x y, (x =? 8 * cx + i) && (y =? 16 * cy + j)) col) as (v&Ev&Hv); [lia| |].
    + intros i s' w' Hi ->. cbn [cur_fg cur_bg with_vram].
      replace (cx * 8 + i) with (8 * cx + i) by lia. replace (cy * 16 + j) with (16 * cy + j) by lia.
      destruct (set_pixel_ok (8 * cx + i) (16 * cy + j) (glyph_color c (cur_fg s) (cur_bg s) i j) (with_vram s w') E) as (v&Ev&Hv);
        [by apply cell_on_screen|].
      exists v. split; [exact Ev|]. eapply painted_ext; [exact Hv|]. intros x y _. split; [done|].
      intros [->%Z.eqb_eq ->%Z.eqb_eq]%andb_true_iff. unfold col. f_equal; lia.
    + exists v. split; [exact Ev|]. eapply painted_ext; [exact Hv|]. intros x y _. split; [|done].
      transitivity (existsb (λ i, (x - 8 * cx =? i) && (y =? 16 * cy + j)) (seqZ 0 8)).
      * transitivity (existsb (λ i, x - 8 * cx =? i) (seqZ 0 8) && (y =? 16 * cy + j)).
        -- rewrite existsb_seqZ_eq. f_equal. apply eq_bool_prop_intro. rewrite !Is_true_true, !andb_true_iff, !Z.leb_le, !Z.ltb_lt. lia.
        -- generalize (seqZ 0 8). intros l. induction l as [|i l IH]; [done|]. simpl. by rewrite andb_orb_distrib_l, IH.
      * apply existsb_same. intros i. f_equal. apply eq_bool_prop_intro. rewrite !Is_true_true, !Z.eqb_eq. lia.
  - exists v. split; [exact Ev|]. eapply painted_ext; [exact Hv|]. intros x y _. split; [|done]. unfold in_cell.
    transitivity (((8 * cx <=? x) && (x <? 8 * cx + 8)) && existsb (λ j, y - 16 * cy =? j) (seqZ 0 16)).
    + rewrite existsb_seqZ_eq. f_equal. apply eq_bool_prop_intro. rewrite !Is_true_true, !andb_true_iff, !Z.leb_le, !Z.ltb_lt. lia.
    + generalize (seqZ 0 16). intros l. induction l as [|j l IH]; [by rewrite andb_false_r|]. simpl. rewrite andb_orb_distrib_r, IH. f_equal.
      f_equal. apply eq_bool_prop_intro. rewrite !Is_true_true, !Z.eqb_eq. lia.
Qed.

(** * The screen *)

(** What a cell shows: a character, or nothing since it was scrolled in, but for
    its [top] lines, which are not specified. *)
Inductive cell := Glyph (c : Z) (fg bg : rgb_t) | Blank (bg : rgb_t) (top : Z).

Definition cell_color (l : cell) (px py : Z) : option rgb_t :=
  match l with Glyph c fg bg => Some (glyph_color c fg bg px py) | Blank bg top => if py <? top then None else Some bg end.

(** [None]: a cell never written. *)
Definition screen : Type := Z → Z → option cell.

(** The framebuffer renders the screen. *)
Definition shows (v : Z → Z) (scr : screen) : Prop := ∀ cx cy l px py i color,
  0 <= cx < cols fb → 0 <= cy < rows fb → scr cx cy = Some l → 0 <= px < 8 → 0 <= py < 16 → 0 <= i < bytes_pp fb →
  cell_color l px py = Some color → v (offset (8 * cx + px) (16 * cy + py) + i) = color_byte color i.

Definition put_cell (scr : screen) (x y : Z) (l : cell) : screen :=
  λ cx cy, if (cx =? x) && (cy =? y) then Some l else scr cx cy.

(** Every line moves up.  The last one is blank, but when the height is no
    multiple of 16 what was below the last line comes into its top. *)
Definition scroll_screen (scr : screen) (bg : rgb_t) : screen :=
  λ cx cy, if cy =? rows fb - 1 then Some (Blank bg (height fb mod 16)) else scr cx (cy + 1).

Lemma shows_draw v v' scr cx cy c fg bg : shows v scr → 0 <= cx < cols fb → 0 <= cy < rows fb →
  painted v (in_cell cx cy) (λ x y, glyph_color c fg bg (x - 8 * cx) (y - 16 * cy)) v' →
  shows v' (put_cell scr cx cy (Glyph c fg bg)).
Proof.
  intros Hs Hcx Hcy Hv x y l px py i color Hx Hy Hl Hpx Hpy Hi Hcol.
  rewrite Hv by (done || by apply cell_on_screen). unfold put_cell in Hl. unfold in_cell.
  destruct (Z.eqb_spec x cx) as [->|Hxne]; [destruct (Z.eqb_spec y cy) as [->|Hyne]|]; cbn [andb] in Hl.
  - injection Hl as <-. injection Hcol as <-. rewrite !(proj2 (Z.leb_le _ _)), !(proj2 (Z.ltb_lt _ _)) by lia. cbn [andb]. do 2 f_equal; lia.
  - rewrite (Hs cx y l px py i color) by done.
    destruct (Z.leb_spec (16 * cy) (16 * y + py)), (Z.ltb_spec (16 * y + py) (16 * cy + 16)); rewrite ?andb_false_r; try done; lia.
  - rewrite (Hs x y l px py i color) by done.
    destruct (Z.leb_spec (8 * cx) (8 * x + px)), (Z.ltb_spec (8 * x + px) (8 * cx + 8)); rewrite ?andb_false_r; try done; lia.
Qed.

Lemma shows_scroll v v' scr bg : shows v scr →
  (∀ x y i, on_screen x y → 0 <= i < bytes_pp fb → v' (offset x y + i) =
     if y <? height fb - 16 then v (offset x (y + 16) + i) else color_byte bg i) →
  shows v' (scroll_screen scr bg).
Proof.
  intros Hs Hv x y l px py i color Hx Hy Hl Hpx Hpy Hi Hcol. rewrite Hv by (done || by apply cell_on_screen).
  unfold scroll_screen in Hl. assert (height fb = 16 * rows fb + height fb mod 16) as Hh
    by (unfold rows, CUTERM_CHAR_HEIGHT; by rewrite <- Z.div_mod by lia).
  pose proof (Z.mod_pos_bound (height fb) 16 ltac:(lia)). destruct (Z.eqb_spec y (rows fb - 1)) as [->|Hne].
  - injection Hl as <-. cbn [cell_color] in Hcol. destruct (Z.ltb_spec py (height fb mod 16)); [done|]. injection Hcol as <-.
    rewrite (proj2 (Z.ltb_ge _ _)) by lia. done.
  - rewrite (proj2 (Z.ltb_lt _ _)) by lia. replace (16 * y + py + 16) with (16 * (y + 1) + py) by lia.
    apply (Hs x (y + 1) l); [done|lia|done..].
Qed.
End Pixels.

(** * Escape sequences *)

(** The 256 color palette: 16 named colors, a 6x6x6 cube and 24 greys. *)
Definition palette (n : Z) : rgb_t :=
  if n <? 16 then default (mkRgb 0 0 0) (ansi_basic_colors !! Z.to_nat n)
  else if n <? 232 then
    let level k := default 0 (ansi_cube_levels !! Z.to_nat k) in
    mkRgb (level ((n - 16) / 36)) (level ((n - 16) / 6 mod 6)) (level ((n - 16) mod 6))
  else let v := 8 + (n - 232) * 10 in mkRgb v v v.

(** What one or three parameters of a color sequence ask for. *)
Inductive sgr := Reset | Fg (c : rgb_t) | Bg (c : rgb_t) | Ignored.

Definition sgr_single (p : Z) : sgr :=
  if p =? 0 then Reset
  else if between 30 37 p then Fg (palette (p - 30))
  else if p =? 39 then Fg (mkRgb 255 255 255)
  else if between 40 47 p then Bg (palette (p - 40))
  else if p =? 49 then Bg (mkRgb 0 0 0)
  else if between 90 97 p then Fg (palette (p - 82))
  else if between 100 107 p then Bg (palette (p - 92))
  else Ignored.

Fixpoint parse_sgr (ps : list Z) : list sgr :=
  match ps with
  | [] => []
  | p :: ps1 =>
      match ps1 with
      | m :: n :: ps2 =>
          if ((p =? 38) || (p =? 48)) && (m =? 5)
          then (if p =? 38 then Fg (palette (n mod 256)) else Bg (palette (n mod 256))) :: parse_sgr ps2
          else sgr_single p :: parse_sgr ps1
      | _ => sgr_single p :: parse_sgr ps1
      end
  end.

Definition sgr_step (fb : rgb_t * rgb_t) (x : sgr) : rgb_t * rgb_t :=
  match x with
  | Reset => (mkRgb 200 200 200, mkRgb 0 0 0)
  | Fg c => (c, fb.2)
  | Bg c => (fb.1, c)
  | Ignored => fb
  end.

Definition sgr_colors (ps : list Z) (fb : rgb_t * rgb_t) : rgb_t * rgb_t := foldl sgr_step fb (parse_sgr ps).

Lemma forall_below n (P : Z → bool) : forallb P (seqZ 0 n) = true → ∀ i, 0 <= i < n → P i = true.
Proof. intros H i Hi. rewrite forallb_forall in H. apply H, list_elem_of_In, elem_of_seqZ. lia. Qed.

#[export] Instance rgb_eq : EqDecision rgb_t.
Proof. solve_decision. Defined.

Definition rgb_okb (c : rgb_t) : bool :=
  (0 <=? r c) && (r c <? 256) && ((0 <=? g c) && (g c <? 256)) && ((0 <=? b c) && (b c <? 256)).
Lemma rgb_okb_ok c : rgb_okb c = true → rgb_ok c.
Proof. unfold rgb_okb, rgb_ok. rewrite !andb_true_iff, !Z.leb_le, !Z.ltb_lt. change (2 ^ 8) with 256. lia. Qed.

(** The palette, and the code's table lookups, are right for every index. *)
Definition result_is (m : result rgb_t) (c : rgb_t) : bool := match m with Ok d => bool_decide (d = c) | _ => false end.
Lemma result_is_ok m c : result_is m c = true → m = Ok c.
Proof. destruct m; simpl; [|done..]. by intros ->%bool_decide_eq_true_1. Qed.

Lemma palette_ok n : 0 <= n < 256 → ansi_256_to_rgb n = Ok (palette n) ∧ rgb_ok (palette n).
Proof.
  intros Hn. pose proof (forall_below 256 (λ n, result_is (ansi_256_to_rgb n) (palette n) && rgb_okb (palette n)) ltac:(vm_compute; reflexivity) n Hn) as H.
  apply andb_true_iff in H as [H1%result_is_ok H2%rgb_okb_ok]. done.
Qed.

Lemma color_at_ok n : 0 <= n < 16 → color_at n = Ok (palette n) ∧ rgb_ok (palette n).
Proof.
  intros Hn. destruct (palette_ok n) as [H1 H2]; [lia|]. split; [|done]. unfold ansi_256_to_rgb in H1.
  by rewrite (proj2 (Z.ltb_lt _ _)) in H1 by lia.
Qed.

(** The state with the colors [c]. *)
Definition colored (s : cuterm_state_t) (c : rgb_t * rgb_t) : cuterm_state_t := with_colors s c.1 c.2.

Lemma sgr_single_ok p ps s : 0 <= p →
  (p = 38 ∨ p = 48 → match ps with m :: _ :: _ => m ≠ 5 | _ => True end) →
  sgr_loop (p :: ps) s = sgr_loop ps (colored s (sgr_step (cur_fg s, cur_bg s) (sgr_single p))).
Proof.
  intros Hp Hext. assert (colored s (cur_fg s, cur_bg s) = s) as Hsame by (by destruct s).
  assert (∀ e, match ps with m :: n :: ps2 => if m =? 5 then e n ps2 else sgr_loop ps s | _ => sgr_loop ps s end = sgr_loop ps s ∨
    ¬ (p = 38 ∨ p = 48)) as Hskip.
  { intros e. destruct (decide (p = 38 ∨ p = 48)) as [Hp'|]; [left|by right]. specialize (Hext Hp').
    destruct ps as [|m [|n ps2]]; [done|done|]. by rewrite (proj2 (Z.eqb_neq m 5)). }
  cbn [sgr_loop]. unfold sgr_single, between.
  assert (p = 0 ∨ 30 <= p <= 37 ∨ p = 38 ∨ p = 39 ∨ 40 <= p <= 47 ∨ p = 48 ∨ p = 49 ∨ 90 <= p <= 97 ∨ 100 <= p <= 107 ∨
    (p ≠ 0 ∧ (p < 30 ∨ 49 < p) ∧ (p < 90 ∨ 97 < p) ∧ (p < 100 ∨ 107 < p))) as Hcases by lia.
  destruct Hcases as [H|[H|[H|[H|[H|[H|[H|[H|[H|(?&?&?&?)]]]]]]]]]; settle_z; cbn [andb sgr_step]; rewrite ?Hsame; try done.
  - by rewrite (proj1 (color_at_ok (p - 30) ltac:(lia))).
  - by destruct (Hskip (λ n ps2, c ← ansi_256_to_rgb (u8 n); sgr_loop ps2 (with_colors s c (cur_bg s)))) as [|[]]; [|left].
  - by rewrite (proj1 (color_at_ok (p - 40) ltac:(lia))).
  - by destruct (Hskip (λ n ps2, c ← ansi_256_to_rgb (u8 n); sgr_loop ps2 (with_colors s (cur_fg s) c))) as [|[]]; [|right].
  - rewrite (proj1 (color_at_ok (p - 90 + 8) ltac:(lia))). cbn [mbind result_bind]. by replace (p - 90 + 8) with (p - 82) by lia.
  - rewrite (proj1 (color_at_ok (p - 100 + 8) ltac:(lia))). cbn [mbind result_bind]. by replace (p - 100 + 8) with (p - 92) by lia.
  - repeat match goal with |- context [(?x <=? p) && (p <=? ?y)] => destruct ((x <=? p) && (p <=? y)) eqn:?; [zify_bools; lia|] end. cbn [sgr_step]. by rewrite Hsame.
Qed.

Lemma sgr_loop_ok k ps s : (length ps <= k)%nat → Forall (λ p, 0 <= p) ps →
  sgr_loop ps s = Ok (colored s (sgr_colors ps (cur_fg s, cur_bg s))).
Proof.
  revert ps s. induction k as [|k IH]; intros ps s Hk Hps; (destruct ps as [|p ps1]; [by destruct s|]); [simpl in Hk; lia|].
  apply Forall_cons in Hps as [Hp Hps]. cbn [length] in Hk.
  assert (∀ x ps', (length ps' <= k)%nat → Forall (λ p, 0 <= p) ps' → parse_sgr (p :: ps1) = x :: parse_sgr ps' →
    sgr_loop (p :: ps1) s = sgr_loop ps' (colored s (sgr_step (cur_fg s, cur_bg s) x)) →
    sgr_loop (p :: ps1) s = Ok (colored s (sgr_colors (p :: ps1) (cur_fg s, cur_bg s)))) as Hstep.
  { intros x ps' Hl Hf Hpar ->. rewrite IH by done. unfold sgr_colors. rewrite Hpar. cbn [foldl cur_fg cur_bg colored with_colors].
    by destruct (sgr_step (cur_fg s, cur_bg s) x). }
  assert (((p = 38 ∨ p = 48) ∧ ∃ n ps2, ps1 = 5 :: n :: ps2) ∨ ¬ ((p = 38 ∨ p = 48) ∧ ∃ n ps2, ps1 = 5 :: n :: ps2)) as [[Hext (n&ps2&->)]|Hno].
  { destruct (decide (p = 38 ∨ p = 48)); [|right; tauto]. destruct ps1 as [|m [|n ps2]]; [right; by intros (_&?&?&?)..|].
    destruct (decide (m = 5)) as [->|Hm]; [left; eauto|right; intros (_&?&?&E); by injection E]. }
  - apply Forall_cons in Hps as [_ Hps]. apply Forall_cons in Hps as [Hn Hps]. cbn [length] in Hk.
    pose proof (proj1 (palette_ok (n mod 256) ltac:(apply Z.mod_pos_bound; lia))) as Hpal. change (n mod 256) with (u8 n) in Hpal.
    destruct Hext as [-> | ->].
    + apply (Hstep (Fg (palette (n mod 256))) ps2); [lia|done|done|]. cbn -[ansi_256_to_rgb]. by rewrite Hpal.
    + apply (Hstep (Bg (palette (n mod 256))) ps2); [lia|done|done|]. cbn -[ansi_256_to_rgb]. by rewrite Hpal.
  - apply (Hstep (sgr_single p) ps1); [lia|done| |].
    + cbn [parse_sgr]. destruct ps1 as [|m [|n ps2]]; [done|done|]. destruct (((p =? 38) || (p =? 48)) && (m =? 5)) eqn:E; [|done].
      exfalso. apply andb_true_iff in E as [E%orb_true_iff ->%Z.eqb_eq]. rewrite !Z.eqb_eq in E. apply Hno. eauto.
    + apply sgr_single_ok; [done|]. intros Hp'. destruct ps1 as [|m [|n ps2]]; [done|done|]. intros ->. apply Hno. eauto.
Qed.

Lemma sgr_colors_ok ps c : rgb_ok c.1 ∧ rgb_ok c.2 → rgb_ok (sgr_colors ps c).1 ∧ rgb_ok (sgr_colors ps c).2.
Proof.
  unfold sgr_colors. assert (∀ xs c, Forall (λ x, match x with Fg c | Bg c => rgb_ok c | _ => True end) xs →
    rgb_ok c.1 ∧ rgb_ok c.2 → rgb_ok (foldl sgr_step c xs).1 ∧ rgb_ok (foldl sgr_step c xs).2) as Haux.
  { induction xs as [|x xs IH]; intros d Hx Hd; [done|]. apply Forall_cons in Hx as [Hx Hxs]. cbn [foldl]. apply IH; [done|].
    destruct x; simpl; try tauto. split; by apply rgb_okb_ok. }
  intros Hc. apply Haux; [|done]. assert (∀ k ps, (length ps <= k)%nat → Forall (λ x, match x with Fg c | Bg c => rgb_ok c | _ => True end) (parse_sgr ps)) as Hp.
  2: by apply (Hp (length ps)).
  assert (∀ p, match sgr_single p with Fg c | Bg c => rgb_ok c | _ => True end) as Hsingle.
  { intros p. unfold sgr_single, between.
    assert (∀ k, 0 <= k < 16 → rgb_ok (palette k)) as Hpal by (intros; by apply color_at_ok).
    repeat case_match; simplify_eq; try done; zify_bools; first [apply Hpal; lia|by apply rgb_okb_ok]. }
  assert (∀ n, rgb_ok (palette (n mod 256))) as Hpal by (intros n; apply palette_ok, Z.mod_pos_bound; lia).
  induction k as [|k IH]; intros qs Hk; (destruct qs as [|p qs]; [constructor|]); [simpl in Hk; lia|]. cbn [length] in Hk.
  cbn [parse_sgr]. destruct qs as [|m [|n qs2]].
  - apply Forall_cons. split; [apply Hsingle|constructor].
  - apply Forall_cons. split; [apply Hsingle|]. apply (IH [m]). simpl in *. lia.
  - destruct (_ && _); apply Forall_cons.
    + split; [by destruct (p =? 38)|]. apply IH. simpl in *. lia.
    + split; [apply Hsingle|]. apply (IH (m :: n :: qs2)). simpl in *. lia.
Qed.

(** * Characters *)

(** The number a sequence is spelling stays an [int]. *)
Definition no_overflow (c : Z) (s : cuterm_state_t) : Prop :=
  ansi_state s = ANSI_STATE_CSI → is_digit c = true → ansi_cur_param s * 10 + (c - 48) < 2 ^ 31.

(** Two states that differ in the escape sequence and the colors only. *)
Definition same_picture (s s' : cuterm_state_t) : Prop :=
  fb_info s' = fb_info s ∧ vram s' = vram s ∧ cursor_x s' = cursor_x s ∧ cursor_y s' = cursor_y s.

Definition is_text (c : Z) (s : cuterm_state_t) : bool :=
  match ansi_state s with ANSI_STATE_NORMAL => negb (c =? 0x1b) | _ => false end.

Lemma push_ok s : term_ok s → term_ok (ansi_push_param s) ∧ same_picture s (ansi_push_param s) ∧
  cur_fg (ansi_push_param s) = cur_fg s ∧ cur_bg (ansi_push_param s) = cur_bg s.
Proof.
  intros [? ? ? Hn Hps Hp ? ?]. split; [|done]. split; try done; cbn [ansi_push_param with_params ansi_params ansi_cur_param].
  - unfold ANSI_MAX_PARAMS in *. case_z; [rewrite length_app; simpl; lia|lia].
  - case_z; [|done]. apply Forall_app. split; [done|]. apply Forall_singleton. destruct (ansi_has_digit s); lia.
Qed.

Lemma apply_sgr_ok s : term_ok s → ∃ f k, ansi_apply_sgr s = Ok (with_colors s f k) ∧ rgb_ok f ∧ rgb_ok k.
Proof.
  intros H. unfold ansi_apply_sgr. destruct (ansi_params s) as [|p ps] eqn:E.
  - eexists _, _. split; [done|]. by split; apply rgb_okb_ok.
  - exists (sgr_colors (p :: ps) (cur_fg s, cur_bg s)).1, (sgr_colors (p :: ps) (cur_fg s, cur_bg s)).2.
    split; [|apply sgr_colors_ok; split; apply H]. eapply sgr_loop_ok; [done|]. rewrite <- E.
    eapply Forall_impl; [apply H|]. simpl. lia.
Qed.

Lemma colors_ok s f k : term_ok s → rgb_ok f → rgb_ok k → term_ok (with_colors s f k).
Proof. intros []. by split. Qed.

Lemma feed_ok c s : term_ok s → 0 <= c < 256 → no_overflow c s →
  ∃ s', ansi_feed c s = Ok (negb (is_text c s), s') ∧ term_ok s' ∧ same_picture s s' ∧ (is_text c s = true → s' = s).
Proof.
  intros H Hc Hno. unfold ansi_feed, is_text, no_overflow in *. destruct (ansi_state s) eqn:Es.
  - destruct (Z.eqb_spec c 0x1b); cbn [negb]; [|by exists s].
    eexists. split; [done|]. split; [destruct H; by split|by split].
  - eexists. split; [done|]. destruct (Z.eqb_spec c 91); (split; [|by split]).
    + destruct H. split; try done; constructor.
    + destruct H. by split.
  - destruct (is_digit c) eqn:Ed.
    + specialize (Hno eq_refl eq_refl). rewrite (proj2 (Z.ltb_lt _ _)) by done. eexists. split; [done|].
      unfold is_digit in Ed. zify_bools. split; [|by split]. destruct H. split; try done. simpl. lia.
    + destruct (push_ok s H) as (H1&Hp1&_). destruct (c =? 59); [by eexists|].
      destruct (c =? 109); cbn [mbind result_bind mret result_ret].
      * destruct (apply_sgr_ok _ H1) as (f&k&->&Hf&Hk). cbn [mbind result_bind]. eexists. split; [done|].
        split; [|by split]. destruct (colors_ok _ f k H1 Hf Hk). by split.
      * eexists. split; [done|]. split; [|by split]. destruct H1. by split.
Qed.

(** A line break, at the bottom with a scroll. *)
Definition at_bottom (s : cuterm_state_t) : bool := cursor_y s + 1 >=? rows (fb_info s).

Definition down (s : cuterm_state_t) : Z := if at_bottom s then rows (fb_info s) - 1 else cursor_y s + 1.

Definition feed_line (s : cuterm_state_t) (scr : screen) : screen :=
  if at_bottom s then scroll_screen (fb_info s) scr (cur_bg s) else scr.

Section Put.
Variable builtin_font : Z → Z.

Lemma rows_i32 fb : fb_ok fb → i32 (height fb / CUTERM_CHAR_HEIGHT) = rows fb ∧ 0 < rows fb.
Proof.
  intros H. pose proof (fo_height _ H) as Hh. unfold rows, CUTERM_CHAR_HEIGHT.
  pose proof (Z.div_mod (height fb) 16 ltac:(lia)). pose proof (Z.mod_pos_bound (height fb) 16 ltac:(lia)).
  split; [|lia]. unfold i32, sint. rewrite Z.mod_small by lia. change (2 ^ (32 - 1)) with (2 ^ 31). by rewrite (proj2 (Z.ltb_lt _ _)) by lia.
Qed.

Lemma newline_ok s scr : fb_ok (fb_info s) → 0 <= cursor_y s < rows (fb_info s) →
  ∃ v, cuterm_newline s = Ok (with_cursor (with_vram s v) (cursor_x s) (down s)) ∧
    (shows (fb_info s) builtin_font (vram s) scr →
     shows (fb_info s) builtin_font v (feed_line s scr)).
Proof.
  intros H Hy. destruct (rows_i32 _ H) as [Hr Hr0]. unfold cuterm_newline. cbn [cursor_x cursor_y with_cursor fb_info]. rewrite Hr.
  unfold down, feed_line, at_bottom. destruct (cursor_y s + 1 >=? rows (fb_info s)).
  - destruct (scroll_ok (fb_info s) H (with_cursor s (cursor_x s) (cursor_y s + 1)) eq_refl) as (v&->&Hv).
    cbn [mbind result_bind mret result_ret]. exists v. split; [done|]. intros Hs. by apply (shows_scroll (fb_info s) builtin_font (vram s)).
  - exists (vram s). split; [by destruct s|done].
Qed.

(** Where the cursor goes, and what the screen then shows. *)
Definition wraps (s : cuterm_state_t) : bool := cursor_x s + 1 >=? cols (fb_info s).

Definition next_cursor (c : Z) (s : cuterm_state_t) : Z * Z :=
  if negb (is_text c s) then (cursor_x s, cursor_y s)
  else if c =? 10 then (0, down s)
  else if wraps s then (0, down s) else (cursor_x s + 1, cursor_y s).

Definition next_screen (c : Z) (s : cuterm_state_t) (scr : screen) : screen :=
  if negb (is_text c s) then scr
  else if c =? 10 then feed_line s scr
  else
    let scr := put_cell scr (cursor_x s) (cursor_y s) (Glyph c (cur_fg s) (cur_bg s)) in
    if wraps s then feed_line s scr else scr.

Lemma cursor_ok s v x y : term_ok s → 0 <= x < cols (fb_info s) → 0 <= y < rows (fb_info s) →
  term_ok (with_cursor (with_vram s v) x y).
Proof. intros []. by split. Qed.

Lemma down_ok s : term_ok s → 0 <= down s < rows (fb_info s).
Proof.
  intros H. pose proof (to_y _ H). unfold down, at_bottom. rewrite Z.geb_leb. case_z; lia.
Qed.

Lemma putc_ok c s scr : term_ok s → 0 <= c < 256 → no_overflow c s →
  ∃ s', cuterm_putc builtin_font c s = Ok s' ∧ term_ok s' ∧ fb_info s' = fb_info s ∧
    (cursor_x s', cursor_y s') = next_cursor c s ∧
    (if is_text c s then ansi_state s' = ANSI_STATE_NORMAL else ansi_feed c s = Ok (true, s')) ∧
    (shows (fb_info s) builtin_font (vram s) scr →
     shows (fb_info s) builtin_font (vram s') (next_screen c s scr)).
Proof.
  intros H Hc Hno. destruct (feed_ok c s H Hc Hno) as (s1&E1&H1&(Hf&Hv&Hx&Hy)&Hs1). unfold cuterm_putc. rewrite E1.
  cbn [mbind result_bind]. unfold next_cursor, next_screen. destruct (is_text c s) eqn:Et; cbn [negb].
  2: { exists s1. split; [done|]. split; [done|]. rewrite Hf, Hv, Hx, Hy. done. }
  assert (ansi_state s = ANSI_STATE_NORMAL) as Hn by (unfold is_text in Et; by destruct (ansi_state s)).
  rewrite (Hs1 eq_refl). clear s1 E1 H1 Hf Hv Hx Hy Hs1. pose proof (to_fb _ H) as Hfb. pose proof (to_x _ H) as Hx. pose proof (to_y _ H) as Hy.
  assert (0 < cols (fb_info s)) as Hc0 by lia.
  destruct (Z.eqb_spec c 10) as [->|Hnl].
  - destruct (newline_ok (with_cursor s 0 (cursor_y s)) scr Hfb Hy) as (v&->&Hsh). eexists. split; [done|].
    split; [|split; [done|split; [done|split; [exact Hn|exact Hsh]]]]. by apply (cursor_ok s v 0 (down s)); [|lia|apply down_ok].
  - destruct (draw_char_ok (fb_info s) Hfb builtin_font c s eq_refl Hx Hy) as (v&->&Hpaint). cbn [mbind result_bind].
    cbn [cursor_x cursor_y with_cursor with_vram fb_info]. fold (cols (fb_info s)). fold (wraps s).
    set (scr1 := put_cell scr (cursor_x s) (cursor_y s) (Glyph c (cur_fg s) (cur_bg s))).
    assert (shows (fb_info s) builtin_font (vram s) scr → shows (fb_info s) builtin_font v scr1) as Hdraw.
    { intros Hs. by apply (shows_draw (fb_info s) builtin_font (vram s)). }
    destruct (wraps s) eqn:Ew.
    + destruct (newline_ok (with_cursor (with_vram s v) 0 (cursor_y s)) scr1 Hfb Hy) as (v'&E&Hsh).
      change (with_cursor (with_cursor (with_vram s v) (cursor_x s + 1) (cursor_y s)) 0 (cursor_y s)) with (with_cursor (with_vram s v) 0 (cursor_y s)).
      rewrite E. eexists. split; [done|].
      split; [by apply (cursor_ok s v' 0 (down s)); [|lia|apply down_ok]|]. split; [done|]. split; [done|]. split; [exact Hn|].
      intros Hs. apply Hsh. by apply Hdraw.
    + eexists. split; [done|]. unfold wraps in Ew. rewrite Z.geb_leb in Ew. apply Z.leb_gt in Ew.
      split; [apply (cursor_ok s v); [done|lia|done]|]. split; [done|]. split; [done|]. split; [exact Hn|]. exact Hdraw.
Qed.

(** * Color sequences *)

Definition number (ds : list Z) : Z := foldl (λ n d, n * 10 + (d - 48)) 0 ds.

(** A run of characters. *)
Lemma puts_app cs1 cs2 s s1 : cuterm_puts builtin_font cs1 s = Ok s1 →
  cuterm_puts builtin_font (cs1 ++ cs2) s = cuterm_puts builtin_font cs2 s1.
Proof. unfold cuterm_puts. intros E. by rewrite foldl_app, E. Qed.

Lemma puts_cons c cs s s1 : cuterm_putc builtin_font c s = Ok s1 →
  cuterm_puts builtin_font (c :: cs) s = cuterm_puts builtin_font cs s1.
Proof. intros E. unfold cuterm_puts. cbn [foldl mbind result_bind]. by rewrite E. Qed.

Lemma digits_ok s ds n0 d0 : ansi_state s = ANSI_STATE_CSI → Forall (λ d, is_digit d = true) ds → 0 <= n0 →
  foldl (λ n d, n * 10 + (d - 48)) n0 ds < 2 ^ 31 →
  cuterm_puts builtin_font ds (with_params s (ansi_params s) n0 d0) =
    Ok (with_params s (ansi_params s) (foldl (λ n d, n * 10 + (d - 48)) n0 ds) (match ds with [] => d0 | _ => true end)).
Proof.
  intros Es Hds. revert n0 d0. induction Hds as [|d ds Hd Hds IH]; intros n0 d0 Hn Hb; [done|]. cbn [foldl] in Hb.
  assert (n0 * 10 + (d - 48) < 2 ^ 31) as Hstep.
  { assert (0 <= n0 * 10 + (d - 48)) as Hge by (unfold is_digit in Hd; zify_bools; lia).
    revert Hb Hge. generalize (n0 * 10 + (d - 48)). clear - Hds. induction Hds as [|e ds He _ IH]; intros m; simpl; [done|].
    intros Hb Hm. unfold is_digit in He. zify_bools. specialize (IH _ Hb). lia. }
  rewrite (puts_cons d ds _ (with_params s (ansi_params s) (n0 * 10 + (d - 48)) true)).
  - rewrite IH; [by destruct ds| |done]. unfold is_digit in Hd. zify_bools. lia.
  - unfold cuterm_putc, ansi_feed. cbn [ansi_state with_params]. rewrite Es, Hd. cbn [ansi_cur_param with_params].
    by rewrite (proj2 (Z.ltb_lt _ _)).
Qed.

(** The numbers of a sequence, separated by semicolons. *)
Fixpoint spelled (dss : list (list Z)) : list Z :=
  match dss with [] => [] | [ds] => ds | ds :: dss => ds ++ 59 :: spelled dss end.

Definition spells (ds : list Z) : Prop := ds ≠ [] ∧ Forall (λ d, is_digit d = true) ds ∧ number ds < 2 ^ 31.

Lemma number_nonneg ds : Forall (λ d, is_digit d = true) ds → 0 <= number ds.
Proof.
  unfold number. intros H. assert (∀ n, 0 <= n → 0 <= foldl (λ n d, n * 10 + (d - 48)) n ds) as Ha; [|by apply Ha].
  induction H as [|d ds Hd H IH]; intros n Hn; simpl; [done|]. apply IH. unfold is_digit in Hd. zify_bools. lia.
Qed.

Lemma sequence_ok dss s : ansi_state s = ANSI_STATE_CSI → ansi_cur_param s = 0 → ansi_has_digit s = false →
  dss ≠ [] → Forall spells dss → Z.of_nat (length (ansi_params s) + length dss) <= ANSI_MAX_PARAMS →
  Forall (λ p, 0 <= p) (ansi_params s) →
  cuterm_puts builtin_font (spelled dss ++ [109]) s =
    Ok (colored (with_ansi (with_params s (ansi_params s ++ map number dss) 0 false) ANSI_STATE_NORMAL)
      (sgr_colors (ansi_params s ++ map number dss) (cur_fg s, cur_bg s))).
Proof.
  intros Es Ep Ed Hne Hall. revert s Es Ep Ed. induction Hall as [|ds dss (Hds0&Hds&Hlt) Hall IH]; [done|].
  intros s Es Ep Ed Hlen Hps. cbn [length] in Hlen.
  assert (s = with_params s (ansi_params s) 0 false) as Hs by (rewrite <- Ep, <- Ed; by destruct s).
  pose proof (digits_ok s ds 0 false Es Hds ltac:(lia) Hlt) as Edig. rewrite <- Hs in Edig. fold (number ds) in Edig.
  pose proof (number_nonneg ds Hds) as Hnum.
  assert ((match ds with [] => false | _ => true end) = true) as Hd by (by destruct ds). rewrite Hd in Edig.
  assert (ansi_push_param (with_params s (ansi_params s) (number ds) true) = with_params s (ansi_params s ++ [number ds]) 0 false) as Epush.
  { unfold ansi_push_param. cbn [ansi_params with_params ansi_has_digit ansi_cur_param]. by rewrite (proj2 (Z.ltb_lt _ _)) by lia. }
  destruct dss as [|ds2 dss].
  - cbn [spelled map]. rewrite (puts_app _ _ _ _ Edig).
    unfold cuterm_puts. cbn [foldl mbind result_bind]. unfold cuterm_putc, ansi_feed. cbn [ansi_state with_params]. rewrite Es.
    change (is_digit 109) with false. change (109 =? 59) with false. change (109 =? 109) with true. cbv iota zeta. rewrite Epush.
    unfold ansi_apply_sgr. cbn [ansi_params with_params]. destruct (ansi_params s ++ [number ds]) as [|p ps] eqn:Eps; [by destruct (ansi_params s)|].
    rewrite (sgr_loop_ok (length (p :: ps)) (p :: ps)); [|done|].
    + cbn [mbind result_bind mret result_ret cur_fg cur_bg with_params]. done.
    + rewrite <- Eps. apply Forall_app. split; [done|]. by apply Forall_singleton.
  - change (spelled (ds :: ds2 :: dss)) with (ds ++ 59 :: spelled (ds2 :: dss)). rewrite <- app_assoc, (puts_app _ _ _ _ Edig).
    cbn [app]. rewrite (puts_cons 59 _ _ (with_params s (ansi_params s ++ [number ds]) 0 false)).
    + cbn [map]. rewrite IH; try done.
      * cbn [ansi_params with_params cur_fg cur_bg map]. rewrite <- !app_assoc. by destruct s.
      * cbn [ansi_params with_params]. rewrite length_app. simpl in *. lia.
      * cbn [ansi_params with_params]. apply Forall_app. split; [done|]. by apply Forall_singleton.
    + unfold cuterm_putc, ansi_feed. cbn [ansi_state with_params]. rewrite Es. change (is_digit 59) with false. change (59 =? 59) with true.
      cbv iota zeta. by rewrite Epush.
Qed.

(** * Text without long numbers *)

Definition short_runs (cs : list Z) : Prop :=
  ∀ cs1 ds cs2, cs = cs1 ++ ds ++ cs2 → Forall (λ d, is_digit d = true) ds → (length ds <= 9)%nat.

Lemma number_bound ds : Forall (λ d, is_digit d = true) ds → number ds < 10 ^ Z.of_nat (length ds).
Proof.
  intros H. induction ds as [|d ds IH] using rev_ind; [done|]. apply Forall_app in H as [H Hd]. rewrite Forall_singleton in Hd.
  unfold number. rewrite foldl_snoc, length_app, Nat2Z.inj_add. fold (number ds). change (Z.of_nat (length [d])) with 1.
  rewrite Z.pow_add_r, Z.pow_1_r by lia. unfold is_digit in Hd. zify_bools. specialize (IH H). pose proof (number_nonneg ds H). lia.
Qed.

(** The number of the sequence is the run of digits just read. *)
Definition tracks (pre : list Z) (s : cuterm_state_t) : Prop :=
  ansi_state s = ANSI_STATE_CSI → ∃ a ds, pre = a ++ ds ∧ Forall (λ d, is_digit d = true) ds ∧ ansi_cur_param s = number ds.

Lemma tracks_step pre c s s' : tracks pre s → ansi_feed c s = Ok (true, s') → tracks (pre ++ [c]) s'.
Proof.
  intros Ht E Hs'. unfold ansi_feed in E. destruct (ansi_state s) eqn:Es.
  - destruct (c =? 0x1b); [|done]. injection E as <-. done.
  - injection E as <-. destruct (c =? 91); [|done]. exists (pre ++ [c]), []. rewrite app_nil_r. by split.
  - destruct (is_digit c) eqn:Ed.
    + destruct (_ <? 2 ^ 31); [|done]. injection E as <-. destruct (Ht Es) as (a&ds&->&Hds&Hp).
      exists a, (ds ++ [c]). split; [by rewrite app_assoc|]. split; [apply Forall_app; split; [done|by apply Forall_singleton]|].
      cbn [ansi_cur_param with_params]. unfold number in *. by rewrite foldl_snoc, Hp.
    + destruct (c =? 59).
      * injection E as <-. exists (pre ++ [c]), []. rewrite app_nil_r. by split.
      * apply bind_ok in E as (s2&_&E). injection E as <-. done.
Qed.

Lemma puts_ok cs pre s : term_ok s → tracks pre s → short_runs (pre ++ cs) → Forall (λ c, 0 <= c < 256) cs →
  ∃ s', cuterm_puts builtin_font cs s = Ok s' ∧ term_ok s' ∧ fb_info s' = fb_info s.
Proof.
  intros H Ht Hr Hcs. revert pre s H Ht Hr. induction Hcs as [|c cs Hc Hcs IH]; intros pre s H Ht Hr; [by exists s|].
  assert (no_overflow c s) as Hno.
  { intros Es Ed. destruct (Ht Es) as (a&ds&->&Hds&->).
    assert (length (ds ++ [c]) <= 9)%nat as Hl.
    { apply (Hr a (ds ++ [c]) cs); [by rewrite <- !app_assoc|]. apply Forall_app. split; [done|by apply Forall_singleton]. }
    rewrite length_app in Hl. simpl in Hl. pose proof (number_bound ds Hds) as Hn. pose proof (number_nonneg ds Hds).
    assert (10 ^ Z.of_nat (length ds) <= 10 ^ 8) by (apply Z.pow_le_mono_r; lia).
    unfold is_digit in Ed. zify_bools. change (10 ^ 8) with 100000000 in *. lia. }
  destruct (putc_ok c s (λ _ _, None) H Hc Hno) as (s1&E&H1&Hf&_&Hst&_). rewrite (puts_cons c cs s s1 E).
  destruct (IH (pre ++ [c]) s1 H1) as (s'&E'&H'&Hf').
  - destruct (is_text c s); [intros Es; congruence|]. by eapply tracks_step.
  - by rewrite <- app_assoc.
  - exists s'. split; [done|]. split; [done|congruence].
Qed.

(** C20: [cuterm_putc] refines a screen of character cells: from a well-formed
    terminal every character is taken without a store outside the framebuffer,
    moves the cursor as specified and leaves a framebuffer that renders the next
    screen pixel by pixel: one new cell in the current colors, and, at the end
    of the last line, every line one up above a blank one.  Of a height that is
    no multiple of 16 the top [height mod 16] lines of pixels of that blank line
    are excepted: they show what was below the last line. *)
Theorem cuterm_putc_renders c s scr : term_ok s → 0 <= c < 256 → no_overflow c s →
  ∃ s', cuterm_putc builtin_font c s = Ok s' ∧ term_ok s' ∧ fb_info s' = fb_info s ∧
    (cursor_x s', cursor_y s') = next_cursor c s ∧
    (if is_text c s then ansi_state s' = ANSI_STATE_NORMAL else ansi_feed c s = Ok (true, s')) ∧
    (shows (fb_info s) builtin_font (vram s) scr →
     shows (fb_info s) builtin_font (vram s') (next_screen c s scr)).
Proof. apply putc_ok. Qed.

(** C22: a text without ten digits in a row keeps the terminal well formed: the
    cursor on the screen, at most 16 parameters, every parameter an [int], every
    color channel a byte, whatever escape sequences the text has. *)
Theorem cuterm_text_well_formed cs s : term_ok s → ansi_state s = ANSI_STATE_NORMAL → Forall (λ c, 0 <= c < 256) cs →
  short_runs cs → ∃ s', cuterm_puts builtin_font cs s = Ok s' ∧ term_ok s' ∧ fb_info s' = fb_info s.
Proof. intros H Hn Hcs Hr. apply (puts_ok cs [] s H); [|done|done]. unfold tracks. by rewrite Hn. Qed.

(** C21: an escape sequence of up to 16 decimal numbers sets the colors that the
    numbers name, and nothing else: no pixel, no cursor, and the terminal is back
    in its normal state. *)
Theorem cuterm_sequence_correct dss s : ansi_state s = ANSI_STATE_NORMAL → dss ≠ [] → Forall spells dss →
  Z.of_nat (length dss) <= ANSI_MAX_PARAMS →
  cuterm_puts builtin_font (0x1b :: 91 :: spelled dss ++ [109]) s =
    Ok (colored (with_params s (map number dss) 0 false) (sgr_colors (map number dss) (cur_fg s, cur_bg s))).
Proof.
  intros Hn Hne Hall Hlen. rewrite (puts_cons _ _ _ (with_ansi s ANSI_STATE_ESC)).
  2: { unfold cuterm_putc, ansi_feed. by rewrite Hn. }
  rewrite (puts_cons _ _ _ (with_params (with_ansi (with_ansi s ANSI_STATE_ESC) ANSI_STATE_CSI) [] 0 false)) by done.
  rewrite sequence_ok; try done. f_equal. destruct s. simpl in *. by subst.
Qed.
End Put.

(** * Concrete terminals *)

(** Two by two characters of 32 bits per pixel. *)
Definition demo_fb : linear_framebuffer_t := mkFb 0xffff8000fd000000 16 32 64 32 8 16 8 8 8 0.
Definition demo_font (a : Z) : Z := (a * 37) mod 256.
Definition demo_term : cuterm_state_t := g_cuterm_state demo_fb (λ _, 0).

Lemma demo_fb_ok : fb_ok demo_fb.
Proof.
  split; unfold demo_fb, bytes_pp, placed, vram_size; simpl; try lia; [change (32 / 8) with 4; lia|]. repeat constructor; simpl; lia.
Qed.

Lemma demo_term_ok : term_ok demo_term.
Proof.
  split; [apply demo_fb_ok|by vm_compute|by vm_compute|by vm_compute|constructor|by vm_compute|by apply rgb_okb_ok|by apply rgb_okb_ok].
Qed.

Lemma cuterm_putc_renders_witness : ∃ s', cuterm_putc demo_font 65 demo_term = Ok s' ∧ term_ok s' ∧ cursor_x s' = 1 ∧
  shows demo_fb demo_font (vram s') (put_cell (λ _ _, None) 0 0 (Glyph 65 (mkRgb 255 255 255) (mkRgb 0 0 0))).
Proof.
  destruct (cuterm_putc_renders demo_font 65 demo_term (λ _ _, None) demo_term_ok ltac:(lia) ltac:(done)) as (s'&E&H&_&Hc&_&Hs).
  exists s'. split; [exact E|]. split; [exact H|]. split; [by change (next_cursor 65 demo_term) with (1, 0) in Hc; injection Hc|].
  apply Hs. intros ????????? [=].
Defined.

Lemma cuterm_text_well_formed_witness : ∃ s', cuterm_puts demo_font [72; 0x1b; 91; 51; 49; 109; 105; 10] demo_term = Ok s' ∧ term_ok s'.
Proof.
  destruct (cuterm_text_well_formed demo_font [72; 0x1b; 91; 51; 49; 109; 105; 10] demo_term demo_term_ok eq_refl) as (s'&E&H&_).
  - repeat constructor; lia.
  - intros cs1 ds cs2 E _. apply (f_equal length) in E. rewrite !length_app in E. simpl in E. lia.
  - exact (ex_intro _ s' (conj E H)).
Defined.

(** Bold is ignored, 38;5;196 is a red of the color cube. *)
Lemma cuterm_sequence_correct_witness :
  cuterm_puts demo_font (0x1b :: 91 :: spelled [[49]; [51; 56]; [53]; [49; 57; 54]] ++ [109]) demo_term =
    Ok (with_colors (with_params demo_term [1; 38; 5; 196] 0 false) (mkRgb 255 0 0) (mkRgb 0 0 0)).
Proof.
  rewrite (cuterm_sequence_correct demo_font); [by vm_compute|done|done| |by vm_compute].
  by repeat (constructor; [split; [done|split; [by repeat constructor|by vm_compute]]|]).
Defined.

(** When the height is no multiple of 16 the lines below the last row are
    scrolled into view: the new line shows what they held instead of being
    blank. *)
Theorem scroll_shows_strip :
  let fb := mkFb 0xffff8000fd000000 8 24 32 32 8 16 8 8 8 0 in
  let s := g_cuterm_state fb (λ a, if a <? 512 then 0 else 7) in
  ∃ s', cuterm_putc demo_font 10 s = Ok s' ∧ vram s' 0 = 7 ∧ color_byte fb (cur_bg s) 0 = 0.
Proof. eexists. split; [vm_compute; reflexivity|]. split; vm_compute; reflexivity. Qed.
