(* ===== verification/Crc32.v ===== *)
(** The checksum of the partition tables (src/math/crc32.S).

    The routine folds a table over the bytes; the table is the one of the
    source.  The theorem compares it with the bit by bit division by the
    reflected polynomial and shows that no change of a single byte goes
    unnoticed. *)

From S2P Require Import Prelude.

Definition poly8_lookup : list Z :=
  [0x00000000; 0x77073096; 0xEE0E612C; 0x990951BA;
   0x076DC419; 0x706AF48F; 0xE963A535; 0x9E6495A3;
   0x0EDB8832; 0x79DCB8A4; 0xE0D5E91E; 0x97D2D988;
   0x09B64C2B; 0x7EB17CBD; 0xE7B82D07; 0x90BF1D91;
   0x1DB71064; 0x6AB020F2; 0xF3B97148; 0x84BE41DE;
   0x1ADAD47D; 0x6DDDE4EB; 0xF4D4B551; 0x83D385C7;
   0x136C9856; 0x646BA8C0; 0xFD62F97A; 0x8A65C9EC;
   0x14015C4F; 0x63066CD9; 0xFA0F3D63; 0x8D080DF5;
   0x3B6E20C8; 0x4C69105E; 0xD56041E4; 0xA2677172;
   0x3C03E4D1; 0x4B04D447; 0xD20D85FD; 0xA50AB56B;
   0x35B5A8FA; 0x42B2986C; 0xDBBBC9D6; 0xACBCF940;
   0x32D86CE3; 0x45DF5C75; 0xDCD60DCF; 0xABD13D59;
   0x26D930AC; 0x51DE003A; 0xC8D75180; 0xBFD06116;
   0x21B4F4B5; 0x56B3C423; 0xCFBA9599; 0xB8BDA50F;
   0x2802B89E; 0x5F058808; 0xC60CD9B2; 0xB10BE924;
   0x2F6F7C87; 0x58684C11; 0xC1611DAB; 0xB6662D3D;
   0x76DC4190; 0x01DB7106; 0x98D220BC; 0xEFD5102A;
   0x71B18589; 0x06B6B51F; 0x9FBFE4A5; 0xE8B8D433;
   0x7807C9A2; 0x0F00F934; 0x9609A88E; 0xE10E9818;
   0x7F6A0DBB; 0x086D3D2D; 0x91646C97; 0xE6635C01;
   0x6B6B51F4; 0x1C6C6162; 0x856530D8; 0xF262004E;
   0x6C0695ED; 0x1B01A57B; 0x8208F4C1; 0xF50FC457;
   0x65B0D9C6; 0x12B7E950; 0x8BBEB8EA; 0xFCB9887C;
   0x62DD1DDF; 0x15DA2D49; 0x8CD37CF3; 0xFBD44C65;
   0x4DB26158; 0x3AB551CE; 0xA3BC0074; 0xD4BB30E2;
   0x4ADFA541; 0x3DD895D7; 0xA4D1C46D; 0xD3D6F4FB;
   0x4369E96A; 0x346ED9FC; 0xAD678846; 0xDA60B8D0;
   0x44042D73; 0x33031DE5; 0xAA0A4C5F; 0xDD0D7CC9;
   0x5005713C; 0x270241AA; 0xBE0B1010; 0xC90C2086;
   0x5768B525; 0x206F85B3; 0xB966D409; 0xCE61E49F;
   0x5EDEF90E; 0x29D9C998; 0xB0D09822; 0xC7D7A8B4;
   0x59B33D17; 0x2EB40D81; 0xB7BD5C3B; 0xC0BA6CAD;
   0xEDB88320; 0x9ABFB3B6; 0x03B6E20C; 0x74B1D29A;
   0xEAD54739; 0x9DD277AF; 0x04DB2615; 0x73DC1683;
   0xE3630B12; 0x94643B84; 0x0D6D6A3E; 0x7A6A5AA8;
   0xE40ECF0B; 0x9309FF9D; 0x0A00AE27; 0x7D079EB1;
   0xF00F9344; 0x8708A3D2; 0x1E01F268; 0x6906C2FE;
   0xF762575D; 0x806567CB; 0x196C3671; 0x6E6B06E7;
   0xFED41B76; 0x89D32BE0; 0x10DA7A5A; 0x67DD4ACC;
   0xF9B9DF6F; 0x8EBEEFF9; 0x17B7BE43; 0x60B08ED5;
   0xD6D6A3E8; 0xA1D1937E; 0x38D8C2C4; 0x4FDFF252;
   0xD1BB67F1; 0xA6BC5767; 0x3FB506DD; 0x48B2364B;
   0xD80D2BDA; 0xAF0A1B4C; 0x36034AF6; 0x41047A60;
   0xDF60EFC3; 0xA867DF55; 0x316E8EEF; 0x4669BE79;
   0xCB61B38C; 0xBC66831A; 0x256FD2A0; 0x5268E236;
   0xCC0C7795; 0xBB0B4703; 0x220216B9; 0x5505262F;
   0xC5BA3BBE; 0xB2BD0B28; 0x2BB45A92; 0x5CB36A04;
   0xC2D7FFA7; 0xB5D0CF31; 0x2CD99E8B; 0x5BDEAE1D;
   0x9B64C2B0; 0xEC63F226; 0x756AA39C; 0x026D930A;
   0x9C0906A9; 0xEB0E363F; 0x72076785; 0x05005713;
   0x95BF4A82; 0xE2B87A14; 0x7BB12BAE; 0x0CB61B38;
   0x92D28E9B; 0xE5D5BE0D; 0x7CDCEFB7; 0x0BDBDF21;
   0x86D3D2D4; 0xF1D4E242; 0x68DDB3F8; 0x1FDA836E;
   0x81BE16CD; 0xF6B9265B; 0x6FB077E1; 0x18B74777;
   0x88085AE6; 0xFF0F6A70; 0x66063BCA; 0x11010B5C;
   0x8F659EFF; 0xF862AE69; 0x616BFFD3; 0x166CCF45;
   0xA00AE278; 0xD70DD2EE; 0x4E048354; 0x3903B3C2;
   0xA7672661; 0xD06016F7; 0x4969474D; 0x3E6E77DB;
   0xAED16A4A; 0xD9D65ADC; 0x40DF0B66; 0x37D83BF0;
   0xA9BCAE53; 0xDEBB9EC5; 0x47B2CF7F; 0x30B5FFE9;
   0xBDBDF21C; 0xCABAC28A; 0x53B39330; 0x24B4A3A6;
   0xBAD03605; 0xCDD70693; 0x54DE5729; 0x23D967BF;
   0xB3667A2E; 0xC4614AB8; 0x5D681B02; 0x2A6F2B94;
   0xB40BBE37; 0xC30C8EA1; 0x5A05DF1B; 0x2D02EF8D].

(** The body of the loop: [xor r8b, al; shr eax, 8; xor eax, [rdx + r8*4]]. *)
Definition crc32_step (eax byte : Z) : Z :=
  Z.lxor (Z.shiftr eax 8) (default 0 (poly8_lookup !! Z.to_nat (Z.lxor byte (u8 eax)))).

(** [crc32] of the bytes at [rdi], [rsi] of them. *)
Definition crc32 (data : list Z) : Z :=
  let eax := foldl crc32_step 0xFFFFFFFF data in 2 ^ 32 - 1 - eax.

(** * The reference: division by the reflected polynomial, bit by bit *)

Definition crc_bit (c : Z) : Z := Z.lxor (Z.shiftr c 1) (if Z.testbit c 0 then 0xEDB88320 else 0).
Definition crc_byte (c b : Z) : Z := Nat.iter 8 crc_bit (Z.lxor c b).
Definition crc_reference (data : list Z) : Z := Z.lxor (foldl crc_byte 0xFFFFFFFF data) 0xFFFFFFFF.

Definition is_byte (b : Z) : Prop := 0 <= b < 2 ^ 8.

Lemma lxor_range n a b : 0 <= n → 0 <= a < 2 ^ n → 0 <= b < 2 ^ n → 0 <= Z.lxor a b < 2 ^ n.
Proof.
  intros. pose proof (proj2 (Z.lxor_nonneg a b) ltac:(lia)). split; [done|]. apply bits_lt; [done..|].
  intros i Hi. by rewrite Z.lxor_spec, !(testbit_high n).
Qed.

Lemma lxor_cancel a b c : Z.lxor a c = Z.lxor b c → a = b.
Proof.
  intros H. apply (f_equal (λ x, Z.lxor x c)) in H.
  by rewrite !Z.lxor_assoc, Z.lxor_nilpotent, !Z.lxor_0_r in H.
Qed.

Lemma crc_bit_xor a b : crc_bit (Z.lxor a b) = Z.lxor (crc_bit a) (crc_bit b).
Proof.
  unfold crc_bit. rewrite Z.shiftr_lxor, Z.lxor_spec. apply Z.bits_inj'. intros i Hi.
  destruct (Z.testbit a 0), (Z.testbit b 0); cbn [xorb]; rewrite ?Z.lxor_spec, ?Z.bits_0;
    destruct (Z.testbit (Z.shiftr a 1) i), (Z.testbit (Z.shiftr b 1) i), (Z.testbit 0xEDB88320 i); done.
Qed.

Lemma crc_bits_xor n a b : Nat.iter n crc_bit (Z.lxor a b) = Z.lxor (Nat.iter n crc_bit a) (Nat.iter n crc_bit b).
Proof. induction n as [|n IH]; simpl; [done|]. by rewrite IH, crc_bit_xor. Qed.

(** Bits above the ones shifted out only move down. *)
Lemma crc_bits_high n h : Nat.iter n crc_bit (Z.shiftl h (Z.of_nat n)) = h.
Proof.
  revert h. induction n as [|n IH]; intros h; [apply Z.shiftl_0_r|].
  rewrite Nat.iter_succ_r. unfold crc_bit at 2.
  replace (Z.testbit (Z.shiftl h (Z.of_nat (S n))) 0) with false
    by (rewrite Z.shiftl_spec_low by lia; done).
  rewrite Z.lxor_0_r, Z.shiftr_shiftl_l by lia.
  replace (Z.of_nat (S n) - 1) with (Z.of_nat n) by lia. apply IH.
Qed.

Lemma crc_bit_range c : 0 <= c < 2 ^ 32 → 0 <= crc_bit c < 2 ^ 32.
Proof.
  intros H. apply lxor_range; [lia| |by destruct (Z.testbit c 0)].
  rewrite Z.shiftr_div_pow2 by lia. change (2 ^ 1) with 2.
  pose proof (Z.div_pos c 2). pose proof (Z.div_lt_upper_bound c 2 (2 ^ 32)). lia.
Qed.

(** The top bit tells whether the polynomial was added, so a step loses nothing. *)
Lemma crc_bit_inj a b : 0 <= a < 2 ^ 32 → 0 <= b < 2 ^ 32 → crc_bit a = crc_bit b → a = b.
Proof.
  intros Ha Hb E.
  assert (∀ c, 0 <= c < 2 ^ 32 → Z.testbit (crc_bit c) 31 = Z.testbit c 0) as Htop.
  { intros c Hc. unfold crc_bit. rewrite Z.lxor_spec, Z.shiftr_spec by lia.
    rewrite (testbit_high 32) by lia. by destruct (Z.testbit c 0). }
  assert (Z.testbit a 0 = Z.testbit b 0) as E0 by (rewrite <- !Htop by done; congruence).
  unfold crc_bit in E. rewrite E0 in E. apply lxor_cancel in E.
  apply Z.bits_inj'. intros i Hi. destruct (decide (i = 0)) as [->|]; [done|].
  replace i with (i - 1 + 1) by lia. by rewrite <- !Z.shiftr_spec, E by lia.
Qed.

Lemma crc_bits_inj n a b : 0 <= a < 2 ^ 32 → 0 <= b < 2 ^ 32 →
  Nat.iter n crc_bit a = Nat.iter n crc_bit b → a = b.
Proof.
  revert a b. induction n as [|n IH]; intros a b Ha Hb E; [done|]. rewrite !Nat.iter_succ_r in E.
  apply IH in E; [|by apply crc_bit_range..]. by apply crc_bit_inj.
Qed.

Lemma crc_bits_range n c : 0 <= c < 2 ^ 32 → 0 <= Nat.iter n crc_bit c < 2 ^ 32.
Proof. intros H. induction n; simpl; [done|by apply crc_bit_range]. Qed.

(** The table holds the eight steps of every byte. *)
Lemma table_ok i : is_byte i → poly8_lookup !! Z.to_nat i = Some (Nat.iter 8 crc_bit i).
Proof.
  intros Hi. assert (poly8_lookup = (λ i, Nat.iter 8 crc_bit i) <$> seqZ 0 256) as -> by (vm_compute; reflexivity).
  unfold is_byte in Hi. rewrite list_lookup_fmap, lookup_seqZ_lt by lia. cbn [fmap option_fmap option_map].
  by rewrite Z2Nat.id, Z.add_0_l by lia.
Qed.

Lemma byte_range32 b : is_byte b → 0 <= b < 2 ^ 32.
Proof. unfold is_byte. lia. Qed.

Lemma crc_byte_range c b : 0 <= c < 2 ^ 32 → is_byte b → 0 <= crc_byte c b < 2 ^ 32.
Proof. intros. apply crc_bits_range, lxor_range; [lia|done|by apply byte_range32]. Qed.

Lemma crc_byte_eq c b : crc_byte c b = Nat.iter 8 crc_bit (Z.lxor c b).
Proof. reflexivity. Qed.

Lemma crc_byte_inj c1 b1 c2 b2 :
  0 <= c1 < 2 ^ 32 → is_byte b1 → 0 <= c2 < 2 ^ 32 → is_byte b2 →
  crc_byte c1 b1 = crc_byte c2 b2 → Z.lxor c1 b1 = Z.lxor c2 b2.
Proof.
  intros ? ? ? ? E. rewrite !crc_byte_eq in E. revert E. apply crc_bits_inj; (apply lxor_range; [lia|done|by apply byte_range32]).
Qed.

Lemma crc32_step_ok c b : 0 <= c < 2 ^ 32 → is_byte b → crc32_step c b = crc_byte c b.
Proof.
  intros Hc Hb. unfold crc32_step, crc_byte.
  assert (is_byte (Z.lxor b (u8 c))) as Hi by (apply lxor_range; [lia|done|apply u8_range]).
  rewrite (table_ok _ Hi). cbn [default from_option id].
  rewrite <- (crc_bits_high 8 (Z.shiftr c 8)) at 1. rewrite <- crc_bits_xor. f_equal.
  apply Z.bits_inj'. intros i Hi'. unfold u8. rewrite !Z.lxor_spec, Z.shiftl_spec by lia.
  destruct (decide (i < 8)).
  - rewrite Z.testbit_neg_r, Z.mod_pow2_bits_low by lia. by rewrite xorb_false_l, xorb_comm.
  - rewrite Z.shiftr_spec, Z.mod_pow2_bits_high, (testbit_high 8 b) by (unfold is_byte in Hb; lia).
    by replace (i - Z.of_nat 8 + 8) with i by lia.
Qed.

Lemma crc_fold_ok c l : 0 <= c < 2 ^ 32 → Forall is_byte l →
  foldl crc32_step c l = foldl crc_byte c l ∧ 0 <= foldl crc_byte c l < 2 ^ 32.
Proof.
  intros Hc Hl. revert c Hc. induction Hl as [|b l Hb Hl IH]; intros c Hc; [done|]. simpl.
  rewrite crc32_step_ok by done. apply IH. by apply crc_byte_range.
Qed.

Lemma crc_fold_inj a b l : 0 <= a < 2 ^ 32 → 0 <= b < 2 ^ 32 → Forall is_byte l →
  foldl crc_byte a l = foldl crc_byte b l → a = b.
Proof.
  intros Ha Hb Hl. revert a b Ha Hb. induction Hl as [|x l Hx Hl IH]; intros a b Ha Hb E; [done|].
  cbn [foldl] in E. apply IH in E; [|by apply crc_byte_range..].
  apply crc_byte_inj in E; [|done..]. by apply lxor_cancel in E.
Qed.

Lemma crc32_range l : Forall is_byte l → 0 <= crc32 l < 2 ^ 32.
Proof.
  intros Hl. unfold crc32. destruct (crc_fold_ok 0xFFFFFFFF l) as [-> ?]; [lia|done|lia].
Qed.

(** The complement of 32 bits, both ways. *)
Lemma complement_32 c : 0 <= c < 2 ^ 32 → 2 ^ 32 - 1 - c = Z.lxor c 0xFFFFFFFF.
Proof.
  intros Hr. change 0xFFFFFFFF with (Z.ones 32). apply Z.bits_inj'. intros i Hi.
  replace (2 ^ 32 - 1 - c) with (Z.lnot c mod 2 ^ 32).
  2:{ unfold Z.lnot. symmetry. apply (Z.mod_unique _ _ (-1)); lia. }
  rewrite Z.lxor_spec. destruct (decide (i < 32)).
  - rewrite Z.mod_pow2_bits_low, Z.lnot_spec, Z.ones_spec_low by lia. by destruct (Z.testbit c i).
  - by rewrite Z.mod_pow2_bits_high, Z.ones_spec_high, (testbit_high 32 c) by lia.
Qed.

(** C23: The table-driven routine computes the CRC-32 of the bitwise division by
    the reflected polynomial 0xEDB88320, for every sequence of bytes, and a
    sequence with one byte changed never has the same checksum. *)
Theorem crc32_correct l : Forall is_byte l →
  crc32 l = crc_reference l ∧
  ∀ l1 b b' l2, l = l1 ++ b :: l2 → is_byte b' → b' ≠ b → crc32 (l1 ++ b' :: l2) ≠ crc32 l.
Proof.
  intros Hl. split.
  - unfold crc32, crc_reference. destruct (crc_fold_ok 0xFFFFFFFF l) as [-> Hr]; [lia|done|].
    by apply complement_32.
  - intros l1 b b' l2 -> Hb' Hne E. apply Forall_app in Hl as [Hl1 Hl2]. apply Forall_cons in Hl2 as [Hb Hl2].
    assert (0 <= 0xFFFFFFFF < 2 ^ 32) as Hi by lia.
    assert (Forall is_byte (l1 ++ b :: l2)) as HA by (by apply Forall_app; split; [|constructor]).
    assert (Forall is_byte (l1 ++ b' :: l2)) as HB by (by apply Forall_app; split; [|constructor]).
    unfold crc32 in E. rewrite (proj1 (crc_fold_ok _ _ Hi HA)), (proj1 (crc_fold_ok _ _ Hi HB)) in E.
    rewrite !foldl_app in E. cbn [foldl] in E. destruct (crc_fold_ok _ _ Hi Hl1) as [_ Hr].
    apply Hne. assert (∀ x y : Z, 2 ^ 32 - 1 - x = 2 ^ 32 - 1 - y → x = y) as Hinj by lia.
    apply Hinj, crc_fold_inj in E; [|by apply crc_byte_range..|done].
    apply crc_byte_inj in E; [|done..].
    rewrite (Z.lxor_comm _ b'), (Z.lxor_comm _ b) in E. by apply lxor_cancel in E.
Qed.

(** The check value of CRC-32: the sum of "123456789". *)
Lemma crc32_correct_witness :
  crc32 [49; 50; 51; 52; 53; 54; 55; 56; 57] = 0xCBF43926 ∧
  crc32 [49; 50; 51; 52; 53; 54; 55; 56; 57] = crc_reference [49; 50; 51; 52; 53; 54; 55; 56; 57].
Proof.
  split; [vm_compute; reflexivity|].
  apply crc32_correct. repeat (apply Forall_cons; split; [unfold is_byte; lia|]). apply Forall_nil. exact I.
Defined.
