(* ===== verification/Bytes.v ===== *)
(** Packed structures in byte buffers.

    The tables of the disk, firmware and loader code are byte buffers that the
    code reads and writes through packed structures.  The file models the
    accesses, an access outside of the buffer being a [Fault], and relates what
    a buffer holds before and after a store. *)

From S2P Require Import Prelude Mem Crc32.

Abbreviation bytes := (list Z).

(** The [n] bytes at [off]. *)
Definition slice (b : bytes) (off n : Z) : result bytes :=
  if (0 <=? off) && (0 <=? n) && (off + n <=? Z.of_nat (length b))
  then Ok (take (Z.to_nat n) (drop (Z.to_nat off) b))
  else Fault.

(** Store [v] at [off]. *)
Definition put (b : bytes) (off : Z) (v : bytes) : result bytes :=
  if (0 <=? off) && (off + Z.of_nat (length v) <=? Z.of_nat (length b))
  then Ok (take (Z.to_nat off) b ++ v ++ drop (Z.to_nat off + length v) b)
  else Fault.

(** Little endian numbers of [n] bytes. *)
Fixpoint le_val (b : bytes) : Z :=
  match b with [] => 0 | c :: b => c + 256 * le_val b end.
Fixpoint le (n : nat) (v : Z) : bytes :=
  match n with O => [] | S n => v mod 256 :: le n (v / 256) end.

Definition get_le (n : Z) (b : bytes) (off : Z) : result Z := v ← slice b off n; mret (le_val v).

(** [memset] and [memcmp] on buffers. *)
Definition fill (b : bytes) (off c n : Z) : result bytes := put b off (replicate (Z.to_nat n) (u8 c)).
Definition bytes_eqb (a b : bytes) : bool := bool_decide (a = b).

(** Reads of memory: [n] bytes at [a], and the little endian number they are. *)
Fixpoint load_bytes (n : nat) (m : memory) (a : Z) : result bytes :=
  match n with
  | O => mret []
  | S n => b ← load8 m a; r ← load_bytes n m (a + 1); mret (b :: r)
  end.
Definition load_le (n : nat) (m : memory) (a : Z) : result Z := b ← load_bytes n m a; mret (le_val b).

(** * Numbers *)

Lemma le_length n v : length (le n v) = n.
Proof. revert v. induction n; intros; simpl; auto. Qed.

Lemma le_bytes n v : Forall is_byte (le n v).
Proof.
  revert v. induction n; intros v; simpl; constructor; [|done].
  unfold is_byte. change (2 ^ 8) with 256. apply Z.mod_pos_bound. lia.
Qed.

Lemma le_val_le n v : 0 <= v < 2 ^ (8 * Z.of_nat n) → le_val (le n v) = v.
Proof.
  revert v. induction n as [|n IH]; intros v Hv; simpl.
  - change (2 ^ (8 * Z.of_nat 0)) with 1 in Hv. lia.
  - replace (8 * Z.of_nat (S n)) with (8 + 8 * Z.of_nat n) in Hv by lia.
    rewrite Z.pow_add_r in Hv by lia. change (2 ^ 8) with 256 in Hv.
    pose proof (Z.div_mod v 256 ltac:(lia)). rewrite IH; [lia|].
    split; [apply Z.div_pos; lia|]. apply Z.div_lt_upper_bound; lia.
Qed.

Lemma le_val_range b : Forall is_byte b → 0 <= le_val b < 2 ^ (8 * Z.of_nat (length b)).
Proof.
  unfold is_byte. change (2 ^ 8) with 256.
  induction 1 as [|c b Hc Hb IH]; simpl; [lia|].
  replace (8 * Z.of_nat (S (length b))) with (8 + 8 * Z.of_nat (length b)) by lia.
  rewrite Z.pow_add_r by lia. change (2 ^ 8) with 256. lia.
Qed.

(** * Buffers *)

(** [b] holds [v] at [off]. *)
Definition holds (b : bytes) (off : Z) (v : bytes) : Prop := slice b off (Z.of_nat (length v)) = Ok v.

Lemma slice_ok b off n : 0 <= off → 0 <= n → off + n <= Z.of_nat (length b) →
  slice b off n = Ok (take (Z.to_nat n) (drop (Z.to_nat off) b)).
Proof. intros. unfold slice. by settle_z. Qed.

Lemma slice_inv b off n v : slice b off n = Ok v →
  0 <= off ∧ 0 <= n ∧ off + n <= Z.of_nat (length b) ∧
  v = take (Z.to_nat n) (drop (Z.to_nat off) b) ∧ Z.of_nat (length v) = n.
Proof.
  unfold slice. destruct (_ && _)%bool eqn:E; [|done]. zify_bools. intros [= <-].
  split; [lia|]. split; [lia|]. split; [lia|]. split; [done|]. rewrite length_take, length_drop. lia.
Qed.

Lemma holds_lookup b off v : holds b off v ↔
  0 <= off ∧ off + Z.of_nat (length v) <= Z.of_nat (length b) ∧
  ∀ i : nat, (i < length v)%nat → b !! (Z.to_nat off + i)%nat = v !! i.
Proof.
  unfold holds. split.
  - intros (?&?&?&Hv&_)%slice_inv. split; [done|]. split; [done|]. intros i Hi.
    rewrite Hv at 1. rewrite lookup_take_lt, lookup_drop by lia. done.
  - intros (?&?&Hl). rewrite slice_ok by lia. f_equal. apply list_eq. intros i.
    rewrite Nat2Z.id. destruct (decide (i < length v)%nat).
    + rewrite lookup_take_lt, lookup_drop by done. by apply Hl.
    + rewrite lookup_take_ge by lia. symmetry. apply lookup_ge_None. lia.
Qed.

Lemma put_ok b off v : 0 <= off → off + Z.of_nat (length v) <= Z.of_nat (length b) →
  ∃ b', put b off v = Ok b' ∧ length b' = length b ∧ holds b' off v ∧
    (∀ o w, holds b o w → o + Z.of_nat (length w) <= off ∨ off + Z.of_nat (length v) <= o → holds b' o w) ∧
    (Forall is_byte b → Forall is_byte v → Forall is_byte b').
Proof.
  intros H0 H1. unfold put. settle_z. cbn [andb]. eexists. split; [done|].
  assert (length (take (Z.to_nat off) b) = Z.to_nat off) as Hlt by (rewrite length_take; lia).
  assert (length (take (Z.to_nat off) b ++ v ++ drop (Z.to_nat off + length v) b) = length b) as Hlen
    by (rewrite !length_app, Hlt, length_drop; lia).
  split; [done|]. split; [|split].
  - apply holds_lookup. rewrite Hlen. split; [done|]. split; [done|]. intros i Hi.
    rewrite lookup_app_r, Hlt by lia. rewrite lookup_app_l by lia. f_equal. lia.
  - intros o w (?&?&Hw)%holds_lookup Hd. apply holds_lookup. rewrite Hlen. split; [done|]. split; [done|].
    intros i Hi. rewrite <- Hw by done. destruct Hd.
    + rewrite lookup_app_l, lookup_take_lt by lia. done.
    + rewrite lookup_app_r, Hlt by lia. rewrite lookup_app_r, lookup_drop by lia. f_equal. lia.
  - intros Hb Hv. apply Forall_app. split; [by apply Forall_take|]. apply Forall_app. split; [done|by apply Forall_drop].
Qed.

(** Two buffers with the same first [n] bytes hold the same things there. *)
Lemma holds_take a b n o w :
  take n a = take n b → holds a o w → o + Z.of_nat (length w) <= Z.of_nat n → holds b o w.
Proof.
  intros E (?&Hle&Hw)%holds_lookup Hn.
  assert (∀ i, (i < n)%nat → a !! i = b !! i) as Hl.
  { intros i Hi. rewrite <- (lookup_take_lt a n i), <- (lookup_take_lt b n i) by done. by rewrite E. }
  apply holds_lookup. split; [done|]. split.
  - apply (f_equal length) in E. rewrite !length_take in E. lia.
  - intros i Hi. rewrite <- Hl by lia. by apply Hw.
Qed.

Lemma holds_prefix b n w : holds b 0 w → n = length w → take n b = w.
Proof. intros (_&_&_&Hv&_)%slice_inv ->. rewrite Nat2Z.id in Hv. symmetry. exact Hv. Qed.

Lemma holds_sub b off v o w : holds b off v → holds v o w → holds b (off + o) w.
Proof.
  intros (?&?&Hv)%holds_lookup (?&?&Hw)%holds_lookup. apply holds_lookup. split; [lia|]. split; [lia|].
  intros i Hi. rewrite <- Hw by done. rewrite <- Hv by lia. f_equal. lia.
Qed.

Lemma get_le_holds n b off v :
  holds b off (le (Z.to_nat n) v) → 0 <= n → 0 <= v < 2 ^ (8 * n) → get_le n b off = Ok v.
Proof.
  intros H Hn Hv. unfold get_le. unfold holds in H. rewrite le_length, Z2Nat.id in H by lia.
  rewrite H. cbn [mbind result_bind mret result_ret]. rewrite le_val_le by (rewrite Z2Nat.id; lia). done.
Qed.

(** The same reads as total functions, for specifications. *)
Definition sub (b : bytes) (off n : Z) : bytes := take (Z.to_nat n) (drop (Z.to_nat off) b).
Definition field (n : Z) (b : bytes) (off : Z) : Z := le_val (sub b off n).

Lemma slice_sub b off n : 0 <= off → 0 <= n → off + n <= Z.of_nat (length b) → slice b off n = Ok (sub b off n).
Proof. apply slice_ok. Qed.

Lemma get_le_field n b off : 0 <= off → 0 <= n → off + n <= Z.of_nat (length b) → get_le n b off = Ok (field n b off).
Proof. intros. unfold get_le. by rewrite slice_sub. Qed.

Lemma sub_app b r off n : 0 <= off → 0 <= n → off + n <= Z.of_nat (length b) → sub (b ++ r) off n = sub b off n.
Proof.
  intros. unfold sub. rewrite drop_app_le by lia. apply take_app_le. rewrite length_drop. lia.
Qed.

Lemma field_app n b r off : 0 <= off → 0 <= n → off + n <= Z.of_nat (length b) → field n (b ++ r) off = field n b off.
Proof. intros. unfold field. by rewrite sub_app. Qed.

Lemma sub_bytes b off n : Forall is_byte b → Forall is_byte (sub b off n).
Proof. intros. by apply Forall_take, Forall_drop. Qed.

Lemma field_range n b off : Forall is_byte b → 0 <= n → 0 <= field n b off < 2 ^ (8 * n).
Proof.
  intros Hb Hn. unfold field. pose proof (le_val_range _ (sub_bytes b off n Hb)) as [H0 H1]. split; [done|].
  eapply Z.lt_le_trans; [exact H1|]. apply Z.pow_le_mono_r; [lia|].
  unfold sub. rewrite length_take. lia.
Qed.

Lemma sub_holds b off v : holds b off v → sub b off (Z.of_nat (length v)) = v.
Proof. intros (_&_&_&Hv&_)%slice_inv. symmetry. exact Hv. Qed.

Lemma field_holds n b off v :
  holds b off (le (Z.to_nat n) v) → 0 <= n → 0 <= v < 2 ^ (8 * n) → field n b off = v.
Proof.
  intros H Hn Hv. unfold field. apply sub_holds in H. rewrite le_length, Z2Nat.id in H by lia. rewrite H.
  apply le_val_le. by rewrite Z2Nat.id.
Qed.

(** A store as a splice. *)
Lemma put_splice b off v :
  0 <= off → off + Z.of_nat (length v) <= Z.of_nat (length b) →
  put b off v = Ok (take (Z.to_nat off) b ++ v ++ drop (Z.to_nat off + length v) b).
Proof. intros. unfold put. by settle_z. Qed.

Lemma le_le_val b : Forall is_byte b → le (length b) (le_val b) = b.
Proof.
  induction 1 as [|c b Hc Hb IH]; simpl; [done|]. unfold is_byte in Hc. change (2 ^ 8) with 256 in Hc.
  rewrite (Z.mul_comm 256), Z.mod_add, Z.mod_small, Z.div_add, Z.div_small by lia. by rewrite Z.add_0_l, IH.
Qed.

Lemma le_field n b off : Forall is_byte b → 0 <= off → 0 <= n → off + n <= Z.of_nat (length b) →
  le (Z.to_nat n) (field n b off) = sub b off n.
Proof.
  intros Hb H0 Hn Hl. unfold field. rewrite <- (le_le_val (sub b off n)) at 2 by by apply sub_bytes.
  f_equal. unfold sub. rewrite length_take, length_drop. lia.
Qed.

Lemma sub_take k b off n : 0 <= off → 0 <= n → off + n <= Z.of_nat k → sub (take k b) off n = sub b off n.
Proof.
  intros. unfold sub. rewrite !take_drop_commute, take_take. do 2 f_equal. lia.
Qed.

Lemma splice_id b off n : 0 <= off → 0 <= n → off + n <= Z.of_nat (length b) →
  take (Z.to_nat off) b ++ sub b off n ++ drop (Z.to_nat off + Z.to_nat n) b = b.
Proof.
  intros. unfold sub. rewrite <- (drop_drop b). rewrite (take_drop (Z.to_nat n)). apply take_drop.
Qed.

Lemma put_app a x b off v : off = Z.of_nat (length a) → length x = length v → put (a ++ x ++ b) off v = Ok (a ++ v ++ b).
Proof.
  intros -> Hx. rewrite put_splice by (rewrite ?length_app; lia). rewrite Nat2Z.id, take_app_length. do 3 f_equal.
  rewrite app_assoc, drop_app_ge by (rewrite length_app; lia). rewrite length_app, Hx, Nat.sub_diag. apply drop_0.
Qed.

(** A second store to the same place can be taken back. *)
Lemma put_back b off v w b1 b2 : length v = length w →
  put b off v = Ok b1 → put b1 off w = Ok b2 → put b2 off v = Ok b1.
Proof.
  intros Hl E1 E2. unfold put in E1. destruct (_ && _)%bool eqn:Hc; [|done]. zify_bools. injection E1 as <-.
  assert (off = Z.of_nat (length (take (Z.to_nat off) b))) as Hoff by (rewrite length_take; lia).
  rewrite put_app in E2 by done. injection E2 as <-. by apply put_app.
Qed.

Lemma holds_app b o v w : holds b o v → holds b (o + Z.of_nat (length v)) w → holds b o (v ++ w).
Proof.
  intros (?&?&Hv)%holds_lookup (?&?&Hw)%holds_lookup. apply holds_lookup. rewrite length_app.
  split; [lia|]. split; [lia|]. intros i Hi. destruct (decide (i < length v)%nat).
  - rewrite lookup_app_l by lia. by apply Hv.
  - rewrite lookup_app_r by lia. rewrite <- Hw by lia. f_equal. lia.
Qed.

Lemma holds_replicate b o c n m k : holds b o (replicate (Z.to_nat n) c) → 0 <= m → 0 <= k → m + k <= n →
  holds b (o + m) (replicate (Z.to_nat k) c).
Proof.
  intros H Hm Hk Hle. apply (holds_sub _ _ _ _ _ H). apply holds_lookup. rewrite !length_replicate.
  split; [lia|]. split; [lia|]. intros i Hi. rewrite !lookup_replicate_2 by lia. done.
Qed.

(** The bytes of a buffer after a store. *)
Lemma put_lookup b off v b' : put b off v = Ok b' → length b' = length b ∧
  0 <= off ∧ off + Z.of_nat (length v) <= Z.of_nat (length b) ∧
  ∀ i, 0 <= i → b' !! Z.to_nat i = if (off <=? i) && (i <? off + Z.of_nat (length v)) then v !! Z.to_nat (i - off) else b !! Z.to_nat i.
Proof.
  unfold put. destruct (_ && _)%bool eqn:E; [|done]. zify_bools. intros [= <-].
  assert (length (take (Z.to_nat off) b) = Z.to_nat off) as Hl by (rewrite length_take; lia).
  split; [rewrite !length_app, Hl, length_drop; lia|]. split; [lia|]. split; [lia|]. intros i Hi.
  destruct (Z.leb_spec off i); cbn [andb].
  - rewrite lookup_app_r, Hl by lia. case_z.
    + rewrite lookup_app_l by lia. f_equal. lia.
    + rewrite lookup_app_r, lookup_drop by lia. f_equal. lia.
  - rewrite lookup_app_l, lookup_take_lt by lia. done.
Qed.

(** * Buffers in memory *)

(** [l] is stored at [a]. *)
Definition stored (m : memory) (a : Z) (l : bytes) : Prop := ∀ i : nat, (i < length l)%nat → m !! (a + Z.of_nat i) = l !! i.

Lemma stored_app m a l1 l2 : stored m a (l1 ++ l2) → stored m a l1 ∧ stored m (a + Z.of_nat (length l1)) l2.
Proof.
  intros H. split; intros i Hi.
  - rewrite H by (rewrite length_app; lia). by apply lookup_app_l.
  - replace (a + Z.of_nat (length l1) + Z.of_nat i) with (a + Z.of_nat (length l1 + i)) by lia.
    rewrite H by (rewrite length_app; lia). rewrite lookup_app_r by lia. f_equal. lia.
Qed.

Lemma stored_load m a l i : stored m a l → (i < length l)%nat → load8 m (a + Z.of_nat i) = Ok (l !!! i).
Proof.
  intros H Hi. unfold load8. rewrite H by done. by rewrite (list_lookup_lookup_total_lt l i Hi).
Qed.

Lemma stored_bytes m a l : stored m a l → load_bytes (length l) m a = Ok l.
Proof.
  revert a. induction l as [|c l IH]; intros a H; [done|]. cbn [length load_bytes].
  pose proof (stored_load m a (c :: l) 0 H ltac:(simpl; lia)) as E. rewrite Z.add_0_r in E. rewrite E. cbn [mbind result_bind].
  change (c :: l) with ([c] ++ l) in H. apply stored_app in H as [_ H]. rewrite (IH (a + 1) H). done.
Qed.

Lemma stored_le m a l v n : stored m a l → l = le n v → 0 <= v < 2 ^ (8 * Z.of_nat n) → load_le n m a = Ok v.
Proof.
  intros H -> Hv. unfold load_le. apply stored_bytes in H. rewrite le_length in H. rewrite H.
  cbn [mbind result_bind mret result_ret]. by rewrite le_val_le.
Qed.
