(* ===== verification/Disk.v ===== *)
(** Partition tables (src/disk/mbr.c, gpt.c, partition.c, diskinit.c, ata.c).

    A disk device has function pointers for its sectors and a list of the
    partitions found on it.  The nodes of that list live in a store by address;
    the drivers, the DMA buffers, the heap and the log are behind an interface.
    Buffers are byte lists, structures are read and written at their packed
    offsets. *)

From S2P Require Import Prelude Mem Crc32 Bytes.

(** * GUIDs (guid_list.h) *)

Definition GUIDE_PARSE (d1 d2 d3 : Z) (d4 : bytes) : bytes :=
  [u8 (Z.land d1 0xFF); u8 (Z.land (Z.shiftr d1 8) 0xFF); u8 (Z.land (Z.shiftr d1 16) 0xFF); u8 (Z.land (Z.shiftr d1 24) 0xFF);
   u8 (Z.land d2 0xFF); u8 (Z.land (Z.shiftr d2 8) 0xFF);
   u8 (Z.land d3 0xFF); u8 (Z.land (Z.shiftr d3 8) 0xFF)] ++ d4.

Definition GUID_CUORE_BASIC_DATA : bytes := GUIDE_PARSE 0x726F7563 0x5F65 0x6162 [0x73; 0x69; 0x63; 0x5F; 0x64; 0x61; 0x74; 0x61].
Definition GUID_EMPTY : bytes := GUIDE_PARSE 0 0 0 [0; 0; 0; 0; 0; 0; 0; 0].
Definition GUID_EFI_SYSTEM : bytes := GUIDE_PARSE 0xC12A7328 0xF81F 0x11D2 [0xBA; 0x4B; 0x00; 0xA0; 0xC9; 0x3E; 0xC9; 0x3B].
Definition GUID_BIOS_BOOT : bytes := GUIDE_PARSE 0x21686148 0x6449 0x6E6F [0x74; 0x4E; 0x65; 0x65; 0x64; 0x45; 0x46; 0x49].
Definition GUID_MS_BASIC_DATA : bytes := GUIDE_PARSE 0xEBD0A0A2 0xB9E5 0x4433 [0x87; 0xC0; 0x68; 0xB6; 0xB7; 0x26; 0x99; 0xC7].
Definition GUID_LINUX_SWAP : bytes := GUIDE_PARSE 0x0657FD6D 0xA4AB 0x43C4 [0x84; 0xE5; 0x09; 0x33; 0xC8; 0x4B; 0x4F; 0x4F].
Definition GUID_LINUX_FILESYSTEM : bytes := GUIDE_PARSE 0x0FC63DAF 0x8483 0x4772 [0x8E; 0x79; 0x3D; 0x69; 0xD8; 0x47; 0x7D; 0xE4].
Definition GUID_MS_RESERVED : bytes := GUIDE_PARSE 0xE3C9E316 0x0B5C 0x4DB8 [0x81; 0x7D; 0xF9; 0x2D; 0xF0; 0x02; 0x15; 0xAE].
Definition GUID_WIN_RECOVERY : bytes := GUIDE_PARSE 0xDE94BBA4 0x06D1 0x4D40 [0xA1; 0x6A; 0xBF; 0xD5; 0x01; 0x79; 0xD6; 0xAC].
Definition GUID_MBR_SCHEME : bytes := GUIDE_PARSE 0x024DEE41 0x33E7 0x11D3 [0x9D; 0x69; 0x00; 0x08; 0xC7; 0x81; 0xF3; 0x9F].
Definition GUID_INTEL_FAST_FLASH : bytes := GUIDE_PARSE 0xD3BFE2DE 0x3DAF 0x11DF [0xBA; 0x40; 0xE3; 0xA5; 0x56; 0xD8; 0x95; 0x93].
Definition GUID_SONY_BOOT : bytes := GUIDE_PARSE 0xF4019732 0x066E 0x4E12 [0x82; 0x73; 0x34; 0x6C; 0x56; 0x41; 0x49; 0x4F].
Definition GUID_LENOVO_BOOT : bytes := GUIDE_PARSE 0xBFBFAFE7 0xA34F 0x448A [0x9A; 0x5B; 0x62; 0x13; 0xEB; 0x73; 0x6C; 0x22].
Definition GUID_POWERPC_PREP : bytes := GUIDE_PARSE 0x9E1A2D38 0xC612 0x4316 [0xAA; 0x26; 0x8B; 0x49; 0x52; 0x1E; 0x5A; 0x8B].
Definition GUID_ONIE_BOOT : bytes := GUIDE_PARSE 0x7412F7D5 0xA156 0x4B13 [0x81; 0xDC; 0x86; 0x71; 0x74; 0x92; 0x93; 0x25].
Definition GUID_ONIE_CONFIG : bytes := GUIDE_PARSE 0xD4E6E2CD 0x4469 0x46F3 [0xB5; 0xCB; 0x1B; 0xFF; 0x57; 0xAF; 0xC1; 0x49].
Definition GUID_MS_LDM_METADATA : bytes := GUIDE_PARSE 0x5808C8AA 0x7E8F 0x42E0 [0x85; 0xD2; 0xE1; 0xE9; 0x04; 0x34; 0xCF; 0xB3].
Definition GUID_MS_LDM_DATA : bytes := GUIDE_PARSE 0xAF9B60A0 0x1431 0x4F62 [0xBC; 0x68; 0x33; 0x11; 0x71; 0x4A; 0x69; 0xAD].
Definition GUID_MS_STORAGE_SPACES : bytes := GUIDE_PARSE 0xE75CAF8F 0xF680 0x4CEE [0xAF; 0xA3; 0xB0; 0x01; 0xE5; 0x6E; 0xFC; 0x2D].
Definition GUID_HP_UX_DATA : bytes := GUIDE_PARSE 0x75894C1E 0x3AEB 0x11D3 [0xB7; 0xC1; 0x7B; 0x03; 0xA0; 0x00; 0x00; 0x00].
Definition GUID_HP_UX_SERVICE : bytes := GUIDE_PARSE 0xE2A1E728 0x32E3 0x11D6 [0xA6; 0x82; 0x7B; 0x03; 0xA0; 0x00; 0x00; 0x00].
Definition GUID_IBM_GPFS : bytes := GUIDE_PARSE 0x37AFFC90 0xEF7D 0x4E96 [0x91; 0xC3; 0x2D; 0x7A; 0xE0; 0x55; 0xB1; 0x74].

(** The tables end at their entry with a NULL name. *)
Definition partition_lookup_table : list (Z * bytes * string) :=
  [(0x00, GUID_EMPTY, "Empty");
   (0x06, GUID_MS_BASIC_DATA, "FAT16");
   (0x0B, GUID_MS_BASIC_DATA, "FAT32 (CHS)");
   (0x0C, GUID_MS_BASIC_DATA, "FAT32 (LBA)");
   (0x07, GUID_MS_BASIC_DATA, "NTFS/exFAT");
   (0x83, GUID_LINUX_FILESYSTEM, "Linux Native");
   (0x82, GUID_LINUX_SWAP, "Linux Swap");
   (0xEF, GUID_EFI_SYSTEM, "EFI System Partition");
   (0x21, GUID_BIOS_BOOT, "BIOS Boot Partition")].

Definition guid_name_table : list (bytes * string) :=
  [(GUID_EMPTY, "Empty/Unknown");
   (GUID_EFI_SYSTEM, "EFI System Partition");
   (GUID_BIOS_BOOT, "BIOS Boot Partition");
   (GUID_MS_BASIC_DATA, "Microslop Basic Data");
   (GUID_LINUX_SWAP, "Linux Swap");
   (GUID_LINUX_FILESYSTEM, "Linux Filesystem");
   (GUID_MS_RESERVED, "Microslop Reserved");
   (GUID_WIN_RECOVERY, "Windows Recovery Environment");
   (GUID_MBR_SCHEME, "MBR Partition Scheme");
   (GUID_INTEL_FAST_FLASH, "Intel Fast Flash");
   (GUID_SONY_BOOT, "Sony Boot Partition");
   (GUID_LENOVO_BOOT, "Lenovo Boot Partition");
   (GUID_POWERPC_PREP, "PowerPC PReP Boot");
   (GUID_ONIE_BOOT, "ONIE Boot Partition");
   (GUID_ONIE_CONFIG, "ONIE Config Partition");
   (GUID_MS_LDM_METADATA, "Logical Disk Manager Metadata");
   (GUID_MS_LDM_DATA, "Logical Disk Manager Data");
   (GUID_MS_STORAGE_SPACES, "Microsoft Storage Spaces");
   (GUID_HP_UX_DATA, "HP-UX Data");
   (GUID_HP_UX_SERVICE, "HP-UX Service");
   (GUID_IBM_GPFS, "IBM General Parallel FS")].

(** * Data *)

Record partition_t := mkPart {
  start_lba : Z;
  sector_count : Z;
  partition_id : Z;
  type_id : Z;
  guid : bytes;
  disk : Z;
  is_gpt : bool;
  next : Z
}.

Record kernel_disk_dev_t := mkDev {
  partitions : Z;
  model : bytes;
  total_sectors : Z;
  port_base : Z;
  read_sectors : Z;
  write_sectors : Z;
  private_data : Z
}.

Definition set_partitions (d : kernel_disk_dev_t) (v : Z) : kernel_disk_dev_t :=
  mkDev v (model d) (total_sectors d) (port_base d) (read_sectors d) (write_sectors d) (private_data d).
Definition set_next (p : partition_t) (v : Z) : partition_t :=
  mkPart (start_lba p) (sector_count p) (partition_id p) (type_id p) (guid p) (disk p) (is_gpt p) v.

(** An argument of a log line. *)
Inductive log_arg := LogNum (n : Z) | LogStr (s : string).

(** What the partition code calls: the functions of the driver behind the two
    pointers of the device, which return a status; the DMA buffers of dmalloc.c,
    handed out with what their pages hold; nodes from heap.c, handed out with
    what their bytes hold and given back with what they held last; the log. *)
Class DiskEnv (E : Type) := {
  call_read : Z → Z → Z → Z → bytes → E → result (Z * bytes * E);
  call_write : Z → Z → Z → Z → bytes → E → result (Z * E);
  dmalloc32 : Z → E → result (option (Z * bytes) * E);
  dmfree : Z → E → result E;
  malloc_partition : E → result (option (Z * partition_t) * E);
  free_partition : Z → partition_t → E → result E;
  logbuf_printf : string → string → list log_arg → E → E
}.

Definition nl : string := String (Ascii.ascii_of_nat 10) EmptyString.
Definition quote : string := String (Ascii.ascii_of_nat 34) EmptyString.

Section Disk.
Context {E : Type} `{!DiskEnv E}.

Record disks := mkDisks {
  devs : gmap Z kernel_disk_dev_t;
  nodes : gmap Z partition_t;
  env : E
}.

Definition with_devs (s : disks) (x : gmap Z kernel_disk_dev_t) : disks := mkDisks x (nodes s) (env s).
Definition with_nodes (s : disks) (x : gmap Z partition_t) : disks := mkDisks (devs s) x (env s).
Definition with_env (s : disks) (x : E) : disks := mkDisks (devs s) (nodes s) x.

Definition dev_at (s : disks) (a : Z) : result kernel_disk_dev_t := of_option (devs s !! a).
Definition node_at (s : disks) (a : Z) : result partition_t := of_option (nodes s !! a).
Definition set_dev_list (dev v : Z) (s : disks) : result disks :=
  d ← dev_at s dev; mret (with_devs s (<[dev := set_partitions d v]> (devs s))).
Definition set_node_next (a v : Z) (s : disks) : result disks :=
  p ← node_at s a; mret (with_nodes s (<[a := set_next p v]> (nodes s))).

(** [dev->read_sectors(dev, lba, count, buffer)] and its twin; the block number
    is a [uint32_t]. *)
Definition dev_read (dev lba count : Z) (buf : bytes) (s : disks) : result (Z * bytes * disks) :=
  d ← dev_at s dev;
  if read_sectors d =? NULL then Fault
  else
    '(rc, buf, e) ← call_read (read_sectors d) dev (u32 lba) count buf (env s);
    mret (rc, buf, with_env s e).

Definition dev_write (dev lba count : Z) (buf : bytes) (s : disks) : result (Z * disks) :=
  d ← dev_at s dev;
  if write_sectors d =? NULL then Fault
  else
    '(rc, e) ← call_write (write_sectors d) dev (u32 lba) count buf (env s);
    mret (rc, with_env s e).

Definition dma_alloc (size : Z) (s : disks) : result (option (Z * bytes) * disks) :=
  '(r, e) ← dmalloc32 size (env s); mret (r, with_env s e).
Definition dma_free (virt : Z) (s : disks) : result disks :=
  e ← dmfree virt (env s); mret (with_env s e).

(** [malloc(sizeof(partition_t))]: the fields hold what the block held. *)
Definition new_partition (s : disks) : result (option (Z * partition_t) * disks) :=
  '(r, e) ← malloc_partition (env s);
  let s := with_env s e in
  mret (r, match r with Some (a, p) => with_nodes s (<[a := p]> (nodes s)) | None => s end).

Definition log (level fmt : string) (args : list log_arg) (s : disks) : disks :=
  with_env s (logbuf_printf level fmt args (env s)).

(** * Partitions (partition.c) *)

Definition partition_get_name (part : partition_t) : string :=
  if is_gpt part then
    match list_find (λ e : bytes * string, bytes_eqb e.1 (guid part)) guid_name_table with
    | Some (_, e) => e.2
    | None => "Unknown"
    end
  else
    match list_find (λ e : Z * bytes * string, e.1.1 =? type_id part) partition_lookup_table with
    | Some (_, e) => e.2
    | None => "Unknown"
    end.

(** The walk to the last node. *)
Fixpoint append_loop (fuel : nat) (current new_part : Z) (s : disks) : result disks :=
  match fuel with
  | O => Fuel
  | S fuel =>
      p ← node_at s current;
      if negb (next p =? NULL) then append_loop fuel (next p) new_part s
      else set_node_next current new_part s
  end.

Definition partition_register (new_part : Z) (s : disks) : result disks :=
  if new_part =? NULL then mret s
  else
    p ← node_at s new_part;
    if disk p =? NULL then mret s
    else
      let dev := disk p in
      let type_name := partition_get_name p in
      let s := log "INFO" ("[ DISK ] Registered partition #%u " +:+ quote +:+ "%s" +:+ quote +:+ " Size: %llu (MiB)" +:+ nl)
                 [LogNum (partition_id p); LogStr type_name; LogNum (u64 (sector_count p * 512) / (1024 * 1024))] s in
      d ← dev_at s dev;
      if partitions d =? NULL then set_dev_list dev new_part s
      else append_loop (S (size (nodes s))) (partitions d) new_part s.

(** * Master boot records (mbr.c) *)

(** The entry [i] of [mbr_t]: type, first block and length. *)
Definition mbr_type (buf : bytes) (i : Z) : result Z := get_le 1 buf (446 + 16 * i + 4).
Definition mbr_lba_start (buf : bytes) (i : Z) : result Z := get_le 4 buf (446 + 16 * i + 8).
Definition mbr_lba_length (buf : bytes) (i : Z) : result Z := get_le 4 buf (446 + 16 * i + 12).

(** The first loop: is there a protective entry? *)
Definition mbr_protective (buf : bytes) : result bool :=
  for_range 4 (λ i (found : bool), if found then mret true else t ← mbr_type buf i; mret (t =? 0xEE)) false.

(** The body of the second loop. *)
Definition mbr_entry (dev : Z) (buf : bytes) (i : Z) (s : disks) : result disks :=
  t ← mbr_type buf i;
  if t =? 0 then mret s
  else
    '(r, s) ← new_partition s;
    match r with
    | None => mret s
    | Some (a, p) =>
        st ← mbr_lba_start buf i;
        len ← mbr_lba_length buf i;
        let p := mkPart st len (partition_id p) t (guid p) dev false (next p) in
        partition_register a (with_nodes s (<[a := p]> (nodes s)))
    end.

Definition mbr_parse (dev : Z) (s : disks) : result (Z * disks) :=
  '(r, s) ← dma_alloc 512 s;
  match r with
  | None => mret (1, s)
  | Some (virt, buf) =>
      '(rc, buf, s) ← dev_read dev 0 1 buf s;
      if negb (rc =? 0) then s ← dma_free virt s; mret (1, s)
      else
        signature ← get_le 2 buf 510;
        if negb (signature =? 0xAA55) then s ← dma_free virt s; mret (1, s)
        else
          gpt ← mbr_protective buf;
          if (gpt : bool) then s ← dma_free virt s; mret (2, s)
          else
            s ← for_range 4 (mbr_entry dev buf) s;
            s ← dma_free virt s;
            mret (0, s)
  end.

Definition mbr_install (dev type_id : Z) (s : disks) : result disks :=
  '(r, s) ← dma_alloc 512 s;
  match r with
  | None => mret s
  | Some (virt, sector) =>
      sector ← fill sector 0 0 512;
      sector ← put sector 446 [0x80];
      sector ← put sector 447 [0x00];
      sector ← put sector 448 [0x01];
      sector ← put sector 449 [0x01];
      sector ← put sector 450 [if type_id =? 0 then 0x83 else type_id];
      sector ← put sector 451 [0x00];
      sector ← put sector 452 [0x01];
      sector ← put sector 453 [0x01];
      sector ← put sector 454 (le 4 2048);
      sector ← put sector 458 (le 4 0xFFFE);
      sector ← put sector 510 [0x55];
      sector ← put sector 511 [0xAA];
      '(_, s) ← dev_write dev 0 1 sector s;
      sector ← fill sector 0 0 512;
      '(_, s) ← dev_write dev 2048 1 sector s;
      dma_free virt s
  end.

(** * GUID partition tables (gpt.c) *)

(** "EFI PART" *)
Definition GPT_SIGNATURE : bytes := [69; 70; 73; 32; 80; 65; 82; 84].

(** The fields of [gpt_header_t] the parser reads. *)
Definition header_size (h : bytes) : result Z := get_le 4 h 12.
Definition header_crc32 (h : bytes) : result Z := get_le 4 h 16.
Definition partition_entry_lba (h : bytes) : result Z := get_le 8 h 72.
Definition num_partition_entries (h : bytes) : result Z := get_le 4 h 80.
Definition sizeof_partition_entry (h : bytes) : result Z := get_le 4 h 84.
Definition partition_entry_array_crc32 (h : bytes) : result Z := get_le 4 h 88.

(** [crc32(p, n)] on a buffer. *)
Definition buf_crc32 (b : bytes) (n : Z) : result Z := d ← slice b 0 n; mret (crc32 d).

(** The body of the loop over the entries; the flag is [break]. *)
Definition gpt_entry (dev : Z) (array : bytes) (entry_size i : Z) (st : bool * disks) : result (bool * disks) :=
  let '(stop, s) := st in
  if (stop : bool) then mret (true, s)
  else
    let gpt_p := u32 (i * entry_size) in
    type_guid ← slice array gpt_p 16;
    if bytes_eqb type_guid GUID_EMPTY then mret (false, s)
    else
      '(r, s) ← new_partition s;
      match r with
      | None => mret (true, s)
      | Some (a, p) =>
          starting_lba ← get_le 8 array (gpt_p + 32);
          ending_lba ← get_le 8 array (gpt_p + 40);
          let p := mkPart starting_lba (u64 (ending_lba - starting_lba + 1)) i 0 type_guid dev true (next p) in
          s ← partition_register a (with_nodes s (<[a := p]> (nodes s)));
          mret (false, s)
      end.

(** The part of [gpt_parse] behind the header check. *)
Definition gpt_parse_array (dev : Z) (header : bytes) (s : disks) : result disks :=
  num ← num_partition_entries header;
  entry_size ← sizeof_partition_entry header;
  let array_size := u32 (num * entry_size) in
  '(r, s) ← dma_alloc array_size s;
  '(virt, array) ← of_option r;
  let sectors_to_read := u32 (array_size + 511) / 512 in
  lba ← partition_entry_lba header;
  '(rc, array, s) ← dev_read dev lba sectors_to_read array s;
  if negb (rc =? 0) then dma_free virt s
  else
    c ← buf_crc32 array array_size;
    expected ← partition_entry_array_crc32 header;
    if negb (c =? expected) then
      dma_free virt (log "ERROR" ("[ GPT  ] Partition Entry Array CRC32 Mismatch!" +:+ nl) [] s)
    else
      '(_, s) ← for_range num (gpt_entry dev array entry_size) (false, s);
      dma_free virt s.

(** A buffer that could not be had is address 0, which the driver must not
    write to: a [Fault]. *)
Definition gpt_parse (dev : Z) (s : disks) : result disks :=
  '(r, s) ← dma_alloc 512 s;
  '(virt, header) ← of_option r;
  '(rc, header, s) ← dev_read dev 1 1 header s;
  if negb (rc =? 0) then dma_free virt s
  else
    signature ← slice header 0 8;
    if negb (bytes_eqb signature GPT_SIGNATURE) then dma_free virt s
    else
      read_crc ← header_crc32 header;
      header ← put header 16 (le 4 0);
      size ← header_size header;
      c ← buf_crc32 header size;
      if negb (c =? read_crc) then
        dma_free virt (log "ERROR" ("[ GPT  ] Header CRC32 Mismatch! aborting..." +:+ nl) [] s)
      else
        header ← put header 16 (le 4 read_crc);
        s ← gpt_parse_array dev header s;
        dma_free virt s.

(** The UTF-16 units of the name, [fs_name] being its characters before the NUL;
    they are signed. *)
Definition put_name (fs_name : bytes) (array : bytes) : result bytes :=
  foldl (λ r ic, a ← r; put a (56 + 2 * Z.of_nat ic.1) (le 2 (u16 (sint 8 ic.2)))) (Ok array)
    (imap pair (take 36 fs_name)).

(** The first entry of the array. *)
Definition install_entry (disk_sectors : Z) (fs_name type_guid : option bytes) (array : bytes) : result bytes :=
  array ← fill array 0 0 16384;
  g ← (match type_guid with Some g => slice g 0 16 | None => mret GUID_LINUX_FILESYSTEM end);
  array ← put array 0 g;
  array ← fill array 16 0xAA 16;
  array ← put array 32 (le 8 2048);
  array ← put array 40 (le 8 (u64 (disk_sectors - 34)));
  match fs_name with Some n => put_name n array | None => mret array end.

(** The protective master boot record. *)
Definition install_mbr (disk_sectors : Z) (sector : bytes) : result bytes :=
  sector ← fill sector 0 0 512;
  sector ← put sector 450 [0xEE];
  sector ← put sector 454 (le 4 1);
  let mbr_sz := if disk_sectors >? 0xFFFFFFFF then 0xFFFFFFFF else u32 (disk_sectors - 1) in
  sector ← put sector 458 (le 4 mbr_sz);
  sector ← put sector 510 [0x55];
  put sector 511 [0xAA].

Definition header_seal (header : bytes) : result bytes :=
  header ← put header 16 (le 4 0);
  c ← buf_crc32 header 92;
  put header 16 (le 4 c).

(** The primary header, and the changes that make it the backup. *)
Definition install_header (disk_sectors array_crc : Z) (header : bytes) : result bytes :=
  header ← fill header 0 0 512;
  header ← put header 0 GPT_SIGNATURE;
  header ← put header 8 (le 4 0x00010000);
  header ← put header 12 (le 4 92);
  header ← put header 24 (le 8 1);
  header ← put header 32 (le 8 (u64 (disk_sectors - 1)));
  header ← put header 40 (le 8 34);
  header ← put header 48 (le 8 (u64 (disk_sectors - 34)));
  header ← fill header 56 0xCC 16;
  header ← put header 72 (le 8 2);
  header ← put header 80 (le 4 128);
  header ← put header 84 (le 4 128);
  header ← put header 88 (le 4 array_crc);
  header_seal header.

Definition backup_header (disk_sectors : Z) (header : bytes) : result bytes :=
  header ← put header 24 (le 8 (u64 (disk_sectors - 1)));
  header ← put header 32 (le 8 1);
  header ← put header 72 (le 8 (u64 (disk_sectors - 33)));
  header_seal header.

Definition gpt_install (dev : Z) (fs_name type_guid : option bytes) (s : disks) : result disks :=
  d ← dev_at s dev;
  let disk_sectors := total_sectors d in
  if disk_sectors <? 68 then mret s
  else
    '(r1, s) ← dma_alloc 512 s;
    '(r2, s) ← dma_alloc 16384 s;
    match r1, r2 with
    | Some (virt, sector), Some (array_virt, array) =>
        array ← install_entry disk_sectors fs_name type_guid array;
        array_crc ← buf_crc32 array 16384;
        sector ← install_mbr disk_sectors sector;
        '(_, s) ← dev_write dev 0 1 sector s;
        '(_, s) ← dev_write dev 2 32 array s;
        '(_, s) ← dev_write dev (u64 (disk_sectors - 33)) 32 array s;
        header ← install_header disk_sectors array_crc sector;
        '(_, s) ← dev_write dev 1 1 header s;
        header ← backup_header disk_sectors header;
        '(_, s) ← dev_write dev (u64 (disk_sectors - 1)) 1 header s;
        s ← dma_free array_virt s;
        dma_free virt s
    | _, _ => Panic "MEMORY" "memset s is null"
    end.

(** * Entry points *)

(** The list is freed node by node. *)
Fixpoint free_loop (fuel : nat) (current : Z) (s : disks) : result disks :=
  match fuel with
  | O => Fuel
  | S fuel =>
      if current =? NULL then mret s
      else
        p ← node_at s current;
        e ← free_partition current p (env s);
        free_loop fuel (next p) (with_env (with_nodes s (delete current (nodes s))) e)
  end.

Definition partition_refresh (dev : Z) (s : disks) : result disks :=
  d ← dev_at s dev;
  s ← free_loop (S (size (nodes s))) (partitions d) s;
  s ← set_dev_list dev NULL s;
  '(r, s) ← dma_alloc 512 s;
  match r with
  | None => mret s
  | Some (virt, buf) =>
      buf ← fill buf 0 0 512;
      '(rc, buf, s) ← dev_read dev 0 1 buf s;
      if negb (rc =? 0) then dma_free virt s
      else
        '(rc, buf, s) ← dev_read dev 1 1 buf s;
        gpt ← (if rc =? 0 then sig ← slice buf 0 8; mret (bytes_eqb sig GPT_SIGNATURE) else mret false);
        s ← (if (gpt : bool) then gpt_parse dev s else '(_, s) ← mbr_parse dev s; mret s);
        dma_free virt s
  end.

(** diskinit.c *)
Definition generic_disk_init (dev : Z) (s : disks) : result disks :=
  if dev =? NULL then mret s
  else
    d ← dev_at s dev;
    if read_sectors d =? NULL then mret s
    else
      '(return_code, s) ← mbr_parse dev s;
      if return_code =? 2 then gpt_parse dev s else mret s.

End Disk.

Arguments disks : clear implicits.
Arguments mkDisks {_} _ _ _.
