(* ===== verification/DiskSpec.v ===== *)
(** What the partition code finds.

    The file states the laws of the interface of Disk.v (an abstract view of the
    sectors, of the live DMA buffers and of the nodes handed out), the shape of
    the partition list, and the tables that a disk holds as functions of its
    sectors; it proves that registering a partition appends to the list. *)

From S2P Require Import Prelude Mem Crc32 Bytes Disk.

(** * The interface *)

(** What can be seen of the environment: the sectors, whether the drive never
    fails, the live buffers with their sizes, the bytes that [dmalloc32] can
    still hand out, the nodes handed out, and how many nodes with a NULL [next]
    can still be had. *)
Record view := mkView {
  v_content : gmap Z bytes;
  v_healthy : bool;
  v_live : gmap Z Z;
  v_room : Z;
  v_owned : gset Z;
  v_clean : nat
}.

Definition set_content (v : view) (x : gmap Z bytes) : view :=
  mkView x (v_healthy v) (v_live v) (v_room v) (v_owned v) (v_clean v).
Definition set_dma (v : view) (l : gmap Z Z) (r : Z) : view :=
  mkView (v_content v) (v_healthy v) l r (v_owned v) (v_clean v).
Definition set_owned (v : view) (x : gset Z) (n : nat) : view :=
  mkView (v_content v) (v_healthy v) (v_live v) (v_room v) x n.

(** [n] sectors from [lba] on, and the disk after a write of [b] there. *)
Fixpoint sectors (C : gmap Z bytes) (lba : Z) (n : nat) : option bytes :=
  match n with
  | O => Some []
  | S n =>
      match C !! lba, sectors C (lba + 1) n with Some b, Some r => Some (b ++ r) | _, _ => None end
  end.

Fixpoint store_sectors (C : gmap Z bytes) (lba : Z) (n : nat) (b : bytes) : gmap Z bytes :=
  match n with
  | O => C
  | S n => store_sectors (<[lba := take 512 b]> C) (lba + 1) n (drop 512 b)
  end.

Definition sector_wf (b : bytes) : Prop := length b = 512%nat ∧ Forall is_byte b.
Definition page_round (n : Z) : Z := (n + 4095) / 4096 * 4096.

Class DiskEnvLaws (E : Type) `{!DiskEnv E} := {
  view_of : E → view;
  the_dev : Z;
  read_fn : Z;
  write_fn : Z;
  env_pointers : the_dev ≠ NULL ∧ read_fn ≠ NULL ∧ write_fn ≠ NULL;
  content_wf e : map_Forall (λ _ b, sector_wf b) (v_content (view_of e));
  call_read_ok e lba count buf :
    0 <= count → 512 * count <= Z.of_nat (length buf) →
    ∃ rc buf' e', call_read read_fn the_dev lba count buf e = Ok (rc, buf', e') ∧
      view_of e' = view_of e ∧ length buf' = length buf ∧
      (rc = 0 → ∃ b, sectors (v_content (view_of e)) lba (Z.to_nat count) = Some b ∧
        buf' = b ++ drop (length b) buf) ∧
      (v_healthy (view_of e) = true → is_Some (sectors (v_content (view_of e)) lba (Z.to_nat count)) → rc = 0);
  call_write_ok e lba count buf :
    v_healthy (view_of e) = true → 0 <= count → 512 * count <= Z.of_nat (length buf) → Forall is_byte buf →
    is_Some (sectors (v_content (view_of e)) lba (Z.to_nat count)) →
    ∃ rc e', call_write write_fn the_dev lba count buf e = Ok (rc, e') ∧
      view_of e' = set_content (view_of e) (store_sectors (v_content (view_of e)) lba (Z.to_nat count) buf);
  dmalloc32_ok e n :
    0 < n → page_round n <= v_room (view_of e) →
    ∃ a buf e', dmalloc32 n e = Ok (Some (a, buf), e') ∧
      v_live (view_of e) !! a = None ∧ Z.of_nat (length buf) = page_round n ∧ Forall is_byte buf ∧
      view_of e' = set_dma (view_of e) (<[a := page_round n]> (v_live (view_of e))) (v_room (view_of e) - page_round n);
  dmfree_ok e a n :
    v_live (view_of e) !! a = Some n →
    ∃ e', dmfree a e = Ok e' ∧
      view_of e' = set_dma (view_of e) (delete a (v_live (view_of e))) (v_room (view_of e) + n);
  malloc_partition_ok e n :
    v_clean (view_of e) = S n →
    ∃ a p e', malloc_partition e = Ok (Some (a, p), e') ∧ a ≠ NULL ∧ (a ∉ v_owned (view_of e)) ∧
      next p = NULL ∧ view_of e' = set_owned (view_of e) ({[a]} ∪ v_owned (view_of e)) n;
  free_partition_ok e a p :
    a ∈ v_owned (view_of e) →
    ∃ e' n, free_partition a p e = Ok e' ∧ view_of e' = set_owned (view_of e) ((v_owned (view_of e)) ∖ {[a]}) n;
  logbuf_printf_ok e level fmt args : view_of (logbuf_printf level fmt args e) = view_of e
}.

(** * What a partition is *)

(** The fields the code sets; the number and the GUID of an MBR partition are
    left as the heap had them. *)
Record pdesc := mkDesc {
  d_start : Z;
  d_count : Z;
  d_type : Z;
  d_gpt : option (Z * bytes)
}.

Definition describe (p : partition_t) : pdesc :=
  mkDesc (start_lba p) (sector_count p) (type_id p) (if is_gpt p then Some (partition_id p, guid p) else None).

(** The list from [head] to NULL. *)
Fixpoint chain (N : gmap Z partition_t) (head : Z) (l : list Z) : Prop :=
  match l with
  | [] => head = NULL
  | a :: l => head = a ∧ a ≠ NULL ∧ ∃ p, N !! a = Some p ∧ chain N (next p) l
  end.

Lemma chain_insert_out N h l a p : a ∉ l → chain N h l → chain (<[a := p]> N) h l.
Proof.
  revert h. induction l as [|b l IH]; intros h Hn; simpl; [done|].
  intros (->&?&q&Hq&Hc). split; [done|]. split; [done|]. exists q.
  rewrite lookup_insert_ne by (intros ->; set_solver). split; [done|]. apply IH; [set_solver|done].
Qed.

Section Spec.
Context {E : Type} `{!DiskEnv E, !DiskEnvLaws E}.

(** The state of the code: the device with its pointers and a list of the
    partitions [ds]; the heap knows the nodes of the store. *)
Definition disk_ok (s : disks E) (total : Z) (ds : list pdesc) : Prop :=
  ∃ d l, devs s !! the_dev = Some d ∧ read_sectors d = read_fn ∧ write_sectors d = write_fn ∧
    total_sectors d = total ∧ chain (nodes s) (partitions d) l ∧ NoDup l ∧
    Forall2 (λ a x, ∃ p, nodes s !! a = Some p ∧ disk p = the_dev ∧ describe p = x) l ds ∧
    dom (nodes s) = v_owned (view_of (env s)).

(** Nothing changed but the nodes. *)
Definition quiet (v v' : view) : Prop :=
  v_content v' = v_content v ∧ v_healthy v' = v_healthy v ∧ v_live v' = v_live v ∧ v_room v' = v_room v.

Lemma quiet_refl v : quiet v v.
Proof. done. Qed.
Lemma quiet_trans v1 v2 v3 : quiet v1 v2 → quiet v2 v3 → quiet v1 v3.
Proof. unfold quiet. intros (?&?&?&?) (?&?&?&?). split_and!; congruence. Qed.

Lemma disk_ok_env s e total ds :
  disk_ok s total ds → v_owned (view_of e) = v_owned (view_of (env s)) → disk_ok (with_env s e) total ds.
Proof.
  intros (d&l&Hd&Hr&Hw&Ht&Hc&Hnd&Hf&Hdom) He. exists d, l. simpl.
  split; [done|]. split; [done|]. split; [done|]. split; [done|]. split; [done|]. split; [done|].
  split; [done|]. congruence.
Qed.

(** The walk of [partition_register] ends at the last node. *)
Lemma append_loop_ok fuel h l z (s : disks E) a :
  chain (nodes s) h (l ++ [z]) → (length l < fuel)%nat → append_loop fuel h a s = set_node_next z a s.
Proof.
  revert h fuel. induction l as [|b l IH]; intros h [|fuel] Hc Hf; try (simpl in Hf; lia);
    destruct Hc as (->&Hb0&q&Hq&Hc); simpl; unfold node_at at 1; rewrite Hq; cbn [of_option mbind result_bind].
  - simpl in Hc. by rewrite Hc.
  - assert (next q ≠ NULL) as Hnq by (destruct l; destruct Hc as (->&?&_); done).
    rewrite (proj2 (Z.eqb_neq _ _) Hnq). cbn [negb]. apply IH; [done|simpl in Hf; lia].
Qed.

End Spec.

Lemma chain_last N h l z : chain N h (l ++ [z]) → ∃ q, N !! z = Some q ∧ next q = NULL.
Proof.
  revert h. induction l as [|b l IH]; intros h; simpl; intros (->&?&q&Hq&Hc); [by exists q|]. by apply (IH (next q)).
Qed.

Lemma chain_snoc N h l z q a p :
  chain N h (l ++ [z]) → NoDup (l ++ [z]) → N !! z = Some q → a ∉ l ++ [z] → a ≠ NULL →
  N !! a = Some p → next p = NULL → chain (<[z := Disk.set_next q a]> N) h ((l ++ [z]) ++ [a]).
Proof.
  intros Hc Hnd Hq Ha Ha0 Hp Hn. revert h Hc Hnd Ha. induction l as [|b l IH]; intros h Hc Hnd Ha; simpl in *.
  - destruct Hc as (->&?&_). split; [done|]. split; [done|]. eexists. rewrite lookup_insert_eq. split; [done|].
    cbn [next set_next]. split; [done|]. split; [done|]. exists p. rewrite lookup_insert_ne by (intros ->; set_solver). done.
  - destruct Hc as (->&?&q'&Hq'&Hc). apply NoDup_cons in Hnd as [Hb Hnd]. split; [done|]. split; [done|].
    exists q'. rewrite lookup_insert_ne by (intros ->; set_solver). split; [done|]. apply IH; [done|done|set_solver].
Qed.

Lemma chain_in N h l a : chain N h l → a ∈ l → is_Some (N !! a).
Proof.
  revert h. induction l as [|b l IH]; intros h Hc Ha; [by apply not_elem_of_nil in Ha|].
  destruct Hc as (->&_&p&Hp&Hc). apply elem_of_cons in Ha as [->|Ha]; [by exists p|]. by apply (IH (next p)).
Qed.

Lemma chain_null N h l : chain N h l → NULL ∉ l.
Proof.
  revert h. induction l as [|b l IH]; intros h Hc Hn; [by apply not_elem_of_nil in Hn|]. destruct Hc as (_&Hb&p&_&Hc).
  apply elem_of_cons in Hn as [<-|Hn]; [done|]. by apply (IH (next p)).
Qed.

(** The successor of a node but the last one. *)
Lemma chain_next N h l z x : chain N h (l ++ [z]) → x ∈ l ++ [z] → ∃ q, N !! x = Some q ∧ (next q ∈ l ++ [z] ∨ x = z).
Proof.
  revert h. induction l as [|b l IH]; intros h Hc Hx.
  - apply list_elem_of_singleton in Hx as ->. destruct Hc as (_&_&q&Hq&_). exists q. auto.
  - destruct Hc as (_&_&q&Hq&Hc). apply elem_of_cons in Hx as [->|Hx].
    + exists q. split; [done|]. left. apply elem_of_cons. right. destruct l; destruct Hc as (->&_); apply list_elem_of_here.
    + destruct (IH (next q) Hc Hx) as (r&Hr&[Hn|Hn]); exists r; (split; [done|]); [left; apply elem_of_cons; by right|by right].
Qed.

Lemma chain_length N h l : chain N h l → NoDup l → (length l <= size N)%nat.
Proof.
  intros Hc Hnd. rewrite <- (size_list_to_set (C := gset Z) l) by done. rewrite <- size_dom.
  apply subseteq_size. intros a Ha. apply elem_of_list_to_set in Ha. apply elem_of_dom. by apply (chain_in N h l).
Qed.

Section Register.
Context {E : Type} `{!DiskEnv E, !DiskEnvLaws E}.

Lemma log_view level fmt args (s : disks E) : view_of (env (log level fmt args s)) = view_of (env s).
Proof. apply logbuf_printf_ok. Qed.

(** Registering a fresh node appends it to the list of the device. *)
Lemma register_ok (s : disks E) total ds a p e n :
  disk_ok s total ds → a ∉ v_owned (view_of (env s)) → a ≠ NULL → next p = NULL → disk p = the_dev →
  view_of e = set_owned (view_of (env s)) ({[a]} ∪ v_owned (view_of (env s))) n →
  ∃ s', partition_register a (mkDisks (devs s) (<[a := p]> (nodes s)) e) = Ok s' ∧
    disk_ok s' total (ds ++ [describe p]) ∧ view_of (env s') = view_of e.
Proof.
  intros (d&l&Hd&Hr&Hw&Ht&Hc&Hnd&Hf&Hdom) Ha Ha0 Hn Hp He.
  destruct env_pointers as (Hdev&_). rewrite <- Hdom in Ha. apply not_elem_of_dom in Ha.
  assert (a ∉ l) as Hal by (intros Hin; destruct (chain_in _ _ _ _ Hc Hin); congruence).
  apply (chain_insert_out _ _ _ _ p Hal) in Hc. set (N := <[a := p]> (nodes s)) in *.
  assert (N !! a = Some p) as HNa by apply lookup_insert_eq.
  assert (Forall2 (λ a x, ∃ p, N !! a = Some p ∧ disk p = the_dev ∧ describe p = x) (l ++ [a]) (ds ++ [describe p])) as HF.
  { apply Forall2_app; [|constructor; [by exists p|constructor]].
    eapply Forall2_impl; [exact Hf|]. intros b x (q&Hq&?&?). exists q. unfold N.
    rewrite lookup_insert_ne by congruence. done. }
  assert (NoDup (l ++ [a])) as HND by (apply NoDup_app; split_and!; [done|set_solver|apply NoDup_singleton]).
  assert (dom N = v_owned (view_of e)) as HD by (unfold N; rewrite dom_insert_L, He, Hdom; done).
  unfold partition_register. rewrite (proj2 (Z.eqb_neq a NULL)) by done. unfold node_at. cbn [nodes]. fold N. rewrite HNa.
  cbn [of_option mbind result_bind]. rewrite Hp, (proj2 (Z.eqb_neq the_dev NULL)) by done.
  cbn zeta. match goal with |- context [ log ?l ?f ?x ?y ] => pose proof (log_view l f x y) as Hlv; set (s1 := log l f x y) in * end.
  unfold dev_at. change (devs s1) with (devs s). rewrite Hd. cbn [of_option mbind result_bind].
  destruct (Z.eqb_spec (partitions d) NULL) as [Hnull|Hnull].
  - assert (l = []) as -> by (destruct l as [|b l']; [done|destruct Hc as (?&?&_); congruence]).
    unfold set_dev_list, dev_at. change (devs s1) with (devs s). rewrite Hd. eexists. split; [done|]. split; [|exact Hlv].
    exists (set_partitions d a), [a]. cbn [devs with_devs]. rewrite lookup_insert_eq.
    split; [done|]. split; [done|]. split; [done|]. split; [done|]. split; [|split; [done|split; [done|]]].
    + split; [done|]. split; [done|]. by exists p.
    + change (env (with_devs s1 _)) with (env s1). by rewrite Hlv.
  - destruct l as [|z l _] using rev_ind; [done|].
    rewrite append_loop_ok with (l := l) (z := z).
    2:{ exact Hc. } 2:{ apply chain_length in Hc; [|done]. rewrite length_app in Hc. simpl in Hc. change (nodes s1) with N. lia. }
    destruct (chain_last _ _ _ _ Hc) as (q&Hq&Hqn). unfold set_node_next, node_at. change (nodes s1) with N. rewrite Hq.
    eexists. split; [done|]. split; [|exact Hlv].
    exists d, ((l ++ [z]) ++ [a]). split; [done|]. split; [done|]. split; [done|]. split; [done|].
    split; [|split; [done|split]].
    + change (nodes (with_nodes s1 _)) with (<[z:=set_next q a]> N). by apply (chain_snoc _ _ _ _ q _ p).
    + eapply Forall2_impl; [exact HF|]. intros b x (r&Hb&?&?). change (nodes (with_nodes s1 _)) with (<[z:=set_next q a]> N).
      destruct (decide (b = z)) as [->|]; [|exists r; by rewrite lookup_insert_ne by done].
      exists (set_next q a). rewrite lookup_insert_eq. split; [done|]. assert (r = q) as -> by congruence. done.
    + change (env (with_nodes s1 _)) with (env s1). change (nodes (with_nodes s1 _)) with (<[z:=set_next q a]> N).
      rewrite dom_insert_L, Hlv. cbn [env]. apply elem_of_dom_2 in Hq. set_solver.
Qed.

(** A node of the heap, its fields set by [f], registered. *)
Lemma add_partition_ok (s : disks E) total ds n (f : partition_t → partition_t) x :
  disk_ok s total ds → v_clean (view_of (env s)) = S n →
  (∀ p, disk (f p) = the_dev ∧ next (f p) = next p ∧ describe (f p) = x) →
  ∃ a p s1 s', new_partition s = Ok (Some (a, p), s1) ∧
    partition_register a (with_nodes s1 (<[a := f p]> (nodes s1))) = Ok s' ∧
    disk_ok s' total (ds ++ [x]) ∧ quiet (view_of (env s)) (view_of (env s')) ∧ v_clean (view_of (env s')) = n.
Proof.
  intros Hok Hn Hfp. destruct (malloc_partition_ok (env s) n Hn) as (a&p&e&Hm&Ha0&Ha&Hnp&Hv).
  destruct (Hfp p) as (Hdp&Hnx&Hx).
  destruct (register_ok s total ds a (f p) e n Hok Ha Ha0 ltac:(congruence) Hdp Hv) as (s'&Hs'&Hok'&Hv').
  exists a, p, (mkDisks (devs s) (<[a := p]> (nodes s)) e), s'. split.
  { unfold new_partition. by rewrite Hm. }
  rewrite Hx in Hok'. unfold with_nodes. cbn [nodes devs env]. rewrite insert_insert_eq. split; [done|]. split; [done|].
  rewrite Hv', Hv. split; done.
Qed.
End Register.

(** * The tables on the disk *)

Definition mbr_desc (h : bytes) (i : Z) : option pdesc :=
  let t := field 1 h (446 + 16 * i + 4) in
  if t =? 0 then None
  else Some (mkDesc (field 4 h (446 + 16 * i + 8)) (field 4 h (446 + 16 * i + 12)) t None).

(** The status of [mbr_parse] and the partitions of the master boot record. *)
Definition mbr_scan (C : gmap Z bytes) : Z * list pdesc :=
  match C !! 0 with
  | None => (1, [])
  | Some h =>
      if negb (field 2 h 510 =? 0xAA55) then (1, [])
      else if existsb (λ i, field 1 h (446 + 16 * i + 4) =? 0xEE) (seqZ 0 4) then (2, [])
      else (0, omap (mbr_desc h) (seqZ 0 4))
  end.

(** The header with the checksum zeroed, and the two tests it has to pass. *)
Definition zero_crc (h : bytes) : bytes := take 16 h ++ le 4 0 ++ drop 20 h.
Definition header_ok (h : bytes) : bool :=
  bytes_eqb (sub h 0 8) GPT_SIGNATURE && (crc32 (sub (zero_crc h) 0 (field 4 h 12)) =? field 4 h 16).

Definition h_num (h : bytes) : Z := field 4 h 80.
Definition h_size (h : bytes) : Z := field 4 h 84.
Definition h_array_size (h : bytes) : Z := h_num h * h_size h.

Definition gpt_desc (arr : bytes) (esz i : Z) : option pdesc :=
  let g := sub arr (i * esz) 16 in
  if bytes_eqb g GUID_EMPTY then None
  else
    let first := field 8 arr (i * esz + 32) in
    let last := field 8 arr (i * esz + 40) in
    Some (mkDesc first (u64 (last - first + 1)) 0 (Some (i, g))).

(** The partitions of a GPT whose two checksums are right. *)
Definition gpt_scan (C : gmap Z bytes) : list pdesc :=
  match C !! 1 with
  | None => []
  | Some h =>
      if header_ok h then
        match sectors C (field 8 h 72) (Z.to_nat ((h_array_size h + 511) / 512)) with
        | None => []
        | Some arr =>
            if crc32 (sub arr 0 (h_array_size h)) =? field 4 h 88
            then omap (gpt_desc arr (h_size h)) (seqZ 0 (h_num h)) else []
        end
      else []
  end.

(** Headers the code handles: the checksum stays in the sector, the array is not
    empty, its size does not wrap, its entries have the fields that are read,
    its blocks have 32-bit numbers, and there is memory for it. *)
Definition gpt_sane (C : gmap Z bytes) (room : Z) : Prop :=
  ∀ h, C !! 1 = Some h →
    field 4 h 12 <= 512 ∧
    (header_ok h = true →
      0 < h_array_size h ∧ h_array_size h + 511 < 2 ^ 32 ∧ 48 <= h_size h ∧ field 8 h 72 < 2 ^ 32 ∧
      page_round 512 + page_round (h_array_size h) <= room).

Section Parse.
Context {E : Type} `{!DiskEnv E, !DiskEnvLaws E}.

Lemma dma_alloc_ok (s : disks E) total ds n :
  disk_ok s total ds → 0 < n → page_round n <= v_room (view_of (env s)) →
  ∃ a buf s1, dma_alloc n s = Ok (Some (a, buf), s1) ∧ disk_ok s1 total ds ∧
    v_live (view_of (env s)) !! a = None ∧ Z.of_nat (length buf) = page_round n ∧ Forall is_byte buf ∧
    view_of (env s1) = set_dma (view_of (env s)) (<[a := page_round n]> (v_live (view_of (env s)))) (v_room (view_of (env s)) - page_round n).
Proof.
  intros Hok Hn Hr. destruct (dmalloc32_ok _ n Hn Hr) as (a&buf&e&He&Ha&Hl&Hb&Hv).
  exists a, buf, (with_env s e). unfold dma_alloc. rewrite He. split; [done|]. split; [|done].
  apply disk_ok_env; [done|]. by rewrite Hv.
Qed.

Lemma dma_free_ok (s : disks E) total ds a n L :
  disk_ok s total ds → v_live (view_of (env s)) = <[a := n]> L → L !! a = None →
  ∃ s', dma_free a s = Ok s' ∧ disk_ok s' total ds ∧
    view_of (env s') = set_dma (view_of (env s)) L (v_room (view_of (env s)) + n).
Proof.
  intros Hok HL Ha. destruct (dmfree_ok (env s) a n) as (e&He&Hv); [by rewrite HL, lookup_insert_eq|].
  exists (with_env s e). unfold dma_free. rewrite He. split; [done|]. rewrite HL, delete_insert_id in Hv by done.
  split; [|done]. apply disk_ok_env; [done|]. by rewrite Hv.
Qed.

Lemma dev_read_ok (s : disks E) total ds lba count buf :
  disk_ok s total ds → 0 <= count → 512 * count <= Z.of_nat (length buf) →
  ∃ rc buf' s', dev_read the_dev lba count buf s = Ok (rc, buf', s') ∧ disk_ok s' total ds ∧
    view_of (env s') = view_of (env s) ∧ length buf' = length buf ∧
    (rc = 0 → ∃ b, sectors (v_content (view_of (env s))) (u32 lba) (Z.to_nat count) = Some b ∧ buf' = b ++ drop (length b) buf) ∧
    (v_healthy (view_of (env s)) = true → is_Some (sectors (v_content (view_of (env s))) (u32 lba) (Z.to_nat count)) → rc = 0).
Proof.
  intros Hok Hc Hl. pose proof Hok as (d&l&Hd&Hr&_). destruct env_pointers as (_&Hrf&_).
  destruct (call_read_ok (env s) (u32 lba) count buf Hc Hl) as (rc&buf'&e&He&Hv&Hlen&H0&Hh).
  exists rc, buf', (with_env s e). unfold dev_read, dev_at. rewrite Hd. cbn [of_option mbind result_bind].
  rewrite Hr, (proj2 (Z.eqb_neq _ _) Hrf), He. split; [done|]. split; [|done].
  apply disk_ok_env; [done|]. by rewrite Hv.
Qed.
End Parse.
