(* ===== verification/DiskParse.v ===== *)
(** The parsers find the tables of the disk.

    [mbr_parse] and [gpt_parse] append to the list of the device exactly the
    partitions that the specification reads off the sectors, give back every
    buffer, and leave the list alone when a checksum, a signature or a read
    fails. *)

From S2P Require Import Prelude Mem Crc32 Bytes Disk DiskSpec.

Lemma sectors_one C lba : sectors C lba 1 = C !! lba.
Proof. simpl. destruct (C !! lba); [by rewrite app_nil_r|done]. Qed.

Lemma seqZ_snoc n : 0 <= n → seqZ 0 (n + 1) = seqZ 0 n ++ [n].
Proof. intros. rewrite seqZ_app by lia. done. Qed.

Lemma sectors_wf C lba n b : map_Forall (λ _ b, sector_wf b) C → sectors C lba n = Some b →
  length b = (512 * n)%nat ∧ Forall is_byte b.
Proof.
  intros HC. revert lba b. induction n as [|n IH]; intros lba b; simpl; [by intros [= <-]|].
  destruct (C !! lba) as [x|] eqn:Ex; [|done]. destruct (sectors C (lba + 1) n) as [y|] eqn:Ey; [|done].
  intros [= <-]. destruct (HC _ _ Ex) as [Hx Hbx]. destruct (IH _ _ Ey) as [Hy Hby].
  rewrite length_app, Hx, Hy. split; [lia|]. by apply Forall_app.
Qed.

(** The pages of a buffer hold the sectors its size needs. *)
Lemma page_round_sectors n : 0 < n → 0 <= 512 * ((n + 511) / 512) <= page_round n ∧ n <= 512 * ((n + 511) / 512).
Proof.
  intros. unfold page_round. pose proof (Z.div_mod (n + 511) 512 ltac:(lia)). pose proof (Z.mod_pos_bound (n + 511) 512 ltac:(lia)).
  pose proof (Z.div_mod (n + 4095) 4096 ltac:(lia)). pose proof (Z.mod_pos_bound (n + 4095) 4096 ltac:(lia)). lia.
Qed.

Lemma seqZ_split n i : 0 <= i < n → seqZ 0 n = seqZ 0 i ++ [i] ++ seqZ (i + 1) (n - i - 1).
Proof.
  intros. replace n with (i + (1 + (n - i - 1))) at 1 by lia. rewrite seqZ_app by lia. f_equal.
  rewrite seqZ_app by lia. simpl. repeat (f_equal; try lia).
Qed.

Section Parse.
Context {E : Type} `{!DiskEnv E, !DiskEnvLaws E}.

(** ** Master boot records *)

Section Mbr.
Variables h r : bytes.
Hypothesis Hh : length h = 512%nat.

Lemma mbr_get n off : 0 <= off → 0 <= n → off + n <= 512 → get_le n (h ++ r) off = Ok (field n h off).
Proof.
  intros. rewrite get_le_field by (rewrite ?length_app; lia). by rewrite field_app by lia.
Qed.

Lemma mbr_protective_ok :
  mbr_protective (h ++ r) = Ok (existsb (λ i, field 1 h (446 + 16 * i + 4) =? 0xEE) (seqZ 0 4)).
Proof.
  unfold mbr_protective, for_range, mbr_type. change (seqZ 0 4) with [0; 1; 2; 3]. cbn [foldl existsb mbind result_bind].
  rewrite !mbr_get by lia. cbn [mbind result_bind mret result_ret].
  by repeat (destruct (_ =? 0xEE); cbn [mbind result_bind mret result_ret orb]).
Qed.

(** One entry, [k] clean nodes being left for the rest. *)
Lemma mbr_entry_ok (s : disks E) total ds i k :
  disk_ok s total ds → 0 <= i < 4 →
  v_clean (view_of (env s)) = (length (omap (mbr_desc h) [i]) + k)%nat →
  ∃ s', mbr_entry the_dev (h ++ r) i s = Ok s' ∧ disk_ok s' total (ds ++ omap (mbr_desc h) [i]) ∧
    quiet (view_of (env s)) (view_of (env s')) ∧ v_clean (view_of (env s')) = k.
Proof.
  intros Hok Hi Hn. unfold mbr_entry, mbr_type, mbr_lba_start, mbr_lba_length.
  rewrite !mbr_get by lia. cbn [mbind result_bind]. revert Hn. simpl. unfold mbr_desc.
  destruct (_ =? 0) eqn:Et; simpl; intros Hn.
  - exists s. rewrite app_nil_r. done.
  - destruct (add_partition_ok s total ds k (λ p, mkPart (field 4 h (446 + 16 * i + 8)) (field 4 h (446 + 16 * i + 12))
      (partition_id p) (field 1 h (446 + 16 * i + 4)) (guid p) the_dev false (next p)) (mkDesc (field 4 h (446 + 16 * i + 8)) (field 4 h (446 + 16 * i + 12)) (field 1 h (446 + 16 * i + 4)) None) Hok Hn
      (λ p, conj eq_refl (conj eq_refl eq_refl))) as (a&p&s1&s'&E1&E2&H).
    rewrite E1. cbn [mbind result_bind]. exists s'. split; [exact E2|exact H].
Qed.

Lemma mbr_entries_ok (s : disks E) total ds :
  disk_ok s total ds → (length (omap (mbr_desc h) (seqZ 0 4)) <= v_clean (view_of (env s)))%nat →
  ∃ s', for_range 4 (mbr_entry the_dev (h ++ r)) s = Ok s' ∧ disk_ok s' total (ds ++ omap (mbr_desc h) (seqZ 0 4)) ∧
    quiet (view_of (env s)) (view_of (env s')) ∧
    (v_clean (view_of (env s')) + length (omap (mbr_desc h) (seqZ 0 4)) = v_clean (view_of (env s)))%nat.
Proof.
  intros Hok Hn.
  apply (for_range_ok (λ i s', disk_ok s' total (ds ++ omap (mbr_desc h) (seqZ 0 i)) ∧
    quiet (view_of (env s)) (view_of (env s')) ∧
    (v_clean (view_of (env s')) + length (omap (mbr_desc h) (seqZ 0 i)) = v_clean (view_of (env s)))%nat) 4 (mbr_entry the_dev (h ++ r)) s);
    [lia|simpl; rewrite app_nil_r, Nat.add_0_r; done|].
  intros i s1 Hi (H1&H2&H3). rewrite (seqZ_split 4 i Hi), !omap_app, !length_app in Hn.
  destruct (mbr_entry_ok s1 total _ i (v_clean (view_of (env s1)) - length (omap (mbr_desc h) [i])) H1 Hi) as (s'&Es&H1'&H2'&H3'); [lia|].
  exists s'. split; [done|]. rewrite seqZ_snoc, omap_app, app_assoc, length_app by lia. split; [done|].
  split; [by eapply quiet_trans|lia].
Qed.
End Mbr.

(** The buffer [a] goes back: the environment is as it was before it was taken. *)
Lemma give_back (s s1 s2 : disks E) total ds a n :
  view_of (env s1) = set_dma (view_of (env s)) (<[a := n]> (v_live (view_of (env s)))) (v_room (view_of (env s)) - n) →
  v_live (view_of (env s)) !! a = None → quiet (view_of (env s1)) (view_of (env s2)) → disk_ok s2 total ds →
  ∃ s3, dma_free a s2 = Ok s3 ∧ disk_ok s3 total ds ∧ quiet (view_of (env s)) (view_of (env s3)) ∧
    v_clean (view_of (env s3)) = v_clean (view_of (env s2)).
Proof.
  intros Hv Ha (Hc&Hh&Hl&Hr) Hok. rewrite Hv in Hc, Hh, Hl, Hr. simpl in Hc, Hh, Hl, Hr.
  destruct (dma_free_ok s2 total ds a n (v_live (view_of (env s))) Hok Hl Ha) as (s3&E3&Hok3&Hv3).
  exists s3. split; [done|]. split; [done|]. unfold quiet. rewrite Hv3. simpl. rewrite Hr.
  split; [|done]. split; [done|]. split; [done|]. split; [done|lia].
Qed.

Lemma mbr_parse_ok (s : disks E) total ds :
  disk_ok s total ds → page_round 512 <= v_room (view_of (env s)) →
  (length (mbr_scan (v_content (view_of (env s)))).2 <= v_clean (view_of (env s)))%nat →
  ∃ rc found s', mbr_parse the_dev s = Ok (rc, s') ∧ disk_ok s' total (ds ++ found) ∧
    quiet (view_of (env s)) (view_of (env s')) ∧
    ((rc, found) = (1, []) ∨ (rc, found) = mbr_scan (v_content (view_of (env s)))) ∧
    (v_healthy (view_of (env s)) = true → (rc, found) = mbr_scan (v_content (view_of (env s)))) ∧
    (v_clean (view_of (env s')) + length found = v_clean (view_of (env s)))%nat.
Proof.
  intros Hok Hroom Hclean. unfold mbr_parse.
  destruct (dma_alloc_ok s total ds 512 Hok ltac:(lia) Hroom) as (a&buf&s1&E1&Hok1&Ha&Hlen&_&Hv1).
  rewrite E1. cbn [mbind result_bind]. change (page_round 512) with 4096 in *.
  destruct (dev_read_ok s1 total ds 0 1 buf Hok1) as (rc&buf'&s2&E2&Hok2&Hv2&Hlen'&Hr0&Hrh); [lia|lia|].
  rewrite E2. cbn [mbind result_bind]. rewrite Hv1 in Hr0, Hrh. simpl v_content in Hr0, Hrh. simpl v_healthy in Hrh.
  change (u32 0) with 0 in *. change (Z.to_nat 1) with 1%nat in *. rewrite sectors_one in Hr0, Hrh.
  set (C := v_content (view_of (env s))) in *.
  assert (∀ (s3 : disks E) (rc' : Z) found, disk_ok s3 total (ds ++ found) → quiet (view_of (env s2)) (view_of (env s3)) →
    (v_clean (view_of (env s3)) + length found = v_clean (view_of (env s)))%nat →
    ((rc', found) = (1, []) ∨ (rc', found) = mbr_scan C) → (v_healthy (view_of (env s)) = true → (rc', found) = mbr_scan C) →
    ∃ rc0 found s', (s4 ← dma_free a s3; mret (rc', s4)) = Ok (rc0, s') ∧ disk_ok s' total (ds ++ found) ∧
      quiet (view_of (env s)) (view_of (env s')) ∧ ((rc0, found) = (1, []) ∨ (rc0, found) = mbr_scan C) ∧
      (v_healthy (view_of (env s)) = true → (rc0, found) = mbr_scan C) ∧
      (v_clean (view_of (env s')) + length found = v_clean (view_of (env s)))%nat) as Hback.
  { intros s3 rc' found Hok3 Hq Hc3 Hf1 Hf2. rewrite Hv2 in Hq.
    destruct (give_back s s1 s3 total _ a 4096 Hv1 Ha Hq Hok3) as (s4&->&H4&Hq4&Hc4).
    exists rc', found, s4. rewrite Hc4. done. }
  assert (v_clean (view_of (env s2)) + 0 = v_clean (view_of (env s)))%nat as Hc2 by (rewrite Hv2, Hv1; simpl; lia).
  pose proof Hok2 as Hnil. rewrite <- (app_nil_r ds) in Hnil.
  destruct (Z.eqb_spec rc 0) as [->|Hrc]; cbn [negb].
  2:{ apply (Hback s2 1 []); [done|done|done|by left|].
      intros Hh. unfold mbr_scan. destruct (C !! 0) eqn:E0; [|done]. destruct Hrc. by apply Hrh. }
  destruct (Hr0 eq_refl) as (h&Eh&->). destruct (content_wf _ _ _ Eh) as [Hhl _].
  rewrite mbr_get by (done || lia). cbn [mbind result_bind].
  assert (mbr_scan C = if negb (field 2 h 510 =? 0xAA55) then (1, [])
      else if existsb (λ i, field 1 h (446 + 16 * i + 4) =? 0xEE) (seqZ 0 4) then (2, [])
      else (0, omap (mbr_desc h) (seqZ 0 4))) as Hscan by (unfold mbr_scan; by rewrite Eh).
  rewrite Hscan in *. destruct (negb _); [by apply (Hback s2 1 []); [..|left|]|].
  rewrite mbr_protective_ok by done. cbn [mbind result_bind].
  destruct (existsb _ _); [by apply (Hback s2 2 []); [..|right|]|]. cbn [snd] in Hclean.
  destruct (mbr_entries_ok h (drop (length h) buf) Hhl s2 total ds Hok2) as (s3&E3&Hok3&Hq3&Hc3); [lia|].
  rewrite E3. cbn [mbind result_bind]. apply (Hback s3 0 (omap (mbr_desc h) (seqZ 0 4))); [done|done|lia|by right|done].
Qed.

(** ** GUID partition tables *)

Section Gpt.
Variables arr r : bytes.
Variable esz : Z.
Hypothesis Hesz : 48 <= esz.

Lemma gpt_entry_ok (s : disks E) total ds i k :
  disk_ok s total ds → 0 <= i → (i + 1) * esz <= Z.of_nat (length arr) → (i + 1) * esz < 2 ^ 32 →
  v_clean (view_of (env s)) = (length (omap (gpt_desc arr esz) [i]) + k)%nat →
  ∃ s', gpt_entry the_dev (arr ++ r) esz i (false, s) = Ok (false, s') ∧
    disk_ok s' total (ds ++ omap (gpt_desc arr esz) [i]) ∧
    quiet (view_of (env s)) (view_of (env s')) ∧ v_clean (view_of (env s')) = k.
Proof.
  intros Hok Hi Hl Hw Hn. unfold gpt_entry. rewrite (u32_id (i * esz)) by nia. cbn zeta.
  rewrite slice_sub by (rewrite ?length_app; nia). cbn [mbind result_bind].
  rewrite !get_le_field by (rewrite ?length_app; nia). rewrite sub_app, !field_app by nia.
  revert Hn. simpl. unfold gpt_desc. cbn zeta. destruct (bytes_eqb _ _); simpl; intros Hn.
  - exists s. rewrite app_nil_r. done.
  - destruct (add_partition_ok s total ds k (λ p, mkPart (field 8 arr (i * esz + 32))
      (u64 (field 8 arr (i * esz + 40) - field 8 arr (i * esz + 32) + 1)) i 0 (sub arr (i * esz) 16) the_dev true (next p))
      (mkDesc (field 8 arr (i * esz + 32)) (u64 (field 8 arr (i * esz + 40) - field 8 arr (i * esz + 32) + 1)) 0
        (Some (i, sub arr (i * esz) 16))) Hok Hn (λ p, conj eq_refl (conj eq_refl eq_refl))) as (a&p&s1&s'&E1&E2&H).
    rewrite E1. cbn [mbind result_bind]. rewrite E2. exists s'. split; [done|exact H].
Qed.

Lemma gpt_entries_ok (s : disks E) total ds num :
  disk_ok s total ds → 0 <= num → num * esz <= Z.of_nat (length arr) → num * esz < 2 ^ 32 →
  (length (omap (gpt_desc arr esz) (seqZ 0 num)) <= v_clean (view_of (env s)))%nat →
  ∃ s', for_range num (gpt_entry the_dev (arr ++ r) esz) (false, s) = Ok (false, s') ∧
    disk_ok s' total (ds ++ omap (gpt_desc arr esz) (seqZ 0 num)) ∧
    quiet (view_of (env s)) (view_of (env s')) ∧
    (v_clean (view_of (env s')) + length (omap (gpt_desc arr esz) (seqZ 0 num)) = v_clean (view_of (env s)))%nat.
Proof.
  intros Hok H0 Hl Hw Hn.
  destruct (for_range_ok (λ i st, st.1 = false ∧ disk_ok st.2 total (ds ++ omap (gpt_desc arr esz) (seqZ 0 i)) ∧
    quiet (view_of (env s)) (view_of (env st.2)) ∧
    (v_clean (view_of (env st.2)) + length (omap (gpt_desc arr esz) (seqZ 0 i)) = v_clean (view_of (env s)))%nat)
    num (gpt_entry the_dev (arr ++ r) esz) (false, s)) as ([stop s']&E1&H1&H2); [done|simpl; rewrite app_nil_r, Nat.add_0_r; done| |].
  2:{ exists s'. rewrite E1. simpl in H1. subst stop. split; [done|exact H2]. }
  intros i [stop s1] Hi (Hs&H1&H2&H3). simpl in Hs, H1, H2, H3. subst stop.
  rewrite (seqZ_split num i Hi), !omap_app, !length_app in Hn.
  destruct (gpt_entry_ok s1 total _ i (v_clean (view_of (env s1)) - length (omap (gpt_desc arr esz) [i])) H1) as (s'&Es&H1'&H2'&H3'); [lia|nia|nia|lia|].
  exists (false, s'). split; [done|]. cbn [fst snd]. rewrite seqZ_snoc, omap_app, app_assoc, length_app by lia.
  split; [done|]. split; [done|]. split; [by eapply quiet_trans|lia].
Qed.
End Gpt.

(** The part of [gpt_scan] behind the header check. *)
Definition array_scan (C : gmap Z bytes) (h : bytes) : list pdesc :=
  match sectors C (field 8 h 72) (Z.to_nat ((h_array_size h + 511) / 512)) with
  | None => []
  | Some arr =>
      if crc32 (sub arr 0 (h_array_size h)) =? field 4 h 88
      then omap (gpt_desc arr (h_size h)) (seqZ 0 (h_num h)) else []
  end.

Lemma gpt_parse_array_ok (s : disks E) total ds h r :
  disk_ok s total ds → sector_wf h →
  0 < h_array_size h → h_array_size h + 511 < 2 ^ 32 → 48 <= h_size h → field 8 h 72 < 2 ^ 32 →
  page_round (h_array_size h) <= v_room (view_of (env s)) →
  (length (array_scan (v_content (view_of (env s))) h) <= v_clean (view_of (env s)))%nat →
  ∃ found s', gpt_parse_array the_dev (h ++ r) s = Ok s' ∧ disk_ok s' total (ds ++ found) ∧
    quiet (view_of (env s)) (view_of (env s')) ∧
    (found = [] ∨ found = array_scan (v_content (view_of (env s))) h) ∧
    (v_healthy (view_of (env s)) = true → found = array_scan (v_content (view_of (env s))) h).
Proof.
  intros Hok [Hh Hhb] H0 Hw Hesz Hlba Hroom Hclean.
  unfold gpt_parse_array, num_partition_entries, sizeof_partition_entry, partition_entry_lba, partition_entry_array_crc32.
  rewrite !(mbr_get h r Hh) by lia. cbn [mbind result_bind].
  assert (0 <= h_num h < 2 ^ 32) as Hnum by (apply (field_range 4); [done|lia]).
  change (field 4 h 80) with (h_num h). change (field 4 h 84) with (h_size h). cbn zeta.
  change (h_num h * h_size h) with (h_array_size h). rewrite (u32_id (h_array_size h)) by lia.
  rewrite (u32_id (h_array_size h + 511)) by lia.
  destruct (page_round_sectors (h_array_size h) H0) as [Hpr Hsz].
  set (n := (h_array_size h + 511) / 512) in *. set (C := v_content (view_of (env s))) in *.
  destruct (dma_alloc_ok s total ds (h_array_size h) Hok H0 Hroom) as (a&buf&s1&E1&Hok1&Ha&Hlen&_&Hv1).
  rewrite E1. cbn [of_option mbind result_bind].
  destruct (dev_read_ok s1 total ds (field 8 h 72) n buf Hok1) as (rc&buf'&s2&E2&Hok2&Hv2&Hlen'&Hr0&Hrh); [lia|lia|].
  rewrite E2. cbn [mbind result_bind]. rewrite Hv1 in Hr0, Hrh. simpl v_content in Hr0, Hrh. simpl v_healthy in Hrh. fold C in Hr0, Hrh.
  rewrite u32_id in Hr0, Hrh by (split; [apply (field_range 8); [done|lia]|done]).
  assert (∀ (s3 : disks E) found, disk_ok s3 total (ds ++ found) → quiet (view_of (env s2)) (view_of (env s3)) →
    (found = [] ∨ found = array_scan C h) → (v_healthy (view_of (env s)) = true → found = array_scan C h) →
    ∃ found s', dma_free a s3 = Ok s' ∧ disk_ok s' total (ds ++ found) ∧ quiet (view_of (env s)) (view_of (env s')) ∧
      (found = [] ∨ found = array_scan C h) ∧ (v_healthy (view_of (env s)) = true → found = array_scan C h)) as Hback.
  { intros s3 found Hok3 Hq Hf1 Hf2. rewrite Hv2 in Hq.
    destruct (give_back s s1 s3 total _ a _ Hv1 Ha Hq Hok3) as (s4&E4&H4&Hq4&_). by exists found, s4. }
  pose proof Hok2 as Hnil. rewrite <- (app_nil_r ds) in Hnil.
  destruct (Z.eqb_spec rc 0) as [->|Hrc]; cbn [negb].
  2:{ apply (Hback s2 []); [done|done|by left|]. intros Hhl. unfold array_scan. fold n.
      destruct (sectors C _ _) eqn:Es; [|done]. destruct Hrc. by apply Hrh. }
  destruct (Hr0 eq_refl) as (arr&Earr&->). destruct (sectors_wf _ _ _ _ (content_wf _) Earr) as [Hal _].
  assert (array_scan C h = if crc32 (sub arr 0 (h_array_size h)) =? field 4 h 88
      then omap (gpt_desc arr (h_size h)) (seqZ 0 (h_num h)) else []) as Hscan by (unfold array_scan; fold n; by rewrite Earr).
  rewrite Hscan in *. unfold buf_crc32. rewrite slice_sub by (rewrite ?length_app; lia). cbn [mbind result_bind mret result_ret].
  rewrite sub_app by lia. destruct (crc32 _ =? _); cbn [negb].
  - destruct (gpt_entries_ok arr (drop (length arr) buf) (h_size h) Hesz s2 total ds (h_num h) Hok2) as (s3&E3&Hok3&Hq3&_);
      [lia|unfold h_array_size in *; lia|unfold h_array_size in *; lia|by rewrite Hv2, Hv1|].
    rewrite E3. cbn [mbind result_bind]. apply (Hback s3 (omap (gpt_desc arr (h_size h)) (seqZ 0 (h_num h)))); [done|done|by right|done].
  - pose proof (log_view "ERROR" ("[ GPT  ] Partition Entry Array CRC32 Mismatch!" +:+ nl) [] s2) as Hlv.
    apply (Hback _ []); [|by rewrite Hlv|by left|done]. apply disk_ok_env; [done|]. apply f_equal with (f := v_owned) in Hlv. exact Hlv.
Qed.
Section Header.
Variables h r : bytes.
Hypothesis Hh : sector_wf h.

Lemma zero_crc_length : length (zero_crc h) = 512%nat.
Proof. destruct Hh. unfold zero_crc. rewrite !length_app, length_take, length_drop, le_length. lia. Qed.

Lemma zero_crc_put : put (h ++ r) 16 (le 4 0) = Ok (zero_crc h ++ r).
Proof.
  destruct Hh. rewrite put_splice by (rewrite ?length_app, ?le_length; lia). unfold zero_crc.
  rewrite le_length, take_app_le, drop_app_le by lia. by rewrite <- !app_assoc.
Qed.

Lemma zero_crc_size : get_le 4 (zero_crc h ++ r) 12 = Ok (field 4 h 12).
Proof.
  pose proof zero_crc_length. rewrite get_le_field by (rewrite ?length_app; lia). rewrite field_app by lia. f_equal. unfold field. f_equal.
  unfold zero_crc. destruct Hh. rewrite sub_app by (rewrite ?length_take; lia). by apply sub_take.
Qed.

Lemma zero_crc_restore : put (zero_crc h ++ r) 16 (le 4 (field 4 h 16)) = Ok (h ++ r).
Proof.
  pose proof zero_crc_length. destruct Hh. rewrite put_splice by (rewrite ?length_app, ?le_length; lia). rewrite le_length.
  rewrite take_app_le, drop_app_le by lia. rewrite !app_assoc. f_equal. f_equal. rewrite <- app_assoc. unfold zero_crc.
  rewrite take_app_le, take_take by (rewrite ?length_take; lia).
  rewrite !drop_app_ge by (rewrite ?length_take, ?le_length; lia). rewrite length_take, le_length.
  replace (_ - _ - _)%nat with 0%nat by lia. rewrite drop_0.
  change 4%nat with (Z.to_nat 4). rewrite le_field by (done || lia). apply (splice_id h 16 4); lia.
Qed.
End Header.

Lemma gpt_scan_header C h : C !! 1 = Some h → gpt_scan C = if header_ok h then array_scan C h else [].
Proof. intros E1. unfold gpt_scan. by rewrite E1. Qed.

Lemma gpt_parse_ok (s : disks E) total ds :
  disk_ok s total ds → gpt_sane (v_content (view_of (env s))) (v_room (view_of (env s))) →
  page_round 512 <= v_room (view_of (env s)) →
  (length (gpt_scan (v_content (view_of (env s)))) <= v_clean (view_of (env s)))%nat →
  ∃ found s', gpt_parse the_dev s = Ok s' ∧ disk_ok s' total (ds ++ found) ∧
    quiet (view_of (env s)) (view_of (env s')) ∧
    (found = [] ∨ found = gpt_scan (v_content (view_of (env s)))) ∧
    (v_healthy (view_of (env s)) = true → found = gpt_scan (v_content (view_of (env s)))).
Proof.
  intros Hok Hsane Hroom Hclean. unfold gpt_parse.
  destruct (dma_alloc_ok s total ds 512 Hok ltac:(lia) Hroom) as (a&buf&s1&E1&Hok1&Ha&Hlen&_&Hv1).
  rewrite E1. cbn [of_option mbind result_bind]. change (page_round 512) with 4096 in *.
  destruct (dev_read_ok s1 total ds 1 1 buf Hok1) as (rc&buf'&s2&E2&Hok2&Hv2&Hlen'&Hr0&Hrh); [lia|lia|].
  rewrite E2. cbn [mbind result_bind]. rewrite Hv1 in Hr0, Hrh. simpl v_content in Hr0, Hrh. simpl v_healthy in Hrh.
  change (u32 1) with 1 in *. change (Z.to_nat 1) with 1%nat in *. rewrite sectors_one in Hr0, Hrh.
  set (C := v_content (view_of (env s))) in *.
  assert (∀ (s3 : disks E) found, disk_ok s3 total (ds ++ found) → quiet (view_of (env s2)) (view_of (env s3)) →
    (found = [] ∨ found = gpt_scan C) → (v_healthy (view_of (env s)) = true → found = gpt_scan C) →
    ∃ found s', dma_free a s3 = Ok s' ∧ disk_ok s' total (ds ++ found) ∧ quiet (view_of (env s)) (view_of (env s')) ∧
      (found = [] ∨ found = gpt_scan C) ∧ (v_healthy (view_of (env s)) = true → found = gpt_scan C)) as Hback.
  { intros s3 found Hok3 Hq Hf1 Hf2. rewrite Hv2 in Hq.
    destruct (give_back s s1 s3 total _ a _ Hv1 Ha Hq Hok3) as (s4&E4&H4&Hq4&_). by exists found, s4. }
  pose proof Hok2 as Hnil. rewrite <- (app_nil_r ds) in Hnil.
  destruct (Z.eqb_spec rc 0) as [->|Hrc]; cbn [negb].
  2:{ apply (Hback s2 []); [done|done|by left|]. intros Hhl. unfold gpt_scan.
      destruct (C !! 1) eqn:Es; [|done]. destruct Hrc. by apply Hrh. }
  destruct (Hr0 eq_refl) as (h&Eh&->). pose proof (content_wf _ _ _ Eh) as Hwf. pose proof Hwf as [Hhl Hhb].
  destruct (Hsane h Eh) as [Hsz Hs]. rewrite (gpt_scan_header C h Eh) in *. unfold header_ok in *.
  pose proof (field_range 4 h 12 Hhb ltac:(lia)) as Hszr.
  rewrite slice_sub by (rewrite ?length_app; lia). rewrite sub_app by lia. cbn [mbind result_bind].
  destruct (bytes_eqb _ _); cbn [negb andb] in *; [|by apply (Hback s2 []); [..|left|]].
  unfold header_crc32, header_size. rewrite mbr_get by (done || lia). cbn [mbind result_bind].
  rewrite zero_crc_put by done. cbn [mbind result_bind]. rewrite zero_crc_size by done. cbn [mbind result_bind].
  unfold buf_crc32. rewrite slice_sub by (rewrite ?length_app, ?zero_crc_length; (done || lia)).
  rewrite sub_app by (rewrite ?zero_crc_length; (done || lia)). cbn [mbind result_bind mret result_ret].
  destruct (crc32 _ =? _); cbn [negb].
  2:{ pose proof (log_view "ERROR" ("[ GPT  ] Header CRC32 Mismatch! aborting..." +:+ nl) [] s2) as Hlv.
      apply (Hback _ []); [|by rewrite Hlv|by left|done]. apply disk_ok_env; [done|]. apply f_equal with (f := v_owned) in Hlv. exact Hlv. }
  rewrite zero_crc_restore by done. cbn [mbind result_bind]. destruct (Hs eq_refl) as (H0&Hw&Hesz&Hlba&Hpr).
  destruct (gpt_parse_array_ok s2 total ds h (drop (length h) buf) Hok2 Hwf H0 Hw Hesz Hlba) as (found&s3&E3&Hok3&Hq3&Hf1&Hf2).
  { rewrite Hv2, Hv1. simpl. change (page_round 512) with 4096 in Hpr. lia. }
  { rewrite Hv2, Hv1. exact Hclean. }
  rewrite E3. cbn [mbind result_bind]. apply (Hback s3 found); [done|done| |].
  - rewrite Hv2, Hv1 in Hf1. exact Hf1.
  - rewrite Hv2, Hv1 in Hf2. exact Hf2.
Qed.
End Parse.
