(* ===== verification/DiskInstall.v ===== *)
(** The installers write what the parsers find.

    [gpt_install] and [mbr_install] write tables that pass the checks of the
    parsers, and the partition the boot path then lists is the one that was
    installed. *)

From S2P Require Import Prelude Mem Crc32 Bytes Disk DiskSpec DiskParse.

(** * Stores *)

(** [memset] of a range is a store. *)
Lemma fill_put b off c n : fill b off c n = put b off (replicate (Z.to_nat n) (u8 c)).
Proof. done. Qed.

Lemma fill_bytes n c : Forall is_byte (replicate n (u8 c)).
Proof. apply Forall_replicate. apply u8_range. Qed.

Lemma signature_bytes : Forall is_byte GPT_SIGNATURE.
Proof. repeat (apply Forall_cons; split; [unfold is_byte; lia|]). by apply Forall_nil. Qed.

Ltac bytes :=
  first [ assumption | apply le_bytes | apply fill_bytes | apply signature_bytes
        | repeat (apply Forall_cons; split; [unfold is_byte; lia|]); by apply Forall_nil ].

(** Lengths of stored values. *)
Ltac sizes := rewrite ?le_length, ?length_replicate; simpl length; lia.

(** Run the next store and carry what the buffer is known to hold over it. *)
Ltac put_step :=
  match goal with
  | |- context [ put ?b ?off ?v ] =>
      let b' := fresh "b" in let Ep := fresh "Ep" in let Hlen := fresh "Hlen" in
      let Hnew := fresh "Hnew" in let Hold := fresh "Hold" in let Hby := fresh "Hby" in
      destruct (put_ok b off v) as (b'&Ep&Hlen&Hnew&Hold&Hby); [lia|sizes|];
      rewrite Ep; clear Ep; cbn [mbind result_bind mret result_ret];
      repeat match goal with
      | H : holds b ?o ?w |- _ => first [ apply Hold in H; [|sizes] | clear H ]
      end;
      match goal with
      | H : Forall is_byte b |- _ => specialize (Hby H ltac:(bytes))
      end;
      clear Hold
  end.

Lemma holds_first b n o w : holds b o w → o + Z.of_nat (length w) <= Z.of_nat n → (n <= length b)%nat → holds (take n b) o w.
Proof.
  intros H Hn Hl. apply (holds_take b _ n); [|done|done]. by rewrite take_take, Nat.min_id.
Qed.

Section Seal.
Variable b : bytes.
Hypothesis Hlen : (512 <= length b)%nat.
Hypothesis Hb : Forall is_byte b.

(** After [header_seal] the checksum is right. *)
Lemma header_seal_ok : ∃ b', header_seal b = Ok b' ∧ length b' = length b ∧ Forall is_byte b' ∧
  (∀ o w, holds b o w → o + Z.of_nat (length w) <= 16 ∨ 20 <= o → holds b' o w) ∧
  crc32 (sub (zero_crc (take 512 b')) 0 92) = field 4 (take 512 b') 16.
Proof.
  unfold header_seal.
  destruct (put_ok b 16 (le 4 0)) as (b1&E1&L1&H1&F1&B1); [lia|rewrite le_length; lia|]. rewrite E1. cbn [mbind result_bind].
  specialize (B1 Hb (le_bytes _ _)). unfold buf_crc32. rewrite slice_sub by lia. cbn [mbind result_bind mret result_ret].
  set (c := crc32 (sub b1 0 92)).
  assert (0 <= c < 2 ^ 32) as Hc by (apply crc32_range, sub_bytes, B1).
  destruct (put_ok b1 16 (le 4 c)) as (b2&E2&L2&H2&F2&B2); [lia|rewrite ?le_length; lia|]. specialize (B2 B1 (le_bytes _ _)).
  exists b2. split; [exact E2|]. split; [congruence|]. split; [done|]. split.
  { intros o w Hw Hd. apply F2; [apply F1; [done|]|]; rewrite le_length; lia. }
  rewrite (field_holds 4 _ 16 c); [|apply holds_first; [exact H2|rewrite le_length; lia|lia]|lia|lia].
  unfold c. f_equal.
  pose proof (put_back b 16 (le 4 0) (le 4 c) b1 b2 eq_refl E1 E2) as E3.
  rewrite <- (take_drop 512 b2) in E3. rewrite zero_crc_put in E3.
  2:{ split; [rewrite length_take; lia|by apply Forall_take]. }
  injection E3 as <-. symmetry. apply sub_app; [lia|lia|]. rewrite zero_crc_length; [lia|].
  split; [rewrite length_take; lia|by apply Forall_take].
Qed.
End Seal.

Section Headers.
Variables total crc : Z.

(** What the parser needs of the primary header. *)
Definition primary (h : bytes) : Prop :=
  holds h 0 GPT_SIGNATURE ∧ holds h 12 (le 4 92) ∧ holds h 72 (le 8 2) ∧ holds h 80 (le 4 128) ∧
  holds h 84 (le 4 128) ∧ holds h 88 (le 4 crc).

Lemma install_header_ok b : (512 <= length b)%nat → Forall is_byte b →
  ∃ b', install_header total crc b = Ok b' ∧ length b' = length b ∧ Forall is_byte b' ∧ primary b' ∧
    crc32 (sub (zero_crc (take 512 b')) 0 92) = field 4 (take 512 b') 16.
Proof.
  intros Hl Hb. unfold install_header, fill. repeat put_step.
  match goal with |- context [ header_seal ?b ] => destruct (header_seal_ok b) as (b'&E&L&B&F&Hc); [lia|done|] end.
  exists b'. split; [exact E|]. split; [congruence|]. split; [done|]. split; [|done].
  split_and!; apply F; try assumption; sizes.
Qed.

Lemma backup_header_ok b : (512 <= length b)%nat → Forall is_byte b →
  ∃ b', backup_header total b = Ok b' ∧ length b' = length b ∧ Forall is_byte b'.
Proof.
  intros Hl Hb. unfold backup_header. repeat put_step.
  match goal with |- context [ header_seal ?b ] => destruct (header_seal_ok b) as (b'&E&L&B&_); [lia|done|] end.
  exists b'. split; [exact E|]. split; [congruence|done].
Qed.

(** What the parser needs of the protective boot record. *)
Lemma install_mbr_ok b : (512 <= length b)%nat → Forall is_byte b →
  ∃ b', install_mbr total b = Ok b' ∧ length b' = length b ∧ Forall is_byte b' ∧
    holds b' 450 [0xEE] ∧ holds b' 510 [0x55; 0xAA].
Proof.
  intros Hl Hb. unfold install_mbr, fill. repeat put_step. eexists. split; [done|].
  split; [congruence|]. split; [done|]. split; [done|]. by apply (holds_app _ _ [0x55] [0xAA]).
Qed.

(** The name goes to the last 72 bytes of the entry. *)
Lemma put_name_ok name b : (128 <= length b)%nat → Forall is_byte b →
  ∃ b', put_name name b = Ok b' ∧ length b' = length b ∧ Forall is_byte b' ∧
    ∀ o w, holds b o w → o + Z.of_nat (length w) <= 56 ∨ 128 <= o → holds b' o w.
Proof.
  intros Hl Hb. unfold put_name.
  assert (length (imap pair (take 36 name)) <= 36)%nat as Hn by (rewrite length_imap, length_take; lia).
  assert (Forall (λ ic : nat * Z, (ic.1 < 36)%nat) (imap pair (take 36 name))) as HF.
  { apply Forall_lookup. intros i [j c] Hi. rewrite list_lookup_imap in Hi.
    destruct (take 36 name !! i) eqn:Ei; [|done]. injection Hi as <- <-. apply lookup_lt_Some in Ei.
    rewrite length_take in Ei. simpl. lia. }
  clear Hn. revert HF b Hl Hb. generalize (imap pair (take 36 name)). intros l HF.
  induction HF as [|[i c] l Hi HF IH]; intros b Hl Hb; cbn [foldl mbind result_bind fst snd] in *.
  { exists b. split; [done|]. split; [done|]. split; done. }
  destruct (put_ok b (56 + 2 * Z.of_nat i) (le 2 (u16 (sint 8 c)))) as (b1&->&L1&_&F1&B1); [lia|rewrite le_length; lia|].
  destruct (IH b1) as (b'&->&L'&B'&F'); [lia|by apply B1; [|apply le_bytes]|].
  exists b'. split; [done|]. split; [lia|]. split; [done|]. intros o w Hw Hd. apply F'; [|done].
  apply F1; [done|]. rewrite le_length. lia.
Qed.

(** The array: one entry and zeros. *)
Lemma install_entry_ok name tg b : 16384 <= Z.of_nat (length b) → Forall is_byte b →
  match tg with Some g => (16 <= length g)%nat ∧ Forall is_byte g | None => True end →
  ∃ b', install_entry total name tg b = Ok b' ∧ length b' = length b ∧ Forall is_byte b' ∧
    holds b' 0 (match tg with Some g => take 16 g | None => GUID_LINUX_FILESYSTEM end) ∧
    holds b' 32 (le 8 2048) ∧ holds b' 40 (le 8 (u64 (total - 34))) ∧
    holds b' 128 (replicate (Z.to_nat 16256) 0).
Proof.
  intros Hl Hb Hg. unfold install_entry, fill.
  assert (∃ g, (match tg with Some g => slice g 0 16 | None => mret GUID_LINUX_FILESYSTEM end) = Ok g ∧
    length g = 16%nat ∧ Forall is_byte g ∧ g = match tg with Some g => take 16 g | None => GUID_LINUX_FILESYSTEM end) as (g&Eg&Lg&Bg&Eg').
  { destruct tg as [g|].
    - destruct Hg as [Lg Bg]. exists (take 16 g). rewrite slice_sub by lia. split; [done|].
      split; [rewrite length_take; lia|]. split; [by apply Forall_take|done].
    - exists GUID_LINUX_FILESYSTEM. split; [done|]. split; [done|]. split; [|done].
      apply Forall_forall. intros x Hx. apply (proj1 (List.Forall_forall (λ x, 0 <= x < 2 ^ 8) GUID_LINUX_FILESYSTEM)).
      2:{ by apply list_elem_of_In. } vm_compute. repeat (constructor; [split; [discriminate|reflexivity]|]). constructor. }
  put_step. apply (holds_replicate _ _ _ _ 128 16256) in Hnew; [|lia..]. rewrite Eg, <- Eg'. cbn [mbind result_bind]. clear Eg.
  repeat put_step.
  match goal with |- context [ put_name _ ?b ] => set (bl := b) in * end.
  assert (∃ b', (match name with Some n => put_name n bl | None => mret bl end) = Ok b' ∧ length b' = length bl ∧
    Forall is_byte b' ∧ ∀ o w, holds bl o w → o + Z.of_nat (length w) <= 56 ∨ 128 <= o → holds b' o w) as (b'&E&L&B&F).
  { destruct name as [n|]; [apply put_name_ok; [lia|done]|]. exists bl. split; [done|]. split; [done|]. split; done. }
  exists b'. rewrite E. split; [done|]. split; [congruence|]. split; [done|].
  split_and!; apply F; try assumption; rewrite ?Lg; sizes.
Qed.
End Headers.

(** * Writes *)

Lemma store_lookup_out C lba n b i : i < lba ∨ lba + Z.of_nat n <= i → store_sectors C lba n b !! i = C !! i.
Proof.
  revert C lba b. induction n as [|n IH]; intros C lba b Hi; simpl; [done|].
  rewrite IH by lia. by rewrite lookup_insert_ne by lia.
Qed.

Lemma store_is_some C lba n b i : is_Some (C !! i) → is_Some (store_sectors C lba n b !! i).
Proof.
  revert C lba b. induction n as [|n IH]; intros C lba b Hi; simpl; [done|]. apply IH.
  destruct (decide (i = lba)) as [->|]; [by rewrite lookup_insert_eq|by rewrite lookup_insert_ne].
Qed.

Lemma store_sectors_same C lba n b : (512 * n <= length b)%nat →
  sectors (store_sectors C lba n b) lba n = Some (take (512 * n) b).
Proof.
  revert C lba b. induction n as [|n IH]; intros C lba b Hl; [done|]. cbn [sectors store_sectors].
  rewrite store_lookup_out, lookup_insert_eq by lia. rewrite IH by (rewrite length_drop; lia).
  f_equal. replace (512 * S n)%nat with (512 + 512 * n)%nat by lia. by rewrite take_take_drop.
Qed.

Lemma sectors_ext C C' lba n : (∀ i, lba <= i < lba + Z.of_nat n → C !! i = C' !! i) → sectors C lba n = sectors C' lba n.
Proof.
  revert lba. induction n as [|n IH]; intros lba H; simpl; [done|]. rewrite H, (IH (lba + 1)) by lia || (intros; apply H; lia). done.
Qed.

Lemma sectors_some C lba n : (∀ i, lba <= i < lba + Z.of_nat n → is_Some (C !! i)) → is_Some (sectors C lba n).
Proof.
  revert lba. induction n as [|n IH]; intros lba H; simpl; [done|].
  destruct (H lba ltac:(lia)) as [x ->]. destruct (IH (lba + 1)) as [y ->]; [intros; apply H; lia|done].
Qed.

Section Install.
Context {E : Type} `{!DiskEnv E, !DiskEnvLaws E}.

(** The drive works and has [total] sectors. *)
Definition good_disk (v : view) (total : Z) : Prop :=
  v_healthy v = true ∧ ∀ i, 0 <= i < total → is_Some (v_content v !! i).

Lemma dev_write_ok (s : disks E) total ds n lba count buf :
  disk_ok s total ds → good_disk (view_of (env s)) n → 0 <= lba → 0 <= count → lba + count <= n → lba < 2 ^ 32 →
  512 * count <= Z.of_nat (length buf) → Forall is_byte buf →
  ∃ rc s', dev_write the_dev lba count buf s = Ok (rc, s') ∧ disk_ok s' total ds ∧ good_disk (view_of (env s')) n ∧
    view_of (env s') = set_content (view_of (env s)) (store_sectors (v_content (view_of (env s))) lba (Z.to_nat count) buf).
Proof.
  intros Hok [Hh Hs] H0 Hc Hle Hlba Hl Hb. pose proof Hok as (d&l&Hd&_&Hw&_). destruct env_pointers as (_&_&Hwf).
  assert (is_Some (sectors (v_content (view_of (env s))) lba (Z.to_nat count))) as Hsome
    by (apply sectors_some; intros; apply Hs; lia).
  destruct (call_write_ok (env s) lba count buf Hh Hc Hl Hb Hsome) as (rc&e&He&Hv).
  exists rc, (with_env s e). unfold dev_write, dev_at. rewrite Hd. cbn [of_option mbind result_bind].
  rewrite Hw, (proj2 (Z.eqb_neq _ _) Hwf), u32_id, He by lia. split; [done|]. split; [|split; [|exact Hv]].
  - apply disk_ok_env; [done|]. by rewrite Hv.
  - cbn [env with_env]. rewrite Hv. split; [done|]. intros i Hi. apply store_is_some, Hs, Hi.
Qed.

(** What [gpt_install] leaves on the disk. *)
Definition gpt_written (C : gmap Z bytes) (total : Z) (g : bytes) : Prop :=
  ∃ m h arr, C !! 0 = Some m ∧ C !! 1 = Some h ∧ sectors C 2 32 = Some arr ∧
    holds m 450 [0xEE] ∧ holds m 510 [0x55; 0xAA] ∧
    primary (crc32 (sub arr 0 16384)) h ∧ crc32 (sub (zero_crc h) 0 92) = field 4 h 16 ∧
    holds arr 0 g ∧ holds arr 32 (le 8 2048) ∧ holds arr 40 (le 8 (u64 (total - 34))) ∧
    holds arr 128 (replicate (Z.to_nat 16256) 0).

Lemma primary_take crc b : (512 <= length b)%nat → primary crc b → primary crc (take 512 b).
Proof.
  intros Hl (H1&H2&H3&H4&H5&H6). split_and!; (apply holds_first; [assumption|sizes|lia]).
Qed.

Definition guid_of (tg : option bytes) : bytes := match tg with Some g => take 16 g | None => GUID_LINUX_FILESYSTEM end.
Definition guid_arg_ok (tg : option bytes) : Prop :=
  match tg with Some g => (16 <= length g)%nat ∧ Forall is_byte g | None => True end.

(** The five writes: nothing later touches an earlier one. *)
Lemma written_content C total m arr h1 h2 g :
  68 <= total → (512 <= length m)%nat → (512 <= length h1)%nat → 16384 <= Z.of_nat (length arr) →
  holds m 450 [0xEE] → holds m 510 [0x55; 0xAA] → primary (crc32 (sub arr 0 16384)) h1 →
  crc32 (sub (zero_crc (take 512 h1)) 0 92) = field 4 (take 512 h1) 16 →
  holds arr 0 g → length g = 16%nat → holds arr 32 (le 8 2048) → holds arr 40 (le 8 (u64 (total - 34))) →
  holds arr 128 (replicate (Z.to_nat 16256) 0) →
  gpt_written (store_sectors (store_sectors (store_sectors (store_sectors (store_sectors C 0 1 m) 2 32 arr)
    (total - 33) 32 arr) 1 1 h1) (total - 1) 1 h2) total g.
Proof.
  intros HT Lm Lh La Hm1 Hm2 Hp Hcrc Hg Lg Ha1 Ha2 Ha3.
  exists (take 512 m), (take 512 h1), (take (512 * 32) arr).
  assert (sub (take (512 * 32) arr) 0 16384 = sub arr 0 16384) as Hsub by (apply sub_take; lia).
  split; [|split; [|split]].
  - rewrite !store_lookup_out by lia. apply lookup_insert_eq.
  - rewrite store_lookup_out by lia. apply lookup_insert_eq.
  - rewrite <- (store_sectors_same (store_sectors C 0 1 m) 2 32 arr) by lia. apply sectors_ext.
    intros i Hi. rewrite !store_lookup_out by lia. done.
  - rewrite Hsub. split; [apply holds_first; [done|sizes|done]|]. split; [apply holds_first; [done|sizes|done]|].
    split; [by apply primary_take|]. split; [done|].
    split_and!; (apply holds_first; [assumption|rewrite ?Lg; sizes|lia]).
Qed.

Lemma gpt_install_ok (s : disks E) total ds name tg :
  disk_ok s total ds → good_disk (view_of (env s)) total → 68 <= total <= 2 ^ 32 → guid_arg_ok tg →
  page_round 512 + page_round 16384 <= v_room (view_of (env s)) →
  ∃ s' C, gpt_install the_dev name tg s = Ok s' ∧ disk_ok s' total ds ∧
    quiet (set_content (view_of (env s)) C) (view_of (env s')) ∧
    v_clean (view_of (env s')) = v_clean (view_of (env s)) ∧
    (∀ i, is_Some (v_content (view_of (env s)) !! i) → is_Some (C !! i)) ∧
    gpt_written C total (guid_of tg).
Proof.
  intros Hok Hgood HT Htg Hroom. pose proof Hok as (d&l&Hd&_&_&Htot&_).
  unfold gpt_install, dev_at. rewrite Hd. cbn [of_option mbind result_bind]. rewrite Htot. rewrite (proj2 (Z.ltb_ge _ _)) by lia.
  change (page_round 512) with 4096 in *. change (page_round 16384) with 16384 in *.
  destruct (dma_alloc_ok s total ds 512 Hok ltac:(lia)) as (a1&sec&s1&E1&Hok1&Ha1&Hl1&Hb1&Hv1); [change (page_round 512) with 4096; lia|].
  change (page_round 512) with 4096 in *. rewrite E1. cbn [mbind result_bind].
  destruct (dma_alloc_ok s1 total ds 16384 Hok1 ltac:(lia)) as (a2&arr0&s2&E2&Hok2&Ha2&Hl2&Hb2&Hv2);
    [rewrite Hv1; change (page_round 16384) with 16384; simpl; lia|].
  change (page_round 16384) with 16384 in *. rewrite E2. cbn [mbind result_bind].
  destruct (install_entry_ok total name tg arr0) as (arr&Earr&La&Ba&Hg&Hst&Hen&Hz); [lia|done|done|].
  rewrite Earr. cbn [mbind result_bind]. unfold buf_crc32. rewrite slice_sub by lia. cbn [mbind result_bind mret result_ret].
  destruct (install_mbr_ok total sec) as (m&Em&Lm&Bm&Hm1&Hm2); [lia|done|]. rewrite Em. cbn [mbind result_bind].
  assert (good_disk (view_of (env s2)) total) as G2 by (rewrite Hv2, Hv1; exact Hgood).
  destruct (dev_write_ok s2 total ds total 0 1 m Hok2 G2) as (?&s3&->&Hok3&G3&Hv3); [lia..|done|]. cbn [mbind result_bind].
  destruct (dev_write_ok s3 total ds total 2 32 arr Hok3 G3) as (?&s4&->&Hok4&G4&Hv4); [lia..|done|]. cbn [mbind result_bind].
  rewrite !(u64_id (total - 33)), !(u64_id (total - 1)) by lia.
  destruct (dev_write_ok s4 total ds total (total - 33) 32 arr Hok4 G4) as (?&s5&->&Hok5&G5&Hv5); [lia..|done|]. cbn [mbind result_bind].
  destruct (install_header_ok total (crc32 (sub arr 0 16384)) m) as (h1&Eh1&Lh1&Bh1&Hp&Hc1); [lia|done|]. rewrite Eh1. cbn [mbind result_bind].
  destruct (dev_write_ok s5 total ds total 1 1 h1 Hok5 G5) as (?&s6&->&Hok6&G6&Hv6); [lia..|done|]. cbn [mbind result_bind].
  destruct (backup_header_ok total h1) as (h2&Eh2&Lh2&Bh2); [lia|done|]. rewrite Eh2. cbn [mbind result_bind].
  destruct (dev_write_ok s6 total ds total (total - 1) 1 h2 Hok6 G6) as (?&s7&->&Hok7&G7&Hv7); [lia..|done|]. cbn [mbind result_bind].
  set (C := v_content (view_of (env s))) in *.
  set (C7 := store_sectors (store_sectors (store_sectors (store_sectors (store_sectors C 0 1 m) 2 32 arr)
    (total - 33) 32 arr) 1 1 h1) (total - 1) 1 h2).
  assert (view_of (env s7) = set_content (view_of (env s2)) C7) as Hv27 by (rewrite Hv7, Hv6, Hv5, Hv4, Hv3, Hv2, Hv1; done).
  destruct (dma_free_ok s7 total ds a2 16384 (v_live (view_of (env s1))) Hok7) as (s8&E8&Hok8&Hv8); [by rewrite Hv27, Hv2|done|].
  rewrite E8. cbn [mbind result_bind].
  destruct (dma_free_ok s8 total ds a1 4096 (v_live (view_of (env s))) Hok8) as (s9&E9&Hok9&Hv9); [by rewrite Hv8, Hv1|done|].
  exists s9, C7. split; [exact E9|]. split; [done|]. split; [|split; [|split]].
  - unfold quiet. rewrite Hv9, Hv8, Hv27, Hv2, Hv1. simpl. split; [done|]. split; [done|]. split; [done|lia].
  - by rewrite Hv9, Hv8, Hv27, Hv2, Hv1.
  - intros i Hi. by repeat apply store_is_some.
  - apply written_content; try done; try lia.
    unfold guid_of. destruct tg as [g|]; [|done]. destruct Htg. rewrite length_take. lia.
Qed.
Definition mbr_written (C : gmap Z bytes) (ty : Z) : Prop :=
  ∃ h, C !! 0 = Some h ∧ holds h 450 [if ty =? 0 then 0x83 else ty] ∧ holds h 454 (le 4 2048) ∧ holds h 458 (le 4 0xFFFE) ∧
    holds h 462 (replicate (Z.to_nat 48) 0) ∧ holds h 510 [0x55; 0xAA].

Lemma mbr_install_ok (s : disks E) total ds ty :
  disk_ok s total ds → good_disk (view_of (env s)) total → 2048 < total → 0 <= ty < 256 →
  page_round 512 <= v_room (view_of (env s)) →
  ∃ s' C, mbr_install the_dev ty s = Ok s' ∧ disk_ok s' total ds ∧
    quiet (set_content (view_of (env s)) C) (view_of (env s')) ∧
    v_clean (view_of (env s')) = v_clean (view_of (env s)) ∧ mbr_written C ty.
Proof.
  intros Hok Hgood HT Hty Hroom. unfold mbr_install, fill. change (page_round 512) with 4096 in *.
  destruct (dma_alloc_ok s total ds 512 Hok ltac:(lia)) as (a1&sec&s1&E1&Hok1&Ha1&Hl1&Hb1&Hv1); [done|].
  change (page_round 512) with 4096 in *. rewrite E1. cbn [mbind result_bind].
  assert (Forall is_byte [if ty =? 0 then 0x83 else ty]) as Hby1.
  { apply Forall_singleton. unfold is_byte. case_z; lia. }
  put_step. apply (holds_replicate _ _ _ _ 462 48) in Hnew; [|lia..]. change (0 + 462) with 462 in Hnew.
  do 12 put_step.
  match goal with |- context [ dev_write _ 0 1 ?x _ ] => assert (mbr_written (<[0 := take 512 x]> ∅) ty) as Hmbr;
    [|remember x as img eqn:Himg; assert (length img = length sec ∧ Forall is_byte img) as [Limg Bimg] by (subst img; split; [congruence|done]); clear Himg] end.
  { eexists. rewrite lookup_insert_eq. split; [done|].
    split_and!; (apply holds_first; [|sizes|lia]); try assumption. by apply (holds_app _ _ [0x55] [0xAA]). }
  destruct (dev_write_ok s1 total ds total 0 1 img Hok1) as (?&s2&->&Hok2&G2&Hv2); [by rewrite Hv1|lia..|done|]. cbn [mbind result_bind].
  put_step. match goal with |- context [ dev_write _ 2048 1 ?x _ ] => set (zero := x) in * end.
  destruct (dev_write_ok s2 total ds total 2048 1 zero Hok2 G2) as (?&s3&->&Hok3&G3&Hv3); [lia..|done|]. cbn [mbind result_bind].
  destruct (dma_free_ok s3 total ds a1 4096 (v_live (view_of (env s))) Hok3) as (s4&E4&Hok4&Hv4); [by rewrite Hv3, Hv2, Hv1|done|].
  exists s4, (v_content (view_of (env s3))). split; [exact E4|]. split; [done|]. split; [|split].
  - unfold quiet. rewrite Hv4, Hv3, Hv2, Hv1. simpl. split; [done|]. split; [done|]. split; [done|lia].
  - by rewrite Hv4, Hv3, Hv2, Hv1.
  - destruct Hmbr as (h&Eh&Hrest). exists h. split; [|exact Hrest]. rewrite Hv3. cbn [v_content set_content].
    rewrite store_lookup_out, Hv2 by lia. cbn [v_content set_content]. rewrite lookup_insert_eq in Eh. injection Eh as <-. apply lookup_insert_eq.
Qed.
End Install.

(** * What the parsers read there *)

Lemma field_holds1 b off c : holds b off [c] → field 1 b off = c.
Proof. intros H. unfold field. apply sub_holds in H. change (sub b off 1 = [c]) in H. rewrite H. simpl. lia. Qed.

Lemma field_signature b : holds b 510 [0x55; 0xAA] → field 2 b 510 = 0xAA55.
Proof. intros H. unfold field. apply sub_holds in H. change (sub b 510 2 = [0x55; 0xAA]) in H. rewrite H. done. Qed.

Lemma field_zeros b o n k j : holds b o (replicate (Z.to_nat n) 0) → 0 <= k → 0 <= j → k + j <= n → sub b (o + k) j = replicate (Z.to_nat j) 0.
Proof.
  intros H Hk Hj Hle. apply (holds_replicate _ _ _ _ k j) in H; [|done..]. apply sub_holds in H.
  by rewrite length_replicate, Z2Nat.id in H by done.
Qed.

Lemma omap_none {A B} (f : A → option B) l : Forall (λ x, f x = None) l → omap f l = [].
Proof. induction 1 as [|x l Hx Hl IH]; simpl; [done|]. by rewrite Hx. Qed.

Section Scan.
Variable C : gmap Z bytes.
Hypothesis HC : map_Forall (λ _ b, sector_wf b) C.

Lemma gpt_written_mbr total g : gpt_written C total g → mbr_scan C = (2, []).
Proof.
  intros (m&h&arr&E0&_&_&H450&H510&_). unfold mbr_scan. rewrite E0, (field_signature m H510). cbn [Z.eqb Pos.eqb negb].
  change (seqZ 0 4) with [0; 1; 2; 3]. cbn [existsb]. change (446 + 16 * 0 + 4) with 450. by rewrite (field_holds1 m 450 0xEE H450).
Qed.

(** The one used entry and the empty rest of the array. *)
Lemma written_entries arr total g : 68 <= total <= 2 ^ 32 → length g = 16%nat → g ≠ GUID_EMPTY →
  holds arr 0 g → holds arr 32 (le 8 2048) → holds arr 40 (le 8 (u64 (total - 34))) → holds arr 128 (replicate (Z.to_nat 16256) 0) →
  omap (gpt_desc arr 128) (seqZ 0 128) = [mkDesc 2048 (u64 (total - 2081)) 0 (Some (0, g))].
Proof.
  intros HT Lg Hne Hg H32 H40 Hz. change 128 with (1 + 127) at 2. rewrite seqZ_app, omap_app by lia.
  rewrite (omap_none _ (seqZ (0 + 1) 127)).
  - change (seqZ 0 1) with [0]. cbn [omap list_omap]. unfold gpt_desc. rewrite Z.mul_0_l, !Z.add_0_l. apply sub_holds in Hg. rewrite Lg in Hg. change (Z.of_nat 16) with 16 in Hg. rewrite Hg.
    unfold bytes_eqb. rewrite bool_decide_eq_false_2 by done.
    rewrite (field_holds 8 arr 32 2048), (field_holds 8 arr 40 (u64 (total - 34))) by (done || lia || apply u64_range).
    rewrite (u64_id (total - 34)) by lia. by replace (total - 34 - 2048 + 1) with (total - 2081) by lia.
  - apply Forall_forall. intros i Hi. apply elem_of_seqZ in Hi. unfold gpt_desc.
    replace (i * 128) with (128 + (i * 128 - 128)) by lia. rewrite (field_zeros _ _ _ _ 16 Hz) by lia. done.
Qed.

Lemma gpt_written_scan total g room :
  68 <= total <= 2 ^ 32 → length g = 16%nat → g ≠ GUID_EMPTY → page_round 512 + page_round 16384 <= room →
  gpt_written C total g →
  gpt_sane C room ∧ gpt_scan C = [mkDesc 2048 (u64 (total - 2081)) 0 (Some (0, g))].
Proof.
  intros HT Lg Hne Hroom (m&h&arr&_&E1&Earr&_&_&(Hsig&Hsz&Hlba&Hnum&Hes&Hac)&Hcrc&Hg&H32&H40&Hz).
  destruct (sectors_wf _ _ _ _ HC Earr) as [Larr Barr].
  pose proof (crc32_range (sub arr 0 16384) (sub_bytes _ _ _ Barr)) as Hcr.
  assert (field 4 h 12 = 92) as Fsz by (apply field_holds; [exact Hsz|lia|lia]).
  assert (field 8 h 72 = 2) as Flba by (apply field_holds; [exact Hlba|lia|lia]).
  assert (h_num h = 128) as Fnum by (apply field_holds; [exact Hnum|lia|lia]).
  assert (h_size h = 128) as Fes by (apply field_holds; [exact Hes|lia|lia]).
  assert (field 4 h 88 = crc32 (sub arr 0 16384)) as Fac by (apply field_holds; [exact Hac|lia|exact Hcr]).
  assert (header_ok h = true) as Hh.
  { unfold header_ok. rewrite Fsz, Hcrc, Z.eqb_refl. apply sub_holds in Hsig. change (Z.of_nat (length GPT_SIGNATURE)) with 8 in Hsig.
    rewrite Hsig. done. }
  assert (h_array_size h = 16384) as Fas by (unfold h_array_size; rewrite Fnum, Fes; done). split.
  - intros h' Eh'. assert (h' = h) as -> by congruence. rewrite Fsz, Fas, Fes, Flba. split; [lia|]. intros _.
    split; [lia|]. split; [lia|]. split; [lia|]. split; [lia|exact Hroom].
  - unfold gpt_scan. rewrite E1, Hh, Flba, Fas, Fnum, Fes, Fac. change (Z.to_nat ((16384 + 511) / 512)) with 32%nat.
    rewrite Earr, Z.eqb_refl. by apply written_entries.
Qed.

Lemma mbr_written_scan ty : 0 <= ty < 256 → ty ≠ 0xEE → mbr_written C ty →
  mbr_scan C = (0, [mkDesc 2048 0xFFFE (if ty =? 0 then 0x83 else ty) None]).
Proof.
  intros Hty Hne (h&E0&H450&H454&H458&Hz&H510). unfold mbr_scan. rewrite E0, (field_signature h H510). cbn [Z.eqb Pos.eqb negb].
  assert (∀ i, 1 <= i < 4 → field 1 h (446 + 16 * i + 4) = 0) as Hi.
  { intros i Hi. unfold field. replace (446 + 16 * i + 4) with (462 + (16 * i - 12)) by lia. by rewrite (field_zeros _ _ _ _ 1 Hz) by lia. }
  set (t := if ty =? 0 then 0x83 else ty) in *.
  assert (t ≠ 0 ∧ t ≠ 0xEE) as [Ht0 Ht] by (unfold t; case_z; lia).
  assert (field 1 h 450 = t) as F by by apply field_holds1.
  change (seqZ 0 4) with [0; 1; 2; 3]. cbn [existsb omap list_omap]. unfold mbr_desc. rewrite !(Hi 1), !(Hi 2), !(Hi 3) by lia.
  change (446 + 16 * 0 + 4) with 450. rewrite F. rewrite (proj2 (Z.eqb_neq t 0)), (proj2 (Z.eqb_neq t 0xEE)) by done. cbn [Z.eqb orb].
  change (446 + 16 * 0 + 8) with 454. change (446 + 16 * 0 + 12) with 458.
  rewrite (field_holds 4 h 454 2048), (field_holds 4 h 458 0xFFFE) by (done || lia). done.
Qed.
End Scan.

