(* ===== verification/DiskApi.v ===== *)
(** Finding and installing partitions.

    The boot path of diskinit.c lists exactly the partitions of the tables on
    the disk, what the installers write is what the boot path lists, and a run
    shows what [partition_refresh] does to the list when the heap hands out the
    freed nodes again.  A disk in memory implements the interface of Disk.v. *)

From S2P Require Import Prelude Mem Crc32 Bytes Disk DiskSpec DiskParse DiskInstall.

(** The partitions the boot path looks for. *)
Definition boot_scan (C : gmap Z bytes) : list pdesc :=
  let '(status, found) := mbr_scan C in if status =? 2 then gpt_scan C else found.

Section Boot.
Context {E : Type} `{!DiskEnv E, !DiskEnvLaws E}.

Lemma mbr_scan_two C : (mbr_scan C).1 = 2 → (mbr_scan C).2 = [].
Proof. unfold mbr_scan. destruct (C !! 0); [|done]. destruct (negb _); [done|]. by destruct (existsb _ _). Qed.

Lemma generic_disk_init_ok (s : disks E) total ds :
  disk_ok s total ds → page_round 512 <= v_room (view_of (env s)) →
  gpt_sane (v_content (view_of (env s))) (v_room (view_of (env s))) →
  (length (boot_scan (v_content (view_of (env s)))) <= v_clean (view_of (env s)))%nat →
  ∃ found s', generic_disk_init the_dev s = Ok s' ∧ disk_ok s' total (ds ++ found) ∧
    quiet (view_of (env s)) (view_of (env s')) ∧
    (found = [] ∨ found = boot_scan (v_content (view_of (env s)))) ∧
    (v_healthy (view_of (env s)) = true → found = boot_scan (v_content (view_of (env s)))).
Proof.
  intros Hok Hroom Hsane Hclean. pose proof Hok as (d&l&Hd&Hr&_). destruct env_pointers as (Hdev&Hrf&_).
  unfold generic_disk_init, dev_at. rewrite (proj2 (Z.eqb_neq _ _) Hdev), Hd. cbn [of_option mbind result_bind].
  rewrite Hr, (proj2 (Z.eqb_neq _ _) Hrf). set (C := v_content (view_of (env s))) in *.
  unfold boot_scan in *. destruct (mbr_parse_ok s total ds Hok Hroom) as (rc&f1&s1&E1&Hok1&Hq1&Hf1&Hh1&Hc1).
  { fold C. pose proof (mbr_scan_two C). destruct (mbr_scan C) as [st f]. cbn [fst snd] in *.
    destruct (Z.eqb_spec st 2) as [->|]; [|exact Hclean]. rewrite H by done. simpl. lia. }
  fold C in Hf1, Hh1. rewrite E1. cbn [mbind result_bind]. destruct (Z.eqb_spec rc 2) as [->|Hrc].
  - assert (mbr_scan C = (2, f1)) as Hscan by (destruct Hf1 as [|<-]; done). rewrite Hscan in *. cbn [Z.eqb Pos.eqb] in *.
    assert (f1 = []) as -> by (pose proof (mbr_scan_two C) as H; rewrite Hscan in H; by apply H).
    rewrite app_nil_r in Hok1. pose proof Hq1 as (HqC&Hqh&Hql&Hqr).
    destruct (gpt_parse_ok s1 total ds Hok1) as (f2&s2&E2&Hok2&Hq2&Hf2&Hh2).
    { rewrite HqC, Hqr. exact Hsane. } { by rewrite Hqr. } { rewrite HqC. fold C. simpl in Hc1. lia. }
    rewrite HqC in Hf2, Hh2. rewrite Hqh in Hh2. exists f2, s2. split; [exact E2|]. split; [done|].
    split; [by eapply quiet_trans|done].
  - exists f1, s1. split; [done|]. split; [done|]. split; [done|].
    destruct (mbr_scan C) as [st f]. destruct Hf1 as [Hf1|Hf1]; injection Hf1 as -> ->.
    + split; [by left|]. intros Hh. specialize (Hh1 Hh). injection Hh1 as <- <-. done.
    + rewrite (proj2 (Z.eqb_neq st 2)) by done. split; [by right|done].
Qed.

(** A walk within a set of nodes that all have successors in it has no end. *)
Lemma endless_walk (s : disks E) (L : list Z) h : h ∈ L → (∀ x, x ∈ L → ∃ q, nodes s !! x = Some q ∧ next q ≠ NULL ∧ next q ∈ L) →
  ∀ fuel b, append_loop fuel h b s = Fuel.
Proof.
  intros Hh HL fuel b. revert h Hh. induction fuel as [|fuel IH]; intros h Hh; [done|]. destruct (HL h Hh) as (q&Hq&Hn&Hin).
  cbn [append_loop]. unfold node_at at 1. rewrite Hq. cbn [of_option mbind result_bind]. rewrite (proj2 (Z.eqb_neq _ _) Hn). cbn [negb]. by apply IH.
Qed.

(** C24: Where the heap hands out enough nodes with a NULL link, a GUID table is
    one the code can hold ([gpt_sane]) and a buffer for a sector is to be had, the
    boot path appends to the list of the device the partitions that the
    specification reads off the sectors: those of the GUID table when its two
    checksums are right and the boot record is protective, those of the boot
    record otherwise, none when a signature or checksum is wrong.  It appends all
    of them when the reads succeed; when one fails it appends all or none.  The
    list stays a list, the sectors stay as they are, and every buffer is given
    back. *)
Theorem generic_disk_init_correct (s : disks E) total ds :
  disk_ok s total ds → page_round 512 <= v_room (view_of (env s)) →
  gpt_sane (v_content (view_of (env s))) (v_room (view_of (env s))) →
  (length (boot_scan (v_content (view_of (env s)))) <= v_clean (view_of (env s)))%nat →
  ∃ found s', generic_disk_init the_dev s = Ok s' ∧ disk_ok s' total (ds ++ found) ∧
    quiet (view_of (env s)) (view_of (env s')) ∧
    (found = [] ∨ found = boot_scan (v_content (view_of (env s)))) ∧
    (v_healthy (view_of (env s)) = true → found = boot_scan (v_content (view_of (env s)))).
Proof. apply generic_disk_init_ok. Qed.

(** C26: A new node goes to the end of the list of its device, and the list ends
    there when its link is NULL.  The parsers leave the link as the heap had it:
    when it is the one the node had in an earlier life and leads to a node of the
    list or to itself, the list has no end any more, and no later walk to the end
    of it finishes. *)
Theorem partition_register_link (s : disks E) dev d l a p :
  dev ≠ NULL → devs s !! dev = Some d → chain (nodes s) (partitions d) l → NoDup l →
  nodes s !! a = None → a ≠ NULL → disk p = dev →
  ∃ s' d', partition_register a (with_nodes s (<[a := p]> (nodes s))) = Ok s' ∧ devs s' !! dev = Some d' ∧
    (next p = NULL → chain (nodes s') (partitions d') (l ++ [a])) ∧
    (next p ∈ l ++ [a] → ∀ fuel b, append_loop fuel (partitions d') b s' = Fuel).
Proof.
  intros Hdev Hd Hc Hnd Ha Ha0 Hp.
  assert (a ∉ l) as Hal by (intros Hin; destruct (chain_in _ _ _ _ Hc Hin); congruence).
  apply (chain_insert_out _ _ _ _ p Hal) in Hc. set (N := <[a := p]> (nodes s)) in *.
  assert (N !! a = Some p) as HNa by apply lookup_insert_eq.
  unfold partition_register, node_at. cbn [nodes with_nodes]. fold N. rewrite (proj2 (Z.eqb_neq a NULL)), HNa by done.
  cbn [of_option mbind result_bind]. rewrite Hp, (proj2 (Z.eqb_neq dev NULL)) by done. cbn zeta.
  match goal with |- context [ log ?l ?f ?x ?y ] => set (s1 := log l f x y) end.
  unfold dev_at. change (devs s1) with (devs s). rewrite Hd. cbn [of_option mbind result_bind].
  destruct (Z.eqb_spec (partitions d) NULL) as [Hnull|Hnull].
  - assert (l = []) as -> by (destruct l as [|b l']; [done|destruct Hc as (?&?&_); congruence]).
    unfold set_dev_list, dev_at. change (devs s1) with (devs s). rewrite Hd. cbn [of_option mbind result_bind].
    eexists _, (set_partitions d a). split; [done|]. cbn [devs with_devs]. rewrite lookup_insert_eq. split; [done|].
    change (nodes (with_devs s1 _)) with N. split; [intros Hn; split; [done|]; split; [done|]; by exists p|].
    intros Hn%list_elem_of_singleton. apply endless_walk with (L := [a]); [apply list_elem_of_here|].
    intros x ->%list_elem_of_singleton. exists p. rewrite Hn. split; [done|]. split; [done|apply list_elem_of_here].
  - destruct l as [|z l _] using rev_ind; [done|]. rewrite append_loop_ok with (l := l) (z := z).
    2: exact Hc. 2: { apply chain_length in Hc; [|done]. rewrite length_app in Hc. simpl in Hc. change (nodes s1) with N. lia. }
    destruct (chain_last _ _ _ _ Hc) as (q&Hq&Hqn). unfold set_node_next, node_at. change (nodes s1) with N. rewrite Hq. cbn [of_option mbind result_bind].
    eexists _, d. split; [done|]. split; [done|]. change (nodes (with_nodes s1 _)) with (<[z:=Disk.set_next q a]> N).
    split; [intros Hn; by apply (chain_snoc _ _ _ _ q _ p)|]. intros Hn.
    apply endless_walk with (L := (l ++ [z]) ++ [a]); [destruct l; destruct Hc as (->&_); apply list_elem_of_here|].
    change (nodes (with_nodes s1 _)) with (<[z:=Disk.set_next q a]> N). intros x Hx. destruct (decide (x = z)) as [->|Hxz].
    { rewrite lookup_insert_eq. eexists. split; [done|]. split; [done|]. apply elem_of_app. right. apply list_elem_of_here. }
    rewrite lookup_insert_ne by done. apply elem_of_app in Hx as [Hx| ->%list_elem_of_singleton].
    + destruct (chain_next _ _ _ _ _ Hc Hx) as (r&Hr&[?|?]); [exists r|congruence]. split; [done|].
      split; [|apply elem_of_app; by left]. intros E0. destruct (chain_in _ _ _ _ Hc H) as [? _]. rewrite E0 in H. by apply (chain_null _ _ _ Hc).
    + exists p. split; [done|]. split; [|done]. intros E0. rewrite E0 in Hn. apply elem_of_app in Hn as [Hn|Hn%list_elem_of_singleton]; [by apply (chain_null _ _ _ Hc)|by subst].
Qed.

(** C25: A disk to which [gpt_install] wrote a table is listed by the boot path
    with the one partition installed: from block 2048 to the block 34 before the
    end, with the given type GUID or that of Linux; a disk to which [mbr_install]
    wrote is listed with the partition of type [ty] from block 2048. *)
Theorem install_roundtrip (s : disks E) total name tg ty :
  disk_ok s total [] → good_disk (view_of (env s)) total → 68 <= total <= 2 ^ 32 →
  guid_arg_ok tg → guid_of tg ≠ GUID_EMPTY → 0 <= ty < 256 → ty ≠ 0xEE →
  page_round 512 + page_round 16384 <= v_room (view_of (env s)) → (1 <= v_clean (view_of (env s)))%nat →
  (∃ s1 s2, gpt_install the_dev name tg s = Ok s1 ∧ generic_disk_init the_dev s1 = Ok s2 ∧
    disk_ok s2 total [mkDesc 2048 (u64 (total - 2081)) 0 (Some (0, guid_of tg))] ∧
    v_live (view_of (env s2)) = v_live (view_of (env s))) ∧
  (2048 < total → ∃ s1 s2, mbr_install the_dev ty s = Ok s1 ∧ generic_disk_init the_dev s1 = Ok s2 ∧
    disk_ok s2 total [mkDesc 2048 0xFFFE (if ty =? 0 then 0x83 else ty) None] ∧
    v_live (view_of (env s2)) = v_live (view_of (env s))).
Proof.
  intros Hok Hgood HT Htg Hne Hty Hee Hroom Hclean.
  assert (page_round 512 <= v_room (view_of (env s))) as Hr5 by (change (page_round 16384) with 16384 in Hroom; lia).
  split.
  - destruct (gpt_install_ok s total [] name tg Hok Hgood HT Htg Hroom) as (s1&C&E1&Hok1&(HqC&Hqh&Hql&Hqr)&Hc1&_&Hw).
    cbn [v_content v_healthy v_live v_room set_content] in HqC, Hqh, Hql, Hqr.
    assert (map_Forall (λ _ b, sector_wf b) C) as HC by (rewrite <- HqC; apply content_wf).
    assert (length (guid_of tg) = 16%nat) as Lg.
    { unfold guid_of. destruct tg as [g|]; [|done]. destruct Htg. rewrite length_take. lia. }
    destruct (gpt_written_scan C HC total _ _ HT Lg Hne Hroom Hw) as [Hsane Hscan].
    assert (boot_scan C = [mkDesc 2048 (u64 (total - 2081)) 0 (Some (0, guid_of tg))]) as Hb.
    { unfold boot_scan. rewrite (gpt_written_mbr C total _ Hw). exact Hscan. }
    destruct (generic_disk_init_ok s1 total [] Hok1) as (f&s2&E2&Hok2&(_&_&Hql2&_)&_&Hf).
    { rewrite Hqr. exact Hr5. } { by rewrite HqC, Hqr. } { rewrite HqC, Hb, Hc1. exact Hclean. }
    rewrite HqC, Hb, Hqh in Hf. rewrite (Hf (proj1 Hgood)) in Hok2. exists s1, s2.
    split; [done|]. split; [done|]. split; [done|congruence].
  - intros HT2.
    destruct (mbr_install_ok s total [] ty Hok Hgood HT2 Hty Hr5) as (s1&C&E1&Hok1&(HqC&Hqh&Hql&Hqr)&Hc1&Hw).
    cbn [v_content v_healthy v_live v_room set_content] in HqC, Hqh, Hql, Hqr.
    pose proof (mbr_written_scan C ty Hty Hee Hw) as Hscan.
    destruct (mbr_parse_ok s1 total [] Hok1) as (rc&f&s2&E2&Hok2&(_&_&Hql2&_)&_&Hf&_).
    { by rewrite Hqr. } { rewrite HqC, Hscan, Hc1. exact Hclean. }
    rewrite HqC, Hscan, Hqh in Hf. specialize (Hf (proj1 Hgood)). injection Hf as -> ->.
    exists s1, s2. split; [done|]. pose proof Hok1 as (d&l&Hd&Hr&_). destruct env_pointers as (Hdev&Hrf&_).
    unfold generic_disk_init, dev_at. rewrite (proj2 (Z.eqb_neq _ _) Hdev), Hd. cbn [of_option mbind result_bind].
    rewrite Hr, (proj2 (Z.eqb_neq _ _) Hrf), E2. split; [done|]. split; [done|congruence].
Qed.
End Boot.

(** * A disk in memory *)

#[global] Instance is_byte_dec b : Decision (is_byte b).
Proof. unfold is_byte. apply _. Defined.
#[global] Instance sector_wf_dec b : Decision (sector_wf b).
Proof. unfold sector_wf. apply _. Defined.

Record ram := mkRam {
  r_sectors : gmap Z bytes;
  r_live : gmap Z Z;
  r_room : Z;
  r_owned : gset Z;
  r_free : list (Z * partition_t);
  r_clean : nat;
  r_log : list (string * string * list log_arg)
}.

Definition ram_content (r : ram) : gmap Z bytes := filter (λ kv, sector_wf kv.2) (r_sectors r).
(** An address above all of [l]. *)
Definition above (l : list Z) : Z := foldr Z.max 4096 l + 4096.

#[export] Instance ram_env : DiskEnv ram := {|
  call_read fn dev lba count buf r :=
    match sectors (ram_content r) lba (Z.to_nat count) with
    | Some b => Ok (0, b ++ drop (length b) buf, r)
    | None => Ok (1, buf, r)
    end;
  call_write fn dev lba count buf r :=
    match sectors (ram_content r) lba (Z.to_nat count) with
    | Some _ => Ok (0, mkRam (store_sectors (ram_content r) lba (Z.to_nat count) buf) (r_live r) (r_room r) (r_owned r) (r_free r) (r_clean r) (r_log r))
    | None => Ok (1, r)
    end;
  dmalloc32 n r :=
    if (0 <? n) && (page_round n <=? r_room r) then
      let a := above (elements (dom (r_live r))) in
      Ok (Some (a, replicate (Z.to_nat (page_round n)) 0),
          mkRam (r_sectors r) (<[a := page_round n]> (r_live r)) (r_room r - page_round n) (r_owned r) (r_free r) (r_clean r) (r_log r))
    else Ok (None, r);
  dmfree a r :=
    match r_live r !! a with
    | Some n => Ok (mkRam (r_sectors r) (delete a (r_live r)) (r_room r + n) (r_owned r) (r_free r) (r_clean r) (r_log r))
    | None => Ok r
    end;
  malloc_partition r :=
    match r_free r, r_clean r with
    | (a, p) :: l, _ => Ok (Some (a, p), mkRam (r_sectors r) (r_live r) (r_room r) ({[a]} ∪ r_owned r) l (r_clean r) (r_log r))
    | [], S n =>
        let a := above (elements (r_owned r)) in
        Ok (Some (a, mkPart 0 0 0 0 [] NULL false NULL), mkRam (r_sectors r) (r_live r) (r_room r) ({[a]} ∪ r_owned r) [] n (r_log r))
    | [], O => Ok (None, r)
    end;
  free_partition a p r :=
    Ok (mkRam (r_sectors r) (r_live r) (r_room r) (r_owned r ∖ {[a]}) (r_free r ++ [(a, p)]) (r_clean r) (r_log r));
  logbuf_printf level fmt args r :=
    mkRam (r_sectors r) (r_live r) (r_room r) (r_owned r) (r_free r) (r_clean r) (r_log r ++ [(level, fmt, args)])
|}.

Definition ram_view (r : ram) : view :=
  mkView (ram_content r) true (r_live r) (r_room r) (r_owned r) (match r_free r with [] => r_clean r | _ => O end).

Lemma ram_wf r : map_Forall (λ _ b, sector_wf b) (ram_content r).
Proof. intros i b [_ Hb]%map_lookup_filter_Some. exact Hb. Qed.

Lemma above_not_in l : (above l ∉ l) ∧ above l ≠ NULL.
Proof.
  assert (∀ x, x ∈ l → x <= foldr Z.max 4096 l) as H.
  { induction l as [|y l IH]; intros x Hx; [by apply not_elem_of_nil in Hx|]. simpl.
    apply elem_of_cons in Hx as [->|Hx]; [lia|]. specialize (IH x Hx). lia. }
  assert (4096 <= foldr Z.max 4096 l) by (clear H; induction l; simpl; lia).
  unfold above, NULL. split; [|lia]. intros Hin. apply H in Hin. lia.
Qed.

Lemma store_wf C lba n b : (512 * n <= length b)%nat → Forall is_byte b → map_Forall (λ _ b, sector_wf b) C →
  map_Forall (λ _ b, sector_wf b) (store_sectors C lba n b).
Proof.
  revert C lba b. induction n as [|n IH]; intros C lba b Hl Hb HC; simpl; [done|].
  apply IH; [rewrite length_drop; lia|by apply Forall_drop|].
  apply map_Forall_insert_2; [|done]. split; [rewrite length_take; lia|by apply Forall_take].
Qed.

#[export] Instance ram_laws : DiskEnvLaws ram.
Proof.
  refine {| view_of := ram_view; the_dev := 0x100; read_fn := 0x200; write_fn := 0x300 |}.
  - done.
  - apply ram_wf.
  - intros e lba count buf Hc Hl. cbn [call_read ram_env v_content ram_view v_healthy].
    destruct (sectors _ _ _) as [b|] eqn:Eb.
    + destruct (sectors_wf _ _ _ _ (ram_wf e) Eb) as [Lb _]. eexists _, _, _. split; [done|]. split; [done|].
      split; [rewrite length_app, length_drop; lia|]. split; [intros _; by exists b|done].
    + eexists _, _, _. split; [done|]. split; [done|]. split; [done|]. split; [done|]. by intros _ [? ?].
  - intros e lba count buf _ Hc Hl Hb [b Eb]. cbn [call_write ram_env v_content ram_view] in *. rewrite Eb.
    eexists _, _. split; [done|]. unfold ram_view, set_content, ram_content at 1. cbn [r_sectors r_live r_room r_owned r_free r_clean v_healthy v_live v_room v_owned v_clean].
    f_equal. apply map_filter_id. intros i x Hx. eapply store_wf in Hx; [exact Hx|lia|done|apply ram_wf].
  - intros e n Hn Hr. cbn [dmalloc32 ram_env v_room ram_view] in *.
    rewrite (proj2 (Z.ltb_lt _ _) Hn), (proj2 (Z.leb_le _ _) Hr). cbn [andb].
    eexists _, _, _. split; [done|]. destruct (above_not_in (elements (dom (r_live e)))) as [Hni _].
    rewrite elem_of_elements in Hni. split; [by apply not_elem_of_dom|]. rewrite length_replicate.
    split; [rewrite Z2Nat.id; [done|]|split; [apply Forall_replicate; done|done]].
    unfold page_round. pose proof (Z.div_pos (n + 4095) 4096). lia.
  - intros e a n Ha. cbn [dmfree ram_env v_live ram_view] in *. rewrite Ha. by eexists.
  - intros e n Hn. cbn [malloc_partition ram_env v_clean ram_view] in *. destruct (r_free e) as [|[a p] l] eqn:Ef; [|done].
    rewrite Hn. eexists _, _, _. split; [done|]. destruct (above_not_in (elements (r_owned e))) as [Hni H0].
    rewrite elem_of_elements in Hni. split; [done|]. split; [done|]. split; [done|]. unfold ram_view, ram_content. cbn. done.
  - intros e a p Ha. cbn [free_partition ram_env v_owned ram_view] in *. eexists _, O. split; [done|].
    unfold ram_view, ram_content. cbn. f_equal. by destruct (r_free e).
  - intros e level fmt args. done.
Defined.

(** * Runs *)

(** A boot record with two partitions, and a device with nothing found yet. *)
Definition boot_entry (ty first count : Z) : bytes := [0; 0; 0; 0; ty; 0; 0; 0] ++ le 4 first ++ le 4 count.
Definition two_mbr : bytes :=
  replicate 446 0 ++ boot_entry 0x0C 2048 4096 ++ boot_entry 0x83 8192 512 ++ replicate 32 0 ++ [0x55; 0xAA].

Definition fresh_dev (total : Z) : kernel_disk_dev_t := mkDev NULL [] total 0 0x200 0x300 NULL.
Definition boot_state (C : gmap Z bytes) (total : Z) : disks ram :=
  mkDisks {[0x100 := fresh_dev total]} ∅ (mkRam C ∅ 65536 ∅ [] 4 []).

Lemma boot_state_ok C total : disk_ok (boot_state C total) total [].
Proof.
  exists (fresh_dev total), []. split; [apply lookup_singleton_eq|]. split; [done|]. split; [done|]. split; [done|].
  split; [done|]. split; [constructor|]. split; [constructor|]. apply dom_empty_L.
Qed.

Lemma generic_disk_init_correct_witness :
  ∃ s', generic_disk_init 0x100 (boot_state {[0 := two_mbr]} 10000) = Ok s' ∧
    disk_ok s' 10000 [mkDesc 2048 4096 0x0C None; mkDesc 8192 512 0x83 None].
Proof.
  assert (boot_scan (v_content (view_of (env (boot_state {[0 := two_mbr]} 10000)))) =
    [mkDesc 2048 4096 0x0C None; mkDesc 8192 512 0x83 None]) as Hscan by (vm_compute; reflexivity).
  destruct (generic_disk_init_correct (boot_state {[0 := two_mbr]} 10000) 10000 [] (boot_state_ok _ _)) as (f&s'&E&Hok&_&_&Hf).
  - vm_compute. discriminate.
  - intros h Hh. exfalso. revert Hh. vm_compute. discriminate.
  - rewrite Hscan. change (2 <= 4)%nat. lia.
  - exists s'. split; [exact E|]. rewrite Hf, Hscan in Hok; [exact Hok|reflexivity].
Defined.

(** An empty disk of [n] sectors. *)
Definition blank (n : Z) : gmap Z bytes := gset_to_gmap (replicate 512 0) (list_to_set (seqZ 0 n)).

Lemma blank_good n : good_disk (view_of (env (boot_state (blank n) n))) n.
Proof.
  split; [done|]. intros i Hi. exists (replicate 512 0). apply map_lookup_filter_Some. split.
  - apply lookup_gset_to_gmap_Some. split; [|done]. apply elem_of_list_to_set, elem_of_seqZ. lia.
  - split; [done|]. apply Forall_replicate. unfold is_byte. lia.
Qed.

Lemma install_roundtrip_witness :
  ∃ s1 s2, gpt_install 0x100 (Some [72; 105]) None (boot_state (blank 4096) 4096) = Ok s1 ∧ generic_disk_init 0x100 s1 = Ok s2 ∧
    disk_ok s2 4096 [mkDesc 2048 2015 0 (Some (0, GUID_LINUX_FILESYSTEM))].
Proof.
  destruct (install_roundtrip (boot_state (blank 4096) 4096) 4096 (Some [72; 105]) None 0x0C) as [(s1&s2&E1&E2&Hok&_) _].
  - apply boot_state_ok.
  - apply blank_good.
  - lia.
  - exact I.
  - vm_compute. discriminate.
  - lia.
  - lia.
  - change (page_round 512 + page_round 16384 <= 65536). vm_compute. discriminate.
  - change (1 <= 4)%nat. lia.
  - exists s1, s2. split; [exact E1|]. split; [exact E2|exact Hok].
Defined.

(** The links of the list nodes. *)
Definition links (s : disks ram) : list (Z * Z) := (λ ap : Z * partition_t, (ap.1, next ap.2)) <$> map_to_list (nodes s).
Definition head_of (s : disks ram) : option Z := partitions <$> devs s !! 0x100.

(** The nodes that [partition_refresh] frees come back from the heap with the
    links they had, which the parsers do not reset.  On a disk with two
    partitions the second listing makes the last node its own successor: the
    list no longer ends, and the next [partition_refresh] frees a node twice. *)
Example partition_refresh_cycles :
  let init := generic_disk_init 0x100 (boot_state {[0 := two_mbr]} 10000) in
  let again := init ≫= partition_refresh 0x100 in
  (s ← init; mret (head_of s, links s)) = Ok (Some 8192, [(12288, NULL); (8192, 12288)]) ∧
  (s ← again; mret (head_of s, links s)) = Ok (Some 8192, [(12288, 12288); (8192, 12288)]) ∧
  (s ← again; s ← partition_refresh 0x100 s; mret (links s)) = Fault.
Proof. vm_compute. repeat split. Qed.

(** [mbr_install] leaves the blocks of a GUID table alone, and the two listings
    then disagree: the boot path goes by the boot record, [partition_refresh] by
    the old header.  The run holds the sectors that are touched. *)
Definition described (s : disks ram) : list pdesc := (λ ap : Z * partition_t, describe ap.2) <$> map_to_list (nodes s).

Example refresh_prefers_stale_table :
  let touched := gset_to_gmap (replicate 512 0) (list_to_set (seqZ 0 34 ++ [2048] ++ seqZ 2067 33)) in
  let disk := (s ← gpt_install 0x100 None None (boot_state touched 2100); mbr_install 0x100 0x0C s) in
  (s ← disk; s ← generic_disk_init 0x100 s; mret (described s)) = Ok [mkDesc 2048 0xFFFE 0x0C None] ∧
  (s ← disk; s ← partition_refresh 0x100 s; mret (described s)) = Ok [mkDesc 2048 19 0 (Some (0, GUID_LINUX_FILESYSTEM))].
Proof. vm_compute. repeat split. Qed.

(** A list with one node, and a node that the heap had with a link to it. *)
Definition reused_state : disks ram :=
  mkDisks {[0x100 := set_partitions (fresh_dev 10000) 8192]} {[8192 := mkPart 2048 4096 0 0x0C [] 0x100 false NULL]} (mkRam ∅ ∅ 65536 ∅ [] 4 []).
Definition reused_node : partition_t := mkPart 8192 512 0 0x83 [] 0x100 false 8192.

(** It closes the list when it is registered. *)
Lemma partition_register_link_witness : ∃ s' d', partition_register 12288 (with_nodes (reused_state) (<[12288 := reused_node]> (nodes reused_state))) = Ok s' ∧
  devs s' !! 0x100 = Some d' ∧ ∀ fuel b, append_loop fuel (partitions d') b s' = Fuel.
Proof.
  destruct (partition_register_link reused_state 0x100 (set_partitions (fresh_dev 10000) 8192) [8192] 12288 reused_node) as (s'&d'&E&Hd&_&Hw).
  - discriminate.
  - reflexivity.
  - split; [reflexivity|]. split; [discriminate|]. eexists. split; reflexivity.
  - apply NoDup_singleton.
  - reflexivity.
  - discriminate.
  - reflexivity.
  - exists s', d'. split; [exact E|]. split; [exact Hd|]. apply Hw. apply list_elem_of_here.
Defined.
