(* ===== verification/Ata.v ===== *)
(** The identification data of ATA drives (src/disk/ata.c).

    A drive answers IDENTIFY with 256 words.  The file models the decoding; the
    strings come as two characters a word, the first one high, padded with
    spaces. *)

From S2P Require Import Prelude Crc32 Bytes.

Record ata_identity_t := mkAta {
  config : Z;
  total_sectors : Z;
  model : bytes;
  serial : bytes;
  firmware : bytes;
  capabilities : Z;
  field_validity : Z;
  pio_modes : Z;
  dma_modes : Z;
  command_sets_82 : Z;
  command_sets_83 : Z;
  logical_sector_size : Z
}.

Definition word (id_data : list Z) (i : Z) : result Z := of_option (id_data !! Z.to_nat i).

(** The trailing spaces become NULs; [n] characters are left to look at. *)
Fixpoint strip_loop (n : nat) (dest : bytes) : result bytes :=
  match n with
  | O => mret dest
  | S n =>
      c ← of_option (dest !! n);
      if c =? 32 then dest ← put dest (Z.of_nat n) [0]; strip_loop n dest else mret dest
  end.

Definition ata_parse_string (dest : bytes) (id_data : list Z) (word_start word_count : Z) : result bytes :=
  dest ← for_range word_count (λ i dest,
    val ← word id_data (word_start + i);
    dest ← put dest (i * 2) [u8 (Z.shiftr val 8)];
    put dest (i * 2 + 1) [u8 (Z.land val 0xFF)]) dest;
  dest ← put dest (word_count * 2) [0];
  strip_loop (Z.to_nat (word_count * 2)) dest.

(** The number of sectors: four words of a 48-bit drive, two of another. *)
Definition ata_total_sectors (id_data : list Z) : result Z :=
  w83 ← word id_data 83;
  if Z.testbit w83 10 then
    w103 ← word id_data 103; w102 ← word id_data 102; w101 ← word id_data 101; w100 ← word id_data 100;
    mret (Z.lor (Z.lor (Z.lor (u64 (Z.shiftl w103 48)) (u64 (Z.shiftl w102 32))) (u64 (Z.shiftl w101 16))) w100)
  else
    w61 ← word id_data 61; w60 ← word id_data 60;
    mret (Z.lor (u32 (Z.shiftl w61 16)) w60).

Definition ata_identify (id_data : list Z) : result ata_identity_t :=
  config ← word id_data 0;
  total ← ata_total_sectors id_data;
  model ← ata_parse_string (replicate 41 0) id_data 27 20;
  serial ← ata_parse_string (replicate 21 0) id_data 10 10;
  firmware ← ata_parse_string (replicate 9 0) id_data 23 4;
  w49 ← word id_data 49;
  w53 ← word id_data 53;
  w64 ← word id_data 64;
  w63 ← word id_data 63;
  w88 ← word id_data 88;
  w82 ← word id_data 82;
  w83 ← word id_data 83;
  w106 ← word id_data 106;
  mret (mkAta config total model serial firmware w49 w53 w64 (Z.lor (u32 (Z.shiftl w63 16)) w88) w82 w83 (Z.land w106 0x0FFF)).

(** * Strings *)

(** Two characters a word. *)
Fixpoint pack (s : bytes) : list Z :=
  match s with a :: b :: s => a * 256 + b :: pack s | _ => [] end.

Lemma unpack_word a b : is_byte a → is_byte b → u8 (Z.shiftr (a * 256 + b) 8) = a ∧ u8 (Z.land (a * 256 + b) 0xFF) = b.
Proof.
  unfold is_byte. change (2 ^ 8) with 256. intros Ha Hb. rewrite Z.shiftr_div_pow2 by lia. change 0xFF with (Z.ones 8).
  rewrite Z.land_ones by lia. change (2 ^ 8) with 256. unfold u8. change (2 ^ 8) with 256.
  rewrite Z.div_add_l, (Z.div_small b), Z.add_0_r, (Z.mod_small a) by lia.
  rewrite (Z.add_comm (a * 256)), Z.mod_add, !(Z.mod_small b) by lia. done.
Qed.

Lemma pack_lookup s i a b : s !! (2 * i)%nat = Some a → s !! (2 * i + 1)%nat = Some b → pack s !! i = Some (a * 256 + b).
Proof.
  revert s. induction i as [|i IH]; intros [|x [|y s]]; try done.
  - by intros [= ->] [= ->].
  - replace (2 * S i)%nat with (S (S (2 * i))) by lia.
    replace (S (S (2 * i)) + 1)%nat with (S (S (2 * i + 1))) by lia. apply IH.
Qed.

Lemma strip_loop_ok name k r : last name ≠ Some 32 →
  strip_loop (length name + k) (name ++ replicate k 32 ++ r) = Ok (name ++ replicate k 0 ++ r).
Proof.
  intros Hn. revert r. induction k as [|k IH]; intros r.
  - rewrite Nat.add_0_r. simpl. destruct name as [|c name _] using rev_ind; [done|].
    rewrite length_app. change (length [c]) with 1%nat. rewrite Nat.add_1_r. cbn [strip_loop replicate app].
    rewrite <- app_assoc, lookup_app_r, Nat.sub_diag by lia. cbn. rewrite last_snoc in Hn. case_z; [congruence|done].
  - rewrite Nat.add_succ_r. cbn [strip_loop].
    assert (name ++ replicate (S k) 32 ++ r = (name ++ replicate k 32) ++ [32] ++ r) as ->.
    { rewrite replicate_S_end, <- !app_assoc. done. }
    rewrite lookup_app_r by (rewrite length_app, length_replicate; lia). rewrite length_app, length_replicate, Nat.sub_diag.
    simpl. change (32 :: r) with ([32] ++ r). rewrite (put_app _ [32]) by (rewrite ?length_app, ?length_replicate; (done || lia)). cbn [mbind result_bind].
    rewrite <- app_assoc. rewrite (IH ([0] ++ r)). by rewrite app_comm_cons, replicate_cons_app, <- app_assoc.
Qed.

Section Parse.
Variables name rest : bytes.
Variable k : nat.
Hypothesis Hbytes : Forall is_byte (name ++ replicate k 32).
Hypothesis Hlast : last name ≠ Some 32.

(** A padded string of [n] words is decoded to the string and NULs. *)
Lemma ata_parse_string_ok n start id_data dest :
  (length name + k = 2 * n)%nat → (2 * n < length dest)%nat → 0 <= start →
  (∀ i, (i < n)%nat → id_data !! (Z.to_nat start + i)%nat = pack (name ++ replicate k 32) !! i) →
  ata_parse_string dest id_data start (Z.of_nat n) = Ok (name ++ replicate k 0 ++ [0] ++ drop (2 * n + 1) dest).
Proof.
  intros Hlen Hd H0 Hid. unfold ata_parse_string. set (s := name ++ replicate k 32) in *.
  assert (length s = 2 * n)%nat as Ls by (unfold s; rewrite length_app, length_replicate; lia).
  destruct (for_range_ok (λ i d, d = take (Z.to_nat (2 * i)) s ++ drop (Z.to_nat (2 * i)) dest) (Z.of_nat n)
    (λ i dest, val ← word id_data (start + i);
      dest ← put dest (i * 2) [u8 (Z.shiftr val 8)]; put dest (i * 2 + 1) [u8 (Z.land val 0xFF)]) dest) as (d&Ed&Hd').
  - lia.
  - by rewrite drop_0.
  - intros i d Hi ->. unfold word. replace (Z.to_nat (start + i)) with (Z.to_nat start + Z.to_nat i)%nat by lia.
    rewrite Hid by lia.
    destruct (lookup_lt_is_Some_2 s (2 * Z.to_nat i)) as [a Ea]; [lia|].
    destruct (lookup_lt_is_Some_2 s (2 * Z.to_nat i + 1)) as [b Eb]; [lia|].
    rewrite (pack_lookup s _ a b Ea Eb). cbn [of_option mbind result_bind].
    destruct (unpack_word a b) as [-> ->]; [by eapply Forall_lookup_1..|].
    set (m := Z.to_nat (2 * i)) in *. replace (2 * Z.to_nat i)%nat with m in * by (unfold m; lia).
    rewrite (drop_S dest (dest !!! m) m) by (apply list_lookup_lookup_total_lt; lia).
    rewrite (drop_S dest (dest !!! S m) (S m)) by (apply list_lookup_lookup_total_lt; lia).
    change (?x :: ?y :: ?l) with ([x] ++ [y] ++ l).
    rewrite put_app by (rewrite ?length_take; simpl; lia). cbn [mbind result_bind]. rewrite app_assoc.
    rewrite put_app by (rewrite ?length_app, ?length_take; simpl; lia).
    eexists. split; [done|]. replace (Z.to_nat (2 * (i + 1))) with (S (S m)) by (unfold m; lia).
    rewrite (take_S_r s (S m) b) by (by replace (S m) with (m + 1)%nat by lia). rewrite (take_S_r s m a) by done.
    by rewrite <- !app_assoc.
  - rewrite Ed. cbn [mbind result_bind]. subst d. replace (Z.to_nat (2 * Z.of_nat n)) with (2 * n)%nat by lia.
    rewrite (take_ge s) by lia. rewrite (drop_S dest (dest !!! (2 * n)%nat) (2 * n)) by (apply list_lookup_lookup_total_lt; lia).
    change (?x :: ?l) with ([x] ++ l). rewrite put_app by (simpl; lia). cbn [mbind result_bind].
    unfold s. rewrite <- app_assoc. replace (Z.to_nat (Z.of_nat n * 2)) with (length name + k)%nat by lia.
    rewrite strip_loop_ok by done. by replace (S (2 * n)) with (2 * n + 1)%nat by lia.
Qed.
End Parse.
