(* ===== verification/Dma.v ===== *)
(** Buffers for devices (src/mem/dmalloc.c).

    A buffer is a run of physical pages seen through the direct map; a registry
    remembers the pages of each live buffer.  The registry is a list of its
    entries with the addresses of their nodes; the pages come from the model of
    pma.c itself, the nodes from an interface to heap.c.  The theorems tie the
    registry to the live allocations of the page allocator, whose theorems make
    live buffers disjoint. *)

From S2P Require Import Prelude Mem Vmm Cmm Pma PmaSpec PmaZone PmaSys.

Class NodeHeap (B : Type) := {
  malloc_node : B → result (Z * B);
  free_node : B → Z → result B
}.

Section Dma.
Context {B : Type} `{!NodeHeap B}.

(** The start of the direct map. *)
Variable hhdm_offset : Z.

Record DMARegistry := mkReg { node : Z; virt : Z; pages : Z }.
Record dma := mkDma { registry : list DMARegistry; pma : pma_state; heap : B }.

(** The node is written without a check. *)
Definition register_dma (v n : Z) (s : dma) : result dma :=
  '(a, b) ← malloc_node (heap s);
  if a =? NULL then Fault else mret (mkDma (mkReg a v n :: registry s) (pma s) b).

(** The buffer's virtual and physical address. *)
Definition dma_finish (phys n : Z) (s : dma) : result (Z * Z * dma) :=
  if phys =? 0 then mret (0, 0, s)
  else
    let v := u64 (phys + hhdm_offset) in
    s ← register_dma v n s; mret (v, phys, s).

Definition dmalloc (size : Z) (s : dma) : result (Z * Z * dma) :=
  let n := u64 (size + 4095) / 4096 in
  '(phys, p) ← pma_alloc_pages (pma s) n;
  dma_finish phys n (mkDma (registry s) p (heap s)).

Definition dmalloc32 (size : Z) (s : dma) : result (Z * Z * dma) :=
  let n := u64 (size + 4095) / 4096 in
  '(phys, p) ← pma_alloc_pages_low (pma s) n;
  dma_finish phys n (mkDma (registry s) p (heap s)).

(** The walk: the entries passed are in [prev], last first. *)
Fixpoint dmfree_loop (virt_addr : Z) (prev curr : list DMARegistry) (s : dma) : result dma :=
  match curr with
  | [] => mret s
  | e :: rest =>
      if virt e =? virt_addr then
        p ← pma_free_pages (pma s) (u64 (virt e - hhdm_offset)) (pages e);
        b ← free_node (heap s) (node e);
        mret (mkDma (rev_append prev rest) p b)
      else dmfree_loop virt_addr (e :: prev) rest s
  end.

Definition dmfree (virt_addr : Z) (s : dma) : result dma :=
  if virt_addr =? 0 then mret s else dmfree_loop virt_addr [] (registry s) s.

(** * The registry and the page allocator *)

Hypothesis hhdm_range : 0 <= hhdm_offset < 2 ^ 64.

(** The run of pages of an entry. *)
Definition entry_run (e : DMARegistry) : Z * Z := (u64 (virt e - hhdm_offset), pages e).

(** The live allocations of the page allocator are the entries. *)
Definition dma_ok (s0 : pma_state) (s : dma) : Prop := pma_reach s0 (pma s) (entry_run <$> registry s).

Lemma dma_phys p : 0 <= p < 2 ^ 64 → u64 (u64 (p + hhdm_offset) - hhdm_offset) = p.
Proof.
  intros Hp. unfold u64. rewrite Zminus_mod_idemp_l. replace (p + hhdm_offset - hhdm_offset) with p by lia.
  apply Z.mod_small. lia.
Qed.

(** The number of pages of a buffer of [size] bytes. *)
Lemma dma_pages size : 0 < size <= 2 ^ 45 → 0 < u64 (size + 4095) / 4096 <= 2 ^ 34.
Proof.
  intros. rewrite u64_id by lia. split; [apply Z.div_str_pos; lia|]. apply Z.div_le_upper_bound; lia.
Qed.

Lemma dma_finish_ok s0 live p (s s' : dma) phys n v q :
  (live = entry_run <$> registry s) → 0 <= phys < 2 ^ 64 →
  pma_reach s0 p (if decide (phys = 0) then live else (phys, n) :: live) →
  dma_finish phys n (mkDma (registry s) p (heap s)) = Ok (v, q, s') →
  dma_ok s0 s' ∧ q = phys ∧ (phys = 0 ∧ v = 0 ∨ phys ≠ 0 ∧ v = u64 (phys + hhdm_offset) ∧ ∃ a, registry s' = mkReg a v n :: registry s).
Proof.
  intros -> Hp Hr. unfold dma_finish. destruct (Z.eqb_spec phys 0) as [->|H0].
  - intros [= <- <- <-]. split; [exact Hr|]. split; [done|by left].
  - intros ([s1]&E&H)%bind_ok. injection H as <- <- <-. unfold register_dma in E.
    destruct (malloc_node _) as [[a b]| | |]; [|done..]. cbn [mbind result_bind heap] in E.
    destruct (a =? NULL); [done|]. injection E as <- <- <-. rewrite decide_False in Hr by done.
    split; [|split; [done|right; split; [done|split; [done|by exists a]]]].
    unfold dma_ok. simpl. unfold entry_run at 1. cbn [virt pages registry pma]. by rewrite dma_phys.
Qed.

(** Every state the three functions reach from an empty registry. *)
Inductive dma_reach (s0 : dma) : dma → Prop :=
| dma_start : dma_reach s0 s0
| dma_any s size v q s' : dma_reach s0 s → 0 < size <= 2 ^ 45 → dmalloc size s = Ok (v, q, s') → dma_reach s0 s'
| dma_low s size v q s' : dma_reach s0 s → 0 < size <= 2 ^ 45 → dmalloc32 size s = Ok (v, q, s') → dma_reach s0 s'
| dma_freed s v s' : dma_reach s0 s → dmfree v s = Ok s' → dma_reach s0 s'.

Lemma dmfree_loop_ok s0 v prev curr (s s' : dma) :
  registry s = rev prev ++ curr → dma_ok s0 s → dmfree_loop v prev curr s = Ok s' →
  dma_ok s0 s' ∧ (s' = s ∧ Forall (λ e, virt e ≠ v) curr ∨
    ∃ l1 e l2, curr = l1 ++ e :: l2 ∧ virt e = v ∧ Forall (λ e, virt e ≠ v) l1 ∧ registry s' = rev prev ++ l1 ++ l2).
Proof.
  revert prev. induction curr as [|e rest IH]; intros prev Hreg Hok; cbn [dmfree_loop].
  - intros [= <-]. split; [done|]. by left.
  - destruct (Z.eqb_spec (virt e) v) as [He|He].
    + intros (p&Ep&(b&Eb&H)%bind_ok)%bind_ok. injection H as <-. unfold dma_ok in *. cbn [pma registry].
      rewrite rev_append_rev. rewrite Hreg, fmap_app, fmap_cons in Hok. unfold entry_run at 2 in Hok. split.
      * rewrite fmap_app. by apply (reach_free _ _ _ _ _ _ _ Hok Ep).
      * right. exists [], e, rest. done.
    + intros E. destruct (IH (e :: prev)) as [H1 H2]; [|done|exact E|].
      { rewrite Hreg. simpl. by rewrite <- app_assoc. }
      split; [done|]. destruct H2 as [[-> H2]|(l1&e'&l2&->&Hv&Hl1&Hr)].
      * left. split; [done|]. by constructor.
      * right. exists (e :: l1), e', l2. split; [done|]. split; [done|]. split; [by constructor|].
        rewrite Hr. simpl. by rewrite <- app_assoc.
Qed.

(** Pages come from below 2^48. *)
Lemma alloc_result_range p p' FN FL FN' FL' r n :
  pma_inv p FN FL → 0 < n → alloc_result p p' FN FL FN' FL' r n → 0 <= r < 2 ^ 64.
Proof.
  intros Hi Hn [[-> _]|(Hr&_&Hz&_)]; [lia|].
  pose proof (zi_total _ _ _ _ _ _ (pi_low _ _ _ _ Hi)). pose proof (zi_total _ _ _ _ _ _ (pi_normal _ _ _ _ Hi)).
  unfold in_one_zone, PAGE_SIZE in *. lia.
Qed.

Lemma reach_range base FN0 FL0 p live n r p' :
  pma_inv base FN0 FL0 → pma_reach base p live → 0 < n <= 2 ^ 34 →
  pma_alloc_pages p n = Ok (r, p') ∨ pma_alloc_pages_low p n = Ok (r, p') → 0 <= r < 2 ^ 64.
Proof.
  intros Hi Hr Hn Ha. destruct (pma_reach_ok (free_page FN0 FL0) base p live FN0 FL0 Hi ltac:(done) Hr) as (FN&FL&Hs).
  pose proof (sys_inv _ _ _ _ _ Hs) as Hp. destruct Ha as [E|E].
  - destruct (pma_alloc_pages_ok 1 p FN FL n Hp ltac:(lia) Hn) as (r'&s'&FN'&FL'&E'&_&Hres). rewrite E in E'. injection E' as <- <-.
    apply (alloc_result_range p p' FN FL FN' FL' r n); [done|lia|done].
  - destruct (pma_alloc_pages_low_ok p FN FL n Hp Hn) as (r'&s'&FN'&FL'&E'&_&Hres). rewrite E in E'. injection E' as <- <-.
    apply (alloc_result_range p p' FN FL FN' FL' r n); [done|lia|done].
Qed.

(** The registry lists the live runs of pages in every reachable state. *)
Lemma dma_reach_ok (s0 s : dma) (base : pma_state) :
  registry s0 = [] → pma s0 = base → (∃ FN FL, pma_inv base FN FL) → dma_reach s0 s → dma_ok base s.
Proof.
  intros Hreg Hb (FN&FL&Hi) Hr. induction Hr as [|s size v q s' _ IH Hsz E|s size v q s' _ IH Hsz E|s v s' _ IH E].
  - unfold dma_ok. rewrite Hreg, Hb. constructor.
  - unfold dmalloc in E. apply bind_ok in E as ([phys p]&Ep&E). pose proof (dma_pages size Hsz) as Hn.
    eapply (dma_finish_ok base _ p s); [done| | |exact E].
    + by apply (reach_range base FN FL (pma s) _ (u64 (size + 4095) / 4096) phys p Hi IH Hn); left.
    + by apply (reach_alloc base (pma s)).
  - unfold dmalloc32 in E. apply bind_ok in E as ([phys p]&Ep&E). pose proof (dma_pages size Hsz) as Hn.
    eapply (dma_finish_ok base _ p s); [done| | |exact E].
    + by apply (reach_range base FN FL (pma s) _ (u64 (size + 4095) / 4096) phys p Hi IH Hn); right.
    + by apply (reach_alloc_low base (pma s)).
  - unfold dmfree in E. destruct (v =? 0); [by injection E as <-|].
    by apply (dmfree_loop_ok base v [] (registry s) s s').
Qed.

(** Live buffers are disjoint runs of pages that are not free, in every state
    reached from a fresh registry over a sound page allocator. *)
Theorem dma_buffers_apart (s0 s : dma) FN FL :
  registry s0 = [] → pma_inv (pma s0) FN FL → dma_reach s0 s →
  ForallOrdPairs disjoint_ranges (entry_run <$> registry s) ∧
  ∃ FN' FL', pma_inv (pma s) FN' FL' ∧ Forall (λ e, live_ok (pma s) FN' FL' (entry_run e).1 (entry_run e).2) (registry s).
Proof.
  intros Hreg Hi Hr. pose proof (dma_reach_ok s0 s (pma s0) Hreg eq_refl ltac:(by eexists _, _) Hr) as Hok.
  destruct (pma_reach_ok (free_page FN FL) _ _ _ FN FL Hi ltac:(done) Hok) as (FN'&FL'&[Hi' Hl Hd _]).
  split; [done|]. exists FN', FL'. split; [done|]. by apply Forall_fmap in Hl.
Qed.
End Dma.
