(* ===== verification/Symtable.v ===== *)
(** Kernel symbols by name (src/symtable.c, src/symtable.h).

    A blob in memory holds a count, packed entries sorted by name, and the names.
    The file models the initialisation and the two lookups on byte memory and
    proves that the binary search finds exactly the names of the table, in at
    most one step more than the binary logarithm of their number. *)

From S2P Require Import Prelude Mem Crc32 Bytes.

(** [sizeof(struct SymTableEntry)]: an address and an offset, packed. *)
Definition ENTRY_SIZE : Z := 12.

(** The instance and the size of the pool of names. *)
Record SymTable := mkSym {
  entries : Z;
  string_blob : Z;
  entry_count : Z;
  k_string_pool_max : Z
}.

Definition k_symtable_instance : SymTable := mkSym NULL NULL 0 0.

Definition symtable_init (m : memory) (table_blob total_size : Z) : result SymTable :=
  if (table_blob =? NULL) || (total_size <? 8) then Panic "SYMTABLE" "invalid arguments"
  else
    count ← load_le 8 m table_blob;
    let expected_entries_size := u64 (count * ENTRY_SIZE) in
    let header_plus_entries := u64 (8 + expected_entries_size) in
    if header_plus_entries >? total_size then Panic "SYMTABLE" "malformed data"
    else mret (mkSym (u64 (table_blob + 8)) (u64 (table_blob + header_plus_entries)) count (total_size - header_plus_entries)).

(** The name, or NULL, and what is written to [out_addr] when anything is. *)
Definition symtable_lookup (m : memory) (t : SymTable) (index : Z) : result (Z * option Z) :=
  if (entries t =? NULL) || (index >=? entry_count t) then mret (NULL, None)
  else
    let entry := u64 (entries t + index * ENTRY_SIZE) in
    address ← load_le 8 m entry;
    string_offset ← load_le 4 m (entry + 8);
    if string_offset >=? k_string_pool_max t then mret (NULL, Some address)
    else mret (u64 (string_blob t + string_offset), Some address).

(** The binary search; [fs] is the fuel of [strcmp]. *)
Fixpoint search_loop (fuel fs : nat) (m : memory) (t : SymTable) (name low high : Z) : result Z :=
  match fuel with
  | O => Fuel
  | S fuel =>
      if low <=? high then
        let mid := low + (high - low) / 2 in
        '(sym_name, out) ← symtable_lookup m t mid;
        let addr := default 0 out in
        if sym_name =? NULL then mret 0
        else
          res ← strcmp fs m name sym_name;
          if res =? 0 then mret addr
          else if res <? 0 then
            if mid =? 0 then mret 0 else search_loop fuel fs m t name low (mid - 1)
          else search_loop fuel fs m t name (u64 (mid + 1)) high
      else mret 0
  end.

Definition symtable_lookup_name (fuel fs : nat) (m : memory) (t : SymTable) (name : Z) : result Z :=
  if (name =? NULL) || (entry_count t =? 0) then mret 0
  else search_loop fuel fs m t name 0 (entry_count t - 1).

(** * Well-formed tables *)

Lemma str_diff_anti a b : str_diff a b = - str_diff b a.
Proof.
  revert b. induction a as [|x a IH]; intros [|y b]; simpl; try lia.
  rewrite (Z.eqb_sym y x). case_z; [apply IH|lia].
Qed.

(** The symbol [i] of the blob: its address and its name. *)
Definition symbol_at (m : memory) (blob total n : Z) (i : Z) (name : list Z) (addr : Z) : Prop :=
  ∃ off, load_le 8 m (blob + 8 + i * ENTRY_SIZE) = Ok addr ∧ load_le 4 m (blob + 8 + i * ENTRY_SIZE + 8) = Ok off ∧
    0 <= off < total - (8 + n * ENTRY_SIZE) ∧ cstring m (blob + (8 + n * ENTRY_SIZE) + off) name.

(** A blob of [total] bytes with the symbols [L], sorted by name. *)
Record table_ok (m : memory) (blob total : Z) (L : list (list Z * Z)) : Prop := {
  tb_place : 0 < blob ∧ blob + total < 2 ^ 64;
  tb_count : load_le 8 m blob = Ok (Z.of_nat (length L));
  tb_fits : 8 + Z.of_nat (length L) * ENTRY_SIZE <= total;
  tb_symbols i name addr : L !! i = Some (name, addr) →
    symbol_at m blob total (Z.of_nat (length L)) (Z.of_nat i) name addr;
  tb_sorted : StronglySorted (λ a b, str_diff a.1 b.1 < 0) L
}.

(** The address of a name, 0 when there is none. *)
Definition address_of (L : list (list Z * Z)) (name : list Z) : Z :=
  match list_find (λ e, e.1 = name) L with Some (_, e) => e.2 | None => 0 end.

Section Search.
Variable m : memory.
Variables blob total : Z.
Variable L : list (list Z * Z).
Hypothesis Htab : table_ok m blob total L.

(** What [symtable_init] leaves. *)
Definition table : SymTable :=
  mkSym (blob + 8) (blob + (8 + Z.of_nat (length L) * ENTRY_SIZE)) (Z.of_nat (length L))
    (total - (8 + Z.of_nat (length L) * ENTRY_SIZE)).

Lemma symtable_init_ok : symtable_init m blob total = Ok table.
Proof.
  destruct Htab as [[Hb Ht] Hc Hf _ _]. unfold symtable_init, ENTRY_SIZE in *.
  rewrite (proj2 (Z.eqb_neq blob NULL)), (proj2 (Z.ltb_ge total 8)) by (unfold NULL; lia).
  rewrite Hc. cbn [orb mbind result_bind]. rewrite !u64_id by (rewrite ?u64_id; lia).
  rewrite Z.gtb_ltb, (proj2 (Z.ltb_ge total _)) by lia. done.
Qed.

Lemma lookup_ok i name addr : L !! i = Some (name, addr) →
  ∃ p, symtable_lookup m table (Z.of_nat i) = Ok (p, Some addr) ∧ p ≠ NULL ∧ cstring m p name.
Proof.
  intros Hi. destruct Htab as [[Hb Ht] _ Hf Hs _]. destruct (Hs i name addr Hi) as (off&Ha&Ho&Hoff&Hn).
  apply lookup_lt_Some in Hi. unfold symtable_lookup, table. cbn [entries entry_count string_blob k_string_pool_max].
  unfold ENTRY_SIZE in *. rewrite (proj2 (Z.eqb_neq (blob + 8) NULL)) by (unfold NULL; lia).
  rewrite Z.geb_leb, (proj2 (Z.leb_gt _ (Z.of_nat i))) by lia. cbn [orb].
  rewrite u64_id by lia. rewrite Ha. cbn [mbind result_bind]. rewrite Ho. cbn [mbind result_bind].
  rewrite Z.geb_leb, (proj2 (Z.leb_gt _ off)) by lia. rewrite u64_id by lia.
  eexists. split; [done|]. split; [unfold NULL; lia|done].
Qed.

(** Sorted names: an index on the wrong side of the name is not its own. *)
Lemma sorted_apart i j x y : (i < j)%nat → L !! i = Some x → L !! j = Some y → str_diff x.1 y.1 < 0.
Proof.
  pose proof (tb_sorted _ _ _ _ Htab) as Hs. clear Htab. revert i j. induction Hs as [|z l Hl IH Hz]; intros i j Hij Hi Hj; [done|].
  destruct j as [|j]; [lia|]. destruct i as [|i]; simpl in *.
  - injection Hi as ->. by apply (Forall_lookup_1 _ _ _ _ Hz Hj).
  - by apply (IH i j); [lia|..].
Qed.

(** No symbol outside of [low, high] has the name. *)
Definition narrowed (name : list Z) (low high : Z) : Prop :=
  ∀ i e, L !! i = Some e → e.1 = name → low <= Z.of_nat i <= high.

Lemma str_diff_self a : str_diff a a = 0.
Proof. induction a as [|x a IH]; simpl; [done|]. by rewrite Z.eqb_refl. Qed.

Lemma address_none name low high : narrowed name low high → high < low → address_of L name = 0.
Proof.
  intros Hn Hlt. unfold address_of. destruct (list_find _ L) as [[i e]|] eqn:E; [|done].
  apply list_find_Some in E as (Hi&He&_). pose proof (Hn i e Hi He). lia.
Qed.

Lemma address_some i name addr : L !! i = Some (name, addr) → address_of L name = addr.
Proof.
  intros Hi. unfold address_of. destruct (list_find _ L) as [[j e]|] eqn:E.
  - apply list_find_Some in E as (Hj&He&Hfirst). destruct (Nat.lt_trichotomy i j) as [Hlt|[->|Hlt]].
    + by destruct (Hfirst i (name, addr) Hi Hlt).
    + assert (e = (name, addr)) as -> by congruence. done.
    + pose proof (sorted_apart j i _ _ Hlt Hj Hi) as H. rewrite He in H. simpl in H. rewrite str_diff_self in H. lia.
  - apply list_find_None in E. apply (Forall_lookup_1 _ _ _ _ E) in Hi. done.
Qed.

Lemma strcmp_ok fs p q a b : cstring m p a → cstring m q b → (length a < fs)%nat → strcmp fs m p q = Ok (str_diff a b).
Proof.
  intros Ha Hb Hf. pose proof Ha as (?&_). pose proof Hb as (?&_).
  unfold strcmp, nonnull. rewrite !(proj2 (Z.eqb_neq _ NULL)) by (unfold NULL; lia). cbn [mbind result_bind].
  apply (strcmp_loop_ok fs m p q a b 0); [done|done|lia|lia|lia].
Qed.

(** A comparison with the middle removes one side. *)
Lemma narrow_left name low high i x : L !! i = Some x → str_diff name x.1 < 0 →
  narrowed name low high → narrowed name low (Z.of_nat i - 1).
Proof.
  intros Hi Hlt Hn j e Hj He. pose proof (Hn j e Hj He). split; [lia|].
  destruct (Nat.lt_trichotomy i j) as [Hij|[->|Hij]]; [|exfalso|lia].
  - pose proof (sorted_apart i j _ _ Hij Hi Hj) as H1. rewrite str_diff_anti, He in H1. lia.
  - assert (e = x) as -> by congruence. rewrite He, str_diff_self in Hlt. lia.
Qed.

Lemma narrow_right name low high i x : L !! i = Some x → 0 < str_diff name x.1 →
  narrowed name low high → narrowed name (Z.of_nat i + 1) high.
Proof.
  intros Hi Hlt Hn j e Hj He. pose proof (Hn j e Hj He). split; [|lia].
  destruct (Nat.lt_trichotomy i j) as [Hij|[->|Hij]]; [lia|exfalso|].
  - assert (e = x) as -> by congruence. rewrite He, str_diff_self in Hlt. lia.
  - pose proof (sorted_apart j i _ _ Hij Hj Hi) as H1. rewrite He in H1. lia.
Qed.

Lemma search_loop_ok fuel fs p name low high :
  cstring m p name → (length name < fs)%nat → narrowed name low high →
  0 <= low → 0 <= high < Z.of_nat (length L) → high - low + 1 < 2 ^ Z.of_nat fuel →
  search_loop (S fuel) fs m table p low high = Ok (address_of L name).
Proof.
  intros Hp Hfs. revert low high. induction fuel as [|fuel IH]; intros low high Hn Hl Hh Hsz.
  { change (2 ^ Z.of_nat 0) with 1 in Hsz. cbn [search_loop]. rewrite (proj2 (Z.leb_gt _ _)) by lia.
    by rewrite (address_none name low high) by (done || lia). }
  assert (2 ^ Z.of_nat (S fuel) = 2 * 2 ^ Z.of_nat fuel) as Hpow by (rewrite Nat2Z.inj_succ; apply Z.pow_succ_r; lia).
  rewrite Hpow in Hsz. remember (S fuel) as f eqn:Ef. cbn [search_loop].
  destruct (Z.leb_spec low high) as [Hle|Hgt]; [|by rewrite (address_none name low high)].
  pose proof (Z.div_mod (high - low) 2 ltac:(lia)) as Hdm. pose proof (Z.mod_pos_bound (high - low) 2 ltac:(lia)) as Hmod.
  set (d := (high - low) / 2) in *. cbn zeta.
  destruct (lookup_lt_is_Some_2 L (Z.to_nat (low + d))) as [[nm ad] Hi]; [lia|].
  destruct (lookup_ok _ nm ad Hi) as (q&E&Hq&Hcq). rewrite Z2Nat.id in E by lia. rewrite E. cbn [mbind result_bind].
  rewrite (proj2 (Z.eqb_neq q NULL)) by done. rewrite (strcmp_ok fs p q name nm) by done. cbn [mbind result_bind].
  destruct (Z.eqb_spec (str_diff name nm) 0) as [H0|H0].
  { destruct Hp as (_&Hc1&_). destruct Hcq as (_&Hc2&_). apply str_diff_zero in H0; [|done..]. subst nm.
    by rewrite (address_some _ _ _ Hi). }
  destruct (Z.ltb_spec (str_diff name nm) 0) as [Hlt|Hge].
  - pose proof (narrow_left name low high _ _ Hi Hlt Hn) as Hn'. rewrite Z2Nat.id in Hn' by lia.
    destruct (Z.eqb_spec (low + d) 0) as [Hm|Hm].
    + by rewrite (address_none name low (low + d - 1)) by (done || lia).
    + subst f. apply IH; [done|lia|lia|lia].
  - pose proof (narrow_right name low high _ _ Hi ltac:(simpl; lia) Hn) as Hn'. rewrite Z2Nat.id in Hn' by lia.
    pose proof (tb_place _ _ _ _ Htab). pose proof (tb_fits _ _ _ _ Htab). unfold ENTRY_SIZE in *.
    rewrite u64_id by lia. subst f. apply IH; [done|lia|lia|lia].
Qed.

(** C30: On a blob with sorted names the initialisation succeeds and
    [symtable_lookup_name] returns the address of the symbol of that name, 0
    when there is none; fewer than [2^fuel] symbols are searched in [fuel + 1]
    steps. *)
Theorem symtable_lookup_name_correct fuel fs p name :
  cstring m p name → (length name < fs)%nat → Z.of_nat (length L) < 2 ^ Z.of_nat fuel →
  symtable_init m blob total = Ok table ∧
  symtable_lookup_name (S fuel) fs m table p = Ok (address_of L name).
Proof.
  intros Hp Hfs Hsz. split; [apply symtable_init_ok|]. unfold symtable_lookup_name.
  assert (p ≠ NULL) as Hp0 by (destruct Hp as (?&_); unfold NULL; lia).
  rewrite (proj2 (Z.eqb_neq p NULL)) by done. cbn [orb table entry_count].
  destruct (Z.eqb_spec (Z.of_nat (length L)) 0) as [H0|H0].
  - by destruct L.
  - apply search_loop_ok; [done|done| |lia|lia|lia]. intros i e Hi _. apply lookup_lt_Some in Hi. lia.
Qed.
End Search.

(** * A run *)

(** Two symbols, "exit" and "main". *)
Definition demo_blob : bytes :=
  le 8 2 ++ le 8 0x1000 ++ le 4 0 ++ le 8 0x2000 ++ le 4 5 ++ [101; 120; 105; 116; 0; 109; 97; 105; 110; 0].
Definition demo_mem : memory := list_to_map (zip (seqZ 0x4000 42) demo_blob) ∪ list_to_map (zip (seqZ 0x5000 5) [109; 97; 105; 110; 0]).

Ltac demo_string :=
  split; [vm_compute; reflexivity|]; split; [repeat (apply Forall_cons; split; [lia|]); by apply Forall_nil|]; split; [vm_compute; reflexivity|];
  split; intros i Hi; simpl in Hi;
  (destruct i as [|[|[|[|[|i]]]]]; [..|lia]); (split; vm_compute; reflexivity) || (vm_compute; reflexivity).

Lemma demo_table : table_ok demo_mem 0x4000 42 [([101; 120; 105; 116], 0x1000); ([109; 97; 105; 110], 0x2000)].
Proof.
  split.
  - lia.
  - vm_compute. reflexivity.
  - vm_compute. discriminate.
  - intros [|[|i]] name addr; simpl; intros [= <- <-].
    + exists 0. split; [vm_compute; reflexivity|]. split; [vm_compute; reflexivity|]. split; [vm_compute; split; congruence|]. demo_string.
    + exists 5. split; [vm_compute; reflexivity|]. split; [vm_compute; reflexivity|]. split; [vm_compute; split; congruence|]. demo_string.
  - repeat constructor.
Qed.

Lemma symtable_lookup_name_correct_witness :
  symtable_lookup_name 3 5 demo_mem (table 0x4000 42 [([101; 120; 105; 116], 0x1000); ([109; 97; 105; 110], 0x2000)]) 0x5000 = Ok 0x2000.
Proof.
  apply (symtable_lookup_name_correct demo_mem 0x4000 42 _ demo_table 2 5 0x5000 [109; 97; 105; 110]).
  - demo_string.
  - simpl. lia.
  - simpl. lia.
Defined.
