(* ===== verification/Cmdline.v ===== *)
(** Kernel arguments (src/cmdline.c, src/cmdline.h, src/math/fnv1a.c).

    The command line is a C string of words, each a key with an optional value;
    the parser fills a registry that the lookups search by hash and key.  Strings
    are the characters before the NUL.  The theorem shows that a printed list of
    arguments is parsed back and that each key is looked up to its first value. *)

From S2P Require Import Prelude Mem Stdio.

(** * FNV-1a *)

Definition FNV_OFFSET_BASIS : Z := 14695981039346656037.
Definition FNV_PRIME : Z := 1099511628211.

(** A [char] is signed and is extended to 64 bits. *)
Definition hash_fnv1a (key : list Z) : Z :=
  foldl (λ hash c, u64 (Z.lxor hash (u64 (sint 8 c)) * FNV_PRIME)) FNV_OFFSET_BASIS key.

(** * The registry *)

Definition CMDLINE_MAX_ARGS : Z := 128.

Record arg_entry_t := mkArgEntry { key : list Z; value : list Z; hash : Z; found : bool }.

(** The loop over leading spaces. *)
Fixpoint skip_spaces (cmd : list Z) : list Z :=
  match cmd with c :: rest => if c =? 32 then skip_spaces rest else cmd | [] => [] end.

(** Copy at most [n] characters while [ok]; what was copied and what is left. *)
Fixpoint copy_while (ok : Z → bool) (n : nat) (cmd : list Z) : list Z * list Z :=
  match n, cmd with
  | S n, c :: rest => if ok c then let '(r, cmd) := copy_while ok n rest in (c :: r, cmd) else ([], cmd)
  | _, _ => ([], cmd)
  end.

Definition key_char (c : Z) : bool := negb (c =? 61) && negb (c =? 32).
Definition value_char (c : Z) : bool := negb (c =? 32).

(** One argument. *)
Definition parse_entry (cmd : list Z) : arg_entry_t * list Z :=
  let '(k, cmd) := copy_while key_char 31 cmd in
  match cmd with
  | c :: rest =>
      if c =? 61 then let '(v, cmd) := copy_while value_char 63 rest in (mkArgEntry k v (hash_fnv1a k) true, cmd)
      else (mkArgEntry k [] (hash_fnv1a k) true, cmd)
  | [] => (mkArgEntry k [] (hash_fnv1a k) true, [])
  end.

(** The registry holds the entries in use; every round consumes a character. *)
Fixpoint parse_loop (fuel : nat) (cmd : list Z) (arg_registry : list arg_entry_t) : result (list arg_entry_t) :=
  match fuel with
  | O => Fuel
  | S fuel =>
      match cmd with
      | [] => mret arg_registry
      | _ =>
          match skip_spaces cmd with
          | [] => mret arg_registry
          | cmd =>
              if Z.of_nat (length arg_registry) >=? CMDLINE_MAX_ARGS
              then Panic "CMDLINE" "argument registry overflow! number of arguments exceeds CMDLINE_MAX_ARGS"
              else let '(e, cmd) := parse_entry cmd in parse_loop fuel cmd (arg_registry ++ [e])
          end
      end
  end.

Definition cmdline_parse (cmdline_str : list Z) (arg_registry : list arg_entry_t) : result (list arg_entry_t) :=
  parse_loop (S (length cmdline_str)) cmdline_str arg_registry.

(** [cmdline_init]; [None] is the NULL pointer.  The lines logged are left out. *)
Definition cmdline_init (cmdline_str : option (list Z)) (arg_registry : list arg_entry_t) : result (list arg_entry_t) :=
  match cmdline_str with
  | None | Some [] => mret arg_registry
  | Some s => cmdline_parse s arg_registry
  end.

(** The index of the key, -1 when there is none. *)
Definition cmdline_find (arg_registry : list arg_entry_t) (k : list Z) : Z :=
  let target_hash := hash_fnv1a k in
  match list_find (λ e, ((hash e =? target_hash) && (str_diff (key e) k =? 0))%bool) arg_registry with
  | Some (i, _) => Z.of_nat i
  | None => -1
  end.

Definition value_at (arg_registry : list arg_entry_t) (idx : Z) : list Z :=
  match arg_registry !! Z.to_nat idx with Some e => value e | None => [] end.

Definition cmdline_get_string (arg_registry : list arg_entry_t) (k : list Z) : option (list Z) :=
  let idx := cmdline_find arg_registry k in
  if negb (idx =? -1) then Some (value_at arg_registry idx) else None.

Definition cmdline_get_uint (arg_registry : list arg_entry_t) (k : list Z) (default_val : Z) : Z :=
  let idx := cmdline_find arg_registry k in
  if negb (idx =? -1) && negb (peek (value_at arg_registry idx) =? 0)
  then strtoull (value_at arg_registry idx)
  else default_val.

Definition cmdline_has_key (arg_registry : list arg_entry_t) (k : list Z) : bool :=
  negb (cmdline_find arg_registry k =? -1).

(** * Arguments and their text *)

Definition arg := (list Z * option (list Z))%type.

Definition print_arg (a : arg) : list Z := a.1 ++ match a.2 with Some v => 61 :: v | None => [] end.

(** The words, each behind a space. *)
Definition print_args (l : list arg) : list Z := flat_map (λ a, 32 :: print_arg a) l.

Definition text_char (c : Z) : Prop := 1 <= c < 256.

(** Keys and values that fit the entry and hold no separator. *)
Definition arg_ok (a : arg) : Prop :=
  a.1 ≠ [] ∧ (length a.1 <= 31)%nat ∧ Forall (λ c, text_char c ∧ c ≠ 61 ∧ c ≠ 32) a.1 ∧
  match a.2 with Some v => (length v <= 63)%nat ∧ Forall (λ c, text_char c ∧ c ≠ 32) v | None => True end.

Definition arg_entry (a : arg) : arg_entry_t := mkArgEntry a.1 (default [] a.2) (hash_fnv1a a.1) true.

(** The first value of a key. *)
Definition first_value (l : list arg) (k : list Z) : option (list Z) :=
  match list_find (λ a : arg, a.1 = k) l with Some (_, a) => Some (default [] a.2) | None => None end.

Lemma copy_while_ok ok n s rest :
  (length s <= n)%nat → Forall (λ c, ok c = true) s → match rest with c :: _ => ok c = false | [] => True end →
  copy_while ok n (s ++ rest) = (s, rest).
Proof.
  intros Hl Hs Hr. revert n Hl. induction Hs as [|c s Hc Hs IH]; intros n Hl; simpl.
  - destruct n, rest as [|c rest]; simpl; try done. by rewrite Hr.
  - destruct n as [|n]; [simpl in Hl; lia|]. simpl. rewrite Hc, IH by (simpl in Hl; lia). done.
Qed.

(** A rest that starts at a space or is empty. *)
Definition at_word (rest : list Z) : Prop := match rest with c :: _ => c = 32 | [] => True end.

Lemma parse_entry_ok a rest : arg_ok a → at_word rest → parse_entry (print_arg a ++ rest) = (arg_entry a, rest).
Proof.
  intros (_&Hl&Hk&Hv) Hr. destruct a as [k o]. cbn [fst snd] in *. unfold parse_entry, print_arg. cbn [fst snd].
  assert (Forall (λ c, key_char c = true) k) as Hk'.
  { eapply Forall_impl; [exact Hk|]. intros c (_&?&?). unfold key_char. by settle_z. }
  destruct o as [v|].
  - rewrite <- app_assoc. rewrite (copy_while_ok key_char 31 k) by done. cbn [app]. change (61 =? 61) with true. cbn iota.
    destruct Hv as [Hvl Hv]. rewrite (copy_while_ok value_char 63 v).
    + done.
    + done.
    + eapply Forall_impl; [exact Hv|]. intros c (_&?). unfold value_char. by settle_z.
    + destruct rest; [done|]. simpl in Hr. by subst.
  - rewrite app_nil_r. rewrite (copy_while_ok key_char 31 k); [|done|done|].
    + destruct rest as [|c rest]; [done|]. simpl in Hr. by subst.
    + destruct rest as [|c rest]; [done|]. simpl in Hr. by subst.
Qed.

Lemma print_args_at_word l : at_word (print_args l).
Proof. by destruct l. Qed.

Lemma parse_loop_ok fuel l reg :
  Forall arg_ok l → (length (print_args l) < fuel)%nat → Z.of_nat (length reg + length l) <= CMDLINE_MAX_ARGS →
  parse_loop fuel (print_args l) reg = Ok (reg ++ (arg_entry <$> l)).
Proof.
  intros Hl. revert fuel reg. induction Hl as [|a l Ha Hl IH]; intros [|fuel] reg Hf Hc; [simpl in Hf; lia| |simpl in Hf; lia|].
  { by rewrite app_nil_r. }
  pose proof Ha as (Hne&_&Hk&_). assert (∃ c k, a.1 = c :: k ∧ c ≠ 32) as (c&k&Ek&Hc32).
  { destruct (a.1) as [|c k]; [done|]. apply Forall_cons in Hk as [(_&_&?) _]. by exists c, k. }
  assert (skip_spaces (print_args (a :: l)) = print_arg a ++ print_args l) as Es.
  { simpl. unfold print_arg. rewrite Ek. simpl. by rewrite (proj2 (Z.eqb_neq c 32)). }
  cbn [parse_loop]. rewrite Es. cbn [print_args flat_map].
  assert (∃ x y, print_arg a ++ print_args l = x :: y) as (x&y&Exy) by (unfold print_arg; rewrite Ek; by eexists _, _).
  change (flat_map _ l) with (print_args l). cbn [app]. rewrite Exy. rewrite <- Exy.
  rewrite Z.geb_leb, (proj2 (Z.leb_gt _ _)) by (simpl in Hc; unfold CMDLINE_MAX_ARGS in *; lia).
  rewrite parse_entry_ok by (done || apply print_args_at_word). cbn [fmap list_fmap].
  rewrite IH.
  - by rewrite <- app_assoc.
  - simpl in Hf. rewrite length_app in Hf. change (flat_map _ l) with (print_args l) in Hf. lia.
  - rewrite length_app. simpl in *. lia.
Qed.

(** The hash only filters: the entry found is the first with the key. *)
Lemma find_ok l k : Forall arg_ok l → Forall text_char k →
  cmdline_find (arg_entry <$> l) k = match list_find (λ a : arg, a.1 = k) l with Some (i, _) => Z.of_nat i | None => -1 end.
Proof.
  intros Hl Hk. unfold cmdline_find. cbn zeta.
  assert (list_find (λ e, ((hash e =? hash_fnv1a k) && (str_diff (key e) k =? 0))%bool) (arg_entry <$> l) =
    prod_map id arg_entry <$> list_find (λ a : arg, a.1 = k) l) as ->.
  { induction Hl as [|a l Ha Hl IH]; [done|]. cbn [fmap list_fmap list_find]. rewrite IH. destruct Ha as (_&_&Hka&_).
    assert (str_diff a.1 k = 0 ↔ a.1 = k) as Hd.
    { apply str_diff_zero; [|exact Hk]. eapply Forall_impl; [exact Hka|]. by intros c (?&_). }
    destruct (decide (a.1 = k)) as [E|E].
    - rewrite decide_True; [done|]. simpl. rewrite E, Z.eqb_refl. simpl. rewrite E in Hd. by rewrite (proj2 Hd).
    - rewrite decide_False; [by destruct (list_find _ l) as [[? ?]|]|]. simpl.
      rewrite (proj2 (Z.eqb_neq (str_diff a.1 k) 0)) by tauto. rewrite andb_false_r. by intros []. }
  by destruct (list_find _ l) as [[i a]|].
Qed.

Lemma get_string_ok l k : Forall arg_ok l → Forall text_char k →
  cmdline_get_string (arg_entry <$> l) k = first_value l k.
Proof.
  intros Hl Hk. unfold cmdline_get_string, first_value. rewrite find_ok by done.
  destruct (list_find _ l) as [[i a]|] eqn:E; [|done]. rewrite (proj2 (Z.eqb_neq (Z.of_nat i) (-1))) by lia. cbn [negb].
  apply list_find_Some in E as (Hi&_). unfold value_at. rewrite Nat2Z.id, list_lookup_fmap, Hi. done.
Qed.

(** C31: Every list of at most 128 arguments, keys of 1 to 31 and values of at
    most 63 characters without separators, is parsed back from its text, and
    every key is looked up to its first value, present keys only; hash
    collisions change nothing. *)
Theorem cmdline_roundtrip l :
  Forall arg_ok l → Z.of_nat (length l) <= CMDLINE_MAX_ARGS →
  ∃ reg, cmdline_init (Some (print_args l)) [] = Ok reg ∧ reg = arg_entry <$> l ∧
    ∀ k, Forall text_char k →
      cmdline_get_string reg k = first_value l k ∧
      cmdline_has_key reg k = bool_decide (k ∈ l.*1) ∧
      ∀ d, cmdline_get_uint reg k d =
        match first_value l k with Some (c :: v) => strtoull (c :: v) | _ => d end.
Proof.
  intros Hl Hlen. exists (arg_entry <$> l). split; [|split; [done|]].
  - unfold cmdline_init, cmdline_parse. destruct l as [|a l]; [done|].
    destruct (print_args (a :: l)) as [|c s] eqn:E; [done|]. rewrite <- E. rewrite (parse_loop_ok _ (a :: l) []); [done|done|lia|done].
  - intros k Hk. split; [by apply get_string_ok|]. pose proof (get_string_ok l k Hl Hk) as Hget.
    unfold cmdline_get_string in Hget. unfold cmdline_has_key, cmdline_get_uint.
    assert (negb (cmdline_find (arg_entry <$> l) k =? -1) = bool_decide (k ∈ l.*1)) as Hhas.
    { rewrite find_ok by done. destruct (list_find _ l) as [[i a]|] eqn:E.
      - apply list_find_Some in E as (Hi&Ha&_). rewrite (proj2 (Z.eqb_neq (Z.of_nat i) (-1))) by lia. symmetry.
        apply bool_decide_eq_true. apply list_elem_of_fmap. exists a. split; [done|]. by eapply list_elem_of_lookup_2.
      - symmetry. apply bool_decide_eq_false. intros (a&->&Ha)%list_elem_of_fmap. apply list_find_None in E.
        rewrite Forall_forall in E. by apply (E a). }
    split; [exact Hhas|]. intros d. destruct (negb _) eqn:En; rewrite <- Hget; [|done]. cbn [andb].
    destruct (value_at _ _) as [|c v] eqn:Ev; [done|]. change (peek (c :: v)) with c.
    assert (c ≠ 0) as Hc.
    { assert (first_value l k = Some (c :: v)) as Hf by (symmetry; exact Hget). unfold first_value in Hf.
      destruct (list_find _ l) as [[i [k' [v'|]]]|] eqn:E; [|done..]. apply list_find_Some in E as (Hi&_). simpl in Hf. injection Hf as ->.
      apply (Forall_lookup_1 _ _ _ _ Hl) in Hi as (_&_&_&_&Hv). apply Forall_cons in Hv as [[Hv _] _]. unfold text_char in Hv. lia. }
    by rewrite (proj2 (Z.eqb_neq c 0)).
Qed.

(** "root=sda1", "quiet" *)
Definition demo_args : list arg := [([114; 111; 111; 116], Some [115; 100; 97; 49]); ([113; 117; 105; 101; 116], None)].

Lemma cmdline_roundtrip_witness : ∃ reg, cmdline_init (Some (print_args demo_args)) [] = Ok reg ∧
  cmdline_get_string reg [114; 111; 111; 116] = Some [115; 100; 97; 49].
Proof.
  destruct (cmdline_roundtrip demo_args) as (reg&E&_&H).
  - repeat (apply Forall_cons; split; [split; [discriminate|]; split; [simpl; lia|]; split|]); try apply Forall_nil; try exact I;
      repeat (apply Forall_cons; split; [unfold text_char; lia|]); try apply Forall_nil; try exact I.
    split; [simpl; lia|]. repeat (apply Forall_cons; split; [unfold text_char; lia|]). apply Forall_nil. exact I.
  - vm_compute. discriminate.
  - exists reg. split; [exact E|]. apply (proj1 (H [114; 111; 111; 116] ltac:(repeat (apply Forall_cons; split; [unfold text_char; lia|]); apply Forall_nil; exact I))).
Defined.

(** A key of 32 characters becomes two arguments, and so does a value of 64. *)
Example long_words_split :
  (reg ← cmdline_init (Some (replicate 32 97)) []; mret (length reg)) = Ok 2%nat ∧
  (reg ← cmdline_init (Some ([107; 61] ++ replicate 64 97)) []; mret (length reg)) = Ok 2%nat.
Proof. vm_compute. done. Qed.
