(* ===== verification/Logbuf.v ===== *)
(** The log buffer (src/logbuf.c, src/logbuf.h).

    A ring of 16384 bytes with a write and a read position.  The file models its
    operations, the formatted write on top of the model of stdio.c, and proves
    them against a queue of at most 16383 bytes; runs show what a write that does
    not fit does. *)

From S2P Require Import Prelude Mem Crc32 Bytes Stdio StdioSpec.

Definition LOGBUF_SIZE : Z := 16384.

Record logbuf := mkLog { buffer : bytes; write_pos : Z; read_pos : Z; wrapped : bool }.

Definition logbuf_putc (c : Z) (s : logbuf) : result logbuf :=
  b ← put (buffer s) (write_pos s) [c];
  let w := (write_pos s + 1) mod LOGBUF_SIZE in
  if w =? read_pos s then mret (mkLog b w ((read_pos s + 1) mod LOGBUF_SIZE) true)
  else mret (mkLog b w (read_pos s) (wrapped s)).

(** The string is its characters before the NUL. *)
Definition logbuf_write (str : bytes) (s : logbuf) : result logbuf :=
  let len := Z.of_nat (length str) in
  let space_until_end := LOGBUF_SIZE - write_pos s in
  let first_chunk := if len <? space_until_end then len else space_until_end in
  let second_chunk := len - first_chunk in
  b ← put (buffer s) (write_pos s) (take (Z.to_nat first_chunk) str);
  b ← (if second_chunk >? 0 then put b 0 (drop (Z.to_nat first_chunk) str) else mret b);
  let w := (write_pos s + len) mod LOGBUF_SIZE in
  if len >=? LOGBUF_SIZE then mret (mkLog b w w true)
  else if (w >? read_pos s) && (u64 (w - len) <? read_pos s) then mret (mkLog b w w true)
  else if (w <? read_pos s) && (u64 (w + LOGBUF_SIZE - len) <? read_pos s) then mret (mkLog b w w true)
  else mret (mkLog b w (read_pos s) (wrapped s)).

(** The characters before the NUL of a buffer. *)
Fixpoint c_string (b : bytes) : result bytes :=
  match b with
  | [] => Fault
  | c :: b => if c =? 0 then mret [] else r ← c_string b; mret (c :: r)
  end.

(** The buffer on the stack, at [addr], holds whatever was there. *)
Definition logbuf_vprintf (addr : Z) (temp_buf : bytes) (fmt : bytes) (args : va_list) (s : logbuf) : result logbuf :=
  '(_, b) ← vsnprintf addr temp_buf 1028 fmt args;
  str ← c_string b;
  logbuf_write str s.
Definition logbuf_printf := logbuf_vprintf.

(** What is sent to the device; [target] says whether it has a [putc]. *)
Fixpoint flush_loop (fuel : nat) (curr : Z) (s : logbuf) : result bytes :=
  match fuel with
  | O => Fuel
  | S fuel =>
      if negb (curr =? write_pos s) then
        c ← of_option (buffer s !! Z.to_nat curr);
        r ← flush_loop fuel ((curr + 1) mod LOGBUF_SIZE) s; mret (c :: r)
      else mret []
  end.

Definition logbuf_flush (target : bool) (s : logbuf) : result bytes :=
  if negb target then mret [] else flush_loop (Z.to_nat LOGBUF_SIZE) (read_pos s) s.

Definition logbuf_clear (s : logbuf) : logbuf := mkLog (buffer s) (write_pos s) (write_pos s) (wrapped s).

(** * The queue *)

(** The byte [k] places behind the read position. *)
Definition ring_at (s : logbuf) (k : Z) : option Z := buffer s !! Z.to_nat ((read_pos s + k) mod LOGBUF_SIZE).

(** The state holds the queue [q], oldest byte first. *)
Definition holds_queue (s : logbuf) (q : bytes) : Prop :=
  Z.of_nat (length (buffer s)) = LOGBUF_SIZE ∧ 0 <= read_pos s < LOGBUF_SIZE ∧
  Z.of_nat (length q) < LOGBUF_SIZE ∧ write_pos s = (read_pos s + Z.of_nat (length q)) mod LOGBUF_SIZE ∧
  ∀ k, 0 <= k < Z.of_nat (length q) → ring_at s k = q !! Z.to_nat k.

(** [a mod LOGBUF_SIZE] for [a] below two rounds. *)
Lemma ring_mod a : 0 <= a < 2 * LOGBUF_SIZE → a mod LOGBUF_SIZE = if a <? LOGBUF_SIZE then a else a - LOGBUF_SIZE.
Proof.
  unfold LOGBUF_SIZE. intros Ha. case_z; [apply Z.mod_small; lia|]. symmetry. apply (Z.mod_unique _ _ 1); lia.
Qed.

Lemma put_some b off v : 0 <= off → off + Z.of_nat (length v) <= Z.of_nat (length b) → ∃ b', put b off v = Ok b'.
Proof. intros. destruct (put_ok b off v) as (b'&E&_); [done|done|by exists b']. Qed.

(** A byte goes to the end of the queue and pushes out the oldest when the ring
    is full. *)
Lemma logbuf_putc_ok s q c : holds_queue s q →
  ∃ s', logbuf_putc c s = Ok s' ∧
    holds_queue s' (if Z.of_nat (length q) =? LOGBUF_SIZE - 1 then drop 1 q ++ [c] else q ++ [c]).
Proof.
  intros (Hb&Hr&Hq&Hw&Hk). assert (LOGBUF_SIZE = 16384) as HN by done.
  rewrite ring_mod in Hw by lia.
  assert (0 <= write_pos s < LOGBUF_SIZE) as Hwr by (rewrite Hw; case_z; lia).
  destruct (put_some (buffer s) (write_pos s) [c]) as (b&Eb); [lia|simpl; lia|].
  destruct (put_lookup _ _ _ _ Eb) as (Lb&_&_&Hbl). change (Z.of_nat (length [c])) with 1 in Hbl.
  unfold logbuf_putc. rewrite Eb. cbn [mbind result_bind]. rewrite ring_mod by lia.
  set (w' := if write_pos s + 1 <? LOGBUF_SIZE then _ else _).
  assert (w' = read_pos s ↔ Z.of_nat (length q) = LOGBUF_SIZE - 1) as Hfull.
  { unfold w'. revert Hw. repeat case_z; lia. }
  assert (∀ k, 0 <= k <= Z.of_nat (length q) → b !! Z.to_nat ((read_pos s + k) mod LOGBUF_SIZE) = (q ++ [c]) !! Z.to_nat k) as Hat.
  { intros k Hk'. rewrite ring_mod by lia. rewrite Hbl by (case_z; lia).
    destruct (decide (k = Z.of_nat (length q))) as [->|Hne].
    - rewrite <- Hw. settle_z. cbn [andb]. rewrite Z.sub_diag, lookup_app_r by lia. by replace (_ - _)%nat with 0%nat by lia.
    - specialize (Hk k ltac:(lia)). unfold ring_at in Hk. rewrite ring_mod in Hk by lia.
      rewrite lookup_app_l by lia. rewrite <- Hk. revert Hw. repeat case_z; cbn [andb]; try done; lia. }
  destruct (Z.eqb_spec w' (read_pos s)) as [E|E].
  - rewrite (proj2 (Z.eqb_eq _ _)) by (by apply Hfull). eexists. split; [done|].
    unfold holds_queue, ring_at. cbn [buffer read_pos write_pos]. rewrite length_app, length_drop. simpl length.
    pose proof (Z.mod_pos_bound (read_pos s + 1) LOGBUF_SIZE ltac:(lia)).
    split; [lia|]. split; [lia|]. split; [lia|]. split.
    + rewrite Zplus_mod_idemp_l, E. apply (Z.mod_unique _ _ 1); lia.
    + intros k Hk'. rewrite Zplus_mod_idemp_l. replace (read_pos s + 1 + k) with (read_pos s + (k + 1)) by lia.
      rewrite Hat by lia. destruct q as [|x q]; [simpl in Hfull; lia|]. cbn [drop]. simpl length in *.
      replace (Z.to_nat (k + 1)) with (S (Z.to_nat k)) by lia. done.
  - rewrite (proj2 (Z.eqb_neq _ _)) by (by rewrite <- Hfull). eexists. split; [done|].
    unfold holds_queue, ring_at. cbn [buffer read_pos write_pos]. rewrite length_app. simpl length.
    split; [lia|]. split; [lia|]. split; [lia|]. split.
    + unfold w'. rewrite ring_mod by lia. revert Hw. repeat case_z; lia.
    + intros k Hk'. apply Hat. lia.
Qed.

(** The two copies of [logbuf_write] are one copy around the ring. *)
Lemma ring_copy b w str :
  Z.of_nat (length b) = LOGBUF_SIZE → 0 <= w < LOGBUF_SIZE → Z.of_nat (length str) <= LOGBUF_SIZE →
  let first := if Z.of_nat (length str) <? LOGBUF_SIZE - w then Z.of_nat (length str) else LOGBUF_SIZE - w in
  ∃ b', (b1 ← put b w (take (Z.to_nat first) str);
         if Z.of_nat (length str) - first >? 0 then put b1 0 (drop (Z.to_nat first) str) else mret b1) = Ok b' ∧
    length b' = length b ∧
    ∀ i, 0 <= i < LOGBUF_SIZE → b' !! Z.to_nat i =
      let k := (i - w) mod LOGBUF_SIZE in if k <? Z.of_nat (length str) then str !! Z.to_nat k else b !! Z.to_nat i.
Proof.
  intros Hb Hw Hl first. assert (LOGBUF_SIZE = 16384) as HN by done.
  assert (0 <= first <= Z.of_nat (length str) ∧ first <= LOGBUF_SIZE - w ∧ (first = Z.of_nat (length str) ∨ first = LOGBUF_SIZE - w)) as Hf
    by (unfold first; case_z; lia).
  assert (Z.of_nat (length (take (Z.to_nat first) str)) = first) as Lt by (rewrite length_take; lia).
  destruct (put_some b w (take (Z.to_nat first) str)) as (b1&E1); [lia|lia|].
  destruct (put_lookup _ _ _ _ E1) as (L1&_&_&H1). rewrite Lt in H1. rewrite E1. cbn [mbind result_bind].
  assert (∀ i, 0 <= i < LOGBUF_SIZE → (i - w) mod LOGBUF_SIZE = if i <? w then i - w + LOGBUF_SIZE else i - w) as Hmod.
  { intros i Hi. case_z; [symmetry; apply (Z.mod_unique _ _ (-1)); lia|apply Z.mod_small; lia]. }
  rewrite Z.gtb_ltb. destruct (Z.ltb_spec 0 (Z.of_nat (length str) - first)) as [Hs|Hs].
  - assert (Z.of_nat (length (drop (Z.to_nat first) str)) = Z.of_nat (length str) - first) as Ld by (rewrite length_drop; lia).
    destruct (put_some b1 0 (drop (Z.to_nat first) str)) as (b2&E2); [lia|lia|].
    destruct (put_lookup _ _ _ _ E2) as (L2&_&_&H2). rewrite Ld in H2. exists b2. split; [done|]. split; [congruence|].
    intros i Hi. cbn zeta. rewrite H2, H1, Hmod by lia.
    destruct (Z.ltb_spec i w); settle_z; cbn [andb].
    + case_z; settle_z; [|done]. rewrite lookup_drop. f_equal. lia.
    + rewrite lookup_take_lt by lia. done.
  - exists b1. split; [done|]. split; [done|]. intros i Hi. cbn zeta. rewrite H1, Hmod by lia.
    destruct (Z.ltb_spec i w); settle_z; cbn [andb]; [done|]. case_z; settle_z; [|done].
    by rewrite take_ge by lia.
Qed.

(** A write that fits goes to the end of the queue. *)
Lemma logbuf_write_ok s q str :
  holds_queue s q → Z.of_nat (length q) + Z.of_nat (length str) < LOGBUF_SIZE →
  ∃ s', logbuf_write str s = Ok s' ∧ holds_queue s' (q ++ str) ∧ wrapped s' = wrapped s.
Proof.
  intros (Hb&Hr&Hq&Hw&Hk) Hfit. assert (LOGBUF_SIZE = 16384) as HN by done.
  pose proof Hw as Hw0. rewrite ring_mod in Hw by lia.
  assert (0 <= write_pos s < LOGBUF_SIZE) as Hwr by (rewrite Hw; case_z; lia).
  destruct (ring_copy (buffer s) (write_pos s) str Hb Hwr ltac:(lia)) as (b'&E&Lb&Hat). cbn zeta in E, Hat.
  apply bind_ok in E as (b1&E1&E2). unfold logbuf_write. rewrite E1. cbn [mbind result_bind]. rewrite E2. cbn [mbind result_bind].
  set (len := Z.of_nat (length str)) in *. rewrite Z.geb_leb, (proj2 (Z.leb_gt _ _)) by lia.
  rewrite (ring_mod (write_pos s + len)) by lia. set (w' := if write_pos s + len <? _ then _ else _).
  assert ((w' >? read_pos s) && (u64 (w' - len) <? read_pos s) = false)%bool as ->.
  { rewrite Z.gtb_ltb. apply andb_false_iff. destruct (Z.ltb_spec (read_pos s) w') as [H|H]; [right|by left].
    apply Z.ltb_ge. unfold w' in *. revert Hw H. repeat case_z; intros; try lia; rewrite u64_id by lia; lia. }
  assert ((w' <? read_pos s) && (u64 (w' + LOGBUF_SIZE - len) <? read_pos s) = false)%bool as ->.
  { apply andb_false_iff. destruct (Z.ltb_spec w' (read_pos s)) as [H|H]; [right|by left].
    apply Z.ltb_ge. unfold w' in *. revert Hw H. repeat case_z; intros; try lia; rewrite u64_id by lia; lia. }
  eexists. split; [done|]. split; [|done]. unfold holds_queue, ring_at. cbn [buffer read_pos write_pos].
  rewrite length_app. split; [lia|]. split; [lia|]. split; [lia|]. split.
  - rewrite Nat2Z.inj_add. fold len. unfold w'. rewrite <- ring_mod by lia. rewrite Hw0, Zplus_mod_idemp_l. f_equal. lia.
  - intros k Hk'. pose proof (Z.mod_pos_bound (read_pos s + k) LOGBUF_SIZE ltac:(lia)). rewrite Hat by lia. cbn zeta.
    rewrite Hw0, Zminus_mod_idemp_l, Zminus_mod_idemp_r. replace (read_pos s + k - (read_pos s + Z.of_nat (length q))) with (k - Z.of_nat (length q)) by lia.
    destruct (Z.ltb_spec k (Z.of_nat (length q))) as [H'|H'].
    + replace ((k - Z.of_nat (length q)) mod LOGBUF_SIZE) with (k - Z.of_nat (length q) + LOGBUF_SIZE) by (apply (Z.mod_unique _ _ (-1)); lia).
      settle_z. specialize (Hk k ltac:(lia)). unfold ring_at in Hk. rewrite Hk, lookup_app_l by lia. done.
    + rewrite Z.mod_small by lia. settle_z. rewrite lookup_app_r by lia. f_equal. lia.
Qed.

Lemma flush_loop_ok fuel s q k :
  holds_queue s q → 0 <= k <= Z.of_nat (length q) → Z.of_nat (length q) - k < Z.of_nat fuel →
  flush_loop fuel ((read_pos s + k) mod LOGBUF_SIZE) s = Ok (drop (Z.to_nat k) q).
Proof.
  intros (Hb&Hr&Hq&Hw&Hk). assert (LOGBUF_SIZE = 16384) as HN by done. revert k.
  induction fuel as [|fuel IH]; intros k Hk' Hf; [lia|]. cbn [flush_loop]. rewrite Hw.
  assert (((read_pos s + k) mod LOGBUF_SIZE =? (read_pos s + Z.of_nat (length q)) mod LOGBUF_SIZE) = (k =? Z.of_nat (length q))) as ->.
  { rewrite !ring_mod by lia. repeat case_z; lia. }
  destruct (Z.eqb_spec k (Z.of_nat (length q))) as [->|Hne]; cbn [negb].
  - by rewrite drop_ge by lia.
  - specialize (Hk k ltac:(lia)). unfold ring_at in Hk. rewrite Hk.
    destruct (lookup_lt_is_Some_2 q (Z.to_nat k)) as [c Ec]; [lia|]. rewrite Ec. cbn [of_option mbind result_bind].
    rewrite Zplus_mod_idemp_l. replace (read_pos s + k + 1) with (read_pos s + (k + 1)) by lia.
    rewrite IH by lia. cbn [mbind result_bind mret result_ret]. rewrite (drop_S q c _ Ec). by replace (S (Z.to_nat k)) with (Z.to_nat (k + 1)) by lia.
Qed.

Lemma c_string_ok s r : Forall (λ c, c ≠ 0) s → c_string (s ++ 0 :: r) = Ok s.
Proof. induction 1 as [|c s Hc Hs IH]; simpl; [done|]. rewrite (proj2 (Z.eqb_neq c 0)), IH by done. done. Qed.

(** The log is a queue: a byte pushes out the oldest one when the ring is full, a
    formatted line that fits is appended, cut to 1027 bytes, a flush sends the
    queue to the device and keeps it, a clear empties it. *)
Theorem logbuf_correct s q :
  holds_queue s q →
  (∀ c, ∃ s', logbuf_putc c s = Ok s' ∧
    holds_queue s' (if Z.of_nat (length q) =? LOGBUF_SIZE - 1 then drop 1 q ++ [c] else q ++ [c])) ∧
  (∀ addr temp fmt args out, placed addr 1028 → length temp = 1028%nat → Forall arg_ok args → spec_format fmt args = Ok out →
    StdioSpec.room addr out → Forall (λ c, c ≠ 0) out →
    Z.of_nat (length q) + Z.of_nat (length (take 1027 out)) < LOGBUF_SIZE →
    ∃ s', logbuf_vprintf addr temp fmt args s = Ok s' ∧ holds_queue s' (q ++ take 1027 out)) ∧
  logbuf_flush true s = Ok q ∧ holds_queue (logbuf_clear s) [].
Proof.
  intros H. split; [intros c; exact (logbuf_putc_ok s q c H)|]. split; [|split].
  - intros addr temp fmt args out Ha Ht Hargs Hs Hroom Hz Hfit. unfold logbuf_vprintf.
    rewrite (vsnprintf_ok addr temp 1028 fmt args out) by (done || lia). cbn [mbind result_bind].
    unfold printed. cbn [Z.gtb Z.compare]. change (Z.to_nat (1028 - 1)) with 1027%nat. cbn zeta.
    rewrite c_string_ok by by apply Forall_take. cbn [mbind result_bind].
    destruct (logbuf_write_ok s q (take 1027 out) H Hfit) as (s'&E&Hq&_). by exists s'.
  - unfold logbuf_flush. cbn [negb]. pose proof H as (_&Hr&Hl&_).
    pose proof (flush_loop_ok (Z.to_nat LOGBUF_SIZE) s q 0 H) as E. rewrite Z.add_0_r, Z.mod_small in E by done.
    rewrite E by (unfold LOGBUF_SIZE in *; lia). done.
  - pose proof H as (Hb&Hr&Hl&Hw&_). assert (LOGBUF_SIZE = 16384) as HN by done.
    assert (0 <= write_pos s < LOGBUF_SIZE) by (rewrite Hw; apply Z.mod_pos_bound; lia).
    unfold holds_queue, logbuf_clear. cbn [buffer read_pos write_pos]. split; [done|]. split; [done|]. split; [simpl; lia|].
    split; [rewrite Z.add_0_r, Z.mod_small; done|]. intros k Hk. simpl in Hk. lia.
Qed.

(** * Writes that do not fit *)

(** 16380 unread bytes, the write position near the end of the buffer. *)
Definition nearly_full : logbuf := mkLog (replicate (Z.to_nat LOGBUF_SIZE) 46) 16381 1 false.

(** Ten more bytes overwrite the oldest ones; the code notices only when the
    write does not wrap, and keeps the 6 bytes between the positions. *)
Example overflow_missed :
  (s ← logbuf_write (replicate 10 43) nearly_full; mret (write_pos s, read_pos s, wrapped s)) = Ok (7, 1, false) ∧
  (s ← logbuf_write (replicate 10 43) nearly_full; logbuf_flush true s) = Ok (replicate 6 43).
Proof. vm_compute. done. Qed.

(** When it notices, it drops the whole log, the string just written included. *)
Example overflow_drops_all :
  (s ← logbuf_write (replicate 10 43) (mkLog (replicate (Z.to_nat LOGBUF_SIZE) 46) 5 10 false); logbuf_flush true s) = Ok [].
Proof. vm_compute. done. Qed.
