(* ===== verification/Smbios.v ===== *)
(** The SMBIOS tables of the firmware (src/firmware/smbios/smbios.c, smbios.h).

    A table is a sequence of structures in memory, each a header, a formatted
    area and a set of strings that two NULs end; a structure of type 127 is the
    last.  The file models the search by type and by handle, the access to the
    strings and the choice of the entry point, and proves the searches and the
    strings right on every well-formed table. *)

From S2P Require Import Prelude Mem Crc32 Bytes.

Record smbios_state := mkSmbios {
  smbios_table_base : Z;
  smbios_major : Z;
  smbios_minor : Z;
  smbios_available : bool
}.

Definition smbios_start : smbios_state := mkSmbios 0 0 0 false.

(** The fields of [struct smbios_header]. *)
Definition header_type (m : memory) (a : Z) : result Z := load8 m a.
Definition header_length (m : memory) (a : Z) : result Z := load8 m (a + 1).
Definition header_handle (m : memory) (a : Z) : result Z := load_le 2 m (a + 2).

(** The walk to the two NULs that end the strings. *)
Fixpoint skip_strings (fuel : nat) (m : memory) (next_addr : Z) : result Z :=
  match fuel with
  | O => Fuel
  | S fuel =>
      w ← load_le 2 m next_addr;
      if negb (w =? 0) then skip_strings fuel m (next_addr + 1) else mret next_addr
  end.

(** The address behind a structure. *)
Definition next_structure (fuel : nat) (m : memory) (current_addr : Z) : result Z :=
  len ← header_length m current_addr;
  e ← skip_strings fuel m (current_addr + len);
  mret (e + 2).

Fixpoint type_loop (fuel fs : nat) (m : memory) (type index current_addr match_count : Z) : result Z :=
  match fuel with
  | O => Fuel
  | S fuel =>
      t ← header_type m current_addr;
      if (t =? type) && (match_count =? index) then mret current_addr
      else
        let match_count := if t =? type then match_count + 1 else match_count in
        if t =? 127 then mret NULL
        else a ← next_structure fs m current_addr; type_loop fuel fs m type index a match_count
  end.

Definition smbios_get_by_type (fuel fs : nat) (m : memory) (s : smbios_state) (type index : Z) : result Z :=
  if negb (smbios_available s) || (smbios_table_base s =? 0) then mret NULL
  else type_loop fuel fs m type index (smbios_table_base s) 0.

Fixpoint handle_loop (fuel fs : nat) (m : memory) (handle current_addr : Z) : result Z :=
  match fuel with
  | O => Fuel
  | S fuel =>
      h ← header_handle m current_addr;
      if h =? handle then mret current_addr
      else
        t ← header_type m current_addr;
        if t =? 127 then mret NULL
        else a ← next_structure fs m current_addr; handle_loop fuel fs m handle a
  end.

Definition smbios_get_by_handle (fuel fs : nat) (m : memory) (s : smbios_state) (handle : Z) : result Z :=
  if negb (smbios_available s) || (smbios_table_base s =? 0) then mret NULL
  else handle_loop fuel fs m handle (smbios_table_base s).

(** The result of [smbios_get_string]: one of its two constants or a pointer. *)
Inductive smbios_string := StrNone | StrUnknown | StrAt (p : Z).

(** The end of the string at [p]. *)
Fixpoint string_end (fuel : nat) (m : memory) (p : Z) : result Z :=
  match fuel with
  | O => Fuel
  | S fuel => c ← load8 m p; if negb (c =? 0) then string_end fuel m (p + 1) else mret p
  end.

(** [n] strings are still to be passed. *)
Fixpoint string_loop (n fs : nat) (m : memory) (str_table : Z) : result smbios_string :=
  match n with
  | O => mret (StrAt str_table)
  | S n =>
      e ← string_end fs m str_table;
      c ← load8 m (e + 1);
      if c =? 0 then mret StrUnknown else string_loop n fs m (e + 1)
  end.

Definition smbios_get_string (fs : nat) (m : memory) (header idx : Z) : result smbios_string :=
  if idx =? 0 then mret StrNone
  else
    len ← header_length m header;
    string_loop (Z.to_nat (idx - 1)) fs m (header + len).

(** The entry points: 64-bit first.  The structures are read at their packed
    offsets; the log lines are left out. *)
Definition anchor_is (m : memory) (entry : Z) (anchor : bytes) : result bool :=
  a ← load_bytes (length anchor) m entry; mret (bytes_eqb a anchor).

Definition init_64 (m : memory) (entry_64 : Z) (s : smbios_state) : result smbios_state :=
  if entry_64 =? NULL then mret s
  else
    ok ← anchor_is m entry_64 [95; 83; 77; 51; 95];
    if (ok : bool) then
      base ← load_le 8 m (entry_64 + 16);
      major ← load8 m (entry_64 + 7);
      minor ← load8 m (entry_64 + 8);
      mret (mkSmbios base major minor true)
    else mret s.

Definition init_32 (m : memory) (entry_32 : Z) (s : smbios_state) : result smbios_state :=
  if smbios_available s || (entry_32 =? NULL) then mret s
  else
    ok ← anchor_is m entry_32 [95; 83; 77; 95];
    if (ok : bool) then
      base ← load_le 4 m (entry_32 + 24);
      major ← load8 m (entry_32 + 6);
      minor ← load8 m (entry_32 + 7);
      mret (mkSmbios base major minor true)
    else mret s.

Definition smbios_init (m : memory) (entry_32 entry_64 : Z) (s : smbios_state) : result smbios_state :=
  s ← init_64 m entry_64 s; init_32 m entry_32 s.

(** * Tables *)

Record structure := mkStruct { st_type : Z; st_handle : Z; st_body : bytes; st_strings : list bytes }.

(** A NUL behind every string and one more at the end; two when there is none. *)
Definition string_image (l : list bytes) : bytes :=
  match l with [] => [0; 0] | _ => flat_map (λ s, s ++ [0]) l ++ [0] end.

Definition image (s : structure) : bytes :=
  [st_type s; 4 + Z.of_nat (length (st_body s))] ++ le 2 (st_handle s) ++ st_body s ++ string_image (st_strings s).

Definition structure_ok (s : structure) : Prop :=
  is_byte (st_type s) ∧ 0 <= st_handle s < 2 ^ 16 ∧ (length (st_body s) < 252)%nat ∧
  Forall (λ t, t ≠ [] ∧ Forall (λ c, 1 <= c < 256) t) (st_strings s).

(** Structures up to the first of type 127. *)
Definition table_ok (L : list structure) : Prop :=
  Forall structure_ok L ∧ ∃ l e, L = l ++ [e] ∧ st_type e = 127 ∧ Forall (λ s, st_type s ≠ 127) l.

Definition size (s : structure) : Z := Z.of_nat (length (image s)).

(** Where the [n]-th structure with [p] starts, NULL when there is none. *)
Fixpoint find_structure (p : structure → bool) (n : nat) (L : list structure) (a : Z) : Z :=
  match L with
  | [] => NULL
  | s :: L =>
      if p s then match n with O => a | S n => find_structure p n L (a + size s) end
      else find_structure p n L (a + size s)
  end.

(** ** Strings *)

(** The strings with single NULs between them. *)
Fixpoint joined (l : list bytes) : bytes :=
  match l with [] => [] | [s] => s | s :: l => s ++ 0 :: joined l end.

Lemma joined_cons s t l : joined (s :: t :: l) = s ++ 0 :: joined (t :: l).
Proof. done. Qed.

Lemma string_image_joined l : string_image l = joined l ++ [0; 0].
Proof.
  destruct l as [|s l]; [done|]. unfold string_image.
  assert (flat_map (λ s, s ++ [0]) (s :: l) = joined (s :: l) ++ [0]) as ->; [|by rewrite <- app_assoc].
  revert s. induction l as [|t l IH]; intros s; [simpl; by rewrite app_nil_r|].
  rewrite joined_cons, <- app_assoc. change (flat_map (λ s, s ++ [0]) (s :: t :: l)) with ((s ++ [0]) ++ flat_map (λ s, s ++ [0]) (t :: l)).
  rewrite IH, <- app_assoc. done.
Qed.

(** No two NULs in a row, a NUL following. *)
Fixpoint calm (x : bytes) : Prop :=
  match x with [] => True | c :: x => (c ≠ 0 ∨ hd 0 x ≠ 0) ∧ calm x end.

Definition text (t : bytes) : Prop := t ≠ [] ∧ Forall (λ c, 1 <= c < 256) t.

Lemma calm_text s y : Forall (λ c, 1 <= c < 256) s → calm y → calm (s ++ y).
Proof. induction 1 as [|c s Hc Hs IH]; intros Hy; [done|]. simpl. split; [left; lia|by apply IH]. Qed.

Lemma joined_hd s l : text s → hd 0 (joined (s :: l)) ≠ 0.
Proof.
  intros [Hne Hs]. destruct s as [|c s]; [done|]. apply Forall_cons in Hs as [Hc _].
  destruct l; simpl; lia.
Qed.

Lemma joined_calm l : Forall text l → calm (joined l) ∧ Forall is_byte (joined l).
Proof.
  assert (∀ s, Forall (λ c, 1 <= c < 256) s → Forall is_byte s) as Hbyte.
  { intros s Hs. eapply Forall_impl; [exact Hs|]. unfold is_byte. intros c. lia. }
  induction 1 as [|s l Hs Hl IH]; [done|]. destruct l as [|t l].
  - destruct Hs as [_ Hs]. split; [|by apply Hbyte]. simpl. rewrite <- (app_nil_r s). by apply calm_text.
  - rewrite joined_cons. destruct IH as [IH1 IH2]. apply Forall_cons in Hl as [Ht _]. destruct Hs as [_ Hs]. split.
    + apply calm_text; [done|]. split; [right; by apply joined_hd|done].
    + apply Forall_app. split; [by apply Hbyte|]. constructor; [unfold is_byte; lia|done].
Qed.

(** The walk stops at the two NULs behind a calm text. *)
Lemma skip_strings_ok fuel m a x : stored m a (x ++ [0; 0]) → calm x → Forall is_byte x → (length x < fuel)%nat →
  skip_strings fuel m a = Ok (a + Z.of_nat (length x)).
Proof.
  revert fuel a. induction x as [|c x IH]; intros [|fuel] a H Hc Hb Hf; try (simpl in Hf; lia); cbn [skip_strings].
  - unfold load_le. apply stored_bytes in H. cbn [app length] in H. rewrite H.
    change (Z.of_nat (length [])) with 0. by rewrite Z.add_0_r.
  - destruct Hc as [Hne Hc]. apply Forall_cons in Hb as [Hbc Hb].
    assert (load_le 2 m a = Ok (c + 256 * (hd 0 x + 0))) as ->.
    { change ((c :: x) ++ [0; 0]) with ([c] ++ (x ++ [0; 0])) in H.
      assert (∃ y, [c] ++ x ++ [0; 0] = [c; hd 0 x] ++ y) as [y Ey] by (destruct x; by eexists).
      rewrite Ey in H. apply stored_app in H as [H _]. apply stored_bytes in H. unfold load_le. cbn [length] in H.
      rewrite H. cbn [mbind result_bind mret result_ret le_val]. done. }
    cbn [mbind result_bind].
    assert (is_byte (hd 0 x)) as Hh by (destruct x; [unfold is_byte; simpl; lia|by apply Forall_cons in Hb as [? _]]).
    unfold is_byte in *. rewrite (proj2 (Z.eqb_neq _ 0)) by lia. cbn [negb].
    change ((c :: x) ++ [0; 0]) with ([c] ++ (x ++ [0; 0])) in H. apply stored_app in H as [_ H].
    rewrite (IH fuel (a + 1)); [f_equal; simpl length; lia|done|done|done|simpl in Hf; lia].
Qed.

Lemma string_end_ok fuel m p s y : stored m p (s ++ 0 :: y) → Forall (λ c, 1 <= c < 256) s → (length s < fuel)%nat →
  string_end fuel m p = Ok (p + Z.of_nat (length s)).
Proof.
  intros H Hs. revert fuel p H. induction Hs as [|c s Hc Hs IH]; intros [|fuel] p H Hf; try (simpl in Hf; lia); cbn [string_end].
  - pose proof (stored_load m p _ 0 H ltac:(simpl; lia)) as E. rewrite Z.add_0_r in E. rewrite E.
    change (Z.of_nat (length [])) with 0. by rewrite Z.add_0_r.
  - pose proof (stored_load m p _ 0 H ltac:(simpl; lia)) as E. rewrite Z.add_0_r in E. rewrite E.
    cbn [mbind result_bind]. change ((c :: s) ++ 0 :: y) with ([c] ++ (s ++ 0 :: y)) in *. apply stored_app in H as [_ H].
    change (([c] ++ s ++ 0 :: y) !!! 0%nat) with c. rewrite (proj2 (Z.eqb_neq c 0)) by lia. cbn [negb].
    change (p + Z.of_nat (length [c])) with (p + 1) in H. rewrite (IH fuel (p + 1) H) by (simpl in Hf; lia). f_equal. simpl length. lia.
Qed.

(** String [n] of the set, or the end of the set. *)
Lemma string_loop_ok fs m l n p :
  l ≠ [] → Forall text l → Forall (λ t, (length t < fs)%nat) l → stored m p (string_image l) →
  match l !! n with
  | Some t => ∃ q, string_loop n fs m p = Ok (StrAt q) ∧ stored m q (t ++ [0])
  | None => string_loop n fs m p = Ok StrUnknown
  end.
Proof.
  intros Hne Hl Hf. rewrite string_image_joined. revert n p Hne. induction Hl as [|s l Hs Hl IH]; intros n p Hne H; [done|].
  apply Forall_cons in Hf as [Hfs Hf].
  assert (∃ y, joined (s :: l) ++ [0; 0] = s ++ 0 :: y ∧ y = match l with [] => [0] | _ => joined l ++ [0; 0] end) as (y&Ey&Hy).
  { destruct l as [|t l]; [by exists [0]|]. exists (joined (t :: l) ++ [0; 0]). rewrite joined_cons, <- app_assoc. done. }
  rewrite Ey in H. destruct n as [|n]; cbn [lookup list_lookup string_loop].
  { exists p. split; [done|]. change (s ++ 0 :: y) with (s ++ [0] ++ y) in H. rewrite app_assoc in H. by apply stored_app in H as [H _]. }
  destruct Hs as [Hsne Hs]. rewrite (string_end_ok fs m p s y H Hs Hfs). cbn [mbind result_bind].
  change (s ++ 0 :: y) with (s ++ [0] ++ y) in H. rewrite app_assoc in H. apply stored_app in H as [_ H].
  rewrite length_app in H. replace (p + Z.of_nat (length s + length [0])) with (p + Z.of_nat (length s) + 1) in H by (simpl; lia).
  assert (y ≠ []) as Hyne by (rewrite Hy; destruct l as [|t l]; [done|destruct (joined (t :: l)); done]).
  pose proof (stored_load m _ y 0 H ltac:(destruct y; [done|simpl; lia])) as E. rewrite Z.add_0_r in E. rewrite E. cbn [mbind result_bind].
  destruct l as [|t l].
  - subst y. cbn. by destruct n.
  - pose proof Hl as Ht. apply Forall_cons in Ht as [Ht _].
    assert (y !!! 0%nat ≠ 0) as Hy0.
    { rewrite Hy. pose proof (joined_hd t l Ht) as Hh. destruct (joined (t :: l)); [done|exact Hh]. }
    rewrite (proj2 (Z.eqb_neq _ _) Hy0). rewrite Hy in H. by apply (IH Hf n _).
Qed.

(** ** Structures *)

Section Walk.
Variable m : memory.
Variable fs : nat.

(** Fuel for the strings of a structure. *)
Definition strings_fit (s : structure) : Prop := (length (string_image (st_strings s)) <= fs)%nat.

Lemma image_parts a s : stored m a (image s) → structure_ok s →
  header_type m a = Ok (st_type s) ∧ header_length m a = Ok (4 + Z.of_nat (length (st_body s))) ∧
  header_handle m a = Ok (st_handle s) ∧
  stored m (a + (4 + Z.of_nat (length (st_body s)))) (string_image (st_strings s)).
Proof.
  intros H (Ht&Hh&Hb&_). unfold image in H.
  pose proof (stored_load m a _ 0 H ltac:(simpl; lia)) as E0. pose proof (stored_load m a _ 1 H ltac:(simpl; lia)) as E1.
  rewrite Z.add_0_r in E0. split; [exact E0|]. split; [exact E1|].
  apply stored_app in H as [_ H]. change (a + Z.of_nat (length [st_type s; 4 + Z.of_nat (length (st_body s))])) with (a + 2) in H.
  apply stored_app in H as [H2 H]. split; [by apply (stored_le m (a + 2) _ (st_handle s) 2 H2)|].
  rewrite le_length in H. apply stored_app in H as [_ H].
  by replace (a + 2 + Z.of_nat 2 + Z.of_nat (length (st_body s))) with (a + (4 + Z.of_nat (length (st_body s)))) in H by lia.
Qed.

Lemma size_eq s : size s = 4 + Z.of_nat (length (st_body s)) + Z.of_nat (length (joined (st_strings s))) + 2.
Proof. unfold size, image. rewrite string_image_joined, !length_app, le_length. simpl length. lia. Qed.

Lemma next_structure_ok a s : stored m a (image s) → structure_ok s → strings_fit s →
  next_structure fs m a = Ok (a + size s).
Proof.
  intros H Hs Hf. destruct (image_parts a s H Hs) as (_&Hl&_&Hst). unfold next_structure. rewrite Hl. cbn [mbind result_bind].
  unfold strings_fit in Hf. rewrite string_image_joined in Hst, Hf. rewrite length_app in Hf. simpl in Hf.
  destruct Hs as (_&_&_&Htx). destruct (joined_calm _ Htx) as [Hc Hb].
  rewrite (skip_strings_ok fs m _ _ Hst Hc Hb) by lia. cbn [mbind result_bind mret result_ret]. f_equal. rewrite size_eq. lia.
Qed.

Lemma type_loop_ok fuel type n k L a :
  table_ok L → Forall strings_fit L → stored m a (flat_map image L) → (length L <= fuel)%nat →
  type_loop fuel fs m type (Z.of_nat n + k) a k = Ok (find_structure (λ s, st_type s =? type) n L a).
Proof.
  intros (Hok&l&e&->&He&Hl). revert fuel n k a Hok.
  induction Hl as [|s l Hs Hl IH]; intros [|fuel] n k a Hok Hf H Hfu; try (simpl in Hfu; lia); cbn [app type_loop find_structure].
  - simpl in H. rewrite app_nil_r in H. apply Forall_cons in Hok as [Hoke _].
    destruct (image_parts a e H Hoke) as (Ht&_). rewrite Ht. cbn [mbind result_bind]. rewrite He. change (127 =? 127) with true.
    destruct (127 =? type); cbn [andb]; [|done]. destruct n as [|n]; [by rewrite Z.eqb_refl|].
    by rewrite (proj2 (Z.eqb_neq k _)) by lia.
  - cbn [app flat_map] in H. apply stored_app in H as [H1 H2]. apply Forall_cons in Hok as [Hoks Hok]. apply Forall_cons in Hf as [Hfs Hf].
    destruct (image_parts a s H1 Hoks) as (Ht&_). rewrite Ht. cbn [mbind result_bind]. rewrite (proj2 (Z.eqb_neq (st_type s) 127)) by done.
    rewrite (next_structure_ok a s H1 Hoks Hfs). cbn [mbind result_bind]. simpl in Hfu. fold (size s) in H2.
    destruct (st_type s =? type); cbn [andb].
    + destruct n as [|n]; [by rewrite Z.eqb_refl|]. rewrite (proj2 (Z.eqb_neq k _)) by lia.
      replace (Z.of_nat (S n) + k) with (Z.of_nat n + (k + 1)) by lia. apply IH; [done|done|done|lia].
    + apply IH; [done|done|done|lia].
Qed.

Lemma handle_loop_ok fuel handle L a :
  table_ok L → Forall strings_fit L → stored m a (flat_map image L) → (length L <= fuel)%nat →
  handle_loop fuel fs m handle a = Ok (find_structure (λ s, st_handle s =? handle) 0 L a).
Proof.
  intros (Hok&l&e&->&He&Hl). revert fuel a Hok.
  induction Hl as [|s l Hs Hl IH]; intros [|fuel] a Hok Hf H Hfu; try (simpl in Hfu; lia); cbn [app handle_loop find_structure].
  - simpl in H. rewrite app_nil_r in H. apply Forall_cons in Hok as [Hoke _].
    destruct (image_parts a e H Hoke) as (Ht&_&Hh&_). rewrite Hh. cbn [mbind result_bind]. destruct (_ =? handle); [done|].
    rewrite Ht. cbn [mbind result_bind]. by rewrite He.
  - cbn [app flat_map] in H. apply stored_app in H as [H1 H2]. apply Forall_cons in Hok as [Hoks Hok]. apply Forall_cons in Hf as [Hfs Hf].
    destruct (image_parts a s H1 Hoks) as (Ht&_&Hh&_). rewrite Hh. cbn [mbind result_bind]. destruct (_ =? handle); [done|].
    rewrite Ht. cbn [mbind result_bind]. rewrite (proj2 (Z.eqb_neq (st_type s) 127)) by done.
    rewrite (next_structure_ok a s H1 Hoks Hfs). cbn [mbind result_bind]. simpl in Hfu. apply IH; [done|done|done|lia].
Qed.

(** The searches return the structure they are asked for, NULL when the table
    has none; the strings of a structure are found by number, string 0 and the
    ones it does not have being the two constants. *)
Theorem smbios_correct s L fuel :
  smbios_available s = true → smbios_table_base s ≠ 0 → table_ok L → Forall strings_fit L →
  stored m (smbios_table_base s) (flat_map image L) → (length L <= fuel)%nat →
  (∀ type n, smbios_get_by_type fuel fs m s type (Z.of_nat n) =
    Ok (find_structure (λ s, st_type s =? type) n L (smbios_table_base s))) ∧
  (∀ handle, smbios_get_by_handle fuel fs m s handle =
    Ok (find_structure (λ s, st_handle s =? handle) 0 L (smbios_table_base s))) ∧
  (∀ x a idx, structure_ok x → strings_fit x → stored m a (image x) → st_strings x ≠ [] → 0 <= idx →
    match (if idx =? 0 then None else st_strings x !! Z.to_nat (idx - 1)) with
    | Some t => ∃ q, smbios_get_string fs m a idx = Ok (StrAt q) ∧ stored m q (t ++ [0])
    | None => smbios_get_string fs m a idx = Ok (if idx =? 0 then StrNone else StrUnknown)
    end).
Proof.
  intros Hav Hb HL Hf Hst Hfu. unfold smbios_get_by_type, smbios_get_by_handle. rewrite Hav, (proj2 (Z.eqb_neq _ 0)) by done.
  cbn [negb orb]. split; [|split].
  - intros type n. rewrite <- (type_loop_ok fuel type n 0 L) by done. by rewrite Z.add_0_r.
  - intros handle. by apply handle_loop_ok.
  - intros x a idx Hx Hxf Hi Hne H0. unfold smbios_get_string. destruct (Z.eqb_spec idx 0) as [->|Hidx]; [done|].
    destruct (image_parts a x Hi Hx) as (_&Hl&_&Hs). rewrite Hl. cbn [mbind result_bind]. destruct Hx as (_&_&_&Htx).
    apply (string_loop_ok fs m); [done|done| |done].
    clear -Hxf. unfold strings_fit in Hxf. revert Hxf. unfold string_image. generalize (st_strings x). intros l Hle.
    assert (∀ l : list bytes, Forall (λ t, (length t <= length (flat_map (λ s, (s ++ [0%Z])%list) l))%nat) l) as Haux.
    { clear. induction l as [|t l IH]; [done|]. constructor; [simpl; rewrite !length_app; lia|].
      eapply Forall_impl; [exact IH|]. intros u Hu. simpl in *. rewrite !length_app. lia. }
    destruct l as [|t l]; [done|]. rewrite length_app in Hle. change (length [0]) with 1%nat in Hle.
    eapply Forall_impl; [apply (Haux (t :: l))|]. intros u Hu. cbv beta in *. lia.
Qed.
End Walk.

(** ** Entry points *)

(** A 64-bit entry point is taken when its anchor is right, a 32-bit one
    otherwise; without either the tables stay unavailable. *)
Lemma smbios_init_64 m entry_32 entry_64 base major minor :
  entry_64 ≠ NULL → load_bytes 5 m entry_64 = Ok [95; 83; 77; 51; 95] → load_le 8 m (entry_64 + 16) = Ok base →
  load8 m (entry_64 + 7) = Ok major → load8 m (entry_64 + 8) = Ok minor →
  smbios_init m entry_32 entry_64 smbios_start = Ok (mkSmbios base major minor true).
Proof.
  intros H0 Ha Hb Hj Hn. unfold smbios_init, init_64, anchor_is. rewrite (proj2 (Z.eqb_neq _ NULL)) by done.
  cbn [length]. rewrite Ha. cbn [mbind result_bind mret result_ret]. unfold bytes_eqb. rewrite bool_decide_eq_true_2 by done.
  rewrite Hb. cbn [mbind result_bind]. rewrite Hj. cbn [mbind result_bind]. rewrite Hn. done.
Qed.

(** A table of two structures with their strings, and one without. *)
Definition demo_table : list structure :=
  [mkStruct 0 1 [1; 2; 0] [[65; 66]; [67]]; mkStruct 1 0x0203 [] []; mkStruct 127 3 [] []].
Definition demo_smbios : memory := list_to_map (zip (seqZ 0xF0000 (Z.of_nat (length (flat_map image demo_table)))) (flat_map image demo_table)).

Example smbios_runs :
  let s := mkSmbios 0xF0000 3 0 true in
  smbios_get_by_type 5 20 demo_smbios s 1 0 = Ok (0xF0000 + 13) ∧
  smbios_get_by_type 5 20 demo_smbios s 4 0 = Ok NULL ∧
  smbios_get_by_handle 5 20 demo_smbios s 0x0203 = Ok (0xF0000 + 13) ∧
  smbios_get_string 20 demo_smbios 0xF0000 2 = Ok (StrAt (0xF0000 + 10)) ∧
  smbios_get_string 20 demo_smbios 0xF0000 3 = Ok StrUnknown.
Proof. vm_compute. done. Qed.
