(* ===== verification/Elf.v ===== *)
(** Loading ELF programs (src/binfmt/elf64.c, elf64.h).

    The file is in memory; its headers are read at their packed offsets.  The
    loader maps the pages of every segment, 2 MiB pages where a segment contains
    an aligned block, and copies the file through the direct map.  Page tables
    are those of Paging.v, frames come from an interface to the physical
    allocator, and the contents of frames are bytes of Mem.v at their address in
    the direct map; a store that would reach a page table is a [Fault], because
    the model keeps the tables apart from the bytes. *)

From S2P Require Import Prelude Mem Bytes Vmm Paging.

Definition PF_X : Z := 1.
Definition PF_W : Z := 2.
Definition PT_LOAD : Z := 1.
Definition ET_EXEC : Z := 2.
Definition ET_DYN : Z := 3.
Definition EM_X86_64 : Z := 62.

(** The fields of the ELF header at [a] that the code reads. *)
Definition e_type (m : memory) (a : Z) : result Z := load_le 2 m (a + 16).
Definition e_machine (m : memory) (a : Z) : result Z := load_le 2 m (a + 18).
Definition e_entry (m : memory) (a : Z) : result Z := load_le 8 m (a + 24).
Definition e_phoff (m : memory) (a : Z) : result Z := load_le 8 m (a + 32).
Definition e_phentsize (m : memory) (a : Z) : result Z := load_le 2 m (a + 54).
Definition e_phnum (m : memory) (a : Z) : result Z := load_le 2 m (a + 56).

(** A program header. *)
Record Elf64_Phdr := mkPhdr {
  p_type : Z; p_flags : Z; p_offset : Z; p_vaddr : Z; p_filesz : Z; p_memsz : Z
}.

Definition read_phdr (m : memory) (a : Z) : result Elf64_Phdr :=
  ty ← load_le 4 m a; flags ← load_le 4 m (a + 4); offset ← load_le 8 m (a + 8);
  vaddr ← load_le 8 m (a + 16); filesz ← load_le 8 m (a + 32); memsz ← load_le 8 m (a + 40);
  mret (mkPhdr ty flags offset vaddr filesz memsz).

Record elf64_parser_ret := mkRet { status : Z; entry : Z; phnum : Z; top_vaddr : Z }.

(** The chain of comparisons of [e_ident], which ends at the first difference. *)
Fixpoint ident_matches (m : memory) (a : Z) (expected : bytes) : result bool :=
  match expected with
  | [] => mret true
  | c :: expected => b ← load8 m a; if b =? c then ident_matches m (a + 1) expected else mret false
  end.

(** ELFMAG0 to ELFMAG3, ELFCLASS64 and ELFDATA2LSB. *)
Definition elf_ident : bytes := [0x7f; 69; 76; 70; 2; 1].

Definition ehdr_supported (m : memory) (a : Z) : result bool :=
  ok ← ident_matches m a elf_ident;
  if ok : bool then machine ← e_machine m a; mret (machine =? EM_X86_64) else mret false.

(** * Frames

    [take_2mb] is [pma_alloc_pages_2mb(1)]: 512 frames in a row, aligned. *)
Class FrameSource (PS : Type) := {
  frame_pages :: PageSource PS;
  take_2mb : PS → result (Z * PS);
  take_2mb_ok s : ps_ok s → ∃ p s', take_2mb s = Ok (p, s') ∧ ps_ok s' ∧
    (p = 0 ∨ (0 < p ∧ p + PAGE_SIZE_2MB <= 2 ^ 47 ∧ (PAGE_SIZE_2MB | p) ∧
      ∀ q, (PAGE_SIZE | q) → p <= q < p + PAGE_SIZE_2MB → ps_free s q ∧ ¬ ps_free s' q)) ∧
    ∀ q, ps_free s' q → ps_free s q
}.

Section Elf.
Context {PS : Type} `{!FrameSource PS}.

(** The start of the direct map and the level of the top table. *)
Variable hhdm_offset : Z.
Variable top : nat.

Record loader := mkLoader { paging : @paging_state PS; ram : memory }.

Definition with_paging (st : loader) (p : paging_state) : loader := mkLoader p (ram st).
Definition with_pages (st : loader) (s : PS) : loader :=
  with_paging st (mkPaging (tables (paging st)) s (flushed (paging st))).

(** No table has a byte in [a, a + n). *)
Definition data_only (T : gmap Z (list Z)) (a n : Z) : bool :=
  bool_decide (map_Forall (λ t _, t + PAGE_SIZE <= a ∨ a + n <= t) T).

(** A store of [n] bytes at the physical address [a], through the direct map. *)
Definition store_phys (f : memory → result (Z * memory)) (a n : Z) (st : loader) : result loader :=
  '(_, m) ← f (ram st);
  if data_only (tables (paging st)) a n then mret (mkLoader (paging st) m) else Fault.

Definition clear_phys (a n : Z) (st : loader) : result loader :=
  store_phys (λ m, memset m (u64 (a + hhdm_offset)) 0 n) a n st.
Definition copy_phys (a src n : Z) (st : loader) : result loader :=
  store_phys (λ m, memcpy m (u64 (a + hhdm_offset)) src n) a n st.

(** * Pages of a segment *)

Definition segment_flags (user : bool) (p_flags : Z) : Z :=
  let flags := PTE_PRESENT in
  let flags := if user then Z.lor flags PTE_USER else flags in
  let flags := if has p_flags PF_W then Z.lor flags PTE_WRITABLE else flags in
  if has p_flags PF_X then flags else Z.lor flags PTE_NX.

(** The flags of a page that another segment has mapped. *)
Definition combine_flags (existing_flags flags : Z) : Z :=
  let combined := Z.lor existing_flags (Z.land flags PTE_WRITABLE) in
  if has flags PTE_NX then combined else Z.land combined (not64 PTE_NX).

Definition existing_flags (pml4 addr flags : Z) (st : loader) : result (Z * loader) :=
  '(pte, p) ← paging_get_pte hhdm_offset top pml4 addr false (paging st);
  let st := with_paging st p in
  match pte with
  | None => mret (flags, st)
  | Some (t, i) =>
      e ← read_entry p t i;
      mret (Z.land e (Z.lor (Z.lor (Z.lor PTE_PRESENT PTE_USER) PTE_WRITABLE) PTE_NX), st)
  end.

(** The bodies of the loops: [false] for [return ret]. *)
Definition load_page (pml4 flags addr : Z) (st : loader) : result (bool * loader) :=
  existing_phys ← paging_get_phys top pml4 addr (paging st);
  if existing_phys =? 0 then
    '(phys, s) ← take_page (pages (paging st));
    let st := with_pages st s in
    if phys =? 0 then mret (false, st)
    else
      p ← paging_map_page hhdm_offset top pml4 addr phys flags (paging st);
      st ← clear_phys phys PAGE_SIZE (with_paging st p);
      mret (true, st)
  else
    '(ex, st) ← existing_flags pml4 addr flags st;
    p ← paging_map_page hhdm_offset top pml4 addr existing_phys (combine_flags ex flags) (paging st);
    mret (true, with_paging st p).

Definition load_huge (pml4 flags addr : Z) (st : loader) : result (bool * loader) :=
  existing_phys ← paging_get_phys top pml4 addr (paging st);
  if existing_phys =? 0 then
    '(phys, s) ← take_2mb (pages (paging st));
    let st := with_pages st s in
    if phys =? 0 then mret (false, st)
    else
      p ← paging_map_2mb hhdm_offset top pml4 addr phys flags (paging st);
      st ← clear_phys phys PAGE_SIZE_2MB (with_paging st p);
      mret (true, st)
  else
    let existing_base := Z.land existing_phys (not64 (PAGE_SIZE_2MB - 1)) in
    '(ex, st) ← existing_flags pml4 addr flags st;
    p ← paging_map_2mb hhdm_offset top pml4 addr existing_base (combine_flags ex flags) (paging st);
    mret (true, with_paging st p).

(** [for (addr = start; cond; addr += step)] with a body that may return. *)
Fixpoint addr_loop (fuel : nat) (cond : Z → bool) (step : Z) (body : Z → loader → result (bool * loader))
    (addr : Z) (st : loader) : result (bool * loader) :=
  match fuel with
  | O => Fuel
  | S fuel =>
      if cond addr then
        '(go, st) ← body addr st;
        if go : bool then addr_loop fuel cond step body (u64 (addr + step)) st else mret (false, st)
      else mret (true, st)
  end.

Definition page_down (a size : Z) : Z := Z.land a (not64 (size - 1)).

Definition seg_start (p : Elf64_Phdr) : Z := page_down (p_vaddr p) PAGE_SIZE.
Definition seg_end (p : Elf64_Phdr) : Z := page_down (u64 (p_vaddr p + p_memsz p + PAGE_SIZE - 1)) PAGE_SIZE.
Definition huge_start (p : Elf64_Phdr) : Z := page_down (u64 (seg_start p + PAGE_SIZE_2MB - 1)) PAGE_SIZE_2MB.
Definition huge_end (p : Elf64_Phdr) : Z := page_down (seg_end p) PAGE_SIZE_2MB.

(** The head, the huge pages and the tail of a segment. *)
Definition map_segment (fuel : nat) (pml4 flags : Z) (p : Elf64_Phdr) (st : loader) : result (bool * loader) :=
  '(go, st) ← addr_loop fuel (λ a, (a <? huge_start p) && (a <? seg_end p)) PAGE_SIZE (load_page pml4 flags) (seg_start p) st;
  if negb go then mret (false, st)
  else
    '(go, st) ← addr_loop fuel (λ a, a <? huge_end p) PAGE_SIZE_2MB (load_huge pml4 flags) (huge_start p) st;
    if negb go then mret (false, st)
    else addr_loop fuel (λ a, a <? seg_end p) PAGE_SIZE (load_page pml4 flags) (huge_end p) st.

(** * Contents of a segment *)

(** The two loops that go through the pages of a virtual range: [put off n a st]
    stores the [n] bytes from byte [off] of the range on at the physical [a]. *)
Fixpoint chunk_loop (fuel : nat) (put : Z → Z → Z → loader → result loader) (pml4 off start size : Z) (st : loader)
    : result (bool * loader) :=
  match fuel with
  | O => Fuel
  | S fuel =>
      if size =? 0 then mret (true, st)
      else
        let page := page_down start PAGE_SIZE in
        let poff := Z.land start (PAGE_SIZE - 1) in
        let chunk := PAGE_SIZE - poff in
        let chunk := if chunk >? size then size else chunk in
        phys ← paging_get_phys top pml4 page (paging st);
        if phys =? 0 then mret (false, st)
        else
          st ← put off chunk (u64 (phys + poff)) st;
          chunk_loop fuel put pml4 (off + chunk) (u64 (start + chunk)) (size - chunk) st
  end.

Definition copy_file (fuel : nat) (pml4 src start size : Z) (st : loader) : result (bool * loader) :=
  chunk_loop fuel (λ off n a, copy_phys a (u64 (src + off)) n) pml4 0 start size st.
Definition clear_bss (fuel : nat) (pml4 start size : Z) (st : loader) : result (bool * loader) :=
  chunk_loop fuel (λ _ n a, clear_phys a n) pml4 0 start size st.

(** * The parser *)

(** One program header; the fields are read again after the pages are mapped
    and after the copy, as the code does. *)
Definition load_segment (fuel : nat) (user : bool) (pml4 file_data file_size a highest : Z) (st : loader)
    : result (bool * Z * loader) :=
  ty ← load_le 4 (ram st) a;
  if negb (ty =? PT_LOAD) then mret (true, highest, st)
  else
  offset ← load_le 8 (ram st) (a + 8); filesz ← load_le 8 (ram st) (a + 32);
  if u64 (offset + filesz) >? file_size then mret (false, highest, st)
  else
    p ← read_phdr (ram st) a;
    let highest := if seg_end p >? highest then seg_end p else highest in
    '(go, st) ← map_segment fuel pml4 (segment_flags user (p_flags p)) p st;
    if negb go then mret (false, highest, st)
    else
      p ← read_phdr (ram st) a;
      '(go, st) ← copy_file fuel pml4 (u64 (file_data + p_offset p)) (p_vaddr p) (p_filesz p) st;
      if negb go then mret (false, highest, st)
      else
        p ← read_phdr (ram st) a;
        if p_memsz p >? p_filesz p then
          '(go, st) ← clear_bss fuel pml4 (u64 (p_vaddr p + p_filesz p)) (p_memsz p - p_filesz p) st;
          mret (go, highest, st)
        else mret (true, highest, st).

(** [for (i = 0; i < ehdr->e_phnum; i++)]; [i] has 16 bits, as [e_phnum] does. *)
Fixpoint segment_loop (n fuel : nat) (user : bool) (pml4 file_data file_size i highest : Z) (st : loader)
    : result (bool * Z * loader) :=
  match n with
  | O => Fuel
  | S n =>
      phnum ← e_phnum (ram st) file_data;
      if i <? phnum then
        phoff ← e_phoff (ram st) file_data; phentsize ← e_phentsize (ram st) file_data;
        '(go, highest, st) ← load_segment fuel user pml4 file_data file_size
          (u64 (file_data + phoff + i * phentsize)) highest st;
        if go : bool then segment_loop n fuel user pml4 file_data file_size (u16 (i + 1)) highest st
        else mret (false, highest, st)
      else mret (true, highest, st)
  end.

Definition elf64_parse (fuel : nat) (file_data file_size pml4 : Z) (user : bool) (st : loader)
    : result (elf64_parser_ret * loader) :=
  let ret := mkRet 0 0 0 0 in
  if file_data =? NULL then mret (ret, st)
  else
    ok ← ehdr_supported (ram st) file_data;
    if negb ok then mret (ret, st)
    else
      phoff ← e_phoff (ram st) file_data; n ← e_phnum (ram st) file_data; phentsize ← e_phentsize (ram st) file_data;
      if u64 (phoff + n * phentsize) >? file_size then mret (ret, st)
      else
        ty ← e_type (ram st) file_data;
        if negb (ty =? ET_EXEC) && negb (ty =? ET_DYN) then mret (ret, st)
        else
          '(go, highest, st) ← segment_loop (Z.to_nat 65536) fuel user pml4 file_data file_size 0 0 st;
          if negb go then mret (ret, st)
          else
            ent ← e_entry (ram st) file_data; n ← e_phnum (ram st) file_data;
            mret (mkRet 1 ent n highest, st).

End Elf.
