(* ===== verification/ElfSpec.v ===== *)
(** What the ELF loader leaves in memory (src/binfmt/elf64.c).

    The invariant of the loader says that the frames it mapped are apart from
    each other, from the page tables, from free memory and from the file; it is
    kept by every page it maps and every byte it copies. *)

From S2P Require Import Prelude Mem Bytes Vmm Paging PagingSpec Elf.

(** * Page arithmetic *)

Definition page (v : Z) : Z := PAGE_SIZE * (v / PAGE_SIZE).

Lemma page_split v : v = page v + v mod PAGE_SIZE.
Proof. unfold page. apply Z.div_mod. done. Qed.

Lemma page_range v : page v <= v < page v + PAGE_SIZE.
Proof. pose proof (page_split v). pose proof (Z.mod_pos_bound v PAGE_SIZE ltac:(done)). lia. Qed.

Lemma page_divide v : (PAGE_SIZE | page v).
Proof. apply Z.divide_factor_l. Qed.

Lemma page_id v : (PAGE_SIZE | v) → page v = v.
Proof. intros [q ->]. unfold page. rewrite Z.div_mul by done. lia. Qed.

Lemma page_mod v : (PAGE_SIZE | v) → v mod PAGE_SIZE = 0.
Proof. intros H. by apply Z.mod_divide. Qed.

(** A range of whole pages holds a page or none of it. *)
Lemma page_inside a n v : (PAGE_SIZE | a) → (PAGE_SIZE | n) → a <= v < a + n ↔ a <= page v < a + n.
Proof.
  intros [i ->] [j ->]. unfold page. pose proof (page_range v) as H. unfold page, PAGE_SIZE in *. nia.
Qed.

(** Distinct page aligned addresses are a page apart. *)
Lemma page_apart a b : (PAGE_SIZE | a) → (PAGE_SIZE | b) → a ≠ b → a + PAGE_SIZE <= b ∨ b + PAGE_SIZE <= a.
Proof. intros [i ->] [j ->] ?. unfold PAGE_SIZE in *. nia. Qed.

Lemma page_down_page v : 0 <= v < 2 ^ 64 → page_down v PAGE_SIZE = page v.
Proof. intros. unfold page_down, page. change PAGE_SIZE with (2 ^ 12). apply land_mask; lia. Qed.

Lemma page_down_mod v : 0 <= v → Z.land v (PAGE_SIZE - 1) = v mod PAGE_SIZE.
Proof. intros. change PAGE_SIZE with (2 ^ 12). apply land_low. lia. Qed.

(** * Flags of segments *)

Definition FLAG_BITS : Z := Z.lor (Z.lor (Z.lor PTE_PRESENT PTE_USER) PTE_WRITABLE) PTE_NX.

(** Flags of a present page: the four bits that the loader uses. *)
Definition page_flags (f : Z) : Prop := 0 <= f ∧ Z.land f FLAG_BITS = f ∧ Z.testbit f 0 = true.

Lemma page_flags_ok f : page_flags f → 0 <= f < 2 ^ 64 ∧ has f PTE_PRESENT = true ∧ Z.land f PTE_ADDR_MASK = 0.
Proof.
  intros (H0&HM&Hb). split; [|split; [rewrite <- Hb; by apply (has_testbit f 0)|]].
  - rewrite <- HM, Z.land_comm. apply land_range; [lia|by vm_compute|done].
  - rewrite <- HM, <- Z.land_assoc. change (Z.land FLAG_BITS PTE_ADDR_MASK) with 0. apply Z.land_0_r.
Qed.

Lemma segment_flags_ok us pf : page_flags (segment_flags us pf).
Proof. unfold segment_flags, page_flags. destruct us, (has pf PF_W), (has pf PF_X); by vm_compute. Qed.

Lemma segment_flags_exec us pf : has pf PF_X = true → segment_flags us pf < 2 ^ 12.
Proof. unfold segment_flags. intros ->. destruct us, (has pf PF_W); by vm_compute. Qed.

(** Flags read from a present entry. *)
Lemma entry_flags_ok e : 0 <= e → present e = true → page_flags (Z.land e FLAG_BITS).
Proof.
  intros He Hp. rewrite present_bit in Hp. split; [apply Z.land_nonneg; by left|]. split.
  - by rewrite <- Z.land_assoc, Z.land_diag.
  - by rewrite Z.land_spec, Hp.
Qed.

Lemma combine_flags_ok ex f : page_flags ex → page_flags f → page_flags (combine_flags ex f).
Proof.
  intros (He0&HeM&Heb) (Hf0&HfM&Hfb).
  assert (page_flags (Z.lor ex (Z.land f PTE_WRITABLE))) as Hc.
  { split; [apply Z.lor_nonneg; split; [done|apply Z.land_nonneg; by left]|]. split.
    - rewrite Z.land_lor_distr_l, HeM, <- Z.land_assoc. done.
    - by rewrite Z.lor_spec, Heb. }
  unfold combine_flags. cbn zeta. destruct (has f PTE_NX); [done|]. destruct Hc as (Hc0&HcM&Hcb).
  split; [apply Z.land_nonneg; by left|]. split.
  - rewrite (Z.land_comm _ (not64 PTE_NX)), <- Z.land_assoc, HcM. done.
  - by rewrite Z.land_spec, Hcb.
Qed.

(** * The invariant *)

Section Loader.
Context {PS : Type} `{!FrameSource PS}.
Variable hhdm_offset : Z.
(** The direct map has 128 TiB in one half of the address space. *)
Hypothesis hhdm_placed : placed hhdm_offset (2 ^ 47).
Variable top : nat.
Hypothesis Htop : (3 <= top <= 4)%nat.
(** The top table, and the file with its address. *)
Variable pml4 : Z.
Variable file_data : Z.
Variable F : bytes.

Lemma frame_safe p : page_addr p → range_is_safe (u64 (p + hhdm_offset)) 4096 = true.
Proof.
  intros [Hp [q ->]]. rewrite Z.add_comm. apply (placed_safe _ _ _ _ hhdm_placed); [lia|lia|].
  unfold PAGE_SIZE in *. lia.
Qed.

(** Where the loader's tables send [v], 0 for nowhere. *)
Definition phys (st : @loader PS) (v : Z) : Z :=
  match paging_get_phys top pml4 v (paging st) with Ok a => a | _ => 0 end.

Definition user (v : Z) : Prop := 0 <= v < 2 ^ 47.

(** The addresses of either half; the others repeat them. *)
Definition half (v : Z) : Prop := 0 <= v ∧ (v < 2 ^ 47 ∨ 2 ^ 47 <= v mod 2 ^ level_shift (S top)).

Lemma user_half v : user v → half v.
Proof. unfold user, half. lia. Qed.

Lemma half_upper v a n : half v → ¬ user v → a + n <= 2 ^ 47 → ¬ a <= v < a + n.
Proof. unfold user, half. lia. Qed.

Definition file_apart (q : Z) : Prop :=
  ∀ k j, 0 <= k < PAGE_SIZE → 0 <= j < Z.of_nat (length F) → hhdm_offset + q + k ≠ file_data + j.
Definition frame_held (m : memory) (q : Z) : Prop := ∀ k, 0 <= k < PAGE_SIZE → is_Some (m !! (hhdm_offset + q + k)).

(** A frame the loader may fill. *)
Definition frame_ok (st : @loader PS) (q : Z) : Prop :=
  tables (paging st) !! q = None ∧ frame_held (ram st) q ∧ file_apart q.

Record loader_ok (st : loader) : Prop := {
  lk_paging : paging_ok top pml4 (paging st);
  lk_aligned t : is_Some (tables (paging st) !! t) → (PAGE_SIZE | t);
  lk_free q : page_addr q → ps_free (pages (paging st)) q → frame_ok st q;
  lk_lin v : user v → phys st v = if phys st (page v) =? 0 then 0 else phys st (page v) + v mod PAGE_SIZE;
  lk_frame v : user v → (PAGE_SIZE | v) → phys st v ≠ 0 →
    page_addr (phys st v) ∧ ¬ ps_free (pages (paging st)) (phys st v) ∧ frame_ok st (phys st v);
  lk_inj v w : user v → user w → (PAGE_SIZE | v) → (PAGE_SIZE | w) → phys st v ≠ 0 → phys st v = phys st w → v = w;
  lk_file k c : F !! k = Some c → ram st !! (file_data + Z.of_nat k) = Some c
}.

(** The byte at the virtual address [v]. *)
Definition vbyte (st : @loader PS) (v : Z) : option Z := ram st !! (hhdm_offset + phys st v).

(** What was mapped stays mapped, with its contents. *)
Definition keeps (st st' : @loader PS) : Prop :=
  ∀ v, user v → phys st v ≠ 0 → phys st' v = phys st v ∧ vbyte st' v = vbyte st v.

Lemma keeps_refl st : keeps st st.
Proof. done. Qed.

Lemma keeps_trans st1 st2 st3 : keeps st1 st2 → keeps st2 st3 → keeps st1 st3.
Proof.
  intros H1 H2 v Hv Hp. destruct (H1 v Hv Hp) as [E1 B1]. destruct (H2 v Hv) as [E2 B2]; [by rewrite E1|].
  split; [by rewrite E2|by rewrite B2].
Qed.

Lemma user_page v : user v → user (page v).
Proof. unfold user. pose proof (page_range v). pose proof (page_divide v) as [q E]. unfold PAGE_SIZE in *. lia. Qed.

Lemma phys_ok st v : paging_ok top pml4 (paging st) → 0 <= v → paging_get_phys top pml4 v (paging st) = Ok (phys st v).
Proof.
  intros [Hwf _ _] Hv. unfold phys, paging_get_phys. destruct (get_page_entry_ok top ltac:(lia) (paging st) top pml4 v Hwf Hv) as ([[tb i]|]&_&H).
  - destruct H as (es&l&e&_&_&_&_&_&->). done.
  - by rewrite H.
Qed.

(** A mapped address by its page. *)
Lemma phys_page st v : loader_ok st → user v → phys st v ≠ 0 →
  phys st (page v) ≠ 0 ∧ phys st v = phys st (page v) + v mod PAGE_SIZE ∧ page_addr (phys st (page v)).
Proof.
  intros H Hv Hp. pose proof (lk_lin st H v Hv) as E. destruct (Z.eqb_spec (phys st (page v)) 0) as [|Hn]; [lia|].
  split; [done|]. split; [done|]. apply (lk_frame st H); [by apply user_page|apply page_divide|done].
Qed.

Lemma phys_inj st v w : loader_ok st → user v → user w → phys st v ≠ 0 → phys st v = phys st w → v = w.
Proof.
  intros H Hv Hw Hp E. destruct (phys_page st v H Hv Hp) as (Hpv&Ev&[_ [i Hi]]).
  destruct (phys_page st w H Hw ltac:(congruence)) as (_&Ew&[_ [j Hj]]).
  pose proof (Z.mod_pos_bound v PAGE_SIZE ltac:(done)). pose proof (Z.mod_pos_bound w PAGE_SIZE ltac:(done)).
  assert (phys st (page v) = phys st (page w) ∧ v mod PAGE_SIZE = w mod PAGE_SIZE) as [E1 E2] by (unfold PAGE_SIZE in *; nia).
  pose proof (lk_inj st H (page v) (page w) (user_page v Hv) (user_page w Hw) (page_divide v) (page_divide w) Hpv E1) as Epg.
  rewrite (page_split v), (page_split w). congruence.
Qed.

(** Addresses of different frames are different. *)
Lemma frame_addr_ne q q' k k' : (PAGE_SIZE | q) → (PAGE_SIZE | q') → q ≠ q' → 0 <= k < PAGE_SIZE → 0 <= k' < PAGE_SIZE →
  hhdm_offset + q + k ≠ hhdm_offset + q' + k'.
Proof. intros Hq Hq' Hne Hk Hk'. pose proof (page_apart q q' Hq Hq' Hne). lia. Qed.

(** The frames [p, p + n) after they are filled with zeros. *)
Definition cleared (m m' : memory) (p n : Z) : Prop :=
  ∀ x, m' !! x = if (hhdm_offset + p <=? x) && (x <? hhdm_offset + p + n) then Some 0 else m !! x.

(** How a step of the mapping loops changes the state: it takes the frames
    [p, p + n) and clears them, takes some tables, and perhaps maps the frames
    at [a], where nothing was mapped. *)
Record installs (st st' : @loader PS) (p n a : Z) (mapped : bool) : Prop := {
  in_paging : paging_ok top pml4 (paging st');
  in_free q : ps_free (pages (paging st')) q → ps_free (pages (paging st)) q;
  in_tables t : is_Some (tables (paging st') !! t) → is_Some (tables (paging st) !! t) ∨
    (PAGE_SIZE | t) ∧
    (page_addr t → ¬ ps_free (pages (paging st)) t ∨ ps_free (pages (paging st')) t ∨ p <= t < p + n → False);
  in_frames q : (PAGE_SIZE | q) → p <= q < p + n →
    page_addr q ∧ ps_free (pages (paging st)) q ∧ ¬ ps_free (pages (paging st')) q;
  in_pos : (PAGE_SIZE | p) ∧ (PAGE_SIZE | n) ∧ (PAGE_SIZE | a) ∧ 0 <= n;
  in_ram : cleared (ram st) (ram st') p n;
  in_phys v : half v → phys st' v = if mapped && ((a <=? v) && (v <? a + n)) then p + (v - a) else phys st v;
  in_unmapped v : mapped = true → a <= v < a + n → phys st v = 0
}.

Lemma cleared_held m m' p n q : cleared m m' p n → frame_held m q → frame_held m' q.
Proof. intros H Hq k Hk. rewrite H. case_match; [done|]. by apply Hq. Qed.

Lemma cleared_file m m' p n : (∀ q, (PAGE_SIZE | q) → p <= q < p + n → file_apart q) → (PAGE_SIZE | p) → (PAGE_SIZE | n) →
  cleared m m' p n → (∀ k c, F !! k = Some c → m !! (file_data + Z.of_nat k) = Some c) →
  ∀ k c, F !! k = Some c → m' !! (file_data + Z.of_nat k) = Some c.
Proof.
  intros Hap Hp Hn Hc Hm k c Hk. rewrite Hc. repeat case_z; simpl; auto. exfalso.
  set (x := file_data + Z.of_nat k - hhdm_offset).
  assert (p <= x < p + n) as Hx by (unfold x; lia). pose proof (proj1 (page_inside p n x Hp Hn) Hx) as Hpx.
  pose proof (page_range x). pose proof (page_split x) as Ex. pose proof (lookup_lt_Some _ _ _ Hk).
  apply (Hap (page x) (page_divide x) Hpx (x mod PAGE_SIZE) (Z.of_nat k)); [apply Z.mod_pos_bound; done|lia|].
  unfold x in *. lia.
Qed.

Lemma installs_frame st st' p n a b q : loader_ok st → installs st st' p n a b → page_addr q →
  ¬ ps_free (pages (paging st)) q ∨ ps_free (pages (paging st')) q ∨ p <= q < p + n →
  frame_ok st q → frame_ok st' q.
Proof.
  intros H Hi Hq Hor (HT&Hm&Hf). split; [|split; [by eapply cleared_held; [apply (in_ram _ _ _ _ _ _ Hi)|]|done]].
  destruct (tables (paging st') !! q) as [es|] eqn:E; [|done]. exfalso.
  destruct (in_tables _ _ _ _ _ _ Hi q ltac:(by eexists)) as [[? ?]|[_ Hn]]; [congruence|].
  by apply (Hn Hq).
Qed.

(** Inside the frames that were mapped. *)
Definition in_new (a n : Z) (b : bool) (v : Z) : bool := b && ((a <=? v) && (v <? a + n)).

Lemma in_new_page a n b v : (PAGE_SIZE | a) → (PAGE_SIZE | n) → in_new a n b (page v) = in_new a n b v.
Proof.
  intros Ha Hn. unfold in_new. f_equal. pose proof (page_inside a n v Ha Hn). repeat case_z; simpl; done || lia.
Qed.

Lemma installs_new st st' p n a b v : installs st st' p n a b → user v → in_new a n b v = true →
  phys st' v = p + (v - a) ∧ ((PAGE_SIZE | v) → (PAGE_SIZE | p + (v - a))) ∧ p <= p + (v - a) < p + n ∧ b = true.
Proof.
  intros Hi Hv E. pose proof (in_pos _ _ _ _ _ _ Hi) as (Hdp&_&Hda&_). pose proof (in_phys _ _ _ _ _ _ Hi v (user_half v Hv)) as Hp.
  fold (in_new a n b v) in Hp. rewrite E in Hp. unfold in_new in E. apply andb_true_iff in E as [Hb [? ?]%andb_true_iff].
  zify_bools. split; [done|]. split; [|split; [lia|done]].
  intros Hd. apply Z.divide_add_r; [done|]. by apply Z.divide_sub_r.
Qed.

Lemma installs_old st st' p n a b v : installs st st' p n a b → user v → in_new a n b v = false → phys st' v = phys st v.
Proof. intros Hi Hv E. rewrite (in_phys _ _ _ _ _ _ Hi v (user_half v Hv)). fold (in_new a n b v). by rewrite E. Qed.

(** A frame that is mapped is not among the new ones. *)
Lemma mapped_not_new st st' p n a b v : loader_ok st → installs st st' p n a b → user v → phys st v ≠ 0 →
  ¬ p <= phys st v < p + n.
Proof.
  intros H Hi Hv Hp Hin. pose proof (in_pos _ _ _ _ _ _ Hi) as (Hdp&Hdn&_&_).
  destruct (phys_page st v H Hv Hp) as (Hpp&E&[_ Hd]). apply (page_inside p n _ Hdp Hdn) in Hin.
  assert (page (phys st v) = phys st (page v)) as Ep.
  { rewrite E. unfold page at 1. destruct Hd as [q ->]. rewrite Z.add_comm, Z.div_add by done.
    rewrite Z.div_small by (apply Z.mod_pos_bound; done). lia. }
  rewrite Ep in Hin. destruct (lk_frame st H (page v) (user_page v Hv) (page_divide v) Hpp) as (_&Hnf&_).
  by apply Hnf, (in_frames _ _ _ _ _ _ Hi).
Qed.

Lemma installs_lin st st' p n a b v : loader_ok st → installs st st' p n a b → user v →
  phys st' v = if phys st' (page v) =? 0 then 0 else phys st' (page v) + v mod PAGE_SIZE.
Proof.
  intros H Hi Hv. pose proof (in_pos _ _ _ _ _ _ Hi) as (Hdp&Hdn&Hda&_). pose proof (user_page v Hv) as Hvp.
  destruct (in_new a n b v) eqn:E.
  - pose proof E as Ep. rewrite <- in_new_page in Ep by done.
    destruct (installs_new _ _ _ _ _ _ v Hi Hv E) as (->&_).
    destruct (installs_new _ _ _ _ _ _ (page v) Hi Hvp Ep) as (->&Hd&Hr&_).
    destruct (in_frames _ _ _ _ _ _ Hi _ (Hd (page_divide v)) Hr) as ([? _]&_). settle_z.
    pose proof (page_split v). lia.
  - pose proof E as Ep. rewrite <- in_new_page in Ep by done.
    rewrite (installs_old _ _ _ _ _ _ v Hi Hv E), (installs_old _ _ _ _ _ _ (page v) Hi Hvp Ep). by apply lk_lin.
Qed.

Lemma installs_frames st st' p n a b v : loader_ok st → installs st st' p n a b → user v → (PAGE_SIZE | v) → phys st' v ≠ 0 →
  page_addr (phys st' v) ∧ ¬ ps_free (pages (paging st')) (phys st' v) ∧ frame_ok st' (phys st' v).
Proof.
  intros H Hi Hv Hd Hp. destruct (in_new a n b v) eqn:E.
  - destruct (installs_new _ _ _ _ _ _ v Hi Hv E) as (->&Hdq&Hr&_).
    destruct (in_frames _ _ _ _ _ _ Hi _ (Hdq Hd) Hr) as (Hpa&Hf&Hnf). split; [done|]. split; [done|].
    eapply installs_frame; eauto. by apply lk_free.
  - rewrite (installs_old _ _ _ _ _ _ v Hi Hv E) in *. destruct (lk_frame st H v Hv Hd Hp) as (Hpa&Hnf&Hok).
    split; [done|]. split; [by intros ?%(in_free _ _ _ _ _ _ Hi)|]. eapply installs_frame; eauto.
Qed.

Lemma installs_inj st st' p n a b v w : loader_ok st → installs st st' p n a b → user v → user w →
  (PAGE_SIZE | v) → (PAGE_SIZE | w) → phys st' v ≠ 0 → phys st' v = phys st' w → v = w.
Proof.
  intros H Hi Hv Hw Hdv Hdw Hp Eq. destruct (in_new a n b v) eqn:Ev, (in_new a n b w) eqn:Ew.
  - destruct (installs_new _ _ _ _ _ _ v Hi Hv Ev) as (E1&_). destruct (installs_new _ _ _ _ _ _ w Hi Hw Ew) as (E2&_). lia.
  - destruct (installs_new _ _ _ _ _ _ v Hi Hv Ev) as (E1&_&Hr&_). pose proof (installs_old _ _ _ _ _ _ w Hi Hw Ew) as E2.
    exfalso. apply (mapped_not_new st st' p n a b w H Hi Hw); [congruence|]. rewrite <- E2, <- Eq, E1. done.
  - destruct (installs_new _ _ _ _ _ _ w Hi Hw Ew) as (E1&_&Hr&_). pose proof (installs_old _ _ _ _ _ _ v Hi Hv Ev) as E2.
    exfalso. apply (mapped_not_new st st' p n a b v H Hi Hv); [congruence|]. rewrite <- E2, Eq, E1. done.
  - rewrite (installs_old _ _ _ _ _ _ v Hi Hv Ev) in *. rewrite (installs_old _ _ _ _ _ _ w Hi Hw Ew) in *. by apply (lk_inj st H).
Qed.

Lemma installs_ok st st' p n a b : loader_ok st → installs st st' p n a b →
  loader_ok st' ∧ keeps st st' ∧
  (b = true → ∀ v, user v → a <= v < a + n → phys st' v ≠ 0 ∧ vbyte st' v = Some 0).
Proof.
  intros H Hi. pose proof (in_pos _ _ _ _ _ _ Hi) as (Hdp&Hdn&Hda&Hn0). split; [|split].
  - split.
    + apply (in_paging _ _ _ _ _ _ Hi).
    + intros t [Ht|[Ht _]]%(in_tables _ _ _ _ _ _ Hi); [by apply (lk_aligned st H)|done].
    + intros q Hq Hf. eapply installs_frame; eauto. apply (lk_free st H); [done|by apply (in_free _ _ _ _ _ _ Hi)].
    + intros v Hv. by eapply installs_lin.
    + intros v Hv Hd Hp. by eapply installs_frames.
    + intros v w ?????. by eapply installs_inj.
    + apply (cleared_file (ram st) (ram st') p n); [|done|done|apply (in_ram _ _ _ _ _ _ Hi)|apply (lk_file st H)].
      intros q Hq Hr. destruct (in_frames _ _ _ _ _ _ Hi q Hq Hr) as (Hpa&Hf&_). by apply (lk_free st H).
  - intros v Hv Hp. assert (phys st' v = phys st v) as E.
    { destruct (in_new a n b v) eqn:E; [|by eapply installs_old]. destruct (installs_new _ _ _ _ _ _ v Hi Hv E) as (_&_&?&Hb).
      by rewrite (in_unmapped _ _ _ _ _ _ Hi v Hb) in Hp by lia. }
    split; [done|]. unfold vbyte. rewrite E, (in_ram _ _ _ _ _ _ Hi).
    pose proof (mapped_not_new st st' p n a b v H Hi Hv Hp). repeat case_z; simpl; done || lia.
  - intros -> v Hv Hr. assert (in_new a n true v = true) as E by (unfold in_new; simpl; settle_z; done).
    destruct (installs_new _ _ _ _ _ _ v Hi Hv E) as (Ep&_&Hin&_). unfold vbyte. rewrite Ep, (in_ram _ _ _ _ _ _ Hi). split.
    + pose proof (proj1 (page_inside p n _ Hdp Hdn) Hin) as Hin'.
      destruct (in_frames _ _ _ _ _ _ Hi _ (page_divide _) Hin') as ([? _]&_). pose proof (page_range (p + (v - a))). lia.
    + settle_z. done.
Qed.

(** * Frames from the allocator *)

(** [s'] is what a run of requests for frames leaves of [s]. *)
Inductive draws : PS → PS → Prop :=
| draws_none s : draws s s
| draws_page s p s1 s' : take_page s = Ok (p, s1) → draws s1 s' → draws s s'
| draws_2mb s p s1 s' : take_2mb s = Ok (p, s1) → draws s1 s' → draws s s'.

(** On the way from [s] to [s'] the allocator had no frame to give. *)
Definition exhausted (s s' : PS) : Prop :=
  ∃ s1 s2, draws s s1 ∧ (take_page s1 = Ok (0, s2) ∨ take_2mb s1 = Ok (0, s2)) ∧ draws s2 s'.

Lemma draws_trans s1 s2 s3 : draws s1 s2 → draws s2 s3 → draws s1 s3.
Proof. induction 1; [done|..]; intros; [eapply draws_page|eapply draws_2mb]; eauto. Qed.

Lemma takes_draws s s' : takes s s' → draws s s'.
Proof. induction 1; [apply draws_none|]. by eapply draws_page. Qed.

Lemma draws_exhausted s s' s'' : draws s s' → exhausted s' s'' → exhausted s s''.
Proof. intros H (s1&s2&H1&?&?). exists s1, s2. split; [by eapply draws_trans|done]. Qed.

Lemma exhausted_draws s s' s'' : exhausted s s' → draws s' s'' → exhausted s s''.
Proof. intros (s1&s2&Hd&Hf&Hd2) Hd3. exists s1, s2. do 2 (split; [done|]). by eapply draws_trans. Qed.

Lemma memory_exhausted (st st' : @paging_state PS) : out_of_memory st st' → exhausted (pages st) (pages st').
Proof. intros (s&Hs&E). exists s, (pages st'). split; [by apply takes_draws|]. split; [by left|apply draws_none]. Qed.

(** * Stores through the direct map *)

Definition no_table (T : gmap Z (list Z)) (p n : Z) : Prop := ∀ q, (PAGE_SIZE | q) → p <= q < p + n → T !! q = None.

Lemma data_only_ok T p n a m : (∀ t, is_Some (T !! t) → (PAGE_SIZE | t)) → (PAGE_SIZE | p) → (PAGE_SIZE | n) →
  no_table T p n → p <= a → a + m <= p + n → data_only T a m = true.
Proof.
  intros HT [i ->] [j ->] Hn Ha Hm. unfold data_only. apply bool_decide_eq_true. intros t es Ht.
  destruct (HT t ltac:(by eexists)) as [k ->]. assert (¬ i * PAGE_SIZE <= k * PAGE_SIZE < i * PAGE_SIZE + j * PAGE_SIZE) as Hno.
  { intros Hin. rewrite Hn in Ht; [done|by apply Z.divide_factor_r|done]. }
  unfold PAGE_SIZE in *. nia.
Qed.

Lemma direct_map_addr a n : 0 <= a → 0 < n → a + n <= 2 ^ 47 →
  u64 (a + hhdm_offset) = hhdm_offset + a ∧ hhdm_offset + a ≠ NULL ∧ range_is_safe (hhdm_offset + a) n = true.
Proof.
  intros Ha Hn Hle. pose proof hhdm_placed as [H0 Hp]. rewrite Z.add_comm.
  rewrite u64_id by lia. split; [done|]. split; [unfold NULL; lia|].
  rewrite <- (u64_id (hhdm_offset + a)) by lia. apply (placed_safe hhdm_offset (2 ^ 47)); [done|lia|lia|lia].
Qed.

(** The bytes of [m'] after [c] was stored over the [n] bytes at the physical
    address [a]. *)
Definition written (m m' : memory) (a n : Z) (c : Z → Z) : Prop :=
  ∀ x, m' !! x = if (hhdm_offset + a <=? x) && (x <? hhdm_offset + a + n) then Some (c (x - (hhdm_offset + a))) else m !! x.

Lemma clear_phys_ok (st : @loader PS) a n : 0 <= a → 0 < n → a + n <= 2 ^ 47 → data_only (tables (paging st)) a n = true →
  mapped (ram st) (hhdm_offset + a) n →
  ∃ m', clear_phys hhdm_offset a n st = Ok (mkLoader (paging st) m') ∧ written (ram st) m' a n (λ _, 0).
Proof.
  intros Ha Hn Hle Hd Hm. destruct (direct_map_addr a n Ha Hn Hle) as (Eu&Hnn&Hs).
  unfold clear_phys, store_phys, memset, nonnull, safe. rewrite Eu, Hs, (proj2 (Z.eqb_neq _ _) Hnn).
  cbn [negb mbind result_bind].
  destruct (memset_loop_ok (Z.to_nat n) 0 (hhdm_offset + a) 0 (ram st)) as (m'&->&Hm'); [lia|by rewrite Z2Nat.id by lia|].
  cbn [mbind result_bind mret result_ret]. rewrite Hd. exists m'. split; [done|]. intros x. rewrite Hm', Z2Nat.id by lia.
  rewrite Z.add_0_r. done.
Qed.

(** The frame of [q] with all of its bytes. *)
Lemma frame_data st q a n : loader_ok st → page_addr q → frame_ok st q → q <= a → a + n <= q + PAGE_SIZE →
  data_only (tables (paging st)) a n = true ∧ mapped (ram st) (hhdm_offset + a) n.
Proof.
  intros H [Hq Hdq] (HT&Hm&_) Ha Hn. split.
  - apply (data_only_ok _ q PAGE_SIZE); [apply (lk_aligned st H)|done|done| |done|done].
    intros q' Hd' Hr. destruct (decide (q' = q)) as [->|Hne]; [done|]. pose proof (page_apart q' q Hd' Hdq Hne). lia.
  - intros k Hk. replace (hhdm_offset + a + k) with (hhdm_offset + q + (a - q + k)) by lia. apply Hm. lia.
Qed.

Hypothesis file_placed : placed file_data (Z.of_nat (length F)).

Lemma copy_phys_ok st q a off n : loader_ok st → page_addr q → frame_ok st q → q <= a → 0 < n → a + n <= q + PAGE_SIZE →
  0 <= off → off + n <= Z.of_nat (length F) →
  ∃ m', copy_phys hhdm_offset a (u64 (file_data + off)) n st = Ok (mkLoader (paging st) m') ∧
    written (ram st) m' a n (λ i, default 0 (F !! Z.to_nat (off + i))).
Proof.
  intros H Hq Hok Ha Hn Hle Hoff Hlen. pose proof Hq as [Hq0 Hdq].
  assert (q + PAGE_SIZE <= 2 ^ 47) as Hq47 by (destruct Hdq as [j ->]; unfold PAGE_SIZE in *; lia).
  destruct (frame_data st q a n H Hq Hok Ha Hle) as [Hd Hm].
  destruct (direct_map_addr a n ltac:(lia) Hn ltac:(lia)) as (Eu&Hnn&Hs). pose proof file_placed as [H0 Hp].
  pose proof (placed_safe _ _ off n file_placed Hoff ltac:(lia) Hlen) as Hsf.
  unfold copy_phys, store_phys, memcpy, nonnull, safe. rewrite Eu, Hs, Hsf, (proj2 (Z.eqb_neq _ _) Hnn).
  rewrite u64_id by lia. rewrite (proj2 (Z.eqb_neq (file_data + off) NULL)) by (unfold NULL; lia). cbn [negb mbind result_bind].
  assert (∀ i, 0 <= i < n → ram st !! (file_data + off + i) = Some (default 0 (F !! Z.to_nat (off + i)))) as Hf.
  { intros i Hi. destruct (lookup_lt_is_Some_2 F (Z.to_nat (off + i)) ltac:(lia)) as [c Ec]. rewrite Ec. simpl.
    rewrite <- (lk_file st H _ _ Ec). f_equal. lia. }
  destruct Hok as (_&_&Hap).
  destruct (copy_loop_ok (Z.to_nat n) 0 (hhdm_offset + a) (file_data + off) (ram st)) as (m'&->&Hm').
  - lia.
  - intros k Hk. rewrite Hf by lia. done.
  - intros k Hk. apply Hm. lia.
  - destruct (decide (hhdm_offset + a <= file_data + off)); [by left|].
    destruct (decide (file_data + off + n <= hhdm_offset + a)); [right; lia|]. exfalso.
    apply (Hap (a - q) (hhdm_offset + a - file_data)); lia.
  - cbn [mbind result_bind mret result_ret]. rewrite Hd. exists m'. split; [done|]. intros x. rewrite Hm'. unfold copied.
    rewrite !Z.add_0_r, Z2Nat.id by lia. repeat case_z; simpl; try done. rewrite Hf by lia. done.
Qed.

Lemma written_held m m' a n c q : written m m' a n c → frame_held m q → frame_held m' q.
Proof. intros H Hq k Hk. rewrite H. case_match; [done|]. by apply Hq. Qed.

(** A store into a mapped frame changes the bytes mapped to it. *)
Lemma written_ok st m' q a n c : loader_ok st → page_addr q → frame_ok st q → q <= a → a + n <= q + PAGE_SIZE →
  written (ram st) m' a n c →
  loader_ok (mkLoader (paging st) m') ∧
  ∀ v, vbyte (mkLoader (paging st) m') v =
    if (a <=? phys st v) && (phys st v <? a + n) then Some (c (phys st v - a)) else vbyte st v.
Proof.
  intros H [Hq Hdq] (_&_&Hap) Ha Hn Hw. split.
  - split.
    + apply H.
    + apply (lk_aligned st H).
    + intros q' Hq' Hf. destruct (lk_free st H q' Hq' Hf) as (HT&Hm&Hfa). split; [done|]. split; [by eapply written_held|done].
    + apply (lk_lin st H).
    + intros v Hv Hd Hp. destruct (lk_frame st H v Hv Hd Hp) as (?&?&HT&Hm&Hfa). split; [done|]. split; [done|].
      split; [done|]. split; [by eapply written_held|done].
    + apply (lk_inj st H).
    + intros k x Hk. cbn [ram]. rewrite Hw. pose proof (lookup_lt_Some _ _ _ Hk). repeat case_z; simpl; try by apply (lk_file st H).
      exfalso. apply (Hap (file_data + Z.of_nat k - (hhdm_offset + q)) (Z.of_nat k)); lia.
  - intros v. unfold vbyte. cbn [ram]. change (phys (mkLoader (paging st) m') v) with (phys st v). rewrite Hw.
    repeat case_z; simpl; try lia; try done. do 2 f_equal. lia.
Qed.

(** * Mapping a page *)

Lemma user_page_no l v w : (l <= 1)%nat → user v → user w →
  (page_no top l v =? page_no top l w) = (v / 2 ^ level_shift l =? w / 2 ^ level_shift l).
Proof.
  intros Hl Hv Hw. unfold page_no, user in *.
  assert (2 ^ 47 <= 2 ^ level_shift (S top)) by (apply Z.pow_le_mono_r; unfold level_shift; lia).
  by rewrite !Z.mod_small by lia.
Qed.

(** The page of size [2 ^ k] at [a]. *)
Lemma same_page k a v : 0 <= k → (2 ^ k | a) → v / 2 ^ k = a / 2 ^ k ↔ a <= v < a + 2 ^ k.
Proof.
  intros Hk [q ->]. assert (0 < 2 ^ k) by (apply Z.pow_pos_nonneg; lia). rewrite Z.div_mul by lia.
  pose proof (Z.div_mod v (2 ^ k) ltac:(lia)). pose proof (Z.mod_pos_bound v (2 ^ k) ltac:(lia)). nia.
Qed.

Lemma half_page_no l v w : (l <= 1)%nat → half v → user w →
  (page_no top l v =? page_no top l w) = (v / 2 ^ level_shift l =? w / 2 ^ level_shift l).
Proof.
  intros Hl Hv Hw. destruct (decide (user v)) as [|Hn]; [by apply user_page_no|].
  pose proof (level_shift_pos l). assert (0 < 2 ^ level_shift l) by (apply Z.pow_pos_nonneg; lia).
  assert (2 ^ 47 <= 2 ^ level_shift (S top)) by (apply Z.pow_le_mono_r; unfold level_shift; lia).
  assert (2 ^ 47 = 2 ^ (47 - level_shift l) * 2 ^ level_shift l) as E47.
  { rewrite <- Z.pow_add_r by (unfold level_shift; lia). f_equal. lia. }
  assert (∀ x, x < 2 ^ 47 → x / 2 ^ level_shift l < 2 ^ (47 - level_shift l)) as Hlow.
  { intros x Hx. apply Z.div_lt_upper_bound; [done|]. lia. }
  assert (∀ x, 2 ^ 47 <= x → 2 ^ (47 - level_shift l) <= x / 2 ^ level_shift l) as Hup.
  { intros x Hx. apply Z.div_le_lower_bound; [done|]. lia. }
  unfold page_no, half, user in *. rewrite (Z.mod_small w) by lia.
  specialize (Hlow w ltac:(lia)). pose proof (Hup v ltac:(lia)). pose proof (Hup (v mod 2 ^ level_shift (S top)) ltac:(lia)).
  repeat case_z; done || lia.
Qed.

(** A map operation of the paging code for the page of [level] at [addr]. *)
Definition maps_page (op : paging_state → result paging_state) (level : nat) (addr p : Z) : Prop :=
  ∀ st1, paging_ok top pml4 st1 → ∃ st2, op st1 = Ok st2 ∧ paging_ok top pml4 st2 ∧ supplied st1 st2 ∧
    (out_of_memory st1 st2 ∧ unchanged top pml4 st1 st2 ∨ changed top level pml4 addr (page_phys level p) st1 st2).

Lemma changed_phys level addr p st1 st2 m1 m2 v : (level <= 1)%nat → (2 ^ level_shift level | p) → (2 ^ level_shift level | addr) →
  user addr → half v → changed top level pml4 addr (page_phys level p) st1 st2 →
  phys (mkLoader st2 m2) v = if (addr <=? v) && (v <? addr + 2 ^ level_shift level) then p + (v - addr) else phys (mkLoader st1 m1) v.
Proof.
  intros Hl Hdp Hda Ha Hv Hc. unfold phys. cbn [paging]. rewrite Hc by apply Hv. rewrite half_page_no by done.
  pose proof (level_shift_pos level) as Hs. pose proof (same_page (level_shift level) addr v ltac:(lia) Hda) as Hsame.
  destruct (Z.eqb_spec (v / 2 ^ level_shift level) (addr / 2 ^ level_shift level)) as [E|E].
  - apply Hsame in E. settle_z. cbn [andb]. unfold page_phys. destruct Hdp as [i ->], Hda as [j ->].
    assert (0 < 2 ^ level_shift level) by (apply Z.pow_pos_nonneg; lia). rewrite Z.div_mul by lia.
    replace v with ((v - j * 2 ^ level_shift level) + j * 2 ^ level_shift level) at 1 by lia.
    rewrite Z.mod_add, Z.mod_small by lia. lia.
  - assert (¬ (addr <= v < addr + 2 ^ level_shift level)) by tauto. repeat case_z; simpl; done || lia.
Qed.

Lemma unchanged_phys st1 st2 m1 m2 v : half v → unchanged top pml4 st1 st2 → phys (mkLoader st2 m2) v = phys (mkLoader st1 m1) v.
Proof. intros Hv Hu. unfold phys. cbn [paging]. by rewrite Hu by apply Hv. Qed.

(** Fresh frames [p, p + n) in the page at [addr], cleared. *)
Lemma fresh_ok level st ps p addr op :
  let n := 2 ^ level_shift level in
  loader_ok st → (level <= 1)%nat → (n | addr) → 0 <= addr → addr + n <= 2 ^ 47 → (∀ v, addr <= v < addr + n → phys st v = 0) →
  ps_ok ps → (∀ q, ps_free ps q → ps_free (pages (paging st)) q) → 0 < p → p + n <= 2 ^ 47 → (n | p) →
  (∀ q, (PAGE_SIZE | q) → p <= q < p + n → ps_free (pages (paging st)) q ∧ ¬ ps_free ps q) →
  maps_page op level addr p →
  ∃ st' b, (p' ← op (paging (with_pages st ps)); clear_phys hhdm_offset p n (with_paging (with_pages st ps) p')) = Ok st' ∧
    installs st st' p n addr b ∧ takes ps (pages (paging st')) ∧ (b = true ∨ exhausted ps (pages (paging st'))).
Proof.
  intros n H Hl Hda Ha0 Ha47 Hun Hps Hsub Hp0 Hp47 Hdp Hfr Hop.
  pose proof (level_shift_pos level) as Hsh. assert (PAGE_SIZE <= n) as Hn.
  { unfold n. change PAGE_SIZE with (2 ^ 12). apply Z.pow_le_mono_r; lia. }
  assert (PAGE_SIZE | n) as Hdn.
  { exists (2 ^ (level_shift level - 12)). unfold n. change PAGE_SIZE with (2 ^ 12). rewrite <- Z.pow_add_r by lia. f_equal. lia. }
  assert (PAGE_SIZE | p) as Hdp' by exact (Z.divide_trans _ _ _ Hdn Hdp). assert (PAGE_SIZE | addr) as Hda' by exact (Z.divide_trans _ _ _ Hdn Hda).
  assert (∀ q, (PAGE_SIZE | q) → p <= q < p + n → page_addr q) as Hpa.
  { intros q Hq Hr. split; [lia|done]. }
  assert (paging_ok top pml4 (mkPaging (tables (paging st)) ps (flushed (paging st)))) as Hok1.
  { pose proof (lk_paging st H) as [Hwf _ Hf]. split; [done|done|]. intros q Hq. by apply Hf, Hsub. }
  destruct (Hop _ Hok1) as (st2&E&Hok2&Hsup&Hres). unfold with_pages, with_paging. cbn [paging ram]. rewrite E.
  cbn [mbind result_bind]. destruct Hsup as [Htk Hfree Htab]. cbn [pages tables] in *.
  assert (∀ q, (PAGE_SIZE | q) → p <= q < p + n → frame_ok st q ∧ ¬ ps_free (pages st2) q) as Hfok.
  { intros q Hq Hr. destruct (Hfr q Hq Hr). split; [apply (lk_free st H); auto|by intros ?%Hfree]. }
  assert (∀ t, tables (paging st) !! t = None → page_addr t →
    ¬ ps_free (pages (paging st)) t ∨ ps_free (pages st2) t ∨ p <= t < p + n → tables st2 !! t = None) as Hnt.
  { intros t Ht [Htr Hdt] Hor. apply Htab; [done|]. intros (_&Hf1&Hf2). destruct Hor as [Hn1|[?|Hr]]; [by apply Hn1, Hsub|done|].
    by apply (Hfr t Hdt Hr). }
  destruct (clear_phys_ok (mkLoader st2 (ram st)) p n) as (m'&E'&Hw); [lia|lia|done| | |].
  { apply (data_only_ok _ p n); [|done|done| |lia|lia].
    - cbn [paging]. intros t Ht. destruct (decide (PAGE_SIZE | t)) as [|Hnd]; [done|]. exfalso.
      destruct (tables (paging st) !! t) eqn:Et; [apply Hnd, (lk_aligned st H); by eexists|].
      rewrite (Htab t Et) in Ht; [by destruct Ht|]. by intros ([_ ?]&_).
    - intros q Hq Hr. destruct (Hfok q Hq Hr) as [(?&_) _]. apply Hnt; [done|by apply Hpa|auto]. }
  { intros k Hk. cbn [ram]. set (x := p + k). destruct (Hfok (page x) (page_divide x)) as [(_&Hm&_) _].
    - apply (page_inside p n x); [done|done|lia].
    - pose proof (page_split x). replace (hhdm_offset + p + k) with (hhdm_offset + page x + x mod PAGE_SIZE) by lia.
      apply Hm, Z.mod_pos_bound. done. }
  rewrite E'. cbn [paging]. cbn [ram] in Hw.
  assert (∀ b, (∀ v, half v → phys (mkLoader st2 m') v = if b && ((addr <=? v) && (v <? addr + n)) then p + (v - addr) else phys st v) →
    installs st (mkLoader st2 m') p n addr b) as Hin.
  { intros b Hb. split; cbn [paging ram]; [done|auto| | |by split_and!; try lia|done|done|by intros v _ ?; apply Hun].
    - intros t Ht. destruct (tables (paging st) !! t) eqn:Et; [left; by eexists|right].
      destruct (decide (PAGE_SIZE | t)) as [|Hnd].
      + split; [done|]. intros Hpt Hor. rewrite (Hnt t Et Hpt Hor) in Ht. by destruct Ht.
      + exfalso. rewrite (Htab t Et) in Ht; [by destruct Ht|]. by intros ([_ ?]&_).
    - intros q Hq Hr. split; [by apply Hpa|]. split; [by apply Hfr|by apply Hfok]. }
  destruct Hres as [[Ho Hu]|Hc].
  - exists (mkLoader st2 m'), false. split; [done|]. split; [|split; [done|right; exact (memory_exhausted _ _ Ho)]].
    apply Hin. intros v Hv. cbn [andb]. rewrite (unchanged_phys _ _ (ram st) m' v Hv Hu). done.
  - exists (mkLoader st2 m'), true. split; [done|]. split; [|split; [done|by left]].
    apply Hin. intros v Hv. cbn [andb]. rewrite (changed_phys level addr p _ _ (ram st) m' v Hl Hdp Hda) by (done || (unfold user; lia)).
    done.
Qed.

(** A step that only takes tables and translates as before. *)
Lemma supplied_installs st st2 : loader_ok st → paging_ok top pml4 st2 → supplied (paging st) st2 →
  (∀ v, half v → phys (with_paging st st2) v = phys st v) → installs st (with_paging st st2) 0 0 0 false.
Proof.
  intros H Hok [Htk Hfree Htab] Hp. split; cbn [paging ram with_paging]; [done|done| |lia|by split_and!; try apply Z.divide_0_r| |done|done].
  - intros t Ht. destruct (tables (paging st) !! t) eqn:Et; [left; by eexists|right]. destruct (decide (PAGE_SIZE | t)) as [|Hnd].
    + split; [done|]. intros Hpt Hor. rewrite (Htab t Et) in Ht; [by destruct Ht|]. intros (_&Hf1&Hf2). destruct Hor as [?|[?|?]]; [done|done|lia].
    + exfalso. rewrite (Htab t Et) in Ht; [by destruct Ht|]. by intros ([_ ?]&_).
  - intros x. repeat case_z; simpl; done || lia.
Qed.

Lemma existing_flags_ok st addr flags : loader_ok st → user addr → phys st addr ≠ 0 → page_flags flags →
  ∃ ex, existing_flags hhdm_offset top pml4 addr flags st = Ok (ex, st) ∧ page_flags ex.
Proof.
  intros H Ha Hp Hf. pose proof (pok_wf _ _ _ (lk_paging st H)) as Hwf. pose proof Ha as [Ha0 _].
  unfold existing_flags, paging_get_pte. rewrite (walk_find hhdm_offset frame_safe) by done. cbn [mbind result_bind].
  assert (with_paging st (paging st) = st) as Est by by destruct st.
  destruct (path (tables (paging st)) top 0 addr pml4) as [tb|] eqn:Ep; cbn [mbind result_bind mret result_ret]; rewrite Est; [|by exists flags].
  destruct (path_table _ _ _ _ _ _ Hwf Ep) as (es&Ht). pose proof Ht as (_&E&_).
  destruct (table_entry_at _ _ _ addr 0 Ht Ha0) as (e&Hie&He).
  change (Z.land (Z.shiftr addr 12) 0x1FF) with (table_index addr 0). unfold read_entry. rewrite E. cbn [of_option mbind result_bind].
  rewrite Hie. cbn [of_option mbind result_bind mret result_ret]. eexists. split; [done|]. apply entry_flags_ok; [lia|].
  destruct (present e) eqn:Hpe; [done|]. exfalso. apply Hp. unfold phys, paging_get_phys.
  rewrite (path_absent _ top 0 addr addr pml4 tb es e); try done; [lia|].
  rewrite (same_slot_page top ltac:(lia)) by (done || lia). by apply Z.eqb_eq.
Qed.

(** What the body of a mapping loop does for the [n] bytes at [a]. *)
Record loaded (st st' : loader) (a n : Z) (go : bool) : Prop := {
  ld_ok : loader_ok st';
  ld_keeps : keeps st st';
  ld_draws : draws (pages (paging st)) (pages (paging st'));
  ld_outside v : half v → ¬ a <= v < a + n → phys st' v = phys st v;
  ld_inside : exhausted (pages (paging st)) (pages (paging st')) ∨ go = true ∧ ∀ v, user v → a <= v < a + n → phys st' v ≠ 0
}.

Lemma page_unmapped st addr v : loader_ok st → (PAGE_SIZE | addr) → user addr → user v → addr <= v < addr + PAGE_SIZE →
  page v = addr ∧ (phys st addr = 0 → phys st v = 0) ∧ (phys st addr ≠ 0 → phys st v = phys st addr + (v - addr)).
Proof.
  intros H Hd Ha Hv Hr. assert (page v = addr) as Ep.
  { pose proof (page_range v). destruct (decide (page v = addr)) as [|Hne]; [done|].
    pose proof (page_apart _ _ (page_divide v) Hd Hne). lia. }
  split; [done|]. pose proof (lk_lin st H v Hv) as E. rewrite Ep in E. pose proof (page_split v). rewrite Ep in *.
  split; intros Hp; rewrite E; [by rewrite Hp|]. settle_z. lia.
Qed.

(** The frames of the allocator end up at [addr]. *)
Lemma fresh_loaded level st ps p addr op :
  let n := 2 ^ level_shift level in
  loader_ok st → (level <= 1)%nat → (n | addr) → 0 <= addr → addr + n <= 2 ^ 47 → (∀ v, addr <= v < addr + n → phys st v = 0) →
  ps_ok ps → (∀ q, ps_free ps q → ps_free (pages (paging st)) q) → draws (pages (paging st)) ps →
  0 < p → p + n <= 2 ^ 47 → (n | p) →
  (∀ q, (PAGE_SIZE | q) → p <= q < p + n → ps_free (pages (paging st)) q ∧ ¬ ps_free ps q) →
  maps_page op level addr p →
  ∃ st', (p' ← op (paging (with_pages st ps)); st ← clear_phys hhdm_offset p n (with_paging (with_pages st ps) p');
          mret (true, st)) = Ok (true, st') ∧ loaded st st' addr n true.
Proof.
  intros n H Hl Hda Ha0 Ha47 Hun Hps Hsub Hdr Hp0 Hp47 Hdp Hfr Hop.
  destruct (fresh_ok level st ps p addr op) as (st'&b&E&Hi&Htk&Hb); try done. exists st'. split.
  { destruct (op (paging (with_pages st ps))) as [p'| | |]; cbn [mbind result_bind] in *; [unfold n; by rewrite E|done..]. }
  destruct (installs_ok st st' p n addr b H Hi) as (Hok&Hk&Hnew). split; [done|done| | |].
  - eapply draws_trans; [done|]. by apply takes_draws.
  - intros v Hv Hn. rewrite (in_phys _ _ _ _ _ _ Hi v Hv). destruct b; simpl; [|done]. repeat case_z; simpl; done || lia.
  - destruct Hb as [->|He]; [right|left; by eapply draws_exhausted]. split; [done|]. intros v Hv Hr. by apply Hnew.
Qed.

Lemma exhausted_loaded st ps a n : loader_ok st → ps_ok ps → (∀ q, ps_free ps q → ps_free (pages (paging st)) q) →
  draws (pages (paging st)) ps → exhausted (pages (paging st)) ps → loaded st (with_pages st ps) a n false.
Proof.
  intros H Hps Hsub Hdr He. pose proof (lk_paging st H) as [Hwf _ Hf].
  destruct (installs_ok st (with_pages st ps) 0 0 0 false H) as (Hok&Hk&_).
  { split; cbn [paging ram with_pages with_paging tables pages]; [|done|by left|lia|by split_and!; try apply Z.divide_0_r| |done|done].
    - split; [done|done|]. intros q Hq. by apply Hf, Hsub.
    - intros x. repeat case_z; simpl; done || lia. }
  split; [done|done|done|done|by left].
Qed.

Lemma load_page_ok st flags addr : loader_ok st → page_flags flags → (PAGE_SIZE | addr) → 0 <= addr → addr + PAGE_SIZE <= 2 ^ 47 →
  ∃ go st', load_page hhdm_offset top pml4 flags addr st = Ok (go, st') ∧ loaded st st' addr PAGE_SIZE go.
Proof.
  intros H Hf Hd Ha0 Ha47. pose proof (lk_paging st H) as Hpok. assert (user addr) as Hu by (unfold user, PAGE_SIZE in *; lia).
  unfold load_page. rewrite phys_ok by done. cbn [mbind result_bind].
  destruct (page_flags_ok flags Hf) as (Hf64&Hfp&Hfa).
  destruct (Z.eqb_spec (phys st addr) 0) as [E0|En].
  - destruct (take_page_ok (pages (paging st)) (pok_ok _ _ _ Hpok)) as (p&ps&Et&Hps&Hp&Hsub). rewrite Et. cbn [mbind result_bind].
    assert (draws (pages (paging st)) ps) as Hdr by (eapply draws_page; [done|apply draws_none]).
    destruct (Z.eqb_spec p 0) as [->|Hp0].
    { exists false, (with_pages st ps). split; [done|]. apply exhausted_loaded; try done.
      exists (pages (paging st)), ps. split; [apply draws_none|]. split; [by left|apply draws_none]. }
    destruct Hp as [|(Hpa&Hfree&Hnf)]; [done|]. pose proof Hpa as [Hpr Hpd].
    destruct (fresh_loaded 0 st ps p addr (paging_map_page hhdm_offset top pml4 addr p flags)) as (st'&E&Hl); try done; try lia.
    + intros v Hv. destruct (page_unmapped st addr v H Hd Hu) as (_&Hz&_); [unfold user; change (2 ^ level_shift 0) with PAGE_SIZE in *; lia|done|by apply Hz].
    + change (2 ^ level_shift 0) with PAGE_SIZE. destruct Hpd as [j ->]. unfold PAGE_SIZE in *. lia.
    + change (2 ^ level_shift 0) with PAGE_SIZE. intros q Hq Hr. destruct (decide (q = p)) as [->|Hne]; [done|].
      pose proof (page_apart q p Hq Hpd Hne). lia.
    + intros st1 Hst1. destruct (map_page_ok hhdm_offset frame_safe top ltac:(lia) pml4 addr p flags st1) as (st2&?&?&_&?&?);
        try done; [lia|]. by exists st2.
    + by exists true, st'.
  - destruct (existing_flags_ok st addr flags H Hu En Hf) as (ex&->&Hex). cbn [mbind result_bind].
    destruct (page_flags_ok _ (combine_flags_ok ex flags Hex Hf)) as (Hc64&Hcp&Hca).
    destruct (lk_frame st H addr Hu Hd En) as ([Hpr Hpd]&_).
    destruct (map_page_ok hhdm_offset frame_safe top ltac:(lia) pml4 addr (phys st addr) (combine_flags ex flags) (paging st))
      as (st2&->&Hok2&_&Hsup&Hres); try done; [lia|]. cbn [mbind result_bind mret result_ret].
    assert (∀ v, half v → phys (with_paging st st2) v = phys st v) as Hsame.
    { intros v Hv. unfold with_paging. destruct Hres as [[_ Hu2]|Hc]; [by rewrite (unchanged_phys _ _ (ram st) (ram st) v Hv Hu2); destruct st|].
      rewrite (changed_phys 0 addr (phys st addr) _ _ (ram st) (ram st) v) by (done || lia).
      change (2 ^ level_shift 0) with PAGE_SIZE. repeat case_z; simpl; try by destruct st.
      destruct (page_unmapped st addr v H Hd Hu) as (_&_&Hz); [unfold user; lia|lia|]. by rewrite Hz. }
    destruct (installs_ok _ _ _ _ _ _ H (supplied_installs st st2 H Hok2 Hsup Hsame)) as (Hok&Hk&_).
    exists true, (with_paging st st2). split; [done|]. split; [done|done|apply takes_draws, Hsup|intros; by apply Hsame|].
    right. split; [done|]. intros v Hv Hr. rewrite Hsame by by apply user_half.
    destruct (page_unmapped st addr v H Hd Hu Hv Hr) as (_&_&Hz). rewrite Hz by done. lia.
Qed.

Lemma load_huge_ok st flags addr : loader_ok st → page_flags flags → flags < 2 ^ 12 →
  (PAGE_SIZE_2MB | addr) → 0 <= addr → addr + PAGE_SIZE_2MB <= 2 ^ 47 → (∀ v, addr <= v < addr + PAGE_SIZE_2MB → phys st v = 0) →
  ∃ go st', load_huge hhdm_offset top pml4 flags addr st = Ok (go, st') ∧ loaded st st' addr PAGE_SIZE_2MB go.
Proof.
  intros H Hf Hf12 Hd Ha0 Ha47 Hun. pose proof (lk_paging st H) as Hpok.
  unfold load_huge. rewrite phys_ok by done. cbn [mbind result_bind]. rewrite (Hun addr) by (unfold PAGE_SIZE_2MB; lia).
  destruct (page_flags_ok flags Hf) as (_&Hfp&_). pose proof (proj1 Hf) as Hf0. cbn [Z.eqb].
  destruct (take_2mb_ok (pages (paging st)) (pok_ok _ _ _ Hpok)) as (p&ps&Et&Hps&Hp&Hsub). rewrite Et. cbn [mbind result_bind].
  assert (draws (pages (paging st)) ps) as Hdr by (eapply draws_2mb; [done|apply draws_none]).
  destruct (Z.eqb_spec p 0) as [->|Hp0].
  { exists false, (with_pages st ps). split; [done|]. apply exhausted_loaded; try done.
    exists (pages (paging st)), ps. split; [apply draws_none|]. split; [by right|apply draws_none]. }
  destruct Hp as [|(Hpr&Hp47&Hpd&Hfr)]; [done|]. assert (0 < PAGE_SIZE_2MB) by done.
  destruct (fresh_loaded 1 st ps p addr (paging_map_2mb hhdm_offset top pml4 addr p flags)) as (st'&E&Hl); try done; try lia.
  - intros st1 Hst1. destruct (map_huge_ok hhdm_offset frame_safe top ltac:(lia) 1 PAGE_SIZE_2MB pml4 addr p flags st1)
      as (st2&?&?&_&?&?); try done; try lia. by exists st2.
  - by exists true, st'.
Qed.

(** * Mapping a segment *)

Lemma loaded_app st st1 st2 a m n go : 0 <= m → 0 <= n →
  loaded st st1 a m true → loaded st1 st2 (a + m) n go → loaded st st2 a (m + n) go.
Proof.
  intros Hm Hn [_ K1 D1 O1 I1] [H2 K2 D2 O2 I2]. split; [done|by eapply keeps_trans|by eapply draws_trans|..].
  - intros v Hv Hr. rewrite O2, O1 by (done || lia). done.
  - destruct I1 as [He|[_ I1]]; [left; by eapply exhausted_draws|]. destruct I2 as [He|[-> I2]]; [left; by eapply draws_exhausted|right].
    split; [done|]. intros v Hv Hr. destruct (decide (v < a + m)) as [Hlt|]; [|apply I2; [done|lia]].
    destruct (K2 v Hv) as [-> _]; apply I1; done || lia.
Qed.

(** A loop over the pages of [step] bytes from [a] to [e]; [fresh] says that its
    body wants them unmapped. *)
Lemma addr_loop_ok fuel cond step body fresh a e st :
  0 < step → 0 <= a → e <= 2 ^ 47 → a <= e → (step | e - a) → (e - a) / step < Z.of_nat fuel →
  (∀ x, a <= x → cond x = (x <? e)) →
  (∀ st x, loader_ok st → a <= x → x + step <= e → (step | x - a) → (fresh = true → ∀ v, x <= v < x + step → phys st v = 0) →
    ∃ go st', body x st = Ok (go, st') ∧ loaded st st' x step go) →
  loader_ok st → (fresh = true → ∀ v, a <= v < e → phys st v = 0) →
  ∃ go st', addr_loop fuel cond step body a st = Ok (go, st') ∧ loaded st st' a (e - a) go.
Proof.
  intros Hs Ha He. revert a st Ha. induction fuel as [|fuel IH]; intros a st Ha Hae Hd Hf Hc Hb H Hun.
  { pose proof (Z.div_pos (e - a) step ltac:(lia) ltac:(lia)). lia. }
  cbn [addr_loop]. rewrite Hc by lia. destruct (Z.ltb_spec a e) as [Hlt|].
  2: { replace (e - a) with 0 by lia. exists true, st. split; [done|].
       split; [done|done|apply draws_none|done|right; split; [done|lia]]. }
  assert (a + step <= e) as Hse by (apply Z.divide_pos_le in Hd; lia).
  destruct (Hb st a H ltac:(lia) Hse) as (go&st1&->&Hl).
  { rewrite Z.sub_diag. apply Z.divide_0_r. }
  { intros ? v Hv. apply Hun; [done|lia]. }
  cbn [mbind result_bind]. destruct go.
  - rewrite u64_id by lia. destruct (IH (a + step) st1) as (go&st2&E&Hl2); try lia.
    + replace (e - (a + step)) with (e - a - step) by lia. apply Z.divide_sub_r; [done|by exists 1; lia].
    + replace (e - a) with (e - (a + step) + 1 * step) in Hf by lia. rewrite Z.div_add in Hf by lia. lia.
    + intros x Hx. apply Hc. lia.
    + intros st3 x H3 Hx Hxe Hdx Hun3. apply Hb; [done|lia|done| |done].
      replace (x - a) with (x - (a + step) + step) by lia. apply Z.divide_add_r; [done|by exists 1; lia].
    + apply Hl.
    + intros Hfr v Hv. destruct (decide (user v)) as [Hu|Hnu]; [|unfold user in Hnu; lia].
      rewrite (ld_outside _ _ _ _ _ Hl) by (done || lia || by apply user_half). apply Hun; [done|lia].
    + exists go, st2. split; [done|]. replace (e - a) with (step + (e - (a + step))) by lia. eapply loaded_app; done || lia.
  - exists false, st1. split; [done|]. destruct Hl as [? ? ? O I]. split; [done..| |].
    + intros v Hv Hr. apply O; [done|lia].
    + destruct I as [|[? _]]; [by left|done].
Qed.

(** The bounds of a segment. *)
Definition seg_placed (p : Elf64_Phdr) : Prop :=
  0 <= p_vaddr p ∧ 0 <= p_memsz p ∧ p_vaddr p + p_memsz p + PAGE_SIZE <= 2 ^ 47.

Lemma page_down_2mb v : 0 <= v < 2 ^ 64 → page_down v PAGE_SIZE_2MB = PAGE_SIZE_2MB * (v / PAGE_SIZE_2MB).
Proof. intros. unfold page_down. apply (land_mask v 21); lia. Qed.

Record seg_bounds (p : Elf64_Phdr) : Prop := {
  sb_start : seg_start p = page (p_vaddr p);
  sb_covers : seg_start p <= p_vaddr p < seg_start p + PAGE_SIZE ∧ p_vaddr p + p_memsz p <= seg_end p;
  sb_range : 0 <= seg_start p ∧ seg_start p <= seg_end p < 2 ^ 47 ∧ seg_end p < p_vaddr p + p_memsz p + PAGE_SIZE;
  sb_pages : (PAGE_SIZE | seg_start p) ∧ (PAGE_SIZE | seg_end p);
  sb_huge : (PAGE_SIZE_2MB | huge_start p) ∧ (PAGE_SIZE_2MB | huge_end p);
  sb_huge_start : seg_start p <= huge_start p < seg_start p + PAGE_SIZE_2MB;
  sb_huge_end : 0 <= huge_end p ∧ huge_end p <= seg_end p < huge_end p + PAGE_SIZE_2MB
}.

Lemma seg_bounds_ok p : seg_placed p → seg_bounds p.
Proof.
  intros (Hv&Hm&Hle). unfold PAGE_SIZE in Hle.
  assert (seg_start p = page (p_vaddr p)) as E1 by (apply page_down_page; lia).
  assert (seg_end p = page (p_vaddr p + p_memsz p + PAGE_SIZE - 1)) as E2.
  { unfold seg_end. rewrite u64_id by (unfold PAGE_SIZE; lia). apply page_down_page. unfold PAGE_SIZE. lia. }
  pose proof (page_range (p_vaddr p)) as R1. pose proof (page_range (p_vaddr p + p_memsz p + PAGE_SIZE - 1)) as R2.
  pose proof (page_divide (p_vaddr p)) as D1. pose proof (page_divide (p_vaddr p + p_memsz p + PAGE_SIZE - 1)) as D2.
  rewrite <- E1, <- E2 in *.
  assert (0 <= seg_start p) as H0 by (destruct D1 as [i Hi]; unfold PAGE_SIZE in *; lia).
  assert (seg_start p <= seg_end p) as Hse.
  { destruct (decide (seg_start p <= seg_end p)); [done|]. pose proof (page_apart _ _ D2 D1 ltac:(lia)). lia. }
  assert (huge_start p = PAGE_SIZE_2MB * ((seg_start p + PAGE_SIZE_2MB - 1) / PAGE_SIZE_2MB)) as E3.
  { unfold huge_start. rewrite u64_id by (unfold PAGE_SIZE, PAGE_SIZE_2MB in *; lia). apply page_down_2mb.
    unfold PAGE_SIZE, PAGE_SIZE_2MB in *. lia. }
  assert (huge_end p = PAGE_SIZE_2MB * (seg_end p / PAGE_SIZE_2MB)) as E4.
  { apply page_down_2mb. unfold PAGE_SIZE in *. lia. }
  pose proof (round_up_spec (seg_start p) PAGE_SIZE_2MB ltac:(done)) as [R3 D3]. unfold round_up in R3, D3. rewrite <- E3 in R3, D3.
  pose proof (Z.div_mod (seg_end p) PAGE_SIZE_2MB ltac:(done)) as R4. pose proof (Z.mod_pos_bound (seg_end p) PAGE_SIZE_2MB ltac:(done)).
  pose proof (Z.div_pos (seg_end p) PAGE_SIZE_2MB ltac:(lia) ltac:(done)). rewrite <- E4 in R4.
  split; try done; unfold PAGE_SIZE in *; try lia.
  - split; [done|]. rewrite E4. apply Z.divide_factor_l.
  - split; [|lia]. rewrite E4. apply Z.mul_nonneg_nonneg; [done|lia].
Qed.

(** The pages that the loader touches for a segment; when the segment is inside
    of one 2 MiB block, they start at the block. *)
Definition footprint (p : Elf64_Phdr) (v : Z) : Prop := Z.min (seg_start p) (huge_end p) <= v < seg_end p.
Definition huge_range (p : Elf64_Phdr) (v : Z) : Prop := huge_start p <= v < huge_end p.

Record seg_mapped (st st' : loader) (p : Elf64_Phdr) (go : bool) : Prop := {
  sm_ok : loader_ok st';
  sm_keeps : keeps st st';
  sm_draws : draws (pages (paging st)) (pages (paging st'));
  sm_outside v : half v → ¬ footprint p v → phys st' v = phys st v;
  sm_inside : exhausted (pages (paging st)) (pages (paging st')) ∨ go = true ∧ ∀ v, seg_start p <= v < seg_end p → phys st' v ≠ 0
}.

Lemma map_segment_ok fuel us p st : loader_ok st → seg_placed p → p_memsz p / PAGE_SIZE + 520 < Z.of_nat fuel →
  (huge_start p < huge_end p → has (p_flags p) PF_X = true) → (∀ v, huge_range p v → phys st v = 0) →
  ∃ go st', map_segment hhdm_offset top fuel pml4 (segment_flags us (p_flags p)) p st = Ok (go, st') ∧ seg_mapped st st' p go.
Proof.
  intros H Hp Hf Hx Hun. destruct (seg_bounds_ok p Hp) as [_ [Hc1 Hc2] (Hr0&Hr1&Hr2) [Hd1 Hd2] [Hh1 Hh2] Hs He]. destruct Hp as (_&Hm0&_).
  assert (PAGE_SIZE | PAGE_SIZE_2MB) as Hpp by (by exists 512).
  pose proof (Z.divide_trans _ _ _ Hpp Hh1) as Hq1. pose proof (Z.divide_trans _ _ _ Hpp Hh2) as Hq2.
  pose proof (segment_flags_ok us (p_flags p)) as Hfl. set (flags := segment_flags us (p_flags p)) in *.
  assert (0 <= p_memsz p / PAGE_SIZE) as Hfz by (apply Z.div_pos; [lia|done]).
  assert (∀ d, d <= PAGE_SIZE_2MB → d / PAGE_SIZE < Z.of_nat fuel) as Hfuel.
  { intros d Hd. apply (Z.div_le_mono _ _ PAGE_SIZE) in Hd; [|done]. change (PAGE_SIZE_2MB / PAGE_SIZE) with 512 in Hd. lia. }
  assert (∀ st x, loader_ok st → 0 <= x → x + PAGE_SIZE <= 2 ^ 47 → (PAGE_SIZE | x) →
    ∃ go st', load_page hhdm_offset top pml4 flags x st = Ok (go, st') ∧ loaded st st' x PAGE_SIZE go) as Hpage.
  { intros. by apply load_page_ok. }
  unfold map_segment. set (hm := Z.min (huge_start p) (seg_end p)).
  assert (PAGE_SIZE | hm) as Hdm by (unfold hm; destruct (Z.min_spec (huge_start p) (seg_end p)) as [[_ ->]|[_ ->]]; done).
  destruct (addr_loop_ok fuel (λ a, (a <? huge_start p) && (a <? seg_end p)) PAGE_SIZE (load_page hhdm_offset top pml4 flags)
    false (seg_start p) hm st) as (go1&st1&->&L1); try done; try lia.
  { by apply Z.divide_sub_r. }
  { apply Hfuel. lia. }
  { intros st0 x H0 Hx1 Hx2 Hx3 _. apply Hpage; [done|lia|lia|].
    replace x with (x - seg_start p + seg_start p) by lia. by apply Z.divide_add_r. }
  cbn [mbind result_bind]. destruct go1; cbn [negb].
  2: { exists false, st1. split; [done|]. destruct L1 as [? ? ? O I]. split; [done..| |].
       - intros v Hv Hn. apply O; [done|]. unfold footprint in Hn. lia.
       - destruct I as [|[? _]]; [by left|done]. }
  assert (∃ go st2, addr_loop fuel (λ a, a <? huge_end p) PAGE_SIZE_2MB (load_huge hhdm_offset top pml4 flags) (huge_start p) st1 = Ok (go, st2) ∧
    loaded st1 st2 (huge_start p) (Z.max 0 (huge_end p - huge_start p)) go) as (go2&st2&->&L2).
  { destruct (decide (huge_start p < huge_end p)) as [Hlt|Hge].
    - rewrite Z.max_r by lia. apply (addr_loop_ok fuel _ _ _ true); try done; try lia.
      + by apply Z.divide_sub_r.
      + apply Z.le_lt_trans with (p_memsz p / PAGE_SIZE + 2); [|lia].
        assert (huge_end p - huge_start p <= p_memsz p + 2 * PAGE_SIZE) as Hd by lia.
        etrans; [apply Z.div_le_compat_l with (q := PAGE_SIZE); [lia|done]|].
        apply (Z.div_le_mono _ _ PAGE_SIZE) in Hd; [|done]. by rewrite Z.div_add in Hd.
      + intros st0 x H0 Hx1 Hx2 Hx3 Hu0. apply load_huge_ok; [done|done|apply segment_flags_exec; auto| |lia|lia|auto].
        replace x with (x - huge_start p + huge_start p) by lia. by apply Z.divide_add_r.
      + apply L1.
      + intros _ v Hv. rewrite (ld_outside _ _ _ _ _ L1); [by apply Hun|unfold half; lia|unfold hm; lia].
    - rewrite Z.max_l by lia. exists true, st1. split; [|split; [apply L1|done|apply draws_none|done|right; split; [done|lia]]].
      destruct fuel; [lia|]. cbn [addr_loop]. by settle_z. }
  cbn [mbind result_bind]. destruct L2 as [K2 Kp2 D2 O2 I2]. destruct L1 as [K1 Kp1 D1 O1 I1].
  assert (keeps st st2) as Kp12 by (by eapply keeps_trans). assert (draws (pages (paging st)) (pages (paging st2))) as D12 by (by eapply draws_trans).
  assert (∀ v, half v → ¬ footprint p v → phys st2 v = phys st v) as O12.
  { intros v Hv Hn. unfold footprint in Hn. rewrite O2, O1; [done|done|lia|done|]. destruct (Z.max_spec 0 (huge_end p - huge_start p)); lia. }
  destruct go2; cbn [negb].
  2: { exists false, st2. split; [done|]. split; try done. destruct I2 as [He2|[? _]]; [left; exact (draws_exhausted _ _ _ D1 He2)|done]. }
  destruct (addr_loop_ok fuel (λ a, a <? seg_end p) PAGE_SIZE (load_page hhdm_offset top pml4 flags) false (huge_end p) (seg_end p) st2)
    as (go3&st3&E3&[K3 Kp3 D3 O3 I3]); try done; try lia.
  { by apply Z.divide_sub_r. }
  { apply Hfuel. lia. }
  { intros st0 x H0 Hx1 Hx2 Hx3 _. apply Hpage; [done|lia|lia|].
    replace x with (x - huge_end p + huge_end p) by lia. by apply Z.divide_add_r. }
  exists go3, st3. split; [done|]. split; [done|by eapply keeps_trans|by eapply draws_trans| |].
  - intros v Hv Hn. rewrite O3; [by apply O12|done|]. unfold footprint in Hn. lia.
  - destruct I1 as [He1|[_ I1]]; [left; apply (exhausted_draws _ _ _ He1); by eapply draws_trans|].
    destruct I2 as [He2|[_ I2]]; [left; exact (draws_exhausted _ _ _ D1 (exhausted_draws _ _ _ He2 D3))|].
    destruct I3 as [He3|[-> I3]]; [left; exact (draws_exhausted _ _ _ D12 He3)|right]. split; [done|]. intros v Hv.
    assert (user v) as Hu by (unfold user; lia).
    destruct (decide (huge_end p <= v)); [apply I3; [done|lia]|].
    assert (phys st2 v ≠ 0) as Hn2; [|by destruct (Kp3 v Hu Hn2) as [-> _]].
    destruct (decide (huge_start p <= v)); [apply I2; [done|destruct (Z.max_spec 0 (huge_end p - huge_start p)); lia]|].
    assert (phys st1 v ≠ 0) as Hn1 by (apply I1; [done|unfold hm; lia]). by destruct (Kp2 v Hu Hn1) as [-> _].
Qed.

End Loader.
