(* ===== verification/ElfLoad.v ===== *)
(** Loading the segments of an ELF file (src/binfmt/elf64.c).

    On a well-formed file the loader either finds the allocator exhausted or
    leaves, at every address of every segment, the byte of the file or the zero
    that the program headers promise. *)

From S2P Require Import Prelude Mem Crc32 Bytes Vmm Paging PagingSpec Elf ElfSpec.

Section Load.
Context {PS : Type} `{!FrameSource PS}.
Variable hhdm_offset : Z.
Hypothesis hhdm_placed : placed hhdm_offset (2 ^ 47).
Variable top : nat.
Hypothesis Htop : (3 <= top <= 4)%nat.
Variable pml4 : Z.
Variable file_data : Z.
Variable F : bytes.
Hypothesis file_placed : placed file_data (Z.of_nat (length F)).

Abbreviation loader_ok := (loader_ok hhdm_offset top pml4 file_data F).
Abbreviation frame_ok := (frame_ok hhdm_offset file_data F).
Abbreviation phys := (phys top pml4).
Abbreviation half := (half top).
Abbreviation vbyte := (vbyte hhdm_offset top pml4).
Abbreviation phys_page := (phys_page hhdm_offset top Htop pml4 file_data F).
Abbreviation user_page := (user_page top Htop).
Abbreviation lk_lin := (lk_lin hhdm_offset top pml4 file_data F).
Abbreviation lk_frame := (lk_frame hhdm_offset top pml4 file_data F).
Abbreviation lk_inj := (lk_inj hhdm_offset top pml4 file_data F).

(** * Contents *)

(** Bytes mapped in one frame. *)
Lemma same_frame st u v n : loader_ok st → user u → user v → phys st u ≠ 0 → phys st v ≠ 0 →
  0 <= n → u mod PAGE_SIZE + n <= PAGE_SIZE →
  (phys st u <= phys st v < phys st u + n ↔ u <= v < u + n) ∧ (u <= v < u + n → phys st v - phys st u = v - u).
Proof.
  intros H Hu Hv Pu Pv Hn Hle.
  destruct (phys_page st u H Hu Pu) as (Ppu&Eu&[_ Du]).
  destruct (phys_page st v H Hv Pv) as (Ppv&Ev&[_ Dv]).
  pose proof (Z.mod_pos_bound u PAGE_SIZE ltac:(done)). pose proof (Z.mod_pos_bound v PAGE_SIZE ltac:(done)).
  pose proof (page_split u) as Su. pose proof (page_split v) as Sv.
  assert (u <= v < u + n → phys st (page v) = phys st (page u) ∧ page u = page v) as Hin.
  { intros Hr. assert (page u = page v) as ->; [|done].
    destruct (decide (page u = page v)) as [|Hne]; [done|]. pose proof (page_apart _ _ (page_divide u) (page_divide v) Hne). lia. }
  split; [split; intros Hr|intros Hr; destruct (Hin Hr); lia].
  - assert (phys st (page u) = phys st (page v)) as Ep.
    { destruct (decide (phys st (page u) = phys st (page v))) as [|Hne]; [done|].
      pose proof (page_apart _ _ Du Dv Hne). lia. }
    apply (lk_inj st H) in Ep; [|by apply user_page|by apply user_page|apply page_divide|apply page_divide|done].
    rewrite Ep in *. lia.
  - destruct (Hin Hr). lia.
Qed.

(** What the two loops over the pages of a range do: every byte of the range is
    [C] of its place, or a page of it is not mapped. *)
Record filled (st st' : loader) (start size : Z) (C : Z → Z) (go : bool) : Prop := {
  fl_ok : loader_ok st';
  fl_paging : paging st' = paging st;
  fl_go : go = true → ∀ v, start <= v < start + size → phys st v ≠ 0;
  fl_stop : go = false → ∃ v, start <= v < start + size ∧ phys st v = 0;
  fl_bytes v : go = true → user v → phys st v ≠ 0 →
    vbyte st' v = if (start <=? v) && (v <? start + size) then Some (C (v - start)) else vbyte st v
}.

(** Pages left to visit. *)
Definition chunks (start size : Z) : Z := if size =? 0 then 1 else (start + size - 1) / PAGE_SIZE - start / PAGE_SIZE + 2.

Lemma chunks_bound start size : 0 <= start → 0 <= size → chunks start size <= size / PAGE_SIZE + 3.
Proof.
  intros Hs Hz. unfold chunks. pose proof (Z.div_pos size PAGE_SIZE Hz ltac:(done)). case_z; [lia|].
  pose proof (Z.div_mod start PAGE_SIZE ltac:(done)). pose proof (Z.mod_pos_bound start PAGE_SIZE ltac:(done)).
  pose proof (Z.div_mod size PAGE_SIZE ltac:(done)). pose proof (Z.mod_pos_bound size PAGE_SIZE ltac:(done)).
  pose proof (Z.div_mod (start + size - 1) PAGE_SIZE ltac:(done)).
  pose proof (Z.mod_pos_bound (start + size - 1) PAGE_SIZE ltac:(done)). unfold PAGE_SIZE in *. lia.
Qed.

(** The piece of a range in its first page. *)
Lemma first_chunk start size : 0 <= start → 0 < size →
  let poff := Z.land start (PAGE_SIZE - 1) in
  let chunk := if PAGE_SIZE - poff >? size then size else PAGE_SIZE - poff in
  poff = start mod PAGE_SIZE ∧ 0 < chunk <= size ∧ poff + chunk <= PAGE_SIZE ∧
  chunks (start + chunk) (size - chunk) <= chunks start size - 1.
Proof.
  intros Hs Hz poff chunk. assert (poff = start mod PAGE_SIZE) as Ep by by apply page_down_mod.
  pose proof (Z.mod_pos_bound start PAGE_SIZE ltac:(done)). pose proof (Z.div_mod start PAGE_SIZE ltac:(done)) as Ed.
  assert (0 < chunk <= size ∧ poff + chunk <= PAGE_SIZE) as [Hc1 Hc2] by (unfold chunk; rewrite Z.gtb_ltb; case_z; lia).
  split; [done|]. split; [done|]. split; [done|].
  unfold chunks. rewrite (proj2 (Z.eqb_neq size 0)) by lia.
  assert (start / PAGE_SIZE <= (start + size - 1) / PAGE_SIZE) by (apply Z.div_le_mono; [done|lia]).
  destruct (Z.eqb_spec (size - chunk) 0); [lia|].
  assert (chunk = PAGE_SIZE - poff) as Ec by (unfold chunk in *; rewrite Z.gtb_ltb in *; case_z; lia).
  replace (start + chunk + (size - chunk) - 1) with (start + size - 1) by lia.
  assert ((start + chunk) / PAGE_SIZE = start / PAGE_SIZE + 1) as ->; [|lia].
  replace (start + chunk) with (0 + (start / PAGE_SIZE + 1) * PAGE_SIZE) by lia. rewrite Z.div_add by done. done.
Qed.

Lemma chunk_loop_ok fuel put C lim :
  (∀ st q a off n, loader_ok st → page_addr q → frame_ok st q → q <= a → 0 < n → a + n <= q + PAGE_SIZE → 0 <= off → off + n <= lim →
    ∃ m', put off n a st = Ok (mkLoader (paging st) m') ∧ written hhdm_offset (ram st) m' a n (λ i, C (off + i))) →
  ∀ st off start size, loader_ok st → 0 <= start → start + size <= 2 ^ 47 → 0 <= size → 0 <= off → off + size <= lim →
  chunks start size <= Z.of_nat fuel →
  ∃ go st', chunk_loop top fuel put pml4 off start size st = Ok (go, st') ∧ filled st st' start size (λ i, C (off + i)) go.
Proof.
  intros Hput. induction fuel as [|fuel IH]; intros st off start size H Hs Hle Hz Ho Hlim Hf.
  { unfold chunks in Hf. revert Hf. case_z; [lia|]. pose proof (Z.div_le_mono start (start + size - 1) PAGE_SIZE ltac:(done) ltac:(lia)). lia. }
  cbn [chunk_loop]. destruct (Z.eqb_spec size 0) as [->|Hn].
  { exists true, st. split; [done|]. split; [done|done|lia|done|]. intros v _ Hv Hp. repeat case_z; simpl; done || lia. }
  assert (user start) as Hu by (unfold user; lia).
  destruct (first_chunk start size Hs ltac:(lia)) as (Ep&Hc1&Hc2&Hc3). cbv zeta in *.
  set (poff := Z.land start (PAGE_SIZE - 1)) in *. set (chunk := if PAGE_SIZE - poff >? size then size else PAGE_SIZE - poff) in *.
  rewrite page_down_page by lia. pose proof (user_page start Hu) as Hup.
  rewrite (phys_ok top Htop pml4) by (apply H || apply Hup). cbn [mbind result_bind].
  pose proof (lk_lin st H start Hu) as Elin.
  destruct (Z.eqb_spec (phys st (page start)) 0) as [E0|En].
  { exists false, st. split; [done|]. split; [done|done|done| |done]. intros _. exists start. split; [lia|done]. }
  destruct (lk_frame st H _ Hup (page_divide start) En) as (Hpa&_&Hfok). pose proof Hpa as [Hpr _].
  rewrite <- Ep in Elin. pose proof (Z.mod_pos_bound start PAGE_SIZE ltac:(done)). rewrite (u64_id (phys st (page start) + poff)) by (unfold PAGE_SIZE in *; lia).
  rewrite <- Elin. destruct (Hput st _ (phys st start) off chunk H Hpa Hfok) as (m'&->&Hw); try lia. cbn [mbind result_bind].
  destruct (written_ok hhdm_offset top Htop pml4 file_data F st m' (phys st (page start)) (phys st start) chunk _ H Hpa Hfok ltac:(lia) ltac:(lia) Hw) as [H1 Hb1].
  rewrite u64_id by lia.
  destruct (IH (mkLoader (paging st) m') (off + chunk) (start + chunk) (size - chunk) H1) as (go&st'&E&[K P G S B]); try lia.
  exists go, st'. split; [exact E|]. split; [done|done|..].
  - intros Hgo v Hv. destruct (decide (v < start + chunk)) as [Hlt|]; [|apply (G Hgo v); lia].
    assert (user v) as Huv by (unfold user; lia). rewrite (lk_lin st H v Huv).
    assert (page v = page start) as ->.
    { destruct (decide (page v = page start)) as [|Hne]; [done|].
      pose proof (page_apart _ _ (page_divide v) (page_divide start) Hne). pose proof (page_range v). pose proof (page_split start). lia. }
    settle_z. pose proof (Z.mod_pos_bound v PAGE_SIZE ltac:(done)). lia.
  - intros Hgo. destruct (S Hgo) as (v&Hv&Ev). exists v. split; [lia|exact Ev].
  - intros v Hgo Hv Hp. rewrite (B v Hgo Hv Hp), Hb1.
    pose proof (same_frame st start v chunk H Hu Hv ltac:(lia) Hp ltac:(lia) ltac:(lia)) as [Hsf Hoff].
    repeat case_z; simpl; try lia; try done; do 2 f_equal; lia.
Qed.
(** * Reading the file *)

Lemma read_bytes st off n : loader_ok st → 0 <= off → off + Z.of_nat n <= Z.of_nat (length F) →
  load_bytes n (ram st) (file_data + off) = Ok (sub F off (Z.of_nat n)).
Proof.
  intros H. revert off. induction n as [|n IH]; intros off Ho Hl; [done|]. cbn [load_bytes]. unfold load8.
  destruct (lookup_lt_is_Some_2 F (Z.to_nat off) ltac:(lia)) as [c Ec].
  pose proof (lk_file _ _ _ _ _ st H _ _ Ec) as Em. rewrite Z2Nat.id in Em by lia. rewrite Em. cbn [of_option mbind result_bind].
  replace (file_data + off + 1) with (file_data + (off + 1)) by lia. rewrite IH by lia. cbn [mbind result_bind mret result_ret].
  unfold sub. rewrite !Nat2Z.id. replace (Z.to_nat (off + 1)) with (S (Z.to_nat off)) by lia.
  rewrite (drop_S _ _ _ Ec). done.
Qed.

Lemma read_le st off n : loader_ok st → 0 <= off → off + Z.of_nat n <= Z.of_nat (length F) →
  load_le n (ram st) (file_data + off) = Ok (field (Z.of_nat n) F off).
Proof. intros. unfold load_le. by rewrite read_bytes. Qed.

(** The program header at offset [off] of the file. *)
Definition phdr_at (off : Z) : Elf64_Phdr :=
  mkPhdr (field 4 F off) (field 4 F (off + 4)) (field 8 F (off + 8)) (field 8 F (off + 16)) (field 8 F (off + 32)) (field 8 F (off + 40)).

Lemma read_phdr_ok st off : loader_ok st → 0 <= off → off + 48 <= Z.of_nat (length F) →
  read_phdr (ram st) (file_data + off) = Ok (phdr_at off).
Proof.
  intros H Ho Hl. unfold read_phdr. rewrite <- !Z.add_assoc.
  rewrite !(read_le st) by (done || lia). done.
Qed.

(** * One segment *)

(** What a program header promises for the address [v] of its segment. *)
Definition content (p : Elf64_Phdr) (v : Z) : Z :=
  if v - p_vaddr p <? p_filesz p then default 0 (F !! Z.to_nat (p_offset p + (v - p_vaddr p))) else 0.

Definition in_segment (p : Elf64_Phdr) (v : Z) : Prop := p_vaddr p <= v < p_vaddr p + p_memsz p.

(** A segment whose bytes are in the file, in the user half; when it contains a
    2 MiB page it is executable, because the loader goes through the address of
    a huge page with its no-execute bit. *)
Record seg_ok (p : Elf64_Phdr) : Prop := {
  sg_placed : seg_placed p;
  sg_file : 0 <= p_offset p ∧ 0 <= p_filesz p <= p_memsz p ∧ p_offset p + p_filesz p <= Z.of_nat (length F);
  sg_exec : huge_start p < huge_end p → has (p_flags p) PF_X = true
}.

Lemma copy_file_ok fuel p st : loader_ok st → seg_ok p → p_memsz p / PAGE_SIZE + 520 < Z.of_nat fuel →
  ∃ go st', copy_file hhdm_offset top fuel pml4 (u64 (file_data + p_offset p)) (p_vaddr p) (p_filesz p) st = Ok (go, st') ∧
    filled st st' (p_vaddr p) (p_filesz p) (λ i, default 0 (F !! Z.to_nat (p_offset p + i))) go.
Proof.
  intros H [(Hv&Hm&Hle) (Ho&[Hz Hzm]&Hl) _] Hf. unfold copy_file.
  assert (p_filesz p / PAGE_SIZE <= p_memsz p / PAGE_SIZE) by (apply Z.div_le_mono; done).
  pose proof (chunks_bound (p_vaddr p) (p_filesz p) Hv Hz). unfold PAGE_SIZE in Hle.
  apply (chunk_loop_ok fuel _ (λ i, default 0 (F !! Z.to_nat (p_offset p + i))) (p_filesz p)); try done; try lia.
  intros st0 q a off n Hst0 Hq Hok Ha Hn Hle0 Hoff Hlim.
  destruct (copy_phys_ok hhdm_offset hhdm_placed top Htop pml4 file_data F file_placed st0 q a (p_offset p + off) n) as (m'&E&Hw); try done; try lia.
  exists m'. split.
  - replace (u64 (u64 (file_data + p_offset p) + off)) with (u64 (file_data + (p_offset p + off))); [exact E|].
    unfold u64. rewrite Z.add_mod_idemp_l by done. f_equal. lia.
  - intros x. rewrite Hw. by rewrite Z.add_assoc.
Qed.

Lemma clear_bss_ok fuel p st : loader_ok st → seg_ok p → p_memsz p / PAGE_SIZE + 520 < Z.of_nat fuel →
  ∃ go st', clear_bss hhdm_offset top fuel pml4 (u64 (p_vaddr p + p_filesz p)) (p_memsz p - p_filesz p) st = Ok (go, st') ∧
    filled st st' (p_vaddr p + p_filesz p) (p_memsz p - p_filesz p) (λ _, 0) go.
Proof.
  intros H [(Hv&Hm&Hle) (Ho&[Hz Hzm]&Hl) _] Hf. unfold clear_bss. unfold PAGE_SIZE in Hle.
  assert ((p_memsz p - p_filesz p) / PAGE_SIZE <= p_memsz p / PAGE_SIZE) by (apply Z.div_le_mono; [done|lia]).
  pose proof (chunks_bound (p_vaddr p + p_filesz p) (p_memsz p - p_filesz p) ltac:(lia) ltac:(lia)).
  rewrite u64_id by lia.
  apply (chunk_loop_ok fuel _ (λ _, 0) (p_memsz p - p_filesz p)); try done; try lia.
  intros st0 q a off n Hst0 Hq Hok Ha Hn Hle0 Hoff Hlim. pose proof Hq as [Hq0 [j Hj]].
  destruct (frame_data hhdm_offset top Htop pml4 file_data F st0 q a n Hst0 Hq Hok Ha Hle0) as [Hd Hm'].
  apply (clear_phys_ok hhdm_offset hhdm_placed top Htop); try done; unfold PAGE_SIZE in *; lia.
Qed.

(** What loading a segment does. *)
Record seg_loaded (st st' : loader) (p : Elf64_Phdr) (go : bool) : Prop := {
  ls_ok : loader_ok st';
  ls_draws : draws (pages (paging st)) (pages (paging st'));
  ls_phys v : user v → phys st v ≠ 0 → phys st' v = phys st v;
  ls_outside v : half v → ¬ footprint p v → phys st' v = phys st v;
  ls_done : exhausted (pages (paging st)) (pages (paging st')) ∨ go = true ∧
    (∀ v, in_segment p v → phys st' v ≠ 0 ∧ vbyte st' v = Some (content p v)) ∧
    ∀ v, user v → phys st v ≠ 0 → ¬ in_segment p v → vbyte st' v = vbyte st v
}.

Abbreviation seg_mapped := (seg_mapped hhdm_offset top pml4 file_data F).

Lemma phys_same (st1 st2 : @loader PS) v : paging st2 = paging st1 → phys st2 v = phys st1 v.
Proof. intros E. unfold ElfSpec.phys. by rewrite E. Qed.

(** The segment after its pages are mapped and its contents are written. *)
Lemma seg_loaded_intro st st1 st2 p go1 go :
  seg_mapped st st1 p go1 → loader_ok st2 → paging st2 = paging st1 →
  (exhausted (pages (paging st)) (pages (paging st1)) ∨ go = true ∧
    (∀ v, in_segment p v → phys st1 v ≠ 0 ∧ vbyte st2 v = Some (content p v)) ∧
    ∀ v, user v → phys st1 v ≠ 0 → ¬ in_segment p v → vbyte st2 v = vbyte st1 v) →
  seg_loaded st st2 p go.
Proof.
  intros [H1 K1 D1 O1 I1] H2 E Hd. split; [done|by rewrite E| | |].
  - intros v Hv Hp. rewrite (phys_same _ _ _ E). by apply K1.
  - intros v Hv Hn. rewrite (phys_same _ _ _ E). by apply O1.
  - destruct Hd as [|(->&Hin&Hout)]; [left; by rewrite E|right]. split; [done|]. split.
    + intros v Hv. rewrite (phys_same _ _ _ E). by apply Hin.
    + intros v Hv Hp Hn. destruct (K1 v Hv Hp) as [E1 B1]. rewrite Hout by (done || by rewrite E1). done.
Qed.

(** A page of the range that is not mapped means that memory ran out. *)
Lemma stop_exhausted st st1 stx st2 p go1 start size C :
  seg_placed p → seg_mapped st st1 p go1 → paging stx = paging st1 → p_vaddr p <= start → start + size <= p_vaddr p + p_memsz p →
  filled stx st2 start size C false → exhausted (pages (paging st)) (pages (paging st1)).
Proof.
  intros Hp [_ _ _ _ I1] Ex Hs He [_ _ _ S _]. destruct (S eq_refl) as (v&Hv&E0). destruct I1 as [|[_ I1]]; [done|].
  exfalso. rewrite (phys_same _ _ v Ex) in E0. apply (I1 v); [|done]. destruct (seg_bounds_ok top Htop p Hp) as [_ [Hc1 Hc2] _ _ _ _ _]. lia.
Qed.

Lemma load_segment_ok fuel us st off highest : let p := phdr_at off in
  loader_ok st → 0 <= off → off + 48 <= Z.of_nat (length F) → p_type p = PT_LOAD → seg_ok p →
  p_memsz p / PAGE_SIZE + 520 < Z.of_nat fuel → (∀ v, huge_range p v → phys st v = 0) →
  ∃ go st', load_segment hhdm_offset top fuel us pml4 file_data (Z.of_nat (length F)) (file_data + off) highest st =
      Ok (go, (if seg_end p >? highest then seg_end p else highest), st') ∧ seg_loaded st st' p go.
Proof.
  intros p H Ho Hl Ht Hok Hf Hun. pose proof Hok as [Hpl (Hpo&[Hz Hzm]&Hpf) Hx]. pose proof Hpl as (Hv&Hm&Hle).
  unfold load_segment. rewrite (read_le st off 4) by (done || lia). cbn [mbind result_bind].
  change (field (Z.of_nat 4) F off) with (p_type p). rewrite Ht. cbn [negb Z.eqb].
  rewrite <- !Z.add_assoc. rewrite !(read_le st _ 8) by (done || lia). cbn [mbind result_bind].
  change (field (Z.of_nat 8) F (off + 8)) with (p_offset p). change (field (Z.of_nat 8) F (off + 32)) with (p_filesz p).
  pose proof file_placed as [? Hfp]. rewrite u64_id by lia. rewrite Z.gtb_ltb, (proj2 (Z.ltb_ge _ _)) by lia.
  rewrite (read_phdr_ok st off) by done. cbn [mbind result_bind]. fold p. cbn zeta.
  set (h := if seg_end p >? highest then seg_end p else highest).
  destruct (map_segment_ok hhdm_offset hhdm_placed top Htop pml4 file_data F fuel us p st H Hpl Hf Hx Hun) as (go1&st1&->&M).
  pose proof M as [H1 _ _ _ I1]. cbn [mbind result_bind]. destruct go1; cbn [negb].
  2: { exists false, st1. split; [done|]. apply (seg_loaded_intro st st1 st1 p false); try done. left. by destruct I1 as [|[? _]]. }
  rewrite (read_phdr_ok st1 off) by done. cbn [mbind result_bind]. fold p.
  destruct (copy_file_ok fuel p st1 H1 Hok Hf) as (go2&st2&->&C). pose proof C as [H2 P2 G2 S2 B2]. cbn [mbind result_bind].
  destruct go2; cbn [negb].
  2: { exists false, st2. split; [done|]. apply (seg_loaded_intro st st1 st2 p true); try done. left.
       apply (stop_exhausted st st1 st1 st2 p true (p_vaddr p) (p_filesz p) (λ i, default 0 (F !! Z.to_nat (p_offset p + i))) Hpl M eq_refl); [lia|lia|exact C]. }
  rewrite (read_phdr_ok st2 off) by done. cbn [mbind result_bind]. fold p.
  assert ((∀ v, in_segment p v → phys st1 v ≠ 0) ∨ exhausted (pages (paging st)) (pages (paging st1))) as Hmap.
  { destruct I1 as [|[_ I1]]; [by right|left]. intros v Hv1. apply I1. destruct (seg_bounds_ok top Htop p Hpl) as [_ [Hc1 Hc2] _ _ _ _ _].
    unfold in_segment in Hv1. lia. }
  assert (∀ v, in_segment p v → user v) as Huser by (unfold in_segment, user, PAGE_SIZE in *; intros; lia).
  rewrite Z.gtb_ltb. destruct (Z.ltb_spec (p_filesz p) (p_memsz p)) as [Hlt|Hge].
  - destruct (clear_bss_ok fuel p st2 H2 Hok Hf) as (go3&st3&->&C3). pose proof C3 as [H3 P3 G3 S3 B3].
    cbn [mbind result_bind mret result_ret]. exists go3, st3. split; [done|].
    apply (seg_loaded_intro st st1 st3 p true); [done|done|congruence|].
    destruct go3.
    2: { left. apply (stop_exhausted st st1 st2 st3 p true (p_vaddr p + p_filesz p) (p_memsz p - p_filesz p) (λ _, 0) Hpl M P2); [lia|lia|exact C3]. }
    destruct Hmap as [Hmap|]; [right|by left]. split; [done|].
    assert (∀ v, user v → phys st1 v ≠ 0 → vbyte st3 v =
      if (p_vaddr p + p_filesz p <=? v) && (v <? p_vaddr p + p_filesz p + (p_memsz p - p_filesz p)) then Some 0
      else if (p_vaddr p <=? v) && (v <? p_vaddr p + p_filesz p)
      then Some (default 0 (F !! Z.to_nat (p_offset p + (v - p_vaddr p)))) else vbyte st1 v) as Hb.
    { intros v Hu Hp. rewrite B3 by (done || by rewrite (phys_same _ _ _ P2)). by rewrite B2. }
    split.
    + intros v Hin. split; [by apply Hmap|]. rewrite Hb by auto. unfold in_segment in Hin. unfold content.
      repeat case_z; simpl; done || lia.
    + intros v Hu Hp Hout. rewrite Hb by done. unfold in_segment in Hout. repeat case_z; simpl; done || lia.
  - exists true, st2. split; [done|]. apply (seg_loaded_intro st st1 st2 p true); [done|done|done|].
    destruct Hmap as [Hmap|]; [right|by left]. split; [done|]. split.
    + intros v Hin. split; [by apply Hmap|]. rewrite B2 by auto. unfold in_segment in Hin. unfold content.
      repeat case_z; simpl; done || lia.
    + intros v Hu Hp Hout. rewrite B2 by done. unfold in_segment in Hout. repeat case_z; simpl; done || lia.
Qed.

(** * The whole file *)

Definition phoff : Z := field 8 F 32.
Definition phentsize : Z := field 2 F 54.
Definition phcount : Z := field 2 F 56.
Definition header (i : Z) : Elf64_Phdr := phdr_at (phoff + i * phentsize).
Definition loads (i : Z) : Prop := 0 <= i < phcount ∧ p_type (header i) = PT_LOAD.

(** A file the loader can load: supported, its headers and segments inside, the
    segments apart, and no 2 MiB page of a segment where an earlier segment has
    pages already. *)
Record elf_ok : Prop := {
  ef_bytes : Forall is_byte F;
  ef_size : 64 <= Z.of_nat (length F);
  ef_ident : sub F 0 6 = elf_ident;
  ef_machine : field 2 F 18 = EM_X86_64;
  ef_type : field 2 F 16 = ET_EXEC ∨ field 2 F 16 = ET_DYN;
  ef_table : 48 <= phentsize ∧ phoff + phcount * phentsize <= Z.of_nat (length F);
  ef_seg i : loads i → seg_ok (header i);
  ef_apart i j v : loads i → loads j → i < j → in_segment (header i) v → ¬ in_segment (header j) v;
  ef_huge i j v : loads i → loads j → i < j → huge_range (header j) v → ¬ footprint (header i) v
}.

(** The address behind the last page of the segments from [i] on. *)
Fixpoint highest_end (n : nat) (i highest : Z) : Z :=
  match n with
  | O => highest
  | S n => highest_end n (i + 1)
             (if p_type (header i) =? PT_LOAD then if seg_end (header i) >? highest then seg_end (header i) else highest
              else highest)
  end.

(** The segments before [i] are loaded into the state [st], reached from [st0]. *)
Record loaded_upto (st0 st : loader) (i : Z) : Prop := {
  lu_ok : loader_ok st;
  lu_draws : draws (pages (paging st0)) (pages (paging st));
  lu_only v : user v → phys st v ≠ 0 → ∃ k, loads k ∧ k < i ∧ footprint (header k) v;
  lu_upper v : half v → ¬ user v → phys st v = phys st0 v;
  lu_bytes : exhausted (pages (paging st0)) (pages (paging st)) ∨
    ∀ k v, loads k → k < i → in_segment (header k) v → phys st v ≠ 0 ∧ vbyte st v = Some (content (header k) v)
}.

Lemma header_inside i : elf_ok → 0 <= i < phcount →
  0 <= phoff + i * phentsize ∧ phoff + i * phentsize + 48 <= Z.of_nat (length F).
Proof.
  intros Hef Hi. destruct (ef_table Hef) as [H48 Ht].
  pose proof (field_range 8 F 32 (ef_bytes Hef) ltac:(lia)). unfold phoff in *. nia.
Qed.

Lemma loaded_next st0 st st' i go : elf_ok → loaded_upto st0 st i → loads i → seg_loaded st st' (header i) go →
  loaded_upto st0 st' (i + 1) ∧ (go = false → exhausted (pages (paging st0)) (pages (paging st'))).
Proof.
  intros Hef [H D O U B] Hi [H' D' P' O' I'].
  split; [|intros ->; destruct I' as [He|[? _]]; [by eapply draws_exhausted|done]].
  split; [done|by eapply draws_trans| | |].
  - intros v Hv Hp. destruct (decide (Z.min (seg_start (header i)) (huge_end (header i)) <= v < seg_end (header i))) as [Hf|Hf].
    + exists i. split; [done|]. split; [lia|exact Hf].
    + rewrite O' in Hp by (done || by apply user_half). destruct (O v Hv Hp) as (k&?&?&?). exists k. split; [done|]. split; [lia|done].
  - intros v Hv Hn. rewrite O', U; [done|done|done|done|]. unfold footprint.
    destruct (seg_bounds_ok top Htop _ (sg_placed _ (ef_seg Hef i Hi))) as [_ _ (?&?&_) _ _ _ [? ?]]. unfold ElfSpec.half, user in *. lia.
  - destruct B as [He|B]; [left; by eapply exhausted_draws|]. destruct I' as [He|(_&Hin&Hout)]; [left; by eapply draws_exhausted|right].
    intros k v Hk Hki Hs. destruct (decide (k = i)) as [->|Hne]; [by apply Hin|].
    destruct (B k v Hk ltac:(lia) Hs) as [Hp Hb].
    assert (user v) as Hu.
    { destruct (sg_placed _ (ef_seg Hef k Hk)) as (?&?&?). unfold user, in_segment, PAGE_SIZE in *. lia. }
    rewrite P' by done. split; [done|]. rewrite Hout; [done|done|done|]. apply (ef_apart Hef k i); try done. lia.
Qed.

Lemma loaded_skip st0 st i : loaded_upto st0 st i → ¬ loads i → loaded_upto st0 st (i + 1).
Proof.
  intros [H D O U B] Hn. split; [done|done|..|done|].
  - intros v Hv Hp. destruct (O v Hv Hp) as (k&?&?&?). exists k. split; [done|]. split; [lia|done].
  - destruct B as [|B]; [by left|right]. intros k v Hk Hki Hs. apply B; [done| |done].
    destruct (decide (k = i)) as [->|]; [done|lia].
Qed.

Lemma segment_loop_ok n fuel us st0 st i highest : elf_ok → (∀ k, loads k → p_memsz (header k) / PAGE_SIZE + 520 < Z.of_nat fuel) →
  0 <= i <= phcount → phcount - i < Z.of_nat n → loaded_upto st0 st i →
  ∃ go h st', segment_loop hhdm_offset top n fuel us pml4 file_data (Z.of_nat (length F)) i highest st = Ok (go, h, st') ∧
    loader_ok st' ∧ (∀ v, half v → ¬ user v → phys st' v = phys st0 v) ∧
    (exhausted (pages (paging st0)) (pages (paging st')) ∨
     go = true ∧ h = highest_end (Z.to_nat (phcount - i)) i highest ∧ loaded_upto st0 st' phcount).
Proof.
  intros Hef Hfu. revert st i highest. induction n as [|n IH]; intros st i highest Hi Hn Hup; [lia|].
  pose proof Hup as [H D O U B]. cbn [segment_loop]. pose proof (ef_size Hef) as Hsz.
  unfold e_phnum, e_phoff, e_phentsize. rewrite !(read_le st) by (done || lia). cbn [mbind result_bind].
  change (field (Z.of_nat 2) F 56) with phcount. change (field (Z.of_nat 8) F 32) with phoff. change (field (Z.of_nat 2) F 54) with phentsize.
  destruct (Z.ltb_spec i phcount) as [Hlt|Hge].
  2: { exists true, highest, st. split; [done|]. split; [done|]. split; [done|]. right. split; [done|].
       replace (phcount - i) with 0 by lia. split; [done|]. by replace phcount with i by lia. }
  destruct (header_inside i Hef ltac:(lia)) as [Ho Hl]. pose proof file_placed as [? Hfp].
  pose proof (field_range 2 F 56 (ef_bytes Hef) ltac:(lia)) as Hc16. fold phcount in Hc16. change (2 ^ (8 * 2)) with (2 ^ 16) in Hc16.
  rewrite u64_id by lia. rewrite <- Z.add_assoc. rewrite (u16_id (i + 1)) by lia.
  replace (Z.to_nat (phcount - i)) with (S (Z.to_nat (phcount - (i + 1)))) by lia. cbn [highest_end].
  destruct (Z.eqb_spec (p_type (header i)) PT_LOAD) as [Hload|Hskip].
  - assert (loads i) as Hli by (split; [lia|done]).
    destruct (load_segment_ok fuel us st (phoff + i * phentsize) highest H Ho Hl Hload (ef_seg Hef i Hli) (Hfu i Hli)) as (go&st'&->&Hs).
    { intros v Hv. destruct (decide (phys st v = 0)) as [|Hp]; [done|]. exfalso.
      destruct (seg_bounds_ok top Htop _ (sg_placed _ (ef_seg Hef i Hli))) as [_ _ (Hr0&Hr1&_) _ _ Hh1 Hh2].
      destruct (O v) as (k&Hk&Hki&Hf); [|done|by apply (ef_huge Hef k i v Hk Hli Hki)].
      unfold huge_range, header in *. unfold user. lia. }
    fold (header i) in Hs |- *. cbn [mbind result_bind]. destruct (loaded_next st0 st st' i go Hef Hup Hli Hs) as [Hup' Hgo].
    destruct go; [by apply IH; [lia|lia|]|]. exists false. eexists _, st'. split; [done|]. split; [apply Hup'|]. split; [apply Hup'|left; by apply Hgo].
  - unfold load_segment. rewrite (read_le st _ 4) by (done || lia). cbn [mbind result_bind].
    change (field (Z.of_nat 4) F (phoff + i * phentsize)) with (p_type (header i)).
    rewrite (proj2 (Z.eqb_neq _ _) Hskip). cbn [negb mbind result_bind mret result_ret].
    apply IH; [lia|lia|]. apply loaded_skip; [done|]. by intros [_ ?].
Qed.

Lemma ident_ok st off l : loader_ok st → 0 <= off → off + Z.of_nat (length l) <= Z.of_nat (length F) →
  ident_matches (ram st) (file_data + off) l = Ok (bool_decide (sub F off (Z.of_nat (length l)) = l)).
Proof.
  intros H. revert off. induction l as [|c l IH]; intros off Ho Hl; [done|]. cbn [ident_matches length] in *. unfold load8.
  destruct (lookup_lt_is_Some_2 F (Z.to_nat off) ltac:(lia)) as [x Ex].
  pose proof (lk_file _ _ _ _ _ st H _ _ Ex) as Em. rewrite Z2Nat.id in Em by lia. rewrite Em. cbn [of_option mbind result_bind].
  assert (sub F off (Z.of_nat (S (length l))) = x :: sub F (off + 1) (Z.of_nat (length l))) as ->.
  { unfold sub. rewrite !Nat2Z.id, (drop_S _ _ _ Ex). by replace (Z.to_nat (off + 1)) with (S (Z.to_nat off)) by lia. }
  destruct (Z.eqb_spec x c) as [->|Hne]; [|rewrite bool_decide_false by congruence; done].
  replace (file_data + off + 1) with (file_data + (off + 1)) by lia. rewrite IH by lia. f_equal.
  apply bool_decide_ext. split; congruence.
Qed.

(** What the parser does with a file it can load, in an address space whose
    user half is empty. *)
Lemma elf64_parse_ok fuel us st : elf_ok → (∀ k, loads k → p_memsz (header k) / PAGE_SIZE + 520 < Z.of_nat fuel) →
  loader_ok st → (∀ v, user v → phys st v = 0) →
  ∃ ret st', elf64_parse hhdm_offset top fuel file_data (Z.of_nat (length F)) pml4 us st = Ok (ret, st') ∧
    loader_ok st' ∧ (∀ v, half v → ¬ user v → phys st' v = phys st v) ∧
    (exhausted (pages (paging st)) (pages (paging st')) ∨
     ret = mkRet 1 (field 8 F 24) phcount (highest_end (Z.to_nat phcount) 0 0) ∧
     (∀ v, user v → phys st' v ≠ 0 → ∃ k, loads k ∧ footprint (header k) v) ∧
     ∀ k v, loads k → in_segment (header k) v → phys st' v ≠ 0 ∧ vbyte st' v = Some (content (header k) v)).
Proof.
  intros Hef Hfu H Hun. pose proof file_placed as [Hf0 Hfp]. pose proof (ef_size Hef) as Hsz.
  unfold elf64_parse. rewrite (proj2 (Z.eqb_neq file_data NULL)) by (unfold NULL; lia).
  unfold ehdr_supported. pose proof (ident_ok st 0 elf_ident H ltac:(lia) ltac:(simpl; lia)) as Ei.
  rewrite Z.add_0_r in Ei. rewrite Ei, bool_decide_true by exact (ef_ident Hef). cbn [mbind result_bind].
  unfold e_machine, e_phoff, e_phnum, e_phentsize, e_type. rewrite !(read_le st) by (done || lia). cbn [mbind result_bind mret result_ret].
  change (Z.of_nat 2) with 2. change (Z.of_nat 8) with 8.
  rewrite (ef_machine Hef), Z.eqb_refl. cbn [negb]. fold phoff phcount phentsize.
  destruct (ef_table Hef) as [He48 Htab]. pose proof (field_range 8 F 32 (ef_bytes Hef) ltac:(lia)) as Hpo. fold phoff in Hpo.
  pose proof (field_range 2 F 56 (ef_bytes Hef) ltac:(lia)) as Hpc. fold phcount in Hpc. change (2 ^ (8 * 2)) with (2 ^ 16) in Hpc.
  rewrite u64_id by nia. rewrite Z.gtb_ltb, (proj2 (Z.ltb_ge _ _)) by lia.
  assert (negb (field 2 F 16 =? ET_EXEC) && negb (field 2 F 16 =? ET_DYN) = false) as ->.
  { by destruct (ef_type Hef) as [->| ->]. }
  assert (loaded_upto st st 0) as Hup.
  { split; [done|apply draws_none|intros v Hv Hp; by rewrite Hun in Hp|done|right]. intros k v [? _] ?. lia. }
  destruct (segment_loop_ok (Z.to_nat 65536) fuel us st st 0 0 Hef Hfu ltac:(lia) ltac:(lia) Hup) as (go&h&st'&->&H'&HU&Hr).
  cbn [mbind result_bind]. destruct go; cbn [negb].
  2: { exists (mkRet 0 0 0 0), st'. split; [done|]. split; [done|]. split; [done|]. left. by destruct Hr as [|[? _]]. }
  unfold e_entry. rewrite !(read_le st') by (done || lia). cbn [mbind result_bind mret result_ret].
  eexists _, st'. split; [done|]. split; [done|]. split; [done|]. destruct Hr as [|(_&->&[_ _ O _ B])]; [by left|].
  destruct B as [|B]; [by left|right]. rewrite Z.sub_0_r. split; [done|]. split.
  - intros v Hv Hp. destruct (O v Hv Hp) as (k&?&_&?). by exists k.
  - intros k v Hk. apply B; [done|]. apply Hk.
Qed.

(** A file whose identification, machine, header table or type the loader does
    not know is refused before anything is mapped. *)
Theorem elf64_parse_refuses fuel us st : loader_ok st → 64 <= Z.of_nat (length F) → Forall is_byte F →
  sub F 0 6 ≠ elf_ident ∨ field 2 F 18 ≠ EM_X86_64 ∨ u64 (phoff + phcount * phentsize) > Z.of_nat (length F) ∨
    field 2 F 16 ≠ ET_EXEC ∧ field 2 F 16 ≠ ET_DYN →
  elf64_parse hhdm_offset top fuel file_data (Z.of_nat (length F)) pml4 us st = Ok (mkRet 0 0 0 0, st).
Proof.
  intros H Hsz Hb Hbad. pose proof file_placed as [Hf0 _].
  unfold elf64_parse. rewrite (proj2 (Z.eqb_neq file_data NULL)) by (unfold NULL; lia). unfold ehdr_supported.
  pose proof (ident_ok st 0 elf_ident H ltac:(lia) ltac:(simpl; lia)) as Ei. rewrite Z.add_0_r in Ei. rewrite Ei.
  cbn [mbind result_bind]. case_bool_decide as Hid; cbn [mbind result_bind mret result_ret negb]; [|done].
  unfold e_machine, e_phoff, e_phnum, e_phentsize, e_type. rewrite !(read_le st) by (done || lia).
  cbn [mbind result_bind mret result_ret]. change (Z.of_nat 2) with 2. change (Z.of_nat 8) with 8.
  destruct (Z.eqb_spec (field 2 F 18) EM_X86_64) as [Em|]; cbn [negb]; [|done]. fold phoff phcount phentsize. rewrite Z.gtb_ltb.
  destruct (Z.ltb_spec (Z.of_nat (length F)) (u64 (phoff + phcount * phentsize))); [done|].
  destruct Hbad as [?|[?|[?|[Ht1 Ht2]]]]; [done|done|lia|].
  by rewrite (proj2 (Z.eqb_neq _ _) Ht1), (proj2 (Z.eqb_neq _ _) Ht2).
Qed.

End Load.

(** * Runs that remember refusals

    A frame source with a flag that a request without an answer sets. *)
Section Logged.
Context {PS : Type} `{!FrameSource PS}.

Definition logged : Type := PS * bool.

Definition log_take (op : PS → result (Z * PS)) (s : logged) : result (Z * logged) :=
  '(p, s') ← op s.1; mret (p, (s', s.2 || (p =? 0))).

Lemma log_take_ok op s p s' : op s.1 = Ok (p, s') → log_take op s = Ok (p, (s', s.2 || (p =? 0))).
Proof. intros E. unfold log_take. by rewrite E. Qed.

#[export, refine] Instance logged_pages : PageSource logged := {
  take_page := log_take take_page;
  ps_ok s := ps_ok s.1;
  ps_free s := ps_free s.1
}.
Proof.
  intros s Hs. destruct (take_page_ok s.1 Hs) as (p&s'&E&?&?&?). exists p. eexists. split; [exact (log_take_ok _ _ _ _ E)|done].
Defined.

#[export, refine] Instance logged_frames : FrameSource logged := {
  frame_pages := logged_pages;
  take_2mb := log_take take_2mb
}.
Proof.
  intros s Hs. destruct (take_2mb_ok s.1 Hs) as (p&s'&E&?&?&?). exists p. eexists. split; [exact (log_take_ok _ _ _ _ E)|done].
Defined.

Definition refused (st : @loader logged) : bool := (pages (paging st)).2.

Lemma log_take_flag op s p s' : log_take op s = Ok (p, s') → s'.2 = s.2 || (p =? 0).
Proof. unfold log_take. destruct (op s.1) as [[q s1]| | |]; [|done..]. cbn. by intros [= <- <-]. Qed.

Lemma draws_flag s s' : draws s s' → s.2 = true → s'.2 = true.
Proof. induction 1 as [|s p s1 s' E _ IH|s p s1 s' E _ IH]; intros Hf; [done|..]; apply IH; by rewrite (log_take_flag _ _ _ _ E), Hf. Qed.

Lemma exhausted_flag s s' : exhausted s s' → s'.2 = true.
Proof.
  intros (s1&s2&_&E&Hd). apply (draws_flag _ _ Hd). by destruct E as [E|E]; rewrite (log_take_flag _ _ _ _ E), orb_true_r.
Qed.


End Logged.
