(* ===== verification/ElfAlloc.v ===== *)
(** A task for an ELF program (src/binfmt/elf64.c, [elf64_alloc]).

    A new top table takes the upper half from the current one, the program is
    loaded into its lower half, and the scheduler makes a task that runs in it.
    The state is the scheduler's, whose memory holds what the loader works on. *)

From S2P Require Import Prelude Sched SchedSpec Mem Bytes Vmm Paging PagingSpec Elf ElfSpec ElfLoad.

(** The loader's part of the memory that the scheduler allocates from. *)
Class LoaderMemory (PS B : Type) `{!FrameSource PS} := {
  loader_of : B → @loader PS;
  set_loader : B → @loader PS → B;
  loader_of_set b l : loader_of (set_loader b l) = l
}.

Section Alloc.
Context {PS B : Type} `{!FrameSource PS, !TaskMemory B, !LoaderMemory PS B}.
Variable hhdm_offset : Z.
Variable top : nat.

(** [for (int i = 256; i < 512; i++) proc_pml4_virt[i] = kernel_pml4[i];] *)
Fixpoint clone_loop (n : nat) (i src dst : Z) (p : @paging_state PS) : result paging_state :=
  match n with
  | O => Ok p
  | S n => e ← read_entry p src i; p ← write_entry p dst i e; clone_loop n (i + 1) src dst p
  end.

(** [memset(proc_pml4_virt, 0, PAGE_SIZE)] of a frame that becomes a table. *)
Definition zero_table (t : Z) (p : @paging_state PS) : result paging_state :=
  let a := u64 (t + hhdm_offset) in
  _ ← nonnull "MEMORY" "memset s is null" a;
  _ ← safe "MEMORY" "memset s is out of range" a PAGE_SIZE;
  mret (with_tables p (<[t := replicate 512 0]> (tables p))).

(** The address space of a new program: its lower half is empty. *)
Definition new_space (kernel_pml4 t : Z) (p : @paging_state PS) : result paging_state :=
  p ← zero_table t p; clone_loop 256 256 kernel_pml4 t p.

Definition store_loader (s : @sched B) (l : @loader PS) : sched := Sched.with_memory s (set_loader (Sched.memory s) l).

(** The program in a new address space: its top table, 0 when there is none. *)
Definition load_program (fuel : nat) (kernel_pml4 file_data file_size : Z) (st : @loader PS)
    : result (Z * elf64_parser_ret * loader) :=
  '(proc_pml4, ps) ← take_page (pages (paging st));
  let st := with_pages st ps in
  if proc_pml4 =? 0 then mret (0, mkRet 0 0 0 0, st)
  else
    p ← new_space kernel_pml4 proc_pml4 (paging st);
    '(elf, st) ← elf64_parse hhdm_offset top fuel file_data file_size proc_pml4 false (with_paging st p);
    mret (proc_pml4, elf, st).

Definition elf64_alloc (fuel : nat) (file_data file_size : Z) (s : @sched B) : result (Z * sched) :=
  '(proc_pml4, elf, st) ← load_program fuel (Sched.pml4 s) file_data file_size (loader_of (Sched.memory s));
  let s := store_loader s st in
  if status elf =? 0 then mret (NULL, s)
  else
    '(new_task, s) ← scheduler_create_task hhdm_offset (entry elf) s;
    if new_task =? NULL then mret (NULL, s)
    else s ← set_task new_task (λ t, set_cr3 t proc_pml4) s; mret (new_task, s).

End Alloc.

(** * The new address space *)

Section Space.
Context {PS : Type} `{!FrameSource PS}.

(** After [n] steps of the loop. *)
Lemma clone_loop_ok n i src dst (p : @paging_state PS) es ds :
  tables p !! src = Some es → tables p !! dst = Some ds → src ≠ dst → length es = 512%nat → length ds = 512%nat →
  0 <= i → i + Z.of_nat n <= 512 →
  ∃ ds', clone_loop n i src dst p = Ok (with_tables p (<[dst := ds']> (tables p))) ∧ length ds' = 512%nat ∧
    ∀ j : nat, ds' !! j = if (i <=? Z.of_nat j) && (Z.of_nat j <? i + Z.of_nat n) then es !! j else ds !! j.
Proof.
  revert i p ds. induction n as [|n IH]; intros i p ds Es Ed Hne Hle Hld Hi Hn; cbn [clone_loop].
  { exists ds. rewrite insert_id by done. split; [by destruct p|]. split; [done|]. intros j. repeat case_z; simpl; done || lia. }
  destruct (lookup_lt_is_Some_2 es (Z.to_nat i)) as [e He]; [lia|]. destruct (lookup_lt_is_Some_2 ds (Z.to_nat i)) as [d Hd]; [lia|].
  unfold read_entry, write_entry. rewrite Es. cbn [of_option mbind result_bind]. rewrite He. cbn [of_option mbind result_bind].
  rewrite Ed. cbn [of_option mbind result_bind]. rewrite Hd. cbn [of_option mbind result_bind mret result_ret].
  destruct (IH (i + 1) (with_tables p (<[dst := <[Z.to_nat i := e]> ds]> (tables p))) (<[Z.to_nat i := e]> ds)) as (ds'&->&Hl&H).
  - cbn [tables with_tables]. by rewrite lookup_insert_ne.
  - apply lookup_insert_eq.
  - done.
  - done.
  - by rewrite length_insert.
  - lia.
  - lia.
  - exists ds'. split; [unfold with_tables; cbn [tables pages flushed]; by rewrite insert_insert_eq|]. split; [done|].
    intros j. rewrite H. destruct (decide (j = Z.to_nat i)) as [->|Hj].
    + rewrite list_lookup_insert_eq by lia. repeat case_z; simpl; done || lia.
    + rewrite list_lookup_insert_ne by done. repeat case_z; simpl; done || lia.
Qed.

Variable hhdm_offset : Z.
Hypothesis hhdm_placed : placed hhdm_offset (2 ^ 47).
Variable top : nat.
Hypothesis Htop : (3 <= top <= 4)%nat.

(** The addresses of the half that every address space shares. *)
Definition upper (v : Z) : Prop := 0 <= v ∧ 256 <= table_index v top.

Lemma upper_half v : upper v → half top v ∧ ¬ user v.
Proof.
  intros [Hv Hi]. pose proof (offset_split v top Hv) as E. pose proof (table_index_range v top Hv).
  pose proof (Z.mod_pos_bound v (2 ^ level_shift top) ltac:(apply Z.pow_pos_nonneg; unfold level_shift; lia)).
  assert (2 ^ 39 <= 2 ^ level_shift top) by (apply Z.pow_le_mono_r; unfold level_shift; lia).
  pose proof (Z.mod_le v (2 ^ level_shift (S top)) Hv ltac:(apply Z.pow_pos_nonneg; unfold level_shift; lia)).
  unfold half, user. split; [split; [done|right]|]; nia.
Qed.

Lemma user_lower v : user v → table_index v top < 256.
Proof.
  intros [Hv Hlt]. rewrite table_index_eq by done.
  assert (v / 2 ^ level_shift top < 256); [|rewrite Z.mod_small; [done|split; [apply Z.div_pos; [done|apply Z.pow_pos_nonneg; unfold level_shift; lia]|lia]]].
  apply Z.div_lt_upper_bound; [apply Z.pow_pos_nonneg; unfold level_shift; lia|].
  assert (2 ^ 39 <= 2 ^ level_shift top) by (apply Z.pow_le_mono_r; unfold level_shift; lia). lia.
Qed.

(** The entries of the table: those of the kernel from 256 on. *)
Lemma new_space_run kp t (p : @paging_state PS) es : page_addr t → t ≠ kp → tables p !! kp = Some es → length es = 512%nat →
  ∃ ds, new_space hhdm_offset kp t p = Ok (with_tables p (<[t := ds]> (tables p))) ∧ length ds = 512%nat ∧
    ∀ j : nat, ds !! j = if (256 <=? Z.of_nat j) && (Z.of_nat j <? 512) then es !! j else replicate 512 0 !! j.
Proof.
  intros Ht Hne Ek Hl. pose proof (frame_safe hhdm_offset hhdm_placed top Htop t Ht) as Hs. destruct Ht as [Ht _].
  unfold new_space, zero_table, nonnull, safe. change PAGE_SIZE with 4096. rewrite Hs.
  assert (u64 (t + hhdm_offset) ≠ NULL) as Hn.
  { destruct hhdm_placed as [? Hp]. rewrite u64_id by lia. unfold NULL. lia. }
  rewrite (proj2 (Z.eqb_neq _ _) Hn). cbn [negb mbind result_bind mret result_ret].
  destruct (clone_loop_ok 256 256 kp t (with_tables p (<[t := replicate 512 0]> (tables p))) es (replicate 512 0)) as (ds&->&Hd&H);
    try done; [cbn [tables with_tables]; by rewrite lookup_insert_ne|apply lookup_insert_eq|].
  exists ds. split; [unfold with_tables; cbn [tables pages flushed]; by rewrite insert_insert_eq|]. by split.
Qed.

Lemma new_space_ok kp t (p : @paging_state PS) (ps : PS) :
  paging_ok top kp p → page_addr t → ps_free (pages p) t → ¬ ps_free ps t → ps_ok ps →
  (∀ q, ps_free ps q → ps_free (pages p) q) →
  ∃ p', new_space hhdm_offset kp t (mkPaging (tables p) ps (flushed p)) = Ok p' ∧ paging_ok top t p' ∧ pages p' = ps ∧
    (∃ ds, tables p' = <[t := ds]> (tables p)) ∧
    (∀ v, user v → paging_get_phys top t v p' = Ok 0) ∧
    (∀ v, upper v → paging_get_phys top t v p' = paging_get_phys top kp v p).
Proof.
  intros [Hwf _ Hfree] Ht Hft Hnt Hps Hsub. set (T := tables p). fold T in Hwf, Hfree.
  assert (∀ a, reach T top kp a → a ≠ t) as Hout by (intros a Ha ->; by apply (Hfree t)).
  assert (∃ l, top = S l) as [l El] by (exists (pred top); lia).
  pose proof Hwf as Hwf0. rewrite El in Hwf0. apply wf_S in Hwf0 as (es&Htab&Hc&Hd). pose proof Htab as (Hkp&Ek&Hl&Hf).
  assert (kp ≠ t) as Hkt by (apply Hout, reach_self).
  destruct (new_space_run kp t (mkPaging T ps (flushed p)) es Ht) as (ds&E&Hld&Hds); [done|done|done|].
  set (T' := <[t := ds]> T). assert (T' !! t = Some ds) as Et by apply lookup_insert_eq.
  assert (∀ i e, es !! i = Some e → agree T T' (entry_reach T l e)) as Hag.
  { intros i e Hi a Ha. apply lookup_insert_ne. intros <-. apply (Hout t); [|done]. rewrite El. apply (reach_S _ _ _ _ _ Ek). right. eauto. }
  assert (∀ j e, ds !! j = Some e → e = 0 ∨ es !! j = Some e) as Hent.
  { intros j e Hj. rewrite Hds in Hj. destruct (_ && _); [by right|left]. by apply lookup_replicate in Hj as [-> _]. }
  assert (∀ a, ¬ entry_reach T' l 0 a) as H0 by by intros a [? _].
  assert (∀ j e a, ds !! j = Some e → entry_reach T' l e a → es !! j = Some e ∧ entry_reach T l e a) as Hre.
  { intros j e a Hj Hr. destruct (Hent j e Hj) as [->|He]; [by apply H0 in Hr|]. split; [done|].
    by apply (entry_frame T T' l e (Hag j e He)). }
  exists (with_tables (mkPaging T ps (flushed p)) T'). split; [exact E|]. split; [|split; [done|split; [by exists ds|]]].
  - assert (wf T' top t ∧ ∀ a, reach T' top t a → a = t ∨ reach T top kp a) as [Hw Hr].
    { rewrite El. split.
      - apply wf_S. exists ds. split; [|split].
        + split; [done|]. split; [done|]. split; [done|]. apply Forall_lookup. intros j e [->|He]%Hent; [lia|].
          by apply (Forall_lookup_1 _ _ _ _ Hf He).
        + intros j e Hj. split.
          * destruct (Hent j e Hj) as [->|He]; [done|]. apply (entry_frame T T' l e (Hag j e He)), (Hc j e He).
          * intros Hr. destruct (Hre j e t Hj Hr) as [He Hr']. apply (Hout t); [|done]. rewrite El. apply (reach_S _ _ _ _ _ Ek). right. eauto.
        + intros i j e e' a Hij Hi Hj R1 R2. destruct (Hre i e a Hi R1) as [Hi' R1']. destruct (Hre j e' a Hj R2) as [Hj' R2'].
          by apply (Hd i j e e' a).
      - intros a. rewrite (reach_S _ _ _ _ _ Et). intros [->|(j&e&Hj&Hr)]; [by left|right].
        destruct (Hre j e a Hj Hr) as [He Hr']. apply (reach_S _ _ _ _ _ Ek). right. eauto. }
    split; [done|done|]. intros q Hq [->|Hq']%Hr; [done|]. by apply (Hfree q); [apply Hsub|].
  - assert (∀ v e, 0 <= v → ds !! Z.to_nat (table_index v top) = Some e → paging_get_phys top t v (with_tables (mkPaging T ps (flushed p)) T') = entry_phys T' l e v) as Hgp.
    { intros v e Hv He. unfold paging_get_phys. cbn [tables with_tables]. rewrite El in *. by apply (get_phys_S _ _ _ _ _ _ Et). }
    split.
    + intros v Hv. pose proof (user_lower v Hv). destruct Hv as [Hv _]. pose proof (table_index_range v top Hv).
      rewrite (Hgp v 0 Hv); [done|]. rewrite Hds. destruct (Z.leb_spec 256 (Z.of_nat (Z.to_nat (table_index v top)))); [lia|].
      cbn [andb]. apply lookup_replicate. split; [done|lia].
    + intros v [Hv Hi]. pose proof (table_index_range v top Hv). destruct (table_entry_at T kp es v top Htab Hv) as (e&He&_).
      rewrite (Hgp v e Hv).
      * unfold paging_get_phys. fold T. rewrite El in He |- *. rewrite (get_phys_S _ _ _ _ _ _ Ek He).
        by apply (entry_frame T T' l e (Hag _ e He)).
      * rewrite Hds. settle_z. done.
Qed.

(** What the loader needs of the kernel's tables and memory before it builds an
    address space: its frames are bytes that the direct map reaches. *)
Record kernel_ok (file_data : Z) (F : bytes) (kp : Z) (st : @loader PS) : Prop := {
  ko_paging : paging_ok top kp (paging st);
  ko_aligned t : is_Some (tables (paging st) !! t) → (PAGE_SIZE | t);
  ko_free q : page_addr q → ps_free (pages (paging st)) q → frame_ok hhdm_offset file_data F st q;
  ko_file k c : F !! k = Some c → ram st !! (file_data + Z.of_nat k) = Some c
}.

Lemma new_space_loader file_data F kp t st (ps : PS) : kernel_ok file_data F kp st →
  page_addr t → ps_free (pages (paging st)) t → ¬ ps_free ps t → ps_ok ps →
  (∀ q, ps_free ps q → ps_free (pages (paging st)) q) →
  ∃ p', new_space hhdm_offset kp t (paging (with_pages st ps)) = Ok p' ∧ pages p' = ps ∧
    loader_ok hhdm_offset top t file_data F (with_paging (with_pages st ps) p') ∧
    (∀ v, user v → paging_get_phys top t v p' = Ok 0) ∧
    (∀ v, upper v → paging_get_phys top t v p' = paging_get_phys top kp v (paging st)).
Proof.
  intros [Hp Ha Hfr Hfi] Ht Hft Hnt Hps Hsub.
  destruct (new_space_ok kp t (paging st) ps Hp Ht Hft Hnt Hps Hsub) as (p'&E&Hp'&<-&(ds&ET)&Hu&Hup).
  exists p'. split; [exact E|]. split; [done|]. split; [|done].
  assert (∀ v, user v → phys top t (with_paging (with_pages st (pages p')) p') v = 0) as H0.
  { intros v Hv. unfold phys. cbn [paging with_paging]. by rewrite Hu. }
  split; cbn [paging ram with_paging with_pages].
  - done.
  - intros a. rewrite ET. intros [x [[<- _]|[_ Hx]]%lookup_insert_Some]; [apply Ht|apply Ha; eauto].
  - intros q Hq Hf. destruct (Hfr q Hq (Hsub q Hf)) as (HT&Hm&Hfa). split; [|done]. cbn [paging with_paging with_pages]. rewrite ET.
    rewrite lookup_insert_ne by (intros ->; done). done.
  - intros v Hv. rewrite !H0; [done|by apply (user_page top Htop)|done].
  - intros v Hv _ Hn. by rewrite H0 in Hn.
  - intros v w Hv _ _ _ Hn. by rewrite H0 in Hn.
  - done.
Qed.

End Space.

(** * The task *)

Section Task.
Context {PS B : Type} `{!FrameSource PS, !TaskMemory B, !TaskMemoryLaws B, !LoaderMemory (@logged PS) B}.

(** What the loader does to the memory is no concern of the tasks'. *)
Hypothesis set_loader_tasks : ∀ b A S l, tm_ok b A S → tm_ok (set_loader b l) A S.

Variable hhdm_offset : Z.
Hypothesis hhdm_placed : placed hhdm_offset (2 ^ 47).
Hypothesis Hhdm : 2 ^ 64 - 2 ^ 47 <= hhdm_offset <= 2 ^ 64 - 2 ^ 46 - PAGE_SIZE_2MB.
Hypothesis Hhdm16 : (16 | hhdm_offset).
Variable top : nat.
Hypothesis Htop : (3 <= top <= 4)%nat.
Variable file_data : Z.
Variable F : bytes.
Hypothesis file_placed : placed file_data (Z.of_nat (length F)).

(** The program in the address space of [t]: its segments, and above them what
    the kernel's table [kp] maps. *)
Record image (t kp : Z) (st0 st : @loader (@logged PS)) : Prop := {
  im_bytes k v : loads F k → in_segment (header F k) v → ∃ a, paging_get_phys top t v (paging st) = Ok a ∧ a ≠ 0 ∧
    ram st !! (hhdm_offset + a) = Some (content F (header F k) v);
  im_only v a : user v → paging_get_phys top t v (paging st) = Ok a → a ≠ 0 → ∃ k, loads F k ∧ footprint (header F k) v;
  im_upper v : upper top v → paging_get_phys top t v (paging st) = paging_get_phys top kp v (paging st0)
}.

(** A program is loaded into the address space [proc], or a frame was refused. *)
Definition loaded_program (kp : Z) (st : @loader (@logged PS)) (proc : Z) (elf : elf64_parser_ret) (st' : @loader (@logged PS)) : Prop :=
  refused st' = true ∨
  page_addr proc ∧ elf = mkRet 1 (field 8 F 24) (phcount F) (highest_end F (Z.to_nat (phcount F)) 0 0) ∧ image proc kp st st'.

Lemma load_program_ok fuel kp st :
  elf_ok F → (∀ k, loads F k → p_memsz (header F k) / PAGE_SIZE + 520 < Z.of_nat fuel) → kernel_ok hhdm_offset top file_data F kp st →
  ∃ proc elf st', load_program hhdm_offset top fuel kp file_data (Z.of_nat (length F)) st = Ok (proc, elf, st') ∧
    loaded_program kp st proc elf st'.
Proof.
  intros Hef Hfu Hk. unfold load_program.
  destruct (take_page_ok (pages (paging st)) (pok_ok _ _ _ (ko_paging _ _ _ _ _ _ Hk))) as (t&ps&Et&Hps&Ht&Hsub). rewrite Et. cbn [mbind result_bind].
  destruct (Z.eqb_spec t 0) as [->|Ht0].
  { do 3 eexists. split; [done|]. left. unfold refused. cbn [paging with_pages with_paging pages]. rewrite (log_take_flag _ _ _ _ Et). apply orb_true_r. }
  destruct Ht as [|(Hpa&Hft&Hnt)]; [done|].
  destruct (new_space_loader hhdm_offset hhdm_placed top Htop file_data F kp t st ps Hk Hpa Hft Hnt Hps Hsub)
    as (p'&->&Epg&Hlo&Hun&Hup). cbn [mbind result_bind].
  destruct (elf64_parse_ok hhdm_offset hhdm_placed top Htop t file_data F file_placed fuel false _ Hef Hfu Hlo) as (elf&st'&->&Hlo'&Hu'&Hr).
  { intros v Hv. unfold phys. cbn [paging with_paging]. by rewrite Hun. }
  cbn [mbind result_bind mret result_ret]. exists t, elf, st'. split; [done|].
  destruct Hr as [He|(->&Honly&Hbytes)]; [left; exact (exhausted_flag _ _ He)|right]. split; [done|]. split; [done|]. split.
  - intros k v Hl Hv. destruct (Hbytes k v Hl Hv) as [Hp Hb]. exists (phys top t st' v). split; [|done].
    destruct (sg_placed _ _ (ef_seg _ Hef k Hl)) as (?&?&?). apply phys_ok; [done|apply Hlo'|]. unfold in_segment in Hv. lia.
  - intros v a Hv Ea Ha. apply Honly; [done|]. unfold phys. by rewrite Ea.
  - intros v Hv. destruct (upper_half top Htop v Hv) as [Hh Hn]. rewrite <- (Hup v Hv).
    change p' with (paging (with_paging (with_pages st ps) p')).
    rewrite !phys_ok by (apply Hlo || apply Hlo' || apply Hv || done). by rewrite Hu'.
Qed.

(** A task keeps its place when its links and its pid do. *)
Lemma alter_ok (s : @sched B) ts a f : sched_ok hhdm_offset s ts → (∀ t, upid (f t) = upid t ∧ next (f t) = next t ∧ prev (f t) = prev t ∧ stack_base (f t) = stack_base t) →
  sched_ok hhdm_offset (with_tasks s (alter f a (tasks s))) ts.
Proof.
  intros H Hf. assert (∀ e t, alter f a (tasks s) !! e = Some t → ∃ u, tasks s !! e = Some u ∧ upid t = upid u ∧ next t = next u) as Hl.
  { intros e t. rewrite lookup_alter. case_decide as He; [subst e|eauto]. destruct (tasks s !! a) as [u|]; [|done].
    intros [= <-]. exists u. split; [done|]. split; apply Hf. }
  split; cbn [tasks with_tasks current current_pid Sched.memory]; try apply H.
  - apply (ring_frame (tasks s)); [apply H|]. intros e _. apply links_alter. intros t. split; apply Hf.
  - rewrite lookup_alter. case_decide; [subst|]; by rewrite (so_null _ _ _ H).
  - intros e t (u&Eu&->&_)%Hl. by apply (so_pids _ _ _ H e).
  - intros e1 e2 t1 t2 (u1&E1&->&_)%Hl (u2&E2&->&_)%Hl. by apply (so_unique _ _ _ H).
  - intros e t (u&Eu&_&->)%Hl. by apply (so_wait _ _ _ H).
  - apply (mem_ok_frame _ _ (tasks s)); [|apply H]. apply alter_stack. intros t. apply Hf.
Qed.

(** on a well-formed program the code never faults and keeps the ring of
    tasks.  Unless the allocator refused a frame, the program is loaded into an
    address space of its own: the bytes of every segment in the lower half and
    what the current address space maps in the upper.  The code panics where the
    heap does, returns no task when loading failed or there is no memory for a
    task, and else a new task that waits at the entry point of the program, with
    a stack and that address space. *)
Theorem elf64_alloc_correct fuel (s : @sched B) ts : let st := loader_of (Sched.memory s) in
  elf_ok F → (∀ k, loads F k → p_memsz (header F k) / PAGE_SIZE + 520 < Z.of_nat fuel) →
  sched_ok hhdm_offset s ts → kernel_ok hhdm_offset top file_data F (Sched.pml4 s) st →
  ∃ proc elf st', load_program hhdm_offset top fuel (Sched.pml4 s) file_data (Z.of_nat (length F)) st = Ok (proc, elf, st') ∧
    loaded_program (Sched.pml4 s) st proc elf st' ∧
    ((∃ tag msg, elf64_alloc hhdm_offset top fuel file_data (Z.of_nat (length F)) s = Panic tag msg) ∨
     ∃ a s', elf64_alloc hhdm_offset top fuel file_data (Z.of_nat (length F)) s = Ok (a, s') ∧ sched_ok hhdm_offset s' ts ∧
       ((a = NULL ∧ tasks s' = tasks s) ∨
        ∃ t sp, status elf ≠ 0 ∧ tasks s !! a = None ∧ tasks s' !! a = Some t ∧ upid t = 0 ∧ next t = NULL ∧ cr3 t = proc ∧
          frames s' !! rsp t = Some (mkFrame (entry elf) 0x08 0x202 sp 0x10) ∧ ∀ e, e ≠ a → tasks s' !! e = tasks s !! e)).
Proof.
  intros st Hef Hfu Hs Hk. destruct (load_program_ok fuel (Sched.pml4 s) st Hef Hfu Hk) as (proc&elf&st'&E&Hl).
  exists proc, elf, st'. split; [done|]. split; [done|]. unfold elf64_alloc. fold st. rewrite E. cbn [mbind result_bind].
  assert (sched_ok hhdm_offset (store_loader s st') ts) as Hst by (apply memory_ok; [done|]; destruct (so_mem _ _ _ Hs) as (S&?&?); exists S; split; [by apply set_loader_tasks|done]).
  destruct (Z.eqb_spec (status elf) 0) as [E0|En].
  { right. do 2 eexists. split; [done|]. split; [done|]. by left. }
  destruct (create_ok hhdm_offset Hhdm Hhdm16 _ ts (entry elf) Hst) as [(a&s1&->&Ha&H1&(t&p&Ea&Et&Hu&_&Hn&_&_&Hfr&Ho)&_)|[(s1&->&H1&Ht&_)|(tag&msg&->)]].
  - cbn [mbind result_bind]. rewrite (proj2 (Z.eqb_neq a NULL) Ha), (set_task_ok a _ s1 t Et). cbn [mbind result_bind mret result_ret].
    right. do 2 eexists. split; [done|]. split; [by apply alter_ok|]. right. exists (set_cr3 t proc), (p + hhdm_offset + PAGE_SIZE_2MB).
    cbn [tasks frames with_tasks]. split; [done|]. split; [done|]. split; [by rewrite lookup_alter_eq, Et|]. do 3 (split; [done|]).
    split; [cbn [rsp set_cr3]; rewrite Hfr; apply lookup_insert_eq|]. intros e He. rewrite lookup_alter_ne by done. by apply Ho.
  - cbn [mbind result_bind]. change (NULL =? NULL) with true. right. do 2 eexists. split; [done|]. split; [done|]. by left.
  - left. by exists tag, msg.
Qed.

End Task.
