(* ===== verification/ElfRun.v ===== *)
(** ELF programs on the physical allocator.

    The physical allocator (src/mem/pma.c) serves the ELF loader
    (src/binfmt/elf64.c); the concrete runs load a small program with a text and
    a data segment. *)

From S2P Require Import Prelude Sched SchedSpec Mem Bytes Crc32 Vmm Cmm Pma PmaSpec PmaZone PmaSys Paging PagingSpec PageSource Elf ElfSpec ElfLoad ElfAlloc.

Lemma pma_take_2mb_ok s : pma_ready s →
  ∃ p s', pma_alloc_pages_2mb s 1 = Ok (p, s') ∧ pma_ready s' ∧
    (p = 0 ∨ (0 < p ∧ p + PAGE_SIZE_2MB <= 2 ^ 47 ∧ (PAGE_SIZE_2MB | p) ∧
      ∀ q, (PAGE_SIZE | q) → p <= q < p + PAGE_SIZE_2MB → free_frame s q ∧ ¬ free_frame s' q)) ∧
    ∀ q, free_frame s' q → free_frame s q.
Proof.
  intros H. destruct (pma_take_ok (λ s, pma_alloc_pages_2mb s 1) 21 (1 * PAGE_SIZE_2MB) s) as (p&s'&E&H'&Hp&Hsub); [|done|].
  { intros GN GL HG. apply pma_alloc_pages_2mb_ok; [done|lia]. }
  exists p, s'. do 2 (split; [done|]). split; [|done].
  destruct Hp as [->|(H0&Hhi&Hd&_&Hq)]; [by left|right]. by rewrite Z.mul_1_l in *.
Qed.

#[export] Instance pma_frames : FrameSource pma_state := {|
  frame_pages := pma_source;
  take_2mb s := pma_alloc_pages_2mb s 1;
  take_2mb_ok := pma_take_2mb_ok
|}.

(** * A program

    Text at 0x400000; data at 0x401ff0 that ends in the next page. *)

Definition demo_phdr (flags off vaddr filesz memsz : Z) : bytes :=
  le 4 PT_LOAD ++ le 4 flags ++ le 8 off ++ le 8 vaddr ++ le 8 vaddr ++ le 8 filesz ++ le 8 memsz ++ le 8 PAGE_SIZE.

Definition demo_elf : bytes := Eval vm_compute in
  elf_ident ++ replicate 10 0 ++ le 2 ET_EXEC ++ le 2 EM_X86_64 ++ le 4 1 ++ le 8 0x400000 ++ le 8 64 ++ le 8 0 ++
  le 4 0 ++ le 2 64 ++ le 2 56 ++ le 2 2 ++ le 6 0 ++
  demo_phdr (PF_X + 4) 176 0x400000 4 4 ++ demo_phdr (PF_W + 4) 180 0x401ff0 20 32 ++
  [0xf3; 0x90; 0xeb; 0xfc] ++ (Z.of_nat <$> seq 1 20).

(** The file lies behind the first 256 MiB of the direct map. *)
Definition demo_file : Z := hhdm + 0x10000000.

Lemma demo_elf_bytes : Forall is_byte demo_elf.
Proof. apply (bool_decide_unpack _). by vm_compute. Qed.

Lemma demo_loads k : loads demo_elf k → k = 0 ∨ k = 1.
Proof. intros [Hk _]. change (phcount demo_elf) with 2 in Hk. lia. Qed.

Lemma demo_seg k : loads demo_elf k →
  header demo_elf k = mkPhdr PT_LOAD 5 176 0x400000 4 4 ∨ header demo_elf k = mkPhdr PT_LOAD 6 180 0x401ff0 20 32.
Proof. intros [->| ->]%demo_loads; [left|right]; by vm_compute. Qed.

Lemma demo_elf_ok : elf_ok demo_elf.
Proof.
  split.
  - apply demo_elf_bytes.
  - by vm_compute.
  - by vm_compute.
  - by vm_compute.
  - left. by vm_compute.
  - split; by vm_compute.
  - intros k Hk. destruct (demo_seg k Hk) as [-> | ->].
    + split; [by vm_compute|by vm_compute|by vm_compute].
    + split; [by vm_compute|by vm_compute|by vm_compute].
  - intros i j v Hi Hj Hij. unfold in_segment.
    destruct (demo_loads i Hi) as [-> | ->], (demo_loads j Hj) as [-> | ->]; [lia| |lia|lia].
    replace (header demo_elf 0) with (mkPhdr PT_LOAD 5 176 0x400000 4 4) by (by vm_compute).
    replace (header demo_elf 1) with (mkPhdr PT_LOAD 6 180 0x401ff0 20 32) by (by vm_compute). cbn [p_vaddr p_memsz]. lia.
  - intros i j v Hi Hj Hij Hv. exfalso. unfold huge_range in Hv.
    destruct (demo_loads i Hi) as [-> | ->], (demo_loads j Hj) as [-> | ->]; [lia| |lia|lia].
    replace (huge_start (header demo_elf 1)) with 0x600000 in Hv by (by vm_compute).
    replace (huge_end (header demo_elf 1)) with 0x400000 in Hv by (by vm_compute). lia.
Qed.

(** * The machine that loads it *)

Definition demo_ram : memory :=
  map_seqZ demo_file demo_elf ∪ gset_to_gmap 0 (list_to_set (seqZ hhdm 0x10000000)).

Definition demo_paging : @paging_state (@logged pma_state) := mkPaging zero_tables (demo_s1, false) [].
Definition demo_loader : @loader (@logged pma_state) := mkLoader demo_paging demo_ram.

Lemma demo_ram_file k c : demo_elf !! k = Some c → demo_ram !! (demo_file + Z.of_nat k) = Some c.
Proof.
  intros Hk. apply lookup_union_Some_l, lookup_map_seqZ_Some. split; [lia|].
  replace (Z.to_nat (demo_file + Z.of_nat k - demo_file)) with k by lia. done.
Qed.

Lemma demo_ram_low a : 0 <= a < 0x10000000 → is_Some (demo_ram !! (hhdm + a)).
Proof.
  intros Ha. apply lookup_union_is_Some. right. rewrite lookup_gset_to_gmap.
  rewrite option_guard_True; [eauto|]. apply elem_of_list_to_set, elem_of_seqZ. lia.
Qed.

Lemma hhdm_placed : placed hhdm (2 ^ 47).
Proof. unfold placed, hhdm. lia. Qed.

Lemma demo_file_placed : placed demo_file (Z.of_nat (Datatypes.length demo_elf)).
Proof. change (Datatypes.length demo_elf) with 200%nat. unfold placed, demo_file, hhdm. lia. Qed.

Lemma demo_paging_ok : paging_ok 3 0x200000 demo_paging.
Proof. destruct demo_p0_ok as [Hwf Hok Hf]. by split. Qed.

(** The top table is empty. *)
Lemma demo_unmapped v : 0 <= v → paging_get_phys 3 0x200000 v (paging demo_loader) = Ok 0.
Proof.
  intros Hv. pose proof (table_index_range v 3 Hv) as Hi.
  destruct (leaf_table zero_tables 3 0x200000 (replicate 512 0)) as (_&_&Hg).
  { split; [|split; [apply lookup_singleton_eq|split; [apply length_replicate|apply Forall_replicate; lia]]].
    split; [lia|by exists 512]. }
  { apply zero_leaf. }
  unfold paging_get_phys. cbn [tables paging demo_loader demo_paging].
  apply (Hg v 0). apply lookup_replicate. split; [done|lia].
Qed.

Lemma demo_free q : free_frame demo_s1 q → q ≠ 0x200000 ∧ 0 <= q / PAGE_SIZE < 2048.
Proof.
  intros Hq. split; [intros ->; apply (pok_free _ _ _ demo_p0_ok _ Hq), reach_self|].
  destruct (pok_ok _ _ _ demo_p0_ok) as (_&FN&FL&H). destruct (Hq FN FL H) as [Hc|Hc].
  - pose proof (covered_zone _ _ _ _ _ _ _ (pi_normal _ _ _ _ H) Hc) as Hz. 
    change (total_pages (pma_normal (pages demo_p0))) with 1521 in Hz. change PMA_ZONE_32BIT with 1048576 in Hz. lia.
  - pose proof (covered_zone _ _ _ _ _ _ _ (pi_low _ _ _ _ H) Hc) as Hz. 
    change (total_pages (pma_low (pages demo_p0))) with 1521 in Hz. lia.
Qed.

Lemma demo_loader_ok : loader_ok hhdm 3 0x200000 demo_file demo_elf demo_loader.
Proof.
  assert (∀ v, user v → ElfSpec.phys 3 0x200000 demo_loader v = 0) as H0.
  { intros v [Hv _]. unfold ElfSpec.phys. by rewrite demo_unmapped. }
  split.
  - apply demo_paging_ok.
  - intros t [es Ht]. change (zero_tables !! t = Some es) in Ht. unfold zero_tables in Ht. apply lookup_singleton_Some in Ht as [<- _]. by exists 512.
  - intros q [Hq [i ->]] Hf. apply demo_free in Hf as [Hne Hr]. rewrite Z.div_mul in Hr by done. unfold PAGE_SIZE in *.
    split; [change (zero_tables !! (i * 4096) = None); by apply lookup_singleton_ne|]. split.
    + intros k Hk. rewrite <- Z.add_assoc. apply demo_ram_low. unfold PAGE_SIZE in Hk. lia.
    + intros k j Hk Hj. unfold demo_file, PAGE_SIZE in *. lia.
  - intros v Hv. rewrite !H0; [done|by apply (user_page 3 ltac:(lia))|done].
  - intros v Hv _ Hp. by rewrite H0 in Hp.
  - intros v w Hv _ _ _ Hp. by rewrite H0 in Hp.
  - apply demo_ram_file.
Qed.


(** * The scheduler on the same machine *)

Abbreviation task_mem := (Z * @loader (@logged pma_state))%type.

(** Tasks as in SchedSpec.v, beside the loader's state. *)
#[export] Instance demo_tasks : TaskMemory task_mem := {|
  zalloc b := '(a, z) ← zalloc b.1; mret (a, (z, b.2));
  free b a := z ← free b.1 a; mret (z, b.2);
  alloc_2mb b := '(a, z) ← alloc_2mb b.1; mret (a, (z, b.2));
  free_pages b p n := z ← free_pages b.1 p n; mret (z, b.2)
|}.

#[export] Instance demo_tasks_laws : TaskMemoryLaws task_mem.
Proof.
  refine {| tm_ok b A S := tm_ok b.1 A S; tm_zalloc := _; tm_free := _; tm_alloc_2mb := _; tm_free_pages := _ |}.
  - intros b A S H. destruct (tm_zalloc b.1 A S H) as [(a&z&E&Ha)|(t&m&E)]; [left|right].
    + exists a, (z, b.2). cbn [zalloc demo_tasks]. rewrite E. by split.
    + exists t, m. cbn [zalloc demo_tasks]. by rewrite E.
  - intros b A S a H Ha. destruct (tm_free b.1 A S a H Ha) as (z&E&?). exists (z, b.2). cbn [free demo_tasks]. by rewrite E.
  - intros b A S H. destruct (tm_alloc_2mb b.1 A S H) as (p&z&E&?). exists p, (z, b.2). cbn [alloc_2mb demo_tasks]. by rewrite E.
  - intros b A S p H Hp. destruct (tm_free_pages b.1 A S p H Hp) as (z&E&?). exists (z, b.2). cbn [free_pages demo_tasks]. by rewrite E.
Defined.

#[export] Instance demo_loader_memory : LoaderMemory (@logged pma_state) task_mem := {|
  loader_of b := b.2;
  set_loader b l := (b.1, l);
  loader_of_set b l := eq_refl
|}.

Definition task_run (l : @loader (@logged pma_state)) : @sched task_mem :=
  match scheduler_init (mkSched ∅ ∅ NULL 1 0x200000 (0x1000, l)) with
  | Ok s => s
  | _ => mkSched ∅ ∅ NULL 1 0 (0, l)
  end.

Lemma task_run_ok l : sched_ok hhdm (task_run l) [0x1000] ∧ Sched.pml4 (task_run l) = 0x200000 ∧ loader_of (Sched.memory (task_run l)) = l.
Proof.
  split; [|split; by vm_compute].
  destruct (init_ok hhdm (mkSched ∅ ∅ NULL 1 0x200000 (0x1000, l))) as [(s'&a&t&E&H&_)|[E|(?&?&E)]]; [| |by vm_compute in E..].
  - do 3 (split; [done|]). split; [done|]. split; intros a Ha; by apply elem_of_empty in Ha.
  - assert (Sched.current (task_run l) = 0x1000) as Ec by (by vm_compute).
    unfold task_run in *. rewrite E in *. rewrite (so_current _ _ _ H) in Ec. by rewrite <- Ec.
Qed.

Lemma demo_kernel_ok : kernel_ok hhdm 3 demo_file demo_elf 0x200000 demo_loader.
Proof. destruct demo_loader_ok. by split. Qed.

Lemma demo_set_loader b (A S : gset Z) l : tm_ok b A S → tm_ok (set_loader b l) A S.
Proof. done. Qed.

Lemma elf64_alloc_correct_witness : ∃ proc elf st',
  load_program hhdm 3 1000 0x200000 demo_file 200 demo_loader = Ok (proc, elf, st') ∧
  loaded_program hhdm 3 demo_elf 0x200000 demo_loader proc elf st'.
Proof.
  destruct (task_run_ok demo_loader) as (Hs&Ep&El).
  pose proof (elf64_alloc_correct demo_set_loader hhdm hhdm_placed ltac:(unfold hhdm, PAGE_SIZE_2MB; lia) ltac:(by exists 0xffff80000000000)
    3 ltac:(lia) demo_file demo_elf demo_file_placed 1000 (task_run demo_loader) [0x1000] demo_elf_ok) as H.
  rewrite Ep, El in H. destruct H as (proc&elf&st'&E&Hl&_).
  - intros k Hk. destruct (demo_seg k Hk) as [-> | ->]; vm_compute; reflexivity.
  - exact Hs.
  - exact demo_kernel_ok.
  - exists proc, elf, st'. split; [exact E|exact Hl].
Defined.

(** * Runs *)

(** The same machine with only some frames of memory. *)
Definition with_frames_at (file : bytes) (qs : list Z) : @loader (@logged pma_state) :=
  mkLoader demo_paging (map_seqZ demo_file file ∪ list_to_map (q ← qs; (λ k, (hhdm + q + k, 0xcc)) <$> seqZ 0 PAGE_SIZE)).

Definition entry_of (root v : Z) (p : @paging_state (@logged pma_state)) : result Z :=
  '(pte, p) ← paging_get_pte hhdm 3 root v false p;
  match pte with Some (t, i) => read_entry p t i | None => mret 0 end.

(** The task of a program with the text segment only: its pid, its page table,
    the entry point on its stack, and bytes of its page. *)
Definition text_elf : bytes := Eval vm_compute in <[56%nat := 1]> demo_elf.

Example elf64_alloc_run :
  ('(a, s) ← elf64_alloc hhdm 3 1000 demo_file 200 (task_run (with_frames_at text_elf [0x204000]));
   t ← of_option (Sched.tasks s !! a); f ← of_option (Sched.frames s !! rsp t);
   let st := loader_of (Sched.memory s) in
   mret (a, upid t, cr3 t, tf_rip f, refused st, map (vbyte hhdm 3 (cr3 t) st) [0x400000; 0x400003; 0x400004])) =
  Ok (0x1040, 0, 0x203000, 0x400000, false, [Some 0xf3; Some 0xfc; Some 0]).
Proof. vm_compute. reflexivity. Qed.

(** The pages after the huge pages of a segment start at the 2 MiB boundary below
    its end, which is below a segment inside of one 2 MiB block: a data segment
    at 0x401000 goes through a page of text at 0x400000 and makes it writable. *)
Example elf_text_becomes_writable :
  (p ← paging_map_page hhdm 3 0x200000 0x400000 0x300000 (segment_flags true (PF_X + 4)) demo_paging;
   p ← paging_map_page hhdm 3 0x200000 0x401000 0x301000 (segment_flags true 4) p;
   e ← entry_of 0x200000 0x400000 p;
   '(_, st) ← map_segment hhdm 3 1000 0x200000 (segment_flags true (PF_W + 4)) (mkPhdr PT_LOAD (PF_W + 4) 180 0x401000 20 32) (mkLoader p ∅);
   e' ← entry_of 0x200000 0x400000 (paging st);
   mret (has e PTE_WRITABLE, has e' PTE_WRITABLE, has e' PTE_NX)) = Ok (false, true, false).
Proof. vm_compute. reflexivity. Qed.

(** The copy of a segment goes through the translation of its pages, which keeps
    the no-execute bit of a huge page: the address leaves the direct map. *)
Example elf_huge_data_panics :
  (p ← paging_map_2mb hhdm 3 0x200000 0x600000 0x400000 (Z.lor demo_flags PTE_NX) demo_paging;
   copy_file hhdm 3 10 0x200000 demo_file 0x600000 4 (mkLoader p ∅)) =
  Panic "MEMORY" "memcpy dest is out of range".
Proof. vm_compute. reflexivity. Qed.

(** The check of a segment against the size of the file wraps around: sixteen
    bytes before the file pass for the start of a segment. *)
Definition wrapping_elf : bytes := Eval vm_compute in
  take 64 demo_elf ++ demo_phdr 6 (2 ^ 64 - 16) 0x400000 32 32 ++ replicate 80 0.

Example elf_reads_before_file :
  (p ← paging_map_page hhdm 3 0x200000 0x400000 0x300000 (segment_flags true (PF_W + 4)) demo_paging;
   load_segment hhdm 3 1000 true 0x200000 demo_file 200 (demo_file + 64) 0 
     (mkLoader p (map_seqZ demo_file wrapping_elf ∪ map_seqZ (hhdm + 0x300000) (replicate 32 0)))) = Fault ∧
  load8 (map_seqZ demo_file wrapping_elf ∪ map_seqZ (hhdm + 0x300000) (replicate 32 0)) (demo_file - 16) = Fault.
Proof. split; vm_compute; reflexivity. Qed.
