(* ===== verification/Registry.v ===== *)
(** The device registry (src/devices/registry.c, src/devices/char.c).

    Devices are registered under increasing handles in a table of 512 entries
    and looked up by handle, with a binary search, or by type.  Character
    devices print strings and formatted text. *)

From S2P Require Import Prelude Stdio.

Inductive device_type_t := CHAR_DEV | DISK_DEV | USB_DEV | NET_DEV | AUDIO_DEV | POWER_DEV | EXTMEM_DEV | USB_BUS_DEV.

#[export] Instance device_type_eq : EqDecision device_type_t.
Proof. solve_decision. Defined.

Record device_registry_entry_t := mkEntry { id : Z; type : device_type_t; dev_ptr : Z }.

Definition REGISTRY_SIZE : Z := 512.

Record registry_state := mkRegistry {
  registry : list device_registry_entry_t;
  registry_count : Z;
  next_device_id : Z
}.

(** [registry[512]] in zeroed memory. *)
Definition empty_registry : registry_state :=
  mkRegistry (replicate (Z.to_nat REGISTRY_SIZE) (mkEntry 0 CHAR_DEV 0)) 0 1.

Definition entry_at (s : registry_state) (i : Z) : result device_registry_entry_t :=
  if i <? 0 then Fault else of_option (registry s !! Z.to_nat i).

Definition store_entry (s : registry_state) (i : Z) (e : device_registry_entry_t) : result registry_state :=
  _ ← entry_at s i; mret (mkRegistry (<[Z.to_nat i := e]> (registry s)) (registry_count s) (next_device_id s)).

(** [low] and [high] are ints. *)
Fixpoint find_loop (fuel : nat) (low high wanted : Z) (s : registry_state) : result Z :=
  match fuel with
  | O => Fuel
  | S fuel =>
      if low <=? high then
        let mid := low + Z.quot (high - low) 2 in
        e ← entry_at s mid;
        if id e =? wanted then mret (dev_ptr e)
        else if id e <? wanted then find_loop fuel (mid + 1) high wanted s
        else find_loop fuel low (mid - 1) wanted s
      else mret 0
  end.

Definition device_find (wanted : Z) (s : registry_state) : result Z :=
  find_loop (S (Z.to_nat (registry_count s))) 0 (i32 (registry_count s) - 1) wanted s.

Fixpoint first_loop (n : nat) (i : Z) (ty : device_type_t) (s : registry_state) : result Z :=
  match n with
  | O => mret 0
  | S n => e ← entry_at s i; if decide (type e = ty) then mret (dev_ptr e) else first_loop n (i + 1) ty s
  end.
Definition device_find_first (ty : device_type_t) (s : registry_state) : result Z :=
  first_loop (Z.to_nat (registry_count s)) 0 ty s.

(** The entries with a greater handle move up. *)
Fixpoint shift_loop (n : nat) (new_id : Z) (s : registry_state) : result (Z * registry_state) :=
  match n with
  | O => mret (0, s)
  | S n' =>
      let i := Z.of_nat n in
      e ← entry_at s (i - 1);
      if id e >? new_id then s ← store_entry s i e; shift_loop n' new_id s else mret (i, s)
  end.

Definition device_register (ty : device_type_t) (ptr : Z) (s : registry_state) : result (Z * registry_state) :=
  let new_id := next_device_id s in
  let s := mkRegistry (registry s) (registry_count s) (u32 (new_id + 1)) in
  if registry_count s >=? REGISTRY_SIZE then Panic "DEVICE REGISTRY" "OUT OF MEMORY TO STORE NEW DEVICE'S"
  else
    '(i, s) ← shift_loop (Z.to_nat (registry_count s)) new_id s;
    s ← store_entry s i (mkEntry new_id ty ptr);
    mret (new_id, mkRegistry (registry s) (registry_count s + 1) (next_device_id s)).

(** * Character devices *)

(** The characters given to the [putc] of a device; the string ends at its NUL. *)
Fixpoint dev_puts (s : list Z) : result (list Z) :=
  match s with
  | [] => Fault
  | c :: s => if c =? 0 then mret [] else r ← dev_puts s; mret (c :: r)
  end.

(** The buffer on the stack, at [addr], holds whatever was there; [usable] says
    whether the device and its [putc] are there. *)
Definition dev_printf (usable : bool) (addr : Z) (temp_buf fmt : list Z) (args : va_list) : result (list Z) :=
  if negb usable then mret []
  else '(_, b) ← vsnprintf addr temp_buf 1028 fmt args; dev_puts b.

(** * The table as a list *)

(** The devices [l], the first one with the handle 1. *)
Record registry_ok (s : registry_state) (l : list (device_type_t * Z)) : Prop := {
  rg_size : length (registry s) = Z.to_nat REGISTRY_SIZE;
  rg_count : registry_count s = Z.of_nat (length l);
  rg_room : Z.of_nat (length l) <= REGISTRY_SIZE;
  rg_next : next_device_id s = Z.of_nat (length l) + 1;
  rg_entry (i : nat) ty p : l !! i = Some (ty, p) → registry s !! i = Some (mkEntry (Z.of_nat i + 1) ty p)
}.

Lemma registry_ok_entry s l i : registry_ok s l → 0 <= i < Z.of_nat (length l) →
  ∃ ty p, l !! Z.to_nat i = Some (ty, p) ∧ entry_at s i = Ok (mkEntry (i + 1) ty p).
Proof.
  intros H Hi. destruct (lookup_lt_is_Some_2 l (Z.to_nat i)) as [[ty p] E]; [lia|].
  exists ty, p. split; [done|]. unfold entry_at. settle_z. rewrite (rg_entry _ _ H _ _ _ E). cbn [of_option]. by rewrite Z2Nat.id by lia.
Qed.

(** The device with a handle. *)
Definition with_handle (l : list (device_type_t * Z)) (h : Z) : Z :=
  if (1 <=? h) && (h <=? Z.of_nat (length l)) then default 0 (snd <$> l !! Z.to_nat (h - 1)) else 0.

Lemma find_loop_ok fuel low high h s l : registry_ok s l → 0 <= low <= high + 1 → high < Z.of_nat (length l) → high + 1 - low < Z.of_nat fuel →
  (1 <= h <= Z.of_nat (length l) → low + 1 <= h <= high + 1) →
  find_loop fuel low high h s = Ok (with_handle l h).
Proof.
  intros H. revert low high. induction fuel as [|fuel IH]; intros low high Hl Hh Hf Hin; [lia|].
  cbn [find_loop]. destruct (Z.leb_spec low high) as [Hle|Hgt].
  2: { unfold with_handle. repeat case_z; simpl; done || lia. }
  rewrite Z.quot_div_nonneg by lia. set (mid := low + (high - low) / 2).
  assert (low <= mid <= high) as Hm by (unfold mid; pose proof (Z.div_pos (high - low) 2 ltac:(lia) ltac:(lia)); pose proof (Z.mul_div_le (high - low) 2 ltac:(lia)); lia).
  destruct (registry_ok_entry s l mid H ltac:(lia)) as (ty&p&E&->). cbn [mbind result_bind id dev_ptr].
  destruct (Z.eqb_spec (mid + 1) h) as [<-|Hne].
  - unfold with_handle. settle_z. cbn [andb]. replace (mid + 1 - 1) with mid by lia. by rewrite E.
  - destruct (Z.ltb_spec (mid + 1) h); apply IH; try lia; try (intros; specialize (Hin ltac:(lia)); lia).
Qed.

Lemma device_find_ok s l h : registry_ok s l → device_find h s = Ok (with_handle l h).
Proof.
  intros H. pose proof (rg_room _ _ H) as Hr. unfold REGISTRY_SIZE in Hr. unfold device_find. rewrite (rg_count _ _ H).
  assert (i32 (Z.of_nat (length l)) = Z.of_nat (length l)) as ->.
  { unfold i32, sint. rewrite Z.mod_small by lia. change (2 ^ (32 - 1)) with (2 ^ 31). by settle_z. }
  apply find_loop_ok; try done; lia.
Qed.

(** The first device of a type. *)
Definition first_of (l : list (device_type_t * Z)) (ty : device_type_t) : Z :=
  default 0 (snd <$> head (filter (λ d, d.1 = ty) l)).

Lemma first_loop_ok ty s l k : registry_ok s l → (k <= length l)%nat →
  first_loop (length l - k) (Z.of_nat k) ty s = Ok (first_of (drop k l) ty).
Proof.
  intros H Hk. remember (length l - k)%nat as n eqn:En. revert k Hk En. induction n as [|n IH]; intros k Hk En.
  { by rewrite drop_ge by lia. }
  cbn [first_loop]. destruct (registry_ok_entry s l (Z.of_nat k) H ltac:(lia)) as (t&p&E&->). cbn [mbind result_bind type dev_ptr].
  rewrite Nat2Z.id in E. rewrite (drop_S _ _ _ E). unfold first_of. cbn [filter list_filter fst].
  destruct (decide (t = ty)); [done|]. replace (Z.of_nat k + 1) with (Z.of_nat (S k)) by lia. apply IH; lia.
Qed.

Lemma device_find_first_ok s l ty : registry_ok s l → device_find_first ty s = Ok (first_of l ty).
Proof.
  intros H. unfold device_find_first. rewrite (rg_count _ _ H), Nat2Z.id.
  pose proof (first_loop_ok ty s l 0 H ltac:(lia)) as E. by rewrite Nat.sub_0_r in E.
Qed.

Lemma device_register_ok s l ty p : registry_ok s l →
  if Z.of_nat (length l) >=? REGISTRY_SIZE
  then device_register ty p s = Panic "DEVICE REGISTRY" "OUT OF MEMORY TO STORE NEW DEVICE'S"
  else ∃ s', device_register ty p s = Ok (Z.of_nat (length l) + 1, s') ∧ registry_ok s' (l ++ [(ty, p)]).
Proof.
  intros H. unfold device_register. cbn [registry_count]. rewrite (rg_count _ _ H). rewrite Z.geb_leb.
  destruct (Z.leb_spec REGISTRY_SIZE (Z.of_nat (length l))); [done|]. rewrite Nat2Z.id, (rg_next _ _ H).
  set (s1 := mkRegistry _ _ _). assert (shift_loop (length l) (Z.of_nat (length l) + 1) s1 = Ok (Z.of_nat (length l), s1)) as ->.
  { destruct (length l) as [|n] eqn:En; [done|]. cbn [shift_loop].
    destruct (registry_ok_entry s l (Z.of_nat (S n) - 1) H ltac:(lia)) as (t&q&_&E).
    change (entry_at s1 (Z.of_nat (S n) - 1)) with (entry_at s (Z.of_nat (S n) - 1)). rewrite E. cbn [mbind result_bind id].
    rewrite Z.gtb_ltb. by settle_z. }
  cbn [mbind result_bind]. unfold store_entry, entry_at. unfold REGISTRY_SIZE in *.
  destruct (lookup_lt_is_Some_2 (registry s) (length l)) as [e E]; [rewrite (rg_size _ _ H); unfold REGISTRY_SIZE; lia|].
  settle_z. rewrite Nat2Z.id. cbn [s1 registry]. rewrite E. cbn [of_option mbind result_bind mret result_ret registry registry_count next_device_id].
  eexists. split; [done|]. split; cbn [registry registry_count next_device_id]; rewrite ?length_app, ?length_insert; cbn [length].
  - apply (rg_size _ _ H).
  - cbn [s1 registry_count]. pose proof (rg_count _ _ H). lia.
  - unfold REGISTRY_SIZE. lia.
  - cbn [s1 next_device_id]. rewrite u32_id; lia.
  - intros i ty' p' [Hi|[Hi Ei]]%lookup_app_Some.
    + rewrite list_lookup_insert_ne; [by apply (rg_entry _ _ H)|]. apply lookup_lt_Some in Hi. lia.
    + apply list_lookup_singleton_Some in Ei as [Hz [= <- <-]]. replace i with (length l) by lia.
      apply list_lookup_insert_eq. rewrite (rg_size _ _ H). unfold REGISTRY_SIZE. lia.
Qed.

Lemma empty_registry_ok : registry_ok empty_registry [].
Proof. by split. Qed.

(** The registrations [l] in a row, with the handles they return. *)
Fixpoint register_all (l : list (device_type_t * Z)) (s : registry_state) : result (list Z * registry_state) :=
  match l with
  | [] => mret ([], s)
  | (ty, p) :: l => '(h, s) ← device_register ty p s; '(hs, s) ← register_all l s; mret (h :: hs, s)
  end.

Lemma register_all_ok l s l0 : registry_ok s l0 → Z.of_nat (length (l0 ++ l)) <= REGISTRY_SIZE →
  ∃ s', register_all l s = Ok (seqZ (Z.of_nat (length l0) + 1) (Z.of_nat (length l)), s') ∧ registry_ok s' (l0 ++ l).
Proof.
  revert s l0. induction l as [|[ty p] l IH]; intros s l0 H Hr; cbn [register_all].
  { exists s. by rewrite app_nil_r. }
  rewrite length_app in Hr. cbn [length] in Hr. pose proof (device_register_ok s l0 ty p H) as Hreg. rewrite Z.geb_leb in Hreg.
  destruct (Z.leb_spec REGISTRY_SIZE (Z.of_nat (length l0))); [lia|]. destruct Hreg as (s1&->&H1). cbn [mbind result_bind].
  destruct (IH s1 (l0 ++ [(ty, p)]) H1) as (s2&->&H2); [rewrite !length_app; cbn [length]; lia|]. cbn [mbind result_bind mret result_ret].
  exists s2. rewrite <- app_assoc in H2. split; [|done]. do 2 f_equal. rewrite length_app. cbn [length].
  rewrite (seqZ_cons (Z.of_nat (length l0) + 1)) by lia. f_equal. f_equal; lia.
Qed.

(** Up to 512 devices get the handles from 1 on; a handle finds its device and
    nothing else does, and a type finds the first device of it.  The next
    registration panics. *)
Theorem registry_correct l : Z.of_nat (length l) <= REGISTRY_SIZE →
  ∃ s, register_all l empty_registry = Ok (seqZ 1 (Z.of_nat (length l)), s) ∧
    (∀ h, device_find h s = Ok (with_handle l h)) ∧ (∀ ty, device_find_first ty s = Ok (first_of l ty)) ∧
    (Z.of_nat (length l) = REGISTRY_SIZE → ∀ ty p, device_register ty p s = Panic "DEVICE REGISTRY" "OUT OF MEMORY TO STORE NEW DEVICE'S").
Proof.
  intros Hl. destruct (register_all_ok l empty_registry [] empty_registry_ok Hl) as (s&E&H). exists s. split; [exact E|].
  split; [intros h; by apply device_find_ok|]. split; [intros ty; by apply device_find_first_ok|].
  intros Hfull ty p. pose proof (device_register_ok s l ty p H) as Hr. rewrite Hfull in Hr. exact Hr.
Qed.

Lemma registry_correct_witness : ∃ s, register_all [(CHAR_DEV, 0x1000); (DISK_DEV, 0x2000); (DISK_DEV, 0x3000)] empty_registry = Ok ([1; 2; 3], s) ∧
  device_find 3 s = Ok 0x3000 ∧ device_find 4 s = Ok 0 ∧ device_find_first DISK_DEV s = Ok 0x2000.
Proof.
  destruct (registry_correct [(CHAR_DEV, 0x1000); (DISK_DEV, 0x2000); (DISK_DEV, 0x3000)]) as (s&E&Hf&Ht&_); [done|].
  exists s. split; [exact E|]. split; [exact (Hf 3)|]. split; [exact (Hf 4)|exact (Ht DISK_DEV)].
Defined.
