(* ===== verification/Irq.v ===== *)
(** Interrupts (src/cpu/IDT.c, IRQ.h, IRQHL.h, coreinfo.h).

    The stubs are naked functions of inline assembly; the file models the
    instructions they use on a machine with registers and a stack of 64-bit
    words, the descriptor table, the trap frames, the chains of handlers of a
    vector and the dump of an exception.  A C function that a stub calls is an
    operation on the kernel's state that leaves RSP as it was. *)

From S2P Require Import Prelude Stdio Registry.

(** * The machine *)

Inductive reg := RAX | RBX | RSP | RCX | RDX | RBP | RSI | RDI | R15 | R14 | R13 | R12 | R11 | R10 | R9 | R8.
Inductive sreg := CR2 | CR3 | CR4 | DS | ES | FS | GS.

#[export] Instance reg_eq : EqDecision reg.
Proof. solve_decision. Defined.
#[export] Instance sreg_eq : EqDecision sreg.
Proof. solve_decision. Defined.

(** [kern] is what the C functions work on besides the stack. *)
Record machine {K : Type} := mkMachine {
  gpr : reg → Z;
  special : sreg → Z;
  rip : Z;
  cs : Z;
  rflags : Z;
  ss : Z;
  stack : gmap Z Z;
  kern : K
}.
Arguments machine : clear implicits.
Arguments mkMachine {K} _ _ _ _ _ _ _ _.

Section Machine.
Context {K : Type}.
Implicit Types m : machine K.

Definition set_reg (r : reg) (v : Z) m : machine K :=
  mkMachine (λ r', if decide (r' = r) then v else gpr m r') (special m) (rip m) (cs m) (rflags m) (ss m) (stack m) (kern m).
Definition set_stack (s : gmap Z Z) m : machine K :=
  mkMachine (gpr m) (special m) (rip m) (cs m) (rflags m) (ss m) s (kern m).
Definition set_kern (k : K) m : machine K :=
  mkMachine (gpr m) (special m) (rip m) (cs m) (rflags m) (ss m) (stack m) k.

(** The words of the stack that the machine holds can be stored to. *)
Definition load_word m (a : Z) : result Z := of_option (stack m !! a).
Definition store_word (a v : Z) m : result (machine K) :=
  _ ← load_word m a; mret (set_stack (<[a := v]> (stack m)) m).

Definition push (v : Z) m : result (machine K) :=
  let a := u64 (gpr m RSP - 8) in m ← store_word a v m; mret (set_reg RSP a m).
Definition pop m : result (Z * machine K) :=
  v ← load_word m (gpr m RSP); mret (v, set_reg RSP (u64 (gpr m RSP + 8)) m).

(** * The instructions of the stubs *)

Inductive instr :=
| Pushq (r : reg)
| PushImm (v : Z)
| Popq (r : reg)
| Movq (src dst : reg)
| MovSeg (s : sreg)
| MovCr (s : sreg)
| XorRax
| MovImm (v : Z) (dst : reg)
| AndRsp (mask : Z)
| AddRsp (v : Z)
| CallReg (r : reg)
| Iretq.

(** The C function at an address; it gets its argument in RDI.  A call pushes
    the address to return to, which only the return reads: the model pushes 0
    and the return puts RSP back. *)
Variable call : Z → machine K → result (machine K).

Definition exec_instr (i : instr) m : result (machine K) :=
  match i with
  | Pushq r => push (gpr m r) m
  | PushImm v => push v m
  | Popq r => '(v, m) ← pop m; mret (set_reg r v m)
  | Movq src dst => mret (set_reg dst (gpr m src) m)
  | MovSeg s => mret (set_reg RAX (Z.lor (Z.land (gpr m RAX) (not64 0xFFFF)) (u16 (special m s))) m)
  | MovCr s => mret (set_reg RAX (special m s) m)
  | XorRax => mret (set_reg RAX 0 m)
  | MovImm v dst => mret (set_reg dst v m)
  | AndRsp mask => mret (set_reg RSP (Z.land (gpr m RSP) mask) m)
  | AddRsp v => mret (set_reg RSP (u64 (gpr m RSP + v)) m)
  | CallReg r =>
      let sp := gpr m RSP in
      m ← push 0 m; m ← call (gpr m r) m; mret (set_reg RSP sp m)
  | Iretq =>
      '(ip, m) ← pop m; '(c, m) ← pop m; '(fl, m) ← pop m; '(sp, m) ← pop m; '(s, m) ← pop m;
      mret (mkMachine (gpr (set_reg RSP sp m)) (special m) ip c fl s (stack m) (kern m))
  end.

Fixpoint exec (l : list instr) m : result (machine K) :=
  match l with
  | [] => mret m
  | i :: l => m ← exec_instr i m; exec l m
  end.

End Machine.

(** * Trap frames *)

(** The fields of [struct trap_frame], from its first word on. *)
Inductive tf_field := FSpecial (s : sreg) | FReg (r : reg) | FErr | FRip | FCs | FRflags | FRsp | FSs.

Definition saved_regs : list reg := [R15; R14; R13; R12; R11; R10; R9; R8; RBP; RDI; RSI; RDX; RCX; RBX; RAX].

Definition trap_frame : list tf_field :=
  (FSpecial <$> [CR2; CR3; CR4; DS; ES; FS; GS]) ++ (FReg <$> saved_regs) ++ [FErr; FRip; FCs; FRflags; FRsp; FSs].

(** The byte offset of [error_code]. *)
Definition ERROR_CODE : Z := 8 * 22.

(** * The stubs *)

(** The pushes of the general registers. *)
Definition push_regs : list instr := Pushq <$> [RAX; RBX; RCX; RDX; RSI; RDI; RBP; R8; R9; R10; R11; R12; R13; R14; R15].

(** [DEF_IRQ_HANDLER]; the operand [%0] is in the register [operand]. *)
Definition irq_stub (operand : reg) (index : Z) : list instr :=
  [PushImm index] ++ push_regs ++ replicate 7 (PushImm 0) ++
  [Movq RSP RDI; Movq RSP RBP; AndRsp (not64 15); AddRsp (-8); Movq operand RAX; CallReg RAX; Movq RAX RSP; AddRsp 56] ++
  (Popq <$> saved_regs) ++ [AddRsp 8; Iretq].

(** [DEF_EXCEPTION_HANDLER] up to its call of [exception_main]. *)
Definition exception_stub (has_err : bool) (name : Z) : list instr :=
  (if has_err then [] else [PushImm 0]) ++ push_regs ++
  [XorRax; MovSeg GS; Pushq RAX; MovSeg FS; Pushq RAX; MovSeg ES; Pushq RAX; MovSeg DS; Pushq RAX;
   MovCr CR4; Pushq RAX; MovCr CR3; Pushq RAX; MovCr CR2; Pushq RAX; Movq RSP RDI; MovImm name RSI; AndRsp (not64 15)].

(** The exceptions, with [has_err]. *)
Definition exceptions : list (string * bool) := [
  ("Divide By Zero", false); ("Debug", false); ("Non-Maskable Interrupt", false); ("Breakpoint", false);
  ("Overflow", false); ("Bound Range Exceeded", false); ("Invalid Opcode", false); ("Device Not Available", false);
  ("Double Fault", true); ("Coprocessor Segment Overrun", false); ("Invalid TSS", true); ("Segment Not Present", true);
  ("Stack-Segment Fault", true); ("General Protection Fault", true); ("Page Fault", true); ("Reserved", false);
  ("x87 Floating-Point Exception", false); ("Alignment Check", true); ("Machine Check", false);
  ("SIMD Floating-Point Exception", false); ("Virtualization Exception", false); ("Control Protection Exception", true);
  ("Reserved", false); ("Reserved", false); ("Reserved", false); ("Reserved", false); ("Reserved", false);
  ("Reserved", false); ("Hypervisor Injection Exception", false); ("VMM Communication Exception", true);
  ("Security Exception", true); ("Reserved", false)]%string.

(** What [interrupt_handlers] points to. *)
Inductive handler := ExceptionHandler (n : Z) | IrqHandler (n : Z).

Definition interrupt_handlers (n : Z) : handler := if n <? 32 then ExceptionHandler n else IrqHandler n.

(** The C function that the stub of an interrupt calls. *)
Inductive irq_target := IrqDispatch | IrqDrunkHandler.
Definition target_of (n : Z) : irq_target := if n =? 255 then IrqDrunkHandler else IrqDispatch.

(** * The descriptor table *)

Record idt_entry := mkGate { offset_low : Z; selector : Z; ist : Z; type_attr : Z; offset_mid : Z; offset_high : Z; zero : Z }.

Definition idt_set_gate (n : nat) (h sel flags : Z) (idt : list idt_entry) : list idt_entry :=
  <[n := mkGate (Z.land h 0xFFFF) sel 0 flags (Z.land (Z.shiftr h 16) 0xFFFF) (u32 (Z.shiftr h 32)) 0]> idt.

(** [address] says where the linker put a handler. *)
Fixpoint idt_loop (n : nat) (i : nat) (address : handler → Z) (idt : list idt_entry) : list idt_entry :=
  match n with
  | O => idt
  | S n =>
      let h := address (interrupt_handlers (Z.of_nat i)) in
      idt_loop n (S i) address
        (if h =? 0 then <[i := mkGate 0 0 0 0 0 0 0]> idt else idt_set_gate i h 0x08 0x8E idt)
  end.

(** The table and the limit and base that LIDT gets. *)
Definition idt_init (address : handler → Z) (idt_base : Z) (idt : list idt_entry) : list idt_entry * (Z * Z) :=
  (idt_loop 256 0 address idt, (16 * Z.of_nat (length idt) - 1, idt_base)).

(** * Cores and their handlers *)

Definition MAX_HANDLERS_PER_VECTOR : Z := 4.

Record irq_vector_chain_t := mkChain { handlers : list Z; count : Z }.
Inductive cpu_status_t := CPU_IDLE | CPU_BUSY | CPU_HALTED | CPU_PANIC.
Record mailbox_t := mkMailbox { mail_func : Z; mail_data : Z; pending : bool }.

Record coreinfo_t := mkCore {
  current_task : Z;
  logical_id : Z;
  lapic_id : Z;
  ticks : Z;
  status : cpu_status_t;
  mailbox : mailbox_t;
  routines : list irq_vector_chain_t;
  irq_stats : list Z
}.

(** [gs_base] points to the core's own block; [eois] counts the calls
    of [lapic_eoi]; [world] is the rest. *)
Record kernel {W : Type} := mkKernel {
  cores : gmap Z coreinfo_t;
  cpu_blocks : list Z;
  gs_base : Z;
  eois : Z;
  world : W
}.
Arguments kernel : clear implicits.
Arguments mkKernel {W} _ _ _ _ _.

Section Irq.
Context {W : Type}.
Implicit Types k : kernel W.

Definition with_cores k (c : gmap Z coreinfo_t) : kernel W := mkKernel c (cpu_blocks k) (gs_base k) (eois k) (world k).
Definition lapic_eoi k : kernel W := mkKernel (cores k) (cpu_blocks k) (gs_base k) (eois k + 1) (world k).

Definition core_at k (a : Z) : result coreinfo_t := of_option (cores k !! a).
Definition with_routines (c : coreinfo_t) (r : list irq_vector_chain_t) : coreinfo_t :=
  mkCore (current_task c) (logical_id c) (lapic_id c) (ticks c) (status c) (mailbox c) r (irq_stats c).
Definition with_stats (c : coreinfo_t) (s : list Z) : coreinfo_t :=
  mkCore (current_task c) (logical_id c) (lapic_id c) (ticks c) (status c) (mailbox c) (routines c) s.
Definition with_ticks (c : coreinfo_t) (t : Z) : coreinfo_t :=
  mkCore (current_task c) (logical_id c) (lapic_id c) t (status c) (mailbox c) (routines c) (irq_stats c).

(** [SMP_MAX_CORES] is the length of [cpu_blocks]. *)
Definition irq_install_handler (core vector h : Z) k : result (kernel W) :=
  if core >=? Z.of_nat (length (cpu_blocks k))
  then Panic "IRQ" "Attempted to install handler on uninitialized or invalid CPU"
  else
    a ← of_option (cpu_blocks k !! Z.to_nat core);
    if a =? 0 then Panic "IRQ" "Attempted to install handler on uninitialized or invalid CPU"
    else
      c ← core_at k a;
      chain ← of_option (routines c !! Z.to_nat vector);
      if count chain <? MAX_HANDLERS_PER_VECTOR then
        _ ← of_option (handlers chain !! Z.to_nat (count chain));
        let chain := mkChain (<[Z.to_nat (count chain) := h]> (handlers chain)) (u8 (count chain + 1)) in
        mret (with_cores k (<[a := with_routines c (<[Z.to_nat vector := chain]> (routines c))]> (cores k)))
      else Panic "IRQ" "too many handlers sharing vector".

(** What the C code runs on: the words of the stacks, the special registers,
    which a handler may write (the scheduler loads CR3), and the kernel's state. *)
Record irq_state := mkIrqState { irq_words : gmap Z Z; irq_special : sreg → Z; irq_kern : kernel W }.

(** The handler at an address, given a frame; it returns a frame or NULL. *)
Variable handle : Z → Z → irq_state → result (Z * irq_state).

(** [for (uint8_t i = 0; i < chain->count; i++)] *)
Fixpoint chain_loop (fuel : nat) (i my_cpu vector tf ret_tf : Z) (s : irq_state) : result (Z * irq_state) :=
  match fuel with
  | O => Fuel
  | S fuel =>
      c ← core_at (irq_kern s) my_cpu;
      chain ← of_option (routines c !! Z.to_nat vector);
      if i <? count chain then
        h ← of_option (handlers chain !! Z.to_nat i);
        '(temp_tf, s) ← handle h tf s;
        chain_loop fuel (u8 (i + 1)) my_cpu vector tf (if temp_tf =? 0 then ret_tf else temp_tf) s
      else mret (ret_tf, s)
  end.

Definition end_irq (s : irq_state) : irq_state := mkIrqState (irq_words s) (irq_special s) (lapic_eoi (irq_kern s)).

Definition irq_dispatch (tf : Z) (s : irq_state) : result (Z * irq_state) :=
  vector ← of_option (irq_words s !! (tf + ERROR_CODE));
  let my_cpu := gs_base (irq_kern s) in
  c ← core_at (irq_kern s) my_cpu;
  n ← of_option (irq_stats c !! Z.to_nat vector);
  let k := with_cores (irq_kern s) (<[my_cpu := with_stats c (<[Z.to_nat vector := u64 (n + 1)]> (irq_stats c))]> (cores (irq_kern s))) in
  '(ret_tf, s) ← chain_loop 257 0 my_cpu vector tf tf (mkIrqState (irq_words s) (irq_special s) k);
  mret (ret_tf, end_irq s).

(** The call of a stub: the function gets the frame in RDI; what it leaves in
    the registers that C functions may change is [scratch], and in RAX what it
    returns.  [irq_drunk_handler] returns nothing. *)
Definition callee_saved : list reg := [RBX; RBP; RSP; R12; R13; R14; R15].

Variable scratch : reg → Z.

Definition state_of (m : machine (kernel W)) : irq_state := mkIrqState (stack m) (special m) (kern m).

Definition return_from (ret : option Z) (s : irq_state) (m : machine (kernel W)) : machine (kernel W) :=
  mkMachine (λ r, if decide (r ∈ callee_saved) then gpr m r
                  else match ret with Some v => if decide (r = RAX) then v else scratch r | None => scratch r end)
    (irq_special s) (rip m) (cs m) (rflags m) (ss m) (irq_words s) (irq_kern s).

(** [function_at] names the C functions that the stubs call. *)
Variable function_at : Z → option irq_target.

Definition irq_call (a : Z) (m : machine (kernel W)) : result (machine (kernel W)) :=
  match function_at a with
  | Some IrqDispatch => '(ret, s) ← irq_dispatch (gpr m RDI) (state_of m); mret (return_from (Some ret) s m)
  | Some IrqDrunkHandler => mret (return_from None (state_of m) m)
  | None => Fault
  end.

End Irq.

(** * Delivery

    What the processor does on vector [n] (Intel SDM, volume 3, 6.14): it aligns
    the stack, pushes the state to return to, and an error code for some
    exceptions, and goes to the handler of the gate with interrupts off. *)

Definition error_code_vectors : list Z := [8; 10; 11; 12; 13; 14; 17; 21; 29; 30].

Definition gate_offset (g : idt_entry) : Z :=
  Z.lor (Z.lor (offset_low g) (Z.shiftl (offset_mid g) 16)) (Z.shiftl (offset_high g) 32).
Definition gate_present (g : idt_entry) : bool := Z.testbit (type_attr g) 7.

Definition deliver {K} (idt : list idt_entry) (n err : Z) (m : machine K) : result (machine K) :=
  g ← of_option (idt !! Z.to_nat n);
  if negb (gate_present g) then Fault
  else
    let sp := gpr m RSP in
    let ip := rip m in let c := cs m in let fl := rflags m in
    m ← push (ss m) (set_reg RSP (Z.land sp (not64 15)) m);
    m ← push sp m; m ← push fl m; m ← push c m; m ← push ip m;
    m ← (if bool_decide (n ∈ error_code_vectors) then push err m else mret m);
    mret (mkMachine (gpr m) (special m) (gate_offset g) (selector g) (Z.land fl (not64 0x34300)) (ss m) (stack m) (kern m)).

(** The whole of an interrupt that calls [irq_dispatch] or the handler of 255:
    the compiler loads the operand of the assembly before its first push. *)
Definition take_irq {K} (call : Z → machine K → result (machine K)) (idt : list idt_entry) (operand : reg) (target n : Z) (m : machine K)
    : result (machine K) :=
  m ← deliver idt n 0 m; exec call (irq_stub operand n) (set_reg operand target m).

(** * The dump of an exception *)

Definition labels : list string := [
  "CR2"; "CR3"; "CR4"; "DS "; "ES "; "FS "; "GS ";
  "R15"; "R14"; "R13"; "R12"; "R11"; "R10"; "R9 "; "R8 ";
  "RBP"; "RDI"; "RSI"; "RDX"; "RCX"; "RBX"; "RAX";
  "ERR"; "RIP"; "CS "; "FLG"; "RSP"; "SS "]%string.

Definition CHAR_IS_ERROR_HANDLER : Z := 2 ^ 0.

(** A literal with its NUL. *)
Definition literal (s : string) : list Z := bytes_of s ++ [0].

(** The lines of the registers: [buf] is the buffer on the stack. *)
Fixpoint dump_loop (names : list string) (j tf : Z) (words : gmap Z Z) (buf : list Z) : result (list Z * list Z) :=
  match names with
  | [] => mret ([], buf)
  | name :: names =>
      a ← dev_puts (literal name); b ← dev_puts (literal ": 0x");
      v ← of_option (words !! (tf + j * 8)); buf ← ptrthex buf v; c ← dev_puts buf;
      '(r, buf) ← dump_loop names (j + 1) tf words buf;
      mret (a ++ b ++ c ++ [10] ++ r, buf)
  end.

Definition dump (description : string) (tf : Z) (words : gmap Z Z) (buf : list Z) : result (list Z * list Z) :=
  a ← dev_puts (10 :: literal "*** CPU EXCEPTION: "); b ← dev_puts (literal description);
  c ← dev_puts (bytes_of " ***" ++ [10; 0]);
  '(r, buf) ← dump_loop labels 0 tf words buf; mret (a ++ b ++ c ++ r, buf).

(** What the devices print before the core halts; [caps] are the capabilities
    of the character devices. *)
Fixpoint report_loop (n : nat) (i : Z) (description : string) (tf : Z) (words : gmap Z Z) (caps : gmap Z Z) (buf : list Z) (s : registry_state)
    : result (list (Z * list Z)) :=
  match n with
  | O => mret []
  | S n =>
      e ← entry_at s i;
      if decide (type e = CHAR_DEV) then
        cap ← of_option (caps !! dev_ptr e);
        if Z.land cap CHAR_IS_ERROR_HANDLER =? CHAR_IS_ERROR_HANDLER then
          '(o, buf) ← dump description tf words buf;
          r ← report_loop n (i + 1) description tf words caps buf s; mret ((dev_ptr e, o) :: r)
        else report_loop n (i + 1) description tf words caps buf s
      else report_loop n (i + 1) description tf words caps buf s
  end.

Definition exception_main (tf : Z) (description : string) (words : gmap Z Z) (caps : gmap Z Z) (buf : list Z) (s : registry_state)
    : result (list (Z * list Z)) :=
  report_loop (Z.to_nat (registry_count s)) 0 description tf words caps buf s.

(** An exception up to the call of [exception_main]. *)
Definition take_exception {K} (idt : list idt_entry) (name n err : Z) (m : machine K) : result (machine K) :=
  m ← deliver idt n err m;
  '(_, has_err) ← of_option (exceptions !! Z.to_nat n);
  exec (λ _ _, Fault) (exception_stub has_err name) m.
