(* ===== verification/IrqSpec.v ===== *)
(** What an interrupt does (src/cpu/IDT.c): the stub leaves a trap frame of the
    interrupted core, runs the handlers of its vector in their order and resumes
    the frame they return; an exception prints its frame, register by register. *)

From S2P Require Import Prelude Stdio Registry Irq.

(** * Runs of pushes and pops *)

Section Machine.
Context {K : Type}.
Implicit Types m : machine K.

Lemma gpr_same r v m : gpr (set_reg r v m) r = v.
Proof. cbn. by rewrite decide_True. Qed.
Lemma gpr_other r r' v m : r' ≠ r → gpr (set_reg r v m) r' = gpr m r'.
Proof. intros. cbn. by rewrite decide_False. Qed.

(** [n] words below the stack pointer. *)
Definition room (n : Z) m : Prop :=
  (∀ j, 0 < j <= n → is_Some (stack m !! (gpr m RSP - 8 * j))) ∧ 8 * n <= gpr m RSP < 2 ^ 64.

(** [m'] is [m] after the pushes of [vs], with registers [X] changed. *)
Record pushed (X : list reg) (vs : list Z) m m' : Prop := {
  pu_rsp : gpr m' RSP = gpr m RSP - 8 * Z.of_nat (length vs);
  pu_gpr r : r ≠ RSP → r ∉ X → gpr m' r = gpr m r;
  pu_rest : special m' = special m ∧ kern m' = kern m;
  pu_word (j : nat) v : vs !! j = Some v → stack m' !! (gpr m RSP - 8 * (Z.of_nat j + 1)) = Some v;
  pu_above a : gpr m RSP <= a → stack m' !! a = stack m !! a;
  pu_held a : is_Some (stack m !! a) → is_Some (stack m' !! a)
}.

Lemma pushed_nil X m : pushed X [] m m.
Proof. split; try done. simpl. lia. Qed.

Lemma pushed_app X vs ws m1 m2 m3 : pushed X vs m1 m2 → pushed X ws m2 m3 → pushed X (vs ++ ws) m1 m3.
Proof.
  intros [R1 G1 Re1 W1 A1 D1] [R2 G2 Re2 W2 A2 D2]. split.
  - rewrite R2, R1, length_app. lia.
  - intros r Hr HX. rewrite G2, G1; done.
  - destruct Re1, Re2. split; congruence.
  - intros j v Hj. destruct (decide (j < length vs)%nat) as [Hlt|Hge].
    + rewrite lookup_app_l in Hj by done. rewrite A2 by lia. by apply W1.
    + rewrite lookup_app_r in Hj by lia. apply W2 in Hj.
      replace (gpr m1 RSP - 8 * (Z.of_nat j + 1)) with (gpr m2 RSP - 8 * (Z.of_nat (j - length vs) + 1)) by lia. done.
  - intros a Ha. rewrite A2, A1; [done|done|lia].
  - intros a Ha. by apply D2, D1.
Qed.

Lemma pushed_mono X Y vs m m' : X ⊆ Y → pushed X vs m m' → pushed Y vs m m'.
Proof. intros HXY []. split; try done. set_solver. Qed.

Lemma room_pushed X vs n m m' : pushed X vs m m' → room (n + Z.of_nat (length vs)) m → 0 <= n → room n m'.
Proof.
  intros [R _ _ _ _ H] [Hw Hr] Hn. split; [|rewrite R; lia]. intros j Hj. apply H. rewrite R.
  replace (gpr m RSP - 8 * Z.of_nat (length vs) - 8 * j) with (gpr m RSP - 8 * (j + Z.of_nat (length vs))) by lia. apply Hw. lia.
Qed.

Lemma push_word_ok X v m : room 1 m → ∃ m', push v m = Ok m' ∧ pushed X [v] m m'.
Proof.
  intros [Hw Hr]. unfold push, store_word, load_word. rewrite u64_id by lia.
  destruct (Hw 1 ltac:(lia)) as [w Ew]. replace (gpr m RSP - 8 * 1) with (gpr m RSP - 8) in Ew by lia. rewrite Ew.
  cbn [of_option mbind result_bind mret result_ret]. eexists. split; [done|]. split; cbn [gpr special rip cs rflags ss kern stack set_reg set_stack length].
  - by rewrite decide_True by done.
  - intros r Hr' _. by rewrite decide_False by done.
  - done.
  - intros [|j] w' Hj; [|done]. simpl in Hj. injection Hj as ->. apply lookup_insert_eq.
  - intros a Ha. apply lookup_insert_ne. lia.
  - intros a Ha. destruct (decide (a = gpr m RSP - 8)) as [->|]; [by rewrite lookup_insert_eq; eauto|by rewrite lookup_insert_ne].
Qed.

(** A register that changes between the pushes. *)
Lemma pushed_set X r v vs m m' : r ∈ X → r ≠ RSP → pushed X vs (set_reg r v m) m' → pushed X vs m m'.
Proof.
  intros Hr Hne [R G Re W A H]. assert (gpr (set_reg r v m) RSP = gpr m RSP) as E by (cbn; by rewrite decide_False by congruence).
  rewrite E in *. split; try done. intros r' Hr' HX. rewrite G by done. cbn. rewrite decide_False; [done|]. by intros ->.
Qed.

Variable call : Z → machine K → result (machine K).

Lemma exec_app l1 l2 m : exec call (l1 ++ l2) m = (m ← exec call l1 m; exec call l2 m).
Proof.
  revert m. induction l1 as [|i l1 IH]; intros m; [done|]. cbn [exec app]. destruct (exec_instr call i m); [|done..]. apply IH.
Qed.

Lemma exec_app_ok l1 l2 m m' : exec call l1 m = Ok m' → exec call (l1 ++ l2) m = exec call l2 m'.
Proof. intros E. by rewrite exec_app, E. Qed.

(** One push, and then the rest. *)
Lemma exec_push X i v l m : exec_instr call i m = push v m → room 1 m →
  ∃ m', exec call (i :: l) m = exec call l m' ∧ pushed X [v] m m'.
Proof. intros E Hr. destruct (push_word_ok X v m Hr) as (m'&E'&H). exists m'. split; [|done]. cbn [exec]. by rewrite E, E'. Qed.

(** Instructions that push [vs] whatever was pushed before them. *)
Lemma pushes_ok X l vs m0 m :
  Forall2 (λ i v, ∀ m', (∀ r, r ≠ RSP → gpr m' r = gpr m0 r) → exec_instr call i m' = push v m') l vs →
  (∀ r, r ≠ RSP → gpr m r = gpr m0 r) → room (Z.of_nat (length vs)) m →
  ∃ m', exec call l m = Ok m' ∧ pushed X vs m m'.
Proof.
  intros HF. revert m. induction HF as [|i v l vs Hi _ IH]; intros m1 Hg Hr; [by exists m1; split; [|apply pushed_nil]|].
  cbn [length] in Hr. destruct (push_word_ok [] v m1) as (m2&E2&H2).
  { destruct Hr as [Hw Hr]. split; [intros; apply Hw|]; lia. }
  destruct (IH m2) as (m3&E3&H3).
  { intros r Hr'. rewrite (pu_gpr _ _ _ _ H2); [by apply Hg|done|by apply not_elem_of_nil]. }
  { eapply room_pushed; [done| |lia]. by replace (Z.of_nat (length vs) + Z.of_nat (length [v])) with (Z.of_nat (S (length vs))) by (cbn [length]; lia). }
  exists m3. cbn [exec]. rewrite (Hi m1 Hg), E2. cbn [mbind result_bind]. split; [done|].
  apply (pushed_app X [v] vs m1 m2 m3); [|done]. by eapply pushed_mono; [apply list_subseteq_nil|].
Qed.

(** The words at [a], from low addresses to high ones. *)
Definition words_at (s : gmap Z Z) (a : Z) (ws : list Z) : Prop :=
  ∀ j w, ws !! j = Some w → s !! (a + 8 * Z.of_nat j) = Some w.

Lemma words_at_app s a ws1 ws2 : words_at s a (ws1 ++ ws2) →
  words_at s a ws1 ∧ words_at s (a + 8 * Z.of_nat (length ws1)) ws2.
Proof.
  intros H. split; intros j w Hj.
  - apply H. by apply lookup_app_l_Some.
  - replace (a + 8 * Z.of_nat (length ws1) + 8 * Z.of_nat j) with (a + 8 * Z.of_nat (length ws1 + j)) by lia.
    apply H. rewrite lookup_app_r by lia. by replace (length ws1 + j - length ws1)%nat with j by lia.
Qed.

(** What was pushed lies there in reverse. *)
Lemma pushed_words X vs m m' : pushed X vs m m' → words_at (stack m') (gpr m' RSP) (reverse vs).
Proof.
  intros [R _ _ W _ _] j w Hj. apply reverse_lookup_Some in Hj as [Hj Hl]. apply W in Hj. rewrite R.
  by replace (gpr m RSP - 8 * Z.of_nat (length vs) + 8 * Z.of_nat j) with (gpr m RSP - 8 * (Z.of_nat (length vs - S j) + 1)) by lia.
Qed.

(** [m'] is [m] after pops into [rs]. *)
Record popped (rs : list reg) (ws : list Z) m m' : Prop := {
  po_rsp : gpr m' RSP = gpr m RSP + 8 * Z.of_nat (length rs);
  po_gpr (j : nat) r w : rs !! j = Some r → ws !! j = Some w → gpr m' r = w;
  po_other r : r ≠ RSP → r ∉ rs → gpr m' r = gpr m r;
  po_rest : special m' = special m ∧ stack m' = stack m ∧ kern m' = kern m
}.

Lemma pop_ok m w : stack m !! gpr m RSP = Some w → 0 <= gpr m RSP < 2 ^ 64 - 8 →
  pop m = Ok (w, set_reg RSP (gpr m RSP + 8) m).
Proof. intros E H. unfold pop, load_word. rewrite E. cbn [of_option mbind result_bind]. by rewrite u64_id by lia. Qed.

Lemma pops_ok rs ws m : RSP ∉ rs → NoDup rs → length ws = length rs → words_at (stack m) (gpr m RSP) ws →
  0 <= gpr m RSP → gpr m RSP + 8 * Z.of_nat (length rs) < 2 ^ 64 →
  ∃ m', exec call (Popq <$> rs) m = Ok m' ∧ popped rs ws m m'.
Proof.
  revert ws m. induction rs as [|r rs IH]; intros [|w ws] m Hn Hd Hlen Hw H0 Hb; try done.
  { exists m. split; [done|]. split; try done. simpl. lia. }
  apply not_elem_of_cons in Hn as [Hne Hn]. apply NoDup_cons in Hd as [Hr Hd]. cbn [length] in *.
  pose proof (Hw 0%nat w eq_refl) as E. rewrite Z.mul_0_r, Z.add_0_r in E.
  cbn [fmap list_fmap exec exec_instr]. rewrite (pop_ok m w E) by lia. cbn [mbind result_bind mret result_ret].
  set (m1 := set_reg r w (set_reg RSP (gpr m RSP + 8) m)).
  assert (gpr m1 RSP = gpr m RSP + 8) as E1 by (cbn; rewrite decide_False by done; by rewrite decide_True).
  destruct (IH ws m1 Hn Hd) as (m'&->&[R G O Re]); [lia| |lia|lia|].
  { intros j v Hj. rewrite E1. replace (gpr m RSP + 8 + 8 * Z.of_nat j) with (gpr m RSP + 8 * Z.of_nat (S j)) by lia. by apply Hw. }
  exists m'. split; [done|]. split.
  - rewrite R, E1. cbn [length]. lia.
  - intros [|j] r' w' Hj Hw'.
    + injection Hj as <-. injection Hw' as <-. rewrite O; [|congruence|done]. cbn. by rewrite decide_True.
    + by apply (G j).
  - intros r' Hr' [Hr1 Hr2]%not_elem_of_cons. rewrite O by done. cbn. by rewrite !decide_False.
  - by destruct Re as (->&->&->).
Qed.

End Machine.

(** * Trap frames *)

Definition align16 (z : Z) : Z := 16 * (z / 16).

Lemma land_align16 z : 0 <= z < 2 ^ 64 → Z.land z (not64 15) = align16 z.
Proof. intros Hz. apply (land_mask z 4); lia. Qed.

Lemma align16_bound z : 0 <= z → 0 <= align16 z <= z ∧ (16 | align16 z).
Proof.
  intros Hz. unfold align16. pose proof (Z.div_pos z 16 Hz ltac:(lia)). pose proof (Z.mul_div_le z 16 ltac:(lia)).
  split; [lia|]. by exists (z / 16); lia.
Qed.

Lemma align16_id z : (16 | z) → align16 z = z.
Proof. intros [k ->]. unfold align16. rewrite Z.div_mul by lia. lia. Qed.

(** [fr] gives the words of the frame at [f]. *)
Definition frame_at (s : gmap Z Z) (f : Z) (fr : tf_field → Z) : Prop := words_at s f (fr <$> trap_frame).

Lemma frame_parts s f fr : frame_at s f fr →
  words_at s (f + 56) (fr <$> (FReg <$> saved_regs)) ∧ words_at s (f + 184) [fr FRip; fr FCs; fr FRflags; fr FRsp; fr FSs].
Proof.
  unfold frame_at, trap_frame. rewrite !fmap_app. intros [_ [Hr Ht]%words_at_app]%words_at_app. split; [done|].
  apply (words_at_app _ _ [fr FErr]) in Ht as [_ Ht]. revert Ht. rewrite !length_fmap.
  change (8 * Z.of_nat (Datatypes.length [CR2; CR3; CR4; DS; ES; FS; GS])) with 56.
  change (8 * Z.of_nat (Datatypes.length saved_regs)) with 120. change (8 * Z.of_nat (Datatypes.length [fr FErr])) with 8.
  by replace (f + 56 + 120 + 8) with (f + 184) by lia.
Qed.

Section Frames.
Context {K : Type}.
Implicit Types m : machine K.

(** The machine that went on in the state of the frame. *)
Record resumes (fr : tf_field → Z) (m' : machine K) : Prop := {
  re_gpr r : r ≠ RSP → gpr m' r = fr (FReg r);
  re_rsp : gpr m' RSP = fr FRsp;
  re_rip : rip m' = fr FRip;
  re_cs : cs m' = fr FCs;
  re_rflags : rflags m' = fr FRflags;
  re_ss : ss m' = fr FSs
}.

Variable call : Z → machine K → result (machine K).

(** The end of the stub: RAX has the frame to resume. *)
Definition irq_return : list instr := [Movq RAX RSP; AddRsp 56] ++ (Popq <$> saved_regs) ++ [AddRsp 8; Iretq].

Lemma saved_regs_all r : r ≠ RSP → r ∈ saved_regs.
Proof. destruct r; intros; try done; unfold saved_regs; rewrite !elem_of_cons; naive_solver. Qed.

Lemma saved_regs_NoDup : NoDup saved_regs.
Proof. apply (bool_decide_unpack _). by vm_compute. Qed.

Lemma iret_ok m ip c fl sp st : words_at (stack m) (gpr m RSP) [ip; c; fl; sp; st] → 0 <= gpr m RSP → gpr m RSP + 40 < 2 ^ 64 →
  ∃ m', exec_instr call Iretq m = Ok m' ∧ (∀ r, r ≠ RSP → gpr m' r = gpr m r) ∧ gpr m' RSP = sp ∧
    rip m' = ip ∧ cs m' = c ∧ rflags m' = fl ∧ ss m' = st ∧ stack m' = stack m ∧ kern m' = kern m ∧ special m' = special m.
Proof.
  intros Hw H0 Hb. set (a := gpr m RSP) in *.
  assert (∀ k w m', (k < 5)%nat → [ip; c; fl; sp; st] !! k = Some w → stack m' = stack m → gpr m' RSP = a + 8 * Z.of_nat k →
    pop m' = Ok (w, set_reg RSP (a + 8 * Z.of_nat (S k)) m')) as Hpop.
  { intros k w m' Hk E Es Er. rewrite (pop_ok m' w); [|by rewrite Es, Er; apply Hw|lia]. do 3 f_equal. lia. }
  cbn [exec_instr]. rewrite (Hpop 0%nat ip m); [|lia|done|done|unfold a; lia]. cbn [mbind result_bind].
  rewrite (Hpop 1%nat c); [|lia|done|done|by cbn; rewrite decide_True]; cbn [mbind result_bind].
  rewrite (Hpop 2%nat fl); [|lia|done|done|by cbn; rewrite decide_True]; cbn [mbind result_bind].
  rewrite (Hpop 3%nat sp); [|lia|done|done|by cbn; rewrite decide_True]; cbn [mbind result_bind].
  rewrite (Hpop 4%nat st); [|lia|done|done|by cbn; rewrite decide_True]; cbn [mbind result_bind].
  eexists. split; [done|]. cbn. split_and!; try done.
  intros r Hr. by rewrite !decide_False.
Qed.

Lemma irq_return_ok fr m : frame_at (stack m) (gpr m RAX) fr → 0 <= gpr m RAX < 2 ^ 64 - 224 →
  ∃ m', exec call irq_return m = Ok m' ∧ resumes fr m' ∧ stack m' = stack m ∧ kern m' = kern m ∧ special m' = special m.
Proof.
  intros Hf Hr. set (a := gpr m RAX) in *.
  apply frame_parts in Hf as [Hregs Htail].
  unfold irq_return. cbn [app exec exec_instr mbind result_bind mret result_ret].
  set (m1 := set_reg RSP _ _).
  assert (gpr m1 RSP = a + 56) as E1 by (cbn; apply u64_id; lia).
  assert (stack m1 = stack m ∧ kern m1 = kern m ∧ special m1 = special m) as (Es&Ek&Esp) by done.
  clearbody m1. rewrite exec_app.
  destruct (pops_ok call saved_regs (fr <$> (FReg <$> saved_regs)) m1) as (m2&->&[R G O Re]); rewrite ?Es, ?E1; try done.
  { unfold saved_regs. rewrite !not_elem_of_cons. split_and!; try done. apply not_elem_of_nil. }
  { apply saved_regs_NoDup. } { lia. } { change (8 * Z.of_nat (Datatypes.length saved_regs)) with 120. lia. }
  rewrite E1 in R. change (8 * Z.of_nat (Datatypes.length saved_regs)) with 120 in R.
  cbn [mbind result_bind]. change (exec call [AddRsp 8; Iretq] m2) with (m ← exec_instr call Iretq (set_reg RSP (u64 (gpr m2 RSP + 8)) m2); mret m).
  set (m3 := set_reg RSP _ m2).
  assert (gpr m3 RSP = a + 184) as E3 by (cbn [m3 set_reg gpr]; rewrite decide_True by done; rewrite R, u64_id; lia).
  assert (∀ r, r ≠ RSP → gpr m3 r = gpr m2 r) as G3 by (intros r Hr'; cbn; by rewrite decide_False).
  assert (stack m3 = stack m ∧ kern m3 = kern m ∧ special m3 = special m) as (Es3&Ek3&Esp3) by (destruct Re as (?&?&?); cbn; split_and!; congruence).
  clearbody m3. destruct (iret_ok m3 (fr FRip) (fr FCs) (fr FRflags) (fr FRsp) (fr FSs)) as (m4&E4&G4&?&?&?&?&?&?&?&?);
    rewrite ?Es3, ?E3; try done; [lia..|].
  rewrite E4. exists m4. split_and!; try congruence; [done|]. split; try done.
  intros r Hne. rewrite G4, G3 by done. pose proof (saved_regs_all r Hne) as [j Hj]%list_elem_of_lookup.
  apply (G j); [done|]. by rewrite !list_lookup_fmap, Hj.
Qed.

(** * Entry *)

(** What the processor pushes for vector [n], from the top of the stack on. *)
Definition delivered m n err : list Z :=
  [ss m; gpr m RSP; rflags m; cs m; rip m] ++ (if bool_decide (n ∈ error_code_vectors) then [err] else []).

(** The machine with its stack pointer aligned for a frame. *)
Definition aligned m : machine K := set_reg RSP (align16 (gpr m RSP)) m.

Lemma room_lo n n' m : room n m → n' <= n → room n' m.
Proof. intros [Hw Hr] Hn. split; [intros; apply Hw; lia|lia]. Qed.

Lemma deliver_ok idt n err m g : idt !! Z.to_nat n = Some g → gate_present g = true → 0 <= gpr m RSP < 2 ^ 64 →
  room (Z.of_nat (Datatypes.length (delivered m n err))) (aligned m) →
  ∃ m', deliver idt n err m = Ok m' ∧ pushed [] (delivered m n err) (aligned m) m' ∧
    rip m' = gate_offset g ∧ cs m' = selector g ∧ rflags m' = Z.land (rflags m) (not64 0x34300).
Proof.
  intros Eg Hg Hsp Hr. unfold deliver. rewrite Eg. cbn [of_option mbind result_bind]. rewrite Hg. cbn [negb].
  rewrite land_align16 by done. fold (aligned m).
  destruct (pushes_ok (λ _ _, Fault) [] (PushImm <$> delivered m n err) (delivered m n err) (aligned m) (aligned m)) as (m1&E1&H1); [|done..|].
  { apply Forall2_fmap_l, Forall_Forall2_diag, Forall_true. done. }
  eexists (mkMachine (gpr m1) (special m1) (gate_offset g) (selector g) (Z.land (rflags m) (not64 0x34300)) (ss m1) (stack m1) (kern m1)).
  split; [|split; [destruct H1; by split|done]].
  unfold delivered in E1. cbn [fmap list_fmap app exec exec_instr] in E1. revert E1.
  do 5 (destruct (push _ _) as [?| | |]; [cbn [mbind result_bind]|done..]).
  case_bool_decide; cbn [fmap list_fmap exec exec_instr mbind result_bind]; [destruct (push _ _); [|done..]|]; by intros [= <-].
Qed.

(** What the stub of interrupt [n] saves before it calls the handler: the state
    that was interrupted, but for the register of the operand. *)
Definition interrupted (operand : reg) (target n : Z) m : tf_field → Z := λ fld,
  match fld with
  | FSpecial _ => 0
  | FReg r => if decide (r = operand) then target else gpr m r
  | FErr => n
  | FRip => rip m
  | FCs => cs m
  | FRflags => rflags m
  | FRsp => gpr m RSP
  | FSs => ss m
  end.

Definition irq_enter (n : Z) : list instr := [PushImm n] ++ push_regs ++ replicate 7 (PushImm 0).

Lemma irq_enter_ok idt operand target n m g : idt !! Z.to_nat n = Some g → gate_present g = true → n ∉ error_code_vectors →
  operand ≠ RSP → 0 <= gpr m RSP < 2 ^ 64 → room 28 (aligned m) →
  ∃ m1 m', deliver idt n 0 m = Ok m1 ∧ exec call (irq_enter n) (set_reg operand target m1) = Ok m' ∧
    gpr m' RSP = align16 (gpr m RSP) - 224 ∧ gpr m' operand = target ∧
    frame_at (stack m') (align16 (gpr m RSP) - 224) (interrupted operand target n m) ∧
    (∀ a, align16 (gpr m RSP) <= a → stack m' !! a = stack m !! a) ∧
    (∀ a, is_Some (stack m !! a) → is_Some (stack m' !! a)) ∧ special m' = special m ∧ kern m' = kern m.
Proof.
  intros Eg Hg Hn Hop Hsp Hr. set (fr := interrupted operand target n m).
  assert (delivered m n 0 = [ss m; gpr m RSP; rflags m; cs m; rip m]) as Ed by (unfold delivered; by rewrite bool_decide_false).
  destruct (deliver_ok idt n 0 m g) as (m1&E1&H1&_); try done.
  { rewrite Ed. by eapply room_lo. }
  rewrite Ed in H1. set (m2 := set_reg operand target m1).
  assert (gpr m2 RSP = gpr m1 RSP) as E2 by (cbn; by rewrite decide_False by congruence).
  assert (∀ r, r ≠ RSP → gpr m2 r = fr (FReg r)) as G2.
  { intros r Hr'. cbn. case_decide; [done|]. rewrite (pu_gpr _ _ _ _ H1) by (done || apply not_elem_of_nil). cbn. by rewrite decide_False. }
  destruct (pushes_ok call [] (irq_enter n)
    ([n] ++ ((λ r, fr (FReg r)) <$> [RAX; RBX; RCX; RDX; RSI; RDI; RBP; R8; R9; R10; R11; R12; R13; R14; R15]) ++ replicate 7 0) m2 m2) as (m3&E3&H3); [|done| |].
  { unfold irq_enter, push_regs. cbn [fmap list_fmap app replicate].
    repeat (constructor; [intros m' Hm; cbn [exec_instr]; rewrite ?Hm, ?G2 by done; done|]). constructor. }
  { destruct (room_pushed _ _ 23 _ _ H1) as [Hw Hb]; [done|lia|]. split; [by rewrite E2|by rewrite E2]. }
  exists m1, m3. split; [done|]. split; [done|].
  pose proof (pu_gpr _ _ _ _ H3 operand Hop (not_elem_of_nil _)) as Gop. rewrite G2 in Gop by done.
  apply (pushed_mono _ [operand]) in H1, H3; [|apply list_subseteq_nil..].
  apply pushed_set in H3; [|by apply list_elem_of_singleton|done].
  pose proof (pushed_app _ _ _ _ _ _ H1 H3) as H. pose proof (pushed_words _ _ _ _ H) as Hw. destruct H as [R _ [Sp Ke] _ A D].
  assert (gpr (aligned m) RSP = align16 (gpr m RSP)) as Ea by (cbn; by rewrite decide_True). rewrite Ea in *.
  rewrite R in Hw. split_and!; try done. rewrite Gop. cbn. by rewrite decide_True.
Qed.

(** The state in which the stub calls: RDI points to the frame. *)
Definition irq_call_seq (operand : reg) : list instr := [Movq RSP RDI; Movq RSP RBP; AndRsp (not64 15); AddRsp (-8); Movq operand RAX; CallReg RAX].

Lemma irq_stub_parts operand n : irq_stub operand n = irq_enter n ++ irq_call_seq operand ++ irq_return.
Proof. unfold irq_stub, irq_enter. by rewrite <- !app_assoc. Qed.

Lemma irq_call_seq_ok operand target f m : operand ∉ [RDI; RBP; RSP] → gpr m operand = target →
  gpr m RSP = f → (16 | f) → 16 <= f < 2 ^ 64 → is_Some (stack m !! (f - 16)) →
  ∃ mc, gpr mc RDI = f ∧ gpr mc RSP = f - 16 ∧ stack mc = <[f - 16 := 0]> (stack m) ∧ kern mc = kern m ∧ special mc = special m ∧
    exec call (irq_call_seq operand) m = (m' ← call target mc; mret (set_reg RSP (f - 8) m')).
Proof.
  intros Hop Ht Hf [k Hk] Hb [w Ew]. rewrite !not_elem_of_cons in Hop. destruct Hop as (N1&N2&N3&_).
  unfold irq_call_seq. cbn [exec exec_instr mbind result_bind mret result_ret]. set (m1 := set_reg RAX _ _).
  assert (gpr m1 RAX = target) as E1.
  { unfold m1. rewrite gpr_same. by rewrite !gpr_other by done. }
  assert (gpr m1 RSP = f - 8) as E2.
  { unfold m1. rewrite gpr_other, gpr_same by done. rewrite gpr_same, !gpr_other, Hf, land_align16 by done || lia.
    rewrite align16_id, u64_id by (lia || by exists k). lia. }
  assert (gpr m1 RDI = f) as E3 by (unfold m1; rewrite !gpr_other by done; by rewrite gpr_same).
  assert (stack m1 = stack m ∧ kern m1 = kern m ∧ special m1 = special m) as (Es&Ek&Ep) by done. clearbody m1.
  unfold push, store_word, load_word. rewrite E2, u64_id, Es by lia. replace (f - 8 - 8) with (f - 16) by lia. rewrite Ew.
  cbn [of_option mbind result_bind mret result_ret]. set (mc := set_reg RSP _ _). exists mc.
  assert (∀ r, r ≠ RSP → gpr mc r = gpr m1 r) as Gc by (intros r Hr; unfold mc; by rewrite gpr_other).
  rewrite (Gc RDI), (Gc RAX), E1 by done. split_and!; try done; by destruct (call target mc).
Qed.
End Frames.

(** * The chains of handlers *)

Section Chains.
Context {W : Type}.
Implicit Types k : kernel W.

(** The chain of a vector on a core. *)
Definition chain_of k (core vector : Z) : option irq_vector_chain_t :=
  c ← cores k !! core; routines c !! Z.to_nat vector.

Definition chain_ok (c : irq_vector_chain_t) : Prop :=
  Z.of_nat (Datatypes.length (handlers c)) = MAX_HANDLERS_PER_VECTOR ∧ 0 <= count c <= MAX_HANDLERS_PER_VECTOR.

(** The handlers that were installed, the first one first. *)
Definition installed (c : irq_vector_chain_t) : list Z := take (Z.to_nat (count c)) (handlers c).

Definition kernel_chains_ok k : Prop := ∀ core vector c, chain_of k core vector = Some c → chain_ok c.

Variable handle : Z → Z → @irq_state W → result (Z * @irq_state W).

(** The handlers [hs] on the frame [tf], in order; the last frame that one of
    them returned wins over [ret]. *)
Fixpoint run_handlers (hs : list Z) (tf ret : Z) (s : irq_state) : result (Z * irq_state) :=
  match hs with
  | [] => mret (ret, s)
  | h :: hs => '(r, s) ← handle h tf s; run_handlers hs tf (if r =? 0 then ret else r) s
  end.

(** Handlers do not install handlers for the vector they run for. *)
Definition handlers_keep (core vector : Z) : Prop :=
  ∀ h tf (s s' : irq_state) r, handle h tf s = Ok (r, s') → chain_of (irq_kern s') core vector = chain_of (irq_kern s) core vector.

Lemma chain_loop_ok fuel i core vector tf ret s c : handlers_keep core vector → chain_of (irq_kern s) core vector = Some c → chain_ok c →
  0 <= i <= count c → (Z.to_nat (count c - i) < fuel)%nat →
  chain_loop handle fuel i core vector tf ret s = run_handlers (drop (Z.to_nat i) (installed c)) tf ret s.
Proof.
  intros Hk E [Hl Hc] Hi Hf. unfold MAX_HANDLERS_PER_VECTOR in *. revert i ret s E Hi Hf. induction fuel as [|fuel IH]; intros i ret s E Hi Hf; [lia|].
  cbn [chain_loop]. unfold chain_of in E. unfold core_at. destruct (cores (irq_kern s) !! core) as [ci|] eqn:Ec; [|done]. cbn [mbind option_bind] in E.
  cbn [of_option mbind result_bind]. rewrite E. cbn [of_option mbind result_bind].
  assert (length (installed c) = Z.to_nat (count c)) as Hlen by (unfold installed; rewrite length_take; lia).
  destruct (Z.ltb_spec i (count c)).
  - destruct (lookup_lt_is_Some_2 (installed c) (Z.to_nat i)) as [h Eh]; [lia|]. rewrite (drop_S _ _ _ Eh). cbn [run_handlers].
    unfold installed in Eh. rewrite lookup_take_lt in Eh by lia. rewrite Eh. cbn [of_option mbind result_bind].
    destruct (handle h tf s) as [[r s']| | |] eqn:E'; [|done..]. cbn [mbind result_bind]. rewrite u8_id by lia.
    replace (S (Z.to_nat i)) with (Z.to_nat (i + 1)) by lia. apply IH; [|lia..].
    rewrite (Hk _ _ _ _ _ E'). unfold chain_of. by rewrite Ec.
  - rewrite drop_ge by lia. done.
Qed.

(** A tick of the statistics of a vector. *)
Definition counted (core vector : Z) k : kernel W :=
  match cores k !! core with
  | Some c => with_cores k (<[core := with_stats c (<[Z.to_nat vector := u64 (default 0 (irq_stats c !! Z.to_nat vector) + 1)]> (irq_stats c))]> (cores k))
  | None => k
  end.

Lemma counted_chain core vector k a v : chain_of (counted core vector k) a v = chain_of k a v.
Proof.
  unfold counted, chain_of. destruct (cores k !! core) as [c|] eqn:E; [|done]. cbn [cores with_cores].
  destruct (decide (a = core)) as [->|Hne]; [by rewrite lookup_insert_eq, E|by rewrite lookup_insert_ne].
Qed.

Lemma irq_dispatch_ok tf (words : gmap Z Z) sp k vector c ci :
  words !! (tf + ERROR_CODE) = Some vector → cores k !! gs_base k = Some ci → chain_of k (gs_base k) vector = Some c → chain_ok c →
  (Z.to_nat vector < length (irq_stats ci))%nat → handlers_keep (gs_base k) vector →
  irq_dispatch handle tf (mkIrqState words sp k) =
    ('(ret, s) ← run_handlers (installed c) tf tf (mkIrqState words sp (counted (gs_base k) vector k)); mret (ret, end_irq s)).
Proof.
  intros Ev Ec Hc Hok Hst Hk. unfold irq_dispatch. cbn [irq_words irq_kern irq_special]. rewrite Ev. cbn [of_option mbind result_bind]. unfold core_at. rewrite Ec.
  cbn [of_option mbind result_bind]. destruct (lookup_lt_is_Some_2 _ _ Hst) as [n En]. rewrite En. cbn [of_option mbind result_bind].
  replace (with_cores k _) with (counted (gs_base k) vector k).
  2: { unfold counted. by rewrite Ec, En. }
  rewrite (chain_loop_ok _ _ _ _ _ _ _ c); [done|done|by cbn [irq_kern]; rewrite counted_chain|done|destruct Hok; lia|].
  destruct Hok. unfold MAX_HANDLERS_PER_VECTOR in *. lia.
Qed.

End Chains.

Section Install.
Context {W : Type}.
Implicit Types k : kernel W.

(** A handler is appended to the chain of its vector; a fifth one panics. *)
Lemma irq_install_ok core vector h k a c : kernel_chains_ok k → 0 <= core →
  cpu_blocks k !! Z.to_nat core = Some a → a ≠ 0 → chain_of k a vector = Some c →
  if decide (Z.of_nat (length (installed c)) < MAX_HANDLERS_PER_VECTOR) then
    ∃ k' c', irq_install_handler core vector h k = Ok k' ∧ chain_of k' a vector = Some c' ∧ installed c' = installed c ++ [h] ∧
      (∀ a' v', a' ≠ a ∨ Z.to_nat v' ≠ Z.to_nat vector → chain_of k' a' v' = chain_of k a' v') ∧ kernel_chains_ok k' ∧ cpu_blocks k' = cpu_blocks k
  else irq_install_handler core vector h k = Panic "IRQ" "too many handlers sharing vector".
Proof.
  intros Hok Hcore Ea Hne Ec. pose proof (Hok _ _ _ Ec) as [Hl Hc]. unfold MAX_HANDLERS_PER_VECTOR in *.
  assert (length (installed c) = Z.to_nat (count c)) as -> by (unfold installed; rewrite length_take; lia).
  unfold irq_install_handler. pose proof (lookup_lt_Some _ _ _ Ea). rewrite Z.geb_leb. settle_z.
  rewrite Ea. cbn [of_option mbind result_bind]. rewrite (proj2 (Z.eqb_neq a 0)) by done.
  unfold chain_of in Ec. unfold core_at. destruct (cores k !! a) as [ci|] eqn:Eci; [|done]. cbn [mbind option_bind] in Ec.
  cbn [of_option mbind result_bind]. rewrite Ec. cbn [of_option mbind result_bind]. unfold MAX_HANDLERS_PER_VECTOR.
  destruct (Z.ltb_spec (count c) 4); [|rewrite decide_False by lia; done]. rewrite decide_True by lia.
  destruct (lookup_lt_is_Some_2 (handlers c) (Z.to_nat (count c))) as [h0 Eh]; [lia|]. rewrite Eh. cbn [of_option mbind result_bind mret result_ret].
  set (c' := mkChain _ _). eexists _, c'.
  assert (Z.to_nat vector < length (routines ci))%nat as Hv by by eapply lookup_lt_Some.
  assert (installed c' = installed c ++ [h]) as Ei.
  { unfold installed, c'. cbn [count handlers]. rewrite u8_id by lia. replace (Z.to_nat (count c + 1)) with (S (Z.to_nat (count c))) by lia.
    erewrite take_S_r by (apply list_lookup_insert_eq; lia). by rewrite take_insert_ge by lia. }
  split; [done|]. set (k' := with_cores k _).
  assert (∀ a' v', chain_of k' a' v' = if decide (a' = a ∧ Z.to_nat v' = Z.to_nat vector) then Some c' else chain_of k a' v') as Hch.
  { intros a' v'. unfold chain_of, k'. cbn [cores with_cores]. destruct (decide (a' = a)) as [->|Ha].
    - rewrite lookup_insert_eq, Eci. cbn [mbind option_bind routines with_routines]. destruct (decide (Z.to_nat v' = Z.to_nat vector)) as [->|Hv'].
      + rewrite decide_True by done. by apply list_lookup_insert_eq.
      + rewrite decide_False by tauto. by apply list_lookup_insert_ne.
    - rewrite lookup_insert_ne by done. by rewrite decide_False by tauto. }
  assert (cpu_blocks k' = cpu_blocks k) as Hb by done.
  clearbody k'. split_and!; [by rewrite Hch, decide_True|done|intros a' v' Hd; rewrite Hch, decide_False; [done|naive_solver]| |done].
  intros a' v' d. rewrite Hch. case_decide; [|by apply Hok]. intros [= <-]. split; cbn [c' handlers count]; rewrite ?length_insert, ?u8_id; unfold MAX_HANDLERS_PER_VECTOR; lia.
Qed.

(** Several registrations for a vector. *)
Fixpoint install_all (core vector : Z) (hs : list Z) k : result (kernel W) :=
  match hs with
  | [] => mret k
  | h :: hs => k ← irq_install_handler core vector h k; install_all core vector hs k
  end.

Lemma install_all_ok core vector hs k a c : kernel_chains_ok k → 0 <= core →
  cpu_blocks k !! Z.to_nat core = Some a → a ≠ 0 → chain_of k a vector = Some c →
  Z.of_nat (length (installed c ++ hs)) <= MAX_HANDLERS_PER_VECTOR →
  ∃ k' c', install_all core vector hs k = Ok k' ∧ chain_of k' a vector = Some c' ∧ installed c' = installed c ++ hs ∧
    (∀ a' v', a' ≠ a ∨ Z.to_nat v' ≠ Z.to_nat vector → chain_of k' a' v' = chain_of k a' v') ∧ kernel_chains_ok k' ∧ cpu_blocks k' = cpu_blocks k.
Proof.
  intros Hok Hcore Ea Hne. revert k c Hok Ea. induction hs as [|h hs IH]; intros k c Hok Ea Ec Hl; cbn [install_all].
  { exists k, c. by rewrite app_nil_r. }
  rewrite length_app in Hl. cbn [length] in Hl. pose proof (irq_install_ok core vector h k a c Hok Hcore Ea Hne Ec) as H.
  rewrite decide_True in H by lia. destruct H as (k1&c1&->&Ec1&Ei&Hoth&Hok1&Hb). cbn [mbind result_bind].
  destruct (IH k1 c1 Hok1) as (k2&c2&->&Ec2&Ei2&Hoth2&Hok2&Hb2); [by rewrite Hb|done|rewrite Ei, !length_app; cbn [length]; lia|].
  exists k2, c2. rewrite Ei2, Ei, <- app_assoc. split_and!; try done; [|congruence]. intros a' v' Hd. by rewrite Hoth2, Hoth.
Qed.

Lemma irq_install_invalid core vector h k : 0 <= core →
  (cpu_blocks k !! Z.to_nat core = None ∨ cpu_blocks k !! Z.to_nat core = Some 0) →
  irq_install_handler core vector h k = Panic "IRQ" "Attempted to install handler on uninitialized or invalid CPU".
Proof.
  intros Hcore H. unfold irq_install_handler. rewrite Z.geb_leb. destruct (Z.leb_spec (Z.of_nat (length (cpu_blocks k))) core); [done|].
  destruct H as [H%lookup_ge_None|H]; [lia|]. by rewrite H.
Qed.

End Install.

(** * The descriptor table *)

(** The gate of a handler. *)
Definition gate_for (h : Z) : idt_entry :=
  if h =? 0 then mkGate 0 0 0 0 0 0 0 else mkGate (Z.land h 0xFFFF) 0x08 0 0x8E (Z.land (Z.shiftr h 16) 0xFFFF) (u32 (Z.shiftr h 32)) 0.

Lemma field_testbit h k w i : 0 <= k → 0 <= w → 0 <= i →
  Z.testbit (Z.shiftl (Z.land (Z.shiftr h k) (Z.ones w)) k) i = (k <=? i) && (i <? k + w) && Z.testbit h i.
Proof.
  intros Hk Hw Hi. rewrite Z.shiftl_spec by done. destruct (Z.leb_spec k i); [|by rewrite Z.testbit_neg_r by lia].
  rewrite Z.land_spec, Z.shiftr_spec, Z.testbit_ones_nonneg by lia. replace (i - k + k) with i by lia.
  destruct (Z.ltb_spec (i - k) w), (Z.ltb_spec i (k + w)); try lia; by destruct (Z.testbit h i).
Qed.

Lemma gate_for_offset h : 0 <= h < 2 ^ 64 → gate_offset (gate_for h) = h.
Proof.
  intros Hh. unfold gate_for. destruct (Z.eqb_spec h 0) as [->|Hne]; [done|]. unfold gate_offset. cbn [offset_low offset_mid offset_high].
  unfold u32. rewrite <- (Z.land_ones _ 32) by lia. change 0xFFFF with (Z.ones 16). apply Z.bits_inj'. intros i Hi.
  rewrite <- (Z.shiftr_0_r h) at 1. rewrite <- (Z.shiftl_0_r (Z.land _ _)) at 1.
  rewrite !Z.lor_spec, !field_testbit by lia. destruct (Z.lt_ge_cases i 64); [|by rewrite (testbit_high 64 h i), !andb_false_r].
  repeat case_z; destruct (Z.testbit h i); done || lia.
Qed.

Lemma idt_loop_ok n i address idt j : (i + n <= length idt)%nat →
  idt_loop n i address idt !! j =
    if decide (i <= j < i + n)%nat then Some (gate_for (address (interrupt_handlers (Z.of_nat j)))) else idt !! j.
Proof.
  revert i idt. induction n as [|n IH]; intros i idt Hl; cbn [idt_loop]; [by rewrite decide_False by lia|].
  assert ((if address (interrupt_handlers (Z.of_nat i)) =? 0 then <[i:=mkGate 0 0 0 0 0 0 0]> idt
    else idt_set_gate i (address (interrupt_handlers (Z.of_nat i))) 8 142 idt) = <[i := gate_for (address (interrupt_handlers (Z.of_nat i)))]> idt) as ->.
  { unfold gate_for, idt_set_gate. by destruct (_ =? 0). }
  rewrite IH by (rewrite length_insert; lia). destruct (decide (j = i)) as [->|Hne].
  - rewrite decide_False, decide_True by lia. apply list_lookup_insert_eq. lia.
  - rewrite list_lookup_insert_ne by done. by repeat case_decide; try lia.
Qed.

Lemma idt_loop_length n i address idt : length (idt_loop n i address idt) = length idt.
Proof.
  revert i idt. induction n as [|n IH]; intros i idt; cbn [idt_loop]; [done|]. rewrite IH. unfold idt_set_gate. by destruct (_ =? 0); rewrite length_insert.
Qed.
