(* ===== verification/IrqApi.v ===== *)
(** What interrupts and exceptions do as a whole (src/cpu/IDT.c): from the
    delivery through the descriptor table that [idt_init] fills to the resumed
    frame, and from the delivery of an exception to what the devices print. *)

From S2P Require Import Prelude Stdio Registry Irq IrqSpec.

(** * Exceptions: entry *)

Section Exceptions.
Context {K : Type}.
Implicit Types m : machine K.

(** What an exception shows of the machine it interrupted. *)
Definition exception_frame (n err : Z) m : tf_field → Z := λ fld,
  match fld with
  | FSpecial s => if decide (s ∈ [CR2; CR3; CR4]) then special m s else u16 (special m s)
  | FReg r => gpr m r
  | FErr => if bool_decide (n ∈ error_code_vectors) then err else 0
  | FRip => rip m
  | FCs => cs m
  | FRflags => rflags m
  | FRsp => gpr m RSP
  | FSs => ss m
  end.

Variable call : Z → machine K → result (machine K).

(** RAX holds a segment selector or zero. *)
Definition rax16 m : Prop := Z.land (gpr m RAX) (not64 0xFFFF) = 0.

Lemma rax16_u16 v : Z.land (u16 v) (not64 0xFFFF) = 0.
Proof.
  apply Z.bits_inj'. intros i Hi. unfold u16. rewrite <- Z.land_ones, !Z.land_spec, Z.bits_0, Z.testbit_ones_nonneg by lia.
  destruct (Z.ltb_spec i 16); [|by rewrite andb_false_r].
  rewrite not64_testbit by lia. change 0xFFFF with (Z.ones 16). rewrite Z.testbit_ones_nonneg by lia. settle_z. by rewrite andb_false_r.
Qed.

(** A special register through RAX, and the rest. *)
Lemma special_push i v l m : exec_instr call i m = Ok (set_reg RAX v m) → room 1 m →
  ∃ m', exec call (i :: Pushq RAX :: l) m = exec call l m' ∧ pushed [RAX] [v] m m' ∧ gpr m' RAX = v.
Proof.
  intros E Hr. set (m1 := set_reg RAX v m). assert (room 1 m1) as Hr1 by by destruct Hr.
  destruct (push_word_ok [] v m1 Hr1) as (m2&E2&H2). exists m2. cbn [exec exec_instr]. rewrite E. cbn [mbind result_bind]. fold m1.
  assert (gpr m1 RAX = v) as -> by apply gpr_same. rewrite E2. split_and!; [done| |].
  - eapply (pushed_set _ RAX v); [by apply list_elem_of_singleton|done|]. by eapply pushed_mono; [apply list_subseteq_nil|].
  - rewrite (pu_gpr _ _ _ _ H2) by (done || apply not_elem_of_nil). apply gpr_same.
Qed.

Lemma segs_ok ss l m : rax16 m → room (Z.of_nat (length ss)) m →
  ∃ m', exec call ((s ← ss; [MovSeg s; Pushq RAX]) ++ l) m = exec call l m' ∧ pushed [RAX] ((λ s, u16 (special m s)) <$> ss) m m'.
Proof.
  revert m. induction ss as [|s ss IH]; intros m H0 Hr; [by exists m; split; [|apply pushed_nil]|]. cbn [length] in Hr.
  change ((s ← s :: ss; [MovSeg s; Pushq RAX]) ++ l) with (MovSeg s :: Pushq RAX :: ((s ← ss; [MovSeg s; Pushq RAX]) ++ l)).
  destruct (special_push (MovSeg s) (u16 (special m s)) ((s ← ss; [MovSeg s; Pushq RAX]) ++ l) m) as (m1&->&H1&G1).
  { cbn [exec_instr]. by rewrite H0. } { eapply room_lo; [exact Hr|lia]. }
  destruct (IH m1) as (m2&->&H2); [by unfold rax16; rewrite G1; apply rax16_u16|eapply room_pushed; [done| |lia]; eapply room_lo; [exact Hr|cbn [length]; lia]|].
  exists m2. split; [done|]. rewrite (proj1 (pu_rest _ _ _ _ H1)) in H2. by apply (pushed_app _ [_] _ _ _ _ H1).
Qed.

Lemma crs_ok ss l m : room (Z.of_nat (length ss)) m →
  ∃ m', exec call ((s ← ss; [MovCr s; Pushq RAX]) ++ l) m = exec call l m' ∧ pushed [RAX] (special m <$> ss) m m'.
Proof.
  revert m. induction ss as [|s ss IH]; intros m Hr; [by exists m; split; [|apply pushed_nil]|]. cbn [length] in Hr.
  change ((s ← s :: ss; [MovCr s; Pushq RAX]) ++ l) with (MovCr s :: Pushq RAX :: ((s ← ss; [MovCr s; Pushq RAX]) ++ l)).
  destruct (special_push (MovCr s) (special m s) ((s ← ss; [MovCr s; Pushq RAX]) ++ l) m) as (m1&->&H1&G1); [done|eapply room_lo; [exact Hr|lia]|].
  destruct (IH m1) as (m2&->&H2); [eapply room_pushed; [done| |lia]; eapply room_lo; [exact Hr|cbn [length]; lia]|].
  exists m2. split; [done|]. rewrite (proj1 (pu_rest _ _ _ _ H1)) in H2. by apply (pushed_app _ [_] _ _ _ _ H1).
Qed.

Lemma exception_stub_parts has_err name : exception_stub has_err name =
  ((if has_err then [] else [PushImm 0]) ++ push_regs) ++ XorRax ::
  (s ← [GS; FS; ES; DS]; [MovSeg s; Pushq RAX]) ++ (s ← [CR4; CR3; CR2]; [MovCr s; Pushq RAX]) ++
  [Movq RSP RDI; MovImm name RSI; AndRsp (not64 15)].
Proof. by destruct has_err. Qed.

(** The table of the stubs agrees with the processor. *)
Lemma exceptions_err n nm has_err : 0 <= n → exceptions !! Z.to_nat n = Some (nm, has_err) → has_err = bool_decide (n ∈ error_code_vectors).
Proof.
  intros Hn E. assert (forallb (λ i, match exceptions !! i with Some (_, b) => Bool.eqb b (bool_decide (Z.of_nat i ∈ error_code_vectors)) | None => true end) (seq 0 32) = true) as H by by vm_compute.
  rewrite forallb_forall in H. specialize (H (Z.to_nat n)). rewrite E, Z2Nat.id in H by done. apply eqb_prop, H, in_seq.
  apply lookup_lt_Some in E. change (length exceptions) with 32%nat in E. lia.
Qed.

(** What is pushed for an exception. *)
Definition exception_words n err m : list Z :=
  [ss m; gpr m RSP; rflags m; cs m; rip m; exception_frame n err m FErr] ++ (gpr m <$> [RAX; RBX; RCX; RDX; RSI; RDI; RBP; R8; R9; R10; R11; R12; R13; R14; R15]).

Lemma exception_regs_ok idt n err nm (has_err : bool) m g : idt !! Z.to_nat n = Some g → gate_present g = true → 0 <= n →
  exceptions !! Z.to_nat n = Some (nm, has_err) → 0 <= gpr m RSP < 2 ^ 64 → room 28 (aligned m) →
  ∃ m1 m2, deliver idt n err m = Ok m1 ∧ exec call ((if has_err then [] else [PushImm 0]) ++ push_regs) m1 = Ok m2 ∧
    pushed [] (exception_words n err m) (aligned m) m2.
Proof.
  intros Eg Hg Hn En Hsp Hr. apply exceptions_err in En; [|done].
  assert (Z.of_nat (length (delivered m n err)) <= 6) as Hlen by (unfold delivered; by case_bool_decide).
  destruct (deliver_ok idt n err m g) as (m1&E1&H1&_); try done; [eapply room_lo; [exact Hr|lia]|].
  assert (∀ r, r ≠ RSP → gpr m1 r = gpr m r) as G1.
  { intros r Hr'. rewrite (pu_gpr _ _ _ _ H1) by (done || apply not_elem_of_nil). unfold aligned. by rewrite gpr_other. }
  destruct (pushes_ok call [] ((if has_err then [] else [PushImm 0]) ++ push_regs)
    ((if has_err then [] else [0]) ++ (gpr m <$> [RAX; RBX; RCX; RDX; RSI; RDI; RBP; R8; R9; R10; R11; R12; R13; R14; R15])) m m1) as (m2&E2&H2); [|done| |].
  { unfold push_regs. apply Forall2_app; [destruct has_err; repeat constructor|]. cbn [fmap list_fmap].
    repeat (constructor; [intros m' Hm; cbn [exec_instr]; by rewrite Hm by done|]). constructor. }
  { eapply room_pushed; [done| |lia]. eapply room_lo; [done|]. rewrite length_app, length_fmap. destruct has_err; cbn [length]; lia. }
  exists m1, m2. split_and!; [done|done|]. pose proof (pushed_app _ _ _ _ _ _ H1 H2) as H. revert H.
  unfold delivered, exception_words, exception_frame. subst has_err. by case_bool_decide.
Qed.

End Exceptions.

Lemma exception_enter_ok {K} idt name n err nm (has_err : bool) (m : machine K) g : idt !! Z.to_nat n = Some g → gate_present g = true → 0 <= n →
  exceptions !! Z.to_nat n = Some (nm, has_err) → 0 <= gpr m RSP < 2 ^ 64 → room 28 (aligned m) →
  let f := align16 (gpr m RSP) - 224 in
  ∃ m', take_exception idt name n err m = Ok m' ∧ gpr m' RDI = f ∧ gpr m' RSI = name ∧ gpr m' RSP = f ∧
    frame_at (stack m') f (exception_frame n err m) ∧ (∀ a, align16 (gpr m RSP) <= a → stack m' !! a = stack m !! a).
Proof.
  intros Eg Hg Hn En Hsp Hr f. destruct (exception_regs_ok (λ _ _, Fault) idt n err nm has_err m g) as (m1&m2&E1&E2&H2); try done.
  unfold take_exception. rewrite E1, En. cbn [of_option mbind result_bind]. rewrite exception_stub_parts, (exec_app_ok _ _ _ _ _ E2).
  set (m2' := set_reg RAX 0 m2). change (exec _ (XorRax :: ?l) m2) with (exec (λ _ _, @Fault (machine K)) l m2').
  assert (room 7 m2) as Hr2 by by eapply room_pushed.
  assert (room 7 m2') as Hr2' by by destruct Hr2.
  destruct (segs_ok (λ _ _, Fault) [GS; FS; ES; DS] ((s ← [CR4; CR3; CR2]; [MovCr s; Pushq RAX]) ++ [Movq RSP RDI; MovImm name RSI; AndRsp (not64 15)]) m2') as (m3&->&H3); [by unfold rax16, m2'; rewrite gpr_same|by eapply room_lo|].
  destruct (crs_ok (λ _ _, Fault) [CR4; CR3; CR2] [Movq RSP RDI; MovImm name RSI; AndRsp (not64 15)] m3) as (m4&->&H4); [by eapply room_pushed|].
  apply pushed_set in H3; [|by apply list_elem_of_singleton|done]. apply (pushed_mono _ [RAX]) in H2; [|apply list_subseteq_nil].
  pose proof (pushed_app _ _ _ _ _ _ (pushed_app _ _ _ _ _ _ H2 H3) H4) as H.
  assert (gpr (aligned m) RSP = align16 (gpr m RSP)) as Ea by apply gpr_same.
  pose proof (pu_rsp _ _ _ _ H) as R. rewrite Ea in R. change (gpr m4 RSP = f) in R.
  pose proof (pushed_words _ _ _ _ H) as Hw. rewrite R in Hw.
  assert (special m2' = special m ∧ special m3 = special m) as [Sp2 Sp3].
  { pose proof (proj1 (pu_rest _ _ _ _ H2)) as A. pose proof (proj1 (pu_rest _ _ _ _ H3)) as B. by rewrite B. }
  rewrite Sp2, Sp3 in Hw. cbn [exec exec_instr mbind result_bind mret result_ret]. eexists. split; [done|].
  destruct Hr as [_ Hb]. rewrite Ea in Hb. pose proof (align16_bound (gpr m RSP) ltac:(lia)) as [_ Hd].
  assert (16 | f) as Hf by (apply Z.divide_sub_r; [done|by exists 14]).
  split_and!.
  - by rewrite !gpr_other, gpr_same, R by done.
  - by rewrite gpr_other, gpr_same by done.
  - rewrite gpr_same, !gpr_other, R by done. rewrite land_align16 by (unfold f; lia). by apply align16_id.
  - done.
  - intros a Ha. by apply (pu_above _ _ _ _ H); rewrite Ea.
Qed.

(** * The report of an exception *)

(** The label of a field in the report, three columns wide. *)
Definition reg_label (r : reg) : string :=
  match r with
  | R15 => "R15" | R8 => "R8 " | R14 => "R14" | R9 => "R9 " | R13 => "R13" | R10 => "R10" | R12 => "R12" | R11 => "R11"
  | RSP => "RSP" | RAX => "RAX" | RBP => "RBP" | RBX => "RBX" | RDI => "RDI" | RCX => "RCX" | RSI => "RSI" | RDX => "RDX"
  end%string.
Definition label_of (fld : tf_field) : string :=
  match fld with
  | FSpecial CR2 => "CR2" | FSpecial CR3 => "CR3" | FSpecial CR4 => "CR4" | FSpecial DS => "DS " | FSpecial ES => "ES "
  | FSpecial FS => "FS " | FSpecial GS => "GS " | FReg r => reg_label r
  | FErr => "ERR" | FRip => "RIP" | FCs => "CS " | FRflags => "FLG" | FRsp => "RSP" | FSs => "SS "
  end%string.

Lemma labels_of_fields : labels = label_of <$> trap_frame.
Proof. done. Qed.

(** The last [n] hexadecimal digits of a number. *)
Fixpoint hex_digits (n : nat) (v : Z) : list Z :=
  match n with
  | O => []
  | S n => hex_digits n (v / 16) ++ [default 0 (digits_upper !! Z.to_nat (v mod 16))]
  end.

Definition report_line (fld : tf_field) (v : Z) : list Z :=
  bytes_of (label_of fld) ++ bytes_of ": 0x" ++ hex_digits 16 v ++ [10].

Definition exception_report (description : string) (fr : tf_field → Z) : list Z :=
  10 :: bytes_of "*** CPU EXCEPTION: " ++ bytes_of description ++ bytes_of " ***" ++ 10 :: (fld ← trap_frame; report_line fld (fr fld)).

(** A string without NUL characters. *)
Definition printable (s : list Z) : Prop := Forall (λ c, c ≠ 0) s.

Lemma dev_puts_ok s r : printable s → dev_puts (s ++ 0 :: r) = Ok s.
Proof.
  induction 1 as [|c s Hc _ IH]; [done|]. cbn [app dev_puts]. rewrite (proj2 (Z.eqb_neq c 0)) by done. by rewrite IH.
Qed.

Lemma printable_string s : bool_decide (printable (bytes_of s)) = true → dev_puts (literal s) = Ok (bytes_of s).
Proof. intros H%bool_decide_eq_true. by apply dev_puts_ok. Qed.

Lemma digit_ok v : 0 <= v < 16 → ∃ c, digits_upper !! Z.to_nat v = Some c ∧ c ≠ 0.
Proof.
  intros Hv. assert (Z.to_nat v < 16)%nat as Hn by lia. revert Hn. generalize (Z.to_nat v) as n.
  intros n Hn. do 16 (destruct n as [|n]; [by eexists|]). lia.
Qed.

Lemma hex_digits_printable n v : printable (hex_digits n v) ∧ length (hex_digits n v) = n.
Proof.
  revert v. induction n as [|n IH]; intros v; cbn [hex_digits]; [split; [constructor|done]|].
  destruct (IH (v / 16)) as [Hp Hl]. destruct (digit_ok (v mod 16)) as (c&->&Hc); [by apply Z.mod_pos_bound|].
  rewrite length_app, Hl. cbn [default length]. split; [|lia]. apply Forall_app. split; [done|]. by repeat constructor.
Qed.

Lemma ptrthex_loop_ok n buf v : (n <= length buf)%nat → ptrthex_loop n buf v = Ok (hex_digits n v ++ drop n buf).
Proof.
  revert buf v. induction n as [|n IH]; intros buf v Hl; cbn [ptrthex_loop hex_digits]; [done|].
  replace (Z.land v 0xF) with (v mod 16) by (symmetry; apply (Z.land_ones v 4); lia).
  destruct (digit_ok (v mod 16)) as (c&->&_); [by apply Z.mod_pos_bound|]. cbn [of_option mbind result_bind default].
  unfold store_bytes. cbn [length]. settle_z. cbn [andb mbind result_bind]. rewrite Nat2Z.id, Z.shiftr_div_pow2 by lia. change (2 ^ 4) with 16.
  rewrite IH by (rewrite length_app, length_take; cbn [app length]; lia).
  rewrite drop_app_ge by (rewrite length_take; lia). rewrite length_take, Nat.min_l, Nat.sub_diag by lia.
  cbn [drop app]. rewrite <- app_assoc. cbn [app]. by replace (n + 1)%nat with (S n) by lia.
Qed.

Lemma ptrthex_ok buf v : (17 <= length buf)%nat →
  ∃ r, ptrthex buf v = Ok (hex_digits 16 v ++ 0 :: r) ∧ length (hex_digits 16 v ++ 0 :: r) = length buf.
Proof.
  intros Hl. unfold ptrthex. rewrite ptrthex_loop_ok by lia. cbn [mbind result_bind]. pose proof (proj2 (hex_digits_printable 16 v)) as H16.
  unfold store_bytes. cbn [length]. rewrite length_app, H16, length_drop. settle_z. cbn [andb]. change (Z.to_nat 16) with 16%nat.
  rewrite take_app_length' by done. exists (drop 17 buf). rewrite drop_app_ge, H16, drop_drop by lia. split; [done|].
  rewrite length_app, H16. cbn [length]. rewrite length_drop. lia.
Qed.

Lemma dump_loop_ok flds j tf words buf fr : (17 <= length buf)%nat →
  words_at words (tf + 8 * j) (fr <$> flds) →
  ∃ buf', dump_loop (label_of <$> flds) j tf words buf = Ok (fld ← flds; report_line fld (fr fld), buf') ∧ length buf' = length buf.
Proof.
  revert j buf. induction flds as [|fld flds IH]; intros j buf Hl Hw; [by exists buf|]. cbn [fmap list_fmap dump_loop].
  rewrite (printable_string (label_of fld)) by by destruct fld as [[]|[]| | | | | |]. cbn [mbind result_bind]. rewrite (printable_string ": 0x") by done. cbn [mbind result_bind].
  pose proof (Hw 0%nat _ eq_refl) as E. replace (tf + 8 * j + 8 * Z.of_nat 0) with (tf + j * 8) in E by lia. rewrite E. cbn [of_option mbind result_bind].
  destruct (ptrthex_ok buf (fr fld)) as (r&->&Hr); [done|]. cbn [mbind result_bind].
  rewrite dev_puts_ok by apply hex_digits_printable. cbn [mbind result_bind].
  destruct (IH (j + 1) (hex_digits 16 (fr fld) ++ 0 :: r)) as (buf'&->&Hb); [lia| |].
  { intros k w Hk. replace (tf + 8 * (j + 1) + 8 * Z.of_nat k) with (tf + 8 * j + 8 * Z.of_nat (S k)) by lia. by apply Hw. }
  exists buf'. split; [|lia]. cbn [mbind result_bind mret result_ret list_bind]. unfold report_line. by rewrite <- !app_assoc.
Qed.

Lemma dump_ok description tf words buf fr : (17 <= length buf)%nat → frame_at words tf fr →
  dev_puts (literal description) = Ok (bytes_of description) →
  ∃ buf', dump description tf words buf = Ok (exception_report description fr, buf') ∧ length buf' = length buf.
Proof.
  intros Hl Hf Hd. unfold dump. rewrite Hd, labels_of_fields.
  change (10 :: literal "*** CPU EXCEPTION: ") with ((10 :: bytes_of "*** CPU EXCEPTION: ") ++ [0]).
  change (bytes_of " ***" ++ [10; 0]) with ((bytes_of " ***" ++ [10]) ++ [0]).
  rewrite !dev_puts_ok by by apply (bool_decide_unpack _). cbn [mbind result_bind].
  destruct (dump_loop_ok trap_frame 0 tf words buf fr Hl) as (buf'&->&Hb); [by rewrite Z.mul_0_r, Z.add_0_r|].
  exists buf'. split; [|done]. cbn [mbind result_bind mret result_ret]. unfold exception_report. by rewrite <- !app_assoc.
Qed.

(** The devices that report an exception, in the order they were registered. *)
Definition error_devices (caps : gmap Z Z) (l : list (device_type_t * Z)) : list Z :=
  snd <$> filter (λ d, d.1 = CHAR_DEV ∧ Z.land (default 0 (caps !! d.2)) CHAR_IS_ERROR_HANDLER = CHAR_IS_ERROR_HANDLER) l.

Lemma report_loop_ok n i description tf words caps buf s l fr : registry_ok s l → (17 <= length buf)%nat → frame_at words tf fr →
  dev_puts (literal description) = Ok (bytes_of description) → (∀ p, (CHAR_DEV, p) ∈ l → is_Some (caps !! p)) → (i + n = length l)%nat →
  report_loop n (Z.of_nat i) description tf words caps buf s =
    Ok ((λ p, (p, exception_report description fr)) <$> error_devices caps (drop i l)).
Proof.
  intros Hreg Hl Hf Hd Hcap. revert i buf Hl. induction n as [|n IH]; intros i buf Hl Hn; cbn [report_loop]; [by rewrite drop_ge by lia|].
  destruct (registry_ok_entry s l (Z.of_nat i) Hreg ltac:(lia)) as (ty&p&E&->). rewrite Nat2Z.id in E.
  cbn [mbind result_bind type dev_ptr]. replace (Z.of_nat i + 1) with (Z.of_nat (S i)) by lia. rewrite (drop_S _ _ _ E).
  unfold error_devices. cbn [filter list_filter fst snd]. destruct (decide (ty = CHAR_DEV)) as [->|Hne].
  - destruct (Hcap p) as [cap Ecap]; [by eapply list_elem_of_lookup_2|]. rewrite Ecap. cbn [of_option mbind result_bind default].
    destruct (Z.eqb_spec (Z.land cap CHAR_IS_ERROR_HANDLER) CHAR_IS_ERROR_HANDLER) as [Hc|Hc].
    + rewrite decide_True by done. destruct (dump_ok description tf words buf fr Hl Hf Hd) as (buf'&->&Hb). cbn [mbind result_bind].
      rewrite IH by lia. done.
    + rewrite decide_False by tauto. rewrite IH by lia. done.
  - rewrite decide_False by tauto. rewrite IH by lia. done.
Qed.

(** * The descriptor table *)

#[local] Opaque idt_loop.

(** The linker puts every handler somewhere. *)
Definition handlers_placed (address : handler → Z) : Prop := ∀ h, 0 < address h < 2 ^ 64.

Lemma idt_gate address base idt0 n : length idt0 = 256%nat → handlers_placed address → 0 <= n < 256 →
  ∃ g, (idt_init address base idt0).1 !! Z.to_nat n = Some g ∧ gate_offset g = address (interrupt_handlers n) ∧
    selector g = 0x08 ∧ type_attr g = 0x8E ∧ ist g = 0.
Proof.
  intros Hl Ha Hn. unfold idt_init. cbn [fst]. rewrite idt_loop_ok by lia. rewrite decide_True by lia. rewrite Z2Nat.id by lia.
  eexists. split; [done|]. specialize (Ha (interrupt_handlers n)). rewrite gate_for_offset by lia. split; [done|].
  unfold gate_for. by rewrite (proj2 (Z.eqb_neq _ 0)) by lia.
Qed.

(** Every vector gets a present interrupt gate of the kernel's code segment to
    its handler, and the processor gets the whole table. *)
Theorem idt_init_correct address base idt0 : length idt0 = 256%nat → handlers_placed address →
  ∃ idt, idt_init address base idt0 = (idt, (4095, base)) ∧ length idt = 256%nat ∧
  (∀ n, 0 <= n < 256 → ∃ g, idt !! Z.to_nat n = Some g ∧ gate_present g = true ∧ gate_offset g = address (interrupt_handlers n) ∧
    selector g = 0x08 ∧ type_attr g = 0x8E).
Proof.
  intros Hl Ha. exists (idt_init address base idt0).1. split; [unfold idt_init; by rewrite Hl|]. split; [unfold idt_init; cbn [fst]; by rewrite idt_loop_length|].
  intros n Hn. destruct (idt_gate address base idt0 n Hl Ha Hn) as (g&E&?&?&Ht&_). exists g. split; [exact E|]. clear E.
  unfold gate_present. by rewrite Ht.
Qed.

(** * Interrupts *)

Section Interrupts.
Context {W : Type}.
Variable handle : Z → Z → @irq_state W → result (Z * @irq_state W).
Variable scratch : reg → Z.
Variable function_at : Z → option irq_target.

(** The frame of an interrupt of [m]. *)
Definition frame_of (m : machine (kernel W)) : Z := align16 (gpr m RSP) - 224.

(** What the stub needs: a stack with room for the frame and the call, a
    register for its operand that it does not use itself, and a core whose
    chains are in order. *)
Record irq_ready (address : handler → Z) (idt0 : list idt_entry) (operand : reg) (target n : Z) (m : machine (kernel W)) : Prop := {
  ir_idt : length idt0 = 256%nat;
  ir_placed : handlers_placed address;
  ir_vector : 32 <= n < 255;
  ir_target : function_at target = Some IrqDispatch;
  ir_operand : operand ∉ [RDI; RBP; RSP];
  ir_rsp : 0 <= gpr m RSP < 2 ^ 64;
  ir_room : room 30 (aligned m);
  ir_core : ∃ ci, cores (kern m) !! gs_base (kern m) = Some ci ∧ length (irq_stats ci) = 256%nat;
  ir_keep : handlers_keep handle (gs_base (kern m)) n
}.

(** The words of the stack when the handlers run. *)
Record entered (operand : reg) (target n : Z) (m : machine (kernel W)) (words : gmap Z Z) : Prop := {
  en_frame : frame_at words (frame_of m) (interrupted operand target n m);
  en_above a : align16 (gpr m RSP) <= a → words !! a = stack m !! a
}.

Lemma take_irq_ok address base idt0 operand target n m c : irq_ready address idt0 operand target n m →
  chain_of (kern m) (gs_base (kern m)) n = Some c → chain_ok c →
  ∃ words, entered operand target n m words ∧
    ∀ ret s fr, run_handlers handle (installed c) (frame_of m) (frame_of m) (mkIrqState words (special m) (counted (gs_base (kern m)) n (kern m))) = Ok (ret, s) →
      frame_at (irq_words s) ret fr → 0 <= ret < 2 ^ 64 - 224 →
      ∃ m', take_irq (irq_call handle scratch function_at) (idt_init address base idt0).1 operand target n m = Ok m' ∧
        resumes fr m' ∧ stack m' = irq_words s ∧ kern m' = lapic_eoi (irq_kern s) ∧ special m' = irq_special s.
Proof.
  intros [Hl Ha Hn Ht Hop Hsp Hr (ci&Eci&Hst) Hkeep] Ec Hok.
  destruct (idt_gate address base idt0 n Hl Ha ltac:(lia)) as (g&Eg&_&_&Hty&_).
  assert (gate_present g = true) as Hg by (unfold gate_present; by rewrite Hty).
  assert (n ∉ error_code_vectors) as Hne by (unfold error_code_vectors; rewrite !not_elem_of_cons; split_and!; try lia; apply not_elem_of_nil).
  assert (operand ≠ RSP) as Hop' by (intros ->; apply Hop; by repeat constructor).
  pose proof Hr as [Hw Hb]. assert (gpr (aligned m) RSP = align16 (gpr m RSP)) as Ea by apply gpr_same. rewrite Ea in *.
  destruct (irq_enter_ok (irq_call handle scratch function_at) _ operand target n m g Eg Hg Hne Hop' Hsp) as (m1&m2&E1&E2&R2&G2&F2&A2&D2&S2&K2);
    [eapply room_lo; [exact Hr|lia]|].
  assert (16 | frame_of m) as Hal by (apply Z.divide_sub_r; [apply align16_bound; lia|by exists 14]).
  destruct (irq_call_seq_ok (irq_call handle scratch function_at) operand target (frame_of m) m2 Hop G2 R2 Hal) as (mc&Rdi&Rsp&Sc&Kc&Pc&Ecall);
    [unfold frame_of; lia| |].
  { apply D2. replace (frame_of m - 16) with (align16 (gpr m RSP) - 8 * 30) by (unfold frame_of; lia). apply Hw. lia. }
  exists (stack mc). split.
  { split; rewrite Sc.
    - intros j w Hj. rewrite lookup_insert_ne by lia. by apply F2.
    - intros a Ha'. rewrite lookup_insert_ne by (unfold frame_of; lia). by apply A2. }
  intros ret s fr Hrun Hfr Hret.
  assert (irq_dispatch handle (gpr mc RDI) (state_of mc) = Ok (ret, end_irq s)) as Hd.
  { assert (stack mc !! (frame_of m + ERROR_CODE) = Some n) as E22.
    { rewrite Sc, lookup_insert_ne by (unfold ERROR_CODE; lia). by apply (F2 22%nat). }
    unfold state_of. rewrite Rdi, Kc, K2, Pc, S2. rewrite (irq_dispatch_ok handle _ _ _ _ n c ci E22 Eci Ec Hok); [by rewrite Hrun|rewrite Hst; lia|exact Hkeep]. }
  unfold take_irq. rewrite E1. cbn [mbind result_bind]. rewrite irq_stub_parts, (exec_app_ok _ _ _ _ _ E2).
  set (mr := return_from scratch (Some ret) (end_irq s) mc).
  rewrite (exec_app_ok _ _ _ _ (set_reg RSP (frame_of m - 8) mr)).
  2: { rewrite Ecall. unfold irq_call. rewrite Ht, Hd. done. }
  assert (gpr (set_reg RSP (frame_of m - 8) mr) RAX = ret) as Eret by by rewrite gpr_other.
  destruct (irq_return_ok (irq_call handle scratch function_at) fr (set_reg RSP (frame_of m - 8) mr)) as (m'&E'&Hres&Es&Ek&Ep);
    [rewrite Eret; exact Hfr|rewrite Eret; exact Hret|].
  exists m'. split; [exact E'|]. split_and!; [done|by rewrite Es|by rewrite Ek|by rewrite Ep].
Qed.

(** A handler that returns NULL or the frame it got, and leaves the words of the
    frame and above it and the special registers alone. *)
Definition quiet (f h : Z) : Prop :=
  ∀ s, ∃ r s', handle h f s = Ok (r, s') ∧ (r = 0 ∨ r = f) ∧ irq_special s' = irq_special s ∧
    ∀ a, f <= a → irq_words s' !! a = irq_words s !! a.

Lemma run_quiet hs f s : Forall (quiet f) hs →
  ∃ s', run_handlers handle hs f f s = Ok (f, s') ∧ irq_special s' = irq_special s ∧
    ∀ a, f <= a → irq_words s' !! a = irq_words s !! a.
Proof.
  intros H. revert s. induction H as [|h hs Hq _ IH]; intros s; cbn [run_handlers]; [by exists s|].
  destruct (Hq s) as (r&s1&->&Hr&Hsp&Ha). cbn [mbind result_bind]. destruct (IH s1) as (s2&E2&Hsp2&Ha2).
  exists s2. split; [|split; [congruence|intros a Hl; by rewrite Ha2, Ha]]. destruct (Z.eqb_spec r 0), Hr; by subst.
Qed.

Lemma take_irq_quiet address base idt0 operand target n m c : irq_ready address idt0 operand target n m →
  chain_of (kern m) (gs_base (kern m)) n = Some c → chain_ok c → Forall (quiet (frame_of m)) (installed c) →
  ∃ m', take_irq (irq_call handle scratch function_at) (idt_init address base idt0).1 operand target n m = Ok m' ∧
    (∀ r, r ≠ operand → gpr m' r = gpr m r) ∧ gpr m' operand = target ∧
    rip m' = rip m ∧ cs m' = cs m ∧ rflags m' = rflags m ∧ ss m' = ss m ∧ special m' = special m ∧
    (∀ a, align16 (gpr m RSP) <= a → stack m' !! a = stack m !! a).
Proof.
  intros Hready Ec Hok Hq. destruct (take_irq_ok address base idt0 operand target n m c Hready Ec Hok) as (words&[Hf Ha]&Hrun).
  destruct (run_quiet _ _ (mkIrqState words (special m) (counted (gs_base (kern m)) n (kern m))) Hq) as (s&E&Hspe&Hs). destruct Hready as [_ _ _ _ Hop Hsp [_ Hb] _ _].
  assert (gpr (aligned m) RSP = align16 (gpr m RSP)) as Ea by apply gpr_same. rewrite Ea in Hb.
  pose proof (align16_bound (gpr m RSP) ltac:(lia)) as [Hal _]. assert (operand ≠ RSP) as Hne by (intros ->; apply Hop; by repeat constructor).
  assert (frame_at (irq_words s) (frame_of m) (interrupted operand target n m)) as Hfs.
  { intros j w Hj. rewrite Hs by lia. by apply Hf. }
  destruct (Hrun _ s _ E Hfs) as (m'&E'&[Hg Hr ? ? ? ?]&Es&_&Ep); [unfold frame_of; lia|].
  exists m'. split; [exact E'|]. clear E'. split_and!; try done; [..|by rewrite Ep|].
  - intros r Hro. destruct (decide (r = RSP)) as [->|Hrr]; [done|]. rewrite Hg by done. cbn. by rewrite decide_False.
  - rewrite Hg by done. cbn. by rewrite decide_True.
  - intros a Hla. rewrite Es, Hs by (unfold frame_of; lia). by apply Ha.
Qed.
End Interrupts.

(** * What the components promise *)

(** C15: an interrupt of a vector from 32 to 254, whose stub got its operand in
    none of RDI, RBP and RSP ([irq_ready]), runs the handlers of its vector in
    the order they were installed, each on the frame of the interrupted code,
    counts it and ends it once at the controller, and goes on in the state of
    the last frame that a handler returned, with the stack, the special
    registers and the kernel as the handlers left them. *)
Theorem irq_resumes_correct {W} (handle : Z → Z → @irq_state W → result (Z * @irq_state W)) scratch function_at address base idt0 operand target n m c :
  irq_ready handle function_at address idt0 operand target n m →
  chain_of (kern m) (gs_base (kern m)) n = Some c → chain_ok c →
  ∃ words, entered operand target n m words ∧
    ∀ ret s fr, run_handlers handle (installed c) (frame_of m) (frame_of m) (mkIrqState words (special m) (counted (gs_base (kern m)) n (kern m))) = Ok (ret, s) →
      frame_at (irq_words s) ret fr → 0 <= ret < 2 ^ 64 - 224 →
      ∃ m', take_irq (irq_call handle scratch function_at) (idt_init address base idt0).1 operand target n m = Ok m' ∧
        resumes fr m' ∧ stack m' = irq_words s ∧ kern m' = lapic_eoi (irq_kern s) ∧ special m' = irq_special s.
Proof. intros. by apply take_irq_ok. Qed.

(** C16: when the handlers leave the frame and the special registers alone, the
    interrupted code, at a vector and with an operand as in [irq_ready], goes on
    with its instruction pointer, flags, stack and every register but one: the
    operand of the stub's assembly is loaded before the registers are saved, so
    that register comes back as the address of the handler. *)
Theorem irq_transparent_but_operand {W} (handle : Z → Z → @irq_state W → result (Z * @irq_state W)) scratch function_at address base idt0 operand target n m c :
  irq_ready handle function_at address idt0 operand target n m →
  chain_of (kern m) (gs_base (kern m)) n = Some c → chain_ok c → Forall (quiet handle (frame_of m)) (installed c) →
  ∃ m', take_irq (irq_call handle scratch function_at) (idt_init address base idt0).1 operand target n m = Ok m' ∧
    (∀ r, r ≠ operand → gpr m' r = gpr m r) ∧ gpr m' operand = target ∧
    rip m' = rip m ∧ cs m' = cs m ∧ rflags m' = rflags m ∧ ss m' = ss m ∧ special m' = special m ∧
    (∀ a, align16 (gpr m RSP) <= a → stack m' !! a = stack m !! a).
Proof. intros. by eapply take_irq_quiet. Qed.

(** up to four handlers per vector of a core are kept in the order of their
    registration, other vectors and cores keep theirs, and a fifth panics. *)
Theorem irq_install_correct {W} core vector hs (k : kernel W) a c : kernel_chains_ok k → 0 <= core →
  cpu_blocks k !! Z.to_nat core = Some a → a ≠ 0 → chain_of k a vector = Some c →
  Z.of_nat (length (installed c ++ hs)) <= MAX_HANDLERS_PER_VECTOR →
  ∃ k' c', install_all core vector hs k = Ok k' ∧ chain_of k' a vector = Some c' ∧ installed c' = installed c ++ hs ∧
    (∀ a' v', a' ≠ a ∨ Z.to_nat v' ≠ Z.to_nat vector → chain_of k' a' v' = chain_of k a' v') ∧ kernel_chains_ok k' ∧
    (Z.of_nat (length (installed c')) = MAX_HANDLERS_PER_VECTOR → ∀ h, irq_install_handler core vector h k' = Panic "IRQ" "too many handlers sharing vector").
Proof.
  intros Hok Hcore Ea Hne Ec Hl. destruct (install_all_ok core vector hs k a c Hok Hcore Ea Hne Ec Hl) as (k'&c'&E&Ec'&Ei&Ho&Hok'&Hb).
  exists k', c'. split_and!; try done. intros Hfull h. rewrite <- Hb in Ea.
  pose proof (irq_install_ok core vector h k' a c' Hok' Hcore Ea Hne Ec') as H. rewrite decide_False in H by lia. exact H.
Qed.

Lemma exception_names n nm b : exceptions !! Z.to_nat n = Some (nm, b) → dev_puts (literal nm) = Ok (bytes_of nm).
Proof.
  intros E%list_elem_of_lookup_2. apply printable_string.
  assert (Forall (λ e, bool_decide (printable (bytes_of e.1)) = true) exceptions) as H by by repeat constructor.
  rewrite Forall_forall in H. by apply (H (nm, b)).
Qed.

(** an exception of any of the 32 vectors stores the interrupted state under the
    fields of [struct trap_frame], whether the processor pushes an error code or
    not, and every character device with the capability prints the name of the
    exception and each field under its label. *)
Theorem exception_report_correct {K} address base idt0 name n err (m : machine K) caps buf regs l :
  length idt0 = 256%nat → handlers_placed address → 0 <= n < 32 → 0 <= gpr m RSP < 2 ^ 64 → room 28 (aligned m) →
  registry_ok regs l → (∀ p, (CHAR_DEV, p) ∈ l → is_Some (caps !! p)) → length buf = 32%nat →
  ∃ nm b m', exceptions !! Z.to_nat n = Some (nm, b) ∧ take_exception (idt_init address base idt0).1 name n err m = Ok m' ∧
    gpr m' RSI = name ∧ (16 | gpr m' RSP) ∧
    exception_main (gpr m' RDI) nm (stack m') caps buf regs =
      Ok ((λ p, (p, exception_report nm (exception_frame n err m))) <$> error_devices caps l).
Proof.
  intros Hi Ha Hn Hsp Hr Hreg Hcap Hbuf. destruct (lookup_lt_is_Some_2 exceptions (Z.to_nat n)) as [[nm b] En]; [change (length exceptions) with 32%nat; lia|].
  destruct (idt_gate address base idt0 n Hi Ha ltac:(lia)) as (g&Eg&_&_&Hty&_).
  assert (gate_present g = true) as Hg by (unfold gate_present; by rewrite Hty).
  destruct (exception_enter_ok _ name n err nm b m g Eg Hg ltac:(lia) En Hsp Hr) as (m'&E&Rdi&Rsi&Rsp&Hf&_).
  exists nm, b, m'. split; [exact En|]. split; [exact E|]. split; [exact Rsi|]. rewrite Rdi, Rsp. split.
  - apply Z.divide_sub_r; [apply align16_bound; lia|by exists 14].
  - unfold exception_main. rewrite (rg_count _ _ Hreg), Nat2Z.id.
    apply (report_loop_ok (length l) 0 nm _ _ caps buf regs l (exception_frame n err m)); [exact Hreg|lia|exact Hf|by eapply exception_names|exact Hcap|done].
Qed.

(** * Runs

    A core at 0x9000 with a chain of two handlers on vector 40 - the first one
    switches to the task whose frame is at 0x3000 and loads its page table - and
    a handler on vector 41 that does nothing. *)

Definition demo_handle (h tf : Z) (s : @irq_state unit) : result (Z * @irq_state unit) :=
  if h =? 0x500 then Ok (0x3000, mkIrqState (irq_words s) (λ r, if decide (r = CR3) then 0x7000 else irq_special s r) (irq_kern s))
  else Ok (0, s).

Definition demo_routines : list irq_vector_chain_t :=
  <[40%nat := mkChain [0x500; 0x600; 0; 0] 2]> (<[41%nat := mkChain [0x600; 0; 0; 0] 1]> (replicate 256 (mkChain [0; 0; 0; 0] 0))).

Definition demo_core : coreinfo_t := mkCore 0 0 0 0 CPU_BUSY (mkMailbox 0 0 false) demo_routines (replicate 256 0).

Definition demo_kernel : kernel unit := mkKernel {[0x9000 := demo_core]} [0x9000; 0] 0x9000 0 tt.

Definition demo_stack : gmap Z Z :=
  list_to_map (((λ j, (0x1e00 + 8 * j, 0)) <$> seqZ 0 64) ++ ((λ j, (0x3000 + 8 * j, 100 + j)) <$> seqZ 0 28)).

Definition demo_machine : machine (kernel unit) :=
  mkMachine (λ r, if decide (r = RSP) then 0x2004 else 7) (λ _, 0x10) 0x400000 8 0x202 0x10 demo_stack demo_kernel.

Definition demo_address (h : handler) : Z :=
  match h with ExceptionHandler n => 0xFFFFFFFF80100000 + 64 * (n mod 256) | IrqHandler n => 0xFFFFFFFF80200000 + 64 * (n mod 256) end.

Definition demo_function (a : Z) : option irq_target := if a =? 0xFFFFFFFF80001000 then Some IrqDispatch else None.

Definition blank_idt : list idt_entry := replicate 256 (mkGate 0 0 0 0 0 0 0).

#[export] Instance tf_field_eq : EqDecision tf_field.
Proof. solve_decision. Defined.

(** The frame at 0x3000. *)
Definition demo_frame (fld : tf_field) : Z := 100 + Z.of_nat (default 0%nat (fst <$> list_find (eq fld) trap_frame)).

Lemma demo_placed : handlers_placed demo_address.
Proof. intros [n|n]; cbn [demo_address]; pose proof (Z.mod_pos_bound n 256 ltac:(lia)); lia. Qed.

Lemma demo_room : room 30 (aligned demo_machine).
Proof.
  split; [|by vm_compute]. intros j Hj. change (gpr (aligned demo_machine) RSP) with 0x2000. change (stack (aligned demo_machine)) with demo_stack.
  assert (forallb (λ j, bool_decide (is_Some (demo_stack !! (0x2000 - 8 * j)))) (seqZ 1 30) = true) as H by by vm_compute.
  rewrite forallb_forall in H. eapply bool_decide_eq_true_1, H, list_elem_of_In, elem_of_seqZ. lia.
Qed.

Lemma demo_ready n : 32 <= n < 255 → irq_ready demo_handle demo_function demo_address blank_idt RAX 0xFFFFFFFF80001000 n demo_machine.
Proof.
  intros Hn. split; try done.
  - apply demo_placed.
  - by rewrite !not_elem_of_cons; split_and!; try apply not_elem_of_nil.
  - apply demo_room.
  - by exists demo_core.
  - intros h tf s s' r. unfold demo_handle. by destruct (_ =? _); intros [= _ <-].
Qed.

Lemma demo_frame_at : frame_at demo_stack 0x3000 demo_frame.
Proof. intros j w Hj. do 28 (destruct j as [|j]; [revert Hj; vm_compute; by intros [= <-]|]). done. Qed.

(** Vector 40 switches tasks. *)
Lemma irq_resumes_correct_witness : ∃ m',
  take_irq (irq_call demo_handle (λ _, 0) demo_function) (idt_init demo_address 0x5000 blank_idt).1 RAX 0xFFFFFFFF80001000 40 demo_machine = Ok m' ∧
  resumes demo_frame m' ∧ eois (kern m') = 1 ∧ special m' CR3 = 0x7000.
Proof.
  destruct (irq_resumes_correct demo_handle (λ _, 0) demo_function demo_address 0x5000 blank_idt RAX 0xFFFFFFFF80001000 40 demo_machine
    (mkChain [0x500; 0x600; 0; 0] 2) (demo_ready 40 ltac:(done)) eq_refl ltac:(done)) as (words&[_ Hab]&Hrun).
  destruct (Hrun 0x3000 (mkIrqState words (λ r, if decide (r = CR3) then 0x7000 else 0x10) (counted 0x9000 40 demo_kernel)) demo_frame)
    as (m'&E&Hr&_&Ek&Ep); [reflexivity| |done|].
  - intros j w Hj. rewrite Hab by (change (align16 _) with 0x2000; lia). by apply demo_frame_at.
  - exists m'. split; [exact E|]. split; [exact Hr|]. rewrite Ek, Ep. by split.
Defined.

(** Vector 41 comes back, and RAX has the address of [irq_dispatch]. *)
Lemma irq_transparent_but_operand_witness : ∃ m',
  take_irq (irq_call demo_handle (λ _, 0) demo_function) (idt_init demo_address 0x5000 blank_idt).1 RAX 0xFFFFFFFF80001000 41 demo_machine = Ok m' ∧
  rip m' = 0x400000 ∧ gpr m' RSP = 0x2004 ∧ gpr m' RBX = 7 ∧ gpr demo_machine RAX = 7 ∧ gpr m' RAX = 0xFFFFFFFF80001000.
Proof.
  destruct (irq_transparent_but_operand demo_handle (λ _, 0) demo_function demo_address 0x5000 blank_idt RAX 0xFFFFFFFF80001000 41 demo_machine
    (mkChain [0x600; 0; 0; 0] 1) (demo_ready 41 ltac:(done)) eq_refl ltac:(done)) as (m'&E&Hg&Hop&Hip&_).
  { constructor; [|constructor]. intros s. exists 0, s. by split_and!; [|left|..]. }
  exists m'. split; [exact E|]. split; [exact Hip|]. split; [by rewrite Hg|]. split; [by rewrite Hg|]. by split.
Defined.

Lemma irq_install_correct_witness : ∃ k' c', install_all 0 42 [0x700; 0x800] demo_kernel = Ok k' ∧
  chain_of k' 0x9000 42 = Some c' ∧ installed c' = [0x700; 0x800].
Proof.
  destruct (irq_install_correct 0 42 [0x700; 0x800] demo_kernel 0x9000 (mkChain [0; 0; 0; 0] 0)) as (k'&c'&E&Ec&Ei&_); try done.
  - intros core vector c. unfold chain_of, demo_kernel. cbn [cores]. intros H. destruct (decide (core = 0x9000)) as [->|Hne].
    + rewrite lookup_singleton_eq in H. cbn [mbind option_bind routines demo_core] in H. apply list_elem_of_lookup_2 in H.
      assert (forallb (λ c, bool_decide (chain_ok c)) demo_routines = true) as Hall by by vm_compute.
      rewrite forallb_forall in Hall. by eapply bool_decide_eq_true_1, Hall, list_elem_of_In.
    + by rewrite lookup_singleton_ne in H.
  - by exists k', c'.
Defined.

Definition demo_registry : registry_state := mkRegistry (<[0%nat := mkEntry 1 CHAR_DEV 0x1000]> (registry empty_registry)) 1 2.

Lemma demo_registry_ok : registry_ok demo_registry [(CHAR_DEV, 0x1000)].
Proof.
  split; [by vm_compute|done|done|done|]. intros [|i] ty p E; [|done].
  injection E as <- <-. reflexivity.
Qed.

(** A page fault on a kernel with a serial port that reports. *)
Lemma exception_report_correct_witness : ∃ m',
  take_exception (idt_init demo_address 0x5000 blank_idt).1 0x6000 14 2 demo_machine = Ok m' ∧
  exception_main (gpr m' RDI) "Page Fault" (stack m') {[0x1000 := 1]} (replicate 32 0)
    demo_registry =
    Ok [(0x1000, exception_report "Page Fault" (exception_frame 14 2 demo_machine))].
Proof.
  destruct (exception_report_correct demo_address 0x5000 blank_idt 0x6000 14 2 demo_machine {[0x1000 := 1]} (replicate 32 0)
    demo_registry [(CHAR_DEV, 0x1000)]) as (nm&b&m'&En&E&_&_&Er);
    [done|apply demo_placed|done|done|eapply room_lo; [apply demo_room|done]|apply demo_registry_ok| |done|].
  - intros p [[= ->]|H]%elem_of_cons; [by exists 1|by apply not_elem_of_nil in H].
  - injection En as <- _. exists m'. split; [exact E|exact Er].
Defined.

Lemma idt_init_correct_witness : ∃ g, (idt_init demo_address 0x5000 blank_idt).1 !! 33%nat = Some g ∧ gate_offset g = 0xFFFFFFFF80200840.
Proof.
  destruct (idt_init_correct demo_address 0x5000 blank_idt eq_refl demo_placed) as (idt&E&_&H). destruct (H 33) as (g&Eg&_&Eo&_); [lia|].
  exists g. rewrite E. split; [exact Eg|by rewrite Eo].
Defined.

(** A line of the report. *)
Example report_line_error : report_line FErr 0x2C = bytes_of "ERR: 0x000000000000002C" ++ [10].
Proof. by vm_compute. Qed.
