(* ===== verification/Ports.v ===== *)
(** Port input and output (src/cpu/io.c): devices behind ports are a state that
    every access may change. *)

From S2P Require Import Prelude.

(** What [outb] and [inb] do to the devices. *)
Class Ports (D : Type) := {
  outb : Z → Z → D → D;
  inb : Z → D → Z * D
}.

(** A byte read from a port is a byte. *)
Class PortsLaws (D : Type) `{Ports D} := {
  inb_byte port d : 0 <= (inb port d).1 < 2 ^ 8
}.
