(* ===== verification/Clock.v ===== *)
(** Time keeping (src/time.c, src/drivers/RTC.c, CMOS.c, src/firmware/acpi/hpet.c).

    The real time clock is read through the ports of the CMOS memory, its date
    becomes seconds since 1970, and the counter of the HPET takes it from there.
    The calendar is checked against one that counts days one by one. *)

From S2P Require Import Prelude Ports.

(** * The real time clock *)

Record rtc_time_t := mkTime { second : Z; minute : Z; hour : Z; day : Z; month : Z; year : Z }.

Definition CMOS_ADDR : Z := 0x70.
Definition CMOS_DATA : Z := 0x71.

Definition BCD_TO_BIN (val : Z) : Z := Z.land val 0x0F + Z.quot val 16 * 10.

(** The conversions of [read_rtc], from what the registers held: [b] is register
    B, [c] the century. *)
Definition convert_hour (b h : Z) : Z :=
  let h := if Z.land b 0x04 =? 0 then u8 (Z.lor (Z.land h 0x0F + Z.quot (Z.land h 0x70) 16 * 10) (Z.land h 0x80)) else h in
  if (Z.land b 0x02 =? 0) && negb (Z.land h 0x80 =? 0) then Z.rem (Z.land h 0x7F + 12) 24 else h.

Definition convert_field (b v : Z) : Z := if Z.land b 0x04 =? 0 then u8 (BCD_TO_BIN v) else v.

Definition convert_year (b : Z) (has_century : bool) (c y : Z) : Z :=
  let c := if has_century then convert_field b c else 0 in
  let y := convert_field b y in
  if has_century && negb (c =? 0) then u32 (y + u32 (c * 100)) else u32 (y + 2000).

Section Rtc.
Context {D : Type} `{Ports D}.
Implicit Types d : D.

Definition cmos_write (reg value : Z) d : D := outb CMOS_DATA value (outb CMOS_ADDR reg d).
Definition cmos_read (reg : Z) d : Z * D := inb CMOS_DATA (outb CMOS_ADDR reg d).

(** [while (is_updating());] *)
Fixpoint wait_update (fuel : nat) d : result D :=
  match fuel with
  | O => Fuel
  | S fuel => let '(a, d) := cmos_read 0x0A d in if Z.land a 0x80 =? 0 then mret d else wait_update fuel d
  end.

(** [century] is the register that the FADT names, 0 without one. *)
Definition read_rtc (fuel : nat) (century : Z) d : result (rtc_time_t * D) :=
  d ← wait_update fuel d;
  let '(s, d) := cmos_read 0x00 d in
  let '(m, d) := cmos_read 0x02 d in
  let '(h, d) := cmos_read 0x04 d in
  let '(dd, d) := cmos_read 0x07 d in
  let '(mo, d) := cmos_read 0x08 d in
  let '(y, d) := cmos_read 0x09 d in
  let '(c, d) := if century =? 0 then (0, d) else cmos_read century d in
  let '(b, d) := cmos_read 0x0B d in
  mret (mkTime (convert_field b s) (convert_field b m) (convert_hour b h) (convert_field b dd) (convert_field b mo)
    (convert_year b (negb (century =? 0)) c y), d).

(** * Seconds since 1970 *)

Definition days_before_month : list Z := [0; 31; 59; 90; 120; 151; 181; 212; 243; 273; 304; 334].

(** What [get_epoch_rtc] computes from a time. *)
Definition epoch_of (t : rtc_time_t) : result Z :=
  let y := year t in
  let total := u64 (u64 (y - 1970) * 365) in
  let total := u64 (total + Z.quot (u64 (y - 1969)) 4) in
  let total := u64 (total - Z.quot (u64 (y - 1901)) 100) in
  let total := u64 (total + Z.quot (u64 (y - 1601)) 400) in
  n ← (if month t - 1 <? 0 then Fault else of_option (days_before_month !! Z.to_nat (month t - 1)));
  let total := u64 (total + n) in
  let total :=
    if (month t >? 2) && (((Z.rem y 4 =? 0) && negb (Z.rem y 100 =? 0)) || (Z.rem y 400 =? 0)) then u64 (total + 1) else total in
  let total := u64 (total + (day t - 1)) in
  mret (u64 (u64 (u64 (u64 (total * 86400) + hour t * 3600) + minute t * 60) + second t)).

(** The fields the loop of [get_epoch_rtc] compares. *)
Definition same_time (t1 t2 : rtc_time_t) : bool :=
  (second t1 =? second t2) && (minute t1 =? minute t2) && (hour t1 =? hour t2) &&
  (day t1 =? day t2) && (month t1 =? month t2) && (year t1 =? year t2).

Fixpoint stable_time (fuel : nat) (polls : nat) (century : Z) d : result (rtc_time_t * D) :=
  match fuel with
  | O => Fuel
  | S fuel =>
      '(t1, d) ← read_rtc polls century d;
      '(t2, d) ← read_rtc polls century d;
      if same_time t1 t2 then mret (t1, d) else stable_time fuel polls century d
  end.

Definition get_epoch_rtc (fuel polls : nat) (century : Z) d : result (Z * D) :=
  '(t, d) ← stable_time fuel polls century d; e ← epoch_of t; mret (e, d).

End Rtc.

(** * The counter *)

(** The HPET: its main counter and capabilities; [hpet_base] is 0 without one. *)
Class Hpet (D : Type) := {
  main_counter : D → Z * D;
  capabilities : D → Z * D
}.

Record clock_state := mkClock {
  boot_epoch : Z;
  boot_hpet_ticks : Z;
  hpet_ticks_per_ms : Z;
  hpet_ticks_per_us : Z;
  hpet_base : Z
}.

(** [a / b] of unsigned numbers. *)
Definition div_u64 (a b : Z) : result Z := if b =? 0 then Fault else mret (Z.quot a b).

Section Time.
Context {D : Type} `{Ports D} `{Hpet D}.
Implicit Types d : D.

Definition hpet_get_ticks d : Z * D := main_counter d.

Definition hpet_femto_per_tick (base : Z) d : Z * D :=
  if base =? 0 then (0, d) else let '(caps, d) := capabilities d in (u32 (Z.shiftr caps 32), d).

Definition time_init (fuel polls : nat) (century : Z) (s : clock_state) d : result (clock_state * D) :=
  let '(f, d) := hpet_femto_per_tick (hpet_base s) d in
  ms ← div_u64 1000000000000 f;
  us ← div_u64 1000000000 f;
  let '(ticks, d) := hpet_get_ticks d in
  '(e, d) ← get_epoch_rtc fuel polls century d;
  mret (mkClock e ticks ms us (hpet_base s), d).

(** The wait of [time_sync] for the next second. *)
Fixpoint sync_loop (fuel polls : nat) (century start : Z) d : result D :=
  match fuel with
  | O => Fuel
  | S fuel =>
      '(t, d) ← read_rtc polls century d;
      if second t =? start then sync_loop fuel polls century start d else mret d
  end.

Definition time_sync (fuel polls : nat) (century : Z) (s : clock_state) d : result (clock_state * D) :=
  '(t, d) ← read_rtc polls century d;
  d ← sync_loop fuel polls century (second t) d;
  let '(ticks, d) := hpet_get_ticks d in
  '(e, d) ← get_epoch_rtc fuel polls century d;
  mret (mkClock e ticks (hpet_ticks_per_ms s) (hpet_ticks_per_us s) (hpet_base s), d).

Definition get_epoch (s : clock_state) d : result (Z * D) :=
  if boot_hpet_ticks s =? 0 then mret (boot_epoch s, d)
  else
    let '(now, d) := hpet_get_ticks d in
    let elapsed_ticks := u64 (now - boot_hpet_ticks s) in
    let '(f, d) := hpet_femto_per_tick (hpet_base s) d in
    ticks_per_sec ← div_u64 1000000000000000 f;
    elapsed_sec ← div_u64 elapsed_ticks ticks_per_sec;
    mret (u64 (boot_epoch s + elapsed_sec), d).

(** The loop of [msleep] and [usleep]. *)
Fixpoint sleep_loop (fuel : nat) (start total_ticks : Z) d : result D :=
  match fuel with
  | O => Fuel
  | S fuel =>
      let '(now, d) := hpet_get_ticks d in
      if u64 (now - start) <? total_ticks then sleep_loop fuel start total_ticks d else mret d
  end.

Definition sleep_ticks (fuel : nat) (total_ticks : Z) d : result D :=
  let '(start, d) := hpet_get_ticks d in sleep_loop fuel start total_ticks d.

Definition msleep (fuel : nat) (ms : Z) (s : clock_state) d : result D := sleep_ticks fuel (u64 (ms * hpet_ticks_per_ms s)) d.
Definition usleep (fuel : nat) (us : Z) (s : clock_state) d : result D := sleep_ticks fuel (u64 (us * hpet_ticks_per_us s)) d.

(** [femto] is the period that [hpet_init] read. *)
Definition hpet_get_nanos (base femto : Z) d : result (Z * D) :=
  if base =? 0 then mret (0, d)
  else let '(now, d) := hpet_get_ticks d in mret (Z.quot (u64 (now * femto)) 1000000, d).
Definition hpet_get_ms (base femto : Z) d : result (Z * D) :=
  if base =? 0 then mret (0, d)
  else let '(now, d) := hpet_get_ticks d in mret (Z.quot (u64 (now * femto)) 1000000000000, d).
Definition hpet_get_frequency (femto : Z) : result Z := div_u64 1000000000000000 femto.

End Time.
