(* ===== verification/ClockSpec.v ===== *)
(** What time keeping does (src/time.c, src/drivers/RTC.c): the seconds are those
    of a calendar that goes day by day, the registers of the real time clock are
    read as one moment, and the counter adds the seconds that passed. *)

From S2P Require Import Prelude Ports Clock.

(** * The calendar *)

Definition leap (y : Z) : bool := ((y mod 4 =? 0) && negb (y mod 100 =? 0)) || (y mod 400 =? 0).

Definition month_days (y m : Z) : Z :=
  if m =? 2 then (if leap y then 29 else 28) else if bool_decide (m ∈ [4; 6; 9; 11]) then 30 else 31.

Record date := mkDate { d_year : Z; d_month : Z; d_day : Z }.

Definition next_day (x : date) : date :=
  let '(mkDate y m d) := x in
  if d <? month_days y m then mkDate y m (d + 1) else if m <? 12 then mkDate y (m + 1) 1 else mkDate (y + 1) 1 1.

(** The day [n] days after the first of January 1970. *)
Definition date_after (n : nat) : date := Nat.iter n next_day (mkDate 1970 1 1).

Definition valid_date (x : date) : Prop :=
  1970 <= d_year x ∧ 1 <= d_month x <= 12 ∧ 1 <= d_day x <= month_days (d_year x) (d_month x).

(** The days before a year, and before a month in it. *)
Definition year_days (y : Z) : Z := (y - 1970) * 365 + (y - 1969) / 4 - (y - 1901) / 100 + (y - 1601) / 400.
Definition before_month (y m : Z) : Z :=
  default 0 (days_before_month !! Z.to_nat (m - 1)) + (if (m >? 2) && leap y then 1 else 0).

Definition day_number (x : date) : Z := year_days (d_year x) + before_month (d_year x) (d_month x) + (d_day x - 1).

Lemma month_days_range y m : 28 <= month_days y m <= 31.
Proof. unfold month_days. repeat case_match; lia. Qed.

Lemma month_cases m : 1 <= m <= 12 → m ∈ [1; 2; 3; 4; 5; 6; 7; 8; 9; 10; 11; 12].
Proof. intros H. rewrite !elem_of_cons. lia. Qed.

Lemma before_month_succ y m : 1 <= m < 12 → before_month y (m + 1) = before_month y m + month_days y m.
Proof.
  intros Hm. pose proof (month_cases m ltac:(lia)) as H. unfold before_month, month_days.
  repeat (apply elem_of_cons in H as [->|H]; [destruct (leap y); done || lia|]). by apply not_elem_of_nil in H.
Qed.

Lemma year_days_succ y : year_days (y + 1) = year_days y + 365 + (if leap y then 1 else 0).
Proof.
  unfold year_days, leap.
  assert ((y + 1 - 1969) / 4 = (y - 1969) / 4 + (if y mod 4 =? 0 then 1 else 0)) as -> by (destruct (Z.eqb_spec (y mod 4) 0); Z.div_mod_to_equations; lia).
  assert ((y + 1 - 1901) / 100 = (y - 1901) / 100 + (if y mod 100 =? 0 then 1 else 0)) as -> by (destruct (Z.eqb_spec (y mod 100) 0); Z.div_mod_to_equations; lia).
  assert ((y + 1 - 1601) / 400 = (y - 1601) / 400 + (if y mod 400 =? 0 then 1 else 0)) as -> by (destruct (Z.eqb_spec (y mod 400) 0); Z.div_mod_to_equations; lia).
  destruct (Z.eqb_spec (y mod 4) 0), (Z.eqb_spec (y mod 100) 0), (Z.eqb_spec (y mod 400) 0); cbn [andb orb negb]; try lia; Z.div_mod_to_equations; lia.
Qed.

Lemma next_day_valid x : valid_date x → valid_date (next_day x).
Proof.
  destruct x as [y m d]. intros (Hy&Hm&Hd). cbn in Hy, Hm, Hd. unfold next_day. pose proof (month_days_range y (m + 1)). pose proof (month_days_range (y + 1) 1).
  destruct (Z.ltb_spec d (month_days y m)); [|destruct (Z.ltb_spec m 12)]; unfold valid_date; cbn [d_year d_month d_day]; lia.
Qed.

Lemma day_number_next x : valid_date x → day_number (next_day x) = day_number x + 1.
Proof.
  destruct x as [y m d]. intros (Hy&Hm&Hd). cbn in Hy, Hm, Hd. unfold next_day, day_number.
  destruct (Z.ltb_spec d (month_days y m)); [|destruct (Z.ltb_spec m 12)]; cbn [d_year d_month d_day].
  - lia.
  - rewrite before_month_succ by lia. lia.
  - assert (m = 12) as -> by lia. rewrite year_days_succ. unfold before_month. change (month_days y 12) with 31 in *.
    change (default 0 (days_before_month !! Z.to_nat (1 - 1))) with 0. change (default 0 (days_before_month !! Z.to_nat (12 - 1))) with 334.
    change (12 >? 2) with true. change (1 >? 2) with false. cbn [andb]. destruct (leap y), (leap (y + 1)); lia.
Qed.

Lemma date_after_ok n : valid_date (date_after n) ∧ day_number (date_after n) = Z.of_nat n.
Proof.
  induction n as [|n [Hv Hn]].
  - split; [|done]. unfold valid_date. cbn [date_after Nat.iter nat_rect d_year d_month d_day]. change (month_days 1970 1) with 31. lia.
  - change (date_after (S n)) with (next_day (date_after n)). split; [by apply next_day_valid|]. rewrite day_number_next by done. lia.
Qed.

Lemma date_after_valid n : valid_date (date_after n).
Proof. apply date_after_ok. Qed.

(** * Seconds *)

Lemma u64_add_l a b : u64 (u64 a + b) = u64 (a + b).
Proof. apply Zplus_mod_idemp_l. Qed.
Lemma u64_mul_add a b c : u64 (u64 a * b + c) = u64 (a * b + c).
Proof. unfold u64. rewrite <- Zplus_mod_idemp_l, Zmult_mod_idemp_l. apply Zplus_mod_idemp_l. Qed.

(** Drops the inner reductions of a sum. *)
Ltac collapse_u64 :=
  rewrite <- ?Z.add_opp_r; repeat (rewrite <- ?Z.add_assoc; first [rewrite u64_add_l|rewrite u64_mul_add]).

(** A time of day. *)
Definition valid_time (t : rtc_time_t) : Prop :=
  0 <= second t < 60 ∧ 0 <= minute t < 60 ∧ 0 <= hour t < 24.

Definition on_day (t : rtc_time_t) (x : date) : Prop := year t = d_year x ∧ month t = d_month x ∧ day t = d_day x.

Definition seconds (x : date) (t : rtc_time_t) : Z := day_number x * 86400 + hour t * 3600 + minute t * 60 + second t.

Lemma before_month_range y m : 1 <= m <= 12 → 0 <= before_month y m < 400.
Proof.
  intros H%month_cases. unfold before_month. repeat (apply elem_of_cons in H as [->|H]; [by destruct (leap y); vm_compute|]). by apply not_elem_of_nil in H.
Qed.

Lemma year_days_range y : 1970 <= y < 2 ^ 32 → 0 <= year_days y < 2 ^ 42.
Proof.
  intros Hy. unfold year_days. pose proof (Z.div_le_upper_bound (y - 1901) 100 (y - 1901)). Z.div_mod_to_equations. lia.
Qed.

Lemma epoch_of_ok x t : valid_date x → on_day t x → valid_time t → d_year x < 2 ^ 32 → epoch_of t = Ok (seconds x t).
Proof.
  intros (Hy&Hm&Hd) (Ey&Em&Ed) (Hs&Hmi&Hh) Hb. unfold epoch_of. rewrite Ey, Em, Ed.
  pose proof (month_days_range (d_year x) (d_month x)). pose proof (year_days_range (d_year x) ltac:(lia)) as Hyd. pose proof (before_month_range (d_year x) (d_month x) Hm) as Hbm.
  destruct (Z.ltb_spec (d_month x - 1) 0); [lia|].
  destruct (lookup_lt_is_Some_2 days_before_month (Z.to_nat (d_month x - 1))) as [n En]; [change (length days_before_month) with 12%nat; lia|].
  rewrite En. cbn [of_option mbind result_bind]. unfold seconds, day_number.
  assert (before_month (d_year x) (d_month x) = n + (if (d_month x >? 2) && leap (d_year x) then 1 else 0)) as Eb by (unfold before_month; by rewrite En).
  rewrite (u64_id (d_year x - 1970)), (u64_id (d_year x - 1969)), (u64_id (d_year x - 1901)), (u64_id (d_year x - 1601)) by lia. rewrite !Z.quot_div_nonneg, !Z.rem_mod_nonneg by lia. fold (leap (d_year x)).
  f_equal. set (Y := d_year x) in *. set (b := _ && leap Y) in *.
  transitivity (u64 (seconds x t)); [|apply u64_id; unfold seconds, day_number; fold Y; lia].
  unfold seconds, day_number. fold Y. rewrite Eb. unfold year_days.
  destruct b; collapse_u64; f_equal; lia.
Qed.

(** * The registers of the clock *)

Definition to_bcd (v : Z) : Z := 16 * (v / 10) + v mod 10.

(** A field below 100 as register B says, and the hour of a 12-hour clock: noon
    and midnight are 12, and bit 7 is set in the afternoon. *)
Definition enc (b v : Z) : Z := if Z.land b 0x04 =? 0 then to_bcd v else v.
Definition enc_hour (b h : Z) : Z :=
  if Z.land b 0x02 =? 0
  then Z.lor (enc b (if h mod 12 =? 0 then 12 else h mod 12)) (if h <? 12 then 0 else 0x80)
  else enc b h.

(** The hour that the code makes of it. *)
Definition hour_read (b h : Z) : Z := if (Z.land b 0x02 =? 0) && (h mod 12 =? 0) then 12 - h else h.

Lemma check_below (n : Z) (f : Z → bool) v : forallb f (seqZ 0 n) = true → 0 <= v < n → f v = true.
Proof. intros H Hv. rewrite forallb_forall in H. apply H, list_elem_of_In, elem_of_seqZ. lia. Qed.

Lemma convert_field_ok b v : 0 <= v < 100 → convert_field b (enc b v) = v.
Proof.
  intros Hv. unfold convert_field, enc. destruct (Z.land b 0x04 =? 0); [|done].
  apply Z.eqb_eq, (check_below 100 (λ v, u8 (BCD_TO_BIN (to_bcd v)) =? v)); [by vm_compute|done].
Qed.

Lemma convert_hour_ok b h : 0 <= h < 24 → convert_hour b (enc_hour b h) = hour_read b h.
Proof.
  intros Hh.
  assert (∃ b', b' ∈ [0; 2; 4; 6] ∧ (Z.land b 0x04 =? 0) = (Z.land b' 0x04 =? 0) ∧ (Z.land b 0x02 =? 0) = (Z.land b' 0x02 =? 0)) as (b'&Hb&E4&E2).
  { exists ((if Z.land b 0x04 =? 0 then 0 else 4) + (if Z.land b 0x02 =? 0 then 0 else 2)).
    destruct (Z.land b 0x04 =? 0), (Z.land b 0x02 =? 0); (split; [|done]); rewrite !elem_of_cons; lia. }
  assert (convert_hour b (enc_hour b h) = convert_hour b' (enc_hour b' h)) as -> by (unfold convert_hour, enc_hour, enc; by rewrite E4, E2).
  assert (hour_read b h = hour_read b' h) as -> by (unfold hour_read; by rewrite E2).
  apply Z.eqb_eq. clear E4 E2. revert b' Hb h Hh.
  assert (forallb (λ b', forallb (λ h, convert_hour b' (enc_hour b' h) =? hour_read b' h) (seqZ 0 24)) [0; 2; 4; 6] = true) as H by by vm_compute.
  intros b' Hb h Hh. rewrite forallb_forall in H. apply (check_below 24 (λ h, convert_hour b' (enc_hour b' h) =? hour_read b' h)); [|done].
  by apply H, list_elem_of_In.
Qed.

(** The registers [r] show the moment [t]; [c] is the register of the century. *)
Record shows (c : Z) (r : Z → Z) (t : rtc_time_t) : Prop := {
  sh_second : r 0x00 = enc (r 0x0B) (second t);
  sh_minute : r 0x02 = enc (r 0x0B) (minute t);
  sh_hour : r 0x04 = enc_hour (r 0x0B) (hour t);
  sh_day : r 0x07 = enc (r 0x0B) (day t);
  sh_month : r 0x08 = enc (r 0x0B) (month t);
  sh_year : r 0x09 = enc (r 0x0B) (year t mod 100);
  sh_century : if c =? 0 then 2000 <= year t < 2100 else r c = enc (r 0x0B) (year t / 100) ∧ 100 <= year t < 10000
}.

(** What is read of the moment [t]: register B [b] may say that the clock has
    twelve hours. *)
Definition read_as (b : Z) (t : rtc_time_t) : rtc_time_t :=
  mkTime (second t) (minute t) (hour_read b (hour t)) (day t) (month t) (year t).

Lemma convert_year_ok c b y x : (if c =? 0 then 2000 <= y < 2100 else x = enc b (y / 100) ∧ 100 <= y < 10000) →
  convert_year b (negb (c =? 0)) x (enc b (y mod 100)) = y.
Proof.
  intros H. unfold convert_year. pose proof (Z.mod_pos_bound y 100 ltac:(lia)). rewrite (convert_field_ok b (y mod 100)) by done.
  pose proof (Z.div_mod y 100 ltac:(lia)). destruct (c =? 0); cbn [negb andb].
  - rewrite u32_id; Z.div_mod_to_equations; lia.
  - destruct H as [-> Hy]. assert (0 < y / 100 < 100) by (Z.div_mod_to_equations; lia). rewrite convert_field_ok by lia.
    destruct (Z.eqb_spec (y / 100) 0); [lia|]. cbn [negb]. rewrite (u32_id (_ * _)), u32_id; lia.
Qed.

Section Rtc.
Context {D : Type} `{Ports D}.
Implicit Types d : D.

(** The next [n] reads of registers other than the status give [r]. *)
Fixpoint steady (n : nat) d (r : Z → Z) : Prop :=
  match n with
  | O => True
  | S n => ∀ reg, reg ≠ 0x0A → (cmos_read reg d).1 = r reg ∧ steady n (cmos_read reg d).2 r
  end.

(** The update flag is set for [n] polls and then clear, in state [d']. *)
Fixpoint busy_for (n : nat) d d' : Prop :=
  let '(a, d1) := cmos_read 0x0A d in
  match n with
  | O => Z.land a 0x80 = 0 ∧ d1 = d'
  | S n => Z.land a 0x80 ≠ 0 ∧ busy_for n d1 d'
  end.

Lemma wait_update_ok n fuel d d' : busy_for n d d' → (n < fuel)%nat → wait_update fuel d = Ok d'.
Proof.
  revert d fuel. induction n as [|n IH]; intros d [|fuel] Hb Hf; try lia; cbn [busy_for wait_update] in *;
    destruct (cmos_read 0x0A d) as [a d1]; destruct Hb as [Ha Hb].
  - by rewrite Ha, Hb.
  - destruct (Z.eqb_spec (Z.land a 0x80) 0); [done|]. apply IH; [done|lia].
Qed.

End Rtc.

(** After the update flag reads clear, the chip keeps its registers for longer
    than the reads of a date take (244 microseconds on the MC146818). *)
Class RtcLaws (D : Type) `{Ports D} := {
  registers : D → Z → Z;
  rtc_steady n d d' : busy_for n d d' → steady 8 d' (registers d')
}.

Lemma read_rtc_ok {D} `{RtcLaws D} n fuel c (d d' : D) t : busy_for n d d' → (n < fuel)%nat → c ≠ 0x0A →
  shows c (registers d') t → 0 <= second t < 60 → 0 <= minute t < 60 → 0 <= hour t < 24 → 1 <= day t <= 31 → 1 <= month t <= 12 →
  ∃ d'', read_rtc fuel c d = Ok (read_as (registers d' 0x0B) t, d'').
Proof.
  intros Hb Hf Hc [S1 S2 S3 S4 S5 S6 S7] Hs Hm Hh Hd Hmo. pose proof (rtc_steady n d d' Hb) as St. unfold read_rtc.
  rewrite (wait_update_ok n fuel d d' Hb Hf). cbn [mbind result_bind]. set (r := registers d') in *.
  destruct (St 0x00 ltac:(done)) as [E1 St1]. destruct (cmos_read 0x00 d') as [v1 d1]. cbn [fst snd] in *.
  destruct (St1 0x02 ltac:(done)) as [E2 St2]. destruct (cmos_read 0x02 d1) as [v2 d2]. cbn [fst snd] in *.
  destruct (St2 0x04 ltac:(done)) as [E3 St3]. destruct (cmos_read 0x04 d2) as [v3 d3]. cbn [fst snd] in *.
  destruct (St3 0x07 ltac:(done)) as [E4 St4]. destruct (cmos_read 0x07 d3) as [v4 d4]. cbn [fst snd] in *.
  destruct (St4 0x08 ltac:(done)) as [E5 St5]. destruct (cmos_read 0x08 d4) as [v5 d5]. cbn [fst snd] in *.
  destruct (St5 0x09 ltac:(done)) as [E6 St6]. destruct (cmos_read 0x09 d5) as [v6 d6]. cbn [fst snd] in *.
  set (rc := if c =? 0 then (0, d6) else cmos_read c d6).
  assert ((if c =? 0 then True else rc.1 = r c) ∧ (cmos_read 0x0B rc.2).1 = r 0x0B) as [Ec Eb].
  { unfold rc. destruct (c =? 0); [split; [done|]; by apply St6|]. destruct (St6 c Hc) as [? St7]. split; [done|]. by apply St7. }
  destruct rc as [vc d7]. cbn [fst snd] in *. destruct (cmos_read 0x0B d7) as [vb d8]. cbn [fst] in Eb. exists d8. subst.
  do 2 f_equal. unfold read_as.
  rewrite S1, S2, S3, S4, S5, S6, !convert_field_ok, convert_hour_ok by lia. f_equal.
  apply convert_year_ok. destruct (c =? 0); [done|]. by rewrite Ec.
Qed.

(** * From the registers to seconds *)

Section Epoch.
Context {D : Type} `{RtcLaws D}.
Implicit Types d : D.

Definition valid_moment (t : rtc_time_t) (x : date) : Prop := valid_date x ∧ on_day t x ∧ valid_time t ∧ d_year x < 2 ^ 32.

(** The chip shows [t] with register B [b] when the next read of it starts, after
    fewer than [polls] polls. *)
Definition showing (polls : nat) (c b : Z) (t : rtc_time_t) d : Prop :=
  ∃ n d', busy_for n d d' ∧ (n < polls)%nat ∧ shows c (registers d') t ∧ registers d' 0x0B = b.

(** [k] rounds of two reads with a change between the two, and then a round in
    which the chip shows [t] at both. *)
Inductive settles (polls : nat) (c b : Z) (t : rtc_time_t) : nat → D → Prop :=
| settle_now d d1 t1 : showing polls c b t d → read_rtc polls c d = Ok (t1, d1) → showing polls c b t d1 → settles polls c b t 0 d
| settle_later k d d1 d2 t1 t2 : read_rtc polls c d = Ok (t1, d1) → read_rtc polls c d1 = Ok (t2, d2) → same_time t1 t2 = false →
    settles polls c b t k d2 → settles polls c b t (S k) d.

Lemma read_showing polls c b t x d : showing polls c b t d → c ≠ 0x0A → valid_moment t x → ∃ d', read_rtc polls c d = Ok (read_as b t, d').
Proof.
  intros (n&d'&Hb&Hn&Hs&<-) Hc ((_&Hm&Hd)&(_&Em&Ed)&(?&?&?)&_). pose proof (month_days_range (d_year x) (d_month x)).
  apply (read_rtc_ok n); (done || lia).
Qed.

Lemma same_time_refl t : same_time t t = true.
Proof. unfold same_time. by rewrite !Z.eqb_refl. Qed.

Lemma stable_time_ok k fuel polls c b t x d : settles polls c b t k d → c ≠ 0x0A → valid_moment t x → (k < fuel)%nat →
  ∃ d', stable_time fuel polls c d = Ok (read_as b t, d').
Proof.
  intros Hs Hc Hv. revert fuel. induction Hs as [d d1 t1 S1 E1 S2|k d d1 d2 t1 t2 E1 E2 Hne _ IH]; intros [|fuel] Hf; try lia; cbn [stable_time].
  - destruct (read_showing _ _ _ _ x _ S1 Hc Hv) as (d1'&E1'). rewrite E1 in E1'. injection E1' as -> ->. rewrite E1. cbn [mbind result_bind].
    destruct (read_showing _ _ _ _ x _ S2 Hc Hv) as (d2&->). cbn [mbind result_bind]. rewrite same_time_refl. by exists d2.
  - rewrite E1. cbn [mbind result_bind]. rewrite E2. cbn [mbind result_bind]. rewrite Hne. apply IH. lia.
Qed.

Lemma hour_read_range b h : 0 <= h < 24 → 0 <= hour_read b h < 24.
Proof. intros Hh. unfold hour_read. destruct (Z.land b 2 =? 0), (Z.eqb_spec (h mod 12) 0); cbn [andb]; Z.div_mod_to_equations; lia. Qed.

Lemma get_epoch_rtc_ok k fuel polls c b t x d : settles polls c b t k d → c ≠ 0x0A → valid_moment t x → (k < fuel)%nat →
  ∃ d', get_epoch_rtc fuel polls c d = Ok (seconds x (read_as b t), d').
Proof.
  intros Hs Hc Hv Hf. destruct (stable_time_ok k fuel polls c b t x d Hs Hc Hv Hf) as (d'&E). exists d'. unfold get_epoch_rtc. rewrite E. cbn [mbind result_bind].
  destruct Hv as (Hx&Hon&(?&?&?)&?). rewrite (epoch_of_ok x); try done. pose proof (hour_read_range b (hour t)). unfold valid_time, read_as. cbn [second minute hour]. lia.
Qed.

End Epoch.

(** * The counter *)

Section Counter.
Context {D : Type} `{Ports D} `{Hpet D}.
Implicit Types d : D.

(** The period of the counter in femtoseconds. *)
Definition period d : Z := u32 (Z.shiftr (capabilities d).1 32).

Lemma get_epoch_ok s d : let '(now, d1) := main_counter d in
  boot_hpet_ticks s ≠ 0 → hpet_base s ≠ 0 → 0 < period d1 →
  ∃ d2, get_epoch s d = Ok (u64 (boot_epoch s + u64 (now - boot_hpet_ticks s) / (10 ^ 15 / period d1)), d2).
Proof.
  destruct (main_counter d) as [now d1] eqn:E. intros Hb Hh Hp. unfold get_epoch, hpet_get_ticks. rewrite (proj2 (Z.eqb_neq _ 0)) by done. rewrite E.
  unfold hpet_femto_per_tick. rewrite (proj2 (Z.eqb_neq (hpet_base s) 0)) by done. unfold period in *. destruct (capabilities d1) as [caps d2]. cbn [fst] in *.
  set (f := u32 (Z.shiftr caps 32)) in *. assert (f < 2 ^ 32) as Hf by apply u32_range. unfold div_u64. rewrite (proj2 (Z.eqb_neq f 0)) by lia. cbn [mbind result_bind mret result_ret].
  rewrite (Z.quot_div_nonneg _ f) by lia. change 1000000000000000 with (10 ^ 15). assert (0 < 10 ^ 15 / f) by (apply Z.div_str_pos; lia).
  rewrite (proj2 (Z.eqb_neq (10 ^ 15 / f) 0)) by lia. cbn [mbind result_bind mret result_ret]. rewrite Z.quot_div_nonneg by (try apply u64_range; lia). by exists d2.
Qed.

(** Whole seconds by ticks: never fewer than the seconds that passed, and too
    many by at most one part in [10^15 / f - 1]. *)
Lemma elapsed_bounds e f : 0 <= e → 0 < f < 10 ^ 15 → e * f / 10 ^ 15 <= e / (10 ^ 15 / f) ∧ (10 ^ 15 - f) * (e / (10 ^ 15 / f)) <= e * f.
Proof.
  intros He Hf. set (t := 10 ^ 15 / f). assert (0 < t) as Ht by (apply Z.div_str_pos; lia).
  pose proof (Z.mul_div_le (10 ^ 15) f ltac:(lia)) as H1. fold t in H1. pose proof (Z.mul_succ_div_gt (10 ^ 15) f ltac:(lia)) as H2. fold t in H2.
  set (q := e / t). pose proof (Z.mul_div_le e t Ht) as H3. fold q in H3. pose proof (Z.mul_succ_div_gt e t Ht) as H4. fold q in H4.
  assert (0 <= q) by (apply Z.div_pos; lia). split.
  - assert (e * f / 10 ^ 15 < q + 1); [|lia]. apply Z.div_lt_upper_bound; [lia|]. nia.
  - nia.
Qed.

(** The [k]-th value that the counter gives from [d] on, and the state then. *)
Fixpoint tick_at (k : nat) d : Z * D :=
  match k with O => main_counter d | S k => tick_at k (main_counter d).2 end.

Lemma sleep_loop_ok k fuel start total d : (k < fuel)%nat →
  (∀ i, (i < k)%nat → u64 ((tick_at i d).1 - start) < total) → total <= u64 ((tick_at k d).1 - start) →
  sleep_loop fuel start total d = Ok (tick_at k d).2.
Proof.
  revert d fuel. induction k as [|k IH]; intros d [|fuel] Hf Hbefore Hat; try lia; cbn [sleep_loop]; unfold hpet_get_ticks.
  - cbn [tick_at] in *. destruct (main_counter d) as [now d1]. cbn [fst snd] in *. by settle_z.
  - pose proof (Hbefore 0%nat ltac:(lia)) as H0'. cbn [tick_at] in *. destruct (main_counter d) as [now d1] eqn:E. cbn [fst snd] in *. settle_z.
    apply IH; [lia| |done]. intros i Hi. specialize (Hbefore (S i) ltac:(lia)). cbn [tick_at] in Hbefore. by rewrite E in Hbefore.
Qed.

End Counter.

(** * What the clock promises *)

(** C38: on the day that comes [n] days after the first of January 1970 the seconds
    are those of [n] days and the time of day; a clock in 12-hour mode is twelve
    hours off in the hours after noon and after midnight ([hour_read]). *)
Theorem get_epoch_rtc_correct {D} `{RtcLaws D} k fuel polls c b t n (d : D) :
  settles polls c b t k d → c ≠ 0x0A → on_day t (date_after n) → valid_time t → year t < 2 ^ 32 → (k < fuel)%nat →
  ∃ d', get_epoch_rtc fuel polls c d = Ok (Z.of_nat n * 86400 + hour_read b (hour t) * 3600 + minute t * 60 + second t, d').
Proof.
  intros Hs Hc Hon Ht Hy Hf. destruct (date_after_ok n) as [Hv Hn].
  destruct (get_epoch_rtc_ok k fuel polls c b t (date_after n) d Hs Hc) as (d'&E); [split_and!; try done; by destruct Hon as (<-&_)|done|].
  exists d'. rewrite E. unfold seconds. by rewrite Hn.
Qed.

(** C39: on a machine with an HPET whose counter is not zero when it is read at the
    boot, [time_init] takes the time of the real time clock, and from then on the
    time is that plus the whole seconds the counter measured: never behind, and
    ahead by at most one part in [10^15 / f - 1] for a period of [f]
    femtoseconds. *)
Theorem get_epoch_correct {D} `{RtcLaws D} `{Hpet D} k fuel polls c b t x s (d : D) :
  let '(_, d0) := capabilities d in let '(boot, d1) := main_counter d0 in
  hpet_base s ≠ 0 → 0 < period d → settles polls c b t k d1 → c ≠ 0x0A → valid_moment t x → (k < fuel)%nat → boot ≠ 0 →
  ∃ s' d2, time_init fuel polls c s d = Ok (s', d2) ∧
    ∀ d3, let '(now, d4) := main_counter d3 in period d4 = period d →
      let e := u64 (now - boot) in let q := e / (10 ^ 15 / period d) in
      ∃ d5, get_epoch s' d3 = Ok (u64 (seconds x (read_as b t) + q), d5) ∧
        e * period d / 10 ^ 15 <= q ∧ (10 ^ 15 - period d) * q <= e * period d.
Proof.
  destruct (capabilities d) as [caps d0] eqn:Ecap. destruct (main_counter d0) as [boot d1] eqn:Em. intros Hh Hp Hs Hc Hv Hf Hb.
  destruct (get_epoch_rtc_ok k fuel polls c b t x d1 Hs Hc Hv Hf) as (d2&Ee). eexists (mkClock _ _ _ _ _), d2. split.
  - unfold time_init, hpet_femto_per_tick. rewrite (proj2 (Z.eqb_neq (hpet_base s) 0)), Ecap by done. unfold period in Hp. rewrite Ecap in Hp. cbn [fst] in Hp.
    unfold div_u64. rewrite (proj2 (Z.eqb_neq _ 0)) by lia. cbn [mbind result_bind mret result_ret]. unfold hpet_get_ticks. rewrite Em, Ee. reflexivity.
  - intros d3. pose proof (get_epoch_ok (mkClock (seconds x (read_as b t)) boot (Z.quot 1000000000000 (u32 (Z.shiftr caps 32))) (Z.quot 1000000000 (u32 (Z.shiftr caps 32))) (hpet_base s)) d3) as G.
    destruct (main_counter d3) as [now d4]. intros Hper e q. rewrite Hper in G. destruct (G Hb Hh Hp) as (d5&E5). exists d5. split; [exact E5|].
    apply elapsed_bounds; [apply u64_range|]. split; [done|]. unfold period. pose proof (u32_range (Z.shiftr (capabilities d).1 32)). lia.
Qed.

(** [msleep] returns at the first value of the counter that is the ticks of the
    time away from the start; the ticks are rounded down, by less than one for
    every millisecond. *)
Theorem msleep_correct {D} `{Hpet D} fuel ms f s (d : D) k :
  0 < f → hpet_ticks_per_ms s = 10 ^ 12 / f → 0 <= ms → ms * (10 ^ 12 / f) < 2 ^ 64 → (k < fuel)%nat →
  let start := (main_counter d).1 in let d1 := (main_counter d).2 in let total := ms * (10 ^ 12 / f) in
  (∀ i, (i < k)%nat → u64 ((tick_at i d1).1 - start) < total) → total <= u64 ((tick_at k d1).1 - start) →
  msleep fuel ms s d = Ok (tick_at k d1).2 ∧ total * f <= ms * 10 ^ 12 ∧ (0 < ms → ms * 10 ^ 12 < total * f + ms * f).
Proof.
  intros Hf Hs Hms Hov Hk start d1 total Hbefore Hat. split; [|pose proof (Z.mul_div_le (10 ^ 12) f Hf); pose proof (Z.mul_succ_div_gt (10 ^ 12) f Hf); unfold total; nia].
  unfold msleep, sleep_ticks, hpet_get_ticks. rewrite Hs, u64_id by (split; [apply Z.mul_nonneg_nonneg; [done|apply Z.div_pos; lia]|done]).
  fold total. unfold start, d1 in *. destruct (main_counter d) as [st d']. cbn [fst snd] in *. by apply sleep_loop_ok.
Qed.

(** * A board

    The CMOS registers stay as they are and the counter advances by 5000 ticks of
    10 nanoseconds with every read. *)

Record board := mkBoard { selected : Z; cmos : Z → Z; counter : Z }.

#[export] Instance board_ports : Ports board := {
  outb port v d := if port =? CMOS_ADDR then mkBoard v (cmos d) (counter d) else d;
  inb port d := (if port =? CMOS_DATA then cmos d (selected d) else 0, d)
}.

#[export] Instance board_hpet : Hpet board := {
  main_counter d := (counter d, mkBoard (selected d) (cmos d) (counter d + 5000));
  capabilities d := (Z.shiftl 10000000 32, d)
}.

Lemma board_steady n (d : board) : steady n d (cmos d).
Proof. revert d. induction n as [|n IH]; intros d; [done|]. intros reg Hr. split; [done|]. apply (IH (mkBoard reg (cmos d) (counter d))). Qed.

#[export, refine] Instance board_laws : RtcLaws board := { registers d := cmos d }.
Proof. intros n d d' _. apply board_steady. Defined.

(** Eight minutes past noon on the first of March 1970, in BCD with the century
    in register 0x32. *)
Definition demo_cmos (b h reg : Z) : Z :=
  match reg with 0x00 => 0x30 | 0x02 => 0x08 | 0x04 => h | 0x07 => 0x01 | 0x08 => 0x03 | 0x09 => 0x70 | 0x32 => 0x19 | 0x0B => b | _ => 0 end.
Definition demo_board (b h : Z) : board := mkBoard 0 (demo_cmos b h) 1000.
Definition demo_time : rtc_time_t := mkTime 30 8 12 1 3 1970.

Lemma demo_showing b h sel cnt : demo_cmos b h 0x04 = enc_hour b 12 → Z.land b 4 = 0 → showing 3 0x32 b demo_time (mkBoard sel (demo_cmos b h) cnt).
Proof.
  intros Hh Hb. exists 0%nat, (mkBoard 0x0A (demo_cmos b h) cnt). split; [by split|]. split; [lia|].
  change (registers _) with (demo_cmos b h). split; [|done].
  split; change (demo_cmos b h 0x0B) with b; try exact Hh; unfold enc; rewrite Hb; by repeat split.
Qed.

Lemma demo_settles b h sel cnt : demo_cmos b h 0x04 = enc_hour b 12 → Z.land b 4 = 0 → settles 3 0x32 b demo_time 0 (mkBoard sel (demo_cmos b h) cnt).
Proof. intros Hh Hb. eapply settle_now; [by apply demo_showing|reflexivity|by apply demo_showing]. Qed.

(** In 24-hour mode the seconds are right. *)
Lemma get_epoch_rtc_correct_witness : ∃ d', get_epoch_rtc 1 3 0x32 (demo_board 2 0x12) = Ok (59 * 86400 + 12 * 3600 + 8 * 60 + 30, d').
Proof.
  destruct (get_epoch_rtc_correct 0 1 3 0x32 2 demo_time 59 (demo_board 2 0x12)) as (d'&E); [by apply demo_settles|done|by split_and!|by split_and!|done|lia|].
  exists d'. exact E.
Defined.

(** In 12-hour mode noon is read as midnight. *)
Example noon_is_midnight : (r ← get_epoch_rtc 1 3 0x32 (demo_board 0 0x92); mret r.1) = Ok (59 * 86400 + 0 * 3600 + 8 * 60 + 30).
Proof. by vm_compute. Qed.

(** A hundred million ticks later a second has passed. *)
Lemma get_epoch_correct_witness : ∃ s' d2, time_init 1 3 0x32 (mkClock 0 0 0 0 0xFED00000) (demo_board 2 0x12) = Ok (s', d2) ∧
  ∃ d5, get_epoch s' (mkBoard 0 (demo_cmos 2 0x12) 100001000) = Ok (5141311, d5).
Proof.
  destruct (get_epoch_correct 0 1 3 0x32 2 demo_time (date_after 59) (mkClock 0 0 0 0 0xFED00000) (demo_board 2 0x12)) as (s'&d2&E&Hnow);
    [done|done|by apply demo_settles|done|split_and!; try done; apply date_after_valid|lia|done|].
  exists s', d2. split; [exact E|]. destruct (Hnow (mkBoard 0 (demo_cmos 2 0x12) 100001000) eq_refl) as (d5&E5&_). exists d5. exact E5.
Defined.

Lemma msleep_correct_witness : ∃ d', msleep 30 1 (mkClock 0 0 100000 100 0xFED00000) (demo_board 2 0x12) = Ok d' ∧ counter d' = 106000.
Proof.
  destruct (msleep_correct 30 1 10000000 (mkClock 0 0 100000 100 0xFED00000) (demo_board 2 0x12) 19) as (E&_); [done|done|done|done|lia| |done|].
  - intros i Hi. do 19 (destruct i as [|i]; [done|]). lia.
  - eexists. split; [exact E|done].
Defined.
