(* ===== verification/Rand.v ===== *)
(** Random numbers (src/rand/swrand.c): a permuted congruential generator and
    uniform numbers of a range by rejection. *)

From S2P Require Import Prelude.

Definition LCG_MULT : Z := 6364136223846793005.
Definition LCG_INC : Z := 1442695040888963407.

Definition step_seed (seed : Z) : Z := u64 (seed * LCG_MULT + LCG_INC).

Definition output (seed : Z) : Z :=
  let xorshifted := u32 (Z.shiftr (Z.lxor (Z.shiftr seed 18) seed) 27) in
  let rot := u32 (Z.shiftr seed 59) in
  Z.lor (Z.shiftr xorshifted rot) (u32 (Z.shiftl xorshifted (Z.land (u32 (- rot)) 31))).

(** The number and the new seed. *)
Definition step_lcg_32 (seed : Z) : Z * Z := let seed := step_seed seed in (output seed, seed).

Definition swrand64 (seed : Z) : Z * Z :=
  let '(h, seed) := step_lcg_32 seed in let '(l, seed) := step_lcg_32 seed in (Z.lor (Z.shiftl h 32) l, seed).
Definition swrand32 (seed : Z) : Z * Z := step_lcg_32 seed.
Definition swrand16 (seed : Z) : Z * Z := let '(x, seed) := step_lcg_32 seed in (Z.shiftr x 16, seed).
Definition swrand8 (seed : Z) : Z * Z := let '(x, seed) := step_lcg_32 seed in (Z.shiftr x 24, seed).

(** [-range] reduced below [range]. *)
Definition threshold (range : Z) : Z :=
  let t := u32 (- range) in
  if t >=? range then let t := u32 (t - range) in if t >=? range then Z.rem t range else t else t.

Fixpoint reject_loop (fuel : nat) (range t m : Z) (seed : Z) : result (Z * Z) :=
  match fuel with
  | O => Fuel
  | S fuel =>
      if u32 m <? t then let '(x, seed) := swrand32 seed in reject_loop fuel range t (x * range) seed
      else mret (m, seed)
  end.

Definition randint (fuel : nat) (start fin seed : Z) : result (Z * Z) :=
  let '(start, fin) := if start >? fin then (fin, start) else (start, fin) in
  let range := u32 (fin - start) + 1 in
  let '(x, seed) := swrand32 seed in
  let m := x * range in
  '(m, seed) ← (if u32 m <? range then reject_loop fuel range (threshold range) m seed else mret (m, seed));
  mret (u32 (start + Z.shiftr m 32), seed).

(** * The sequence of seeds *)

Lemma step_seed_range s : 0 <= step_seed s < 2 ^ 64.
Proof. apply u64_range. Qed.

Definition seeds (n : nat) (s : Z) : Z := Nat.iter n step_seed s.

(** [1 + a + ... + a^(n-1)] for the multiplier [a]. *)
Fixpoint geometric (n : nat) : Z :=
  match n with O => 0 | S n => LCG_MULT * geometric n + 1 end.

(** The seeds without their reduction. *)
Lemma seeds_closed n s : 0 <= s < 2 ^ 64 → seeds n s = u64 (LCG_MULT ^ Z.of_nat n * s + LCG_INC * geometric n).
Proof.
  intros Hs. induction n as [|n IH].
  - cbn [seeds Nat.iter nat_rect geometric]. rewrite Z.pow_0_r, u64_id; lia.
  - change (seeds (S n) s) with (step_seed (seeds n s)). rewrite IH. unfold step_seed, u64. cbn [geometric].
    rewrite <- Zplus_mod_idemp_l, Zmult_mod_idemp_l, Zplus_mod_idemp_l. f_equal.
    replace (Z.of_nat (S n)) with (Z.of_nat n + 1) by lia. rewrite Z.pow_add_r, Z.pow_1_r by lia. ring.
Qed.

Lemma geometric_add m n : geometric (m + n) = LCG_MULT ^ Z.of_nat n * geometric m + geometric n.
Proof.
  induction n as [|n IH]; [rewrite Nat.add_0_r; cbn [geometric]; rewrite Z.pow_0_r; lia|].
  rewrite Nat.add_succ_r. cbn [geometric]. rewrite IH. replace (Z.of_nat (S n)) with (Z.of_nat n + 1) by lia.
  rewrite Z.pow_add_r, Z.pow_1_r by lia. ring.
Qed.

(** Powers of the multiplier are 1 modulo 4. *)
Lemma mult_pow_mod4 n : ∃ k, LCG_MULT ^ Z.of_nat n = 4 * k + 1.
Proof.
  induction n as [|n [k IH]]; [by exists 0|]. replace (Z.of_nat (S n)) with (Z.of_nat n + 1) by lia.
  rewrite Z.pow_add_r, Z.pow_1_r, IH by lia. exists (1591034055961698251 * (4 * k + 1) + k). unfold LCG_MULT. lia.
Qed.

(** The sum of [2^k] powers is [2^k] times an odd number. *)
Lemma geometric_pow2 k : ∃ q, geometric (2 ^ k) = 2 ^ Z.of_nat k * (2 * q + 1).
Proof.
  induction k as [|k [q IH]]; [by exists 0|].
  replace (2 ^ S k)%nat with (2 ^ k + 2 ^ k)%nat by (cbn; lia). rewrite geometric_add, IH.
  destruct (mult_pow_mod4 (2 ^ k)) as [j Hj]. rewrite Hj. exists (q * (2 * j + 1) + j).
  replace (Z.of_nat (S k)) with (Z.of_nat k + 1) by lia. rewrite Z.pow_add_r, Z.pow_1_r by lia. ring.
Qed.

Lemma pow_geometric n : LCG_MULT ^ Z.of_nat n - 1 = (LCG_MULT - 1) * geometric n.
Proof.
  induction n as [|n IH]; [cbn [geometric]; rewrite Z.pow_0_r; lia|]. replace (Z.of_nat (S n)) with (Z.of_nat n + 1) by lia.
  rewrite Z.pow_add_r, Z.pow_1_r by lia. cbn [geometric]. replace (LCG_MULT ^ Z.of_nat n) with ((LCG_MULT - 1) * geometric n + 1) by lia. ring.
Qed.

(** [2^k] steps move a seed by an odd multiple of [2^k]. *)
Lemma seeds_move k n s : 0 <= s < 2 ^ 64 → ∃ w z, seeds (n + 2 ^ k) s - seeds n s = 2 ^ Z.of_nat k * (2 * w + 1) + 2 ^ 64 * z.
Proof.
  intros Hs. rewrite !seeds_closed by done. set (X := λ n, LCG_MULT ^ Z.of_nat n * s + LCG_INC * geometric n).
  change (LCG_MULT ^ Z.of_nat ?m * s + LCG_INC * geometric ?m) with (X m).
  assert (X (n + 2 ^ k)%nat - X n = geometric (2 ^ k) * ((LCG_MULT - 1) * X n + LCG_INC)) as Hd.
  { unfold X. rewrite geometric_add, Nat2Z.inj_add, Z.pow_add_r by lia. pose proof (pow_geometric (2 ^ k)) as Hp.
    replace (LCG_MULT ^ Z.of_nat (2 ^ k)) with ((LCG_MULT - 1) * geometric (2 ^ k) + 1) by lia. ring. }
  destruct (geometric_pow2 k) as [q Hq]. rewrite Hq in Hd.
  set (u := 3182068111923396502 * X n + 721347520444481703).
  assert ((LCG_MULT - 1) * X n + LCG_INC = 2 * u + 1) as Hu by (unfold u, LCG_MULT, LCG_INC; lia). rewrite Hu in Hd.
  exists (q * (2 * u + 1) + u), (X n / 2 ^ 64 - X (n + 2 ^ k)%nat / 2 ^ 64). unfold u64.
  pose proof (Z.div_mod (X n) (2 ^ 64) ltac:(lia)). pose proof (Z.div_mod (X (n + 2 ^ k)%nat) (2 ^ 64) ltac:(lia)).
  replace (2 ^ Z.of_nat k * (2 * (q * (2 * u + 1) + u) + 1)) with (2 ^ Z.of_nat k * (2 * q + 1) * (2 * u + 1)) by ring. lia.
Qed.

(** Every residue modulo [2^k] comes up within [2^k] steps. *)
Lemma residues_visited k s y : 0 <= s < 2 ^ 64 → (k <= 64)%nat → ∃ n, (n < 2 ^ k)%nat ∧ (2 ^ Z.of_nat k | seeds n s - y).
Proof.
  intros Hs. induction k as [|k IH]; intros Hk; [exists 0%nat; split; [cbn; lia|apply Z.divide_1_l]|].
  destruct IH as (n&Hn&[j Hj]); [lia|]. replace (Z.of_nat (S k)) with (Z.of_nat k + 1) by lia. rewrite Z.pow_add_r, Z.pow_1_r by lia.
  assert (2 ^ S k = 2 ^ k + 2 ^ k)%nat as Ek by (cbn [Nat.pow]; lia). rewrite Ek. destruct (Z.Even_or_Odd j) as [[i Hi]|[i Hi]].
  { exists n. split; [lia|]. exists i. rewrite Hj, Hi. ring. }
  exists (n + 2 ^ k)%nat. split; [lia|]. destruct (seeds_move k n s Hs) as (w&z&Hm). exists (i + w + 1 + 2 ^ (63 - Z.of_nat k) * z).
  replace (seeds (n + 2 ^ k) s - y) with (seeds (n + 2 ^ k) s - seeds n s + (seeds n s - y)) by lia. rewrite Hm, Hj, Hi.
  assert (2 ^ 64 = 2 ^ (63 - Z.of_nat k) * (2 ^ Z.of_nat k * 2)) as ->; [|ring].
  replace (2 ^ Z.of_nat k * 2) with (2 ^ (Z.of_nat k + 1)) by (rewrite Z.pow_add_r by lia; lia). rewrite <- Z.pow_add_r by lia. f_equal. lia.
Qed.

(** Every seed is reached from every other. *)
Lemma seeds_reach s y : 0 <= s < 2 ^ 64 → 0 <= y < 2 ^ 64 → ∃ n, seeds n s = y.
Proof.
  intros Hs Hy. destruct (residues_visited 64 s y Hs ltac:(lia)) as (n&_&[j Hj]). exists n. change (2 ^ Z.of_nat 64) with (2 ^ 64) in Hj.
  assert (0 <= seeds n s < 2 ^ 64) by (destruct n; [done|apply step_seed_range]). nia.
Qed.

(** * Uniform numbers *)

Lemma output_range s : 0 <= s < 2 ^ 64 → 0 <= output s < 2 ^ 32.
Proof.
  intros Hs. unfold output. set (x := u32 _). assert (0 <= x < 2 ^ 32) as Hx by apply u32_range.
  apply lor_range; [lia| |apply u32_range]. rewrite Z.shiftr_div_pow2 by apply u32_range.
  assert (0 < 2 ^ u32 (Z.shiftr s 59)) by (apply Z.pow_pos_nonneg; [lia|apply u32_range]).
  split; [apply Z.div_pos; lia|]. apply Z.div_lt_upper_bound; [done|]. nia.
Qed.

Lemma threshold_ok r : 0 < r <= 2 ^ 32 → threshold r = 2 ^ 32 mod r.
Proof.
  intros Hr. unfold threshold, u32. assert ((- r) mod 2 ^ 32 = 2 ^ 32 - r) as Et.
  { destruct (decide (r = 2 ^ 32)) as [->|]; [done|]. symmetry. apply Z.mod_unique_pos with (-1); lia. }
  rewrite Et, !Z.geb_leb. destruct (Z.leb_spec r (2 ^ 32 - r)) as [H1|H1].
  - rewrite (Z.mod_small (2 ^ 32 - r - r)) by lia. destruct (Z.leb_spec r (2 ^ 32 - r - r)).
    + rewrite Z.rem_mod_nonneg by lia. replace (2 ^ 32 - r - r) with (2 ^ 32 + (-2) * r) by lia. by rewrite Z.mod_add by lia.
    + apply Z.mod_unique_pos with 2; lia.
  - destruct (decide (r = 2 ^ 32)) as [->|]; [done|]. apply Z.mod_unique_pos with 1; lia.
Qed.

(** The draws that are kept for a range of [r] numbers: the others would favour
    some of them. *)
Definition accepted (r x : Z) : bool := 2 ^ 32 mod r <=? (x * r) mod 2 ^ 32.

(** The least kept draw that is reduced to [v]. *)
Definition bucket (r v : Z) : Z := (v * 2 ^ 32 + 2 ^ 32 mod r + r - 1) / r.

Lemma accepted_last r : 0 < r <= 2 ^ 32 → accepted r (2 ^ 32 - 1) = true.
Proof.
  intros Hr. unfold accepted. apply Z.leb_le. destruct (decide (r = 2 ^ 32)) as [->|]; [done|].
  replace (((2 ^ 32 - 1) * r) mod 2 ^ 32) with (2 ^ 32 - r) by (apply Z.mod_unique_pos with (r - 1); lia).
  pose proof (Z.div_mod (2 ^ 32) r ltac:(lia)). assert (1 <= 2 ^ 32 / r) by (apply Z.div_le_lower_bound; lia). nia.
Qed.

(** The draws that are kept for one result are [2^32 / r] numbers in a row. *)
Lemma accepted_run r v x : 0 < r <= 2 ^ 32 → 0 <= v < r →
  (0 <= x < 2 ^ 32 ∧ accepted r x = true ∧ Z.shiftr (x * r) 32 = v) ↔ bucket r v <= x < bucket r v + 2 ^ 32 / r.
Proof.
  intros Hr Hv. pose proof (Z.div_mod (2 ^ 32) r ltac:(lia)) as Hdm. pose proof (Z.mod_pos_bound (2 ^ 32) r ltac:(lia)) as Ht.
  unfold bucket, accepted. set (t := 2 ^ 32 mod r) in *. set (q := 2 ^ 32 / r) in *.
  assert (1 <= q) as Hq by (apply Z.div_le_lower_bound; lia). set (a := v * 2 ^ 32 + t). set (lo := (a + r - 1) / r).
  assert (a <= lo * r < a + r) as Hlo.
  { unfold lo. pose proof (Z.div_mod (a + r - 1) r ltac:(lia)). pose proof (Z.mod_pos_bound (a + r - 1) r ltac:(lia)). nia. }
  rewrite Z.leb_le, Z.shiftr_div_pow2 by lia.
  pose proof (Z.div_mod (x * r) (2 ^ 32) ltac:(lia)) as Hx. pose proof (Z.mod_pos_bound (x * r) (2 ^ 32) ltac:(lia)) as Hm.
  set (h := x * r / 2 ^ 32) in *. set (l := x * r mod 2 ^ 32) in *. split.
  - intros (Hb&Hacc&->). split; nia.
  - intros Hrange.
    assert (v * 2 ^ 32 + t <= x * r < v * 2 ^ 32 + 2 ^ 32) as Hxr by nia.
    assert (h = v) as -> by nia. split_and!; nia.
Qed.

(** A seed whose number is the greatest one. *)
Definition last_seed : Z := 18446673705233808384.

Lemma last_seed_output : output last_seed = 2 ^ 32 - 1.
Proof. by vm_compute. Qed.

(** The numbers the generator gives from the seed [s], from the number 0 on. *)
Definition draw (k : nat) (s : Z) : Z := output (seeds (S k) s).

Lemma draw_range k s : 0 <= draw k s < 2 ^ 32.
Proof. apply output_range, step_seed_range. Qed.

Lemma last_draw s : 0 <= s < 2 ^ 64 → ∃ n, draw n s = 2 ^ 32 - 1.
Proof.
  intros Hs. destruct (seeds_reach (step_seed s) last_seed (step_seed_range s) ltac:(done)) as (n&Hn).
  exists n. unfold draw, seeds in *. rewrite Nat.iter_succ_r, Hn. apply last_seed_output.
Qed.

(** The draw number [k] is the first that is kept. *)
Definition first_kept (r : Z) (k : nat) (s : Z) : Prop :=
  accepted r (draw k s) = true ∧ ∀ j, (j < k)%nat → accepted r (draw j s) = false.

Lemma first_kept_exists r s : 0 < r <= 2 ^ 32 → 0 <= s < 2 ^ 64 → ∃ k, first_kept r k s.
Proof.
  intros Hr Hs. destruct (last_draw s Hs) as (n&Hn).
  assert (∀ m, (∃ k, first_kept r k s) ∨ ∀ j, (j < m)%nat → accepted r (draw j s) = false) as Hm.
  { induction m as [|m [IH|IH]]; [right; lia|by left|]. destruct (accepted r (draw m s)) eqn:E; [left; by exists m|].
    right. intros j Hj. destruct (decide (j = m)) as [->|]; [done|]. apply IH. lia. }
  destruct (Hm (S n)) as [?|H]; [done|]. specialize (H n ltac:(lia)). by rewrite Hn, accepted_last in H.
Qed.

(** Redrawing from the draw number [j] ends with the first that is kept. *)
Lemma reject_loop_ok r s k j fuel : 0 < r <= 2 ^ 32 → first_kept r k s → (j <= k)%nat → (k - j < fuel)%nat →
  reject_loop fuel r (threshold r) (draw j s * r) (seeds (S j) s) = Ok (draw k s * r, seeds (S k) s).
Proof.
  intros Hr [Hk Hrej]. revert j. induction fuel as [|fuel IH]; intros j Hj Hf; [lia|]. cbn [reject_loop].
  rewrite threshold_ok by done. unfold u32. rewrite Z.ltb_antisym. fold (accepted r (draw j s)).
  destruct (decide (j = k)) as [->|]; [by rewrite Hk|]. rewrite Hrej by lia. cbn [negb].
  unfold swrand32, step_lcg_32. rewrite <- threshold_ok by done. apply (IH (S j)); lia.
Qed.

(** The test before the loop only saves the threshold of a draw that is kept. *)
Lemma randint_draws fuel start fin seed : 0 <= start < 2 ^ 32 → 0 <= fin < 2 ^ 32 → (0 < fuel)%nat →
  let lo := Z.min start fin in let r := Z.max start fin - lo + 1 in
  randint fuel start fin seed =
    '(m, seed) ← reject_loop fuel r (threshold r) (draw 0 seed * r) (seeds 1 seed); mret (u32 (lo + Z.shiftr m 32), seed).
Proof.
  intros Hstart Hfin Hf lo r. unfold randint. set (hi := Z.max start fin) in *. assert (0 < r <= 2 ^ 32) as Hr by lia.
  assert ((if start >? fin then (fin, start) else (start, fin)) = (lo, hi)) as ->
    by (rewrite Z.gtb_ltb; unfold lo, hi; destruct (Z.ltb_spec fin start); f_equal; lia).
  assert (u32 (hi - lo) + 1 = r) as -> by (rewrite u32_id; lia). unfold swrand32, step_lcg_32.
  change (step_seed seed) with (seeds 1 seed). change (output (seeds 1 seed)) with (draw 0 seed).
  destruct (Z.ltb_spec (u32 (draw 0 seed * r)) r); [done|]. destruct fuel as [|fuel]; [lia|]. cbn [reject_loop].
  rewrite (proj2 (Z.ltb_ge (u32 (draw 0 seed * r)) (threshold r))); [done|].
  rewrite threshold_ok by done. pose proof (Z.mod_pos_bound (2 ^ 32) r ltac:(lia)). lia.
Qed.

(** C40: [randint] returns the number that belongs to the first draw that is
    kept, after finitely many draws, and leaves the seed behind that draw: the
    draws before it are all rejected.  Each number of the range, its bounds in
    either order, belongs to equally many kept draws, [2^32 / r] of them in a
    row, so uniform draws give uniform results. *)
Theorem randint_correct start fin seed : 0 <= start < 2 ^ 32 → 0 <= fin < 2 ^ 32 → 0 <= seed < 2 ^ 64 →
  let lo := Z.min start fin in let hi := Z.max start fin in let r := hi - lo + 1 in
  (∃ k v, first_kept r k seed ∧ lo <= v <= hi ∧
    (∀ fuel, (k < fuel)%nat → randint fuel start fin seed = Ok (v, seeds (S k) seed)) ∧
    ∀ w, lo <= w <= hi → (v = w ↔ bucket r (w - lo) <= draw k seed < bucket r (w - lo) + 2 ^ 32 / r)) ∧
  (∀ w x, lo <= w <= hi → bucket r (w - lo) <= x < bucket r (w - lo) + 2 ^ 32 / r → 0 <= x < 2 ^ 32 ∧ accepted r x = true).
Proof.
  intros Hstart Hfin Hseed lo hi r. assert (0 < r <= 2 ^ 32) as Hr by lia. split.
  - destruct (first_kept_exists r seed Hr Hseed) as (k&Hk). pose proof (draw_range k seed) as Hx.
    assert (0 <= Z.shiftr (draw k seed * r) 32 < r) as Hres.
    { rewrite Z.shiftr_div_pow2 by lia. split; [apply Z.div_pos; lia|]. apply Z.div_lt_upper_bound; [lia|]. nia. }
    exists k, (lo + Z.shiftr (draw k seed * r) 32). split; [done|]. split; [lia|]. split.
    + intros fuel Hf. rewrite randint_draws by (done || lia). fold lo hi r. rewrite (reject_loop_ok r seed k 0) by (done || lia).
      cbn [mbind result_bind]. by rewrite u32_id by lia.
    + intros w Hw. rewrite <- accepted_run by lia. destruct Hk as [Hk _]. split; [intros <-; split_and!; done || lia|lia].
  - intros w x Hw Hb. apply accepted_run in Hb as (?&?&_); [done|lia..].
Qed.

(** The generator goes through all of its 2^64 states, from every one of them. *)
Theorem swrand_visits_all s y : 0 <= s < 2 ^ 64 → 0 <= y < 2 ^ 64 → ∃ n, (n < 2 ^ 64)%nat ∧ seeds n s = y.
Proof.
  intros Hs Hy. destruct (residues_visited 64 s y Hs (le_n 64)) as (n&Hn&[j Hj]). exists n. split; [exact Hn|]. change (2 ^ Z.of_nat 64) with (2 ^ 64) in Hj.
  assert (0 <= seeds n s < 2 ^ 64) by (destruct n; [done|apply step_seed_range]). nia.
Qed.

(** A die. *)
Lemma randint_correct_witness :
  ∃ k v, first_kept 6 k 42 ∧ 1 <= v <= 6 ∧ ∀ fuel, (k < fuel)%nat → randint fuel 1 6 42 = Ok (v, seeds (S k) 42).
Proof.
  destruct (randint_correct 1 6 42) as [(k&v&Hk&Hv&H&_) _]; [done|done|done|]. exists k, v. split; [exact Hk|]. split; [exact Hv|exact H].
Defined.

Lemma swrand_visits_all_witness : ∃ n, (n < 2 ^ 64)%nat ∧ seeds n 1 = 0.
Proof. exact (swrand_visits_all 1 0 ltac:(done) ltac:(done)). Defined.

Example randint_run : (r ← randint 5 6 1 42; mret r.1) = Ok 3.
Proof. by vm_compute. Qed.
