(* ===== verification/Acpi.v ===== *)
(** The ACPI tables of the firmware (src/firmware/acpi/).

    [acpi_init] goes through the root table and gives every table with a good
    checksum to the code of its signature.  The file models the walk and what
    the codes of the tables keep; the log lines are left out, and of the HPET
    table the file keeps the address that [hpet_init] maps. *)

From S2P Require Import Prelude Mem Crc32 Bytes.

(** * What the tables leave behind *)

Record madt_iso_t := mkIso { bus_source : Z; gsi : Z; iso_flags : Z }.
Record cedt_ret_t := mkCedt { phys_base : Z; window_size : Z; host_bridge_uid : Z; found : bool }.

(** Pointers are 0 before their table was found. *)
Record acpi_state := mkAcpi {
  lapic_phys : Z;
  ioapic_phys : Z;
  isos : list madt_iso_t;
  iso_count : Z;
  fadt : Z;
  mcfg_ptr : Z;
  mcfg_entry_count : Z;
  primary_entry : Z;
  mcfg_is_initialized : bool;
  g_cxl_info : cedt_ret_t;
  hpet_phys : Z;
  bgrt_vaddr : Z
}.

Definition acpi_start : acpi_state :=
  mkAcpi 0 0 (replicate 16 (mkIso 0 0 0)) 0 0 0 0 0 false (mkCedt 0 0 0 false) 0 0.

Definition with_lapic s v := mkAcpi v (ioapic_phys s) (isos s) (iso_count s) (fadt s) (mcfg_ptr s) (mcfg_entry_count s) (primary_entry s) (mcfg_is_initialized s) (g_cxl_info s) (hpet_phys s) (bgrt_vaddr s).
Definition with_ioapic s v := mkAcpi (lapic_phys s) v (isos s) (iso_count s) (fadt s) (mcfg_ptr s) (mcfg_entry_count s) (primary_entry s) (mcfg_is_initialized s) (g_cxl_info s) (hpet_phys s) (bgrt_vaddr s).
Definition with_isos s l n := mkAcpi (lapic_phys s) (ioapic_phys s) l n (fadt s) (mcfg_ptr s) (mcfg_entry_count s) (primary_entry s) (mcfg_is_initialized s) (g_cxl_info s) (hpet_phys s) (bgrt_vaddr s).
Definition with_fadt s v := mkAcpi (lapic_phys s) (ioapic_phys s) (isos s) (iso_count s) v (mcfg_ptr s) (mcfg_entry_count s) (primary_entry s) (mcfg_is_initialized s) (g_cxl_info s) (hpet_phys s) (bgrt_vaddr s).
Definition with_mcfg s p n e := mkAcpi (lapic_phys s) (ioapic_phys s) (isos s) (iso_count s) (fadt s) p n e true (g_cxl_info s) (hpet_phys s) (bgrt_vaddr s).
Definition with_cedt s v := mkAcpi (lapic_phys s) (ioapic_phys s) (isos s) (iso_count s) (fadt s) (mcfg_ptr s) (mcfg_entry_count s) (primary_entry s) (mcfg_is_initialized s) v (hpet_phys s) (bgrt_vaddr s).
Definition with_hpet s v := mkAcpi (lapic_phys s) (ioapic_phys s) (isos s) (iso_count s) (fadt s) (mcfg_ptr s) (mcfg_entry_count s) (primary_entry s) (mcfg_is_initialized s) (g_cxl_info s) v (bgrt_vaddr s).
Definition with_bgrt s v := mkAcpi (lapic_phys s) (ioapic_phys s) (isos s) (iso_count s) (fadt s) (mcfg_ptr s) (mcfg_entry_count s) (primary_entry s) (mcfg_is_initialized s) (g_cxl_info s) (hpet_phys s) v.

Section Acpi.
Variable m : memory.
Variable hhdm_offset : Z.

(** * Headers *)

(** The size of [struct acpi_sdt_header], and its length field. *)
Definition SDT_HEADER : Z := 36.
Definition table_length (table : Z) : result Z := load_le 4 m (table + 4).

(** A [memcpy] of [n] bytes at [p] into a variable. *)
Definition copy_in (n : nat) (p : Z) : result Z :=
  _ ← nonnull "MEMORY" "memcpy src is null" p;
  _ ← safe "MEMORY" "memcpy src is out of range" p (Z.of_nat n);
  load_le n m p.

(** [memcmp(p, s, n) == 0] for a constant [s]. *)
Definition matches (p : Z) (s : bytes) : result bool :=
  _ ← nonnull "MEMORY" "memcmp s1 is null" p;
  _ ← safe "MEMORY" "memcmp s1 is out of range" p (Z.of_nat (length s));
  b ← load_bytes (length s) m p; mret (bytes_eqb b s).

Fixpoint checksum_loop (n : nat) (p sum : Z) : result Z :=
  match n with
  | O => mret sum
  | S n => b ← load8 m p; checksum_loop n (p + 1) (u8 (sum + b))
  end.

Definition acpi_checksum (table : Z) : result bool :=
  len ← table_length table; sum ← checksum_loop (Z.to_nat len) table 0; mret (sum =? 0).

(** * MADT *)

(** [ptr] runs to [fin]; an entry of length 0 ends the walk. *)
Fixpoint madt_loop (fuel : nat) (p fin : Z) (s : acpi_state) : result acpi_state :=
  match fuel with
  | O => Fuel
  | S fuel =>
      if p <? fin then
        type ← load8 m p;
        len ← load8 m (p + 1);
        if len =? 0 then mret s
        else
          s ← (if type =? 1 then a ← copy_in 4 (p + 4); mret (with_ioapic s a)
               else if type =? 2 then
                 if iso_count s <? 16 then
                   b ← load8 m (p + 3); g ← copy_in 4 (p + 4); f ← copy_in 2 (p + 8);
                   mret (with_isos s (<[Z.to_nat (iso_count s) := mkIso b g f]> (isos s)) (iso_count s + 1))
                 else mret s
               else mret s);
          madt_loop fuel (p + len) fin s
      else mret s
  end.

Definition madt_init (table : Z) (s : acpi_state) : result acpi_state :=
  lapic ← load_le 4 m (table + SDT_HEADER);
  len ← table_length table;
  madt_loop (S (Z.to_nat len)) (table + SDT_HEADER + 8) (table + len) (with_lapic s lapic).

Definition IOAPIC_POLARITY_LOW : Z := Z.shiftl 1 13.
Definition IOAPIC_TRIGGER_LEVEL : Z := Z.shiftl 1 15.

(** The flags that an override asks for. *)
Definition iso_pin_flags (f : Z) : Z :=
  Z.lor (if Z.land f 3 =? 3 then IOAPIC_POLARITY_LOW else 0) (if Z.land (Z.shiftr f 2) 3 =? 3 then IOAPIC_TRIGGER_LEVEL else 0).

Fixpoint query_loop (n : nat) (i irq : Z) (s : acpi_state) : result (Z * Z) :=
  match n with
  | O => mret (irq, 0)
  | S n =>
      o ← of_option (isos s !! Z.to_nat i);
      if bus_source o =? irq then mret (u8 (gsi o), iso_pin_flags (iso_flags o)) else query_loop n (i + 1) irq s
  end.

(** The pin and the flags of an interrupt. *)
Definition madt_query_irq (irq : Z) (s : acpi_state) : result (Z * Z) := query_loop (Z.to_nat (iso_count s)) 0 irq s.

(** * MCFG *)

(** The sizes of [struct mcfg_table] and [struct mcfg_entry], and its fields. *)
Definition MCFG_TABLE : Z := 44.
Definition MCFG_ENTRY : Z := 16.
Definition entry_base (e : Z) : result Z := load_le 8 m e.
Definition entry_segment (e : Z) : result Z := load_le 2 m (e + 8).
Definition entry_start (e : Z) : result Z := load8 m (e + 10).
Definition entry_end (e : Z) : result Z := load8 m (e + 11).

Definition mcfg_init (table : Z) (s : acpi_state) : result acpi_state :=
  len ← table_length table;
  let n := Z.quot (u64 (len - MCFG_TABLE)) MCFG_ENTRY in
  let first := table + MCFG_TABLE in
  seg ← (if n >? 0 then entry_segment first else mret 1);
  mret (with_mcfg s table n (if (n >? 0) && (seg =? 0) then first else primary_entry s)).

(** The entry of a segment and bus, NULL without one. *)
Fixpoint entry_loop (n : nat) (e segment bus : Z) : result Z :=
  match n with
  | O => mret NULL
  | S n =>
      g ← entry_segment e; b ← entry_start e; l ← entry_end e;
      if (g =? segment) && (bus >=? b) && (bus <=? l) then mret e else entry_loop n (e + MCFG_ENTRY) segment bus
  end.

Definition mcfg_get_device_addr (s : acpi_state) (segment bus slot func : Z) : result Z :=
  if mcfg_ptr s =? NULL then mret NULL
  else
    last ← (if negb (primary_entry s =? NULL) && (segment =? 0) then entry_end (primary_entry s) else mret (-1));
    e ← (if bus <=? last then mret (primary_entry s)
         else entry_loop (Z.to_nat (mcfg_entry_count s)) (mcfg_ptr s + MCFG_TABLE) segment bus);
    if e =? NULL then mret NULL
    else
      base ← entry_base e; start ← entry_start e;
      let bus_off := u32 (bus - start) in
      mret (u64 (u64 (base + hhdm_offset) + Z.lor (Z.lor (u32 (Z.shiftl bus_off 20)) (Z.shiftl slot 15)) (Z.shiftl func 12))).

(** * CEDT *)

(** Fields of [acpi_cedt_chbs_t] and [acpi_cedt_cfmws_t]. *)
Definition chbs_uid (p : Z) : result Z := load_le 4 m (p + 4).
Definition cfmws_base (p : Z) : result Z := load_le 8 m (p + 8).
Definition cfmws_size (p : Z) : result Z := load_le 8 m (p + 16).
Definition cfmws_ways (p : Z) : result Z := load_le 4 m (p + 28).
Definition cfmws_restrict (p : Z) : result Z := load_le 2 m (p + 34).
Definition cfmws_target (p i : Z) : result Z := load_le 4 m (p + 36 + 4 * i).

(** The first target of a window that may be taken. *)
Fixpoint target_loop (n : nat) (i p active_uid : Z) (has_uid : bool) : result (option Z) :=
  match n with
  | O => mret None
  | S n =>
      u ← cfmws_target p i;
      if negb has_uid || (u =? active_uid) then mret (Some u) else target_loop n (i + 1) p active_uid has_uid
  end.

Fixpoint cedt_loop (fuel : nat) (p fin active_uid : Z) (has_uid : bool) (s : acpi_state) : result acpi_state :=
  match fuel with
  | O => Fuel
  | S fuel =>
      if p <? fin then
        len ← load_le 2 m (p + 2);
        if len =? 0 then mret s
        else
          type ← load8 m p;
          if type =? 0 then u ← chbs_uid p; cedt_loop fuel (p + len) fin u true s
          else if type =? 1 then
            r ← cfmws_restrict p;
            if (r =? 0) || negb (Z.land r 0xA =? 0) then
              ways ← cfmws_ways p;
              if 31 <=? ways then Fault
              else
                o ← target_loop (Z.to_nat (2 ^ ways)) 0 p active_uid has_uid;
                match o with
                | Some u => b ← cfmws_base p; z ← cfmws_size p; mret (with_cedt s (mkCedt b z u true))
                | None => cedt_loop fuel (p + len) fin active_uid has_uid s
                end
            else cedt_loop fuel (p + len) fin active_uid has_uid s
          else cedt_loop fuel (p + len) fin active_uid has_uid s
      else mret s
  end.

Definition cedt_init (table : Z) (s : acpi_state) : result acpi_state :=
  len ← table_length table;
  cedt_loop (S (Z.to_nat len)) (table + SDT_HEADER) (table + len) 0 false s.

Definition cedt_get_info (s : acpi_state) : option cedt_ret_t := if found (g_cxl_info s) then Some (g_cxl_info s) else None.

(** * FADT, HPET, WAET, BGRT *)

Definition fadt_init (table : Z) (s : acpi_state) : acpi_state := with_fadt s table.

(** Fields of [acpi_fadt_t] at the offsets of its packed declaration. *)
Definition fadt_dsdt (t : Z) : result Z := load_le 4 m (t + 40).
Definition fadt_pm1a_cnt_blk (t : Z) : result Z := load_le 4 m (t + 64).
Definition fadt_century (t : Z) : result Z := load8 m (t + 104).
Definition fadt_x_dsdt (t : Z) : result Z := load_le 8 m (t + 136).
Definition fadt_x_pm1a_space (t : Z) : result Z := load8 m (t + 168).
Definition fadt_x_pm1a_address (t : Z) : result Z := load_le 8 m (t + 172).

(** The 64-bit address of the register block, if the table has it. *)
Definition fadt_x_pm1a (t : Z) : result Z :=
  len ← table_length t; if len >=? 244 then fadt_x_pm1a_address t else mret 0.

Definition fadt_get_pm1a_cnt (s : acpi_state) : result Z :=
  if fadt s =? NULL then mret 0
  else a ← fadt_x_pm1a (fadt s); if negb (a =? 0) then mret a else fadt_pm1a_cnt_blk (fadt s).

Definition fadt_is_pm1a_mmio (s : acpi_state) : result bool :=
  if fadt s =? NULL then mret false
  else a ← fadt_x_pm1a (fadt s); if negb (a =? 0) then sp ← fadt_x_pm1a_space (fadt s); mret (sp =? 0) else mret false.

(** The bytes of a package length by its first byte. *)
Definition pkg_len_bytes (b : Z) : Z :=
  if Z.shiftr b 6 =? 0 then 1 else if Z.shiftr b 6 =? 1 then 2 else if Z.shiftr b 6 =? 2 then 3 else 4.

Definition S5_NAME : bytes := [95; 83; 53; 95].

(** [i] runs below the 32-bit [limit]. *)
Fixpoint s5_loop (fuel : nat) (dsdt i limit : Z) : result Z :=
  match fuel with
  | O => Fuel
  | S fuel =>
      if i <? limit then
        b ← matches (dsdt + i) S5_NAME;
        if (b : bool) then
          let i := u32 (i + 4) in
          op ← load8 m (dsdt + i);
          if op =? 0x12 then
            let i := u32 (i + 1) in
            pkg_len ← load8 m (dsdt + i);
            let i := u32 (u32 (i + pkg_len_bytes pkg_len) + 1) in
            v ← load8 m (dsdt + i); mret (u16 (Z.shiftl v 10))
          else s5_loop fuel dsdt (u32 (i + 1)) limit
        else s5_loop fuel dsdt (u32 (i + 1)) limit
      else mret (Z.shiftl 5 10)
  end.

Definition fadt_get_s5_types (fuel : nat) (s : acpi_state) : result Z :=
  if fadt s =? NULL then mret (Z.shiftl 5 10)
  else
    len ← table_length (fadt s);
    x ← (if len >=? 148 then fadt_x_dsdt (fadt s) else mret 0);
    d ← (if negb (x =? 0) then mret x else fadt_dsdt (fadt s));
    let dsdt := u64 (d + hhdm_offset) in
    dsdt_len ← copy_in 4 (dsdt + 4);
    s5_loop fuel dsdt 0 (u32 (dsdt_len - 8)).

(** The address whose page [hpet_init] maps before it starts the counter. *)
Definition hpet_take_address (table : Z) (s : acpi_state) : result acpi_state :=
  a ← load_le 8 m (table + 44); mret (with_hpet s a).

Definition bgrt_init (table : Z) (s : acpi_state) : result acpi_state :=
  status ← load8 m (table + 38); type ← load8 m (table + 39);
  if (Z.land status 1 =? 0) || negb (type =? 0) then mret s
  else a ← load_le 8 m (table + 40); mret (with_bgrt s (u64 (a + hhdm_offset))).

(** [waet_init] only logs. *)
Definition waet_init (table : Z) (s : acpi_state) : result acpi_state := _ ← load_le 4 m (table + 36); mret s.

(** * The walk *)

Definition acpi_discovery_table : list (bytes * (Z → acpi_state → result acpi_state)) := [
  ([65; 80; 73; 67], madt_init); ([70; 65; 67; 80], λ t s, mret (fadt_init t s)); ([77; 67; 70; 71], mcfg_init);
  ([67; 69; 68; 84], cedt_init); ([72; 80; 69; 84], hpet_take_address); ([87; 65; 69; 84], waet_init); ([66; 71; 82; 84], bgrt_init)].

(** The code of the first signature that the table has. *)
Fixpoint discover (l : list (bytes * (Z → acpi_state → result acpi_state))) (table : Z) (s : acpi_state) : result acpi_state :=
  match l with
  | [] => mret s
  | (sig, h) :: l => b ← matches table sig; if (b : bool) then h table s else discover l table s
  end.

(** [n] entries of [ptr_size] bytes from [p] on are left. *)
Fixpoint table_loop (n : nat) (p : Z) (ptr_size : nat) (s : acpi_state) : result acpi_state :=
  match n with
  | O => mret s
  | S n =>
      table_phys ← copy_in ptr_size p;
      s ← (if table_phys =? 0 then mret s
           else
             let table := u64 (table_phys + hhdm_offset) in
             ok ← acpi_checksum table;
             _ ← copy_in 4 table;
             if (ok : bool) then discover acpi_discovery_table table s else mret s);
      table_loop n (p + Z.of_nat ptr_size) ptr_size s
  end.

(** The fields of the RSDP; [entries] is an int. *)
Definition acpi_init (rsdp : Z) (s : acpi_state) : result acpi_state :=
  revision ← load8 m (rsdp + 15);
  x ← (if revision >=? 2 then load_le 8 m (rsdp + 24) else mret 0);
  r ← (if negb (x =? 0) then mret x else load_le 4 m (rsdp + 16));
  let is_xsdt := negb (x =? 0) in
  let xsdt := u64 (r + hhdm_offset) in
  if xsdt =? 0 then mret s
  else
    len ← table_length xsdt;
    let ptr_size := if is_xsdt then 8%nat else 4%nat in
    let entries := i32 (Z.quot (u64 (len - SDT_HEADER)) (Z.of_nat ptr_size)) in
    table_loop (Z.to_nat entries) (xsdt + SDT_HEADER) ptr_size s.

End Acpi.
