(* ===== verification/AcpiSpec.v ===== *)
(** What the ACPI code makes of well-formed tables (src/firmware/acpi/). *)

From S2P Require Import Prelude Mem Crc32 Bytes Acpi.

(** * Reads of a table *)

(** The bytes [l] are stored at [a], in canonical addresses. *)
Record reads (m : memory) (a : Z) (l : bytes) : Prop := {
  rd_stored : stored m a l;
  rd_placed : placed a (Z.of_nat (length l));
  rd_bytes : Forall is_byte l
}.

Lemma stored_part m a l off n : stored m a l → (off + n <= length l)%nat → stored m (a + Z.of_nat off) (take n (drop off l)).
Proof.
  intros H Hl i Hi. rewrite length_take, length_drop in Hi. replace (a + Z.of_nat off + Z.of_nat i) with (a + Z.of_nat (off + i)) by lia.
  rewrite H by lia. rewrite lookup_take_lt by lia. by rewrite lookup_drop.
Qed.

Lemma load_part m a l off n : stored m a l → (off + n <= length l)%nat →
  load_bytes n m (a + Z.of_nat off) = Ok (take n (drop off l)).
Proof.
  intros H Hl. pose proof (stored_bytes _ _ _ (stored_part m a l off n H Hl)) as E.
  rewrite length_take, length_drop, Nat.min_l in E by lia. exact E.
Qed.

Lemma le_part m a l off n : stored m a l → (off + n <= length l)%nat →
  load_le n m (a + Z.of_nat off) = Ok (le_val (take n (drop off l))).
Proof. intros H Hl. unfold load_le. by rewrite (load_part m a l off n H Hl). Qed.

Lemma byte_part m a l off : stored m a l → (off < length l)%nat → load8 m (a + Z.of_nat off) = Ok (l !!! off).
Proof. apply stored_load. Qed.

Lemma reads_safe m a l off n : reads m a l → (off + n <= length l)%nat →
  range_is_safe (a + Z.of_nat off) (Z.of_nat n) = true ∧ ((0 < n)%nat → a + Z.of_nat off ≠ NULL).
Proof.
  intros [_ Hp _] Hl. pose proof Hp as [Ha Hb]. split; [|unfold NULL; lia].
  destruct n as [|n]; [done|]. rewrite <- (u64_id (a + Z.of_nat off)) by lia. apply (placed_safe a (Z.of_nat (length l))); [done|lia..].
Qed.

Lemma copy_in_ok m a l off n : reads m a l → (0 < n)%nat → (off + n <= length l)%nat →
  copy_in m n (a + Z.of_nat off) = Ok (le_val (take n (drop off l))).
Proof.
  intros H Hn Hl. destruct (reads_safe m a l off n H Hl) as [Hs Hne]. unfold copy_in, nonnull, safe.
  rewrite (proj2 (Z.eqb_neq _ NULL)) by auto. rewrite Hs. cbn [negb mbind result_bind]. apply le_part; [apply H|done].
Qed.

Lemma matches_ok m a l off sig : reads m a l → (0 < length sig)%nat → (off + length sig <= length l)%nat →
  matches m (a + Z.of_nat off) sig = Ok (bool_decide (take (length sig) (drop off l) = sig)).
Proof.
  intros H Hn Hl. destruct (reads_safe m a l off _ H Hl) as [Hs Hne]. unfold matches, nonnull, safe.
  rewrite (proj2 (Z.eqb_neq _ NULL)) by auto. rewrite Hs. cbn [negb mbind result_bind]. by rewrite (load_part m a l) by (apply H || done).
Qed.

(** * Checksums *)

Definition byte_sum (l : bytes) : Z := foldr Z.add 0 l.

Lemma checksum_loop_ok m l a sum : stored m a l → checksum_loop m (length l) a sum = Ok (if decide (l = []) then sum else u8 (sum + byte_sum l)).
Proof.
  revert a sum. induction l as [|c l IH]; intros a sum H; [done|]. cbn [length checksum_loop].
  pose proof (stored_load m a (c :: l) 0 H ltac:(simpl; lia)) as E. rewrite Z.add_0_r in E. rewrite E. cbn [mbind result_bind].
  change (c :: l) with ([c] ++ l) in H. apply stored_app in H as [_ H]. rewrite (IH (a + 1) _ H). rewrite (decide_False (P := c :: l = [])) by done. f_equal.
  cbn [byte_sum foldr]. fold (byte_sum l). change ((c :: l) !!! 0%nat) with c. case_decide as Hl; [subst; cbn [byte_sum foldr]; f_equal; lia|].
  unfold u8. rewrite Zplus_mod_idemp_l. f_equal. lia.
Qed.

(** An image with its length in the header. *)
Definition sized (l : bytes) : Prop := (36 <= length l)%nat ∧ le_val (take 4 (drop 4 l)) = Z.of_nat (length l).

Definition sum_ok (l : bytes) : bool := byte_sum l mod 256 =? 0.

Lemma table_length_ok m a l : stored m a l → sized l → table_length m a = Ok (Z.of_nat (length l)).
Proof. intros H [Hl E]. unfold table_length. assert (load_le 4 m (a + 4) = Ok (le_val (take 4 (drop 4 l)))) as -> by (apply (le_part m a l 4 4 H); lia). by rewrite E. Qed.

Lemma acpi_checksum_ok m a l : stored m a l → sized l → acpi_checksum m a = Ok (sum_ok l).
Proof.
  intros H Hs. unfold acpi_checksum. rewrite (table_length_ok m a l) by done. cbn [mbind result_bind]. rewrite Nat2Z.id, checksum_loop_ok by done.
  destruct l; [by destruct Hs; simpl in *; lia|]. rewrite decide_False by done. done.
Qed.

(** * The walk *)

Section Walk.
Variable m : memory.
Variable hhdm_offset : Z.

(** The code of a table by its signature. *)
Definition code_of (sig : bytes) (t : Z) (s : acpi_state) : result acpi_state :=
  match list_find (λ e, e.1 = sig) (acpi_discovery_table m hhdm_offset) with Some (_, (_, h)) => h t s | None => mret s end.

Lemma discover_ok L t l s : reads m t l → (4 <= length l)%nat → Forall (λ e, length e.1 = 4%nat) L →
  discover m L t s = match list_find (λ e, e.1 = take 4 l) L with Some (_, (_, h)) => h t s | None => mret s end.
Proof.
  intros H Hl. induction 1 as [|[sig h] L Hsig _ IH]; [done|]. cbn [discover]. cbn [fst] in Hsig.
  pose proof (matches_ok m t l 0 sig H ltac:(lia) ltac:(lia)) as E. rewrite Z.add_0_r, Hsig in E. rewrite E. cbn [mbind result_bind list_find fst]; change (drop 0 l) with l.
  destruct (decide (sig = take 4 l)) as [->|Hne].
  - by rewrite bool_decide_true.
  - rewrite bool_decide_false by congruence. rewrite IH. by destruct (list_find _ L) as [[? [? ?]]|].
Qed.

(** The tables in the order of their pointers: a good one is given to its code. *)
Fixpoint take_tables (T : list (Z * bytes)) (s : acpi_state) : result acpi_state :=
  match T with
  | [] => mret s
  | (phys, img) :: T =>
      s ← (if negb (phys =? 0) && sum_ok img then code_of (take 4 img) (u64 (phys + hhdm_offset)) s else mret s);
      take_tables T s
  end.

(** A pointer is 0 or points to an image in the direct map. *)
Definition table_there (e : Z * bytes) : Prop := e.1 = 0 ∨ reads m (u64 (e.1 + hhdm_offset)) e.2 ∧ sized e.2.

Lemma table_loop_ok T p w s : (w = 4 ∨ w = 8)%nat → Forall (λ e, 0 <= e.1 < 2 ^ (8 * Z.of_nat w) ∧ table_there e) T →
  reads m p (flat_map (λ e, le w e.1) T) → table_loop m hhdm_offset (length T) p w s = take_tables T s.
Proof.
  intros Hw HT. revert p s. induction HT as [|[phys img] T [Hp Ht] _ IH]; intros p s H; [done|].
  cbn [fst snd] in *. cbn [flat_map length table_loop take_tables fst] in *.
  pose proof (copy_in_ok m p _ 0 w H) as E. rewrite Z.add_0_r in E. rewrite E; [|lia|rewrite length_app, le_length; lia]. clear E.
  change (drop 0 (le w phys ++ flat_map (λ e, le w e.1) T)) with (le w phys ++ flat_map (λ e, le w e.1) T). rewrite take_app_length' by (by rewrite le_length). rewrite le_val_le by done. cbn [mbind result_bind].
  assert (∀ s, table_loop m hhdm_offset (length T) (p + Z.of_nat w) w s = take_tables T s) as Hrest.
  { intros s'. apply IH. destruct H as [Hs Hpl Hb]. apply stored_app in Hs as [_ Hs]. rewrite le_length in Hs.
    apply Forall_app in Hb as [_ Hb]. split; [done| |done]. rewrite length_app, le_length in Hpl. destruct Hpl as [? ?]. split; lia. }
  destruct Ht as [Ht|[Hr Hsz]]; cbn [fst snd] in *.
  { subst phys. cbn. apply Hrest. }
  destruct (Z.eqb_spec phys 0); [cbn [negb andb mbind result_bind]; apply Hrest|].
  rewrite (acpi_checksum_ok m _ img) by (apply Hr || done). cbn [mbind result_bind negb andb].
  pose proof Hsz as [Hlen _]. pose proof (copy_in_ok m _ img 0 4 Hr ltac:(lia) ltac:(lia)) as E. rewrite Z.add_0_r in E. rewrite E. cbn [mbind result_bind].
  destruct (sum_ok img); [|apply Hrest]. rewrite (discover_ok _ _ img s Hr) by (lia || by repeat constructor). fold (code_of (take 4 img)).
  unfold code_of. destruct (list_find _ _) as [[? [? h]]|]; [|apply Hrest].
  destruct (h _ s) as [s'| | |]; cbn [mbind result_bind]; [apply Hrest|done..].
Qed.

(** A root table with the pointers of [T], [w] bytes each. *)
Definition root_image (w : nat) (hdr : bytes) (T : list (Z * bytes)) : bytes := hdr ++ flat_map (λ e, le w e.1) T.

Lemma flat_map_le_length w (T : list (Z * bytes)) : length (flat_map (λ e, le w e.1) T) = (w * length T)%nat.
Proof. induction T as [|e T IH]; [simpl; lia|]. cbn [flat_map length]. rewrite length_app, le_length, IH. lia. Qed.

(** The root pointer [rsdp]: revision, and the addresses of the two root tables. *)
Definition rsdp_there (rsdp : Z) (revision rsdt xsdt : Z) : Prop :=
  load8 m (rsdp + 15) = Ok revision ∧ load_le 4 m (rsdp + 16) = Ok rsdt ∧ (2 <= revision → load_le 8 m (rsdp + 24) = Ok xsdt).

Lemma acpi_init_ok rsdp revision rsdt xsdt hdr T s :
  rsdp_there rsdp revision rsdt xsdt →
  let wide := (2 <=? revision) && negb (xsdt =? 0) in let w := if wide then 8%nat else 4%nat in
  let root := u64 ((if wide then xsdt else rsdt) + hhdm_offset) in
  length hdr = 36%nat → sized (root_image w hdr T) → reads m root (root_image w hdr T) →
  Z.of_nat (length T) < 2 ^ 28 →
  Forall (λ e, 0 <= e.1 < 2 ^ (8 * Z.of_nat w) ∧ table_there e) T →
  acpi_init m hhdm_offset rsdp s = take_tables T s.
Proof.
  intros (Er&E4&E8) wide w root Hh Hsz Hrd Hn HT. unfold acpi_init. rewrite Er. cbn [mbind result_bind].
  assert ((if revision >=? 2 then load_le 8 m (rsdp + 24) else mret 0) = Ok (if 2 <=? revision then xsdt else 0)) as ->.
  { rewrite Z.geb_leb. destruct (Z.leb_spec 2 revision); [by apply E8|done]. }
  cbn [mbind result_bind]. set (x := if 2 <=? revision then xsdt else 0).
  assert (negb (x =? 0) = wide) as Ex by (unfold x, wide; by destruct (2 <=? revision)). rewrite Ex, E4.
  assert ((if wide then mret x else Ok rsdt) = Ok (if wide then xsdt else rsdt)) as ->.
  { unfold x. unfold wide. destruct (2 <=? revision); [|done]. by destruct (negb _). }
  cbn [mbind result_bind]. fold root. fold w.
  pose proof (rd_placed _ _ _ Hrd) as [Hroot Hb]. rewrite (proj2 (Z.eqb_neq root 0)) by lia.
  rewrite (table_length_ok m root _ (rd_stored _ _ _ Hrd) Hsz). cbn [mbind result_bind]. unfold root_image in *. rewrite length_app, Hh, flat_map_le_length in *.
  assert (w = 4 ∨ w = 8)%nat as Hw by (unfold w; destruct wide; auto). unfold SDT_HEADER.
  rewrite u64_id by lia. replace (Z.of_nat (36 + w * length T) - 36) with (Z.of_nat (length T) * Z.of_nat w) by lia.
  rewrite Z.quot_mul by lia. unfold i32, sint. rewrite Z.mod_small by lia. change (2 ^ (32 - 1)) with (2 ^ 31). settle_z. rewrite Nat2Z.id.
  apply table_loop_ok; [done|done|]. destruct Hrd as [Hs Hp Hby]. apply stored_app in Hs as [_ Hs]. apply Forall_app in Hby as [_ Hby]. rewrite Hh in Hs.
  split; [exact Hs| |done]. rewrite flat_map_le_length. split; lia.
Qed.

End Walk.

(** * MADT *)

Inductive madt_entry :=
| IoApicEntry (id reserved address gsi_base : Z)
| IsoEntry (bus source target flags : Z)
| OtherEntry (type : Z) (body : bytes).

Definition entry_image (e : madt_entry) : bytes :=
  match e with
  | IoApicEntry id r a g => [1; 12; id; r] ++ le 4 a ++ le 4 g
  | IsoEntry b src g f => [2; 10; b; src] ++ le 4 g ++ le 2 f
  | OtherEntry t body => [t; 2 + Z.of_nat (length body)] ++ body
  end.

Definition entry_ok (e : madt_entry) : Prop :=
  match e with
  | IoApicEntry _ _ a _ => 0 <= a < 2 ^ 32
  | IsoEntry _ _ g f => 0 <= g < 2 ^ 32 ∧ 0 <= f < 2 ^ 16
  | OtherEntry t body => t ≠ 1 ∧ t ≠ 2 ∧ (length body < 254)%nat
  end.

(** The last I/O APIC stays, and the first sixteen overrides. *)
Definition madt_effect (e : madt_entry) (s : acpi_state) : acpi_state :=
  match e with
  | IoApicEntry _ _ a _ => with_ioapic s a
  | IsoEntry _ src g f =>
      if iso_count s <? 16 then with_isos s (<[Z.to_nat (iso_count s) := mkIso src g f]> (isos s)) (iso_count s + 1) else s
  | OtherEntry _ _ => s
  end.

Definition madt_image (hdr : bytes) (lapic flags : Z) (L : list madt_entry) : bytes :=
  hdr ++ le 4 lapic ++ le 4 flags ++ flat_map entry_image L.

Lemma reads_app m a l1 l2 : reads m a (l1 ++ l2) → reads m (a + Z.of_nat (length l1)) l2.
Proof.
  intros [Hs [Ha Hb] Hby]. apply stored_app in Hs as [_ Hs]. apply Forall_app in Hby as [_ Hby]. rewrite length_app in Hb. split; [done| |done]. split; lia.
Qed.

Lemma entry_image_length e : entry_ok e → (2 <= length (entry_image e))%nat ∧ entry_image e !!! 1%nat = Z.of_nat (length (entry_image e)).
Proof. destruct e; intros H; cbn [entry_image]; rewrite ?length_app, ?le_length; cbn [length]; split; try lia; try done. cbn. lia. Qed.

Section Madt.
Variable m : memory.

Lemma madt_loop_ok L p s fuel : Forall entry_ok L → reads m p (flat_map entry_image L) → (length (flat_map entry_image L) < fuel)%nat →
  madt_loop m fuel p (p + Z.of_nat (length (flat_map entry_image L))) s = Ok (foldl (λ s e, madt_effect e s) s L).
Proof.
  intros HL. revert p s fuel. induction HL as [|e L He _ IH]; intros p s [|fuel] H Hf; try lia; cbn [madt_loop].
  { cbn [flat_map length]. rewrite (proj2 (Z.ltb_ge _ _)) by lia. done. }
  cbn [flat_map] in *. set (I := entry_image e) in *. destruct (entry_image_length e He) as [Hlen Hfield]. fold I in Hlen, Hfield.
  rewrite length_app in *. rewrite (proj2 (Z.ltb_lt p _)) by lia. pose proof (rd_stored _ _ _ H) as Hs.
  assert (load8 m p = Ok (I !!! 0%nat)) as ->.
  { pose proof (stored_load m p _ 0 Hs ltac:(rewrite length_app; lia)) as E. rewrite Z.add_0_r in E. rewrite E. by rewrite lookup_total_app_l by lia. }
  assert (load8 m (p + 1) = Ok (Z.of_nat (length I))) as ->.
  { pose proof (stored_load m p _ 1 Hs ltac:(rewrite length_app; lia)) as E. change (p + Z.of_nat 1) with (p + 1) in E. rewrite E. by rewrite lookup_total_app_l, Hfield by lia. }
  cbn [mbind result_bind]. rewrite (proj2 (Z.eqb_neq (Z.of_nat (length I)) 0)) by lia.
  assert (∀ s', madt_loop m fuel (p + Z.of_nat (length I)) (p + Z.of_nat (length I + length (flat_map entry_image L))) s' = Ok (foldl (λ s e, madt_effect e s) s' L)) as Hrest.
  { intros s'. rewrite Nat2Z.inj_add, Z.add_assoc. apply IH; [by apply reads_app|lia]. }
  assert (∀ n off, (0 < n)%nat → (off + n <= length I)%nat → copy_in m n (p + Z.of_nat off) = Ok (le_val (take n (drop off I)))) as Hcopy.
  { intros n off Hn Ho. rewrite (copy_in_ok m p (I ++ flat_map entry_image L)) by (done || rewrite length_app; lia).
    rewrite drop_app_le, take_app_le by (rewrite ?length_drop; lia). done. }
  destruct e as [id r a g|b src g f|t body]; cbn [entry_ok] in He; cbn [foldl].
  - change (I !!! 0%nat) with 1. cbn [Z.eqb Pos.eqb]. change (p + 4) with (p + Z.of_nat 4). rewrite (Hcopy 4%nat 4%nat) by (unfold I; cbn [entry_image]; rewrite ?length_app, ?le_length; cbn [length]; lia).
    change (drop 4 I) with (le 4 a ++ le 4 g). rewrite take_app_length' by (by rewrite le_length). rewrite le_val_le by done. cbn [mbind result_bind mret result_ret]. apply Hrest.
  - change (I !!! 0%nat) with 2. cbn [Z.eqb Pos.eqb madt_effect]. destruct (iso_count s <? 16); [|apply Hrest].
    assert (load8 m (p + 3) = Ok src) as ->.
    { pose proof (stored_load m p _ 3 Hs ltac:(rewrite length_app; unfold I; cbn [entry_image]; rewrite ?length_app, ?le_length; cbn [length]; lia)) as E. exact E. }
    cbn [mbind result_bind]. change (p + 4) with (p + Z.of_nat 4). change (p + 8) with (p + Z.of_nat 8).
    rewrite (Hcopy 4%nat 4%nat), (Hcopy 2%nat 8%nat) by (unfold I; cbn [entry_image]; rewrite ?length_app, ?le_length; cbn [length]; lia).
    change (drop 4 I) with (le 4 g ++ le 2 f). change (drop 8 I) with (le 2 f). destruct He as [Hg Hf'].
    rewrite take_app_length' by (by rewrite le_length). rewrite (take_ge (le 2 f)) by (by rewrite le_length). rewrite !le_val_le by done. apply Hrest.
  - destruct He as (H1&H2&_). change (I !!! 0%nat) with t. rewrite !(proj2 (Z.eqb_neq t _)) by done. apply Hrest.
Qed.

Lemma madt_init_ok t hdr lapic flags L s : length hdr = 36%nat → 0 <= lapic < 2 ^ 32 → Forall entry_ok L →
  let l := madt_image hdr lapic flags L in sized l → reads m t l →
  madt_init m t s = Ok (foldl (λ s e, madt_effect e s) (with_lapic s lapic) L).
Proof.
  intros Hh Hlap HL l Hsz H. unfold madt_init, SDT_HEADER. pose proof (rd_stored _ _ _ H) as Hs.
  assert (load_le 4 m (t + 36) = Ok lapic) as ->.
  { pose proof (le_part m t l 36 4 Hs ltac:(unfold l, madt_image; rewrite !length_app, !le_length; lia)) as E. change (t + Z.of_nat 36) with (t + 36) in E. rewrite E.
    unfold l, madt_image. rewrite drop_app_length', take_app_length' by (done || by rewrite le_length). by rewrite le_val_le. }
  cbn [mbind result_bind]. rewrite (table_length_ok m t l) by done. cbn [mbind result_bind]. rewrite Nat2Z.id.
  assert (Z.of_nat (length l) = 44 + Z.of_nat (length (flat_map entry_image L))) as El by (unfold l, madt_image; rewrite !length_app, !le_length; lia).
  replace (t + Z.of_nat (length l)) with (t + 36 + 8 + Z.of_nat (length (flat_map entry_image L))) by lia.
  apply madt_loop_ok; [done| |lia]. unfold l, madt_image in H. rewrite !app_assoc in H. apply reads_app in H.
  rewrite !length_app, !le_length, Hh in H. by replace (t + 36 + 8) with (t + Z.of_nat (36 + 4 + 4)) by lia.
Qed.
End Madt.

(** The overrides kept, the first one first. *)
Definition overrides (s : acpi_state) : list madt_iso_t := take (Z.to_nat (iso_count s)) (isos s).

Definition isos_ok (s : acpi_state) : Prop := length (isos s) = 16%nat ∧ 0 <= iso_count s <= 16.

Lemma query_loop_ok irq s n i : isos_ok s → i + Z.of_nat n = iso_count s → 0 <= i →
  query_loop n i irq s = Ok (match list_find (λ o, bus_source o = irq) (drop (Z.to_nat i) (overrides s)) with
    | Some (_, o) => (u8 (gsi o), iso_pin_flags (iso_flags o)) | None => (irq, 0) end).
Proof.
  intros [Hl Hc]. revert i. induction n as [|n IH]; intros i Hi H0; cbn [query_loop].
  - rewrite drop_ge; [done|]. unfold overrides. rewrite length_take. lia.
  - destruct (lookup_lt_is_Some_2 (isos s) (Z.to_nat i)) as [o Eo]; [lia|]. rewrite Eo. cbn [of_option mbind result_bind].
    assert (overrides s !! Z.to_nat i = Some o) as E by (unfold overrides; rewrite lookup_take_lt by lia; done).
    rewrite (drop_S _ _ _ E). cbn [list_find]. destruct (Z.eqb_spec (bus_source o) irq) as [Heq|Hne].
    + by rewrite decide_True.
    + rewrite decide_False by done. rewrite IH by lia. replace (Z.to_nat (i + 1)) with (S (Z.to_nat i)) by lia.
      by destruct (list_find _ (drop (S (Z.to_nat i)) (overrides s))) as [[? ?]|].
Qed.

Lemma madt_effect_isos e s : isos_ok s → isos_ok (madt_effect e s) ∧
  overrides (madt_effect e s) = take 16 (overrides s ++ match e with IsoEntry _ src g f => [mkIso src g f] | _ => [] end).
Proof.
  intros [Hl Hc]. assert (length (overrides s) = Z.to_nat (iso_count s)) as Ho by (unfold overrides; rewrite length_take; lia).
  destruct e as [| b src g f |]; cbn [madt_effect]; try (split; [done|]; rewrite app_nil_r, take_ge by lia; done).
  destruct (Z.ltb_spec (iso_count s) 16).
  - split; [split; cbn [isos iso_count with_isos]; rewrite ?length_insert; lia|]. unfold overrides at 1. cbn [isos iso_count with_isos].
    replace (Z.to_nat (iso_count s + 1)) with (S (Z.to_nat (iso_count s))) by lia. rewrite (take_S_r _ _ (mkIso src g f)) by (apply list_lookup_insert_eq; lia).
    rewrite take_insert_ge by lia. rewrite (take_ge (overrides s ++ _)); [done|]. rewrite length_app, Ho. cbn [length]. lia.
  - split; [done|]. rewrite take_app_le by lia. rewrite (take_ge (overrides s)); [done|lia].
Qed.

(** The overrides of a list of entries. *)
Definition iso_of (e : madt_entry) : list madt_iso_t := match e with IsoEntry _ src g f => [mkIso src g f] | _ => [] end.

Lemma take_app_take {A} n (l k : list A) : take n (take n l ++ k) = take n (l ++ k).
Proof.
  destruct (decide (length l <= n)%nat); [by rewrite (take_ge l) by done|].
  rewrite !take_app_le by (rewrite ?length_take; lia). by rewrite take_take, Nat.min_id.
Qed.

Lemma madt_effects_isos L s : isos_ok s → isos_ok (foldl (λ s e, madt_effect e s) s L) ∧
  overrides (foldl (λ s e, madt_effect e s) s L) = take 16 (overrides s ++ flat_map iso_of L).
Proof.
  revert s. induction L as [|e L IH]; intros s H; cbn [foldl flat_map].
  - split; [done|]. rewrite app_nil_r, take_ge; [done|]. unfold overrides. destruct H. rewrite length_take. lia.
  - destruct (madt_effect_isos e s H) as [H1 E1]. destruct (IH _ H1) as [H2 E2]. split; [done|]. rewrite E2, E1. fold (iso_of e).
    by rewrite take_app_take, <- app_assoc.
Qed.

(** The pin and flags that a table says for an interrupt. *)
Definition routed (L : list madt_entry) (irq : Z) : Z * Z :=
  match list_find (λ o, bus_source o = irq) (take 16 (flat_map iso_of L)) with
  | Some (_, o) => (u8 (gsi o), iso_pin_flags (iso_flags o)) | None => (irq, 0)
  end.

(** The I/O APIC of a table: the last entry counts. *)
Definition last_ioapic (L : list madt_entry) (d : Z) : Z :=
  foldl (λ d e, match e with IoApicEntry _ _ a _ => a | _ => d end) d L.

Lemma madt_effects_phys L s : lapic_phys (foldl (λ s e, madt_effect e s) s L) = lapic_phys s ∧
  ioapic_phys (foldl (λ s e, madt_effect e s) s L) = last_ioapic L (ioapic_phys s).
Proof.
  revert s. induction L as [|e L IH]; intros s; [done|]. unfold last_ioapic. cbn [foldl]. destruct (IH (madt_effect e s)) as [-> ->].
  unfold last_ioapic. destruct e; cbn [madt_effect]; try done. by destruct (_ <? _).
Qed.

(** * MCFG *)

Record ecam_entry := mkEcam { e_base : Z; e_segment : Z; e_start : Z; e_end : Z }.

Definition ecam_ok (e : ecam_entry) : Prop :=
  0 <= e_base e < 2 ^ 64 ∧ 0 <= e_segment e < 2 ^ 16 ∧ 0 <= e_start e <= e_end e ∧ e_end e < 256.

Definition ecam_image (e : ecam_entry) : bytes := le 8 (e_base e) ++ le 2 (e_segment e) ++ [e_start e; e_end e] ++ le 4 0.

Definition mcfg_image (hdr : bytes) (L : list ecam_entry) : bytes := hdr ++ le 8 0 ++ flat_map ecam_image L.

Definition covers (segment bus : Z) (e : ecam_entry) : Prop := e_segment e = segment ∧ e_start e <= bus <= e_end e.

#[export] Instance covers_dec segment bus e : Decision (covers segment bus e).
Proof. apply _. Defined.

(** The configuration space of a function behind an entry, in the direct map. *)
Definition ecam_address (hhdm_offset : Z) (e : ecam_entry) (bus slot func : Z) : Z :=
  u64 (e_base e + hhdm_offset + (bus - e_start e) * 2 ^ 20 + slot * 2 ^ 15 + func * 2 ^ 12).

Lemma ecam_image_length e : length (ecam_image e) = 16%nat.
Proof. unfold ecam_image. by rewrite !length_app, !le_length. Qed.

Lemma ecam_images_length L : length (flat_map ecam_image L) = (16 * length L)%nat.
Proof. induction L as [|e L IH]; [done|]. cbn [flat_map length]. rewrite length_app, ecam_image_length, IH. lia. Qed.

(** Shifted fields below each other are added. *)
Lemma lor_add a b n : 0 <= n → 0 <= b < 2 ^ n → Z.lor (Z.shiftl a n) b = a * 2 ^ n + b.
Proof.
  intros Hn Hb. rewrite <- Z.add_lor_land, (Z.land_comm), Z.shiftl_mul_pow2 by done.
  assert (Z.land b (a * 2 ^ n) = 0) as ->; [|lia]. apply Z.bits_inj'. intros i Hi. rewrite Z.land_spec, Z.bits_0.
  destruct (Z.lt_ge_cases i n); [by rewrite Z.mul_pow2_bits_low, andb_false_r by lia|]. by rewrite (testbit_high n b i).
Qed.

Section Mcfg.
Variable m : memory.
Variable hhdm_offset : Z.

Lemma ecam_fields e a : stored m a (ecam_image e) → ecam_ok e →
  entry_base m a = Ok (e_base e) ∧ entry_segment m a = Ok (e_segment e) ∧ entry_start m a = Ok (e_start e) ∧ entry_end m a = Ok (e_end e).
Proof.
  intros H (Hb&Hs&Hse&He). unfold entry_base, entry_segment, entry_start, entry_end. unfold ecam_image in H.
  assert (load_le 8 m a = Ok (e_base e)) as ->.
  { pose proof (le_part m a _ 0 8 H ltac:(rewrite !length_app, !le_length; simpl; lia)) as E. rewrite Z.add_0_r in E. rewrite E.
    change (drop 0 ?l) with l. rewrite take_app_length' by (by rewrite le_length). by rewrite le_val_le. }
  apply stored_app in H as [_ H]. rewrite le_length in H. change (a + Z.of_nat 8) with (a + 8) in H.
  assert (load_le 2 m (a + 8) = Ok (e_segment e)) as ->.
  { pose proof (le_part m _ _ 0 2 H ltac:(rewrite !length_app, !le_length; simpl; lia)) as E. rewrite Z.add_0_r in E. rewrite E.
    change (drop 0 ?l) with l. rewrite take_app_length' by (by rewrite le_length). by rewrite le_val_le. }
  apply stored_app in H as [_ H]. rewrite le_length in H.
  pose proof (stored_load _ _ _ 0 H ltac:(simpl; lia)) as E0. pose proof (stored_load _ _ _ 1 H ltac:(simpl; lia)) as E1.
  replace (a + 10) with (a + 8 + Z.of_nat 2 + Z.of_nat 0) by lia. replace (a + 11) with (a + 8 + Z.of_nat 2 + Z.of_nat 1) by lia.
  by rewrite E0, E1.
Qed.

(** The address of the first entry with a property. *)
Lemma entry_loop_ok L a segment bus : stored m a (flat_map ecam_image L) → Forall ecam_ok L → 0 < a →
  ∃ p, entry_loop m (length L) a segment bus = Ok p ∧
    match list_find (covers segment bus) L with
    | Some (_, e) => p ≠ NULL ∧ stored m p (ecam_image e) | None => p = NULL end.
Proof.
  intros H HL Ha. revert a H Ha. induction HL as [|e L He _ IH]; intros a H Ha; [by exists NULL|].
  cbn [flat_map length entry_loop] in *. apply stored_app in H as [He' H]. destruct (ecam_fields e a He' He) as (_&->&->&->). cbn [mbind result_bind].
  rewrite ecam_image_length in H. cbn [list_find].
  assert (((e_segment e =? segment) && (bus >=? e_start e) && (bus <=? e_end e)) = bool_decide (covers segment bus e)) as ->.
  { unfold covers. symmetry. rewrite Z.geb_leb. destruct (bool_decide_reflect (e_segment e = segment ∧ e_start e <= bus <= e_end e)) as [(->&?&?)|Hn].
    - rewrite Z.eqb_refl. by settle_z.
    - destruct (Z.eqb_spec (e_segment e) segment), (Z.leb_spec (e_start e) bus), (Z.leb_spec bus (e_end e)); try done. exfalso. apply Hn. lia. }
  destruct (decide (covers segment bus e)) as [Hc|Hc].
  - rewrite bool_decide_true by done. exists a. split; [done|]. split; [unfold NULL; lia|done].
  - rewrite bool_decide_false by done. destruct (IH (a + MCFG_ENTRY) H ltac:(unfold MCFG_ENTRY; lia)) as (p&->&Hp). exists p. split; [done|].
    by destruct (list_find (covers segment bus) L) as [[? ?]|].
Qed.

Lemma mcfg_init_ok t hdr L s : length hdr = 36%nat → Forall ecam_ok L → let l := mcfg_image hdr L in
  sized l → reads m t l → primary_entry s = NULL →
  mcfg_init m t s = Ok (with_mcfg s t (Z.of_nat (length L))
    match L with e :: _ => if e_segment e =? 0 then t + 44 else NULL | [] => NULL end).
Proof.
  intros Hh HL l Hsz H Hp. unfold mcfg_init. rewrite (table_length_ok m t l (rd_stored _ _ _ H) Hsz). cbn [mbind result_bind].
  assert (Z.of_nat (length l) = 44 + 16 * Z.of_nat (length L)) as El by (unfold l, mcfg_image; rewrite !length_app, le_length, ecam_images_length; lia).
  pose proof (rd_placed _ _ _ H) as [Ht Hb]. unfold MCFG_TABLE, MCFG_ENTRY. rewrite El, u64_id by lia.
  replace (44 + 16 * Z.of_nat (length L) - 44) with (Z.of_nat (length L) * 16) by lia. rewrite Z.quot_mul by lia.
  destruct L as [|e L]; [by rewrite Hp|]. rewrite Z.gtb_ltb. cbn [length]. rewrite (proj2 (Z.ltb_lt 0 _)) by lia. inversion_clear HL as [|? ? He _].
  assert (stored m (t + 44) (ecam_image e)) as Hs.
  { pose proof (rd_stored _ _ _ H) as Hs. unfold l, mcfg_image in Hs. rewrite app_assoc in Hs. apply stored_app in Hs as [_ Hs]. rewrite length_app, Hh, le_length in Hs.
    cbn [flat_map] in Hs. apply stored_app in Hs as [Hs _]. exact Hs. }
  destruct (ecam_fields e _ Hs He) as (_&->&_). cbn [mbind result_bind andb]. rewrite Hp. done.
Qed.

Lemma mcfg_get_ok t hdr L s segment bus slot func : length hdr = 36%nat → Forall ecam_ok L → let l := mcfg_image hdr L in
  reads m t l → (∀ e, head L = Some e → e_segment e = 0 → e_start e = 0) → 0 <= bus < 256 → 0 <= slot < 32 → 0 <= func < 8 →
  mcfg_get_device_addr m hhdm_offset (with_mcfg s t (Z.of_nat (length L)) match L with e :: _ => if e_segment e =? 0 then t + 44 else NULL | [] => NULL end) segment bus slot func =
    Ok (match list_find (covers segment bus) L with Some (_, e) => ecam_address hhdm_offset e bus slot func | None => NULL end).
Proof.
  intros Hh HL l H Hfirst Hbus Hslot Hfunc. pose proof (rd_placed _ _ _ H) as [Ht _]. set (pe := match L with [] => _ | _ => _ end).
  assert (stored m (t + 44) (flat_map ecam_image L)) as Hs.
  { pose proof (rd_stored _ _ _ H) as Hs. unfold l, mcfg_image in Hs. rewrite app_assoc in Hs. apply stored_app in Hs as [_ Hs]. by rewrite length_app, Hh, le_length in Hs. }
  unfold mcfg_get_device_addr. cbn [mcfg_ptr primary_entry mcfg_entry_count with_mcfg]. rewrite (proj2 (Z.eqb_neq t NULL)) by (unfold NULL; lia).
  rewrite Nat2Z.id. change MCFG_TABLE with 44.
  assert (∃ last, (if negb (pe =? NULL) && (segment =? 0) then entry_end m pe else mret (-1)) = Ok last ∧
    ∃ p, (if bus <=? last then mret pe else entry_loop m (length L) (t + 44) segment bus) = Ok p ∧
    match list_find (covers segment bus) L with Some (_, e) => p ≠ NULL ∧ stored m p (ecam_image e) | None => p = NULL end) as (last&->&p&Ep&Hp).
  { destruct (entry_loop_ok L (t + 44) segment bus Hs HL ltac:(lia)) as (p&Ep&Hp).
    destruct L as [|e L']; [exists (-1); split; [done|]; rewrite (proj2 (Z.leb_gt bus _)) by lia; eauto|].
    inversion HL as [|? ? He _]. cbn [flat_map] in Hs. apply stored_app in Hs as [He' _]. destruct (ecam_fields e _ He' He) as (_&_&_&Eend).
    unfold pe in *. destruct (Z.eqb_spec (e_segment e) 0) as [Hz|Hz].
    - rewrite (proj2 (Z.eqb_neq (t + 44) NULL)) by (unfold NULL; lia). destruct (Z.eqb_spec segment 0) as [->|Hn]; cbn [negb andb].
      + exists (e_end e). split; [done|]. destruct (Z.leb_spec bus (e_end e)); [|eauto]. exists (t + 44). split; [done|]. cbn [list_find].
        rewrite decide_True; [split; [unfold NULL; lia|done]|]. unfold covers. rewrite (Hfirst e eq_refl Hz). lia.
      + exists (-1). split; [done|]. rewrite (proj2 (Z.leb_gt bus _)) by lia. eauto.
    - cbn [negb Z.eqb andb]. change (NULL =? NULL) with true. cbn [negb andb]. exists (-1). split; [done|]. rewrite (proj2 (Z.leb_gt bus _)) by lia. eauto. }
  cbn [mbind result_bind]. rewrite Ep. cbn [mbind result_bind].
  destruct (list_find (covers segment bus) L) as [[i e]|] eqn:Ef; [|by rewrite Hp]. destruct Hp as [Hne Hst].
  apply list_find_Some in Ef as (Ei&(_&Hcov)&_). pose proof (proj1 (Forall_lookup _ _) HL _ _ Ei) as He.
  destruct (ecam_fields e p Hst He) as (->&_&->&_). rewrite (proj2 (Z.eqb_neq p NULL)) by done. cbn [mbind result_bind mret result_ret]. f_equal.
  destruct He as (_&_&Hse&Hend). unfold ecam_address. rewrite (u32_id (bus - e_start e)) by lia.
  assert (u32 (Z.shiftl (bus - e_start e) 20) = Z.shiftl (bus - e_start e) 20) as -> by (rewrite Z.shiftl_mul_pow2, u32_id; lia).
  rewrite <- Z.lor_assoc, (Z.shiftl_mul_pow2 func), (lor_add slot), lor_add by lia.
  unfold u64. rewrite Zplus_mod_idemp_l. f_equal. lia.
Qed.
End Mcfg.

(** * What the tables promise *)

(** C32: [acpi_init] visits the tables of the root table that the firmware version
    says in their order: null pointers and tables whose bytes do not sum up to 0
    modulo 256 are passed over, the others are given to the code of their
    signature, once. *)
Theorem acpi_init_correct m hhdm_offset rsdp revision rsdt xsdt hdr T s :
  rsdp_there m rsdp revision rsdt xsdt →
  let wide := (2 <=? revision) && negb (xsdt =? 0) in let w := if wide then 8%nat else 4%nat in
  let root := u64 ((if wide then xsdt else rsdt) + hhdm_offset) in
  length hdr = 36%nat → sized (root_image w hdr T) → reads m root (root_image w hdr T) →
  Z.of_nat (length T) < 2 ^ 28 → Forall (λ e, 0 <= e.1 < 2 ^ (8 * Z.of_nat w) ∧ table_there m hhdm_offset e) T →
  acpi_init m hhdm_offset rsdp s = take_tables m hhdm_offset T s.
Proof. exact (acpi_init_ok m hhdm_offset rsdp revision rsdt xsdt hdr T s). Qed.

(** C33: from a well-formed MADT the local APIC, the last I/O APIC and the routes of
    all interrupts are read: the first of up to sixteen overrides of a source
    says its pin and flags, and a source without one keeps its number. *)
Theorem madt_correct m t hdr lapic flags L : length hdr = 36%nat → 0 <= lapic < 2 ^ 32 → Forall entry_ok L →
  sized (madt_image hdr lapic flags L) → reads m t (madt_image hdr lapic flags L) →
  ∃ s, madt_init m t acpi_start = Ok s ∧ lapic_phys s = lapic ∧ ioapic_phys s = last_ioapic L 0 ∧
    ∀ irq, madt_query_irq irq s = Ok (routed L irq).
Proof.
  intros Hh Hlap HL Hsz H. eexists. split; [by apply (madt_init_ok m t hdr lapic flags L)|].
  destruct (madt_effects_phys L (with_lapic acpi_start lapic)) as [-> ->]. split; [done|]. split; [done|]. intros irq.
  destruct (madt_effects_isos L (with_lapic acpi_start lapic)) as [Hok Ho]; [by split|].
  unfold madt_query_irq. destruct Hok as [Hl Hc]. rewrite query_loop_ok; [|by split|rewrite Z2Nat.id; lia|done].
  change (Z.to_nat 0) with 0%nat. rewrite drop_0, Ho. unfold routed. by change (overrides (with_lapic acpi_start lapic)) with (@nil madt_iso_t).
Qed.

(** the address of the configuration space of a function is the one the first
    MCFG entry that covers its bus says; buses without an entry have none.  The
    condition: an entry of segment 0 at the head of the table starts at bus 0. *)
Theorem mcfg_correct m hhdm_offset t hdr L segment bus slot func : length hdr = 36%nat → Forall ecam_ok L →
  sized (mcfg_image hdr L) → reads m t (mcfg_image hdr L) → (∀ e, head L = Some e → e_segment e = 0 → e_start e = 0) →
  0 <= bus < 256 → 0 <= slot < 32 → 0 <= func < 8 →
  ∃ s, mcfg_init m t acpi_start = Ok s ∧ mcfg_get_device_addr m hhdm_offset s segment bus slot func =
    Ok (match list_find (covers segment bus) L with Some (_, e) => ecam_address hhdm_offset e bus slot func | None => NULL end).
Proof.
  intros Hh HL Hsz H Hf Hb Hs Hfn. eexists. split; [by apply (mcfg_init_ok m t hdr L)|]. by apply (mcfg_get_ok m hhdm_offset t hdr).
Qed.

(** * Tables in memory *)

Definition sdt (sig : bytes) (len chk : Z) : bytes := sig ++ le 4 len ++ [1; chk] ++ replicate 26 0.

Definition demo_madt : list madt_entry :=
  [OtherEntry 0 [0; 0; 1; 0; 0; 0]; IoApicEntry 0 0 0xFEC00000 0; IsoEntry 0 0 2 0; IsoEntry 0 9 9 0xD].
Definition demo_madt_image : bytes := madt_image (sdt [65; 80; 73; 67] 84 162) 0xFEE00000 1 demo_madt.
Definition demo_ecam : list ecam_entry := [mkEcam 0xB0000000 0 0 255].
Definition demo_mcfg_image : bytes := mcfg_image (sdt [77; 67; 70; 71] 60 247) demo_ecam.
Definition demo_tables : list (Z * bytes) := [(0x2000, demo_madt_image); (0, []); (0x3000, demo_mcfg_image)].
Definition demo_root : bytes := root_image 8 (sdt [88; 83; 68; 84] 60 0) demo_tables.

(** The direct map starts at 0x100000; the root pointer of revision 2 is at 0x500. *)
Definition demo_memory : memory :=
  list_to_map (zip (seqZ 0x500 32) (replicate 15 0 ++ [2] ++ le 4 0 ++ le 4 36 ++ le 8 0x1000)) ∪
  list_to_map (zip (seqZ 0x101000 60) demo_root) ∪ list_to_map (zip (seqZ 0x102000 84) demo_madt_image) ∪
  list_to_map (zip (seqZ 0x103000 60) demo_mcfg_image).

Definition reads_b (m : memory) (a : Z) (l : bytes) : bool :=
  forallb (λ i, bool_decide (m !! (a + Z.of_nat i) = l !! i)) (seq 0 (length l)) && (0 <? a) && (a + Z.of_nat (length l) <=? 2 ^ 56) &&
  forallb (λ c, (0 <=? c) && (c <? 256)) l.

Lemma reads_b_ok m a l : reads_b m a l = true → reads m a l.
Proof.
  unfold reads_b. rewrite !andb_true_iff. intros (((H&Ha)&Hb)&Hc). split.
  - intros i Hi. rewrite forallb_forall in H. eapply bool_decide_eq_true_1, H. apply in_seq. lia.
  - split; [lia|]. left. lia.
  - apply Forall_forall. intros c Hin%list_elem_of_In. rewrite forallb_forall in Hc. specialize (Hc c Hin). unfold is_byte. change (2 ^ 8) with 256. lia.
Qed.

Ltac check_sized := split; [apply Nat.leb_le; by vm_compute|by vm_compute].

Lemma demo_reads : reads demo_memory 0x101000 demo_root ∧ reads demo_memory 0x102000 demo_madt_image ∧ reads demo_memory 0x103000 demo_mcfg_image.
Proof. split_and!; apply reads_b_ok; by vm_compute. Qed.

Lemma acpi_init_correct_witness : ∃ s, acpi_init demo_memory 0x100000 0x500 acpi_start = Ok s ∧
  lapic_phys s = 0xFEE00000 ∧ ioapic_phys s = 0xFEC00000 ∧ mcfg_entry_count s = 1.
Proof.
  assert (acpi_init demo_memory 0x100000 0x500 acpi_start = take_tables demo_memory 0x100000 demo_tables acpi_start) as ->.
  { destruct demo_reads as (Hr&Hm&Hc).
    apply (acpi_init_correct demo_memory 0x100000 0x500 2 0 0x1000 (sdt [88; 83; 68; 84] 60 0) demo_tables); [split; [by vm_compute|split; [by vm_compute|intros _; by vm_compute]]|done|check_sized|exact Hr|done|].
    constructor; [split; [done|right; split; [exact Hm|check_sized]]|]. constructor; [split; [done|by left]|].
    constructor; [split; [done|right; split; [exact Hc|check_sized]]|constructor]. }
  vm_compute. eexists. by repeat split.
Defined.

(** The keyboard keeps its pin, the timer moves to pin 2, and interrupt 9 is
    level triggered. *)
Lemma madt_correct_witness : ∃ s, madt_init demo_memory 0x102000 acpi_start = Ok s ∧ ioapic_phys s = 0xFEC00000 ∧
  madt_query_irq 1 s = Ok (1, 0) ∧ madt_query_irq 0 s = Ok (2, 0) ∧ madt_query_irq 9 s = Ok (9, 2 ^ 15).
Proof.
  destruct (madt_correct demo_memory 0x102000 (sdt [65; 80; 73; 67] 84 162) 0xFEE00000 1 demo_madt) as (s&E&_&Ei&Hq); [done|done| |check_sized|apply demo_reads|].
  { repeat constructor; done || lia. }
  exists s. split; [exact E|]. split; [exact Ei|]. split; [exact (Hq 1)|]. split; [exact (Hq 0)|exact (Hq 9)].
Defined.

Lemma mcfg_correct_witness : ∃ s, mcfg_init demo_memory 0x103000 acpi_start = Ok s ∧
  mcfg_get_device_addr demo_memory 0x100000 s 0 3 31 2 = Ok (0xB0000000 + 0x100000 + 3 * 2 ^ 20 + 31 * 2 ^ 15 + 2 * 2 ^ 12).
Proof.
  destruct (mcfg_correct demo_memory 0x100000 0x103000 (sdt [77; 67; 70; 71] 60 247) demo_ecam 0 3 31 2) as (s&E&Ea);
    [done|repeat constructor; done|check_sized|apply demo_reads|intros e [= <-]; done|done|done|done|].
  exists s. split; [exact E|exact Ea].
Defined.

(** ** Where the code is wrong *)

(** A host bridge whose buses start at 128: bus 3 is not its bus, but its entry is
    taken, 125 MiB below the configuration space. *)
Definition late_memory : memory := list_to_map (zip (seqZ 0x3000 60) (mcfg_image (sdt [77; 67; 70; 71] 60 0) [mkEcam 0xB0000000 0 128 255])).

Example mcfg_ignores_start :
  (s ← mcfg_init late_memory 0x3000 acpi_start; mcfg_get_device_addr late_memory 0 s 0 3 0 0) = Ok (0xB0000000 + 2 ^ 32 - 125 * 2 ^ 20).
Proof. by vm_compute. Qed.

(** The soft-off package with the sleep type 5, as compilers write it with a byte
    prefix: the prefix is returned as the type. *)
Definition s5_memory : memory :=
  list_to_map (zip (seqZ 0x2000 56) (replicate 36 0 ++ le 4 0 ++ le 4 0x1000 ++ replicate 12 0)) ∪
  list_to_map (zip (seqZ 0x1000 56) ([68; 83; 68; 84] ++ le 4 56 ++ replicate 28 0 ++ S5_NAME ++ [0x12; 6; 4; 0x0A; 5; 0; 0; 0] ++ replicate 8 0)).

Example s5_takes_prefix : fadt_get_s5_types s5_memory 0 60 (with_fadt acpi_start 0x2000) = Ok (Z.shiftl 10 10).
Proof. by vm_compute. Qed.
