(* ===== verification/Smp.v ===== *)
(** The start of the other cores and the mailboxes between cores
    (src/cpu/smp/init.c, mailbox.c, mailbox.h and the boot of the cores in
    src/kmain.c).  The cores run at the same time: a state holds what they share
    and where each of them is in its code, a step is one access to shared memory
    by one core, one interrupt, or one call of a function that was sent.  The
    heap is not part of the state: the allocation of a core's block succeeds, or
    gives NULL in a step of its own. *)

From S2P Require Import Prelude.

(** [cpu_status_t], and the part of [coreinfo_t] that cores share; functions and
    their data are the addresses of them. *)
Inductive cpu_status_t := CPU_IDLE | CPU_BUSY | CPU_HALTED | CPU_PANIC.

Record coreinfo_t := mkCore {
  logical_id : Z; lapic_id : Z; ticks : Z; status : cpu_status_t;
  mbox_func : Z; mbox_data : Z; mbox_pending : bool
}.

Definition with_status (c : coreinfo_t) v := mkCore (logical_id c) (lapic_id c) (ticks c) v (mbox_func c) (mbox_data c) (mbox_pending c).
Definition with_func (c : coreinfo_t) v := mkCore (logical_id c) (lapic_id c) (ticks c) (status c) v (mbox_data c) (mbox_pending c).
Definition with_data (c : coreinfo_t) v := mkCore (logical_id c) (lapic_id c) (ticks c) (status c) (mbox_func c) v (mbox_pending c).
Definition with_pending (c : coreinfo_t) v := mkCore (logical_id c) (lapic_id c) (ticks c) (status c) (mbox_func c) (mbox_data c) v.
Definition tick (c : coreinfo_t) := mkCore (logical_id c) (lapic_id c) (u64 (ticks c + 1)) (status c) (mbox_func c) (mbox_data c) (mbox_pending c).

(** Where a core that was started is in [AP_kstartc]; the comment says what it
    does next. *)
Inductive ap_pc :=
| PLock     (* SPIN_LOCK(&AP_init_spinlock) *)
| PIndex    (* my_index = cpu_blocks_c++ *)
| PPublish  (* cpu_blocks[my_index] = my_cpu, which it filled before *)
| POnline   (* cpu_online_count is increased *)
| PUnlock   (* SPIN_UNLOCK(&AP_init_spinlock) *)
| PIdle     (* status = CPU_IDLE *)
| PHalt     (* sleeps in "sti; hlt" *)
| PCheck    (* loads mailbox.pending *)
| PBusy     (* status = CPU_BUSY *)
| PTest     (* if (mailbox.func) *)
| PCall     (* mailbox.func() *)
| PClear.   (* mailbox.pending = false *)

#[export] Instance ap_pc_eq_dec : EqDecision ap_pc.
Proof. solve_decision. Defined.

(** A core that was started: the id of its local APIC, its place in the code,
    [my_index], whether interrupt 40 waits at its APIC, and whether it accepts
    interrupts, which it does from its first sleep on. *)
Record ap := mkAp { hw : Z; pc : ap_pc; my_index : Z; ipi : bool; enabled : bool }.

(** What code that sends has to do, and where it is in it. *)
Inductive op :=
| OSend (id func data : Z)              (* mailbox_send is called *)
| OSpin (id func data : Z)              (* loads target->mailbox.pending *)
| OFunc (id func data : Z)              (* target->mailbox.func = func *)
| OData (id func data : Z)              (* target->mailbox.data = data *)
| OPend (id func : Z)                   (* target->mailbox.pending = true *)
| OIpi (id : Z)                         (* lapic_send_ipi(target->lapic_id, 40) *)
| OSendFc (func data : Z)               (* mailbox_send_fc is called *)
| OStatus (count i func data : Z)       (* get_idle_core looks at the status of core i *)
| OPending (count i func data : Z)      (* and at its mailbox *)
| OMailman (i func data : Z)            (* mailman_send before its i-th round *)
| OCall (func : Z).                     (* func() *)

Record sender := mkSender { self : Z; ops : list op }.

(** Shared memory, and the cores.  [log] has the functions that were called with
    the core that called them, [sent] the messages that were put into a mailbox
    with the core that got them; the code has neither. *)
Record system := mkSystem {
  cpu_blocks : gmap Z coreinfo_t; cpu_blocks_c : Z; cpu_online_count : Z; lock : bool;
  aps : list ap; senders : list sender; log : list (Z * Z); sent : list (Z * Z)
}.

Definition with_aps s l := mkSystem (cpu_blocks s) (cpu_blocks_c s) (cpu_online_count s) (lock s) l (senders s) (log s) (sent s).
Definition with_senders s l := mkSystem (cpu_blocks s) (cpu_blocks_c s) (cpu_online_count s) (lock s) (aps s) l (log s) (sent s).
Definition with_blocks s b := mkSystem b (cpu_blocks_c s) (cpu_online_count s) (lock s) (aps s) (senders s) (log s) (sent s).
Definition with_count s n := mkSystem (cpu_blocks s) n (cpu_online_count s) (lock s) (aps s) (senders s) (log s) (sent s).
Definition with_online s n := mkSystem (cpu_blocks s) (cpu_blocks_c s) n (lock s) (aps s) (senders s) (log s) (sent s).
Definition with_lock s b := mkSystem (cpu_blocks s) (cpu_blocks_c s) (cpu_online_count s) b (aps s) (senders s) (log s) (sent s).
Definition with_log s l := mkSystem (cpu_blocks s) (cpu_blocks_c s) (cpu_online_count s) (lock s) (aps s) (senders s) l (sent s).
Definition with_sent s l := mkSystem (cpu_blocks s) (cpu_blocks_c s) (cpu_online_count s) (lock s) (aps s) (senders s) (log s) l.

Section Smp.
(** The size of the array [cpu_blocks], from the build configuration. *)
Variable SMP_MAX_CORES : Z.

(** [cpu_blocks[id]]: None is a null pointer. *)
Definition block (s : system) (id : Z) : result (option coreinfo_t) :=
  if (0 <=? id) && (id <? SMP_MAX_CORES) then mret (cpu_blocks s !! id) else Fault.

(** The block of a core that is there. *)
Definition the_block (s : system) (id : Z) : result coreinfo_t := c ← block s id; of_option c.

Definition set_block (s : system) (id : Z) (c : coreinfo_t) : system := with_blocks s (<[id := c]> (cpu_blocks s)).

(** * The cores that were started *)

Definition new_core (index lapic : Z) : coreinfo_t := mkCore index lapic 1 CPU_IDLE 0 0 false.

(** The next access of a core, and where it is then. *)
Definition ap_step (a : ap) (s : system) : result (ap * system) :=
  let at_ p := mkAp (hw a) p (my_index a) (ipi a) (enabled a) in
  match pc a with
  | PLock => mret (if lock s then (a, s) else (at_ PIndex, with_lock s true))
  | PIndex => mret (mkAp (hw a) PPublish (cpu_blocks_c s) (ipi a) (enabled a), with_count s (u32 (cpu_blocks_c s + 1)))
  | PPublish => _ ← block s (my_index a); mret (at_ POnline, set_block s (my_index a) (new_core (my_index a) (hw a)))
  | POnline => mret (at_ PUnlock, with_online s (u64 (cpu_online_count s + 1)))
  | PUnlock => mret (at_ PIdle, with_lock s false)
  | PIdle => c ← the_block s (my_index a);
      mret (mkAp (hw a) PHalt (my_index a) (ipi a) true, set_block s (my_index a) (with_status c CPU_IDLE))
  | PHalt => (* at the latest the interrupt of its timer ends the sleep *)
      c ← the_block s (my_index a); mret (at_ PCheck, set_block s (my_index a) (tick c))
  | PCheck => c ← the_block s (my_index a); mret (at_ (if mbox_pending c then PBusy else PIdle), s)
  | PBusy => c ← the_block s (my_index a); mret (at_ PTest, set_block s (my_index a) (with_status c CPU_BUSY))
  | PTest => c ← the_block s (my_index a); mret (at_ (if mbox_func c =? 0 then PClear else PCall), s)
  | PCall => (* the function is loaded again; a call of a null pointer faults *)
      c ← the_block s (my_index a);
      if mbox_func c =? 0 then Fault else mret (at_ PClear, with_log s (log s ++ [(my_index a, mbox_func c)]))
  | PClear => c ← the_block s (my_index a); mret (at_ PIdle, set_block s (my_index a) (with_pending c false))
  end.

(** Interrupt 40 ([AP_ipi_wakeup_irq]) only ends the sleep. *)
Definition ap_wakeup (a : ap) : ap :=
  if ipi a && enabled a then mkAp (hw a) (match pc a with PHalt => PCheck | p => p end) (my_index a) false true else a.

(** The timer of a core that does not sleep ([AP_clock_tick_irq]). *)
Definition ap_tick (a : ap) (s : system) : result system :=
  match pc a with
  | PHalt => mret s
  | _ => if enabled a then c ← the_block s (my_index a); mret (set_block s (my_index a) (tick c)) else mret s
  end.

(** * Sending *)

(** The interrupt controller has 8 bits for the number of the target. *)
Definition lapic_send_ipi (target : Z) (l : list ap) : list ap :=
  (λ a, if hw a =? u8 target then mkAp (hw a) (pc a) (my_index a) true (enabled a) else a) <$> l.

(** The next access of code that sends on core [me]: what is left of its first
    operation, and the state. *)
Definition send_step (me : Z) (o : op) (s : system) : result (list op * system) :=
  match o with
  | OSend id f d => c ← block s id;
      match c with None => Panic "MAILBOX" "passed logical_id not found" | Some _ => mret ([OSpin id f d], s) end
  | OSpin id f d => c ← the_block s id; mret ([if mbox_pending c then OSpin id f d else OFunc id f d], s)
  | OFunc id f d => c ← the_block s id; mret ([OData id f d], set_block s id (with_func c f))
  | OData id f d => c ← the_block s id; mret ([OPend id f], set_block s id (with_data c d))
  | OPend id f => c ← the_block s id;
      mret ([OIpi id], with_sent (set_block s id (with_pending c true)) (sent s ++ [(id, f)]))
  | OIpi id => c ← the_block s id; mret ([], with_aps s (lapic_send_ipi (lapic_id c) (aps s)))
  | OSendFc f d => mret ([OStatus (cpu_blocks_c s) 0 f d], s)
  | OStatus n i f d =>
      if i <? n then
        c ← block s i;
        mret ([match c with
               | Some c => if negb (i =? me) && (match status c with CPU_IDLE => true | _ => false end) then OPending n i f d
                           else OStatus n (i + 1) f d
               | None => OStatus n (i + 1) f d
               end], s)
      else mret ([], s)
  | OPending n i f d => c ← the_block s i; mret ([if mbox_pending c then OStatus n (i + 1) f d else OSend i f d], s)
  | OMailman i f d =>
      mret (if i <? cpu_online_count s then (if i =? me then [] else [OSend i f d]) ++ [OMailman (u32 (i + 1)) f d]
            else [OCall f], s)
  | OCall f => mret ([], with_log s (log s ++ [(me, f)]))
  end.

(** * Steps of the system *)

(** Who moves: a core that was started, its interrupts, or code that sends; or
    the [zalloc] of a core that fills its block finds no memory. *)
Inductive label := LAp (i : nat) | LWakeup (i : nat) | LTick (i : nat) | LSend (i : nat) | LNoMem (i : nat).

Definition step (l : label) (s : system) : result system :=
  match l with
  | LAp i => match aps s !! i with
      | Some a => '(a, s') ← ap_step a s; mret (with_aps s' (<[i := a]> (aps s')))
      | None => mret s
      end
  | LWakeup i => mret (with_aps s (alter ap_wakeup i (aps s)))
  | LTick i => match aps s !! i with Some a => ap_tick a s | None => mret s end
  | LSend i => match senders s !! i with
      | Some (mkSender me (o :: l)) =>
          '(l', s') ← send_step me o s; mret (with_senders s' (<[i := mkSender me (l' ++ l)]> (senders s')))
      | _ => mret s
      end
  | LNoMem i => (* the fields are stored through NULL *)
      match aps s !! i with Some a => match pc a with PPublish => Fault | _ => mret s end | None => mret s end
  end.

Fixpoint steps (L : list label) (s : system) : result system :=
  match L with [] => mret s | l :: L => s ← step l s; steps L s end.

(** The states that some order of steps leads to. *)
Inductive reachable (s : system) : system → Prop :=
| reachable_refl : reachable s s
| reachable_step s1 s2 l : reachable s s1 → step l s1 = Ok s2 → reachable s s2.

End Smp.

(** * The boot of the cores *)

(** [cores_to_boot] of [kernel_main]: [maxcpus] is the argument of the command line. *)
Definition cores_to_boot (SMP_MAX_CORES maxcpus cpu_count : Z) : Z :=
  let maxcpu_req := if maxcpus =? 0 then 1 else maxcpus in
  let maxcpu_req := if maxcpu_req >? SMP_MAX_CORES then SMP_MAX_CORES else maxcpu_req in
  let n := if cpu_count >? SMP_MAX_CORES then SMP_MAX_CORES else cpu_count in
  if n >? maxcpu_req then maxcpu_req else n.

(** The local APICs of the cores that [kernel_main] starts, in the order in
    which the boot loader lists them. *)
Definition booted (n bsp_lapic_id : Z) (cpus : list Z) : list Z :=
  if Z.of_nat (length cpus) >=? 2 then
    (filter (λ p, p.2 ≠ bsp_lapic_id ∧ p.1 < n) (zip (seqZ 0 (Z.of_nat (length cpus))) cpus)).*2
  else [].

(** What the cores find: the block of the boot core, which is busy, and the
    count of one core.  [progs] is what the senders have to do on which core. *)
Definition boot_system (bsp_lapic_id : Z) (started : list Z) (progs : list sender) : system :=
  mkSystem {[ 0 := mkCore 0 bsp_lapic_id 1 CPU_BUSY 0 0 false ]} 1 1 false
    ((λ h, mkAp h PLock 0 false false) <$> started) progs [] [].
