(* ===== verification/SmpSpec.v ===== *)
(** What the start of the cores and the mailboxes promise in every order of
    steps: the indices of the cores, the functions that every core calls, and
    how many steps a message waits. *)

From S2P Require Import Prelude Smp.

(** * What the start of the cores depends on *)

(** The part of the start a core is in; the loop behind it is one part. *)
Definition boot_part (p : ap_pc) : ap_pc :=
  match p with PLock => PLock | PIndex => PIndex | PPublish => PPublish | POnline => POnline | PUnlock => PUnlock | _ => PIdle end.

Definition in_section (p : ap_pc) : bool := match p with PIndex | PPublish | POnline | PUnlock => true | _ => false end.
Definition has_index (p : ap_pc) : bool := match p with PLock | PIndex => false | _ => true end.
Definition counted (p : ap_pc) : bool := match p with PLock | PIndex | PPublish | POnline => false | _ => true end.

Definition counted_aps (l : list ap) : nat := length (filter (λ a, counted (pc a) = true) l).

Definition blocks_below (s : system) (n : Z) : Prop := ∀ k, is_Some (cpu_blocks s !! k) ↔ 0 <= k < n.

(** What a core in its part of the start knows of the counters and the array. *)
Definition part_ok (s : system) (p : ap_pc) (m : Z) : Prop :=
  match p with
  | PLock => True
  | PIndex => cpu_blocks_c s = cpu_online_count s ∧ blocks_below s (cpu_online_count s)
  | PPublish => m = cpu_online_count s ∧ cpu_blocks_c s = cpu_online_count s + 1 ∧ blocks_below s (cpu_online_count s)
  | POnline => m = cpu_online_count s ∧ cpu_blocks_c s = cpu_online_count s + 1 ∧ blocks_below s (cpu_online_count s + 1)
  | PUnlock => 1 <= m < cpu_online_count s ∧ cpu_blocks_c s = cpu_online_count s ∧ blocks_below s (cpu_online_count s)
  | _ => 1 <= m < cpu_online_count s
  end.

Record boot_inv (cores : nat) (s : system) : Prop := {
  bi_section i a : aps s !! i = Some a → in_section (pc a) = true →
    lock s = true ∧ ∀ j b, aps s !! j = Some b → in_section (pc b) = true → j = i;
  bi_part i a : aps s !! i = Some a → part_ok s (pc a) (my_index a);
  bi_free : lock s = false → cpu_blocks_c s = cpu_online_count s ∧ blocks_below s (cpu_online_count s);
  bi_blocks k : 0 <= k < cpu_online_count s → is_Some (cpu_blocks s !! k);
  bi_distinct i j a b : aps s !! i = Some a → aps s !! j = Some b → has_index (pc a) = true → has_index (pc b) = true →
    my_index a = my_index b → i = j;
  bi_online : cpu_online_count s = 1 + Z.of_nat (counted_aps (aps s));
  bi_cores : length (aps s) = cores
}.

Lemma blocks_below_eq s s' n : (∀ k, is_Some (cpu_blocks s' !! k) ↔ is_Some (cpu_blocks s !! k)) → blocks_below s n → blocks_below s' n.
Proof. intros E H k. by rewrite E. Qed.

(** Only these fields matter. *)
Lemma boot_inv_view n s s' : boot_inv n s →
  lock s' = lock s → cpu_blocks_c s' = cpu_blocks_c s → cpu_online_count s' = cpu_online_count s →
  (∀ k, is_Some (cpu_blocks s' !! k) ↔ is_Some (cpu_blocks s !! k)) →
  (λ a, (boot_part (pc a), my_index a)) <$> aps s' = (λ a, (boot_part (pc a), my_index a)) <$> aps s → boot_inv n s'.
Proof.
  intros H El Ec Eo Eb Ea.
  assert (∀ i a', aps s' !! i = Some a' → ∃ a, aps s !! i = Some a ∧ boot_part (pc a') = boot_part (pc a) ∧ my_index a' = my_index a) as Hback.
  { intros i a' Hi. apply (f_equal (.!! i)) in Ea. rewrite !list_lookup_fmap, Hi in Ea. destruct (aps s !! i) as [a|]; [|done].
    injection Ea as ??. eauto. }
  assert (∀ p q, boot_part p = boot_part q → in_section p = in_section q ∧ has_index p = has_index q ∧ counted p = counted q) as Hp by (by intros [] []).
  assert (∀ p q m, boot_part p = boot_part q → part_ok s q m → part_ok s' p m) as Hpart.
  { intros p q m E. pose proof (λ n, blocks_below_eq s s' n Eb). destruct p, q; cbn in *; try discriminate; rewrite ?Ec, ?Eo; naive_solver. }
  destruct H as [Hs Hpa Hf Hk Hd Ho Hc]. constructor.
  - intros i a (b&Hb&E&_)%Hback. destruct (Hp _ _ E) as (->&_). intros Hi. rewrite El. destruct (Hs _ _ Hb Hi) as [? Hu]. split; [done|].
    intros j c (d&Hd'&E'&_)%Hback. destruct (Hp _ _ E') as (->&_). eauto.
  - intros i a (b&Hb&E&->)%Hback. eauto.
  - rewrite El, Ec, Eo. intros [? ?]%Hf. split; [done|]. by eapply blocks_below_eq.
  - intros k. rewrite Eb, Eo. apply Hk.
  - intros i j a b (a'&Ha&E1&->)%Hback (b'&Hb&E2&->)%Hback. destruct (Hp _ _ E1) as (_&->&_), (Hp _ _ E2) as (_&->&_). eauto.
  - rewrite Eo, Ho. f_equal. f_equal. revert Ea. clear -Hp. unfold counted_aps. generalize (aps s'), (aps s). induction l as [|a l IH]; intros [|b l2] Ea; try done. injection Ea as E1 E2 E3.
    destruct (Hp _ _ E1) as (_&_&E). rewrite !filter_cons. specialize (IH _ E3). repeat case_decide; cbn; congruence.
  - apply (f_equal length) in Ea. rewrite !length_fmap in Ea. congruence.
Qed.

Lemma counted_insert l i a b : l !! i = Some a →
  (counted_aps (<[i := b]> l) + (if counted (pc a) then 1 else 0) = counted_aps l + (if counted (pc b) then 1 else 0))%nat.
Proof.
  intros H. unfold counted_aps. rewrite <- (take_drop_middle l i a H) at 2. rewrite insert_take_drop by (by eapply lookup_lt_Some).
  rewrite !filter_app, !filter_cons, !length_app. destruct (counted (pc a)), (counted (pc b)); repeat case_decide; cbn; lia || congruence.
Qed.

(** A core that has the lock, or takes it, moves on. *)
Lemma boot_inv_move n s s' i a b : boot_inv n s → aps s !! i = Some a → aps s' = <[i := b]> (aps s) →
  in_section (pc a) = true ∨ lock s = false → (in_section (pc b) = true → lock s' = true) →
  part_ok s' (pc b) (my_index b) → (lock s' = false → cpu_blocks_c s' = cpu_online_count s' ∧ blocks_below s' (cpu_online_count s')) →
  (has_index (pc b) = true → has_index (pc a) = true ∧ my_index b = my_index a ∨ my_index b = cpu_online_count s) →
  cpu_online_count s' = cpu_online_count s + (if counted (pc b) then 1 else 0) - (if counted (pc a) then 1 else 0) →
  cpu_online_count s <= cpu_online_count s' → (∀ k, 0 <= k < cpu_online_count s' → is_Some (cpu_blocks s' !! k)) → boot_inv n s'.
Proof.
  intros [Hs Hp Hf Hbl Hd Ho Hc] Ha Ea Hsec Hlock Hb Hfree Hidx Hon Hle Hbl'.
  assert (∀ j c, aps s' !! j = Some c → j = i ∧ c = b ∨ j ≠ i ∧ aps s !! j = Some c ∧ in_section (pc c) = false) as Hback.
  { intros j c. rewrite Ea. intros [(->&->&_)|[Hne Hj]]%list_lookup_insert_Some; [by left|]. right. split; [done|]. split; [done|].
    destruct (in_section (pc c)) eqn:E; [|done]. exfalso. destruct (Hs _ _ Hj E) as [Hl Hu]. destruct Hsec as [Hsec|]; [|congruence].
    by apply Hne, Hu with a. }
  assert (∀ j c, aps s !! j = Some c → in_section (pc c) = false → has_index (pc c) = true → 1 <= my_index c < cpu_online_count s) as Hothers.
  { intros j c Hj E1 E2. specialize (Hp _ _ Hj). destruct (pc c); done. }
  constructor.
  - intros j c [[-> ->]|(_&_&E)]%Hback ?; [|congruence]. split; [auto|]. intros j d [[-> ->]|(_&_&E)]%Hback ?; [done|congruence].
  - intros j c [[-> ->]|(_&Hj&E)]%Hback; [done|]. specialize (Hp _ _ Hj). destruct (pc c); cbn in *; try done; lia.
  - done.
  - done.
  - intros j k c d [[-> ->]|(Hj1&Hj&E)]%Hback [[-> ->]|(Hk1&Hk&E')]%Hback Hi1 Hi2 Em; [done| | |by eapply Hd].
    + destruct (Hidx Hi1) as [[? Eb]|Eb]; [eapply Hd; [exact Ha|exact Hk|done|done|congruence]|]. pose proof (Hothers _ _ Hk E' Hi2). lia.
    + destruct (Hidx Hi2) as [[? Eb]|Eb]; [eapply Hd; [exact Hj|exact Ha|done|done|congruence]|]. pose proof (Hothers _ _ Hj E Hi1). lia.
  - rewrite Hon, Ho, Ea. pose proof (counted_insert (aps s) i a b Ha). destruct (counted (pc a)), (counted (pc b)); lia.
  - by rewrite Ea, length_insert.
Qed.

Section Boot.
Context (SMP_MAX_CORES : Z) (cores : nat).
Hypothesis room : 1 + Z.of_nat cores <= SMP_MAX_CORES < 2 ^ 32.
#[local] Abbreviation ap_step := (ap_step SMP_MAX_CORES).
#[local] Abbreviation step := (step SMP_MAX_CORES).
#[local] Abbreviation the_block := (the_block SMP_MAX_CORES).

Lemma online_range s : boot_inv cores s → 1 <= cpu_online_count s <= 1 + Z.of_nat cores.
Proof. intros H. rewrite (bi_online _ _ H). pose proof (length_filter (λ a, counted (pc a) = true) (aps s)). rewrite (bi_cores _ _ H) in *. unfold counted_aps. lia. Qed.

Lemma online_uncounted s i a : boot_inv cores s → aps s !! i = Some a → counted (pc a) = false → 1 <= cpu_online_count s <= Z.of_nat cores.
Proof.
  intros H Ha Hc. rewrite (bi_online _ _ H). unfold counted_aps. rewrite <- (bi_cores _ _ H), <- (take_drop_middle (aps s) i a Ha).
  rewrite filter_app, filter_cons, decide_False, !length_app by congruence. cbn. pose proof (length_filter (λ a, counted (pc a) = true) (take i (aps s))).
  pose proof (length_filter (λ a, counted (pc a) = true) (drop (S i) (aps s))). lia.
Qed.

Lemma the_block_ok s k : boot_inv cores s → 0 <= k < cpu_online_count s → ∃ c, cpu_blocks s !! k = Some c ∧ the_block s k = Ok c.
Proof.
  intros H Hk. pose proof (online_range s H). destruct (bi_blocks _ _ H k Hk) as [c Hc]. exists c. split; [done|].
  unfold Smp.the_block, block. settle_z. cbn. by rewrite Hc.
Qed.

(** A core that is counted stays what it is, whatever it does to its own block. *)
Lemma boot_inv_loop s i a b s' : boot_inv cores s → aps s !! i = Some a → boot_part (pc a) = PIdle → boot_part (pc b) = PIdle →
  my_index b = my_index a → aps s' = aps s → lock s' = lock s → cpu_blocks_c s' = cpu_blocks_c s →
  cpu_online_count s' = cpu_online_count s → (∀ k, is_Some (cpu_blocks s' !! k) ↔ is_Some (cpu_blocks s !! k)) →
  boot_inv cores (with_aps s' (<[i := b]> (aps s'))).
Proof.
  intros H Ha Ep Eq Em Eaps ??? Hb. eapply boot_inv_view; [exact H|done..|]. cbn. rewrite Eaps, list_fmap_insert, list_insert_id; [done|].
  rewrite list_lookup_fmap, Ha. cbn. congruence.
Qed.

Lemma set_block_some s k c c' j : cpu_blocks s !! k = Some c → is_Some (cpu_blocks (set_block s k c') !! j) ↔ is_Some (cpu_blocks s !! j).
Proof. intros H. cbn. destruct (decide (k = j)) as [->|]; [rewrite lookup_insert_eq, H; by split|by rewrite lookup_insert_ne]. Qed.

(** The function that a core calls was replaced by NULL since it tested it. *)
Definition null_call (s : system) (a : ap) : Prop :=
  pc a = PCall ∧ ∃ c, cpu_blocks s !! my_index a = Some c ∧ mbox_func c = 0.

Lemma null_call_stuck s a r : null_call s a → ap_step a s ≠ Ok r.
Proof.
  intros (Ep&c&Hc&Ef). unfold Smp.ap_step, Smp.the_block, block. rewrite Ep. destruct ((0 <=? my_index a) && (my_index a <? SMP_MAX_CORES)); [|done].
  cbn. rewrite Hc. cbn. by rewrite Ef.
Qed.

(** A core faults at most at such a call, and the counters stay right. *)
Lemma boot_inv_ap s i a : boot_inv cores s → aps s !! i = Some a → null_call s a ∨
  ∃ b s', ap_step a s = Ok (b, s') ∧ boot_inv cores (with_aps s' (<[i := b]> (aps s'))).
Proof.
  intros H Ha. pose proof (online_range s H) as Hr. pose proof (bi_part _ _ H _ _ Ha) as Hp. pose proof (bi_blocks _ _ H) as Hbl.
  assert (boot_part (pc a) = PIdle → ∃ c, cpu_blocks s !! my_index a = Some c ∧ the_block s (my_index a) = Ok c) as Hmine.
  { intros E. apply the_block_ok; [done|]. destruct (pc a); try done; cbn in Hp; lia. }
  destruct (decide (pc a = PCall)) as [Epc|Hpc].
  { destruct Hmine as (c&Hc&Ec); [by rewrite Epc|]. destruct (Z.eqb_spec (mbox_func c) 0) as [E|Hne]; [left; split; eauto|]. right.
    unfold Smp.ap_step. rewrite Epc, Ec. cbn [mbind result_bind]. rewrite (proj2 (Z.eqb_neq _ _) Hne). eexists _, _. split; [reflexivity|].
    eapply boot_inv_loop; try done. by rewrite Epc. }
  right. destruct a as [h p m ip en]. destruct p; cbn [pc my_index hw Smp.ap_step] in *; cbn in Hp; try done.
  - destruct (lock s) eqn:El; eexists _, _; (split; [reflexivity|]).
    + eapply boot_inv_view; [exact H|done..|]. cbn. by rewrite list_insert_id.
    + eapply (boot_inv_move _ s); [exact H|exact Ha|done|by right|done|by apply (bi_free _ _ H)|done|done|cbn; lia|cbn; lia|done].
  - destruct Hp as [Ec Hb]. pose proof (online_uncounted s i _ H Ha eq_refl). eexists _, _. split; [reflexivity|]. pose proof (bi_section _ _ H _ _ Ha eq_refl) as [El _].
    assert (u32 (cpu_blocks_c s + 1) = cpu_online_count s + 1) as E by (rewrite Ec; apply u32_id; lia).
    eapply (boot_inv_move _ s); [exact H|exact Ha|done|by left|done|cbn; by rewrite E|cbn; congruence|cbn; by right|cbn; lia|cbn; lia|done].
  - destruct Hp as (->&Ec&Hb). pose proof (online_uncounted s i _ H Ha eq_refl). pose proof (bi_section _ _ H _ _ Ha eq_refl) as [El _].
    eexists _, _. split; [unfold block; settle_z; reflexivity|].
    assert (∀ k, is_Some (cpu_blocks (set_block s (cpu_online_count s) (new_core (cpu_online_count s) h)) !! k) ↔ 0 <= k < cpu_online_count s + 1) as Hb'.
    { intros k. cbn. destruct (decide (cpu_online_count s = k)) as [<-|]; [rewrite lookup_insert_eq; split; [lia|done]|]. rewrite lookup_insert_ne, (Hb k) by done. lia. }
    eapply (boot_inv_move _ s); [exact H|exact Ha|done|by left|done|by split_and!|cbn; congruence|cbn; by left|cbn; lia|cbn; lia|].
    intros k Hk. apply Hb'. cbn in Hk. lia.
  - destruct Hp as (->&Ec&Hb). pose proof (bi_section _ _ H _ _ Ha eq_refl) as [El _]. eexists _, _. split; [reflexivity|].
    assert (u64 (cpu_online_count s + 1) = cpu_online_count s + 1) as E by (apply u64_id; lia).
    eapply (boot_inv_move _ s); [exact H|exact Ha|done|by left|done|cbn; rewrite E; split_and!; try done; lia|cbn; congruence|cbn; by left|cbn; lia|cbn; lia|].
    cbn. rewrite E. intros k Hk. by apply Hb.
  - destruct Hp as (Hm&Ec&Hb). eexists _, _. split; [reflexivity|].
    eapply (boot_inv_move _ s); [exact H|exact Ha|done|by left|done|done|done|cbn; by left|cbn; lia|cbn; lia|done].
  - destruct (Hmine eq_refl) as (c&Hc&->). eexists _, _. split; [reflexivity|]. by eapply boot_inv_loop; eauto using set_block_some.
  - destruct (Hmine eq_refl) as (c&Hc&->). eexists _, _. split; [reflexivity|]. by eapply boot_inv_loop; eauto using set_block_some.
  - destruct (Hmine eq_refl) as (c&Hc&->). eexists _, _. split; [reflexivity|]. eapply boot_inv_loop; try done. by destruct (mbox_pending c).
  - destruct (Hmine eq_refl) as (c&Hc&->). eexists _, _. split; [reflexivity|]. by eapply boot_inv_loop; eauto using set_block_some.
  - destruct (Hmine eq_refl) as (c&Hc&->). eexists _, _. split; [reflexivity|]. eapply boot_inv_loop; try done. by destruct (mbox_func c =? 0).
  - destruct (Hmine eq_refl) as (c&Hc&->). eexists _, _. split; [reflexivity|]. by eapply boot_inv_loop; eauto using set_block_some.
Qed.

Lemma the_block_inv s k c : the_block s k = Ok c → cpu_blocks s !! k = Some c.
Proof. unfold Smp.the_block, block. destruct ((0 <=? k) && (k <? SMP_MAX_CORES)); [|done]. cbn. destruct (cpu_blocks s !! k); [by intros [= ->]|done]. Qed.

(** Sending and interrupts change nothing that the start depends on. *)
Lemma boot_inv_send s me o l s' i r : boot_inv cores s → send_step SMP_MAX_CORES me o s = Ok (l, s') →
  boot_inv cores (with_senders s' (<[i := r]> (senders s'))).
Proof.
  intros H E.
  assert (∀ k f, the_block s k = Ok f → ∀ g j, is_Some (cpu_blocks (set_block s k g) !! j) ↔ is_Some (cpu_blocks s !! j)) as Hset.
  { intros k f Hk g j. eapply set_block_some, the_block_inv, Hk. }
  destruct o; cbn [send_step] in E; repeat (apply bind_ok in E as (?&?&E)); repeat split_match_in E; repeat (apply bind_ok in E as (?&?&E)); try discriminate;
    injection E as <- <-; (eapply boot_inv_view; [exact H|done..|first [done | intros j; eapply Hset; eassumption]|try done]).
  cbn. unfold lapic_send_ipi. rewrite <- list_fmap_compose. apply list_fmap_ext. intros j a _. cbn. by destruct (hw a =? u8 (lapic_id _)).
Qed.

Lemma no_mem_step s s' i : step (LNoMem i) s = Ok s' → s' = s.
Proof. cbn. destruct (aps s !! i) as [a|]; [destruct (pc a)|]; (discriminate || by intros [= ->]). Qed.

Lemma boot_inv_step s s' l : boot_inv cores s → step l s = Ok s' → boot_inv cores s'.
Proof.
  intros H E. destruct l as [i|i|i|i|i]; [| | | |by apply no_mem_step in E as ->]; cbn [Smp.step] in E.
  - destruct (aps s !! i) as [a|] eqn:Ea; [|by injection E as <-]. destruct (boot_inv_ap s i a H Ea) as [Hn|(b&s1&Eb&H1)].
    { apply bind_ok in E as (r&Er&_). by apply (null_call_stuck _ _ r) in Hn. }
    rewrite Eb in E. by injection E as <-.
  - injection E as <-. eapply boot_inv_view; [exact H|done..|]. cbn. apply list_eq. intros j. rewrite !list_lookup_fmap.
    destruct (decide (i = j)) as [->|]; [rewrite list_lookup_alter_eq|by rewrite list_lookup_alter_ne]. destruct (aps s !! j) as [a|]; [|done]. cbn. f_equal.
    unfold ap_wakeup. destruct (ipi a && enabled a); [|done]. cbn. by destruct (pc a).
  - destruct (aps s !! i) as [a|] eqn:Ea; [|by injection E as <-]. unfold ap_tick in E.
    assert (s' = s ∨ ∃ c, the_block s (my_index a) = Ok c ∧ s' = set_block s (my_index a) (tick c)) as [->|(c&Ec%the_block_inv&->)]; [|done|].
    { destruct (pc a), (enabled a); try (injection E as <-; by left); apply bind_ok in E as (c&Ec&[= <-]); eauto. }
    eapply boot_inv_view; [exact H|done..|intros j; by eapply set_block_some|done].
  - destruct (senders s !! i) as [[me [|o r]]|]; [by injection E as <-| |by injection E as <-].
    apply bind_ok in E as ([l' s1]&E1&[= <-]). by eapply boot_inv_send.
Qed.

Lemma boot_inv_start bsp started progs : length started = cores → boot_inv cores (boot_system bsp started progs).
Proof.
  clear room. intros <-. assert (∀ i a, aps (boot_system bsp started progs) !! i = Some a → pc a = PLock) as Hp.
  { intros i a. cbn. rewrite list_lookup_fmap. by intros (h&_&->)%fmap_Some. }
  assert (blocks_below (boot_system bsp started progs) 1) as Hb.
  { intros k. cbn. destruct (decide (k = 0)) as [->|]; [split; [lia|by rewrite lookup_singleton_eq]|]. rewrite lookup_singleton_ne by done. split; [by intros []|lia]. }
  constructor; try (intros ??? %Hp; congruence).
  - intros i a E. by rewrite (Hp _ _ E).
  - intros i a E. by rewrite (Hp _ _ E).
  - done.
  - intros k. apply Hb.
  - intros i j a b E. by rewrite (Hp _ _ E).
  - unfold counted_aps. cbn. clear. induction started as [|h l IH]; [done|]. cbn [fmap list_fmap]. rewrite filter_cons. by rewrite decide_False.
  - cbn. by rewrite length_fmap.
Qed.

Lemma boot_inv_reachable s s' : boot_inv cores s → reachable SMP_MAX_CORES s s' → boot_inv cores s'.
Proof. intros H Hr. induction Hr; eauto using boot_inv_step. Qed.
End Boot.

(** * Functions that are not NULL *)

(** The function an operation sends. *)
Definition op_func (o : op) : Z :=
  match o with
  | OSend _ f _ | OSpin _ f _ | OFunc _ f _ | OData _ f _ | OPend _ f | OSendFc f _ | OStatus _ _ f _ | OPending _ _ f _ | OMailman _ f _ | OCall f => f
  | OIpi _ => 1
  end.

Definition never_null (p : sender) : Prop := Forall (λ o, op_func o ≠ 0) (ops p).

Definition has_func (s : system) (k : Z) : Prop := ∃ c, cpu_blocks s !! k = Some c ∧ mbox_func c ≠ 0.

(** A core that calls has a function to call. *)
Definition calls_ok (s : system) : Prop :=
  Forall never_null (senders s) ∧ ∀ i a, aps s !! i = Some a → pc a = PCall → has_func s (my_index a).

Definition funcs_kept (s s' : system) : Prop := ∀ k, has_func s k → has_func s' k.

Lemma funcs_kept_same s s' : cpu_blocks s' = cpu_blocks s → funcs_kept s s'.
Proof. intros E k. unfold has_func. by rewrite E. Qed.

Lemma funcs_kept_set s k c d : cpu_blocks s !! k = Some c → (mbox_func c ≠ 0 → mbox_func d ≠ 0) → funcs_kept s (set_block s k d).
Proof.
  intros Hc Hd j (e&He&Hf). unfold has_func. cbn. destruct (decide (k = j)) as [<-|]; [|rewrite lookup_insert_ne by done; eauto].
  rewrite lookup_insert_eq. exists d. split; [done|]. apply Hd. congruence.
Qed.

Lemma calls_ok_view s s' : calls_ok s → Forall never_null (senders s') → funcs_kept s s' →
  (∀ i a, aps s' !! i = Some a → pc a = PCall →
    has_func s' (my_index a) ∨ ∃ b, aps s !! i = Some b ∧ pc b = PCall ∧ my_index b = my_index a) → calls_ok s'.
Proof.
  intros [_ Hc] Hs Hk Ha. split; [done|]. intros i a Hi Hp. destruct (Ha i a Hi Hp) as [?|(b&Hb&Hpb&<-)]; [done|]. apply Hk. by eapply Hc.
Qed.

Section Null.
Context (SMP_MAX_CORES : Z) (cores : nat).
Hypothesis room : 1 + Z.of_nat cores <= SMP_MAX_CORES < 2 ^ 32.

(** The step of a core keeps the functions in the mailboxes, and it goes to the
    call from the test only. *)
Lemma ap_step_func s i a b s' : boot_inv cores s → aps s !! i = Some a → ap_step SMP_MAX_CORES a s = Ok (b, s') →
  funcs_kept s s' ∧ aps s' = aps s ∧ senders s' = senders s ∧ (pc b = PCall → has_func s (my_index b)).
Proof.
  intros HB Ha E. pose proof (bi_part _ _ HB _ _ Ha) as Hp.
  destruct (pc a) eqn:Ep; unfold ap_step in E; rewrite Ep in E; repeat (apply bind_ok in E as (?&?%the_block_inv&E) || apply bind_ok in E as (?&?&E));
    repeat split_match_in E; try discriminate; injection E as <- <-;
    (split_and!; [try first [by apply funcs_kept_same|by eapply funcs_kept_set; [eassumption|]]|done..|try (cbn; congruence)]).
  - intros k (c&Hc&Hf). unfold has_func. cbn. rewrite lookup_insert_ne; [by exists c|]. cbn in Hp. destruct Hp as (Em&_&Hb). intros <-.
    assert (is_Some (cpu_blocks s !! my_index a)) as Hi%Hb by eauto. lia.
  - intros _. exists x. split; [done|]. by apply Z.eqb_neq.
Qed.

Lemma send_step_func s me o l s' : op_func o ≠ 0 → send_step SMP_MAX_CORES me o s = Ok (l, s') →
  funcs_kept s s' ∧ senders s' = senders s ∧ Forall (λ o, op_func o ≠ 0) l ∧
  ∀ i a, aps s' !! i = Some a → ∃ b, aps s !! i = Some b ∧ pc b = pc a ∧ my_index b = my_index a.
Proof.
  intros Ho E.
  destruct o; cbn [send_step op_func] in E, Ho; repeat (apply bind_ok in E as (?&?%the_block_inv&E) || apply bind_ok in E as (?&?&E)); repeat split_match_in E;
    repeat (apply bind_ok in E as (?&?&E)); try discriminate; injection E as <- <-;
    (split_and!; [try first [by apply funcs_kept_same|by eapply funcs_kept_set; [eassumption|]]|done|try (repeat constructor; done)|try (intros; eexists; by split_and!)]).
  all: try (repeat case_match; repeat constructor; done).
  intros i a. cbn. unfold lapic_send_ipi. rewrite list_lookup_fmap. intros (b&Hb&->)%fmap_Some. exists b. split; [done|]. by destruct (hw b =? _).
Qed.

Lemma calls_ok_step s s' l : boot_inv cores s → calls_ok s → step SMP_MAX_CORES l s = Ok s' → calls_ok s'.
Proof.
  intros HB HC E. pose proof HC as [Hs _]. destruct l as [i|i|i|i|i]; [| | | |by apply no_mem_step in E as ->]; cbn [step] in E.
  - destruct (aps s !! i) as [a|] eqn:Ha; [|by injection E as <-]. apply bind_ok in E as ([b s1]&E&[= <-]).
    destruct (ap_step_func s i a b s1 HB Ha E) as (Hk&Ea&Es&Hb). apply (calls_ok_view s); [done|cbn; by rewrite Es|exact Hk|].
    intros j c. cbn. rewrite Ea. intros [(->&->&_)|[Hne Hj]]%list_lookup_insert_Some Hp; [left; by apply Hk, Hb|right; eauto].
  - injection E as <-. apply (calls_ok_view s); [done|done|by apply funcs_kept_same|]. intros j a. cbn.
    destruct (decide (i = j)) as [->|]; [rewrite list_lookup_alter_eq|rewrite list_lookup_alter_ne by done; eauto].
    intros (b&Hb&->)%fmap_Some. unfold ap_wakeup. destruct (ipi b && enabled b); [cbn|eauto]. destruct (pc b) eqn:Ep; try done. eauto.
  - destruct (aps s !! i) as [a|]; [|by injection E as <-]. unfold ap_tick in E.
    assert (s' = s ∨ ∃ c, cpu_blocks s !! my_index a = Some c ∧ s' = set_block s (my_index a) (tick c)) as [->|(c&Hc&->)]; [|done|].
    { destruct (pc a), (enabled a); try (injection E as <-; by left); apply bind_ok in E as (c&Ec%the_block_inv&[= <-]); eauto. }
    apply (calls_ok_view s); [done|done|by apply (funcs_kept_set _ _ c)|eauto].
  - destruct (senders s !! i) as [[me [|o r]]|] eqn:Ei; [by injection E as <-| |by injection E as <-].
    apply bind_ok in E as ([l' s1]&E&[= <-]). pose proof (Forall_lookup_1 _ _ _ _ Hs Ei) as [Ho Hr]%Forall_cons.
    destruct (send_step_func s me o l' s1 Ho E) as (Hk&Es&Hl&Ha). apply (calls_ok_view s); [done| |exact Hk|].
    + cbn. rewrite Es. apply Forall_insert; [done|]. apply Forall_app. by split.
    + intros j a Hj Hp. right. destruct (Ha j a Hj) as (b&Hb&E1&E2). exists b. split_and!; congruence.
Qed.

Lemma calls_ok_start bsp started progs : Forall never_null progs → calls_ok (boot_system bsp started progs).
Proof. intros H. split; [done|]. intros i a. cbn. rewrite list_lookup_fmap. by intros (h&_&->)%fmap_Some. Qed.

Lemma calls_ok_reachable s s' : boot_inv cores s → calls_ok s → reachable SMP_MAX_CORES s s' → calls_ok s'.
Proof.
  intros HB HC Hr. induction Hr as [|s1 s2 l Hr IH E]; [done|]. apply (calls_ok_step s1 s2 l); [|by apply IH|done].
  by eapply boot_inv_reachable.
Qed.
End Null.

(** * One sender *)

(** The functions that a list of pairs has for a core. *)
Definition on (k : Z) (l : list (Z * Z)) : list Z := (filter (λ p, p.1 = k) l).*2.

Lemma on_snoc k l j f : on k (l ++ [(j, f)]) = on k l ++ (if decide (j = k) then [f] else []).
Proof. unfold on. rewrite filter_app, fmap_app. f_equal. rewrite filter_cons. cbn. by case_decide. Qed.

(** What a core that is in a part of its loop knows of its mailbox, of the
    functions it called and of the messages it got. *)
Definition phase (p : ap_pc) (c : coreinfo_t) (called got : list Z) : Prop :=
  match p with
  | PBusy | PTest | PCall => mbox_pending c = true ∧ got = called ++ [mbox_func c]
  | PClear => mbox_pending c = true ∧ got = called
  | _ => got = called ++ (if mbox_pending c then [mbox_func c] else [])
  end ∧ (mbox_pending c = true → mbox_func c ≠ 0).

(** What the sender knows of the mailbox it writes to. *)
Definition sending (s : system) (o : op) : Prop :=
  match o with
  | OFunc k _ _ => ∃ c, cpu_blocks s !! k = Some c ∧ mbox_pending c = false
  | OData k f _ | OPend k f => ∃ c, cpu_blocks s !! k = Some c ∧ mbox_pending c = false ∧ mbox_func c = f
  | _ => True
  end.

(** The rest of its work are calls that it has not started. *)
Definition call_ok (o : op) : Prop :=
  match o with OSend _ f _ | OSendFc f _ | OMailman _ f _ | OCall f => f ≠ 0 | _ => False end.

Definition ops_ok (s : system) (l : list op) : Prop :=
  match l with [] => True | o :: l => (op_func o ≠ 0 ∧ sending s o) ∧ Forall call_ok l end.

(** A core of which this holds is one that reached the array. *)
Definition has_block (p : ap_pc) : bool := match p with PLock | PIndex | PPublish => false | _ => true end.

Record mail_inv (s : system) : Prop := {
  mi_sender : ∃ l, senders s = [mkSender 0 l] ∧ ops_ok s l;
  mi_phase i a : aps s !! i = Some a → has_block (pc a) = true →
    ∃ c, cpu_blocks s !! my_index a = Some c ∧ phase (pc a) c (on (my_index a) (log s)) (on (my_index a) (sent s));
  mi_new k : cpu_blocks s !! k = None → on k (log s) = [] ∧ on k (sent s) = []
}.

Lemma sending_mono s s' o : sending s o →
  (∀ k c, cpu_blocks s !! k = Some c → mbox_pending c = false →
    ∃ c', cpu_blocks s' !! k = Some c' ∧ mbox_pending c' = false ∧ mbox_func c' = mbox_func c) → sending s' o.
Proof. intros Ho H. destruct o; cbn in *; try done; destruct Ho as (c&Hc&Hp); destruct (H _ c Hc) as (c'&?&?&?); naive_solver. Qed.

Lemma ops_ok_mono s s' l : ops_ok s l →
  (∀ k c, cpu_blocks s !! k = Some c → mbox_pending c = false →
    ∃ c', cpu_blocks s' !! k = Some c' ∧ mbox_pending c' = false ∧ mbox_func c' = mbox_func c) → ops_ok s' l.
Proof. destruct l as [|o l]; [done|]. intros [[Hf Ho] Hl] H. split_and!; eauto using sending_mono. Qed.

Lemma ops_ok_calls s l : Forall call_ok l → ops_ok s l.
Proof. destruct l as [|o l]; [done|]. intros [Ho Hl]%Forall_cons. split; [|done]. by destruct o. Qed.

Section Mail.
Context (SMP_MAX_CORES : Z) (cores : nat).
Hypothesis room : 1 + Z.of_nat cores <= SMP_MAX_CORES < 2 ^ 32.
#[local] Abbreviation ap_step := (ap_step SMP_MAX_CORES).
#[local] Abbreviation step := (step SMP_MAX_CORES).
#[local] Abbreviation the_block := (the_block SMP_MAX_CORES).

(** Only these fields matter. *)
Lemma mail_inv_view s s' : mail_inv s → senders s' = senders s → log s' = log s → sent s' = sent s →
  (∀ k, (λ c, (mbox_func c, mbox_pending c)) <$> cpu_blocks s' !! k = (λ c, (mbox_func c, mbox_pending c)) <$> cpu_blocks s !! k) →
  (λ a, (pc a, my_index a)) <$> aps s' = (λ a, (pc a, my_index a)) <$> aps s → mail_inv s'.
Proof.
  intros [(l&El&Hl) Hp Hn] Es Elog Esent Eb Ea.
  constructor.
  - exists l. rewrite Es. split; [done|]. apply (ops_ok_mono s); [done|]. intros k c Hc Hpend. specialize (Eb k). rewrite Hc in Eb.
    destruct (cpu_blocks s' !! k) as [c'|]; [|done]. cbn in Eb. injection Eb as E1 E2. exists c'. by rewrite E1, E2.
  - intros i a' Hi Hb. apply (f_equal (.!! i)) in Ea. rewrite !list_lookup_fmap, Hi in Ea. destruct (aps s !! i) as [a|] eqn:Ha; [|done].
    cbn in Ea. injection Ea as Ep Em. rewrite Ep in Hb. destruct (Hp _ _ Ha Hb) as (c&Hc&Hph). specialize (Eb (my_index a')). rewrite Em, Hc in Eb.
    rewrite Em. destruct (cpu_blocks s' !! my_index a) as [c'|] eqn:Hc'; [|done]. cbn in Eb. injection Eb as E1 E2. exists c'. split; [done|].
    rewrite Ep, Elog, Esent. unfold phase in *. by rewrite E1, E2.
  - intros k Hk. rewrite Elog, Esent. apply Hn. specialize (Eb k). rewrite Hk in Eb. by destruct (cpu_blocks s !! k).
Qed.

(** A core changes its own mailbox, place and log. *)
Lemma mail_inv_own s i a c c' p called : boot_inv cores s → mail_inv s → aps s !! i = Some a → has_block (pc a) = true →
  cpu_blocks s !! my_index a = Some c → phase p c' (on (my_index a) (log s) ++ called) (on (my_index a) (sent s)) → has_block p = true →
  mbox_pending c = true ∨ mbox_pending c' = mbox_pending c ∧ mbox_func c' = mbox_func c →
  ∀ s', senders s' = senders s → sent s' = sent s → log s' = log s ++ ((λ f, (my_index a, f)) <$> called) →
  cpu_blocks s' = <[my_index a := c']> (cpu_blocks s) → (∃ b, aps s' = <[i := b]> (aps s) ∧ pc b = p ∧ my_index b = my_index a) → mail_inv s'.
Proof.
  intros HB [(l&El&Hl) Hp Hn] Ha Hhb Hc Hph Hhb' Hch s' Es Esent Elog Eb (b&Ea&Epb&Emb).
  assert (∀ k, on k (log s') = on k (log s) ++ (if decide (my_index a = k) then called else [])) as Hlog.
  { intros k. rewrite Elog. unfold on. rewrite filter_app, fmap_app. f_equal. clear. induction called as [|f L IH]; [by case_decide|].
    cbn [fmap list_fmap]. rewrite filter_cons. cbn. case_decide; [cbn; by rewrite IH|done]. }
  constructor.
  - exists l. rewrite Es. split; [done|]. apply (ops_ok_mono s); [done|]. intros k d Hd Hpend. rewrite Eb.
    destruct (decide (my_index a = k)) as [<-|]; [|rewrite lookup_insert_ne by done; eauto]. rewrite lookup_insert_eq. exists c'. split; [done|].
    assert (d = c) as -> by congruence. destruct Hch as [?|[-> ->]]; [congruence|done].
  - intros j d. rewrite Ea. intros [(->&->&_)|[Hne Hj]]%list_lookup_insert_Some Hd.
    + exists c'. rewrite Emb, Eb, lookup_insert_eq, Hlog, Esent, decide_True by done. by rewrite Epb.
    + destruct (Hp _ _ Hj Hd) as (d'&Hd'&Hphd). assert (my_index a ≠ my_index d) as Hnm.
      { intros E. apply Hne. eapply (bi_distinct _ _ HB i j a d); try done; [by destruct (pc a)|by destruct (pc d)]. }
      exists d'. rewrite Eb, lookup_insert_ne, Hlog, Esent, decide_False, app_nil_r by done. done.
  - intros k. rewrite Eb. intros [Hk Hne]%lookup_insert_None. rewrite Hlog, Esent, decide_False, app_nil_r by done. by apply Hn.
Qed.

(** Before its block is in the array a core has no messages. *)
Lemma mail_inv_before s i b s' : mail_inv s → has_block (pc b) = false → senders s' = senders s → log s' = log s → sent s' = sent s →
  cpu_blocks s' = cpu_blocks s → aps s' = <[i := b]> (aps s) → mail_inv s'.
Proof.
  intros [(l&El&Hl) Hp Hn] Hb Es Elog Esent Eb Ea. constructor; rewrite ?Es, ?Elog, ?Esent, ?Eb; [|..|done].
  - exists l. split; [done|]. apply (ops_ok_mono s); [done|]. rewrite Eb. eauto.
  - intros j d. rewrite Ea. intros [(->&->&_)|[_ Hj]]%list_lookup_insert_Some; [congruence|]. eauto.
Qed.

Lemma mail_inv_publish s i a c s' : boot_inv cores s → mail_inv s → aps s !! i = Some a → pc a = PPublish → cpu_blocks s !! my_index a = None →
  mbox_pending c = false → senders s' = senders s → log s' = log s → sent s' = sent s → cpu_blocks s' = <[my_index a := c]> (cpu_blocks s) →
  (∃ b, aps s' = <[i := b]> (aps s) ∧ pc b = POnline ∧ my_index b = my_index a) → mail_inv s'.
Proof.
  intros HB [(l&El&Hl) Hp Hn] Ha Epc Hnone Hpend Es Elog Esent Eb (b&Ea&Epb&Emb). destruct (Hn _ Hnone) as [Hl0 Hs0]. constructor.
  - exists l. rewrite Es. split; [done|]. apply (ops_ok_mono s); [done|]. intros k d Hd Hpe. rewrite Eb, lookup_insert_ne by congruence. eauto.
  - intros j d. rewrite Ea. intros [(->&->&_)|[Hne Hj]]%list_lookup_insert_Some Hd.
    + exists c. rewrite Emb, Epb, Eb, lookup_insert_eq, Elog, Esent, Hl0, Hs0. split; [done|]. unfold phase. by rewrite Hpend.
    + destruct (Hp _ _ Hj Hd) as (d'&Hd'&Hph). exists d'. rewrite Eb, lookup_insert_ne, Elog, Esent by congruence. done.
  - intros k. rewrite Eb, Elog, Esent. intros [Hk _]%lookup_insert_None. auto.
Qed.

(** A step of a core, by [Hown] of the lemma that uses it. *)
Ltac own c p called :=
  match goal with Hown : context [_ → mail_inv _] |- _ => apply (Hown c p called) end;
  [ |reflexivity| |reflexivity|reflexivity|cbn; rewrite ?app_nil_r; reflexivity|cbn; rewrite ?insert_id by done; reflexivity|eexists; split_and!; reflexivity].

Lemma mail_inv_ap s i a b s' : boot_inv cores s → mail_inv s → aps s !! i = Some a → ap_step a s = Ok (b, s') →
  mail_inv (with_aps s' (<[i := b]> (aps s'))).
Proof.
  intros HB HM Ha E.
  destruct (has_block (pc a)) eqn:Hb; cycle 1.
  { pose proof (bi_part _ _ HB _ _ Ha) as Hp. pose proof (online_range cores s HB). destruct a as [h p m ip en]. destruct p; try done; cbn in E, Hp.
    - destruct (lock s); injection E as <- <-; (eapply (mail_inv_before s i _ _ HM); [|reflexivity..]; reflexivity).
    - injection E as <- <-. (eapply (mail_inv_before s i _ _ HM); [|reflexivity..]; reflexivity).
    - apply bind_ok in E as (?&_&[= <- <-]). destruct Hp as (->&_&Hbl). eapply (mail_inv_publish s i _ (new_core (cpu_online_count s) h)); [exact HB|exact HM|exact Ha|reflexivity| |reflexivity..|by eexists].
      cbn. apply eq_None_not_Some. rewrite (Hbl _). lia. }
  destruct (mi_phase _ HM _ _ Ha Hb) as (c&Hc&Hph).
  assert (boot_part (pc a) = PIdle → the_block s (my_index a) = Ok c) as Hblk.
  { intros Hpa. destruct (the_block_ok SMP_MAX_CORES cores room s (my_index a) HB) as (c'&Hc'&->); [|congruence].
    pose proof (bi_part _ _ HB _ _ Ha) as Hp. destruct (pc a); try done; cbn in Hp; lia. }
  pose proof (λ d p called, mail_inv_own s i a c d p called HB HM Ha Hb Hc) as Hown.
  assert (phase (pc a) c (on (my_index a) (log s) ++ []) (on (my_index a) (sent s))) as Hph' by (by rewrite app_nil_r).
  destruct a as [h p m ip en]. destruct p; try done; cbn [pc my_index hw Smp.ap_step has_block boot_part] in *; try (rewrite Hblk in E by done); cbn in E; try injection E as <- <-.
  - own c PUnlock (@nil Z); [done|by right].
  - own c PIdle (@nil Z); [done|by right].
  - own (with_status c CPU_IDLE) PHalt (@nil Z); [done|by right].
  - own (tick c) PCheck (@nil Z); [done|by right].
  - destruct Hph' as [Hgot Hf]. destruct (mbox_pending c) eqn:Ep; [own c PBusy (@nil Z)|own c PIdle (@nil Z)]; try (by right); unfold phase; rewrite Ep; by split_and!.
  - own (with_status c CPU_BUSY) PTest (@nil Z); [done|by right].
  - destruct Hph' as [[Hp Hgot] Hf]. rewrite (proj2 (Z.eqb_neq _ _)) by auto. own c PCall (@nil Z); [|by right]. by split_and!.
  - pose proof Hph as [[Hp Hgot] Hf]. rewrite (proj2 (Z.eqb_neq _ _)) in E by auto. injection E as <- <-.
    own c PClear [mbox_func c]; [|by left]. by split_and!.
  - own (with_pending c false) PIdle (@nil Z); [|by left; apply Hph]. destruct Hph' as [[Hp Hgot] Hf]. split; [|done]. cbn. by rewrite app_nil_r.
Qed.

(** The sender goes on with other work. *)
Lemma mail_inv_ops s s' l : mail_inv s → senders s' = [mkSender 0 l] → ops_ok s l → log s' = log s → sent s' = sent s →
  cpu_blocks s' = cpu_blocks s → (λ a, (pc a, my_index a)) <$> aps s' = (λ a, (pc a, my_index a)) <$> aps s → mail_inv s'.
Proof.
  intros HM Es Hl Elog Esent Eb Ea. apply (mail_inv_view (with_senders s [mkSender 0 l])); try done; [|by rewrite Eb].
  destruct HM as [_ Hp Hn]. constructor; [|exact Hp|exact Hn]. exists l. split; [done|]. apply (ops_ok_mono s); [done|eauto].
Qed.

(** The sender writes to a mailbox that is free. *)
Lemma mail_inv_write s id c c' l s' : mail_inv s → cpu_blocks s !! id = Some c → mbox_pending c = false →
  (mbox_pending c' = true → mbox_func c' ≠ 0) → senders s' = [mkSender 0 l] → ops_ok s' l → log s' = log s → aps s' = aps s →
  sent s' = sent s ++ (if mbox_pending c' then [(id, mbox_func c')] else []) → cpu_blocks s' = <[id := c']> (cpu_blocks s) → mail_inv s'.
Proof.
  intros [_ Hp Hn] Hc Hfree Hf Es Hl Elog Ea Esent Eb.
  assert (∀ k, on k (sent s') = on k (sent s) ++ (if decide (id = k) then if mbox_pending c' then [mbox_func c'] else [] else [])) as Hsent.
  { intros k. rewrite Esent. destruct (mbox_pending c'); [apply on_snoc|]. rewrite app_nil_r. by case_decide; rewrite app_nil_r. }
  constructor.
  - by exists l.
  - intros i a. rewrite Ea, Elog, Hsent, Eb. intros Ha Hb. destruct (Hp i a Ha Hb) as (d&Hd&Hph). case_decide as Hid.
    + rewrite <- Hid in *. exists c'. rewrite lookup_insert_eq. split; [done|]. assert (d = c) as -> by congruence.
      destruct Hph as [Hph _]. rewrite Hfree, app_nil_r in Hph. split; [|done].
      destruct (pc a); try (destruct Hph; congruence); rewrite Hph; by destruct (mbox_pending c').
    + exists d. rewrite lookup_insert_ne, app_nil_r by done. done.
  - intros k. rewrite Eb, Elog, Hsent. intros [Hk Hne]%lookup_insert_None. rewrite decide_False, app_nil_r by done. auto.
Qed.

Lemma mail_inv_send s o l l' s' : boot_inv cores s → mail_inv s → senders s = [mkSender 0 (o :: l)] →
  send_step SMP_MAX_CORES 0 o s = Ok (l', s') → mail_inv (with_senders s' [mkSender 0 (l' ++ l)]).
Proof.
  intros HB HM Es E. destruct (mi_sender _ HM) as (l0&El&Hl). rewrite Es in El. injection El as <-. destruct Hl as [[Hf Ho] Hl].
  destruct o; cbn [send_step op_func sending] in *.
  - apply bind_ok in E as ([c|]&_&E); [|done]. injection E as <- <-. by eapply mail_inv_ops.
  - apply bind_ok in E as (c&Ec%the_block_inv&[= <- <-]). eapply mail_inv_ops; try done. destruct (mbox_pending c) eqn:Ep; repeat split; cbn; eauto.
  - destruct Ho as (c0&Hc0&Hfree). apply bind_ok in E as (c&Ec%the_block_inv&[= <- <-]). assert (c0 = c) as -> by congruence.
    eapply (mail_inv_write s id c (with_func c func)); try done; cbn; rewrite ?Hfree, ?app_nil_r; try done.
    split_and!; [done|cbn; rewrite lookup_insert_eq; eauto|done].
  - destruct Ho as (c0&Hc0&Hfree&Hfn). apply bind_ok in E as (c&Ec%the_block_inv&[= <- <-]). assert (c0 = c) as -> by congruence.
    eapply (mail_inv_write s id c (with_data c data)); try done; cbn; rewrite ?Hfree, ?app_nil_r; try done.
    split_and!; [done|cbn; rewrite lookup_insert_eq; eauto|done].
  - destruct Ho as (c0&Hc0&Hfree&Hfn). apply bind_ok in E as (c&Ec%the_block_inv&[= <- <-]). assert (c0 = c) as -> by congruence.
    eapply (mail_inv_write s id c (with_pending c true)); try done; cbn; by rewrite ?Hfn.
  - apply bind_ok in E as (c&_&[= <- <-]). eapply mail_inv_ops; try done; [by apply ops_ok_calls|]. cbn. unfold lapic_send_ipi.
    rewrite <- list_fmap_compose. apply list_fmap_ext. intros j a _. cbn. by destruct (hw a =? u8 (lapic_id c)).
  - injection E as <- <-. by eapply mail_inv_ops.
  - destruct (i <? count); [|injection E as <- <-; eapply mail_inv_ops; try done; by apply ops_ok_calls].
    apply bind_ok in E as (c&_&[= <- <-]). eapply mail_inv_ops; try done. destruct c as [c|]; [|done]. by destruct (negb (i =? 0) && _).
  - apply bind_ok in E as (c&_&[= <- <-]). eapply mail_inv_ops; try done. by destruct (mbox_pending c).
  - injection E as <- <-. eapply mail_inv_ops; try done. destruct (i <? _); [|done]. destruct (i =? 0); repeat split; cbn; auto.
  - injection E as <- <-. pose proof (online_range cores s HB) as Hr. destruct HM as [_ Hp Hn].
    assert (∀ k, k ≠ 0 → on k (log s ++ [(0, func)]) = on k (log s)) as Hlog by (intros k Hk; rewrite on_snoc, decide_False, app_nil_r by done; done).
    constructor; cbn [senders log sent aps cpu_blocks with_senders with_log].
    + exists l. split; [done|]. by apply ops_ok_calls.
    + intros i a Ha Hb. pose proof (bi_part _ _ HB _ _ Ha) as Hpa. rewrite Hlog; [by apply (Hp i)|]. destruct (pc a); cbn in Hpa; try done; lia.
    + intros k Hk. rewrite Hlog; [by apply Hn|]. intros ->. destruct (bi_blocks _ _ HB 0) as [c Hc]; [lia|congruence].
Qed.

Lemma mail_inv_step s s' l : boot_inv cores s → mail_inv s → step l s = Ok s' → mail_inv s'.
Proof.
  intros HB HM E. destruct l as [i|i|i|i|i]; [| | | |by apply no_mem_step in E as ->]; cbn [Smp.step] in E.
  - destruct (aps s !! i) as [a|] eqn:Ea; [|by injection E as <-]. apply bind_ok in E as ([b s1]&E1&[= <-]). by eapply mail_inv_ap.
  - injection E as <-. destruct (aps s !! i) as [a|] eqn:Ea; cycle 1.
    { eapply mail_inv_view; [exact HM|done..|]. cbn. f_equal. apply list_eq. intros j. destruct (decide (i = j)) as [->|]; [by rewrite list_lookup_alter_eq, Ea|by rewrite list_lookup_alter_ne]. }
    assert (alter ap_wakeup i (aps s) = <[i := ap_wakeup a]> (aps s)) as E.
    { apply list_eq. intros j. destruct (decide (i = j)) as [->|]; [|by rewrite list_lookup_alter_ne, list_lookup_insert_ne].
      rewrite list_lookup_alter_eq, Ea, list_lookup_insert_eq; [done|by eapply lookup_lt_Some]. }
    rewrite E. unfold ap_wakeup. destruct (ipi a && enabled a); [|by eapply mail_inv_view; [exact HM|done..|cbn; by rewrite list_insert_id]].
    destruct (has_block (pc a)) eqn:Hb; [|eapply mail_inv_before; [exact HM| |done..]; cbn; by destruct (pc a)].
    destruct (mi_phase _ HM _ _ Ea Hb) as (c&Hc&Hph). pose proof (λ d p called, mail_inv_own s i a c d p called HB HM Ea Hb Hc) as Hown.
    destruct a as [h p m ip en]. cbn [pc my_index hw] in *.
    destruct p; try done; match goal with |- context [mkAp _ ?q _ false true] => own c q (@nil Z) end; try (by right); by rewrite app_nil_r.
  - destruct (aps s !! i) as [a|] eqn:Ea; [|by injection E as <-]. unfold ap_tick in E.
    assert (s' = s ∨ ∃ c, the_block s (my_index a) = Ok c ∧ s' = set_block s (my_index a) (tick c)) as [->|(c&Ec%the_block_inv&->)]; [|done|].
    { destruct (pc a), (enabled a); try (injection E as <-; by left); apply bind_ok in E as (c&Ec&[= <-]); eauto. }
    eapply mail_inv_view; [exact HM|done..| |done]. intros k. cbn. destruct (decide (my_index a = k)) as [<-|]; [by rewrite lookup_insert_eq, Ec|by rewrite lookup_insert_ne].
  - destruct (mi_sender _ HM) as (l&El&Hl). rewrite El in E. destruct i as [|i]; cbn in E; [|injection E as <-; done].
    destruct l as [|o l]; [by injection E as <-|]. apply bind_ok in E as ([l' s1]&E1&[= <-]).
    assert (senders s1 = senders s) as ->.
    { clear -E1. destruct o; cbn [send_step] in E1; repeat (apply bind_ok in E1 as (?&?&E1)); repeat split_match_in E1; repeat (apply bind_ok in E1 as (?&?&E1)); try discriminate; by injection E1 as <- <-. }
    rewrite El. by eapply mail_inv_send.
Qed.

Lemma mail_inv_reachable s s' : boot_inv cores s → mail_inv s → reachable SMP_MAX_CORES s s' → boot_inv cores s' ∧ mail_inv s'.
Proof. intros HB HM Hr. induction Hr as [|s1 s2 l Hr IH E]; [done|]. destruct IH as [HB1 HM1]; [done..|]. split; [by eapply boot_inv_step|by eapply mail_inv_step]. Qed.

Lemma mail_inv_start bsp started prog : Forall call_ok prog → mail_inv (boot_system bsp started [mkSender 0 prog]).
Proof.
  intros Hp. constructor; [exists prog; split; [done|by apply ops_ok_calls]| |done].
  intros i a. cbn. rewrite list_lookup_fmap. by intros (h&_&->)%fmap_Some.
Qed.

(** What a mailbox and the core that reads it owe to the messages. *)
Lemma mail_inv_order s i a : mail_inv s → aps s !! i = Some a → counted (pc a) = true →
  ∃ c, cpu_blocks s !! my_index a = Some c ∧ on (my_index a) (sent s) = on (my_index a) (log s) ++
    (if mbox_pending c && negb (match pc a with PClear => true | _ => false end) then [mbox_func c] else []).
Proof.
  intros HM Ha Hb. destruct (mi_phase _ HM i a Ha) as (c&Hc&Hph); [by destruct (pc a)|]. exists c. split; [done|].
  destruct Hph as [Hph _]. destruct (pc a), (mbox_pending c); try done; try (by destruct Hph). destruct Hph as [_ ->]. by rewrite app_nil_r.
Qed.

(** ** How long a message waits *)

(** How many of its steps a core needs to call the function of its mailbox. *)
Definition turns (p : ap_pc) : nat :=
  match p with PUnlock => 7 | PIdle => 6 | PHalt => 5 | PCheck => 4 | PBusy => 3 | PTest => 2 | PCall => 1 | _ => 8 end.

(** The i-th core has message f, after it called [called]. *)
Definition waits (s : system) (i : nat) (k f : Z) (called : list Z) (n : nat) : Prop :=
  ∃ a c, aps s !! i = Some a ∧ my_index a = k ∧ counted (pc a) = true ∧ pc a ≠ PClear ∧ (turns (pc a) <= n)%nat ∧
    cpu_blocks s !! k = Some c ∧ mbox_pending c = true ∧ mbox_func c = f ∧ f ≠ 0 ∧ on k (log s) = called.

Lemma waits_own s s' i k f called n : boot_inv cores s → waits s i k f called n → step (LAp i) s = Ok s' →
  (∃ m, n = S m ∧ waits s' i k f called m) ∨ on k (log s') = called ++ [f].
Proof.
  intros HB (a&c&Ha&<-&Hcnt&Hpc&Hn&Hc&Hp&Hf&Hf0&Hlog) E. cbn [Smp.step] in E. rewrite Ha in E.
  pose proof (bi_part _ _ HB _ _ Ha) as Hpa. destruct (the_block_ok SMP_MAX_CORES cores room s (my_index a) HB) as (c'&Hc'&Eb).
  { destruct (pc a); try done; cbn in Hpa; lia. }
  assert (c' = c) as -> by congruence. pose proof (lookup_lt_Some _ _ _ Ha) as Hlt.
  assert (∀ p b, n ≠ O → (turns p <= pred n)%nat → counted p = true → p ≠ PClear → pc b = p → my_index b = my_index a →
    ∀ s1 d, log s1 = log s → aps s1 = aps s → cpu_blocks s1 !! my_index a = Some d → mbox_pending d = true → mbox_func d = f →
    ∃ m, n = S m ∧ waits (with_aps s1 (<[i := b]> (aps s1))) i (my_index a) f called m) as Hgo.
  { intros p b Hn0 Ht Hcp Hnp Epb Emb s1 d El Ea Hd Hpd Hfd. exists (pred n). split; [lia|]. exists b, d. cbn [aps with_aps cpu_blocks log].
    rewrite Ea, list_lookup_insert_eq, El, Epb by done. by split_and!. }
  destruct a as [h p m ip en]. destruct p; try done; cbn [pc my_index hw Smp.ap_step turns] in *; try rewrite Eb in E; cbn in E; rewrite ?Hp in E;
    rewrite ?Hf in E; try (rewrite (proj2 (Z.eqb_neq f 0)) in E by done; cbn in E); injection E as <-.
  7: { right. cbn [log with_aps with_log]. by rewrite on_snoc, decide_True, Hlog. }
  all: left; match goal with |- context [with_aps ?s1 (<[_ := ?b]> _)] => eapply (λ h1 h2 h3 h4 h5 h6, Hgo (pc b) b h1 h2 h3 h4 h5 h6 s1) end;
    cbn [pc turns counted my_index pred]; [lia|lia|done..| |reflexivity|reflexivity|cbn; rewrite ?lookup_insert_eq; first [reflexivity|exact Hc]|done|done]; done.
Qed.

(** Nothing else touches the mailbox until then. *)
Lemma waits_frame s s' i k f called n : waits s i k f called n → on k (log s') = on k (log s) →
  (∀ a, aps s !! i = Some a → ∃ b, aps s' !! i = Some b ∧ my_index b = my_index a ∧ (pc b = pc a ∨ pc a = PHalt ∧ pc b = PCheck)) →
  (∀ c, cpu_blocks s !! k = Some c → mbox_pending c = true → ∃ d, cpu_blocks s' !! k = Some d ∧ mbox_pending d = true ∧ mbox_func d = mbox_func c) →
  waits s' i k f called n.
Proof.
  intros (a&c&Ha&<-&Hcnt&Hpc&Hn&Hc&Hp&<-&Hf0&Hlog) El Hap Hb. destruct (Hap a Ha) as (b&Hb1&Hb2&Hb3). destruct (Hb c Hc Hp) as (d&Hd1&Hd2&Hd3).
  exists b, d. rewrite El. split_and!; try done; destruct Hb3 as [->|[Ea ->]]; try done. rewrite Ea in Hn. cbn in *. lia.
Qed.

Lemma waits_other_ap s s' i j k f called n : boot_inv cores s → waits s i k f called n → i ≠ j → step (LAp j) s = Ok s' → waits s' i k f called n.
Proof.
  intros HB Hw Hne E. cbn [Smp.step] in E. destruct (aps s !! j) as [b|] eqn:Hb; [|by injection E as <-].
  apply bind_ok in E as ([b' s1]&E1&[= <-]). pose proof Hw as (a&c&Ha&<-&Hcnt&_&_&Hc&_).
  assert (has_index (pc b) = true → my_index b ≠ my_index a) as Hm.
  { intros Hi Em. apply Hne. eapply (bi_distinct _ _ HB i j a b); try done. by destruct (pc a). }
  assert (has_index (pc b) = true → cpu_blocks s1 = cpu_blocks s ∨ ∃ d, cpu_blocks s1 = <[my_index b := d]> (cpu_blocks s)) as Hbl.
  { intros Hi. destruct (pc b) eqn:Ep; try done; unfold Smp.ap_step in E1; rewrite Ep in E1; repeat (apply bind_ok in E1 as (?&?&E1)); repeat split_match_in E1; try discriminate; injection E1 as <- <-; cbn; eauto. }
  assert (log s1 = log s ∨ ∃ x, log s1 = log s ++ [(my_index b, x)] ∧ has_index (pc b) = true) as Hlog.
  { destruct (pc b) eqn:Ep; unfold Smp.ap_step in E1; rewrite Ep in E1; repeat (apply bind_ok in E1 as (?&?&E1)); repeat split_match_in E1; try discriminate; injection E1 as <- <-; cbn; eauto. }
  assert (aps s1 = aps s) as Eaps.
  { destruct (pc b) eqn:Ep; unfold Smp.ap_step in E1; rewrite Ep in E1; repeat (apply bind_ok in E1 as (?&?&E1)); repeat split_match_in E1; try discriminate; by injection E1 as <- <-. }
  apply (waits_frame s); [done|..].
  - cbn [log with_aps]. destruct Hlog as [->|(x&->&Hi)]; [done|]. rewrite on_snoc, decide_False, app_nil_r by auto. done.
  - cbn [aps with_aps]. rewrite Eaps, list_lookup_insert_ne by done. eauto.
  - cbn [cpu_blocks with_aps]. intros d Hd Hpd. destruct (has_index (pc b)) eqn:Hi.
    + destruct (Hbl eq_refl) as [->|[e ->]]; [eauto|]. rewrite lookup_insert_ne by auto. eauto.
    + assert (cpu_blocks s1 = cpu_blocks s) as ->; [|eauto].
      destruct (pc b) eqn:Ep; try done; unfold Smp.ap_step in E1; rewrite Ep in E1; try destruct (lock s); by injection E1 as <- <-.
Qed.

Lemma waits_send s s' i j k f called n : boot_inv cores s → mail_inv s → waits s i k f called n → step (LSend j) s = Ok s' → waits s' i k f called n.
Proof.
  intros HB HM Hw E. pose proof Hw as (a&c&Ha&<-&Hcnt&_&_&Hc&Hp&_). destruct (mi_sender _ HM) as (l&El&Hl). cbn [Smp.step] in E. rewrite El in E.
  destruct j as [|j]; cbn in E; [|by injection E as <-]. destruct l as [|o l]; [by injection E as <-|]. destruct Hl as [[_ Ho] _].
  apply bind_ok in E as ([l' s1]&E1&[= <-]). assert (my_index a ≠ 0) as Hm.
  { pose proof (bi_part _ _ HB _ _ Ha) as Hpa. destruct (pc a); try done; cbn in Hpa; lia. }
  assert (∀ id d, cpu_blocks s !! id = Some d → mbox_pending d = false → my_index a ≠ id) as Hfree by congruence.
  apply (waits_frame s); [done|cbn [log with_senders]|cbn [aps with_senders]|cbn [cpu_blocks with_senders]].
  all: destruct o; cbn [send_step sending] in E1, Ho; repeat (apply bind_ok in E1 as (?&?&E1)); repeat split_match_in E1; repeat (apply bind_ok in E1 as (?&?&E1));
    try discriminate; injection E1 as <- <-; cbn [log aps cpu_blocks with_aps with_sent with_blocks set_block with_log]; try done; try (by eauto).
  - by rewrite on_snoc, decide_False, app_nil_r by done.
  - intros b Hb. unfold lapic_send_ipi. rewrite list_lookup_fmap, Hb. cbn. eexists. split; [done|]. destruct (hw b =? _); by eauto.
  - destruct Ho as (d&Hd&Hpd). intros e He Hpe. rewrite lookup_insert_ne by (apply not_eq_sym; eauto). eauto.
  - destruct Ho as (d&Hd&Hpd&_). intros e He Hpe. rewrite lookup_insert_ne by (apply not_eq_sym; eauto). eauto.
  - destruct Ho as (d&Hd&Hpd&_). intros e He Hpe. rewrite lookup_insert_ne by (apply not_eq_sym; eauto). eauto.
Qed.

Lemma waits_step s s' i l k f called n : boot_inv cores s → mail_inv s → waits s i k f called n → step l s = Ok s' →
  waits s' i k f called n ∧ l ≠ LAp i ∨ (∃ m, n = S m ∧ waits s' i k f called m) ∨ on k (log s') = called ++ [f].
Proof.
  intros HB HM Hw E. destruct l as [j|j|j|j|j]; [| | | |left; apply no_mem_step in E as ->; by split].
  - destruct (decide (i = j)) as [<-|Hne]; [right; by eapply waits_own|]. left. split; [by eapply waits_other_ap|congruence].
  - left. split; [|done]. injection E as <-. apply (waits_frame s); [done|done| |by eauto]. intros a Ha. cbn [aps with_aps].
    destruct (decide (j = i)) as [->|]; [|rewrite list_lookup_alter_ne by done; eauto]. rewrite list_lookup_alter_eq, Ha. cbn. eexists. split; [done|].
    unfold ap_wakeup. destruct (ipi a && enabled a); [|by eauto]. cbn. split; [done|]. destruct (pc a); eauto.
  - left. split; [|done]. cbn [Smp.step] in E. destruct (aps s !! j) as [a|]; [|by injection E as <-]. unfold ap_tick in E.
    assert (s' = s ∨ ∃ c, the_block s (my_index a) = Ok c ∧ s' = set_block s (my_index a) (tick c)) as [->|(c&Ec%the_block_inv&->)]; [|done|].
    { destruct (pc a), (enabled a); try (injection E as <-; by left); apply bind_ok in E as (c&Ec&[= <-]); eauto. }
    apply (waits_frame s); [done|done|by eauto|]. intros d Hd Hp. cbn. destruct (decide (my_index a = k)) as [<-|]; [|rewrite lookup_insert_ne by done; eauto].
    rewrite lookup_insert_eq. eexists. split; [done|]. assert (c = d) as -> by congruence. done.
  - left. split; [|done]. by eapply waits_send.
Qed.

Lemma log_mono s s' l : step l s = Ok s' → ∃ x, log s' = log s ++ x.
Proof.
  intros E. destruct l as [i|i|i|i|i]; [| | | |apply no_mem_step in E as ->; exists []; by rewrite app_nil_r]; cbn [Smp.step] in E; try (injection E as <-; exists []; by rewrite app_nil_r).
  - destruct (aps s !! i) as [a|]; [|injection E as <-; exists []; by rewrite app_nil_r]. apply bind_ok in E as ([b s1]&E1&[= <-]). cbn [log with_aps].
    destruct (pc a) eqn:Ep; unfold Smp.ap_step in E1; rewrite Ep in E1; repeat (apply bind_ok in E1 as (?&?&E1)); repeat split_match_in E1; try discriminate; injection E1 as <- <-; cbn; eauto;
      exists []; by rewrite app_nil_r.
  - destruct (aps s !! i) as [a|]; [|injection E as <-; exists []; by rewrite app_nil_r]. unfold ap_tick in E. exists []. rewrite app_nil_r.
    destruct (pc a), (enabled a); try (by injection E as <-); by apply bind_ok in E as (?&_&[= <-]).
  - destruct (senders s !! i) as [[me [|o r]]|]; [injection E as <-; exists []; by rewrite app_nil_r| |injection E as <-; exists []; by rewrite app_nil_r].
    apply bind_ok in E as ([l' s1]&E1&[= <-]). cbn [log with_senders].
    destruct o; cbn [send_step] in E1; repeat (apply bind_ok in E1 as (?&?&E1)); repeat split_match_in E1; repeat (apply bind_ok in E1 as (?&?&E1)); try discriminate;
      injection E1 as <- <-; cbn; eauto; exists []; by rewrite app_nil_r.
Qed.

Lemma on_app k l m : on k (l ++ m) = on k l ++ on k m.
Proof. unfold on. by rewrite filter_app, fmap_app. Qed.

Lemma steps_log L s s' : steps SMP_MAX_CORES L s = Ok s' → ∃ x, log s' = log s ++ x.
Proof.
  revert s. induction L as [|l L IH]; intros s E; [injection E as <-; exists []; by rewrite app_nil_r|].
  apply bind_ok in E as (s1&E1&E2). destruct (log_mono _ _ _ E1) as [x Hx]. destruct (IH _ E2) as [y Hy]. exists (x ++ y). by rewrite Hy, Hx, app_assoc.
Qed.

#[export] Instance label_eq_dec : EqDecision label.
Proof. solve_decision. Defined.

(** A core calls the function of its mailbox within so many of its steps. *)
Lemma waits_called L s s' i k f called n : boot_inv cores s → mail_inv s → waits s i k f called n → steps SMP_MAX_CORES L s = Ok s' →
  (n <= length (filter (λ l, l = LAp i) L))%nat → ∃ rest, on k (log s') = called ++ f :: rest.
Proof.
  revert s n. induction L as [|l L IH]; intros s n HB HM Hw E Hn.
  { exfalso. destruct Hw as (a&_&_&_&_&_&Ht&_). cbn in Hn. destruct (pc a); cbn in Ht; lia. }
  apply bind_ok in E as (s1&E1&E2). rewrite filter_cons in Hn.
  assert (boot_inv cores s1 ∧ mail_inv s1) as [HB1 HM1] by eauto using boot_inv_step, mail_inv_step.
  destruct (waits_step s s1 i l k f called n HB HM Hw E1) as [[Hw1 Hl]|[(m&->&Hw1)|Hdone]].
  - rewrite decide_False in Hn by done. by eapply (IH s1 n).
  - eapply (IH s1 m); [done..|]. case_decide; cbn in Hn; lia.
  - destruct (steps_log _ _ _ E2) as [x Hx]. exists (on k x). by rewrite Hx, on_app, Hdone, <- app_assoc.
Qed.

(** ** To all cores *)

(** The messages of [mailman_send] before its i-th round. *)
Definition rounds (f i : Z) : list (Z * Z) := (λ k, (k, f)) <$> seqZ 1 (i - 1).

Lemma rounds_next f i : 1 <= i → rounds f (i + 1) = rounds f i ++ [(i, f)].
Proof. intros Hi. unfold rounds. replace (i + 1 - 1) with ((i - 1) + 1) by lia. rewrite seqZ_app, fmap_app by lia. cbn. by replace (1 + (i - 1)) with i by lia. Qed.

(** Where [mailman_send] is, what was sent, and what the sending core called;
    [n0] cores were there when it started. *)
Definition mailman_at (n0 f : Z) (s : system) : Prop :=
  ∃ i d, 0 <= i <= cpu_online_count s ∧ n0 <= cpu_online_count s ∧
    match senders s with
    | [mkSender me l] => me = 0 ∧ match l with
        | [OMailman j g d'] => j = i ∧ g = f ∧ d' = d ∧ sent s = rounds f i ∧ on 0 (log s) = []
        | [o; OMailman j g d'] => j = i + 1 ∧ g = f ∧ d' = d ∧ 1 <= i < cpu_online_count s ∧ on 0 (log s) = [] ∧
            match o with
            | OSend k g _ | OSpin k g _ | OFunc k g _ | OData k g _ | OPend k g => k = i ∧ g = f ∧ sent s = rounds f i
            | OIpi k => k = i ∧ sent s = rounds f (i + 1)
            | _ => False
            end
        | [OCall g] => g = f ∧ n0 <= i ∧ sent s = rounds f i ∧ on 0 (log s) = []
        | [] => n0 <= i ∧ sent s = rounds f i ∧ on 0 (log s) = [f]
        | _ => False
        end
    | _ => False
    end.

Lemma mailman_send_step n0 f s : boot_inv cores s → mailman_at n0 f s → ∃ s', step (LSend 0) s = Ok s' ∧ mailman_at n0 f s'.
Proof.
  intros HB (i&d&Hi&Hn0&Hm). pose proof (online_range cores s HB) as Hr.
  assert (∀ k, 0 <= k < cpu_online_count s → ∃ c, the_block s k = Ok c) as Hblk by (intros k Hk; destruct (the_block_ok SMP_MAX_CORES cores room s k HB Hk) as (c&_&?); eauto).
  assert (∀ k, 0 <= k < cpu_online_count s → ∃ c, block SMP_MAX_CORES s k = Ok (Some c)) as Hblk'.
  { intros k Hk. destruct (bi_blocks _ _ HB k Hk) as [c Hc]. exists c. unfold block. settle_z. cbn. by rewrite Hc. }
  cbn [Smp.step]. destruct (senders s) as [|[me l] [|]] eqn:Es; try done. destruct Hm as [-> Hm]. cbn [lookup list_lookup].
  destruct l as [|o [|o' [|]]]; try done.
  - exists s. split; [done|]. exists i, d. rewrite Es. destruct Hm as (?&?&?). split_and!; done || lia.
  - destruct o; try done; cbn [send_step].
    + destruct Hm as (->&->&->&Hs&Hl). destruct (Z.ltb_spec i (cpu_online_count s)) as [Hlt|Hge]; cbn [mbind result_bind mret result_ret].
      * rewrite (u32_id (i + 1)) by lia. destruct (Z.eqb_spec i 0) as [->|Hne]; eexists; (split; [reflexivity|]).
        -- exists 1, d. cbn. rewrite Es. cbn. split_and!; try done; lia.
        -- exists i, d. cbn. rewrite Es. cbn. split_and!; try done; lia.
      * eexists. split; [reflexivity|]. exists i, d. cbn. rewrite Es. cbn. split_and!; try done; lia.
    + destruct Hm as (->&Hn&Hs&Hl). eexists. split; [reflexivity|]. exists i, d. cbn [cpu_online_count with_senders with_log senders sent log]. rewrite Es. cbn [insert list_insert app].
      split_and!; try done; try lia. by rewrite on_snoc, Hl.
  - destruct o'; try (destruct o; by cbn in Hm). destruct o; cbn in Hm; destruct Hm as (->&->&->&Hi'&Hl&Ho); try done.
    all: destruct (Hblk i ltac:(lia)) as [c Hc], (Hblk' i ltac:(lia)) as [c' Hc']; cbn [send_step]; first [destruct Ho as (->&->&Ho)|destruct Ho as (->&Ho)]; rewrite ?Hc, ?Hc'; cbn [mbind result_bind mret result_ret]; eexists; (split; [reflexivity|]).
    6: { exists (i + 1), d. cbn. rewrite Es. cbn. split_and!; try done; lia. }
    all: exists i, d; cbn [cpu_online_count with_senders with_sent set_block with_blocks senders sent log]; rewrite Es; cbn [insert list_insert app].
    2: by destruct (mbox_pending c).
    all: split_and!; try done; try lia. by rewrite rounds_next by lia; congruence.
  - exfalso. destruct o, o'; by cbn in Hm.
Qed.

(** The cores only make more of themselves. *)
Lemma mailman_ap_step n0 f s s' l : boot_inv cores s → mailman_at n0 f s → (∀ j, l ≠ LSend j) → step l s = Ok s' → mailman_at n0 f s'.
Proof.
  intros HB Hm Hl E.
  assert (senders s' = senders s ∧ sent s' = sent s ∧ cpu_online_count s <= cpu_online_count s' ∧ on 0 (log s') = on 0 (log s)) as (Es&Et&Eo&El).
  { destruct l as [i|i|i|i|i]; [| | | |by apply no_mem_step in E as ->]; cbn [Smp.step] in E; [|by injection E as <-| |by destruct (Hl i)].
    - destruct (aps s !! i) as [a|] eqn:Ea; [|by injection E as <-]. apply bind_ok in E as ([b s1]&E1&[= <-]).
      pose proof (bi_part _ _ HB _ _ Ea) as Hp. pose proof (online_range cores s HB) as Hr.
      destruct (pc a) eqn:Ep; unfold Smp.ap_step in E1; rewrite Ep in E1; repeat (apply bind_ok in E1 as (?&?&E1)); repeat split_match_in E1; try discriminate;
        injection E1 as <- <-; cbn [senders sent cpu_online_count log with_aps with_lock with_count with_online set_block with_blocks with_log]; try by split_and!.
      + rewrite u64_id by lia. split_and!; try done; lia.
      + cbn in Hp. rewrite on_snoc, decide_False, app_nil_r by lia. by split_and!.
    - destruct (aps s !! i) as [a|]; [|by injection E as <-]. unfold ap_tick in E.
      destruct (pc a), (enabled a); try (by injection E as <-); apply bind_ok in E as (c&Ec&[= <-]); by split_and!. }
  destruct Hm as (i&d&Hi&Hn0&Hm). exists i, d. rewrite Es, Et, El. split_and!; try lia.
  destruct (senders s) as [|[me l1] [|]]; try done. destruct Hm as [-> Hm]. split; [done|].
  destruct l1 as [|o [|o' [|]]]; try done; destruct o; try destruct o'; cbn in *; intuition lia.
Qed.

Lemma mailman_reachable n0 f s s' : boot_inv cores s → mailman_at n0 f s → reachable SMP_MAX_CORES s s' → boot_inv cores s' ∧ mailman_at n0 f s'.
Proof.
  intros HB HM Hr. induction Hr as [|s1 s2 l Hr IH E]; [done|]. destruct IH as [HB1 HM1]; [done..|]. split; [by eapply boot_inv_step|].
  destruct l as [i|i|i|[|i]|i]; try (eapply mailman_ap_step; [exact HB1|exact HM1| |exact E]; intros ?; discriminate).
  - destruct (mailman_send_step n0 f s1 HB1 HM1) as (s3&E3&H3). rewrite E3 in E. by injection E as <-.
  - cbn [Smp.step] in E. assert (senders s1 !! S i = None) as En.
    { destruct HM1 as (?&?&_&_&Hm). by destruct (senders s1) as [|[? ?] [|]]. }
    rewrite En in E. by injection E as <-.
Qed.
End Mail.

Lemma steps_reachable SMP_MAX_CORES L s s' : steps SMP_MAX_CORES L s = Ok s' → reachable SMP_MAX_CORES s s'.
Proof.
  assert (∀ s0 s1, reachable SMP_MAX_CORES s0 s1 → steps SMP_MAX_CORES L s1 = Ok s' → reachable SMP_MAX_CORES s0 s') as H.
  { induction L as [|l L IH]; intros s0 s1 Hr E; [by injection E as <-|]. apply bind_ok in E as (s2&E1&E2). eapply IH; [|exact E2]. by eapply reachable_step. }
  apply H. constructor.
Qed.

(** ** The cores that are started *)

Lemma cores_to_boot_range MAX maxcpus n : 1 <= MAX → 0 <= maxcpus → 0 < n → 1 <= cores_to_boot MAX maxcpus n <= MAX.
Proof. intros. unfold cores_to_boot. destruct (Z.eqb_spec maxcpus 0); rewrite !Z.gtb_ltb; repeat case_z; lia. Qed.

Lemma on_rounds f n k : 1 <= k < n → on k (rounds f n) = [f].
Proof.
  intros Hk. assert (∀ a m, k < a ∨ a + m <= k → on k ((λ j, (j, f)) <$> seqZ a m) = []) as Hnone.
  { intros a m Ha. unfold on. rewrite filter_none; [done|]. intros x (j&->&Hj)%list_elem_of_fmap. apply elem_of_seqZ in Hj. cbn. lia. }
  unfold rounds. replace (n - 1) with ((k - 1) + (1 + (n - 1 - k))) by lia. rewrite !seqZ_app, !fmap_app, !on_app by lia.
  replace (1 + (k - 1)) with k by lia. rewrite (Hnone 1 (k - 1)), (Hnone (k + 1)) by lia. rewrite app_nil_r. cbn.
  change (on k [(0 + k, f)] = [f]). unfold on. rewrite filter_cons, decide_True by (cbn; lia). done.
Qed.

Lemma booted_room n bsp cpus : 1 <= n → bsp ∈ take (Z.to_nat n) cpus → 1 + Z.of_nat (length (booted n bsp cpus)) <= n.
Proof.
  intros Hn Hin. unfold booted. destruct (Z.geb_spec (Z.of_nat (length cpus)) 2); [|cbn; lia]. rewrite length_fmap.
  set (l := zip _ _). rewrite <- (take_drop (Z.to_nat n) l), filter_app, length_app.
  assert (filter (λ p, p.2 ≠ bsp ∧ p.1 < n) (drop (Z.to_nat n) l) = []) as ->.
  { apply filter_none. intros [i c] [j Hj]%list_elem_of_lookup [_ Hlt]. cbn in Hlt. rewrite lookup_drop in Hj. unfold l in Hj.
    apply lookup_zip_Some in Hj as [Hi _]. apply lookup_seqZ in Hi. lia. }
  cbn [length]. assert (length (filter (λ p : Z * Z, p.2 ≠ bsp ∧ (p.1 < n)%Z) (take (Z.to_nat n) l)) < length (take (Z.to_nat n) l))%nat; [|rewrite length_take in *; lia].
  apply list_elem_of_lookup in Hin as [j Hj]. apply lookup_take_Some in Hj as [Hj Hjn].
  apply (length_filter_lt _ _ (Z.of_nat j, bsp)); [|by intros [? ?]]. apply list_elem_of_lookup. exists j. apply lookup_take_Some. split; [|done].
  unfold l. apply lookup_zip_Some. split; [|done]. apply lookup_seqZ. apply lookup_lt_Some in Hj. lia.
Qed.

(** * What the cores promise *)

(** C34: with the boot core among the first [cores_to_boot] cores that the boot
    loader lists, in every order of steps and whatever is sent: the block of
    every core that is counted is there, no two cores have the same index, the
    array is not overrun, and no core that was started faults, but when the
    function it is about to call was replaced by NULL since it tested it; when
    no sender sends NULL, none faults at all.  ([zalloc] without memory is a
    step of its own, [LNoMem], which faults.) *)
Theorem smp_boot_correct SMP_MAX_CORES maxcpus bsp cpus progs s :
  let n := cores_to_boot SMP_MAX_CORES maxcpus (Z.of_nat (length cpus)) in
  1 <= SMP_MAX_CORES < 2 ^ 32 → 0 <= maxcpus → bsp ∈ take (Z.to_nat n) cpus →
  reachable SMP_MAX_CORES (boot_system bsp (booted n bsp cpus) progs) s →
  (1 <= cpu_online_count s <= n ∧ ∀ k, 0 <= k < cpu_online_count s → is_Some (cpu_blocks s !! k)) ∧
  (∀ i j a b, aps s !! i = Some a → aps s !! j = Some b → counted (pc a) = true → counted (pc b) = true → my_index a = my_index b → i = j) ∧
  ∀ i, (∃ s', step SMP_MAX_CORES (LAp i) s = Ok s') ∨ ¬ Forall never_null progs ∧ ∃ a, aps s !! i = Some a ∧ null_call s a.
Proof.
  intros n HM Hc Hin Hr. assert (1 <= n <= SMP_MAX_CORES) as Hn.
  { apply cores_to_boot_range; [lia|done|]. destruct cpus; [by rewrite take_nil in Hin; apply elem_of_nil in Hin|cbn; lia]. }
  pose proof (booted_room n bsp cpus ltac:(lia) Hin) as Hroom. set (cores := length (booted n bsp cpus)) in *.
  assert (boot_inv cores s) as HB.
  { eapply (boot_inv_reachable SMP_MAX_CORES cores); [lia|by apply boot_inv_start|exact Hr]. }
  split_and!; [pose proof (online_range cores s HB); lia..|apply (bi_blocks _ _ HB)| |].
  - intros i j a b Ha Hb Ca Cb. apply (bi_distinct _ _ HB i j a b Ha Hb); [by destruct (pc a)|by destruct (pc b)].
  - intros i. cbn [step]. destruct (aps s !! i) as [a|] eqn:Ea; [|left; by eexists].
    destruct (boot_inv_ap SMP_MAX_CORES cores ltac:(lia) s i a HB Ea) as [Hnull|(b&s1&->&_)]; [|left; by eexists].
    right. split; [|eauto]. intros Hnn. destruct Hnull as (Ep&c&Hbc&Ef).
    assert (calls_ok s) as [_ Hok].
    { eapply (calls_ok_reachable SMP_MAX_CORES cores); [lia|by apply boot_inv_start| |exact Hr]. by apply calls_ok_start. }
    destruct (Hok i a Ea Ep) as (d&Hd&Hf). congruence.
Qed.

Section OneSender.
Context (SMP_MAX_CORES bsp : Z) (started : list Z) (prog : list op).

(** C35: while the code that sends is one sequence of calls on the boot core, of
    functions that are not NULL, in every order of steps: a core called the
    functions that were sent to it, each once and in their order, but for the
    last one when it waits in the mailbox. *)
Theorem mailbox_one_sender s i a : 1 + Z.of_nat (length started) <= SMP_MAX_CORES < 2 ^ 32 → Forall call_ok prog →
  reachable SMP_MAX_CORES (boot_system bsp started [mkSender 0 prog]) s → aps s !! i = Some a → counted (pc a) = true →
  ∃ c, cpu_blocks s !! my_index a = Some c ∧ on (my_index a) (sent s) = on (my_index a) (log s) ++
    (if mbox_pending c && negb (match pc a with PClear => true | _ => false end) then [mbox_func c] else []).
Proof.
  intros Hroom Hp Hr. apply mail_inv_order.
  eapply (mail_inv_reachable SMP_MAX_CORES (length started)); [lia|by apply boot_inv_start|by apply mail_inv_start|exact Hr].
Qed.

(** C36: A message waits for at most seven steps of the core it was sent to, whatever
    the others do in between; a step of a core that sleeps is its next timer
    interrupt. *)
Theorem mailbox_bounded_wait s s' L i a c : 1 + Z.of_nat (length started) <= SMP_MAX_CORES < 2 ^ 32 → Forall call_ok prog →
  reachable SMP_MAX_CORES (boot_system bsp started [mkSender 0 prog]) s → aps s !! i = Some a → counted (pc a) = true → pc a ≠ PClear →
  cpu_blocks s !! my_index a = Some c → mbox_pending c = true →
  steps SMP_MAX_CORES L s = Ok s' → (7 <= length (filter (λ l, l = LAp i) L))%nat →
  ∃ rest, on (my_index a) (log s') = on (my_index a) (log s) ++ mbox_func c :: rest.
Proof.
  intros Hroom Hp Hr Ha Hcnt Hpc Hc Hpend E HL.
  assert (boot_inv (length started) s ∧ mail_inv s) as [HB HM].
  { eapply (mail_inv_reachable SMP_MAX_CORES (length started)); [lia|by apply boot_inv_start|by apply mail_inv_start|exact Hr]. }
  eapply (waits_called SMP_MAX_CORES (length started)); [lia|exact HB|exact HM| |exact E|exact HL].
  destruct (mi_phase _ HM _ _ Ha) as (d&Hd&[_ Hf]); [by destruct (pc a)|]. assert (d = c) as -> by congruence.
  exists a, c. split_and!; try done; [destruct (pc a); try done; cbn; lia|auto].
Qed.

(** C37: [mailman_send] of the boot core, called in any state of the start, when it
    is the only code that sends and nothing was sent or called before: it never
    faults, and once it is done every core that was counted when it began got
    the function once, calls it once, and the sender called it itself.  Beside
    another sender this fails ([two_senders_lose_message]). *)
Theorem mailman_correct s0 s f d : 1 + Z.of_nat (length started) <= SMP_MAX_CORES < 2 ^ 32 → f ≠ 0 →
  reachable SMP_MAX_CORES (boot_system bsp started [mkSender 0 [OMailman 0 f d]]) s0 → senders s0 = [mkSender 0 [OMailman 0 f d]] → sent s0 = [] → log s0 = [] →
  reachable SMP_MAX_CORES s0 s → (∃ s', step SMP_MAX_CORES (LSend 0) s = Ok s') ∧
    (senders s = [mkSender 0 []] → on 0 (log s) = [f] ∧ ∀ i a, aps s !! i = Some a → counted (pc a) = true → my_index a < cpu_online_count s0 →
      ∃ c, cpu_blocks s !! my_index a = Some c ∧ on (my_index a) (log s) ++
        (if mbox_pending c && negb (match pc a with PClear => true | _ => false end) then [mbox_func c] else []) = [f]).
Proof.
  intros Hroom Hf0 Hr0 Es0 Et0 El0 Hr.
  assert (boot_inv (length started) s0 ∧ mail_inv s0) as [HB0 HM0].
  { eapply (mail_inv_reachable SMP_MAX_CORES (length started)); [lia| | |exact Hr0]; [by apply boot_inv_start|]. by apply mail_inv_start, Forall_singleton. }
  assert (boot_inv (length started) s ∧ mail_inv s) as [HB HM] by (eapply (mail_inv_reachable SMP_MAX_CORES (length started)); [lia|exact HB0|exact HM0|exact Hr]).
  assert (mailman_at (cpu_online_count s0) f s0) as Hat0.
  { exists 0, d. rewrite Es0, Et0, El0. pose proof (online_range _ _ HB0). by split_and!; try done; lia. }
  destruct (mailman_reachable SMP_MAX_CORES (length started) Hroom _ _ _ _ HB0 Hat0 Hr) as [_ Hat].
  split; [destruct (mailman_send_step SMP_MAX_CORES (length started) Hroom _ _ _ HB Hat) as (s'&E&_); eauto|].
  intros Es. destruct Hat as (n&d'&_&_&Hat). rewrite Es in Hat. destruct Hat as (_&Hn&Et&El). split; [done|].
  intros i a Ha Hcnt Hlt. destruct (mail_inv_order s i a HM Ha Hcnt) as (c&Hc&E). exists c. split; [done|]. rewrite <- E.
  pose proof (bi_part _ _ HB _ _ Ha) as Hp. assert (1 <= my_index a) by (destruct (pc a); try done; cbn in Hp; lia).
  rewrite Et. apply on_rounds. lia.
Qed.
End OneSender.

(** * Runs *)

(** A machine with cores of the local APICs 0, 4 and 6, all started; [up] lets the
    i-th core get to its first sleep. *)
Definition demo_cpus : list Z := [0; 4; 6].
Definition demo_boot (progs : list sender) : system := boot_system 0 (booted (cores_to_boot 255 8 3) 0 demo_cpus) progs.
Definition up (i : nat) : list label := replicate 6 (LAp i).

(** A run that did not fault ends in its state. *)
Definition end_of (L : list label) (s : system) : system := match steps 255 L s with Ok s' => s' | _ => s end.

Lemma end_reachable L s : is_ok (steps 255 L s) = true → reachable 255 s (end_of L s).
Proof. unfold end_of. destruct (steps 255 L s) as [s'| | |] eqn:E; try done. intros _. by apply (steps_reachable 255 L). Qed.

Definition demo_two : list sender := [mkSender 0 [OSend 1 100 0]; mkSender 0 [OSend 2 200 0]].

Lemma smp_boot_correct_witness : let s := end_of (up 1 ++ up 0) (demo_boot demo_two) in
  cpu_online_count s = 3 ∧ ∃ s', step 255 (LAp 1) s = Ok s'.
Proof.
  split; [by vm_compute|].
  destruct (smp_boot_correct 255 8 0 demo_cpus demo_two (end_of (up 1 ++ up 0) (demo_boot demo_two))) as (_&_&H);
    [lia|lia|vm_compute; constructor|apply end_reachable; by vm_compute|].
  destruct (H 1%nat) as [Hs|[Hn _]]; [exact Hs|]. destruct Hn. repeat constructor; done.
Defined.

(** The first core that is up has index 1, whatever its place in the list. *)
Definition demo_sent : list label := up 1 ++ up 0 ++ replicate 12 (LSend 0) ++ [LWakeup 1; LAp 1; LAp 1; LAp 1].

Lemma mailbox_one_sender_witness : let s := end_of demo_sent (demo_boot [mkSender 0 [OSend 1 100 7; OSend 2 200 8]]) in
  ∃ c, cpu_blocks s !! 1 = Some c ∧ on 1 (sent s) = on 1 (log s) ++ (if mbox_pending c && true then [mbox_func c] else []).
Proof.
  assert (length (booted (cores_to_boot 255 8 3) 0 demo_cpus) = 2%nat) as Hl by (by vm_compute).
  apply (mailbox_one_sender 255 0 (booted (cores_to_boot 255 8 3) 0 demo_cpus) [OSend 1 100 7; OSend 2 200 8]
    (end_of demo_sent (demo_boot [mkSender 0 [OSend 1 100 7; OSend 2 200 8]])) 1 (mkAp 6 PCall 1 false true));
    [rewrite Hl; lia|repeat constructor; done|apply end_reachable; by vm_compute|by vm_compute|done].
Defined.

Lemma mailbox_bounded_wait_witness :
  let s := end_of (up 1 ++ up 0 ++ replicate 6 (LSend 0)) (demo_boot [mkSender 0 [OSend 1 100 7]]) in
  ∃ rest, on 1 (log (end_of (replicate 7 (LAp 1)) s)) = 100 :: rest.
Proof.
  assert (length (booted (cores_to_boot 255 8 3) 0 demo_cpus) = 2%nat) as Hl by (by vm_compute).
  apply (mailbox_bounded_wait 255 0 (booted (cores_to_boot 255 8 3) 0 demo_cpus) [OSend 1 100 7]
    (end_of (up 1 ++ up 0 ++ replicate 6 (LSend 0)) (demo_boot [mkSender 0 [OSend 1 100 7]])) _ (replicate 7 (LAp 1)) 1 (mkAp 6 PHalt 1 true true)
    (mkCore 1 6 1 CPU_IDLE 100 7 true));
    [rewrite Hl; lia|repeat constructor; done|apply end_reachable; by vm_compute|by vm_compute|done|done|by vm_compute|done|by vm_compute|by apply Nat.leb_le; vm_compute].
Defined.

Lemma mailman_correct_witness :
  let s0 := end_of (up 1 ++ up 0) (demo_boot [mkSender 0 [OMailman 0 100 7]]) in
  let s := end_of (up 1 ++ up 0 ++ replicate 30 (LSend 0)) (demo_boot [mkSender 0 [OMailman 0 100 7]]) in
  on 0 (log s) = [100] ∧ ∃ c, cpu_blocks s !! 2 = Some c ∧ on 2 (log s) ++ (if mbox_pending c && true then [mbox_func c] else []) = [100].
Proof.
  assert (length (booted (cores_to_boot 255 8 3) 0 demo_cpus) = 2%nat) as Hl by (by vm_compute).
  destruct (mailman_correct 255 0 (booted (cores_to_boot 255 8 3) 0 demo_cpus) (end_of (up 1 ++ up 0) (demo_boot [mkSender 0 [OMailman 0 100 7]]))
    (end_of (up 1 ++ up 0 ++ replicate 30 (LSend 0)) (demo_boot [mkSender 0 [OMailman 0 100 7]])) 100 7) as [_ H];
    [rewrite Hl; lia|lia|apply end_reachable; by vm_compute|by vm_compute|by vm_compute|by vm_compute|apply (steps_reachable 255 (replicate 30 (LSend 0))); by vm_compute|].
  destruct H as [H1 H2]; [by vm_compute|]. split; [exact H1|].
  apply (H2 0%nat (mkAp 4 PHalt 2 true true)); [by vm_compute|done|by vm_compute].
Defined.

(** ** Where the code is wrong *)

(** What a run shows: the functions sent and called, and the mailbox of core 1. *)
Definition shown (s : system) : list (Z * Z) * list (Z * Z) * option (bool * Z) :=
  (sent s, log s, (λ c, (mbox_pending c, mbox_func c)) <$> cpu_blocks s !! 1).

(** Two tasks send to the same core: both find the mailbox free, the second
    function replaces the first, which is never called. *)
Example two_senders_lose_message :
  let turns := [LSend 0; LSend 1; LSend 0; LSend 1; LSend 0; LSend 0; LSend 1; LSend 1; LSend 0; LSend 1; LSend 0; LSend 1]%nat in
  shown (end_of (up 0 ++ turns ++ replicate 8 (LAp 0)) (demo_boot [mkSender 0 [OSend 1 100 0]; mkSender 0 [OSend 1 200 0]])) =
  ([(1, 100); (1, 200)], [(1, 200)], Some (false, 200)).
Proof. by vm_compute. Qed.

(** The second sender stores NULL after the core tested the function of the first. *)
Example null_call_faults :
  let turns := [LSend 0; LSend 0; LSend 1; LSend 1; LSend 0; LSend 0; LSend 0; LSend 0]%nat in
  let s := end_of (up 0 ++ turns ++ replicate 4 (LAp 0) ++ [LSend 1]) (demo_boot [mkSender 0 [OSend 1 100 0]; mkSender 0 [OSend 1 0 0]]) in
  (pc <$> aps s !! 0%nat, step 255 (LAp 0) s) = (Some PCall, Fault).
Proof. by vm_compute. Qed.

(** A message that comes between the look at the mailbox and the sleep: its
    interrupt is taken before the core sleeps, and the core sleeps with a full
    mailbox until the next tick of its timer. *)
Example wakeup_lost :
  let s := end_of (up 0 ++ [LAp 0; LAp 0] ++ replicate 6 (LSend 0) ++ [LWakeup 0; LAp 0; LWakeup 0; LWakeup 0])%nat (demo_boot [mkSender 0 [OSend 1 100 0]]) in
  (shown s, (λ a, (pc a, ipi a)) <$> aps s !! 0%nat) = (([(1, 100)], [], Some (true, 100)), Some (PHalt, false)).
Proof. by vm_compute. Qed.

(** The boot core is the last of the list and two blocks are there: both other
    cores are started, and the second overruns the array. *)
Example boot_one_too_many :
  booted (cores_to_boot 2 8 3) 6 demo_cpus = [0; 4] ∧
  steps 2 (up 0 ++ up 1) (boot_system 6 (booted (cores_to_boot 2 8 3) 6 demo_cpus) []) = Fault.
Proof. by vm_compute. Qed.
