(* ===== verification/Pci.v ===== *)
(** PCI (src/pci/pci.c, pci.h): access to the configuration space, the address
    registers of a function, the search for devices and their drivers.  What is
    behind ports and mapped registers is a state that every access may change;
    drivers are functions of it. *)

From S2P Require Import Prelude Mem Acpi.

(** [inl] and [outl] of ports, and accesses of [n] bytes to mapped registers. *)
Class PciBus (D : Type) := {
  outl : Z → Z → D → D;
  inl : Z → D → Z * D;
  mmio_load : nat → Z → D → Z * D;
  mmio_store : nat → Z → Z → D → D
}.

Definition PCI_CONFIG_ADDRESS : Z := 0xCF8.
Definition PCI_CONFIG_DATA : Z := 0xCFC.
Definition PCI_VENDOR_ANY : Z := 0xFFFF.
Definition PCI_DEVICE_ANY : Z := 0xFFFF.
Definition PCI_ID_ANY : Z := 0xFF.
Definition PCI_PROGIF_ANY : Z := 0xFF.
Definition PCI_CAP_ECAM : Z := 1.

(** [pci_driver_status] and its texts. *)
Definition DRIVER_OK : Z := 0.
Definition pci_status_table : list (Z * string) := [
  (DRIVER_OK, "OK"); (1, "Corrupted Firmware Table"); (2, "Host Hardware Failure"); (3, "Card Hardware Failure"); (4, "Card Hardware Stalling");
  (5, "Invalid BAR configuration"); (6, "Out of memory"); (7, "Out of memory (< 4GB)"); (8, "Card not present"); (9, "Unsupported card");
  (10, "Unsupported host")]%string.

Definition pci_driver_status_to_string (status : Z) : string :=
  match list_find (λ p, p.1 = status) pci_status_table with Some (_, (_, message)) => message | None => "Unknown" end.

Record pci_bar_t := mkBar { base : Z; size : Z; is_io : bool }.

(** None in [bars] is an entry that [pci_init] leaves as the heap gave it. *)
Record pci_dev_t := mkDev {
  vendor_id : Z; device_id : Z; class_id : Z; subclass_id : Z; progif : Z; irq : Z;
  bus : Z; slot : Z; func : Z; bars : list (option pci_bar_t); claimed : bool
}.

Definition claim (d : pci_dev_t) : pci_dev_t :=
  mkDev (vendor_id d) (device_id d) (class_id d) (subclass_id d) (progif d) (irq d) (bus d) (slot d) (func d) (bars d) true.

Section Pci.
Context {D : Type} `{PciBus D}.
(** The tables of the firmware, and what is kept of them. *)
Variables (m : memory) (hhdm_offset : Z) (acpi : acpi_state).

(** A driver: what it is for, and its code, None when there is none. *)
Record pci_driver_entry_t := mkDriver {
  d_vendor_id : Z; d_device_id : Z; d_class_id : Z; d_subclass_id : Z; d_progif : Z;
  group_id : Z; required_capabilities : Z; name : string; init : option (pci_dev_t → D → Z * D)
}.

(** The drivers of the kernel (src/pci/dtable.c); the code of each is there when
    it is built in. *)
Definition pci_discovery_table (cxl ivshmem ac97 e1000 rtl8139 ahci ide : option (pci_dev_t → D → Z * D)) : list pci_driver_entry_t := [
  mkDriver PCI_VENDOR_ANY PCI_DEVICE_ANY 0x06 0x00 PCI_PROGIF_ANY 0 0 "Host Bridge" None;
  mkDriver PCI_VENDOR_ANY PCI_DEVICE_ANY 0x0C 0x03 0x30 3 0 "xHCI USB Controller" None;
  mkDriver PCI_VENDOR_ANY PCI_DEVICE_ANY 0x0C 0x03 0x20 3 0 "EHCI USB Controller" None;
  mkDriver PCI_VENDOR_ANY PCI_DEVICE_ANY 0x05 0x02 PCI_PROGIF_ANY 0 PCI_CAP_ECAM "Compute Express Link Memory" cxl;
  mkDriver PCI_VENDOR_ANY PCI_DEVICE_ANY 0x12 0x00 PCI_PROGIF_ANY 0 PCI_CAP_ECAM "Compute Express Link Accelerator" cxl;
  mkDriver 0x1AF4 0x1110 0x05 0x00 PCI_PROGIF_ANY 0 0 "IVSHMEM" ivshmem;
  mkDriver PCI_VENDOR_ANY PCI_DEVICE_ANY 0x04 0x01 PCI_PROGIF_ANY 1 0 "AC'97 Audio Controller" ac97;
  mkDriver 0x8086 0x100E 0x02 0x00 PCI_PROGIF_ANY 2 0 "Intel E1000 Ethernet Controller" e1000;
  mkDriver 0x10EC 0x8139 0x02 0x00 PCI_PROGIF_ANY 2 0 "RTL8139 Ethernet Controller" rtl8139;
  mkDriver PCI_VENDOR_ANY PCI_DEVICE_ANY 0x01 0x06 PCI_PROGIF_ANY 0 0 "Generic SATA Controller" ahci;
  mkDriver PCI_VENDOR_ANY PCI_DEVICE_ANY 0x01 0x01 PCI_PROGIF_ANY 0 0 "Generic IDE Controller" ide].

(** * Configuration space *)

Definition config_address (bus slot func offset : Z) : Z :=
  u32 (Z.lor (Z.lor (Z.lor (Z.lor (Z.shiftl bus 16) (Z.shiftl slot 11)) (Z.shiftl func 8)) (Z.land offset 0xfc)) 0x80000000).

(** The address of the registers of a function, NULL when only ports reach it. *)
Definition ecam (bus slot func : Z) : result Z := mcfg_get_device_addr m hhdm_offset acpi 0 (u8 bus) (u8 slot) (u8 func).

Definition pci_read (bus slot func offset : Z) (d : D) : result (Z * D) :=
  addr ← ecam bus slot func;
  mret (if negb (addr =? NULL) then mmio_load 4 (u64 (addr + Z.land offset 0xfff)) d
        else inl PCI_CONFIG_DATA (outl PCI_CONFIG_ADDRESS (config_address bus slot func offset) d)).

Definition pci_write (bus slot func offset data : Z) (d : D) : result D :=
  addr ← ecam bus slot func;
  mret (if negb (addr =? NULL) then mmio_store 4 (u64 (addr + Z.land offset 0xfff)) data d
        else outl PCI_CONFIG_DATA data (outl PCI_CONFIG_ADDRESS (config_address bus slot func offset) d)).

Definition pci_read_byte (bus slot func offset : Z) (d : D) : result (Z * D) :=
  addr ← ecam bus slot func;
  mret (if negb (addr =? NULL) then mmio_load 1 (u64 (addr + Z.land offset 0xfff)) d
        else
          let '(v, d) := inl PCI_CONFIG_DATA (outl PCI_CONFIG_ADDRESS (config_address bus slot func offset) d) in
          (Z.land (Z.shiftr v (Z.land offset 3 * 8)) 0xFF, d)).

(** The register without the byte, and with the new one. *)
Definition put_byte (tmp offset data : Z) : Z :=
  let s := Z.land offset 3 * 8 in Z.lor (Z.land tmp (2 ^ 32 - 1 - u32 (Z.shiftl 0xFF s))) (Z.shiftl data s).

(** The shift of 0xFF by 24 leaves the range of an int. *)
Definition pci_write_byte (bus slot func offset data : Z) (d : D) : result D :=
  addr ← ecam bus slot func;
  if negb (addr =? NULL) then mret (mmio_store 1 (u64 (addr + Z.land offset 0xfff)) data d)
  else
    let '(tmp, d) := inl PCI_CONFIG_DATA (outl PCI_CONFIG_ADDRESS (config_address bus slot func offset) d) in
    if Z.land offset 3 =? 3 then Fault else mret (outl PCI_CONFIG_DATA (put_byte tmp offset data) d).

(** * Address registers *)

(** Clear the low bits, [x & ~mask] on a uint32_t. *)
Definition clear (mask x : Z) : Z := Z.land x (2 ^ 32 - 1 - mask).

Definition no_bar : pci_bar_t := mkBar 0 0 false.

Definition pci_get_bar (bus slot func bar_index : Z) (d : D) : result (pci_bar_t * D) :=
  let offset := 0x10 + bar_index * 4 in
  '(low, d) ← pci_read bus slot func offset d;
  if low =? 0 then mret (no_bar, d)
  else
    let io := negb (Z.land low 0x1 =? 0) in
    d ← pci_write bus slot func offset 0xFFFFFFFF d;
    '(readback, d) ← pci_read bus slot func offset d;
    d ← pci_write bus slot func offset low d;
    if io then mret (mkBar (clear 0x3 low) (u32 (2 ^ 32 - 1 - clear 0x3 readback + 1)) true, d)
    else if Z.land low 0x6 =? 0x4 then
      '(high, d) ← pci_read bus slot func (offset + 4) d;
      d ← pci_write bus slot func (offset + 4) 0xFFFFFFFF d;
      '(readback_high, d) ← pci_read bus slot func (offset + 4) d;
      d ← pci_write bus slot func (offset + 4) high d;
      let combined_readback := Z.lor (Z.shiftl readback_high 32) (clear 0xF readback) in
      mret (mkBar (Z.lor (clear 0xF low) (Z.shiftl high 32)) (u64 (not64 combined_readback + 1)) false, d)
    else mret (mkBar (clear 0xF low) (u32 (2 ^ 32 - 1 - clear 0xF readback + 1)) false, d).

Definition pci_enable_capabilities (bus slot func : Z) (d : D) : result D :=
  '(cmd, d) ← pci_read bus slot func 0x04 d;
  pci_write bus slot func 0x04 (clear (2 ^ 10) (Z.lor cmd 0x07)) d.

(** * The search for devices *)

(** The loop over the six address registers from [b] on; a 64-bit one skips the
    next. *)
Fixpoint bars_loop (n : nat) (bus slot func b : Z) (l : list (option pci_bar_t)) (d : D) : result (list (option pci_bar_t) * D) :=
  match n with
  | O => mret (l, d)
  | S n =>
      if b <? 6 then
        '(bar, d) ← pci_get_bar bus slot func b d;
        '(raw, d) ← pci_read bus slot func (0x10 + b * 4) d;
        let wide := (Z.land raw 0x1 =? 0) && (Z.land raw 0x6 =? 0x4) in
        bars_loop n bus slot func (if wide then b + 2 else b + 1) (<[Z.to_nat b := Some bar]> l) d
      else mret (l, d)
  end.

(** What [pci_init] keeps of a function whose first register holds [id_reg]. *)
Definition describe (bus slot func id_reg : Z) (d : D) : result (pci_dev_t * D) :=
  '(class_reg, d) ← pci_read bus slot func 0x08 d;
  '(line, d) ← pci_read bus slot func 0x3C d;
  '(l, d) ← bars_loop 6 bus slot func 0 (replicate 6 None) d;
  mret (mkDev (Z.land id_reg 0xFFFF) (Z.shiftr id_reg 16) (Z.land (Z.shiftr class_reg 24) 0xFF) (Z.land (Z.shiftr class_reg 16) 0xFF)
    (Z.land (Z.shiftr class_reg 8) 0xFF) (Z.land line 0xFF) (u8 bus) slot func l false, d).

(** [discovered] with its capacity: it is doubled when it is full, and a store
    behind it faults. *)
Record cache := mkCache { capacity : Z; discovered : list pci_dev_t }.

Definition cache_add (x : pci_dev_t) (c : cache) : result cache :=
  let count := Z.of_nat (length (discovered c)) in
  let cap := if count >=? capacity c then i32 (capacity c * 2) else capacity c in
  if count <? cap then mret (mkCache cap (discovered c ++ [x])) else Fault.

Definition sweep_func (bus slot func : Z) (s : cache * D) : result (cache * D) :=
  let '(c, d) := s in
  '(id_reg, d) ← pci_read bus slot func 0x00 d;
  if Z.land id_reg 0xFFFF =? 0xFFFF then mret (c, d)
  else
    '(x, d) ← describe bus slot func id_reg d;
    c ← cache_add x c;
    mret (c, d).

Definition sweep_slot (bus slot : Z) (s : cache * D) : result (cache * D) :=
  let '(c, d) := s in
  '(id_reg, d) ← pci_read bus slot 0 0x00 d;
  if Z.land id_reg 0xFFFF =? 0xFFFF then mret (c, d)
  else
    '(header, d) ← pci_read bus slot 0 0x0C d;
    let header_type := Z.land (Z.shiftr header 16) 0xFF in
    for_range (if negb (Z.land header_type 0x80 =? 0) then 8 else 1) (λ func, sweep_func bus slot func) (c, d).

Definition sweep (d : D) : result (cache * D) :=
  for_range 256 (λ bus, for_range 32 (λ slot, sweep_slot bus slot)) (mkCache 20 [], d).

(** * Drivers *)

Definition pci_check_driver_capabilities (required_caps : Z) : bool :=
  negb (negb (Z.land required_caps PCI_CAP_ECAM =? 0) && negb (mcfg_is_initialized acpi)).

Definition driver_matches (e : pci_driver_entry_t) (x : pci_dev_t) : bool :=
  ((d_vendor_id e =? PCI_VENDOR_ANY) || (d_vendor_id e =? vendor_id x)) &&
  ((d_device_id e =? PCI_DEVICE_ANY) || (d_device_id e =? device_id x)) &&
  ((d_class_id e =? PCI_ID_ANY) ||
    (class_id x =? d_class_id e) && ((d_subclass_id e =? PCI_ID_ANY) || (subclass_id x =? d_subclass_id e))) &&
  ((d_progif e =? PCI_PROGIF_ANY) || (progif x =? d_progif e)).

(** [1 << group_id] of an int. *)
Definition group_bit (g : Z) : result Z := if g <? 31 then mret (Z.shiftl 1 g) else Fault.

(** The calls of the code of drivers, with the device and the status, in their
    order; the code only logs them. *)
Record call := mkCall { driver : pci_driver_entry_t; called_with : pci_dev_t; status : Z }.

(** The loop of a driver over the devices: those in front of the loop, those to
    come, the groups that are taken, and the calls. *)
Fixpoint match_devices (e : pci_driver_entry_t) (before devs : list pci_dev_t) (groups : Z) (calls : list call) (d : D) :
    result (list pci_dev_t * Z * list call * D) :=
  match devs with
  | [] => mret (before, groups, calls, d)
  | x :: devs =>
      if claimed x || negb (driver_matches e x) then match_devices e (before ++ [x]) devs groups calls d
      else
        let x := claim x in
        if negb (pci_check_driver_capabilities (required_capabilities e)) then match_devices e (before ++ [x]) devs groups calls d
        else
          groups ← (if negb (group_id e =? 0) then b ← group_bit (group_id e); mret (Z.lor groups b) else mret groups);
          '(calls, d) ← (match init e with
            | Some f =>
                d ← pci_enable_capabilities (bus x) (slot x) (func x) d;
                let '(status, d) := f x d in mret (calls ++ [mkCall e x status], d)
            | None => mret (calls, d)
            end);
          if negb (group_id e =? 0) then mret (before ++ x :: devs, groups, calls, d)
          else match_devices e (before ++ [x]) devs groups calls d
  end.

Fixpoint match_table (table : list pci_driver_entry_t) (devs : list pci_dev_t) (groups : Z) (calls : list call) (d : D) :
    result (list pci_dev_t * Z * list call * D) :=
  match table with
  | [] => mret (devs, groups, calls, d)
  | e :: table =>
      taken ← (if negb (group_id e =? 0) then b ← group_bit (group_id e); mret (negb (Z.land groups b =? 0)) else mret false);
      '(devs, groups, calls, d) ← (if (taken : bool) then mret (devs, groups, calls, d) else match_devices e [] devs groups calls d);
      match_table table devs groups calls d
  end.

(** The devices at the end, the calls and the hardware. *)
Definition pci_init (pci_discovery_table : list pci_driver_entry_t) (d : D) : result (list pci_dev_t * list call * D) :=
  '(c, d) ← sweep d;
  '(devs, _, calls, d) ← match_table pci_discovery_table (discovered c) 0 [] d;
  mret (devs, calls, d).

End Pci.
