(* ===== verification/PciSpec.v ===== *)
(** What the PCI code promises: both ways into the configuration space reach the
    same registers, address registers are sized and left as they were, the search
    finds every function, and drivers get their devices. *)

From S2P Require Import Prelude Mem Bytes Acpi Pci.

(** * Configuration space *)

Definition location : Type := Z * Z * Z.
Definition in_range (x : location) : Prop := 0 <= x.1.1 < 256 ∧ 0 <= x.1.2 < 32 ∧ 0 <= x.2 < 8.

(** The hardware as the PCI specification has it: every function has registers of
    32 bits.  Reading one changes none; a write gives the register what the
    hardware makes of the value and leaves the others alone. *)
Class PciSpace (D : Type) := {
  config : D → location → Z → Z;
  written : location → Z → Z → Z → Z
}.

Section Laws.
Context {D : Type} `{PciBus D, PciSpace D}.

(** States with the same registers. *)
Definition same (d d' : D) : Prop := ∀ x off, config d x off = config d' x off.

#[global] Instance same_equivalence : Equivalence same.
Proof. split; [done|intros ????; symmetry; auto|intros d e f H1 H2 x off; by rewrite H1]. Qed.

#[global] Instance config_proper : Proper (same ==> eq ==> eq ==> eq) config.
Proof. intros d e H1 x y <- o p <-. apply H1. Qed.

(** [d'] is [d] after a write of [v] to a register. *)
Definition after_write (d : D) (x : location) (off v : Z) (d' : D) : Prop :=
  config d' x off = written x off (config d x off) v ∧ ∀ y o, (y, o) ≠ (x, off) → config d' y o = config d y o.

#[global] Instance after_write_proper : Proper (same ==> eq ==> eq ==> eq ==> same ==> iff) after_write.
Proof.
  intros d e H1 x ? <- o ? <- v ? <- d' e' H2. unfold after_write.
  split; intros [E Ho]; (split; [|intros y p Hne]); [rewrite <- H2, E; by rewrite H1|rewrite <- H2, Ho by done; apply H1|rewrite H2, E; by rewrite H1|rewrite H2, Ho by done; symmetry; apply H1].
Qed.
End Laws.

Definition register (off : Z) : Prop := 0 <= off < 256 ∧ off mod 4 = 0.

(** The address that mechanism 1 of the specification gives a register. *)
Definition mechanism1 (x : location) (off : Z) : Z := 2 ^ 31 + x.1.1 * 2 ^ 16 + x.1.2 * 2 ^ 11 + x.2 * 2 ^ 8 + off.

Class PciLaws (D : Type) `{PciBus D, PciSpace D} (m : memory) (hhdm_offset : Z) (acpi : acpi_state) := {
  config_range (d : D) x off : 0 <= config d x off < 2 ^ 32;
  port_read (d : D) x off : in_range x → register off →
    (inl PCI_CONFIG_DATA (outl PCI_CONFIG_ADDRESS (mechanism1 x off) d)).1 = config d x off ∧
    same d (inl PCI_CONFIG_DATA (outl PCI_CONFIG_ADDRESS (mechanism1 x off) d)).2;
  port_write (d : D) x off v : in_range x → register off → 0 <= v < 2 ^ 32 →
    after_write d x off v (outl PCI_CONFIG_DATA v (outl PCI_CONFIG_ADDRESS (mechanism1 x off) d));
  (* the table of the firmware can be read, and the registers are where it says *)
  ecam_total x : in_range x → ∃ a, ecam m hhdm_offset acpi x.1.1 x.1.2 x.2 = Ok a;
  mapped_read (d : D) x off a : in_range x → register off → ecam m hhdm_offset acpi x.1.1 x.1.2 x.2 = Ok a → a ≠ NULL →
    (mmio_load 4 (u64 (a + off)) d).1 = config d x off ∧ same d (mmio_load 4 (u64 (a + off)) d).2;
  mapped_write (d : D) x off v a : in_range x → register off → 0 <= v < 2 ^ 32 → ecam m hhdm_offset acpi x.1.1 x.1.2 x.2 = Ok a → a ≠ NULL →
    after_write d x off v (mmio_store 4 (u64 (a + off)) v d)
}.

Lemma lor_disjoint a b n : 0 <= n → 0 <= b < 2 ^ n → (2 ^ n | a) → Z.lor a b = a + b.
Proof.
  intros Hn Hb [q ->]. rewrite <- Z.add_lor_land. assert (Z.land (q * 2 ^ n) b = 0) as ->; [|lia].
  apply Z.bits_inj'. intros i Hi. rewrite Z.land_spec, Z.bits_0. destruct (decide (i < n)).
  - by rewrite Z.mul_pow2_bits_low.
  - by rewrite (testbit_high n b), andb_false_r by lia.
Qed.

Lemma config_address_ok x off : in_range x → register off → config_address x.1.1 x.1.2 x.2 off = mechanism1 x off.
Proof.
  destruct x as [[b s] f]. intros (Hb&Hs&Hf) [Ho Hm]. cbn in *. unfold config_address, mechanism1. cbn [fst snd].
  assert (Z.land off 0xfc = off) as ->.
  { change 0xfc with (Z.land (not64 (2 ^ 2 - 1)) 0xff). rewrite Z.land_assoc, land_mask by lia. change 0xff with (Z.ones 8). rewrite Z.land_ones by lia.
    Z.div_mod_to_equations; lia. }
  rewrite !Z.shiftl_mul_pow2 by lia. rewrite (lor_disjoint _ (s * 2 ^ 11) 16), (lor_disjoint _ (f * 2 ^ 8) 11), (lor_disjoint _ off 8) by (lia || (exists (b * 32 + s); lia) || (exists (b * 256 + s * 8 + f); lia) || (exists b; lia)).
  rewrite Z.lor_comm. change 0x80000000 with (2 ^ 31). rewrite (lor_disjoint (2 ^ 31) _ 31), u32_id by (lia || by exists 1). lia.
Qed.

Lemma land_small_mask j x c : 0 <= j → 0 <= c < 2 ^ j → Z.land x c = Z.land (x mod 2 ^ j) c.
Proof. intros Hj Hc. rewrite <- (Z.mod_small c (2 ^ j)) at 1 by done. rewrite <- !Z.land_ones by lia. by rewrite (Z.land_comm c), Z.land_assoc. Qed.

Lemma clear_ok j x : 0 <= j <= 32 → 0 <= x < 2 ^ 32 → clear (2 ^ j - 1) x = 2 ^ j * (x / 2 ^ j).
Proof.
  intros Hj Hx. rewrite <- (land_mask x j) by lia. unfold clear. assert (0 < 2 ^ j <= 2 ^ 32) by (split; [apply Z.pow_pos_nonneg; lia|apply Z.pow_le_mono_r; lia]).
  assert (2 ^ 32 - 1 - (2 ^ j - 1) = Z.land (Z.ones 32) (not64 (2 ^ j - 1))) as ->.
  { rewrite Z.land_comm, Z.land_ones by lia. unfold not64. apply (Z.mod_unique _ _ (2 ^ 32 - 1)); lia. }
  by rewrite Z.land_assoc, Z.land_ones, (Z.mod_small x) by lia.
Qed.

(** What a register that decodes from bit [k] on holds after all ones. *)
Lemma ones_decoded k : 0 <= k <= 32 → 2 ^ k * (0xFFFFFFFF / 2 ^ k) = 2 ^ 32 - 2 ^ k.
Proof.
  intros Hk. assert (0 < 2 ^ k) by (apply Z.pow_pos_nonneg; lia). assert (2 ^ 32 = 2 ^ k * 2 ^ (32 - k)) as E by (rewrite <- Z.pow_add_r by lia; f_equal; lia).
  assert (0 < 2 ^ (32 - k)) by (apply Z.pow_pos_nonneg; lia).
  assert (0xFFFFFFFF / 2 ^ k = 2 ^ (32 - k) - 1) as ->; [|lia]. symmetry. apply (Z.div_unique _ _ _ (2 ^ k - 1)); lia.
Qed.

Lemma div_flags k q fl : 0 <= k → 0 <= fl < 2 ^ k → (2 ^ k * q + fl) / 2 ^ k = q.
Proof. intros Hk Hf. symmetry. apply (Z.div_unique _ _ _ fl); lia. Qed.

Lemma mod_flags j k q fl : 0 <= j <= k → 0 <= fl < 2 ^ j → (2 ^ k * q + fl) mod 2 ^ j = fl.
Proof.
  intros Hj Hf. replace (2 ^ k) with (2 ^ (k - j) * 2 ^ j) by (rewrite <- Z.pow_add_r by lia; f_equal; lia).
  replace (2 ^ (k - j) * 2 ^ j * q + fl) with (fl + (2 ^ (k - j) * q) * 2 ^ j) by lia. rewrite Z.mod_add by lia. apply Z.mod_small. lia.
Qed.

Lemma length_flat_map_le {A B} (g : A → list B) n l : (∀ x, (length (g x) <= n)%nat) → (length (flat_map g l) <= n * length l)%nat.
Proof. intros Hg. induction l as [|x l IH]; [cbn; lia|]. cbn [flat_map length]. rewrite length_app. specialize (Hg x). lia. Qed.

Lemma flat_map_seqZ_next {B} (g : Z → list B) i : 0 <= i → flat_map g (seqZ 0 (i + 1)) = flat_map g (seqZ 0 i) ++ g i.
Proof. intros Hi. rewrite seqZ_app by lia. rewrite flat_map_app, Z.add_0_l. f_equal. rewrite seqZ_cons by lia. cbn [flat_map]. change (seqZ (Z.succ i) (Z.pred 1)) with (@nil Z). apply app_nil_r. Qed.

Section Space.
Context {D : Type} (m : memory) (hhdm_offset : Z) (acpi : acpi_state).
Context `{PciLaws D m hhdm_offset acpi}.
Implicit Types d : D.
#[local] Abbreviation pci_read x off := (pci_read m hhdm_offset acpi x.1.1 x.1.2 x.2 off).
#[local] Abbreviation pci_write x off v := (pci_write m hhdm_offset acpi x.1.1 x.1.2 x.2 off v).

Lemma land_offset off : register off → Z.land off 0xfff = off.
Proof. intros [Ho _]. change 0xfff with (Z.ones 12). rewrite Z.land_ones, Z.mod_small; lia. Qed.

(** Whatever way a register is reached. *)
Lemma pci_read_ok x off d : in_range x → register off → ∃ d', pci_read x off d = Ok (config d x off, d') ∧ same d d'.
Proof.
  intros Hx Ho. unfold Pci.pci_read. destruct (ecam_total (D := D) x Hx) as [a Ea]. rewrite Ea. cbn [mbind result_bind]. rewrite land_offset, config_address_ok by done.
  destruct (Z.eqb_spec a NULL) as [Hn|Hn]; cbn [negb].
  - destruct (port_read (m := m) (hhdm_offset := hhdm_offset) (acpi := acpi) d x off Hx Ho) as [E Hs]. destruct (inl _ _) as [v d']. cbn in *. subst v. eauto.
  - destruct (mapped_read d x off a Hx Ho Ea Hn) as [E Hs]. destruct (mmio_load _ _ _) as [v d']. cbn in *. subst v. eauto.
Qed.

Lemma pci_write_ok x off v d : in_range x → register off → 0 <= v < 2 ^ 32 → ∃ d', pci_write x off v d = Ok d' ∧ after_write d x off v d'.
Proof.
  intros Hx Ho Hv. unfold Pci.pci_write. destruct (ecam_total (D := D) x Hx) as [a Ea]. rewrite Ea. cbn [mbind result_bind]. rewrite land_offset, config_address_ok by done.
  destruct (Z.eqb_spec a NULL) as [Hn|Hn]; cbn [negb]; eexists; (split; [reflexivity|]).
  - by apply (port_write (m := m) (hhdm_offset := hhdm_offset) (acpi := acpi)).
  - by apply mapped_write.
Qed.

(** ** One register *)

(** The sizing of a register: all ones are written and read back, and what was
    there is written again. *)
Lemma probe_ok x off d low : in_range x → register off → config d x off = low → written x off (written x off low 0xFFFFFFFF) low = low →
  ∃ d1 d2 d3, pci_write x off 0xFFFFFFFF d = Ok d1 ∧ pci_read x off d1 = Ok (written x off low 0xFFFFFFFF, d2) ∧
    pci_write x off low d2 = Ok d3 ∧ same d d3.
Proof.
  intros Hx Ho Hlow Hback. destruct (pci_write_ok x off 0xFFFFFFFF d Hx Ho ltac:(lia)) as (d1&E1&W1a&W1b).
  destruct (pci_read_ok x off d1 Hx Ho) as (d2&E2&S2). rewrite W1a, Hlow in E2.
  destruct (pci_write_ok x off low d2 Hx Ho) as (d3&E3&W3a&W3b); [rewrite <- Hlow; apply config_range|]. exists d1, d2, d3. split_and!; [done..|].
  intros y p. destruct (decide ((y, p) = (x, off))) as [[= -> ->]|Hne].
  - by rewrite W3a, <- (S2 x off), W1a, Hlow, Hback.
  - by rewrite W3b, <- (S2 y p), W1b by done.
Qed.

(** ** Address registers *)

(** What a function has at the b-th address register: nothing, or a range of
    [2 ^ k] addresses that start at [q] times as many; [fl] are the low bits.
    A register of ports may decode 16 bits only. *)
Inductive bar_kind := NoBar | IoBar (k q : Z) | ShortIoBar (k q : Z) | MemBar (k q fl : Z) | WideBar (k q fl : Z).

(** A register that decodes the bits from [k] on and holds [fl] below. *)
Definition decodes (x : location) (off k fl : Z) : Prop :=
  ∀ old new, 0 <= new < 2 ^ 32 → written x off old new = 2 ^ k * (new / 2 ^ k) + fl.

(** A register of ports that decodes the bits from [k] to 15. *)
Definition decodes_low (x : location) (off k : Z) : Prop :=
  ∀ old new, 0 <= new < 2 ^ 32 → written x off old new = 2 ^ k * (new mod 2 ^ 16 / 2 ^ k) + 1.

Definition bar_is (d : D) (x : location) (b : Z) (bk : bar_kind) : Prop :=
  let off := 0x10 + b * 4 in
  match bk with
  | NoBar => config d x off = 0
  | IoBar k q => 2 <= k < 32 ∧ config d x off = 2 ^ k * q + 1 ∧ decodes x off k 1
  | ShortIoBar k q => 2 <= k < 16 ∧ config d x off = 2 ^ k * q + 1 ∧ 2 ^ k * q + 1 < 2 ^ 16 ∧ decodes_low x off k
  | MemBar k q fl => 4 <= k < 32 ∧ fl ∈ [0; 2; 8; 10] ∧ config d x off = 2 ^ k * q + fl ∧ config d x off ≠ 0 ∧ decodes x off k fl
  | WideBar k q fl => 4 <= k < 64 ∧ fl ∈ [4; 12] ∧ b < 5 ∧
      config d x off = (2 ^ k * q) mod 2 ^ 32 + fl ∧ config d x (off + 4) = 2 ^ k * q / 2 ^ 32 ∧
      decodes x off (Z.min k 32) fl ∧ decodes x (off + 4) (Z.max 0 (k - 32)) 0
  end.

(** What is found of it: of a register that decodes 16 bits a size with the upper
    half set, which is not its size. *)
Definition bar_found (bk : bar_kind) : pci_bar_t :=
  match bk with
  | NoBar => no_bar
  | IoBar k q => mkBar (2 ^ k * q) (2 ^ k) true
  | ShortIoBar k q => mkBar (2 ^ k * q) (2 ^ 32 - 2 ^ 16 + 2 ^ k) true
  | MemBar k q _ | WideBar k q _ => mkBar (2 ^ k * q) (2 ^ k) false
  end.

(** The size that the readback of a register of up to 32 bits gives. *)
Lemma size_32 j k fl : 0 <= j <= k → k < 32 → 0 <= fl < 2 ^ j →
  u32 (2 ^ 32 - 1 - clear (2 ^ j - 1) (2 ^ k * (0xFFFFFFFF / 2 ^ k) + fl) + 1) = 2 ^ k.
Proof.
  intros Hj Hk Hf. assert (0 < 2 ^ j <= 2 ^ k) by (split; [apply Z.pow_pos_nonneg; lia|apply Z.pow_le_mono_r; lia]).
  assert (2 ^ k < 2 ^ 32) by (apply Z.pow_lt_mono_r; lia).
  rewrite ones_decoded by lia. rewrite clear_ok by lia.
  replace (2 ^ 32 - 2 ^ k) with (2 ^ j * (2 ^ (32 - j) - 2 ^ (k - j))) by (rewrite Z.mul_sub_distr_l, <- !Z.pow_add_r by lia; f_equal; f_equal; lia).
  rewrite div_flags by lia. rewrite Z.mul_sub_distr_l, <- !Z.pow_add_r by lia. replace (j + (32 - j)) with 32 by lia. replace (j + (k - j)) with k by lia.
  rewrite u32_id; lia.
Qed.

Lemma clear_flags j k q fl : 0 <= j <= k → k <= 32 → 0 <= fl < 2 ^ j → 0 <= 2 ^ k * q + fl < 2 ^ 32 → clear (2 ^ j - 1) (2 ^ k * q + fl) = 2 ^ k * q.
Proof.
  intros Hj Hk Hf Hr. rewrite clear_ok by lia. replace (2 ^ k * q) with (2 ^ j * (2 ^ (k - j) * q)).
  - by rewrite div_flags by lia.
  - rewrite Z.mul_assoc, <- Z.pow_add_r by lia. do 2 f_equal. lia.
Qed.

#[local] Abbreviation pci_get_bar x b := (pci_get_bar m hhdm_offset acpi x.1.1 x.1.2 x.2 b).

Lemma get_io_bar x b k q d : in_range x → 0 <= b < 6 → bar_is d x b (IoBar k q) →
  ∃ d', pci_get_bar x b d = Ok (mkBar (2 ^ k * q) (2 ^ k) true, d') ∧ same d d'.
Proof.
  intros Hx Hb (Hk&Hc&Hdec). set (off := 0x10 + b * 4) in *. assert (register off) as Ho by (unfold register, off; split; [lia|Z.div_mod_to_equations; lia]).
  pose proof (config_range (m := m) (hhdm_offset := hhdm_offset) (acpi := acpi) d x off) as Hr. rewrite Hc in Hr. assert (2 ^ 2 <= 2 ^ k) by (apply Z.pow_le_mono_r; lia).
  destruct (pci_read_ok x off d Hx Ho) as (d1&E1&S1). assert (config d1 x off = 2 ^ k * q + 1) as Hc1 by (by rewrite <- (S1 x off)).
  destruct (probe_ok x off d1 _ Hx Ho Hc1) as (d2&d3&d4&E2&E3&E4&S4).
  { rewrite Hdec, div_flags by (rewrite ?Hdec; lia). done. }
  exists d4. split; [|by rewrite S1]. unfold Pci.pci_get_bar. fold off. rewrite E1. cbn [mbind result_bind]. rewrite Hc.
  rewrite (land_small_mask 2 _ 0x1), mod_flags by lia. change (Z.land 1 1) with 1. rewrite (proj2 (Z.eqb_neq (2 ^ k * q + 1) 0)).
  2:{ intros E. assert ((2 ^ k * q + 1) mod 2 ^ 2 = 1) by (apply mod_flags; lia). rewrite E in *. done. }
  cbn [Z.eqb negb]. rewrite E2. cbn [mbind result_bind]. rewrite E3. cbn [mbind result_bind]. rewrite E4. cbn [mbind result_bind].
  change 0x3 with (2 ^ 2 - 1). rewrite clear_flags, Hdec, size_32 by lia. done.
Qed.

Lemma short_mask k : 0 <= k < 16 → 2 ^ k * (0xFFFFFFFF mod 2 ^ 16 / 2 ^ k) = 2 ^ 16 - 2 ^ k.
Proof.
  intros Hk. assert (0 < 2 ^ k) by (apply Z.pow_pos_nonneg; lia).
  assert (2 ^ 16 = 2 ^ k * 2 ^ (16 - k)) as E by (rewrite <- Z.pow_add_r by lia; f_equal; lia).
  change (0xFFFFFFFF mod 2 ^ 16) with (2 ^ 16 - 1).
  assert ((2 ^ 16 - 1) / 2 ^ k = 2 ^ (16 - k) - 1) as ->; [|lia]. symmetry. apply (Z.div_unique _ _ _ (2 ^ k - 1)); lia.
Qed.

Lemma get_short_bar x b k q d : in_range x → 0 <= b < 6 → bar_is d x b (ShortIoBar k q) →
  ∃ d', pci_get_bar x b d = Ok (mkBar (2 ^ k * q) (2 ^ 32 - 2 ^ 16 + 2 ^ k) true, d') ∧ same d d'.
Proof.
  intros Hx Hb (Hk&Hc&Hlt&Hdec). set (off := 0x10 + b * 4) in *. assert (register off) as Ho by (unfold register, off; split; [lia|Z.div_mod_to_equations; lia]).
  pose proof (config_range (m := m) (hhdm_offset := hhdm_offset) (acpi := acpi) d x off) as Hr. rewrite Hc in Hr.
  assert (2 ^ 2 <= 2 ^ k) by (apply Z.pow_le_mono_r; lia). assert (2 ^ k < 2 ^ 16) by (apply Z.pow_lt_mono_r; lia).
  destruct (pci_read_ok x off d Hx Ho) as (d1&E1&S1). assert (config d1 x off = 2 ^ k * q + 1) as Hc1 by (by rewrite <- (S1 x off)).
  destruct (probe_ok x off d1 _ Hx Ho Hc1) as (d2&d3&d4&E2&E3&E4&S4).
  { rewrite (Hdec _ (2 ^ k * q + 1)), Z.mod_small, div_flags by nia. done. }
  exists d4. split; [|by rewrite S1]. unfold Pci.pci_get_bar. fold off. rewrite E1. cbn [mbind result_bind]. rewrite Hc.
  rewrite (land_small_mask 2 _ 0x1), mod_flags by lia. change (Z.land 1 1) with 1. rewrite (proj2 (Z.eqb_neq (2 ^ k * q + 1) 0)).
  2:{ intros E. assert ((2 ^ k * q + 1) mod 2 ^ 2 = 1) by (apply mod_flags; lia). rewrite E in *. done. }
  cbn [Z.eqb negb]. rewrite E2. cbn [mbind result_bind]. rewrite E3. cbn [mbind result_bind]. rewrite E4. cbn [mbind result_bind].
  change 0x3 with (2 ^ 2 - 1). rewrite clear_flags, Hdec by lia. pose proof (clear_flags 2 k (0xFFFFFFFF mod 2 ^ 16 / 2 ^ k) 1) as Hcl.
  rewrite short_mask in * by lia. rewrite Hcl, u32_id by lia. do 3 f_equal. lia.
Qed.

Lemma get_mem_bar x b k q fl d : in_range x → 0 <= b < 6 → bar_is d x b (MemBar k q fl) →
  ∃ d', pci_get_bar x b d = Ok (mkBar (2 ^ k * q) (2 ^ k) false, d') ∧ same d d'.
Proof.
  intros Hx Hb (Hk&Hfl&Hc&Hne&Hdec). set (off := 0x10 + b * 4) in *. assert (register off) as Ho by (unfold register, off; split; [lia|Z.div_mod_to_equations; lia]).
  pose proof (config_range (m := m) (hhdm_offset := hhdm_offset) (acpi := acpi) d x off) as Hr. rewrite Hc in Hr, Hne. assert (2 ^ 4 <= 2 ^ k) by (apply Z.pow_le_mono_r; lia).
  assert (0 <= fl < 2 ^ 4 ∧ Z.land fl 1 = 0 ∧ Z.land fl 6 ≠ 4) as (Hf&Hf1&Hf6) by (rewrite !elem_of_cons, elem_of_nil in Hfl; by destruct_or! Hfl; subst).
  destruct (pci_read_ok x off d Hx Ho) as (d1&E1&S1). assert (config d1 x off = 2 ^ k * q + fl) as Hc1 by (by rewrite <- (S1 x off)).
  destruct (probe_ok x off d1 _ Hx Ho Hc1) as (d2&d3&d4&E2&E3&E4&S4).
  { rewrite Hdec, div_flags by (rewrite ?Hdec; lia). done. }
  exists d4. split; [|by rewrite S1]. unfold Pci.pci_get_bar. fold off. rewrite E1. cbn [mbind result_bind]. rewrite Hc.
  rewrite (land_small_mask 4 _ 0x1), (land_small_mask 4 _ 0x6), mod_flags, Hf1, (proj2 (Z.eqb_neq _ 0) Hne), (proj2 (Z.eqb_neq _ 0x4) Hf6) by lia.
  cbn [Z.eqb negb]. rewrite E2. cbn [mbind result_bind]. rewrite E3. cbn [mbind result_bind]. rewrite E4. cbn [mbind result_bind].
  change 0xF with (2 ^ 4 - 1). rewrite clear_flags, Hdec, size_32 by lia. done.
Qed.

(** The halves of an address of a wide register. *)
Lemma wide_halves k q : 4 <= k < 64 → 0 <= 2 ^ k * q → ∃ q', (2 ^ k * q) mod 2 ^ 32 = 2 ^ (Z.min k 32) * q' ∧
  2 ^ Z.max 0 (k - 32) * (2 ^ k * q / 2 ^ 32 / 2 ^ Z.max 0 (k - 32)) = 2 ^ k * q / 2 ^ 32.
Proof.
  intros Hk Hq. destruct (decide (k < 32)).
  - rewrite Z.min_l, Z.max_l by lia. exists (q mod 2 ^ (32 - k)). split; [|rewrite Z.pow_0_r, Z.div_1_r; lia].
    replace (2 ^ 32) with (2 ^ k * 2 ^ (32 - k)) by (rewrite <- Z.pow_add_r by lia; f_equal; lia). apply Z.mul_mod_distr_l; apply Z.pow_nonzero; lia.
  - rewrite Z.min_r, Z.max_r by lia. exists 0. assert (2 ^ k = 2 ^ (k - 32) * 2 ^ 32) as -> by (rewrite <- Z.pow_add_r by lia; f_equal; lia).
    replace (2 ^ (k - 32) * 2 ^ 32 * q) with (2 ^ (k - 32) * q * 2 ^ 32) by lia. rewrite Z.mod_mul, Z.div_mul by lia. split; [lia|].
    rewrite (Z.mul_comm _ q), Z.div_mul by (apply Z.pow_nonzero; lia). lia.
Qed.

Lemma wide_size k fl : 4 <= k < 64 → 0 <= fl < 2 ^ 4 →
  u64 (not64 (Z.lor (Z.shiftl (2 ^ Z.max 0 (k - 32) * (0xFFFFFFFF / 2 ^ Z.max 0 (k - 32)) + 0) 32)
    (clear (2 ^ 4 - 1) (2 ^ Z.min k 32 * (0xFFFFFFFF / 2 ^ Z.min k 32) + fl))) + 1) = 2 ^ k.
Proof.
  intros Hk Hf. assert (0 < 2 ^ Z.max 0 (k - 32) <= 2 ^ 32) by (split; [apply Z.pow_pos_nonneg; lia|apply Z.pow_le_mono_r; lia]).
  assert (2 ^ 4 <= 2 ^ Z.min k 32 <= 2 ^ 32) by (split; apply Z.pow_le_mono_r; lia).
  assert (2 ^ 4 <= 2 ^ k < 2 ^ 64) by (split; [apply Z.pow_le_mono_r; lia|apply Z.pow_lt_mono_r; lia]).
  rewrite !ones_decoded, clear_ok, Z.shiftl_mul_pow2 by lia.
  replace (2 ^ 32 - 2 ^ Z.min k 32) with (2 ^ 4 * (2 ^ (32 - 4) - 2 ^ (Z.min k 32 - 4))) by (rewrite Z.mul_sub_distr_l, <- !Z.pow_add_r by lia; do 2 f_equal; lia).
  rewrite div_flags by lia. rewrite Z.mul_sub_distr_l, <- !Z.pow_add_r by lia.
  replace (4 + (32 - 4)) with 32 by lia. replace (4 + (Z.min k 32 - 4)) with (Z.min k 32) by lia.
  rewrite (lor_disjoint _ _ 32); [|lia|lia|eexists; f_equal; lia].
  assert ((2 ^ 32 - 2 ^ Z.max 0 (k - 32) + 0) * 2 ^ 32 + (2 ^ 32 - 2 ^ Z.min k 32) = 2 ^ 64 - 2 ^ k) as ->.
  { destruct (decide (k < 32)); [rewrite Z.min_l, Z.max_l by lia; lia|]. rewrite Z.min_r, Z.max_r by lia.
    assert (2 ^ k = 2 ^ (k - 32) * 2 ^ 32) as -> by (rewrite <- Z.pow_add_r by lia; f_equal; lia). lia. }
  unfold not64. replace (2 ^ 64 - 1 - (2 ^ 64 - 2 ^ k) + 1) with (2 ^ k) by lia. apply Z.mod_small. lia.
Qed.

Lemma get_wide_bar x b k q fl d : in_range x → 0 <= b < 6 → bar_is d x b (WideBar k q fl) →
  ∃ d', pci_get_bar x b d = Ok (mkBar (2 ^ k * q) (2 ^ k) false, d') ∧ same d d'.
Proof.
  intros Hx Hb (Hk&Hfl&Hb5&Hc&Hch&Hdec&Hdech). set (off := 0x10 + b * 4) in *.
  assert (register off ∧ register (off + 4)) as [Ho Ho4] by (unfold register, off; split_and!; try lia; Z.div_mod_to_equations; lia).
  pose proof (config_range (m := m) (hhdm_offset := hhdm_offset) (acpi := acpi) d x (off + 4)) as Hrh. rewrite Hch in Hrh.
  assert (0 <= 2 ^ k * q) as Hpos by (Z.div_mod_to_equations; lia). destruct (wide_halves k q Hk Hpos) as (q'&Eq&Ehigh).
  pose proof (config_range (m := m) (hhdm_offset := hhdm_offset) (acpi := acpi) d x off) as Hr. rewrite Hc, Eq in *.
  assert (2 ^ 4 <= 2 ^ Z.min k 32) by (apply Z.pow_le_mono_r; lia).
  assert (0 <= fl < 2 ^ 4 ∧ Z.land fl 1 = 0 ∧ Z.land fl 6 = 4 ∧ fl ≠ 0) as (Hf&Hf1&Hf6&Hf0) by (rewrite !elem_of_cons, elem_of_nil in Hfl; by destruct_or! Hfl; subst).
  destruct (pci_read_ok x off d Hx Ho) as (d1&E1&S1). assert (config d1 x off = 2 ^ Z.min k 32 * q' + fl) as Hc1 by (by rewrite <- (S1 x off)).
  destruct (probe_ok x off d1 _ Hx Ho Hc1) as (d2&d3&d4&E2&E3&E4&S4).
  { rewrite Hdec, div_flags by (rewrite ?Hdec; lia). done. }
  destruct (pci_read_ok x (off + 4) d4 Hx Ho4) as (d5&E5&S5). assert (config d5 x (off + 4) = 2 ^ k * q / 2 ^ 32) as Hc5 by (by rewrite <- (S5 x _), <- (S4 x _), <- (S1 x _)).
  destruct (probe_ok x (off + 4) d5 _ Hx Ho4 Hc5) as (d6&d7&d8&E6&E7&E8&S8).
  { rewrite Hdech, Ehigh by (rewrite ?Hdec; lia). lia. }
  exists d8. split; [|by rewrite S1, S4, S5]. unfold Pci.pci_get_bar. fold off. rewrite E1. cbn [mbind result_bind]. rewrite Hc.
  assert ((2 ^ Z.min k 32 * q' + fl) mod 2 ^ 4 = fl) as Emod by (apply mod_flags; lia).
  assert (2 ^ Z.min k 32 * q' + fl ≠ 0) as Hne by (intros E; rewrite E in Emod; by rewrite <- Emod in Hf0).
  rewrite (land_small_mask 4 _ 0x1), (land_small_mask 4 _ 0x6), Emod, Hf1, Hf6, (proj2 (Z.eqb_neq _ 0) Hne) by lia.
  cbn [Z.eqb negb Pos.eqb]. rewrite E2. cbn [mbind result_bind]. rewrite E3. cbn [mbind result_bind]. rewrite E4. cbn [mbind result_bind].
  rewrite E5. cbn [mbind result_bind]. rewrite E6. cbn [mbind result_bind]. rewrite E7. cbn [mbind result_bind]. rewrite <- (S4 x (off + 4)), <- (S1 x (off + 4)), Hch, E8. cbn [mbind result_bind].
  change 0xF with (2 ^ 4 - 1). rewrite clear_flags by lia. rewrite <- Eq, Z.lor_comm, Z.shiftl_mul_pow2 by lia.
  rewrite (lor_disjoint _ _ 32); [|lia|apply Z.mod_pos_bound; lia|eexists; reflexivity].
  rewrite (Z.mul_comm _ (2 ^ 32)), <- Z.div_mod by lia. rewrite Hdec, Hdech, wide_size by (done || lia). done.
Qed.

Lemma get_bar_ok x b bk d : in_range x → 0 <= b < 6 → bar_is d x b bk → ∃ d', pci_get_bar x b d = Ok (bar_found bk, d') ∧ same d d'.
Proof.
  intros Hx Hb Hbk. destruct bk as [|k q|k q|k q fl|k q fl]; [|by apply get_io_bar|by apply get_short_bar|by eapply get_mem_bar|by eapply get_wide_bar].
  cbn in Hbk. destruct (pci_read_ok x (16 + b * 4) d Hx) as (d1&E1&S1); [unfold register; split; [lia|Z.div_mod_to_equations; lia]|].
  exists d1. split; [|done]. unfold Pci.pci_get_bar. change (0x10 + b * 4) with (16 + b * 4). rewrite E1. cbn [mbind result_bind]. by rewrite Hbk.
Qed.

(** ** All address registers of a function *)

Definition bar_width (bk : bar_kind) : Z := match bk with WideBar _ _ _ => 2 | _ => 1 end.

Inductive bars_are (d : D) (x : location) : Z → list bar_kind → Prop :=
| bars_end b : 6 <= b → bars_are d x b []
| bars_next b bk L : 0 <= b < 6 → bar_is d x b bk → bars_are d x (b + bar_width bk) L → bars_are d x b (bk :: L).

Fixpoint bars_found (b : Z) (L : list bar_kind) (l : list (option pci_bar_t)) : list (option pci_bar_t) :=
  match L with [] => l | bk :: L => bars_found (b + bar_width bk) L (<[Z.to_nat b := Some (bar_found bk)]> l) end.

Lemma bar_is_same d d' x b bk : same d d' → bar_is d x b bk → bar_is d' x b bk.
Proof. intros S. destruct bk; cbn; by rewrite !(S x). Qed.

Lemma bars_are_same d d' x b L : same d d' → bars_are d x b L → bars_are d' x b L.
Proof. intros S. induction 1; econstructor; eauto using bar_is_same. Qed.

Lemma bar_is_wide d x b bk : bar_is d x b bk → let raw := config d x (0x10 + b * 4) in
  (if (Z.land raw 0x1 =? 0) && (Z.land raw 0x6 =? 0x4) then b + 2 else b + 1) = b + bar_width bk.
Proof.
  assert (∀ k q fl, 4 <= k → fl ∈ [0; 2; 8; 10; 4; 12] → let raw := 2 ^ k * q + fl in
    (Z.land raw 0x1 =? 0) && (Z.land raw 0x6 =? 0x4) = bool_decide (fl ∈ [4; 12])) as Hfl.
  { intros k q fl Hk Hin raw. assert (0 <= fl < 2 ^ 4) by (rewrite !elem_of_cons, elem_of_nil in Hin; by destruct_or! Hin; subst).
    unfold raw. rewrite (land_small_mask 4 _ 0x1), (land_small_mask 4 _ 0x6), mod_flags by lia. rewrite !elem_of_cons, elem_of_nil in Hin. by destruct_or! Hin; subst. }
  destruct bk as [|k q|k q|k q fl|k q fl]; cbn [bar_is bar_width].
  - by intros ->.
  - intros (Hk&->&_). by rewrite (land_small_mask 2 _ 0x1), mod_flags by lia.
  - intros (Hk&->&_). by rewrite (land_small_mask 2 _ 0x1), mod_flags by lia.
  - intros (Hk&Hin&->&_). rewrite Hfl, bool_decide_eq_false_2; [done|..]; rewrite !elem_of_cons, elem_of_nil in *; lia.
  - intros (Hk&Hin&_&->&_). destruct (decide (k < 32)).
    + replace (2 ^ 32) with (2 ^ k * 2 ^ (32 - k)) by (rewrite <- Z.pow_add_r by lia; f_equal; lia).
      rewrite Z.mul_mod_distr_l by (apply Z.pow_nonzero; lia). rewrite Hfl, bool_decide_eq_true_2; [done|done|lia|]. rewrite !elem_of_cons, elem_of_nil in *. lia.
    + replace (2 ^ k * q) with (2 ^ (k - 32) * q * 2 ^ 32) by (replace k with (k - 32 + 32) at 2 by lia; rewrite Z.pow_add_r by lia; lia).
      rewrite Z.mod_mul by lia. change (0 + fl) with (2 ^ 4 * 0 + fl). rewrite (Hfl 4 0 fl), bool_decide_eq_true_2; [done|done|lia|]. rewrite !elem_of_cons, elem_of_nil in *. lia.
Qed.

#[local] Abbreviation bars_loop n x b := (bars_loop m hhdm_offset acpi n x.1.1 x.1.2 x.2 b).

Lemma bars_loop_ok n x b L l d : in_range x → bars_are d x b L → 6 - b <= Z.of_nat n →
  ∃ d', bars_loop n x b l d = Ok (bars_found b L l, d') ∧ same d d'.
Proof.
  intros Hx. revert n b l d. induction L as [|bk L IH]; intros n b l d HL Hn; inversion HL as [? Hb|? ? ? Hb Hbk HL']; subst.
  - exists d. split; [|done]. destruct n; cbn; [done|]. by rewrite (proj2 (Z.ltb_ge b 6)).
  - destruct n as [|n]; [lia|]. cbn [Pci.bars_loop]. rewrite (proj2 (Z.ltb_lt b 6)) by lia.
    destruct (get_bar_ok x b bk d Hx Hb Hbk) as (d1&E1&S1). rewrite E1. cbn [mbind result_bind].
    destruct (pci_read_ok x (0x10 + b * 4) d1 Hx) as (d2&E2&S2); [unfold register; split; [lia|Z.div_mod_to_equations; lia]|]. rewrite E2. cbn [mbind result_bind].
    rewrite <- (S1 x), bar_is_wide with (bk := bk) by done.
    destruct (IH n (b + bar_width bk) (<[Z.to_nat b := Some (bar_found bk)]> l) d2) as (d3&E3&S3);
      [apply (bars_are_same d1 d2 _ _ _ S2), (bars_are_same d d1 _ _ _ S1); done|destruct bk; cbn; lia|]. exists d3. split; [done|by rewrite S1, S2].
Qed.

(** ** The search *)

(** The device that a function is. *)
Definition described (d : D) (x : location) (L : list bar_kind) : pci_dev_t :=
  mkDev (config d x 0 mod 2 ^ 16) (config d x 0 / 2 ^ 16) (config d x 8 / 2 ^ 24) (config d x 8 / 2 ^ 16 mod 2 ^ 8) (config d x 8 / 2 ^ 8 mod 2 ^ 8)
    (config d x 0x3C mod 2 ^ 8) x.1.1 x.1.2 x.2 (bars_found 0 L (replicate 6 None)) false.

Lemma describe_ok x L d d0 : in_range x → bars_are d x 0 L → same d0 d →
  ∃ d', describe m hhdm_offset acpi x.1.1 x.1.2 x.2 (config d x 0) d = Ok (described d0 x L, d') ∧ same d0 d'.
Proof.
  intros Hx HL S0. unfold describe.
  assert (register 0x08 ∧ register 0x3C) as [H8 H3c] by done.
  destruct (pci_read_ok x 0x08 d Hx H8) as (d1&E1&S1). rewrite E1. cbn [mbind result_bind].
  destruct (pci_read_ok x 0x3C d1 Hx H3c) as (d2&E2&S2). rewrite E2. cbn [mbind result_bind].
  destruct (bars_loop_ok 6 x 0 L (replicate 6 None) d2 Hx) as (d3&E3&S3); [apply (bars_are_same d1 d2 _ _ _ S2), (bars_are_same d d1 _ _ _ S1); done|lia|].
  rewrite E3. cbn [mbind result_bind]. exists d3. split; [|by rewrite S0, S1, S2]. unfold described.
  pose proof (config_range (m := m) (hhdm_offset := hhdm_offset) (acpi := acpi) d x 8). destruct Hx as (Hb&_).
  change 0xFFFF with (Z.ones 16). change 0xFF with (Z.ones 8). rewrite !Z.land_ones, !Z.shiftr_div_pow2, u8_id by lia.
  rewrite <- (S1 x 0x3C), !(S0 x). rewrite (Z.mod_small (config d x 8 / 2 ^ 24)); [done|]. Z.div_mod_to_equations; lia.
Qed.

(** Whether a function is there, as the first register tells. *)
Definition there (d : D) (x : location) : bool := negb (config d x 0 mod 2 ^ 16 =? 0xFFFF).
Definition multifunction (d : D) (b s : Z) : bool := Z.testbit (config d (b, s, 0) 0x0C) 23.

Section Sweep.
Variable kinds : location → list bar_kind.
#[local] Abbreviation sweep_func b s := (sweep_func m hhdm_offset acpi b s).
#[local] Abbreviation sweep_slot b s := (sweep_slot m hhdm_offset acpi b s).

Definition found_func (d : D) (x : location) : list pci_dev_t := if there d x then [described d x (kinds x)] else [].
Definition found_slot (d : D) (b s : Z) : list pci_dev_t :=
  if there d (b, s, 0) then flat_map (λ f, found_func d (b, s, f)) (seqZ 0 (if multifunction d b s then 8 else 1)) else [].
Definition found_bus (d : D) (b : Z) : list pci_dev_t := flat_map (found_slot d b) (seqZ 0 32).

(** The buffer is large enough. *)
Definition roomy (c : cache) : Prop := let n := Z.of_nat (length (discovered c)) in 20 <= capacity c <= Z.max 20 (2 * n) ∧ n <= capacity c.

Lemma cache_add_ok c x : roomy c → Z.of_nat (length (discovered c)) < 2 ^ 24 →
  ∃ c', cache_add x c = Ok c' ∧ discovered c' = discovered c ++ [x] ∧ roomy c'.
Proof.
  intros [Hc Hn] Hlt. unfold cache_add. set (n := Z.of_nat (length (discovered c))) in *. rewrite Z.geb_leb.
  assert (i32 (capacity c * 2) = capacity c * 2) as E.
  { unfold i32, sint. rewrite Z.mod_small by lia. by rewrite (proj2 (Z.ltb_lt _ _)) by lia. }
  destruct (Z.leb_spec (capacity c) n); rewrite ?E, (proj2 (Z.ltb_lt n _)) by lia; eexists; (split; [reflexivity|]); (split; [reflexivity|]);
    unfold roomy; cbn [discovered capacity]; rewrite length_app; cbn [length]; lia.
Qed.

(** The state of the search: what was found behind [L0], on hardware like [d0]. *)
Definition searched (d0 : D) (L : list pci_dev_t) (s : cache * D) : Prop := discovered s.1 = L ∧ roomy s.1 ∧ same d0 s.2.

Context (d0 : D).
Hypothesis functions_ok : ∀ x, in_range x → there d0 x = true → bars_are d0 x 0 (kinds x).

Lemma absent_ok x d : same d0 d → (Z.land (config d x 0) 0xFFFF =? 0xFFFF) = negb (there d0 x).
Proof. intros S. unfold there. rewrite negb_involutive, <- (S x). change 0xFFFF with (Z.ones 16) at 1. by rewrite Z.land_ones by lia. Qed.

Lemma sweep_func_ok L s b sl f : in_range (b, sl, f) → searched d0 L s → Z.of_nat (length L) < 2 ^ 24 →
  ∃ s', sweep_func b sl f s = Ok s' ∧ searched d0 (L ++ found_func d0 (b, sl, f)) s'.
Proof.
  destruct s as [c d]. intros Hx (HL&Hroom&Hs) Hlt. cbn [fst snd] in *. unfold Pci.sweep_func, found_func. set (x := (b, sl, f)) in *.
  destruct (pci_read_ok x 0 d Hx) as (d1&E1&S1); [done|]. change (Pci.pci_read m hhdm_offset acpi b sl f 0 d) with (pci_read x 0 d). rewrite E1. cbn [mbind result_bind].
  rewrite absent_ok by done. destruct (there d0 x) eqn:Ht; cbn [negb].
  - assert (same d0 d1) as S2 by (by rewrite Hs). rewrite (S1 x 0).
    destruct (describe_ok x (kinds x) d1 d0 Hx) as (d2&E2&S3); [by apply (bars_are_same d0 d1), functions_ok|done|].
    change (describe m hhdm_offset acpi b sl f) with (describe m hhdm_offset acpi x.1.1 x.1.2 x.2). rewrite E2. cbn [mbind result_bind].
    destruct (cache_add_ok c (described d0 x (kinds x)) Hroom) as (c'&Ec&HL'&Hr'); [by rewrite HL|]. rewrite Ec. cbn [mbind result_bind].
    eexists. split; [reflexivity|]. unfold searched. cbn [fst snd]. by rewrite HL', HL.
  - eexists. split; [reflexivity|]. rewrite app_nil_r. split_and!; [done..|]. cbn. by rewrite Hs.
Qed.

Lemma found_func_length d x : (length (found_func d x) <= 1)%nat.
Proof. unfold found_func. destruct (there d x); cbn; lia. Qed.

Lemma found_slot_length d b s : (length (found_slot d b s) <= 8)%nat.
Proof.
  unfold found_slot. destruct (there d (b, s, 0)); [|cbn; lia]. pose proof (length_flat_map_le (λ f, found_func d (b, s, f)) 1 (seqZ 0 (if multifunction d b s then 8 else 1)) (λ f, found_func_length d _)).
  rewrite length_seqZ in *. destruct (multifunction d b s); lia.
Qed.

Lemma found_bus_length d b : (length (found_bus d b) <= 256)%nat.
Proof. unfold found_bus. pose proof (length_flat_map_le (found_slot d b) 8 (seqZ 0 32) (found_slot_length d b)). rewrite length_seqZ in *. lia. Qed.

Lemma sweep_slot_ok L s b sl : 0 <= b < 256 → 0 <= sl < 32 → searched d0 L s → Z.of_nat (length L) < 2 ^ 23 →
  ∃ s', sweep_slot b sl s = Ok s' ∧ searched d0 (L ++ found_slot d0 b sl) s'.
Proof.
  destruct s as [c d]. intros Hb Hsl (HL&Hroom&Hs) Hlt. cbn [fst snd] in *. unfold Pci.sweep_slot, found_slot.
  assert (in_range (b, sl, 0)) as Hx by (unfold in_range; cbn; lia).
  destruct (pci_read_ok (b, sl, 0) 0 d Hx) as (d1&E1&S1); [done|]. cbn [fst snd] in E1. rewrite E1. cbn [mbind result_bind].
  rewrite absent_ok by done. assert (same d0 d1) as S2 by (by rewrite Hs). destruct (there d0 (b, sl, 0)); cbn [negb].
  - destruct (pci_read_ok (b, sl, 0) 0x0C d1 Hx) as (d2&E2&S3); [done|]. cbn [fst snd] in E2. rewrite E2. cbn [mbind result_bind]. rewrite <- (S2 _ 0x0C).
    assert (negb (Z.land (Z.land (Z.shiftr (config d0 (b, sl, 0) 0x0C) 16) 0xFF) 0x80 =? 0) = multifunction d0 b sl) as ->.
    { unfold multifunction. rewrite <- Z.land_assoc. change (Z.land 0xFF 0x80) with (2 ^ 7). destruct (Z.testbit (config d0 (b, sl, 0) 12) 23) eqn:Et.
      - apply negb_true_iff, Z.eqb_neq. intros E. apply (f_equal (λ v, Z.testbit v 7)) in E. rewrite Z.land_spec, Z.shiftr_spec, Z.pow2_bits_true, Z.bits_0, andb_true_r in E by lia. change (7 + 16) with 23 in E. congruence.
      - apply negb_false_iff, Z.eqb_eq, Z.bits_inj'. intros j Hj. rewrite Z.land_spec, Z.shiftr_spec, Z.bits_0, Z.pow2_bits_eqb by lia.
        destruct (Z.eqb_spec 7 j) as [<-|]; [change (7 + 16) with 23; by rewrite Et|apply andb_false_r]. }
    set (n := if multifunction d0 b sl then 8 else 1). assert (1 <= n <= 8) as Hn by (unfold n; destruct (multifunction d0 b sl); lia).
    apply (for_range_ok (λ i s, searched d0 (L ++ flat_map (λ f, found_func d0 (b, sl, f)) (seqZ 0 i)) s)); [lia| |].
    + cbn [seqZ flat_map Z.to_nat seq fmap list_fmap]. rewrite app_nil_r. split_and!; [done..|]. cbn. by rewrite S2, S3.
    + intros i s Hi Hsr. destruct (sweep_func_ok _ s b sl i ltac:(unfold in_range; cbn; lia) Hsr) as (s'&E&Hs').
      { rewrite length_app. pose proof (length_flat_map_le (λ f, found_func d0 (b, sl, f)) 1 (seqZ 0 i) (λ f, found_func_length d0 _)). rewrite length_seqZ in *. lia. }
      exists s'. split; [done|]. by rewrite flat_map_seqZ_next, app_assoc by lia.
  - eexists. split; [reflexivity|]. by rewrite app_nil_r.
Qed.

Lemma sweep_ok : ∃ s, sweep m hhdm_offset acpi d0 = Ok s ∧ searched d0 (flat_map (found_bus d0) (seqZ 0 256)) s.
Proof.
  unfold sweep. apply (for_range_ok (λ b s, searched d0 (flat_map (found_bus d0) (seqZ 0 b)) s)); [lia|by split_and!|].
  intros b s Hb Hs. rewrite flat_map_seqZ_next by lia. set (L := flat_map (found_bus d0) (seqZ 0 b)) in *.
  assert (Z.of_nat (length L) <= 2 ^ 16) as HL.
  { unfold L. pose proof (length_flat_map_le (found_bus d0) 256 (seqZ 0 b) (found_bus_length d0)). rewrite length_seqZ in *. lia. }
  apply (for_range_ok (λ sl s, searched d0 (L ++ flat_map (found_slot d0 b) (seqZ 0 sl)) s)); [lia|cbn; by rewrite app_nil_r|].
  intros sl s1 Hsl Hs1. destruct (sweep_slot_ok _ s1 b sl ltac:(lia) Hsl Hs1) as (s'&E&Hs').
  { rewrite length_app. pose proof (length_flat_map_le (found_slot d0 b) 8 (seqZ 0 sl) (found_slot_length d0 b)). rewrite length_seqZ in *. lia. }
  exists s'. split; [done|]. by rewrite flat_map_seqZ_next, app_assoc by lia.
Qed.
End Sweep.

(** All places of functions in the order of the search, and whether the search
    gets to one and finds a function. *)
Definition locations : list location := flat_map (λ b, flat_map (λ s, (λ f, (b, s, f)) <$> seqZ 0 8) (seqZ 0 32)) (seqZ 0 256).

Definition reached (d : D) (x : location) : bool := there d (x.1, 0) && ((x.2 =? 0) || multifunction d x.1.1 x.1.2) && there d x.

Lemma filter_flat_map {A B} (P : B → Prop) `{∀ y, Decision (P y)} (g : A → list B) l : filter P (flat_map g l) = flat_map (λ x, filter P (g x)) l.
Proof. induction l as [|x l IH]; [done|]. cbn [flat_map]. by rewrite filter_app, IH. Qed.

Lemma fmap_flat_map {A B C} (h : B → C) (g : A → list B) l : h <$> flat_map g l = flat_map (λ x, h <$> g x) l.
Proof. induction l as [|x l IH]; [done|]. cbn [flat_map]. by rewrite fmap_app, IH. Qed.

Lemma flat_map_same {A B} (g h : A → list B) l : (∀ x, g x = h x) → flat_map g l = flat_map h l.
Proof. intros E. induction l as [|x l IH]; [done|]. cbn [flat_map]. by rewrite E, IH. Qed.

Lemma found_funcs_eq kinds d b s l : flat_map (λ f, found_func kinds d (b, s, f)) l = (λ x, described d x (kinds x)) <$> filter (λ x, there d x = true) ((λ f, (b, s, f)) <$> l).
Proof.
  induction l as [|f l IH]; [done|]. cbn [flat_map fmap list_fmap]. rewrite filter_cons, IH. unfold found_func. destruct (there d (b, s, f)); by case_decide.
Qed.

Lemma found_slot_eq kinds d b s : found_slot kinds d b s = (λ x, described d x (kinds x)) <$> filter (λ x, reached d x = true) ((λ f, (b, s, f)) <$> seqZ 0 8).
Proof.
  unfold found_slot. destruct (there d (b, s, 0)) eqn:H0'.
  - assert (∀ f, reached d (b, s, f) = ((f =? 0) || multifunction d b s) && there d (b, s, f)) as Hr by (intros f; unfold reached; cbn [fst snd]; by rewrite H0').
    rewrite found_funcs_eq. f_equal. destruct (multifunction d b s).
    + apply filter_congr. intros x (f&->&_)%list_elem_of_fmap. by rewrite Hr, orb_true_r.
    + change (seqZ 0 8) with (seqZ 0 1 ++ seqZ 1 7). rewrite fmap_app, filter_app, (filter_none _ ((λ f, (b, s, f)) <$> seqZ 1 7)), app_nil_r.
      * apply filter_congr. intros x (f&->&Hf%elem_of_seqZ)%list_elem_of_fmap. rewrite Hr. by rewrite (proj2 (Z.eqb_eq f 0)) by lia.
      * intros x (f&->&Hf%elem_of_seqZ)%list_elem_of_fmap. rewrite Hr. by rewrite (proj2 (Z.eqb_neq f 0)) by lia.
  - rewrite filter_none; [done|]. intros x (f&->&_)%list_elem_of_fmap. unfold reached. cbn [fst snd]. by rewrite H0'.
Qed.

Lemma found_eq kinds d : flat_map (found_bus kinds d) (seqZ 0 256) = (λ x, described d x (kinds x)) <$> filter (λ x, reached d x = true) locations.
Proof.
  unfold locations. rewrite filter_flat_map, fmap_flat_map. apply flat_map_same. intros b. rewrite filter_flat_map, fmap_flat_map. apply flat_map_same. intros s.
  apply found_slot_eq.
Qed.

(** Every place comes once. *)
Lemma nodup_flat_map {A B} (g : A → list B) l : NoDup l → (∀ x, x ∈ l → NoDup (g x)) →
  (∀ x y z, x ∈ l → y ∈ l → z ∈ g x → z ∈ g y → x = y) → NoDup (flat_map g l).
Proof.
  induction l as [|x l IH]; intros Hl Hg Hd; [constructor|]. apply NoDup_cons in Hl as [Hx Hl]. cbn [flat_map]. apply NoDup_app. split_and!.
  - apply Hg, list_elem_of_here.
  - intros z Hz Hin. apply list_elem_of_In, in_flat_map in Hin as (y&Hy%list_elem_of_In&Hzy%list_elem_of_In). apply Hx.
    rewrite (Hd x y z); [done|apply list_elem_of_here|by apply list_elem_of_further|done|done].
  - apply IH; [done| |]; intros; [apply Hg|eapply Hd]; eauto using list_elem_of_further.
Qed.

Lemma locations_nodup : NoDup locations.
Proof.
  apply nodup_flat_map; [apply NoDup_seqZ| |].
  - intros b _. apply nodup_flat_map; [apply NoDup_seqZ| |].
    + intros s _. apply NoDup_fmap_2; [by intros ?? [=]|apply NoDup_seqZ].
    + intros s s' z _ _ (f&->&_)%list_elem_of_fmap (f'&[=]&_)%list_elem_of_fmap. done.
  - intros b b' z _ _ (s&_&Hz)%list_elem_of_In%in_flat_map (s'&_&Hz')%list_elem_of_In%in_flat_map.
    apply list_elem_of_In, list_elem_of_fmap in Hz as (f&->&_). by apply list_elem_of_In, list_elem_of_fmap in Hz' as (f'&[=]&_).
Qed.

(** ** Drivers *)

Definition place (x : pci_dev_t) : location := (bus x, slot x, func x).
#[local] Abbreviation entry := (pci_driver_entry_t (D := D)).
#[local] Abbreviation log := (list (call (D := D))).

Lemma matches_claim (e : entry) x : driver_matches e (claim x) = driver_matches e x.
Proof. done. Qed.

(** What a call says: the driver is for the device and has what it needs. *)
Definition call_right (T : list entry) (c : call (D := D)) : Prop :=
  driver c ∈ T ∧ driver_matches (driver c) (called_with c) = true ∧
  pci_check_driver_capabilities acpi (required_capabilities (driver c)) = true ∧ is_Some (init (driver c)).

(** The state between drivers: those of [T] had their turn, [devs0] were found. *)
Record matched (table T : list entry) (devs0 devs : list pci_dev_t) (groups : Z) (calls : log) : Prop := {
  md_devs : Forall2 (λ x y, y = x ∨ y = claim x) devs0 devs;
  md_calls c : c ∈ calls → call_right table c;
  md_claimed c : c ∈ calls → called_with c ∈ devs ∧ claimed (called_with c) = true;
  md_once : NoDup ((λ c, place (called_with c)) <$> calls);
  md_taken c : c ∈ calls → group_id (driver c) ≠ 0 → Z.testbit groups (group_id (driver c)) = true;
  md_groups i j c c' : calls !! i = Some c → calls !! j = Some c' → group_id (driver c) ≠ 0 → group_id (driver c) = group_id (driver c') → i = j;
  md_rest x e : x ∈ devs → claimed x = false → e ∈ T → driver_matches e x = true → group_id e ≠ 0 ∧ Z.testbit groups (group_id e) = true;
  md_why g : Z.testbit groups g = true → ∃ e x, e ∈ table ∧ group_id e = g ∧ x ∈ devs ∧ claimed x = true ∧ driver_matches e x = true
}.

Lemma matched_places table T devs0 devs groups calls : matched table T devs0 devs groups calls → place <$> devs = place <$> devs0.
Proof. intros [Hd _ _ _ _ _ _ _]. induction Hd as [|x y l k [->| ->] _ IH]; [done|cbn; by rewrite IH..]. Qed.

(** A device is claimed, and maybe its group taken. *)
Lemma matched_claim table T devs0 before x devs groups groups' calls : matched table T devs0 (before ++ x :: devs) groups calls → claimed x = false →
  (∀ g, Z.testbit groups g = true → Z.testbit groups' g = true) →
  (∀ g, Z.testbit groups' g = true → Z.testbit groups g = true ∨ ∃ e, e ∈ table ∧ group_id e = g ∧ driver_matches e x = true) →
  matched table T devs0 (before ++ claim x :: devs) groups' calls.
Proof.
  intros [Hds Hc Hcl Ho Ht Hg Hr Hw] Hx Hgr Hgr'. constructor; [|done| |done|by auto|done| |].
  - apply Forall2_app_inv_r in Hds as (l1&l2&Hl1&Hl2&->). apply Forall2_app; [done|]. inversion Hl2 as [|y ? l3 ? Hy Hl]; subst. constructor; [|done].
    right. destruct Hy as [->| ->]; done.
  - intros c Hin. destruct (Hcl c Hin) as [Hd Hcc]. split; [|done]. rewrite elem_of_app, elem_of_cons in *. destruct Hd as [?|[Ex|?]]; [by left|exfalso; congruence|by right; right].
  - intros y e Hy Hyc He Hm. rewrite elem_of_app, elem_of_cons in Hy. destruct (Hr y e) as [? ?]; [|done..|by auto].
    rewrite elem_of_app, elem_of_cons. destruct Hy as [?|[->|?]]; [by left|done|by right; right].
  - intros g Hgt. destruct (Hgr' g Hgt) as [Hold|(e&He&Heg&Hm)].
    + destruct (Hw g Hold) as (e&y&He&Heg&Hy&Hyc&Hm). exists e, y. split_and!; try done. rewrite elem_of_app, elem_of_cons in *.
      destruct Hy as [?|[Ex|?]]; [by left|exfalso; congruence|by right; right].
    + exists e, (claim x). split_and!; try done. rewrite elem_of_app, elem_of_cons. auto.
Qed.

(** Its driver is called. *)
Lemma matched_call table T devs0 before x devs groups calls e st : matched table T devs0 (before ++ claim x :: devs) groups calls → NoDup (place <$> devs0) →
  (∀ c, c ∈ calls → called_with c ∈ before ++ x :: devs) → claimed x = false → call_right table (mkCall e (claim x) st) →
  (group_id e ≠ 0 → Z.testbit groups (group_id e) = true ∧ ∀ c, c ∈ calls → group_id (driver c) ≠ group_id e) →
  matched table T devs0 (before ++ claim x :: devs) groups (calls ++ [mkCall e (claim x) st]).
Proof.
  intros HM Hnd Hold Hx He Hg. pose proof (matched_places _ _ _ _ _ _ HM) as Hpl. destruct HM as [Hds Hc Hcl Ho Ht Hgs Hr Hw].
  assert (claim x ∈ before ++ claim x :: devs) as Hin by (rewrite elem_of_app, elem_of_cons; auto). constructor; [done|..|done|done].
  - intros c. rewrite elem_of_app, list_elem_of_singleton. intros [?| ->]; [auto|done].
  - intros c. rewrite elem_of_app, list_elem_of_singleton. intros [?| ->]; [auto|done].
  - rewrite fmap_app. apply NoDup_app. split_and!; [done| |apply NoDup_singleton]. intros y (c&->&Hcin)%list_elem_of_fmap Hy. apply list_elem_of_singleton in Hy. cbn in Hy.
    assert (called_with c = x) as E.
    { pose proof (proj1 (list_elem_of_lookup _ _) (Hold c Hcin)) as [i Hi]. rewrite <- Hpl in Hnd.
      assert (place <$> before ++ claim x :: devs = place <$> before ++ x :: devs) as E1 by (rewrite !fmap_app; done). rewrite E1 in Hnd.
      assert ((before ++ x :: devs) !! length before = Some x) as Hj by (by rewrite list_lookup_middle).
      assert (i = length before) as ->; [|congruence].
      apply (NoDup_lookup _ _ _ (place x) Hnd); rewrite list_lookup_fmap; [rewrite Hi|by rewrite Hj]. cbn. by rewrite Hy. }
    destruct (Hcl c Hcin) as [_ Hcc]. congruence.
  - intros c. rewrite elem_of_app, list_elem_of_singleton. intros [?| ->]; [auto|]. intros Hne. by apply Hg.
  - intros i j c c'. rewrite !lookup_app_Some. intros [Hi|[Hi Hi']] [Hj|[Hj Hj']] Hne E; [by eapply Hgs|..].
    + apply list_lookup_singleton_Some in Hj' as [_ <-]. cbn in E. destruct Hg as [_ Hg]; [congruence|]. exfalso. apply (Hg c); [by eapply list_elem_of_lookup_2|done].
    + apply list_lookup_singleton_Some in Hi' as [_ <-]. cbn in E, Hne. destruct (Hg Hne) as [_ Hg']. exfalso. apply (Hg' c'); [by eapply list_elem_of_lookup_2|done].
    + apply list_lookup_singleton_Some in Hi' as [Hi' _]. apply list_lookup_singleton_Some in Hj' as [Hj' _]. lia.
Qed.

Lemma enable_ok x d : in_range x → ∃ d', pci_enable_capabilities m hhdm_offset acpi x.1.1 x.1.2 x.2 d = Ok d'.
Proof.
  intros Hx. unfold pci_enable_capabilities. destruct (pci_read_ok x 0x04 d Hx) as (d1&E1&_); [done|]. rewrite E1. cbn [mbind result_bind].
  destruct (pci_write_ok x 0x04 (clear (2 ^ 10) (Z.lor (config d x 4) 7)) d1 Hx) as (d2&E2&_); [done| |eauto].
  unfold clear. apply land_range; [lia|apply lor_range; [lia|apply (config_range (m := m) (hhdm_offset := hhdm_offset) (acpi := acpi))|lia]|lia].
Qed.

Lemma group_bit_ok g : 0 <= g < 31 → group_bit g = Ok (2 ^ g).
Proof. intros Hg. unfold group_bit. rewrite (proj2 (Z.ltb_lt _ _)) by lia. by rewrite Z.shiftl_1_l. Qed.

Lemma taken_bit groups g : 0 <= g → negb (Z.land groups (2 ^ g) =? 0) = Z.testbit groups g.
Proof.
  intros Hg. destruct (Z.testbit groups g) eqn:Et.
  - apply negb_true_iff, Z.eqb_neq. intros E. apply (f_equal (λ v, Z.testbit v g)) in E. rewrite Z.land_spec, Z.pow2_bits_true, Z.bits_0, andb_true_r in E by lia. congruence.
  - apply negb_false_iff, Z.eqb_eq, Z.bits_inj'. intros j Hj. rewrite Z.land_spec, Z.bits_0, Z.pow2_bits_eqb by lia.
    destruct (Z.eqb_spec g j) as [<-|]; [by rewrite Et|apply andb_false_r].
Qed.

(** A driver had its turn. *)
Lemma matched_next table T devs0 devs groups calls e : matched table T devs0 devs groups calls →
  (∀ x, x ∈ devs → claimed x = false → driver_matches e x = true → group_id e ≠ 0 ∧ Z.testbit groups (group_id e) = true) →
  matched table (e :: T) devs0 devs groups calls.
Proof. intros [? ? ? ? ? ? Hr ?] He. constructor; try done. intros x e' Hx Hc [->|Hin]%elem_of_cons Hm; eauto. Qed.

Section Table.
Context (table : list entry) (devs0 : list pci_dev_t).
Hypothesis groups_small : ∀ e, e ∈ table → 0 <= group_id e < 31.
Hypothesis places_once : NoDup (place <$> devs0).
Hypothesis places_ok : Forall in_range (place <$> devs0).

Lemma match_devices_ok e T devs before groups calls d : e ∈ table → matched table T devs0 (before ++ devs) groups calls →
  (∀ x, x ∈ before → claimed x = false → driver_matches e x = false) → (group_id e ≠ 0 → Z.testbit groups (group_id e) = false) →
  ∃ devs' groups' calls' d', match_devices m hhdm_offset acpi e before devs groups calls d = Ok (devs', groups', calls', d') ∧
    matched table (e :: T) devs0 devs' groups' calls'.
Proof.
  intros He. revert before groups calls d. induction devs as [|x devs IH]; intros before groups calls d HM Hbefore Hfree.
  { rewrite app_nil_r in HM. exists before, groups, calls, d. split; [done|]. apply matched_next; [done|]. intros x Hx Hc Hm. rewrite Hbefore in Hm; done. }
  cbn [match_devices]. destruct (claimed x) eqn:Hcx; cbn [orb].
  { apply IH; [by rewrite <- app_assoc| |done]. intros y. rewrite elem_of_app, list_elem_of_singleton. intros [?| ->]; [auto|congruence]. }
  destruct (driver_matches e x) eqn:Hm; cbn [negb]; cycle 1.
  { apply IH; [by rewrite <- app_assoc| |done]. intros y. rewrite elem_of_app, list_elem_of_singleton. intros [?| ->]; auto. }
  assert (∀ y, y ∈ before ++ [claim x] → claimed y = false → driver_matches e y = false) as Hbefore'.
  { intros y. rewrite elem_of_app, list_elem_of_singleton. intros [?| ->]; [auto|done]. }
  destruct (pci_check_driver_capabilities acpi (required_capabilities e)) eqn:Hcap; cbn [negb]; cycle 1.
  { apply IH; [|done|done]. rewrite <- app_assoc. apply (matched_claim _ _ _ _ _ _ groups); auto. }
  assert (in_range (place x)) as Hx.
  { rewrite <- (matched_places _ _ _ _ _ _ HM), Forall_fmap, Forall_app, Forall_cons in places_ok. apply places_ok. }
  set (groups' := if negb (group_id e =? 0) then Z.lor groups (2 ^ group_id e) else groups).
  assert ((if negb (group_id e =? 0) then b ← group_bit (group_id e); mret (Z.lor groups b) else mret groups) = Ok groups') as ->.
  { unfold groups'. destruct (negb _); [|done]. by rewrite group_bit_ok by auto. }
  cbn [mbind result_bind]. specialize (groups_small e He).
  assert (∀ g, Z.testbit groups g = true → Z.testbit groups' g = true) as Hgr.
  { intros g Hg. unfold groups'. destruct (negb _); [|done]. by rewrite Z.lor_spec, Hg. }
  assert (group_id e ≠ 0 → Z.testbit groups' (group_id e) = true) as Hbit.
  { intros Hne. unfold groups'. rewrite (proj2 (Z.eqb_neq _ _) Hne). cbn [negb]. by rewrite Z.lor_spec, Z.pow2_bits_true, orb_true_r by lia. }
  assert (∀ g, Z.testbit groups' g = true → Z.testbit groups g = true ∨ ∃ e, e ∈ table ∧ group_id e = g ∧ driver_matches e x = true) as Hgr'.
  { intros g. unfold groups'. destruct (negb _); [|auto]. rewrite Z.lor_spec, orb_true_iff. intros [?|Hb]; [by left|]. right. exists e. split_and!; try done.
    destruct (decide (0 <= g)); [|by rewrite Z.testbit_neg_r in Hb by lia]. rewrite Z.pow2_bits_eqb in Hb by lia. by apply Z.eqb_eq in Hb. }
  pose proof (matched_claim _ _ _ _ _ _ groups groups' _ HM Hcx Hgr Hgr') as HM1.
  assert (∃ calls' d1, (match init e with
    | Some f => d ← pci_enable_capabilities m hhdm_offset acpi (bus (claim x)) (slot (claim x)) (func (claim x)) d;
        let '(status, d) := f (claim x) d in mret (calls ++ [mkCall e (claim x) status], d)
    | None => mret (calls, d) end) = Ok (calls', d1) ∧ matched table T devs0 (before ++ claim x :: devs) groups' calls') as (calls'&d1&->&HM2).
  { destruct (init e) as [f|] eqn:Hi; [|by eauto]. destruct (enable_ok (place x) d Hx) as (d1&E1).
    change (pci_enable_capabilities m hhdm_offset acpi (bus (claim x)) (slot (claim x)) (func (claim x)) d) with
      (pci_enable_capabilities m hhdm_offset acpi (place x).1.1 (place x).1.2 (place x).2 d). rewrite E1. cbn [mbind result_bind].
    destruct (f (claim x) d1) as [st d2]. eexists _, _. split; [reflexivity|]. apply matched_call; [done|done| |done|split_and!; try done; by rewrite Hi|].
    - intros c Hc. by apply (md_claimed _ _ _ _ _ _ HM).
    - intros Hne. split; [auto|]. intros c Hc E. pose proof (md_taken _ _ _ _ _ _ HM c Hc) as Ht. rewrite E, Hfree in Ht by done. by discriminate Ht. }
  cbn [mbind result_bind]. destruct (Z.eqb_spec (group_id e) 0) as [Hz|Hne]; cbn [negb].
  - apply IH; [by rewrite <- app_assoc|done|]. intros; congruence.
  - eexists _, _, _, _. split; [reflexivity|]. apply matched_next; [done|]. auto.
Qed.

Lemma match_table_ok rest T devs groups calls d : rest ⊆ table → matched table T devs0 devs groups calls →
  ∃ devs' groups' calls' d', match_table m hhdm_offset acpi rest devs groups calls d = Ok (devs', groups', calls', d') ∧
    matched table (rev_append rest T) devs0 devs' groups' calls'.
Proof.
  revert T devs groups calls d. induction rest as [|e rest IH]; intros T devs groups calls d Hsub HM; [by eexists _, _, _, _|].
  assert (e ∈ table) as He by (apply Hsub, list_elem_of_here). assert (rest ⊆ table) as Hsub' by (intros y Hy; apply Hsub; by apply list_elem_of_further).
  cbn [match_table rev_append]. pose proof (groups_small e He) as Hg.
  assert ((if negb (group_id e =? 0) then b ← group_bit (group_id e); mret (negb (Z.land groups b =? 0)) else mret false) =
    Ok (negb (group_id e =? 0) && Z.testbit groups (group_id e))) as ->.
  { destruct (negb (group_id e =? 0)); [|done]. rewrite group_bit_ok by done. cbn. by rewrite taken_bit by lia. }
  cbn [mbind result_bind]. destruct (Z.eqb_spec (group_id e) 0) as [Hz|Hne]; cbn [negb andb].
  - destruct (match_devices_ok e T devs [] groups calls d He HM) as (devs1&g1&c1&d1&E1&HM1); [by intros ? ?%elem_of_nil|done|].
    rewrite E1. cbn [mbind result_bind]. by apply IH.
  - destruct (Z.testbit groups (group_id e)) eqn:Ht.
    + cbn [mbind result_bind mret result_ret]. apply IH; [done|]. apply matched_next; [done|]. auto.
    + destruct (match_devices_ok e T devs [] groups calls d He HM) as (devs1&g1&c1&d1&E1&HM1); [by intros ? ?%elem_of_nil|done|].
      rewrite E1. cbn [mbind result_bind]. by apply IH.
Qed.
End Table.
End Space.

(** * What the PCI code promises *)

Section Theorems.
Context {D : Type} (m : memory) (hhdm_offset : Z) (acpi : acpi_state).
Context `{PciLaws D m hhdm_offset acpi}.
Variable kinds : location → list bar_kind.

(** C28: the search finds the functions of the machine, in order of bus, slot and
    function number: those of function 0, and the others of multifunction
    devices.  Each is described by its registers, its address registers by where
    they start and how many addresses they decode, and the registers are left as
    they were.  For a register of ports that decodes 16 bits, as the PCI
    specification allows, the size found is wrong by [2 ^ 32 - 2 ^ 16]
    ([ShortIoBar]).  Every function is taken to have six address registers, of
    the kinds [kinds] gives: a machine with bridges, which have two, is not
    covered. *)
Theorem pci_sweep_correct (d : D) : (∀ x, in_range x → there d x = true → bars_are d x 0 (kinds x)) →
  ∃ c d', sweep m hhdm_offset acpi d = Ok (c, d') ∧ same d d' ∧
    discovered c = (λ x, described d x (kinds x)) <$> filter (λ x, reached d x = true) locations.
Proof.
  intros Hk. destruct (sweep_ok m hhdm_offset acpi kinds d Hk) as ([c d']&E&HL&_&Hs). exists c, d'. split_and!; [done..|]. cbn in HL. by rewrite HL, found_eq.
Qed.

Lemma locations_in_range x : x ∈ locations → in_range x.
Proof.
  unfold locations. intros (b&Hb%list_elem_of_In&Hx)%list_elem_of_In%in_flat_map. apply in_flat_map in Hx as (s&Hs%list_elem_of_In&Hx%list_elem_of_In).
  apply list_elem_of_fmap in Hx as (f&->&Hf). rewrite elem_of_seqZ in *. unfold in_range. cbn. lia.
Qed.

Lemma found_places (d : D) (L : list location) : place <$> ((λ x, described d x (kinds x)) <$> L) = L.
Proof. induction L as [|[[b s] f] L IH]; [done|]. cbn. by rewrite IH. Qed.

(** C29: the functions that are found get their drivers: the code of a driver is
    called for devices it is for and whose needs are met, for every device at
    most once and for every group at most once; a device that no driver claimed
    is matched at most by drivers of groups that took another device. *)
Theorem pci_init_correct (d : D) (table : list (pci_driver_entry_t (D := D))) :
  (∀ x, in_range x → there d x = true → bars_are d x 0 (kinds x)) → (∀ e, e ∈ table → 0 <= group_id e < 31) →
  ∃ devs calls d', pci_init m hhdm_offset acpi table d = Ok (devs, calls, d') ∧
    place <$> devs = filter (λ x, reached d x = true) locations ∧
    (∀ c, c ∈ calls → call_right acpi table c ∧ called_with c ∈ devs) ∧
    NoDup ((λ c, place (called_with c)) <$> calls) ∧
    (∀ i j c c', calls !! i = Some c → calls !! j = Some c' → group_id (driver c) ≠ 0 → group_id (driver c) = group_id (driver c') → i = j) ∧
    ∀ x e, x ∈ devs → claimed x = false → e ∈ table → driver_matches e x = true →
      group_id e ≠ 0 ∧ ∃ e' y, e' ∈ table ∧ group_id e' = group_id e ∧ y ∈ devs ∧ claimed y = true ∧ driver_matches e' y = true.
Proof.
  intros Hk Hg. destruct (sweep_ok m hhdm_offset acpi kinds d Hk) as ([c d1]&E&HL&_&Hs). cbn in HL. rewrite found_eq in HL.
  unfold pci_init. rewrite E. cbn [mbind result_bind]. set (L := filter (λ x, reached d x = true) locations) in *.
  assert (place <$> discovered c = L) as Hpl by (rewrite HL; apply found_places).
  destruct (match_table_ok m hhdm_offset acpi table (discovered c) Hg) with (rest := table) (T := @nil (pci_driver_entry_t (D := D))) (devs := discovered c) (groups := 0)
    (calls := @nil (call (D := D))) (d := d1) as (devs&gs&calls&d2&E2&HM).
  - rewrite Hpl. apply NoDup_filter, locations_nodup.
  - rewrite Hpl. apply Forall_forall. intros x [_ Hx]%list_elem_of_filter. by apply locations_in_range.
  - done.
  - constructor; try (intros ? ?%elem_of_nil; done); try done; [by apply Forall2_same_length_lookup_2; [done|]; intros ? x y Hx Hy; left; congruence|constructor| |].
    + intros x e _ _ ?%elem_of_nil. done.
    + intros g. by rewrite Z.bits_0.
  - rewrite E2. cbn [mbind result_bind]. exists devs, calls, d2. split; [done|]. pose proof (matched_places _ _ _ _ _ _ _ HM) as Hpl2. destruct HM as [_ Hc Hcl Ho _ Hgr Hr Hw].
    split; [by rewrite Hpl2|]. split; [intros c0 Hc0; split; [auto|by apply Hcl]|]. split; [done|]. split; [done|].
    intros x e Hx Hxc He Hm. rewrite rev_append_rev, app_nil_r in Hr. destruct (Hr x e Hx Hxc) as [Hne Hb]; [by apply list_elem_of_In, in_rev; rewrite rev_involutive; apply list_elem_of_In|done|].
    split; [done|]. destruct (Hw _ Hb) as (e'&y&?&?&?&?&?). by exists e', y.
Qed.
End Theorems.

(** * A machine *)

(** Registers behind the ports of mechanism 1, without mapped ones: [sel] is the
    address in the port, a place without a function reads all ones, and
    [demo_decode] has the address registers; one at 0:9.0 decodes 16 bits. *)
Record hw := mkHw { sel : Z; regs : gmap (location * Z) Z }.

Definition reg_of (d : hw) (k : location * Z) : Z := u32 (default 0xFFFFFFFF (regs d !! k)).

Definition demo_decode (x : location) (off : Z) : option (Z * Z) :=
  if decide ((x, off) = ((0, 1, 0), 0x20)) then Some (4, 1)
  else if decide ((x, off) = ((0, 1, 2), 0x10)) then Some (17, 0)
  else if decide ((x, off) = ((0, 1, 2), 0x18)) then Some (32, 12)
  else if decide ((x, off) = ((0, 1, 2), 0x1C)) then Some (1, 0)
  else None.

Definition demo_written (x : location) (off old new : Z) : Z :=
  match demo_decode x off with
  | Some (k, fl) => u32 (2 ^ k * (new / 2 ^ k) + fl)
  | None => if decide ((x, off) = ((0, 9, 0), 0x10)) then u16 (2 ^ 5 * (new / 2 ^ 5) + 1) else if off =? 4 then u16 new else u32 old
  end.

Definition selected (d : hw) : location * Z :=
  let a := sel d - 2 ^ 31 in ((a / 2 ^ 16, a / 2 ^ 11 mod 32, a / 2 ^ 8 mod 8), a mod 2 ^ 8).

#[export] Instance hw_bus : PciBus hw := {|
  outl p v d := if p =? PCI_CONFIG_ADDRESS then mkHw v (regs d)
                else let k := selected d in mkHw (sel d) (<[k := demo_written k.1 k.2 (reg_of d k) v]> (regs d));
  inl p d := (reg_of d (selected d), d);
  mmio_load n a d := (0, d);
  mmio_store n a v d := d
|}.

#[export] Instance hw_space : PciSpace hw := {| config d x off := reg_of d (x, off); written := demo_written |}.

Lemma selected_ok x off r : in_range x → register off → selected (mkHw (mechanism1 x off) r) = (x, off).
Proof.
  destruct x as [[b s] f]. intros (Hb&Hs&Hf) [Ho _]. cbn in Hb, Hs, Hf. unfold selected, mechanism1. cbn [sel fst snd].
  set (a := 2 ^ 31 + b * 2 ^ 16 + s * 2 ^ 11 + f * 2 ^ 8 + off - 2 ^ 31). assert (a = b * 2 ^ 16 + s * 2 ^ 11 + f * 2 ^ 8 + off) as -> by (unfold a; lia).
  repeat f_equal; Z.div_mod_to_equations; lia.
Qed.

Lemma demo_written_range x off old new : 0 <= demo_written x off old new < 2 ^ 32.
Proof.
  unfold demo_written. pose proof (u32_range old). destruct (demo_decode x off) as [[k fl]|]; [apply u32_range|]. pose proof (u16_range new). pose proof (u16_range (2 ^ 5 * (new / 2 ^ 5) + 1)). destruct (decide _), (off =? 4); lia.
Qed.

Lemma demo_ecam x : ecam ∅ 0 acpi_start x.1.1 x.1.2 x.2 = Ok NULL.
Proof. done. Qed.

Lemma hw_write (d : hw) x off v : in_range x → register off →
  after_write d x off v (outl PCI_CONFIG_DATA v (outl PCI_CONFIG_ADDRESS (mechanism1 x off) d)).
Proof.
  intros Hx Ho. unfold after_write. cbn [outl hw_bus config written hw_space].
  change (PCI_CONFIG_DATA =? PCI_CONFIG_ADDRESS) with false. change (PCI_CONFIG_ADDRESS =? PCI_CONFIG_ADDRESS) with true. cbn iota. rewrite selected_ok by done.
  cbn [fst snd sel regs]. change (reg_of (mkHw (mechanism1 x off) (regs d)) (x, off)) with (reg_of d (x, off)). set (w := demo_written _ _ _ _).
  assert (0 <= w < 2 ^ 32) as Hw by apply demo_written_range. clearbody w. unfold reg_of. cbn [regs]. split.
  - rewrite lookup_insert_eq. by apply u32_id.
  - intros y o Hne. by rewrite lookup_insert_ne.
Qed.

#[export] Instance hw_laws : PciLaws hw ∅ 0 acpi_start.
Proof.
  split.
  - intros d x off. apply u32_range.
  - intros d x off Hx Ho. cbn [inl outl hw_bus config hw_space]. change (PCI_CONFIG_ADDRESS =? PCI_CONFIG_ADDRESS) with true. cbn iota. rewrite selected_ok by done.
    by split.
  - intros. by apply hw_write.
  - intros x _. exists NULL. apply demo_ecam.
  - intros d x off a _ _ E. rewrite demo_ecam in E. congruence.
  - intros d x off v a _ _ _ E. rewrite demo_ecam in E. congruence.
Qed.

(** A host bridge, and a device with a disk controller and a network card. *)
Definition function_regs (x : location) (id class header : Z) (line : Z) (l : list Z) : list (location * Z * Z) :=
  [(x, 0, id); (x, 4, 0); (x, 8, class); (x, 0x0C, header); (x, 0x3C, line)] ++ zip ((λ b, (x, 0x10 + 4 * b)) <$> seqZ 0 6) l.

Definition demo_functions : list (location * Z * Z) :=
  function_regs (0, 0, 0) 0x12378086 0x06000002 0 0 [0; 0; 0; 0; 0; 0] ++
  function_regs (0, 1, 0) 0x70108086 0x01018000 0x00800000 14 [0; 0; 0; 0; 0xC041; 0] ++
  function_regs (0, 1, 2) 0x100E8086 0x02000003 0x00800000 0x10B [0xFEB80000; 0; 0xC; 8; 0; 0].

Definition demo_hw : hw := mkHw 0 (list_to_map demo_functions).

Definition demo_kinds (x : location) : list bar_kind :=
  if decide (x = (0, 1, 0)) then [NoBar; NoBar; NoBar; NoBar; IoBar 4 0xC04; NoBar]
  else if decide (x = (0, 1, 2)) then [MemBar 17 0x7F5C 0; NoBar; WideBar 33 4 12; NoBar; NoBar]
  else replicate 6 NoBar.

Lemma demo_there x : there demo_hw x = true → x ∈ [(0, 0, 0); (0, 1, 0); (0, 1, 2)].
Proof.
  assert (map_Forall (λ k _, k.2 = 0 → k.1 ∈ [(0, 0, 0); (0, 1, 0); (0, 1, 2)]) (regs demo_hw)) as Hk by (apply (bool_decide_eq_true_1 _); by vm_compute).
  unfold there. cbn [config hw_space]. unfold reg_of. destruct (regs demo_hw !! (x, 0)) as [v|] eqn:E; [|done]. intros _. by apply (Hk (x, 0) v E).
Qed.

Lemma demo_decodes x off k fl : demo_decode x off = Some (k, fl) → 0 <= k <= 32 → 0 <= fl < 2 ^ k → decodes (D := hw) x off k fl.
Proof.
  intros E Hk Hf old new Hn. cbn [written hw_space]. unfold demo_written. rewrite E. apply u32_id. assert (0 < 2 ^ k) by (apply Z.pow_pos_nonneg; lia).
  assert (2 ^ 32 = 2 ^ k * 2 ^ (32 - k)) as E32 by (rewrite <- Z.pow_add_r by lia; f_equal; lia).
  assert (0 <= new / 2 ^ k < 2 ^ (32 - k)) by (split; [apply Z.div_pos; lia|apply Z.div_lt_upper_bound; lia]). nia.
Qed.

Lemma demo_bars x : in_range x → there demo_hw x = true → bars_are demo_hw x 0 (demo_kinds x).
Proof.
  intros _ Hx%demo_there. rewrite !elem_of_cons, elem_of_nil in Hx.
  destruct_or! Hx; subst; try done; unfold demo_kinds; repeat case_decide; try done; cbn [replicate];
    repeat (apply bars_next; [cbn; lia| |cbn [bar_width]]); try (apply bars_end; cbn; lia); try reflexivity;
    cbn [bar_is]; split_and!; try lia; try reflexivity; try discriminate; try (rewrite !elem_of_cons; tauto);
    (apply demo_decodes; [reflexivity|vm_compute; by split|vm_compute; by split]).
Qed.

Lemma demo_reached : filter (λ x, reached demo_hw x = true) locations = [(0, 0, 0); (0, 1, 0); (0, 1, 2)].
Proof.
  assert (∀ x, reached demo_hw x = true → x ∈ [(0, 0, 0); (0, 1, 0); (0, 1, 2)]) as Hr by (intros x [_ Hx]%andb_true_iff; by apply demo_there).
  assert (∀ l, (∀ x, x ∈ l → x ∉ [(0, 0, 0); (0, 1, 0); (0, 1, 2)]) → filter (λ x, reached demo_hw x = true) l = []) as Hnone by (intros l Hl; apply filter_none; intros x Hx E; by apply (Hl x Hx), Hr).
  unfold locations. rewrite filter_flat_map. change (seqZ 0 256) with (seqZ 0 1 ++ seqZ 1 255). rewrite flat_map_app.
  assert (∀ (B : Type) (g : Z → list B) l, (∀ b, b ∈ l → g b = []) → flat_map g l = []) as Hnil.
  { intros B g l. induction l as [|b l IH]; intros Hl; [done|]. cbn [flat_map]. rewrite (Hl b), IH; [done| |apply list_elem_of_here]. intros c Hc. by apply Hl, list_elem_of_further. }
  rewrite (Hnil _ _ (seqZ 1 255)), app_nil_r; cycle 1.
  { intros b Hb%elem_of_seqZ. apply Hnone. intros x (s&_&(f&->&_)%list_elem_of_In%list_elem_of_fmap)%list_elem_of_In%in_flat_map. rewrite !elem_of_cons, elem_of_nil. intros Hx. destruct_or! Hx; first [done|injection Hx; lia]. }
  change (seqZ 0 1) with [0]. cbn [flat_map]. rewrite app_nil_r, filter_flat_map. change (seqZ 0 32) with (seqZ 0 2 ++ seqZ 2 30). rewrite flat_map_app.
  rewrite (Hnil _ _ (seqZ 2 30)), app_nil_r; cycle 1.
  { intros s Hs%elem_of_seqZ. apply Hnone. intros x (f&->&_)%list_elem_of_fmap. rewrite !elem_of_cons, elem_of_nil. intros Hx. destruct_or! Hx; first [done|injection Hx; lia]. }
  by vm_compute.
Qed.

(** The kernel with its IDE and network drivers, which all succeed. *)
Definition demo_driver : pci_dev_t → hw → Z * hw := λ _ d, (DRIVER_OK, d).
Definition demo_table : list (pci_driver_entry_t (D := hw)) := pci_discovery_table None None None (Some demo_driver) (Some demo_driver) None (Some demo_driver).

Definition seen (x : pci_dev_t) : location * Z * list (option pci_bar_t) := (place x, device_id x, bars x).

Lemma pci_sweep_correct_witness : ∃ c d', sweep ∅ 0 acpi_start demo_hw = Ok (c, d') ∧ seen <$> discovered c = [
  ((0, 0, 0), 0x1237, replicate 6 (Some no_bar));
  ((0, 1, 0), 0x7010, [Some no_bar; Some no_bar; Some no_bar; Some no_bar; Some (mkBar 0xC040 16 true); Some no_bar]);
  ((0, 1, 2), 0x100E, [Some (mkBar 0xFEB80000 0x20000 false); Some no_bar; Some (mkBar 0x800000000 (2 ^ 33) false); None; Some no_bar; Some no_bar])].
Proof.
  destruct (pci_sweep_correct ∅ 0 acpi_start demo_kinds demo_hw demo_bars) as (c&d'&E&_&HL). exists c, d'. split; [exact E|]. rewrite HL, demo_reached. vm_compute. reflexivity.
Defined.

Lemma pci_init_correct_witness : ∃ devs calls d', pci_init ∅ 0 acpi_start demo_table demo_hw = Ok (devs, calls, d') ∧
  place <$> devs = [(0, 0, 0); (0, 1, 0); (0, 1, 2)] ∧ NoDup ((λ c, place (called_with c)) <$> calls).
Proof.
  destruct (pci_init_correct ∅ 0 acpi_start demo_kinds demo_hw demo_table demo_bars) as (devs&calls&d'&E&Hpl&_&Ho&_).
  { intros e. unfold demo_table, pci_discovery_table. rewrite !elem_of_cons, elem_of_nil. intros He. destruct_or! He; subst; cbn; lia || done. }
  exists devs, calls, d'. split; [exact E|]. split; [rewrite Hpl; exact demo_reached|exact Ho].
Defined.

(** ** Where the code is wrong *)

(** The first driver needs mapped registers that the machine has not.  The device
    counts as claimed, and the second driver, which could have it, is never
    asked. *)
Definition needs_ecam : list (pci_driver_entry_t (D := hw)) := [
  mkDriver 0x8086 0x100E 2 0 0xFF 0 PCI_CAP_ECAM "mapped" (Some (λ _ d, (DRIVER_OK, d)));
  mkDriver 0x8086 0x100E 2 0 0xFF 0 0 "ports" (Some (λ _ d, (DRIVER_OK, d)))
].

Example claimed_without_driver :
  match match_table ∅ 0 acpi_start needs_ecam [described demo_hw (0, 1, 2) []] 0 [] demo_hw with Ok (devs, _, calls, _) => Some (claimed <$> devs, length calls) | _ => None end =
    Some ([true], 0%nat).
Proof. by vm_compute. Qed.

(** A kernel without the code for the E1000: that card still takes the network
    group, and the RTL8139 that the kernel has code for is left alone. *)
Example group_taken_without_code :
  let card id := mkDev (id mod 2 ^ 16) (id / 2 ^ 16) 2 0 0 11 0 3 0 [] false in
  match match_table ∅ 0 acpi_start (pci_discovery_table None None None None (Some demo_driver) None None) [card 0x100E8086; card 0x813910EC] 0 [] demo_hw with
  | Ok (devs, _, calls, _) => Some (claimed <$> devs, length calls)
  | _ => None
  end = Some ([true; false], 0%nat).
Proof. by vm_compute. Qed.

(** A register of I/O ports that decodes 16 bits for 32 ports: the size comes out
    with the upper half set. *)
Example short_io_bar :
  (λ r, r.1) <$> match pci_get_bar ∅ 0 acpi_start 0 9 0 0 (mkHw 0 {[ ((0, 9, 0), 0x10) := 0xC041 ]}) with Ok r => Some r | _ => None end =
    Some (mkBar 0xC040 0xFFFF0020 true).
Proof. by vm_compute. Qed.
