(* ===== verification/Ramfs.v ===== *)
(** The RAM file system (src/fs/ramfs.[ch]) and the program that writes its image
    (tools/mkramfs.c).

    The kernel reads the image in memory; the program is a function from the
    files of its command line to the bytes it writes.  Both say how long an entry
    of the table is, and do not agree. *)

From S2P Require Import Prelude Mem Crc32 Bytes.

(** * The kernel *)

(** The sizes of [ramfs_header_t] and [ramfs_entry_t]. *)
Definition RAMFS_HEADER : Z := 16.
Definition RAMFS_ENTRY : Z := 80.

Record ramfs_handle_t := mkHandle { header : Z; entries : Z; base : Z }.
Record ramfs_file_t := mkFile { data : Z; size : Z }.

Definition ramfs_init (ptr : Z) : ramfs_handle_t := mkHandle ptr (u64 (ptr + RAMFS_HEADER)) ptr.

Section Kernel.
Variable m : memory.

(** Fields of a header and of an entry. *)
Definition file_count (h : Z) : result Z := load_le 4 m (h + 8).
Definition entry_offset (e : Z) : result Z := load_le 8 m (e + 64).
Definition entry_size (e : Z) : result Z := load_le 8 m (e + 72).

(** The loop over the entries; [fuel] is for the comparisons. *)
Fixpoint file_loop (fuel : nat) (n : nat) (e base name : Z) : result ramfs_file_t :=
  match n with
  | O => mret (mkFile NULL 0)
  | S n =>
      d ← strcmp fuel m e name;
      if d =? 0 then o ← entry_offset e; s ← entry_size e; mret (mkFile (u64 (base + o)) s)
      else file_loop fuel n (e + RAMFS_ENTRY) base name
  end.

Definition ramfs_get_file (fuel : nat) (handle : ramfs_handle_t) (name : Z) : result ramfs_file_t :=
  n ← file_count (header handle); file_loop fuel (Z.to_nat n) (entries handle) (base handle) name.
End Kernel.

(** * The image builder *)

Definition RAMFS_MAGIC : Z := 0x494E495452414D21.

(** [crc32_fill]: an entry of the table, and the table. *)
Definition fill_bit (z : Z) : Z := if Z.land z 1 =? 0 then Z.shiftr z 1 else Z.lxor (Z.shiftr z 1) 0xEDB88320.
Definition crc32_fill : list Z := (λ index, Nat.iter 8 fill_bit index) <$> seqZ 0 256.

Definition crc32_byte (table : list Z) (p : bytes) : Z :=
  Z.lxor (foldl (λ crc b, Z.lxor (default 0 (table !! Z.to_nat (Z.lxor (u8 crc) b))) (Z.shiftr crc 8)) 0xFFFFFFFF p) 0xFFFFFFFF.

(** What is behind the last slash. *)
Definition filename (full_path : bytes) : bytes :=
  foldl (λ r c, if c =? 47 then [] else r ++ [c]) [] full_path.

(** [strncpy] of 63 characters into a field of 64 zeros. *)
Definition name_field (s : bytes) : bytes := let n := take 63 s in n ++ replicate (64 - length n) 0.

(** [ramfs_entry_t] of the builder has a checksum behind the size. *)
Record built_entry := mkBuilt { b_name : bytes; b_offset : Z; b_size : Z; b_checksum : Z }.
Definition BUILT_ENTRY : Z := 84.
Definition built_image (e : built_entry) : bytes := name_field (b_name e) ++ le 8 (b_offset e) ++ le 8 (b_size e) ++ le 4 (b_checksum e).

(** The loop over the arguments, a path with the contents, None when the file
    cannot be opened: the table and the data. *)
Fixpoint pack_loop (files : list (bytes * option bytes)) (current_off : Z) : list built_entry * bytes :=
  match files with
  | [] => ([], [])
  | (_, None) :: files => let '(t, d) := pack_loop files current_off in (mkBuilt [] 0 0 0 :: t, d)
  | (full_path, Some buf) :: files =>
      let size := Z.of_nat (length buf) in
      let '(t, d) := pack_loop files (current_off + size) in
      (mkBuilt (filename full_path) current_off size (crc32_byte crc32_fill (take (Z.to_nat (u32 size)) buf)) :: t, buf ++ d)
  end.

(** The bytes that [main] writes when it has a file to pack. *)
Definition pack (files : list (bytes * option bytes)) : bytes :=
  let num_files := Z.of_nat (length files) in
  let '(t, d) := pack_loop files (RAMFS_HEADER + num_files * BUILT_ENTRY) in
  le 8 RAMFS_MAGIC ++ le 4 num_files ++ le 4 0 ++ flat_map built_image t ++ d.

(** * Checksums *)

(** The table and the checksum of the builder are the ones of the kernel. *)
Lemma crc32_fill_eq : crc32_fill = poly8_lookup.
Proof. vm_compute. reflexivity. Qed.

Lemma crc32_byte_eq l : Forall is_byte l → crc32_byte crc32_fill l = crc32 l.
Proof.
  intros Hl. unfold crc32_byte, crc32.
  assert (∀ c, 0 <= c < 2 ^ 32 → foldl (λ crc b, Z.lxor (default 0 (crc32_fill !! Z.to_nat (Z.lxor (u8 crc) b))) (Z.shiftr crc 8)) c l = foldl crc32_step c l ∧
    0 <= foldl crc32_step c l < 2 ^ 32) as H.
  { induction Hl as [|b l Hb Hl IH]; intros c Hc; [done|]. cbn [foldl].
    assert (is_byte (Z.lxor (u8 c) b)) as Hx by (apply lxor_range; [lia|apply u8_range|exact Hb]).
    assert (Z.lxor (default 0 (crc32_fill !! Z.to_nat (Z.lxor (u8 c) b))) (Z.shiftr c 8) = crc32_step c b) as ->.
    { rewrite crc32_fill_eq. unfold crc32_step. by rewrite Z.lxor_comm, (Z.lxor_comm b). }
    apply IH. rewrite crc32_step_ok by done. by apply crc_byte_range. }
  destruct (H 0xFFFFFFFF ltac:(lia)) as [-> Hr]. symmetry. by apply complement_32.
Qed.

(** * What is found *)

(** An entry of a file at [e], as the kernel reads it. *)
Definition entry_at (m : memory) (e : Z) (name : list Z) (off size : Z) : Prop :=
  cstring m e name ∧ entry_offset m e = Ok off ∧ entry_size m e = Ok size.

(** A table of entries in the layout of the kernel. *)
Definition table_at (m : memory) (e : Z) (T : list (list Z * Z * Z)) : Prop :=
  ∀ i n o s, T !! i = Some (n, o, s) → entry_at m (e + Z.of_nat i * RAMFS_ENTRY) n o s.

Lemma entry_name m e n o s fuel p name : entry_at m e n o s → cstring m p name → (length n < fuel)%nat →
  strcmp fuel m e p = Ok (str_diff n name) ∧ (str_diff n name =? 0) = bool_decide (n = name).
Proof.
  intros (Hn&_) Hp Hf. split.
  - pose proof Hn as (?&_). pose proof Hp as (?&_). unfold strcmp, nonnull. rewrite !(proj2 (Z.eqb_neq _ NULL)) by (unfold NULL; lia). cbn [mbind result_bind].
    apply (strcmp_loop_ok fuel m e p n name 0); [done|done|lia|lia|lia].
  - pose proof Hn as (_&Hc1&_). pose proof Hp as (_&Hc2&_). pose proof (str_diff_zero n name Hc1 Hc2) as Hz.
    case_bool_decide; [by apply Z.eqb_eq, Hz|apply Z.eqb_neq; tauto].
Qed.

Lemma file_loop_ok m fuel T e base p name : table_at m e T → cstring m p name → Forall (λ x, (length x.1.1 < fuel)%nat) T →
  file_loop m fuel (length T) e base p =
    Ok (match list_find (λ x, x.1.1 = name) T with Some (_, (_, o, s)) => mkFile (u64 (base + o)) s | None => mkFile NULL 0 end).
Proof.
  intros HT Hp HF. revert e HT. induction HF as [|[[n o] s] T Hf _ IH]; intros e HT; [done|]. cbn [length file_loop].
  assert (entry_at m e n o s) as He by (replace e with (e + Z.of_nat 0 * RAMFS_ENTRY) by lia; by apply (HT 0%nat)).
  destruct (entry_name m e n o s fuel p name He Hp Hf) as [-> Ez]. cbn [mbind result_bind]. rewrite Ez. destruct He as (_&Eo&Es). cbn [list_find].
  case_bool_decide as Hn.
  - rewrite decide_True by done. rewrite Eo. cbn [mbind result_bind]. by rewrite Es.
  - rewrite decide_False by done. rewrite IH.
    + destruct (list_find _ T) as [[i [[n' o'] s']]|]; done.
    + intros i n' o' s' Hi. replace (e + RAMFS_ENTRY + Z.of_nat i * RAMFS_ENTRY) with (e + Z.of_nat (S i) * RAMFS_ENTRY) by lia. by apply (HT (S i)).
Qed.

(** In an image with entries as long as the kernel takes them, the first file of
    a name is found, and a name without a file gives NULL. *)
Theorem ramfs_get_file_correct m ptr T p name fuel : 0 <= ptr < 2 ^ 64 - RAMFS_HEADER → load_le 4 m (ptr + 8) = Ok (Z.of_nat (length T)) →
  table_at m (ptr + RAMFS_HEADER) T → cstring m p name → Forall (λ x, (length x.1.1 < fuel)%nat) T →
  ramfs_get_file m fuel (ramfs_init ptr) p =
    Ok (match list_find (λ x, x.1.1 = name) T with Some (_, (_, o, s)) => mkFile (u64 (ptr + o)) s | None => mkFile NULL 0 end).
Proof.
  intros Hptr En HT Hp HF. unfold ramfs_get_file, file_count. cbn [header entries base ramfs_init]. rewrite En. cbn [mbind result_bind].
  rewrite Nat2Z.id, u64_id by (unfold RAMFS_HEADER in *; lia). by apply file_loop_ok.
Qed.

(** * What the builder packed *)

Lemma filename_chars path : Forall (λ c, 1 <= c < 256) path → Forall (λ c, 1 <= c < 256) (filename path).
Proof.
  unfold filename. assert (∀ r, Forall (λ c, 1 <= c < 256) r → Forall (λ c, 1 <= c < 256) path →
    Forall (λ c, 1 <= c < 256) (foldl (λ r c, if c =? 47 then [] else r ++ [c]) r path)) as H; [|intros; by apply H].
  induction path as [|c path IH]; intros r Hr Hp; [done|]. apply Forall_cons in Hp as [Hc Hp]. cbn [foldl]. apply IH; [|done].
  destruct (c =? 47); [done|]. apply Forall_app. auto.
Qed.

(** A field of a name holds the string. *)
Lemma name_field_string m a s : 0 < a → Forall (λ c, 1 <= c < 256) s → stored m a (name_field s) →
  (∀ i, a <= i < a + 64 → u64 i = i ∧ ptr_is_canonical i = true) → cstring m a (take 63 s).
Proof.
  intros Ha Hs H Hc. unfold name_field in H. remember (take 63 s) as n eqn:En.
  assert (length n <= 63)%nat as Hn by (subst n; rewrite length_take; lia). repeat split; [done|..].
  - subst n. by apply Forall_take.
  - unfold range_is_safe. rewrite (proj2 (Z.eqb_neq _ 0)) by lia. destruct (Hc (a + Z.of_nat (S (length n)) - 1) ltac:(lia)) as [-> ->]. destruct (Hc a ltac:(lia)) as [_ ->].
    by rewrite (proj2 (Z.ltb_ge _ _)) by lia.
  - by destruct (Hc (a + Z.of_nat i) ltac:(lia)).
  - by destruct (Hc (a + Z.of_nat i) ltac:(lia)).
  - intros i Hi. rewrite H by (rewrite length_app, length_replicate; lia). destruct (decide (i < length n)%nat) as [Hl|Hl].
    + rewrite lookup_app_l by done. destruct (lookup_lt_is_Some_2 n i Hl) as [c ->]. done.
    + rewrite lookup_app_r by lia. rewrite lookup_replicate_2 by lia. by rewrite lookup_ge_None_2 by lia.
Qed.

Lemma name_field_length s : length (name_field s) = 64%nat.
Proof. unfold name_field. cbv zeta. rewrite length_app, length_replicate, length_take. lia. Qed.

Lemma built_image_length e : length (built_image e) = 84%nat.
Proof. unfold built_image. by rewrite !length_app, name_field_length, !le_length. Qed.

Lemma pack_table files o t d : pack_loop files o = (t, d) → length (flat_map built_image t) = (84 * length files)%nat.
Proof.
  revert o t d. induction files as [|[path [buf|]] files IH]; intros o t d H; cbn [pack_loop] in H; [by injection H as <- _|..];
    destruct (pack_loop files _) as [t' d'] eqn:E; injection H as <- _; cbn [flat_map length]; rewrite length_app, built_image_length, (IH _ _ _ E); lia.
Qed.

(** C27: the first file of an image that the builder wrote: the offset, the size and
    where its bytes are. *)
Theorem first_file_found m ptr path buf files p fuel :
  let image := pack ((path, Some buf) :: files) in
  stored m ptr image → 0 < ptr → (∀ i, ptr <= i < ptr + Z.of_nat (length image) → u64 i = i ∧ ptr_is_canonical i = true) →
  ptr + Z.of_nat (length image) < 2 ^ 64 → Z.of_nat (S (length files)) < 2 ^ 24 →
  Forall (λ c, 1 <= c < 256) path → cstring m p (take 63 (filename path)) → (63 < fuel)%nat →
  ∃ f, ramfs_get_file m fuel (ramfs_init ptr) p = Ok f ∧ size f = Z.of_nat (length buf) ∧ load_bytes (length buf) m (data f) = Ok buf.
Proof.
  intros image Hst Hptr Hcan Hlen Hn Hpath Hp Hfuel. subst image. unfold pack in *. cbn [pack_loop length] in *.
  remember (RAMFS_HEADER + Z.of_nat (S (length files)) * BUILT_ENTRY) as off eqn:Eoff.
  destruct (pack_loop files (off + Z.of_nat (length buf))) as [t d] eqn:Ep. cbn [flat_map] in *. pose proof (pack_table _ _ _ _ Ep) as Ht.
  rewrite <- !app_assoc in *. rewrite !length_app, !le_length, built_image_length, Ht in Hlen, Hcan.
  assert (off = 16 + 84 * Z.of_nat (S (length files))) as Eo by (subst off; unfold RAMFS_HEADER, BUILT_ENTRY; lia). clear Eoff.
  apply stored_app in Hst as [_ Hst]. apply stored_app in Hst as [Hcount Hst]. apply stored_app in Hst as [_ Hst]. apply stored_app in Hst as [He Hst].
  apply stored_app in Hst as [_ Hst]. apply stored_app in Hst as [Hdata _]. rewrite !le_length, ?built_image_length, ?Ht in *.
  set (e := {| b_name := _ |}) in *.
  unfold built_image in He. apply stored_app in He as [Hname He]. apply stored_app in He as [Hoff He]. apply stored_app in He as [Hsize _]. rewrite name_field_length, le_length in *.
  assert (entry_at m (ptr + 16) (take 63 (filename path)) off (Z.of_nat (length buf))) as Ha.
  { split; [|split].
    - apply name_field_string; [lia|by apply filename_chars| |intros i Hi; apply Hcan; lia]. by replace (ptr + 16) with (ptr + Z.of_nat 8 + Z.of_nat 4 + Z.of_nat 4) by lia.
    - apply (stored_le _ _ (le 8 off)); [|done|lia]. by replace (ptr + 16 + 64) with (ptr + Z.of_nat 8 + Z.of_nat 4 + Z.of_nat 4 + Z.of_nat 64) by lia.
    - apply (stored_le _ _ (le 8 (Z.of_nat (length buf)))); [|done|lia]. by replace (ptr + 16 + 72) with (ptr + Z.of_nat 8 + Z.of_nat 4 + Z.of_nat 4 + Z.of_nat 64 + Z.of_nat 8) by lia. }
  unfold ramfs_get_file, file_count. cbn [header entries base ramfs_init]. rewrite (stored_le m (ptr + 8) _ (Z.of_nat (S (length files))) 4 Hcount) by (done || lia). cbn [mbind result_bind].
  unfold RAMFS_HEADER. rewrite Nat2Z.id, u64_id by lia. cbn [file_loop].
  destruct (entry_name m _ _ _ _ fuel p _ Ha Hp) as [-> Ez]; [rewrite length_take; lia|]. cbn [mbind result_bind]. rewrite Ez, bool_decide_eq_true_2 by done.
  destruct Ha as (_&Eoff&Esize). rewrite Eoff. cbn [mbind result_bind]. rewrite Esize. eexists. split; [done|]. cbn [size data]. split; [done|].
  rewrite u64_id by lia. apply stored_bytes. replace (ptr + off) with (ptr + Z.of_nat 8 + Z.of_nat 4 + Z.of_nat 4 + Z.of_nat 84 + Z.of_nat (84 * length files)) by lia. done.
Qed.

(** * Examples *)

(** The image of [a/b] and [c], and the names b, c and d, as strings. *)
Definition demo_files : list (bytes * option bytes) := [([97; 47; 98], Some [7; 8; 9]); ([99], Some [5; 6])].
Definition demo_mem : memory := list_to_map (zip (seqZ 0x1000 (Z.of_nat (length (pack demo_files)))) (pack demo_files)) ∪
  list_to_map (zip (seqZ 0x5000 6) [98; 0; 99; 0; 100; 0]).

Lemma demo_b : cstring demo_mem 0x5000 [98].
Proof.
  split; [lia|]. split; [repeat constructor; lia|]. split; [by vm_compute|]. split.
  - intros [|[|i]] Hi; [..|simpl in Hi; lia]; by vm_compute.
  - intros [|[|i]] Hi; [..|simpl in Hi; lia]; by vm_compute.
Qed.

(** The table of the image, as the kernel reads its first entry. *)
Definition demo_table : list (list Z * Z * Z) := [([98], 184, 3)].
Definition one_mem : memory := <[0x1008 := 1]> demo_mem.

Lemma one_string a l : cstring demo_mem a l → a + Z.of_nat (length l) < 0x1008 ∨ 0x1008 < a → cstring one_mem a l.
Proof.
  intros (?&?&?&?&H) Ha. repeat split; [done|done|done|by apply H3|by apply H3|]. intros i Hi. unfold one_mem. rewrite lookup_insert_ne by lia. by apply H.
Qed.

Lemma demo_entry : entry_at demo_mem 0x1010 [98] 184 3.
Proof.
  split; [|split; by vm_compute].
  split; [lia|]. split; [repeat constructor; lia|]. split; [by vm_compute|]. split.
  - intros [|[|i]] Hi; [..|simpl in Hi; lia]; by vm_compute.
  - intros [|[|i]] Hi; [..|simpl in Hi; lia]; by vm_compute.
Qed.

Lemma ramfs_get_file_correct_witness : ramfs_get_file one_mem 64 (ramfs_init 0x1000) 0x5000 = Ok (mkFile (0x1000 + 184) 3).
Proof.
  apply (ramfs_get_file_correct one_mem 0x1000 demo_table 0x5000 [98] 64).
  - by vm_compute.
  - by vm_compute.
  - intros [|[|i]] n o s Hi; [|done..]. injection Hi as <- <- <-. destruct demo_entry as (?&_). split; [by apply one_string; [|right]|split; by vm_compute].
  - apply one_string; [apply demo_b|by right].
  - repeat constructor.
Defined.

Lemma first_file_found_witness : ∃ f, ramfs_get_file demo_mem 64 (ramfs_init 0x1000) 0x5000 = Ok f ∧ size f = 3 ∧ load_bytes 3 demo_mem (data f) = Ok [7; 8; 9].
Proof.
  apply (first_file_found demo_mem 0x1000 [97; 47; 98] [7; 8; 9] [([99], Some [5; 6])] 0x5000 64).
  - intros i Hi. change (pack _) with (pack demo_files) in *. assert (Forall (λ i : nat, demo_mem !! (0x1000 + Z.of_nat i) = pack demo_files !! i) (seq 0 (length (pack demo_files)))) as H.
    { assert (forallb (λ i : nat, bool_decide (demo_mem !! (0x1000 + Z.of_nat i) = pack demo_files !! i)) (seq 0 (length (pack demo_files))) = true) as Hb by (vm_compute; reflexivity).
      apply Forall_forall. intros j Hj. rewrite forallb_forall in Hb. apply list_elem_of_In in Hj. specialize (Hb j Hj). by apply bool_decide_eq_true in Hb. }
    rewrite Forall_forall in H. apply H, elem_of_seq. lia.
  - lia.
  - intros i Hi. change (Z.of_nat (length _)) with 189 in Hi. assert (forallb (λ i, (u64 i =? i) && ptr_is_canonical i) (seqZ 0x1000 189) = true) as Hb by (vm_compute; reflexivity).
    rewrite forallb_forall in Hb. specialize (Hb i). rewrite <- list_elem_of_In, elem_of_seqZ in Hb. specialize (Hb ltac:(lia)). zify_bools. split; [lia|done].
  - by vm_compute.
  - by vm_compute.
  - repeat constructor; lia.
  - apply demo_b.
  - lia.
Defined.

(** The second file is not found: the kernel takes its entry four bytes too early. *)
Example second_file_lost : ramfs_get_file demo_mem 64 (ramfs_init 0x1000) 0x5002 = Ok (mkFile NULL 0).
Proof. vm_compute. reflexivity. Qed.
