(* ===== verification/Serial.v ===== *)
(** The serial port (src/drivers/UART16550.c) and the debug port (src/drivers/E9.c).

    Received bytes go through a ring that the interrupt handler fills and
    [uart16550_getc] empties.  An interrupt can come between any two accesses of
    [uart16550_getc]; runs of both are proved against a queue of at most 1023
    bytes whose operations happen at once. *)

From S2P Require Import Prelude Mem Bytes Ports Registry Irq.

Definition BOCHS_E9_PORT : Z := 0xE9.
Definition UART_COM1 : Z := 0x3F8.
Definition UART_DATA : Z := 0.
Definition UART_IER : Z := 1.
Definition UART_FCR : Z := 2.
Definition UART_LCR : Z := 3.
Definition UART_MCR : Z := 4.
Definition UART_LSR : Z := 5.
Definition UART_LSR_RX_READY : Z := 0x01.
Definition UART_LSR_TX_EMPTY : Z := 0x20.
Definition RX_BUF_SIZE : Z := 1024.

Record uart := mkUart { rx_buffer : bytes; rx_read_ptr : Z; rx_write_ptr : Z; initialized : bool }.

(** Zeroed memory. *)
Definition uart_boot : uart := mkUart (replicate (Z.to_nat RX_BUF_SIZE) 0) 0 0 false.

(** What the handler does with a byte. *)
Definition receive (c : Z) (s : uart) : result uart :=
  let next := u32 (rx_write_ptr s + 1) mod RX_BUF_SIZE in
  if negb (next =? rx_read_ptr s)
  then b ← put (rx_buffer s) (rx_write_ptr s) [c]; mret (mkUart b (rx_read_ptr s) next (initialized s))
  else mret s.

Section Devices.
Context {D : Type} `{Ports D}.
Implicit Types d : D.

Definition E9_putc (c : Z) d : D := outb BOCHS_E9_PORT (u8 c) d.

(** [E9_init] and [uart16550_init] register a device, [dev] being its address. *)
Definition E9_init (dev : Z) (r : registry_state) : result registry_state := '(_, r) ← device_register CHAR_DEV dev r; mret r.

Fixpoint uart16550_irq_handler (fuel : nat) (s : uart) d : result (uart * D) :=
  match fuel with
  | O => Fuel
  | S fuel =>
      let '(st, d) := inb (UART_COM1 + UART_LSR) d in
      if negb (Z.land st UART_LSR_RX_READY =? 0) then
        let '(c, d) := inb (UART_COM1 + UART_DATA) d in
        s ← receive c s; uart16550_irq_handler fuel s d
      else mret (s, d)
  end.

(** The writes of [uart16550_init]. *)
Definition init_writes : list (Z * Z) :=
  [(UART_IER, 0x00); (UART_LCR, 0x80); (UART_DATA, 0x01); (UART_IER, 0x00); (UART_LCR, 0x03); (UART_FCR, 0xC7); (UART_MCR, 0x0B)].

Definition uart16550_init (dev : Z) (r : registry_state) (s : uart) d : result (registry_state * uart * D) :=
  '(_, r) ← device_register CHAR_DEV dev r;
  mret (r, mkUart (rx_buffer s) 0 0 true, foldl (λ d '(reg, v), outb (UART_COM1 + reg) v d) d init_writes).

(** [handler] is the address of [uart16550_irq_handler]. *)
Definition uart16550_init_late {W} (handler : Z) (k : kernel W) d : result (kernel W * D) :=
  my_cpu ← core_at k (gs_base k);
  k ← irq_install_handler (logical_id my_cpu) 36 handler k;
  mret (k, outb (UART_COM1 + UART_IER) 0x01 d).

Fixpoint uart16550_wait_tx (fuel : nat) d : result D :=
  match fuel with
  | O => Fuel
  | S fuel =>
      let '(st, d) := inb (UART_COM1 + UART_LSR) d in
      if Z.land st UART_LSR_TX_EMPTY =? 0 then uart16550_wait_tx fuel d else mret d
  end.

Definition uart16550_putc (fuel : nat) (c : Z) d : result D :=
  d ← uart16550_wait_tx fuel d; mret (outb (UART_COM1 + UART_DATA) (u8 c) d).
End Devices.

(** * Receiving while interrupts come *)

(** Where [uart16550_getc] is: before the comparison, before the halt, halted,
    before the read of the byte, before the store of the read pointer, after the
    return. *)
Inductive getc_pc := GCheck | GSleep | GHalt | GRead | GAdvance (c : Z) | GDone (c : Z).

(** One access. *)
Definition getc_step (s : uart) (p : getc_pc) : result (uart * getc_pc) :=
  match p with
  | GCheck => mret (s, if rx_read_ptr s =? rx_write_ptr s then GSleep else GRead)
  | GSleep => mret (s, GHalt)
  | GHalt => mret (s, GHalt)
  | GRead => c ← of_option (rx_buffer s !! Z.to_nat (rx_read_ptr s)); mret (s, GAdvance c)
  | GAdvance c => mret (mkUart (rx_buffer s) (u32 (rx_read_ptr s + 1) mod RX_BUF_SIZE) (rx_write_ptr s) (initialized s), GDone c)
  | GDone c => mret (s, GDone c)
  end.

(** An interrupt, in which the device has the bytes [l] (none when it is of
    another device), a step of the reader, or the next call of it. *)
Inductive event := EIrq (l : bytes) | EStep | ECall.

Fixpoint receive_all (l : bytes) (s : uart) : result uart :=
  match l with [] => mret s | c :: l => s ← receive c s; receive_all l s end.

(** An interrupt ends the halt.  The state has the bytes that were returned,
    the first one first. *)
Definition event_step (e : event) (st : uart * getc_pc * bytes) : result (uart * getc_pc * bytes) :=
  let '(s, p, out) := st in
  match e with
  | EIrq l => s ← receive_all l s; mret (s, match p with GHalt => GCheck | p => p end, out)
  | EStep =>
      '(s, p') ← getc_step s p;
      mret (s, p', match p, p' with GAdvance _, GDone c => out ++ [c] | _, _ => out end)
  | ECall => mret (s, match p with GDone _ => GCheck | p => p end, out)
  end.

Fixpoint run (evs : list event) (st : uart * getc_pc * bytes) : result (uart * getc_pc * bytes) :=
  match evs with [] => mret st | e :: evs => st ← event_step e st; run evs st end.

(** * The queue *)

(** The state holds the bytes [q], oldest first. *)
Definition ring_holds (s : uart) (q : bytes) : Prop :=
  Z.of_nat (length (rx_buffer s)) = RX_BUF_SIZE ∧ 0 <= rx_read_ptr s < RX_BUF_SIZE ∧ Z.of_nat (length q) < RX_BUF_SIZE ∧
  rx_write_ptr s = (rx_read_ptr s + Z.of_nat (length q)) mod RX_BUF_SIZE ∧
  ∀ i : nat, (i < length q)%nat → rx_buffer s !! Z.to_nat ((rx_read_ptr s + Z.of_nat i) mod RX_BUF_SIZE) = q !! i.

(** The queue takes a byte when it has room. *)
Definition enqueue (q : bytes) (c : Z) : bytes := if Z.of_nat (length q) =? RX_BUF_SIZE - 1 then q else q ++ [c].

(** Its operations, on what it holds and what was taken. *)
Inductive queue_event := Arrive (l : bytes) | Take.
Definition queue_step (st : bytes * bytes) (e : queue_event) : bytes * bytes :=
  let '(q, out) := st in
  match e with
  | Arrive l => (foldl enqueue q l, out)
  | Take => match q with [] => (q, out) | c :: q => (q, out ++ [c]) end
  end.

(** What arrived, in runs of both. *)
Definition irqs (evs : list event) : list bytes := omap (λ e, match e with EIrq l => Some l | _ => None end) evs.
Definition arrivals (tr : list queue_event) : list bytes := omap (λ e, match e with Arrive l => Some l | _ => None end) tr.

(** What [getc] knows where it is. *)
Definition pc_ok (q : bytes) (p : getc_pc) : Prop :=
  match p with GRead => q ≠ [] | GAdvance c => head q = Some c | _ => True end.

Lemma rx_mod a : 0 <= a < 2 * RX_BUF_SIZE → a mod RX_BUF_SIZE = if a <? RX_BUF_SIZE then a else a - RX_BUF_SIZE.
Proof.
  unfold RX_BUF_SIZE. intros Ha. case_z; [apply Z.mod_small; lia|]. symmetry. apply (Z.mod_unique _ _ 1); lia.
Qed.

Lemma enqueue_length q c : Z.of_nat (length q) < RX_BUF_SIZE → Z.of_nat (length (enqueue q c)) < RX_BUF_SIZE.
Proof. unfold enqueue. intros Hq. case_z; [done|]. rewrite length_app. simpl. lia. Qed.

Lemma receive_ok s q c : ring_holds s q → ∃ s', receive c s = Ok s' ∧ ring_holds s' (enqueue q c).
Proof.
  intros (Hb&Hr&Hq&Hw&Hk). assert (RX_BUF_SIZE = 1024) as HN by done.
  assert (0 <= rx_write_ptr s < RX_BUF_SIZE) as Hwr by (rewrite Hw; apply Z.mod_pos_bound; lia).
  unfold receive, enqueue. rewrite u32_id by lia. rewrite (rx_mod (rx_write_ptr s + 1)) by lia. rewrite rx_mod in Hw by lia.
  set (w' := if rx_write_ptr s + 1 <? RX_BUF_SIZE then _ else _).
  assert (w' = rx_read_ptr s ↔ Z.of_nat (length q) = RX_BUF_SIZE - 1) as Hfull by (unfold w'; revert Hw; repeat case_z; lia).
  destruct (Z.eqb_spec w' (rx_read_ptr s)) as [E|E]; cbn [negb].
  { rewrite (proj2 (Z.eqb_eq _ _)) by (by apply Hfull). exists s. split; [done|]. split; [done|]. rewrite rx_mod by lia. done. }
  rewrite (proj2 (Z.eqb_neq (Z.of_nat _) _)) by (by rewrite <- Hfull).
  destruct (put_ok (rx_buffer s) (rx_write_ptr s) [c]) as (b&Eb&_); [lia|simpl; lia|]. rewrite Eb. cbn [mbind result_bind].
  eexists. split; [done|]. destruct (put_lookup _ _ _ _ Eb) as (Lb&_&_&Hbl). change (Z.of_nat (length [c])) with 1 in Hbl.
  unfold ring_holds. cbn [rx_buffer rx_read_ptr rx_write_ptr]. rewrite length_app. simpl length.
  split; [lia|]. split; [done|]. split; [lia|]. split.
  - rewrite rx_mod by lia. unfold w'. revert Hw. repeat case_z; lia.
  - intros i Hi. specialize (Hk i). rewrite rx_mod in * by lia. rewrite Hbl by (case_z; lia).
    destruct (decide (i = length q)) as [->|Hne].
    + rewrite <- Hw. settle_z. cbn [andb]. rewrite Z.sub_diag, lookup_app_r by lia. by rewrite Nat.sub_diag.
    + rewrite lookup_app_l by lia. rewrite <- Hk by lia. revert Hw. repeat case_z; cbn [andb]; try done; lia.
Qed.

Lemma receive_all_ok l s q : ring_holds s q → ∃ s', receive_all l s = Ok s' ∧ ring_holds s' (foldl enqueue q l).
Proof.
  revert s q. induction l as [|c l IH]; intros s q Hs; [by exists s|]. cbn [receive_all foldl].
  destruct (receive_ok s q c Hs) as (s1&->&Hs1). by apply IH.
Qed.

Lemma enqueue_head q c x : head q = Some x → head (enqueue q c) = Some x.
Proof. unfold enqueue. case_z; [done|]. by destruct q. Qed.
Lemma enqueue_all_head l q x : head q = Some x → head (foldl enqueue q l) = Some x.
Proof. revert q. induction l; intros q Hq; [done|]. cbn [foldl]. by apply IHl, enqueue_head. Qed.

Lemma pc_ok_arrive q l p : pc_ok q p → pc_ok (foldl enqueue q l) (match p with GHalt => GCheck | p => p end).
Proof.
  destruct p as [| | | |c|c]; cbn [pc_ok]; try done.
  - intros Hq E. destruct q as [|x q]; [done|]. pose proof (enqueue_all_head l (x :: q) x eq_refl) as Hh. by rewrite E in Hh.
  - apply enqueue_all_head.
Qed.

(** The accesses of [getc]: only the store of the pointer is seen by the queue. *)
Lemma getc_step_ok s q p : ring_holds s q → pc_ok q p → ∃ s' p', getc_step s p = Ok (s', p') ∧
  match p with
  | GAdvance c => p' = GDone c ∧ ∃ q', q = c :: q' ∧ ring_holds s' q'
  | _ => s' = s ∧ pc_ok q p' ∧ match p' with GDone c => p = GDone c | _ => True end
  end.
Proof.
  intros Hs Hp. pose proof Hs as (Hb&Hr&Hq&Hw&Hk). assert (RX_BUF_SIZE = 1024) as HN by done.
  destruct p as [| | | |c|c]; cbn [getc_step pc_ok] in *.
  - eexists _, _. split; [done|]. destruct (Z.eqb_spec (rx_read_ptr s) (rx_write_ptr s)) as [E|E]; [done|]. split; [done|]. split; [|done].
    intros ->. apply E. rewrite Hw, rx_mod; simpl; [|lia]. rewrite Z.add_0_r. by settle_z.
  - by eexists _, _.
  - by eexists _, _.
  - destruct q as [|c q]; [done|]. specialize (Hk 0%nat ltac:(simpl; lia)). rewrite rx_mod in Hk by lia. rewrite Z.add_0_r in Hk. revert Hk. settle_z. intros ->.
    by eexists _, _.
  - destruct q as [|x q]; [done|]. injection Hp as ->. eexists _, _. split; [done|]. split; [done|]. exists q. split; [done|].
    rewrite u32_id by lia. unfold ring_holds. cbn [rx_buffer rx_read_ptr rx_write_ptr]. simpl length in *.
    pose proof (Z.mod_pos_bound (rx_read_ptr s + 1) RX_BUF_SIZE ltac:(lia)). split; [done|]. split; [lia|]. split; [lia|]. split.
    + rewrite Zplus_mod_idemp_l, Hw. f_equal. lia.
    + intros i Hi. rewrite Zplus_mod_idemp_l. change (q !! i) with ((c :: q) !! S i). rewrite <- (Hk (S i)) by lia. f_equal. f_equal. f_equal. lia.
  - by eexists _, _.
Qed.

(** One event is one operation of the queue or none. *)
Lemma event_step_ok e s p out q : ring_holds s q → pc_ok q p →
  ∃ s' p' out' tr q', event_step e (s, p, out) = Ok (s', p', out') ∧ arrivals tr = irqs [e] ∧
    foldl queue_step (q, out) tr = (q', out') ∧ ring_holds s' q' ∧ pc_ok q' p'.
Proof.
  intros Hs Hp. destruct e as [l| |]; cbn [event_step].
  - destruct (receive_all_ok l s q Hs) as (s'&->&Hs'). eexists _, _, _, [Arrive l], _. split; [done|]. split; [done|]. split; [done|]. split; [done|]. by apply pc_ok_arrive.
  - destruct (getc_step_ok s q p Hs Hp) as (s'&p'&->&Hstep). cbn [mbind result_bind]. destruct p as [| | | |c|c].
    5: { destruct Hstep as (->&q'&->&Hs'). by eexists _, _, _, [Take], q'. }
    all: destruct Hstep as (->&Hp'&_); by eexists _, _, _, [], q.
  - eexists _, _, _, [], q. split; [done|]. split; [done|]. split; [done|]. split; [done|]. by destruct p.
Qed.

Lemma run_ok evs s p out q : ring_holds s q → pc_ok q p →
  ∃ s' p' out' tr q', run evs (s, p, out) = Ok (s', p', out') ∧ arrivals tr = irqs evs ∧
    foldl queue_step (q, out) tr = (q', out') ∧ ring_holds s' q' ∧ pc_ok q' p'.
Proof.
  revert s p out q. induction evs as [|e evs IH]; intros s p out q Hs Hp; [by eexists _, _, _, [], q|].
  destruct (event_step_ok e s p out q Hs Hp) as (s1&p1&out1&tr1&q1&E1&A1&F1&Hs1&Hp1). cbn [run]. rewrite E1. cbn [mbind result_bind].
  destruct (IH s1 p1 out1 q1 Hs1 Hp1) as (s2&p2&out2&tr2&q2&E2&A2&F2&Hs2&Hp2).
  eexists _, _, _, (tr1 ++ tr2), q2. split; [done|]. split; [|by rewrite foldl_app, F1].
  unfold arrivals, irqs in *. rewrite omap_app, A1, A2. by destruct e.
Qed.

(** A queue that never gets more bytes than it has room for loses none. *)
Lemma queue_keeps tr q out : Z.of_nat (length q) + Z.of_nat (length (concat (arrivals tr))) < RX_BUF_SIZE →
  let '(q', out') := foldl queue_step (q, out) tr in out' ++ q' = out ++ q ++ concat (arrivals tr).
Proof.
  revert q out. induction tr as [|[l|] tr IH]; intros q out Hl; cbn [foldl queue_step].
  - simpl. by rewrite app_nil_r.
  - change (arrivals (Arrive l :: tr)) with (l :: arrivals tr) in *. cbn [concat] in *. rewrite length_app in Hl.
    assert (foldl enqueue q l = q ++ l) as ->.
    { assert (Z.of_nat (length q) + Z.of_nat (length l) < RX_BUF_SIZE) as Hql by lia. clear - Hql. revert q Hql. induction l as [|c l IH]; intros q Hl; [by rewrite app_nil_r|]. simpl in *.
      unfold enqueue at 2. rewrite (proj2 (Z.eqb_neq _ _)) by lia. rewrite IH by (rewrite length_app; simpl; lia). by rewrite <- app_assoc. }
    specialize (IH (q ++ l) out ltac:(rewrite length_app; lia)). destruct (foldl _ _ _) as [q' out']. by rewrite IH, <- !app_assoc.
  - destruct q as [|c q]; [apply (IH [] out Hl)|]. simpl in Hl. specialize (IH q (out ++ [c]) ltac:(change (arrivals (Take :: tr)) with (arrivals tr) in Hl; lia)).
    destruct (foldl _ _ _) as [q' out']. rewrite IH, <- !app_assoc. done.
Qed.

(** Whatever interrupts come and wherever in [uart16550_getc] they do, what it
    returned and what is in the ring are those of a queue of 1023 bytes in which
    the same bytes arrive and are taken at once; while no more bytes came than
    there is room for, they are returned in order without a gap. *)
Theorem uart_refines_queue evs : ∃ s p out tr q,
  run evs (uart_boot, GCheck, []) = Ok (s, p, out) ∧ arrivals tr = irqs evs ∧ foldl queue_step ([], []) tr = (q, out) ∧ ring_holds s q ∧
  (Z.of_nat (length (concat (irqs evs))) < RX_BUF_SIZE → out ++ q = concat (irqs evs)).
Proof.
  destruct (run_ok evs uart_boot GCheck [] []) as (s&p&out&tr&q&E&A&F&Hs&_); [|done|].
  - split; [by vm_compute|]. split; [by vm_compute|]. split; [by vm_compute|]. split; [by vm_compute|]. intros i Hi. simpl in Hi. lia.
  - exists s, p, out, tr, q. split; [done|]. split; [done|]. split; [done|]. split; [done|]. intros Hl. pose proof (queue_keeps tr [] []) as Hkeep.
    rewrite F, A in Hkeep. by apply Hkeep.
Qed.

Ltac getc_simpl := cbn [run event_step getc_step mbind result_bind mret result_ret].

(** With a byte in the ring the three accesses return the oldest one, whatever
    interrupts come between them. *)
Theorem getc_returns s c q out l1 l2 l3 : ring_holds s (c :: q) →
  ∃ s' q', run [EIrq l1; EStep; EIrq l2; EStep; EIrq l3; EStep] (s, GCheck, out) = Ok (s', GDone c, out ++ [c]) ∧
    ring_holds s' q' ∧ c :: q' = foldl enqueue (c :: q) (l1 ++ l2 ++ l3).
Proof.
  intros Hs.
  assert (∀ l s q, ring_holds s q → head q = Some c → ∃ s' q', receive_all l s = Ok s' ∧ ring_holds s' q' ∧ q' = foldl enqueue q l ∧ head q' = Some c) as Hirq.
  { intros l s0 q0 H0 Hc. destruct (receive_all_ok l s0 q0 H0) as (s'&E&H'). exists s', (foldl enqueue q0 l). auto using enqueue_all_head. }
  destruct (Hirq l1 s _ Hs eq_refl) as (s1&q1&E1&H1&Q1&C1). destruct (Hirq l2 s1 q1 H1 C1) as (s2&q2&E2&H2&Q2&C2). destruct (Hirq l3 s2 q2 H2 C2) as (s3&q3&E3&H3&Q3&C3).
  getc_simpl. rewrite E1. getc_simpl.
  assert ((rx_read_ptr s1 =? rx_write_ptr s1) = false) as Hne.
  { destruct H1 as (_&Hr&Hq&Hw&_). apply Z.eqb_neq. intros E. rewrite E, rx_mod in Hw by lia. destruct q1; [done|]. simpl in *. revert Hw. case_z; lia. }
  rewrite Hne. getc_simpl. rewrite E2. getc_simpl.
  destruct (getc_step_ok s2 q2 GRead H2) as (s'&p'&Es&->&Hp'&_); [by destruct q2|]. cbn [getc_step] in Es. destruct (of_option _) as [x| | |] eqn:Ex in Es; cbn [mbind result_bind mret result_ret] in Es; try discriminate.
  injection Es as <-. cbn [pc_ok] in Hp'. rewrite C2 in Hp'. injection Hp' as <-. rewrite Ex. getc_simpl. rewrite E3. getc_simpl.
  destruct (getc_step_ok s3 q3 (GAdvance c) H3 C3) as (s'&p'&Es&_&q'&E'&Hs'). cbn [getc_step] in Es. injection Es as <- <-.
  eexists _, q'. split; [done|]. split; [done|]. rewrite <- E', Q3, Q2, Q1, !foldl_app. done.
Qed.

(** * The port *)

(** The device delivers the bytes [l], and has no more then. *)
Inductive supplies {D} `{Ports D} : D → bytes → D → Prop :=
| supplies_end d st d' : inb (UART_COM1 + UART_LSR) d = (st, d') → Z.land st UART_LSR_RX_READY = 0 → supplies d [] d'
| supplies_byte d st d1 c d2 l d3 : inb (UART_COM1 + UART_LSR) d = (st, d1) → Z.land st UART_LSR_RX_READY ≠ 0 →
    inb (UART_COM1 + UART_DATA) d1 = (c, d2) → supplies d2 l d3 → supplies d (c :: l) d3.

(** The handler takes what the device has, as one [EIrq]. *)
Theorem uart16550_irq_handler_correct {D} `{Ports D} (d : D) l d' s q fuel : supplies d l d' → (length l < fuel)%nat → ring_holds s q →
  ∃ s', uart16550_irq_handler fuel s d = Ok (s', d') ∧ receive_all l s = Ok s' ∧ ring_holds s' (foldl enqueue q l).
Proof.
  intros Hd. revert s q fuel. induction Hd as [d st d' E1 Hst|d st d1 c d2 l d3 E1 Hst E2 _ IH]; intros s q fuel Hf Hs; (destruct fuel as [|fuel]; [simpl in Hf; lia|]); cbn [uart16550_irq_handler]; rewrite E1.
  - rewrite (proj2 (Z.eqb_eq _ _) Hst). cbn [negb]. by exists s.
  - rewrite (proj2 (Z.eqb_neq _ _) Hst). cbn [negb]. rewrite E2. destruct (receive_ok s q c Hs) as (s1&E&Hs1). rewrite E. cbn [mbind result_bind receive_all foldl].
    destruct (IH s1 (enqueue q c) fuel) as (s'&->&E'&Hs'); [simpl in Hf; lia|done|]. rewrite E. by exists s'.
Qed.

(** The transmitter becomes empty after [n] polls. *)
Inductive empties {D} `{Ports D} : nat → D → D → Prop :=
| empties_now d st d' : inb (UART_COM1 + UART_LSR) d = (st, d') → Z.land st UART_LSR_TX_EMPTY ≠ 0 → empties 0 d d'
| empties_later n d st d1 d2 : inb (UART_COM1 + UART_LSR) d = (st, d1) → Z.land st UART_LSR_TX_EMPTY = 0 → empties n d1 d2 → empties (S n) d d2.

(** A byte is written when the transmitter is empty, and not before. *)
Theorem uart16550_putc_correct {D} `{Ports D} n c (d d' : D) fuel : empties n d d' → (n < fuel)%nat →
  uart16550_putc fuel c d = Ok (outb (UART_COM1 + UART_DATA) (u8 c) d').
Proof.
  intros Hd. revert fuel. unfold uart16550_putc. induction Hd as [d st d' E Hst|n d st d1 d2 E Hst _ IH]; intros [|fuel] Hf; try lia; cbn [uart16550_wait_tx]; rewrite E.
  - by rewrite (proj2 (Z.eqb_neq _ _) Hst).
  - rewrite (proj2 (Z.eqb_eq _ _) Hst). apply IH. lia.
Qed.

(** * Examples *)

(** The reader finds nothing and sleeps; two bytes come, one more behind the
    comparison and one behind the read of the first. *)
Definition demo_events : list event := [EStep; EStep; EStep; EIrq [65; 66]; EStep; EIrq [67]; EStep; EIrq [68]; EStep; ECall; EStep; EStep; EIrq []; EStep].

Lemma uart_refines_queue_witness : ∃ s q, run demo_events (uart_boot, GCheck, []) = Ok (s, GDone 66, [65; 66]) ∧ q = [67; 68] ∧ ring_holds s q.
Proof.
  destruct (uart_refines_queue demo_events) as (s&p&out&tr&q&E&_&_&Hs&Hq). specialize (Hq ltac:(vm_compute; reflexivity)).
  exists s, q. assert (∃ s', run demo_events (uart_boot, GCheck, []) = Ok (s', GDone 66, [65; 66])) as (s'&E') by (eexists; vm_compute; reflexivity).
  pose proof (eq_trans (eq_sym E') E) as Eq. injection Eq as -> <- <-. split; [exact E'|]. split; [|exact Hs].
  change (concat (irqs demo_events)) with ([65; 66] ++ [67; 68]) in Hq. by apply app_inv_head in Hq.
Defined.

(** A byte that comes between the comparison and the halt: the reader sleeps with
    the byte in the ring until another interrupt. *)
Example getc_sleeps_on_byte : ∃ s, run [EStep; EIrq [65]; EStep; EStep] (uart_boot, GCheck, []) = Ok (s, GHalt, []) ∧ rx_write_ptr s = 1.
Proof. eexists. split; vm_compute; reflexivity. Qed.

(** A full ring drops what comes. *)
Example full_ring_drops : ∃ s s', receive_all (replicate 1023 7) uart_boot = Ok s ∧ receive 8 s = Ok s' ∧ s' = s.
Proof. eexists _, _. split; [vm_compute; reflexivity|]. split; vm_compute; reflexivity. Qed.
